(* ===== verification/_CoqProject ===== *)
-Q . S2P
Prelude.v
HashProbe.v
PairArray.v
JoinPairArray.v
JoinMapPush.v
PDBVector.v
TopKQueue.v
Aggregation.v
AggregateSink.v
AggregateCombine.v
Pipeline.v
AggregationQuery.v
TupleSet.v
Executor.v
JoinProbe.v
JoinSink.v
Stages.v
Scan.v
TupleQuery.v
SetQuery.v
JoinTables.v
PartitionedJoin.v
JoinMerge.v
JoinShuffle.v
JoinQuery.v
PartitionedQuery.v
Allocator.v
Handle.v
HandleHeap.v
HandleCopy.v
HandleAssign.v
PageCircularBuffer.v
PDBPage.v
Files.v
FileMetaData.v
PartitionedFile.v
FileMetaRoundtrip.v
FileStore.v
FileErrors.v
LocalitySet.v
PageCache.v
Buzzer.v
WorkerQueue.v
WorkerQueueRuns.v
Dispatcher.v
Dispatching.v
UserSet.v
UserSetScan.v
RecordBuffer.v
RecordWriting.v
StorageSets.v
StorageSetsSpec.v
StorageCatalogue.v
