(* ===== verification/Prelude.v ===== *)
(** * netsDB: a verification library of its object model and page storage

    netsDB is a distributed analytics engine in C++.  This library models the
    two layers everything else stands on, the object model (allocation blocks
    and the containers that live in them) and the storage server's page cache,
    and on top of them the part of query execution that pushes rows through
    pipelines, joins and aggregates them, the threads that run all this and the
    dispatcher that spreads data over nodes, and proves what makes them correct.
    Paths below are relative to [src/src].

    ** The program's parts

    Objects live in allocation blocks ([objectModel]): a block is a stretch of
    memory that is shipped or written to a page as it is.  The containers of
    [builtInPDBObjects] are made in a block: [Vector] over [Array], [Map] over
    [PairArray], [JoinMap] over [JoinPairArray], [TopKQueue].  An allocation
    that does not fit throws [NotEnoughSpace], and query execution then moves
    on to a fresh block, so the behaviour of the containers when an allocation
    fails matters as much as when it succeeds.  The storage server ([storage])
    keeps pages in a table over a shared-memory pool ([PageCache]); a page
    ([PDBPage]) is pinned while in use; [LocalitySet]s order pages for
    replacement; dirty pages go through a [PageCircularBuffer] to threads that
    write them to files ([PDBFlushConsumerWork]).  A stored set ([UserSet]) knows
    which of its pages are dirty; it is scanned through iterators over these and
    over the partitions of its file, each by a work of its own.  Works run on the
    threads of a [PDBWorkerQueue] and tell that they are done with a
    [PDBBuzzer].  What clients add to a set goes through the [DispatcherServer],
    which sends it to the storage nodes as the set's [PartitionPolicy] says; the
    [PangeaStorageServer] of a node buffers it and writes it to pages.  It also
    keeps the tables of databases, types and sets.  A query runs as [Pipeline]s
    ([lambdas]) that take tuple sets from a source through stages to a sink
    ([queryExecution]) on an output page.  A query that aggregates ends its
    pipelines in a [ShuffleSink], with a [Map] per hash partition; each node
    combines the pages of its pipelines ([CombinerProcessor]) and sends them to
    the nodes of the partitions, where a thread per partition adds them up
    ([AggregationProcessor]) and makes output objects ([AggOutProcessor]).  A
    tuple set is a set of columns that stages pass on without copying them.  A
    query that joins ends its pipelines in a [JoinSink], which builds a
    [JoinMap] from hashes to join tuples; the tables of its pages are merged
    ([JoinSinkMerger]) and other pipelines probe the result ([JoinProbe]).  In a
    partitioned join there is a table per partition ([PartitionedJoinSink]), and
    the tables are sent to the nodes of their partitions before they are merged
    ([JoinSinkShuffler]).

    ** Files

    - [Prelude]: 32- and 64-bit arithmetic, outcomes of calls, the state monad,
      list, slot-table and finite-map-sum lemmas.
    - [HashProbe]: the probe loop all hash tables share
      ([builtInPDBObjects/headers/PairArray.cc], [JoinPairArray.cc]), and the
      size of their slots in bytes ([RecordSize], the field [objSize]).
    - [PairArray]: [PairArray.cc], [PDBMap.cc].  The record [PairArray] is the
      class, a list of slots its data; [operator_at], [count], [setUnused],
      [doubleArray], [setUpAndCopyFrom], the iterator and the [Map] wrapper are
      its methods.  [to_map] is the finite map a table stands for, [wf] its
      invariant.  The flag [disableDestructor] is the low byte of the hash of the
      first slot, as the slots start at its address.
    - [JoinPairArray]: [JoinPairArray.cc], [JoinMap.cc]: a table from hashes to
      lists of values, the overflow lists included; [to_multimap], [jwf].
    - [PDBVector]: [Array.cc], [PDBVector.cc]; [holds] relates an array with its
      uninitialised cells to a list.
    - [TopKQueue]: [TopKQueue.cc], over any [StrictWeakOrder] on scores; [best]
      says what the k best of a list are.
    - [Aggregation]: [ShuffleSink.h], [CombinedShuffleSink.h],
      [CombinerProcessor.cc], [AggregationProcessor.cc], [AggOutProcessor.cc],
      [AggregationMap.cc] and the loops that drive the processors in
      [PipelineStage.cc] and [HermesExecutionServer.cc].  [add_tuple] is the
      common body: it adds a pair to a map inside a larger state ([place]).
    - [AggregateSink]: aggregates as finite maps ([aggregate], [combine],
      [part]) and what the sinks do to their containers, for any sink that is
      [Partitioned].
    - [AggregateCombine]: the combiner and aggregation threads.
    - [Pipeline]: [lambdas/headers/Pipeline.h] over any source, stages and sink
      ([pipeline_ops]) that keep the laws of [PipelineLaws]; the pages taken and
      given back are a log ([events]).
    - [AggregationQuery]: the shuffle sink as the sink of a pipeline, and the
      steps of a distributed aggregation put together.
    - [TupleSet]: [lambdas/headers/TupleSet.h], [TupleSetMachine.h]: tuple sets
      as columns over a store of vectors in which addresses are never used
      twice; [store_ok], [owner_ok] and [apart] say who deletes what.
    - [Executor]: [FilterExecutor.h], [HashOneExecutor.h], [FlattenExecutor.h]
      and what a pipeline relies on in a stage ([StageLaws]).
    - [JoinProbe]: columns of join tuples and the probes of [JoinTuple.h].
    - [Stages]: [CPlusPlusLambda.h] and the constructors of all executors; every
      stage that fits the schema of its input ([typecheck]) keeps [StageLaws].
    - [Scan]: [VectorTupleSetIterator.h], [VectorSink.h].
    - [TupleQuery]: scan, stages and any sink that keeps [SinkLaws] in a
      pipeline, over one store; [SetQuery]: the same with a vector sink.
    - [JoinMapPush]: a [push] and what may follow it, for the joins.
    - [JoinSink], [PartitionedJoin], [JoinMerge], [JoinShuffle]: the classes
      [JoinSink], [PartitionedJoinSink], [JoinSinkMerger] and [JoinSinkShuffler]
      of [JoinTuple.h], with the loops of [HashPartitionWork.cc] and
      [HermesExecutionServer.cc] that call them.
    - [JoinTables], [JoinQuery], [PartitionedQuery]: the sinks as sinks of
      queries, and the steps of broadcast and partitioned joins put together.
    - [Allocator]: [objectModel/headers/Allocator.cc], [Allocator.h],
      [Record.cc]: blocks and chunks in a word-addressed memory; [wf_block]
      says that chunks tile the used part of the block and that the free ones
      are on the right lists, [block_step] is the relation of its steps.
    - [Handle]: [objectModel/headers/Handle.cc], [Handle.h],
      [RefCountedObject.cc], [PDBTemplateBase.cc], [DeepCopy.h],
      [InterfaceFunctions.cc], [PDBString.cc]: handles as words of the
      allocator's memory, counted objects, deletion, and deep copies of classes
      given by a table of members.
    - [HandleHeap]: the invariant of a block full of counted objects
      ([heap_inv]: every object has its own chunk, every count is the number of
      references, every handle leads to an object of its type), and that
      dropping a reference keeps it.
    - [HandleCopy]: deep copies build up new objects and take them back when the
      space runs out ([kept], [grown]); [copied] says that two objects look the
      same along the paths of handles up to a depth.
    - [HandleAssign]: what assignments of handles promise, and concrete states.
    - [PageCircularBuffer]: [storage/source/PageCircularBuffer.cc], sequential
      calls refining a bounded queue, and the interleaving of a producer and a
      consumer as the relation [thread_step].
    - [PDBPage]: [storage/source/PDBPage.cc], [storage/headers/PDBPage.h] on the
      bytes of a page, little endian.
    - [Files]: what the storage server uses of the C library's streams and of
      descriptors, on a disk that maps paths to bytes; [Parses] says what a
      reader makes of bytes.
    - [FileMetaData], [PartitionedFile]: [PartitionedFileMetaData.h] and
      [storage/source/PartitionedFile.cc].
    - [FileMetaRoundtrip]: metadata that is written can be built again.
    - [FileStore]: a partitioned file is a store of pages ([store_ok]), also
      across restarts as in [UserType.cc]; [FileErrors]: where it is not.
    - [LocalitySet]: [storage/source/LocalitySet.cc].
    - [PageCache]: [storage/source/PageCache.cc], [PDBFlushConsumerWork.cc],
      [memory/source/SharedMem.cc]; [cache_ok] is the invariant of the table,
      [evicted_from] what an eviction may change.
    - [Buzzer]: [work/source/PDBBuzzer.cc] and a thread that waits in a loop for
      works, step by step, with spurious wake-ups.
    - [WorkerQueue], [WorkerQueueRuns]: [PDBWorkerQueue.cc], [PDBWorker.cc] as
      steps of the workers and of the threads that use the queue ([queue_step]);
      [queue_ok] is the invariant, [turns_left] what every step uses up.
    - [Dispatcher]: the policies of [dispatcher] and [DispatcherServer.cc];
      [Dispatching]: what is sent where ([dispatched], [placing_ok]).
    - [UserSet]: [UserSet.cc], [UserSet.h], [SetCachePageIterator.cc],
      [PartitionPageIterator.cc] and the two steps of a flush thread;
      [UserSetScan]: the invariant [set_ok], kept by every operation, and scans
      interleaved with flushing and eviction ([run_scan]).
    - [RecordBuffer]: the part of [PangeaStorageServer.cc] that buffers records
      and writes them to pages; [RecordWriting]: where their objects go
      ([written], [holds_added]).
    - [StorageSets]: the tables of [PangeaStorageServer.cc], with
      [DefaultDatabase.cc] and [UserType.cc]; [StorageSetsSpec]: their invariant
      [server_ok]; [StorageCatalogue]: the specification [cat_step] they refine
      ([sim]).

    ** How the code is modelled

    A method that changes its object is a function from the object to an
    [outcome] and the object afterwards ([M]); the outcome is a value,
    [NotEnoughSpace], the exit of the process, or [Undefined] for what C++
    does not define: a null dereference, an access past an allocation, and
    taking a lock one holds or releasing one that one does not hold. An
    exception of the standard library that nobody catches is an exit.
    Whether an allocation fits is decided by the block, which the containers
    cannot see: the calls that allocate take the answers as arguments
    ([space], [jspace], [vspace], [tkspace], [tuple_space], the list of
    addresses in [allocate_blocking]), and the theorems hold for all answers
    unless they say which they need: those on aggregation ([steady],
    [ample], [answers_ok]) need that moving the entries of a doubled map and
    copying a value to a local fit, and a fresh page has room for its first
    pair; those on joins have [steady_push], [roomy_row] and [shuffle_fits],
    those on records [roomy]. [unsigned] and [size_t] values are integers
    with their wrap-around written out ([u32], [u64]); rows, columns and
    chunk sizes, which the code counts in an [int], are natural numbers, for
    less than 2^31 of them. The product with a fill factor is rounded as an
    IEEE double ([round53]).

    Loops that are not structural take fuel: the probe loop one turn per slot,
    moving and copying loops one turn per cell, sifting one turn per heap
    level or cell, [evictForDBMIN] one turn per page of the set.  Each is given
    at least the number of turns the code can take, and the theorems show the
    result is a value: running out of fuel gives [Undefined] or [None].  A
    pipeline takes one turn per tuple set and, writing a tuple set, one per row
    and two more; a combiner thread two per pair of its input and two more; the
    scan of a set one turn per page for the empty pages it skips; the shuffler
    of a table one call per tuple and two more.  Nested
    deletions are bounded by the number of objects of the block, nested copies
    by its bytes over four, as each level takes a chunk of the block; so a deep
    copy returns also for a cyclic source.

    ** What is shown

    - Containers are what they stand for: [Map_store_all_refines],
      [Map_at_spec], [iterate_complete], [setUpAndCopyFrom_spec] and
      [setUnused_undoes_insert] for maps; [JoinMap_build_lookup],
      [JoinMap_push_spec], [jiterate_sorted], [setUnused_undoes_push] for join
      maps; [Vector_push_all_spec], [Vector_push_back_spec],
      [Vector_resize_spec], [asetUpAndCopyFrom_spec] for vectors;
      [TopKQueue_inserts_best] and [merge_best] for top-k queues.
    - Allocation is safe and complete: [policy_getRAM_spec],
      [defaultGetRAM_complete], [free_then_get_reuses],
      [temporary_block_transparent], [freeRAM_inactive_spec],
      [getAllocationBlock_root].
    - Handles keep their promises: [Handle_set_deep_copies] (what a block's
      handle points to is copied into the block, or nothing is left behind),
      [decRefCount_reclaims] and [Handle_set_shares] (an object lives exactly as
      long as it is referred to), [heap_relocatable] (a block can be moved).
    - Pipelines neither lose nor repeat rows and finish ([Pipeline_writes_rows]);
      at any time few pages wait, in order ([Pipeline_few_pages_wait]).
      Aggregation computes
      the reference aggregate: [ShuffleSink_writeOut_spec] for a tuple set,
      [shuffle_pipeline_aggregates] for a pipeline, [run_combiner_spec] for a
      node, [distributed_aggregation] for all nodes together,
      [agg_out_entries] for the output objects.
    - Queries compute what their stages say: [well_typed_stage] for a stage,
      [VectorTupleSetIterator_scan] for the scan, [set_query_spec] from stored
      set to stored set, with shared columns deleted exactly once
      ([stage_leaves_nothing]).  Hash joins are nested-loop joins:
      [join_build_spec] and [broadcast_join_spec],
      [partitioned_build_spec] and [partitioned_join_spec].  A table is bounded
      by [max_entries] rows, those of a partitioned join by half as many: so many
      fit before the bytes of a doubled table overflow 32 bits, for slots of at
      most 16 MB.  A query exits only for a stage that runs out of space on a
      fresh page ([runs_out]).
    - The page cache keeps its books and never loses a pinned page:
      [evict_spec], [getNewPage_spec], [getPage_survives_evict],
      [flush_one_spec], [mallocAlign_spec], [unpin_set_spec], with the
      replacement choice in [selectPageForReplacement_spec] and
      [selectPagesForReplacement_spec], and pages and the flush buffer in
      [load_prepared_page], [add_all_walk], [refCount_pinned],
      [exec_calls_refine].
    - Files keep pages: [metadata_roundtrip], and [file_ops_refine] for any
      sequence of flushes, loads and restarts.
    - A scan of a stored set sees every page once whatever is flushed and evicted
      meanwhile: [scan_sees_every_page].  The dispatcher sends every object to
      one node ([dispatchData_sends_all]), the one where a join looks for it
      ([dispatched_where_joined]), in turns ([round_robin_takes_turns]).
    - Objects that are added to a set get to its pages: [added_objects_stored],
      [writeBackRecords_keeps_objects].  The tables of a storage server are a map
      from names to sets: [storage_is_catalogue]; names of directories can be
      read back ([parse_encode]).  Ids are counted in 32 bits, so the number of
      operations is bounded.
    - Threads neither get lost nor wait for ever: [wait_loop_ends],
      [queue_never_fails], [queue_runs_end].
    - Where the code falls short, on concrete states or in general:
      [setUnused_loses_other_key], [Map_at_move_throw_loses_entries],
      [doubleArray_overruns], [jdoubleArray_overruns], [destructor_flag_is_hash],
      [Vector_writes_past_allocation], [insert_throw_shifts_values],
      [size_of_one_item_undefined], [getRAM_truncates_size],
      [emptyOutBlock_keeps_memory], [interleaving_loses_page],
      [load_loses_owners], [evict_dbmin_keeps_mutex],
      [evictForDBMIN_unlocks_twice], [pin_keeps_ended_entry],
      [Handle_set_throw_retypes], [makeObject_frees_twice],
      [copyTarget_overruns_chunk], [String_assign_null_undefined],
      [write_chunk_diverges], [aggregator_after_full_page],
      [ShuffleSink_copy_counts_twice], [HashOneExecutor_other_schema],
      [JoinSink_loses_tuple], [JoinSinkMerger_writeOut_spec] (what is left out
      when a tuple does not fit), [JoinSinkShuffler_forgets_position],
      [addSharedPage_overruns], [appendPage_short_write],
      [appended_twice_phantom], [updateMeta_overwrites_id],
      [removeSharedPage_undefined], [scan_during_flush_duplicates],
      [unpinned_scan_undefined], [one_wait_not_enough], [two_waits_one_buzz],
      [destructor_leaves_clients], [alternating_sets_use_one_node],
      [add_data_failure_unnoticed], [registerSet_keeps_policy],
      [fair_policy_undefined], [bytes_with_lambda_undefined], [stale_node_id],
      [native_lambda_loses_objects],
      [leftover_exception_repeats], [large_object_lost], [direct_put_overruns],
      [clear_set_inverts_persistence], [addSet_without_database],
      [removed_database_keeps_names], [restarted_server_adds_no_database],
      [removed_type_returns].

    ** What is not modelled

    The vendored pool allocator (its answers are arguments), memory mapping,
    sockets, logging and debugging output; the deep copies of [JoinMap]
    and [TopKQueue], and of [Map] and [Vector] on the words of a block (their
    copies are modelled on their contents); strings made from characters;
    virtual tables and the type catalogue; locks inside
    [PDBPage] and [LocalitySet].  The page cache runs one call at a time, with
    its locks as state: threads are interleaved in the circular buffer, the
    buzzer, the worker queue and the scans of a set.  Of a user set, the input
    buffer page and the pages that sets share; no page is added to it during a
    scan.  Of the dispatcher, the communication and waiting for requests in
    processing.  Of the storage server, receiving records, the directories of
    data, and, under its mutex, requests one at a time.  Of query execution, communication between stages, and the
    branch of the aggregation loop that writes its result to a set page by page,
    apart from the objects it makes; of the joins, the iterator that scans
    partitioned tables, a cross product as a sink, and the choice of a
    [JoinTuple] class by the names of component types.  A handle in a column
    stands for the object it leads to: dangling pointers into pages written back
    are not modelled.  The costs of the cost-based strategy are floating-point
    figures: the order of its queue is any permutation.

    Left out as a whole: vendored and generated code (SQLite, Boost, the TCAP
    and linear-algebra parsers), the catalogue and the self-learning database,
    which are SQL over SQLite; the planner, which works on what the generated
    parser makes; the other request handlers of the servers, which pass messages
    between sockets and the components above; the applications (linear algebra,
    neural networks, text, benchmarks) over the query interface. *)

From stdpp Require Export base tactics numbers list gmap fin_maps option strings.
From Stdlib Require Export ZArith Lia.

(** ** Machine integers

    netsDB is compiled for x86-64: [unsigned int] and [uint32_t] have 32 bits,
    [size_t] and [uint64_t] have 64.  Unsigned arithmetic wraps. *)

Declare Scope word_scope.
Delimit Scope word_scope with word.

Definition u32_modulus : Z := 4294967296.
Definition u64_modulus : Z := 18446744073709551616.

Definition u32 (x : Z) : Z := x mod u32_modulus.
Definition u64 (x : Z) : Z := x mod u64_modulus.

(** [UINT32_MAX], used as a "no entry" marker. *)
Definition UINT32_MAX : Z := 4294967295.

Notation "x +32 y" := (u32 (x + y)) (at level 50, left associativity) : word_scope.
Notation "x -32 y" := (u32 (x - y)) (at level 50, left associativity) : word_scope.
Notation "x *32 y" := (u32 (x * y)) (at level 40, left associativity) : word_scope.
Notation "x +64 y" := (u64 (x + y)) (at level 50, left associativity) : word_scope.
Notation "x -64 y" := (u64 (x - y)) (at level 50, left associativity) : word_scope.

Create HintDb netsdb.
Create HintDb word.

Lemma u32_range x : (0 ≤ u32 x < u32_modulus)%Z.
Proof. apply Z.mod_pos_bound. reflexivity. Qed.

Lemma u64_range x : (0 ≤ u64 x < u64_modulus)%Z.
Proof. apply Z.mod_pos_bound. reflexivity. Qed.

Lemma u32_small x : (0 ≤ x < u32_modulus)%Z → u32 x = x.
Proof. apply Z.mod_small. Qed.

Lemma u64_small x : (0 ≤ x < u64_modulus)%Z → u64 x = x.
Proof. apply Z.mod_small. Qed.

Lemma u32_idemp x : u32 (u32 x) = u32 x.
Proof. apply u32_small, u32_range. Qed.

#[export] Hint Resolve u32_range u64_range : word.
Create Rewrite HintDb word.
#[export] Hint Rewrite u32_idemp : word.

(** Discharges the range side conditions of the word lemmas. *)
Ltac word_lia :=
  unfold u32_modulus, u64_modulus, UINT32_MAX in *; lia.

(** ** Outcomes of a C++ call

    A call returns a value, throws [NotEnoughSpace] (the only exception the
    modelled components throw and catch), stops the process with [exit], or
    runs into undefined behaviour (null dereference, access past an
    allocation). *)

Inductive outcome (A : Type) : Type :=
| Ret (a : A)
| NotEnoughSpace
| Exit (code : Z)
| Undefined.
Arguments Ret {A} a.
Arguments NotEnoughSpace {A}.
Arguments Exit {A} code.
Arguments Undefined {A}.

#[export] Instance outcome_ret : MRet outcome := λ A a, Ret a.

#[export] Instance outcome_bind : MBind outcome := λ A B f m,
  match m with
  | Ret a => f a
  | NotEnoughSpace => NotEnoughSpace
  | Exit c => Exit c
  | Undefined => Undefined
  end.

#[export] Instance outcome_fmap : FMap outcome := λ A B f m,
  match m with
  | Ret a => Ret (f a)
  | NotEnoughSpace => NotEnoughSpace
  | Exit c => Exit c
  | Undefined => Undefined
  end.

Lemma outcome_bind_Ret {A B} (m : outcome A) (f : A → outcome B) b :
  m ≫= f = Ret b ↔ ∃ a, m = Ret a ∧ f a = Ret b.
Proof. destruct m; simpl; split; naive_solver. Qed.

(** ** Stateful calls

    A method that mutates its object is a function from the object to an
    outcome and the object afterwards: after an exception the object is still
    there, in whatever state the code left it. *)

Definition M (S A : Type) : Type := S → outcome A * S.

#[export] Instance M_ret {S} : MRet (M S) := λ A a s, (Ret a, s).

#[export] Instance M_bind {S} : MBind (M S) := λ A B f m s,
  match m s with
  | (Ret a, s') => f a s'
  | (NotEnoughSpace, s') => (NotEnoughSpace, s')
  | (Exit c, s') => (Exit c, s')
  | (Undefined, s') => (Undefined, s')
  end.

Definition get {S} : M S S := λ s, (Ret s, s).
Definition put {S} (s : S) : M S unit := λ _, (Ret tt, s).
Definition modify {S} (f : S → S) : M S unit := λ s, (Ret tt, f s).
Definition gets {S A} (f : S → A) : M S A := λ s, (Ret (f s), s).

(** A read-only call that may fail. *)
Definition lift {S A} (o : outcome A) : M S A := λ s, (o, s).

(** [try { m } catch (NotEnoughSpace&) { h }] *)
Definition catch {S A} (m : M S A) (h : M S A) : M S A := λ s,
  match m s with
  | (NotEnoughSpace, s') => h s'
  | r => r
  end.

Lemma M_bind_Ret {S A B} (m : M S A) (f : A → M S B) s a s' :
  m s = (Ret a, s') → (m ≫= f) s = f a s'.
Proof. intros H. unfold mbind, M_bind. by rewrite H. Qed.

Lemma M_bind_inv {S A B} (m : M S A) (f : A → M S B) s b s'' :
  (m ≫= f) s = (Ret b, s'') → ∃ a s', m s = (Ret a, s') ∧ f a s' = (Ret b, s'').
Proof.
  unfold mbind, M_bind. destruct (m s) as [[a| | |] s'] eqn:E; naive_solver.
Qed.

Lemma M_bind_unfold {S A B} (m : M S A) (f : A → M S B) s :
  (m ≫= f) s =
  match m s with
  | (Ret a, s') => f a s'
  | (NotEnoughSpace, s') => (NotEnoughSpace, s')
  | (Exit c, s') => (Exit c, s')
  | (Undefined, s') => (Undefined, s')
  end.
Proof. done. Qed.

(** Runs the calls of a method body one after the other. *)
Ltac run :=
  repeat first [rewrite M_bind_unfold | progress cbn [get put modify gets lift mret M_ret]];
  cbn beta iota.

(** ** IEEE double arithmetic on a scaled integer

    [round53 p] rounds the non-negative integer [p] to 53 significant bits,
    to nearest, ties to even: the rounding of a double product, up to the
    power-of-two scale. *)

Definition round53 (p : Z) : Z := (
  let e := Z.max 0 (Z.log2 p - 52) in
  let q := p / 2 ^ e in
  let r := p mod 2 ^ e in
  if (2 ^ e <? 2 * r) || ((2 ^ e =? 2 * r) && Z.odd q)
  then (q + 1) * 2 ^ e else q * 2 ^ e)%Z.

(** The rounding error is at most one part in [2^52]. *)
Lemma round53_error p :
  (0 ≤ p)%Z → (2 ^ 52 * (round53 p - p) ≤ p ∧ 2 ^ 52 * (p - round53 p) ≤ p)%Z.
Proof.
  intros Hp. unfold round53. set (e := Z.max 0 (Z.log2 p - 52)).
  assert (0 < 2 ^ e)%Z as He by (apply Z.pow_pos_nonneg; lia).
  pose proof (Z.div_mod p (2 ^ e) ltac:(lia)) as Hd.
  pose proof (Z.mod_pos_bound p (2 ^ e) He) as Hr.
  set (q := (p / 2 ^ e)%Z) in *. set (r := (p mod 2 ^ e)%Z) in *.
  assert (e = 0 ∧ 2 ^ e = 1 ∨ 2 ^ 52 * 2 ^ e ≤ p)%Z as Hs.
  { destruct (decide (Z.log2 p ≤ 52)%Z).
    - left. assert (e = 0)%Z as -> by lia. done.
    - right. assert (e = Z.log2 p - 52)%Z as -> by lia.
      rewrite <- Z.pow_add_r by lia. replace (52 + (Z.log2 p - 52))%Z with (Z.log2 p) by lia.
      apply Z.log2_spec. destruct (decide (p = 0)%Z) as [->|]; [simpl in *; lia|lia]. }
  destruct (_ || _) eqn:Hc; [apply orb_true_iff in Hc as [Hc|Hc]|apply orb_false_iff in Hc as [Hc _]].
  - apply Z.ltb_lt in Hc. lia.
  - apply andb_true_iff in Hc as [Hc _]. apply Z.eqb_eq in Hc. lia.
  - apply Z.ltb_ge in Hc. lia.
Qed.

(** ** Generic lemmas on lists *)

Lemma lookup_insert_cases {A} (l : list A) i j x y :
  <[i:=x]> l !! j = Some y →
  (i = j ∧ x = y ∧ i < length l) ∨ (i ≠ j ∧ l !! j = Some y).
Proof.
  intros H. destruct (decide (i = j)) as [->|Hne].
  - left. pose proof (lookup_lt_Some _ _ _ H) as Hlt. rewrite length_insert in Hlt.
    rewrite list_lookup_insert_eq in H by done. naive_solver.
  - right. by rewrite list_lookup_insert_ne in H.
Qed.

Lemma filter_insert_length {A} (f : A → bool) (l : list A) i x y :
  l !! i = Some y →
  length (filter (λ a, f a = false) (<[i:=x]> l)) + (if f y then 0 else 1) =
  length (filter (λ a, f a = false) l) + (if f x then 0 else 1).
Proof.
  revert i. induction l as [|z l IH]; intros [|i] Hi; simplify_eq/=.
  - rewrite !filter_cons. destruct (f x), (f y); repeat case_decide; simpl; (lia || done).
  - specialize (IH i Hi). rewrite !filter_cons. repeat case_decide; simpl in *; lia.
Qed.

(** How many elements pass a test. *)
Definition countb {A} (f : A → bool) (l : list A) : nat := length (filter (λ a, f a = true) l).

Lemma countb_cons {A} (f : A → bool) x l : countb f (x :: l) = Nat.b2n (f x) + countb f l.
Proof. unfold countb. rewrite filter_cons. destruct (f x) eqn:E; simpl; done. Qed.

Lemma countb_insert {A} (f : A → bool) l i x y :
  l !! i = Some x → countb f (<[i:=y]> l) + Nat.b2n (f x) = countb f l + Nat.b2n (f y).
Proof.
  revert i. induction l as [|z l IH]; intros [|i] Hi; try done; simplify_eq/=.
  - rewrite !countb_cons. lia.
  - specialize (IH i Hi). rewrite !countb_cons. lia.
Qed.

Lemma countb_le_length {A} (f : A → bool) l : countb f l ≤ length l.
Proof. apply length_filter. Qed.

Lemma countb_lt_exists {A} (f : A → bool) l : countb f l < length l → ∃ i x, l !! i = Some x ∧ f x = false.
Proof.
  induction l as [|z l IH]; [simpl; lia|]. rewrite countb_cons. simpl. destruct (f z) eqn:E; simpl.
  - intros H. destruct IH as (i & x & Hi & Hx); [lia|]. by exists (S i), x.
  - intros _. by exists 0, z.
Qed.

Lemma countb_pos_exists {A} (f : A → bool) l : 0 < countb f l → ∃ i x, l !! i = Some x ∧ f x = true.
Proof.
  induction l as [|z l IH]; [unfold countb; simpl; lia|]. rewrite countb_cons. destruct (f z) eqn:E; simpl.
  - intros _. by exists 0, z.
  - intros H. destruct (IH H) as (i & x & Hi & Hx). by exists (S i), x.
Qed.

Lemma countb_lookup_pos {A} (f : A → bool) l i x : l !! i = Some x → f x = true → 0 < countb f l.
Proof.
  revert i. induction l as [|z l IH]; intros [|i] Hi Hx; try done; simplify_eq/=; rewrite countb_cons.
  - rewrite Hx. simpl. lia.
  - specialize (IH i Hi Hx). lia.
Qed.

Lemma sum_list_insert {A} (f : A → nat) l i x y :
  l !! i = Some x → sum_list_with f (<[i:=y]> l) + f x = sum_list_with f l + f y.
Proof.
  revert i. induction l as [|z l IH]; intros [|i] Hi; try done.
  - injection Hi as ->. simpl. lia.
  - specialize (IH i Hi). change (<[S i:=y]> (z :: l)) with (z :: <[i:=y]> l). cbn [sum_list_with]. lia.
Qed.

Lemma bind_insert_perm {A B} (f : A → list B) l i x y :
  l !! i = Some x → f x ++ (<[i:=y]> l ≫= f) ≡ₚ f y ++ (l ≫= f).
Proof.
  revert i. induction l as [|z l IH]; intros [|i] Hi; try done.
  - injection Hi as ->. cbn. by rewrite !(assoc_L app), (comm app (f x)).
  - specialize (IH i Hi). change (<[S i:=y]> (z :: l)) with (z :: <[i:=y]> l). rewrite !bind_cons.
    rewrite !(Permutation_app_swap_app _ (f z)). by rewrite IH.
Qed.

Lemma bind_insert_same {A B} (f : A → list B) l i x y :
  l !! i = Some x → f x = f y → <[i:=y]> l ≫= f = l ≫= f.
Proof.
  revert i. induction l as [|z l IH]; intros [|i] Hi E; try done.
  - injection Hi as ->. cbn. by rewrite E.
  - change (<[S i:=y]> (z :: l)) with (z :: <[i:=y]> l). rewrite !bind_cons. by rewrite (IH i Hi E).
Qed.

Lemma elem_of_concat {B} (ls : list (list B)) x :
  x ∈ concat ls ↔ ∃ i l, ls !! i = Some l ∧ x ∈ l.
Proof.
  induction ls as [|l0 ls IH]; simpl.
  - split; [by intros ?%elem_of_nil|by intros (i & l & ? & _)].
  - rewrite elem_of_app, IH. split.
    + intros [Hx|(i & l & Hi & Hx)]; [by exists 0, l0|by exists (S i), l].
    + intros ([|i] & l & Hi & Hx); simplify_eq/=; [by left|right; eauto].
Qed.

Lemma list_alter_insert_lookup {A} (f : A → A) (l : list A) i x :
  l !! i = Some x → alter f i l = <[i := f x]> l.
Proof.
  intros Hx. apply list_eq. intros j. destruct (decide (i = j)) as [<-|Hne].
  - rewrite list_lookup_alter_eq, Hx. symmetry.
    apply list_lookup_insert_eq. by eapply lookup_lt_Some.
  - by rewrite list_lookup_alter_ne, list_lookup_insert_ne.
Qed.

(** If not every element satisfies [P], one does not. *)
Lemma filter_length_lt_exists {A} (P : A → Prop) `{!∀ x, Decision (P x)} (l : list A) :
  length (filter P l) < length l → ∃ i x, l !! i = Some x ∧ ¬ P x.
Proof.
  induction l as [|z l IH]; simpl; [lia|]. rewrite filter_cons. case_decide.
  - simpl. intros H'. destruct IH as (i & x & ? & ?); [lia|]. by exists (S i), x.
  - intros _. by exists 0, z.
Qed.

(** ** Association lists stored in slots

    A table is a list of slots, some of which hold a key-value pair. *)

Section slots.
Context {A K V : Type} `{Countable K} (f : A → option (K * V)).

(** No key is held by two slots. *)
Definition slots_unique (l : list A) : Prop :=
  ∀ i j x y k v w, l !! i = Some x → l !! j = Some y →
    f x = Some (k, v) → f y = Some (k, w) → i = j.

Definition slots_map (l : list A) : gmap K V := list_to_map (omap f l).

Lemma slots_map_cons_None x l : f x = None → slots_map (x :: l) = slots_map l.
Proof. unfold slots_map. simpl. by intros ->. Qed.

Lemma slots_map_cons_Some x l k v :
  f x = Some (k, v) → slots_map (x :: l) = <[k:=v]> (slots_map l).
Proof. unfold slots_map. simpl. by intros ->. Qed.

Lemma slots_unique_tail x l : slots_unique (x :: l) → slots_unique l.
Proof.
  intros Hu i j a b k v w Ha Hb Hfa Hfb.
  assert (S i = S j) as Hij by (eapply (Hu (S i) (S j)); eassumption). lia.
Qed.

Lemma slots_NoDup l : slots_unique l → NoDup (omap f l).*1.
Proof.
  induction l as [|x l IH]; intros Hu; simpl; [constructor|].
  pose proof (slots_unique_tail _ _ Hu) as Hu'.
  destruct (f x) as [[k v]|] eqn:Hx; simpl; [|auto].
  constructor; [|auto]. intros ([k' w] & Heq & Hin)%list_elem_of_fmap. simpl in Heq. subst k'.
  apply list_elem_of_omap in Hin as (y & Hy & Hfy).
  apply list_elem_of_lookup in Hy as [j Hj].
  assert (0 = S j) by (eapply (Hu 0 (S j) x y); simpl; eauto). lia.
Qed.

Lemma slots_map_lookup l k v :
  slots_unique l →
  slots_map l !! k = Some v ↔ ∃ i x, l !! i = Some x ∧ f x = Some (k, v).
Proof.
  intros Hu. unfold slots_map.
  rewrite <- (elem_of_list_to_map (omap f l) k v) by by apply slots_NoDup.
  rewrite list_elem_of_omap. setoid_rewrite list_elem_of_lookup. naive_solver.
Qed.

Lemma slots_map_lookup_None l k :
  slots_unique l →
  slots_map l !! k = None ↔ ∀ i x v, l !! i = Some x → f x ≠ Some (k, v).
Proof.
  intros Hu. rewrite eq_None_not_Some. split.
  - intros Hn i x v Hx Hf. apply Hn. exists v. apply slots_map_lookup; eauto.
  - intros Hn [v Hv]. apply slots_map_lookup in Hv as (i & x & Hx & Hf); [|done].
    by eapply Hn.
Qed.

(** Filling an empty slot with a new key inserts into the map. *)
Lemma slots_fill l i x y k v :
  slots_unique l → l !! i = Some x → f x = None → f y = Some (k, v) →
  slots_map l !! k = None →
  slots_unique (<[i:=y]> l) ∧ slots_map (<[i:=y]> l) = <[k:=v]> (slots_map l).
Proof.
  intros Hu Hx Hfx Hfy Hk. rewrite slots_map_lookup_None in Hk by done.
  assert (slots_unique (<[i:=y]> l)) as Hu'.
  { intros a b xa xb k' va vb Ha Hb Hfa Hfb.
    apply lookup_insert_cases in Ha as [(-> & <- & _)|[Hai Ha]];
    apply lookup_insert_cases in Hb as [(-> & <- & _)|[Hbi Hb]]; simplify_eq; [done|..].
    - by destruct (Hk _ _ _ Hb Hfb).
    - by destruct (Hk _ _ _ Ha Hfa).
    - by eapply Hu. }
  split; [done|]. apply map_eq. intros k'. apply option_eq. intros v'.
  rewrite slots_map_lookup by done. rewrite lookup_insert_Some, slots_map_lookup by done. split.
  - intros (a & xa & Ha & Hfa).
    apply lookup_insert_cases in Ha as [(-> & <- & _)|[Hai Ha]]; [left; naive_solver|].
    right. split; [|eauto]. intros <-. by eapply Hk.
  - intros [[<- <-]|[Hne (a & xa & Ha & Hfa)]].
    + exists i, y. split; [|done]. apply list_lookup_insert_eq. by eapply lookup_lt_Some.
    + exists a, xa. split; [|done]. rewrite list_lookup_insert_ne; [done|]. intros ->. congruence.
Qed.

(** Rewriting the value of a held key updates the map. *)
Lemma slots_update l i x y k v w :
  slots_unique l → l !! i = Some x → f x = Some (k, v) → f y = Some (k, w) →
  slots_unique (<[i:=y]> l) ∧ slots_map (<[i:=y]> l) = <[k:=w]> (slots_map l).
Proof.
  intros Hu Hx Hfx Hfy.
  assert (slots_unique (<[i:=y]> l)) as Hu'.
  { intros a b xa xb k' va vb Ha Hb Hfa Hfb.
    apply lookup_insert_cases in Ha as [(-> & <- & _)|[Hai Ha]];
    apply lookup_insert_cases in Hb as [(-> & <- & _)|[Hbi Hb]]; simplify_eq; [done|..];
    by eapply Hu. }
  split; [done|]. apply map_eq. intros k'. apply option_eq. intros v'.
  rewrite slots_map_lookup by done. rewrite lookup_insert_Some, slots_map_lookup by done. split.
  - intros (a & xa & Ha & Hfa).
    apply lookup_insert_cases in Ha as [(-> & <- & _)|[Hai Ha]]; [left; naive_solver|].
    right. split; [|eauto]. intros <-. apply Hai. by eapply Hu.
  - intros [[<- <-]|[Hne (a & xa & Ha & Hfa)]].
    + exists i, y. split; [|done]. apply list_lookup_insert_eq. by eapply lookup_lt_Some.
    + exists a, xa. split; [|done]. rewrite list_lookup_insert_ne; [done|]. intros ->. congruence.
Qed.

(** Emptying a slot deletes its key. *)
Lemma slots_clear l i x y k v :
  slots_unique l → l !! i = Some x → f x = Some (k, v) → f y = None →
  slots_unique (<[i:=y]> l) ∧ slots_map (<[i:=y]> l) = delete k (slots_map l).
Proof.
  intros Hu Hx Hfx Hfy.
  assert (slots_unique (<[i:=y]> l)) as Hu'.
  { intros a b xa xb k' va vb Ha Hb Hfa Hfb.
    apply lookup_insert_cases in Ha as [(-> & <- & _)|[Hai Ha]];
    apply lookup_insert_cases in Hb as [(-> & <- & _)|[Hbi Hb]]; simplify_eq.
    by eapply Hu. }
  split; [done|]. apply map_eq. intros k'. apply option_eq. intros v'.
  rewrite slots_map_lookup by done. rewrite lookup_delete_Some, slots_map_lookup by done. split.
  - intros (a & xa & Ha & Hfa).
    apply lookup_insert_cases in Ha as [(-> & <- & _)|[Hai Ha]]; [naive_solver|].
    split; [|eauto]. intros <-. apply Hai. by eapply Hu.
  - intros [Hne (a & xa & Ha & Hfa)].
    exists a, xa. split; [|done]. rewrite list_lookup_insert_ne; [done|]. intros ->. congruence.
Qed.
End slots.

(** One slot changes its value, possibly because the view changes with it. *)
Lemma slots_modify {A K V} `{Countable K} (f g : A → option (K * V)) l l' i x y k v w :
  slots_unique f l → l !! i = Some x → l' !! i = Some y →
  f x = Some (k, v) → g y = Some (k, w) →
  (∀ j, j ≠ i → g <$> l' !! j = f <$> l !! j) →
  slots_unique g l' ∧ slots_map g l' = <[k:=w]> (slots_map f l).
Proof.
  intros Hu Hx Hy Hfx Hgy Hext.
  assert (∀ j a kw, l' !! j = Some a → g a = Some kw →
    (j = i ∧ kw = (k, w)) ∨ (j ≠ i ∧ ∃ b, l !! j = Some b ∧ f b = Some kw)) as Hfwd.
  { intros j a kw Ha Hga. destruct (decide (j = i)) as [->|Hne]; [left; naive_solver|].
    right. split; [done|]. specialize (Hext j Hne). rewrite Ha in Hext. simpl in Hext.
    destruct (l !! j) as [b|]; simplify_eq/=. exists b. split; [done|congruence]. }
  assert (slots_unique g l') as Hu'.
  { intros a b xa xb k' va vb Ha Hb Hga Hgb.
    destruct (Hfwd _ _ _ Ha Hga) as [[-> ?]|(? & c & Hc & Hfc)];
    destruct (Hfwd _ _ _ Hb Hgb) as [[-> ?]|(? & d & Hd & Hfd)]; simplify_eq; [done|..];
    by eapply Hu. }
  split; [done|]. apply map_eq. intros k'. apply option_eq. intros v'.
  rewrite slots_map_lookup by done. rewrite lookup_insert_Some, slots_map_lookup by done. split.
  - intros (a & xa & Ha & Hga).
    destruct (Hfwd _ _ _ Ha Hga) as [[-> ?]|(Hne & c & Hc & Hfc)]; [left; naive_solver|].
    right. split; [|eauto]. intros <-. apply Hne. by eapply Hu.
  - intros [[<- <-]|[Hne (a & xa & Ha & Hfa)]]; [by exists i, y|].
    destruct (decide (a = i)) as [->|Hai]; [naive_solver|].
    specialize (Hext a Hai). rewrite Ha in Hext. simpl in Hext.
    destruct (l' !! a) as [b|] eqn:Hb; simplify_eq/=. exists a, b. split; [done|congruence].
Qed.

Lemma slots_map_ext {A K V} `{Countable K} (f g : A → option (K * V)) l :
  (∀ i x, l !! i = Some x → f x = g x) → slots_map f l = slots_map g l.
Proof.
  intros Hext. unfold slots_map. f_equal.
  induction l as [|x l IH]; [done|]. simpl.
  assert (omap f l = omap g l) as IH' by (apply IH; intros i y; apply (Hext (S i))).
  rewrite (Hext 0 x eq_refl). destruct (g x); [f_equal|]; exact IH'.
Qed.

(** ** Sums over finite maps *)

Section map_sum.
Context {K : Type} `{Countable K} {A : Type}.
Implicit Types (m : gmap K A) (f : K → A → Z).

Definition map_sum f m : Z := map_fold (λ k a acc, f k a + acc)%Z 0%Z m.

Lemma map_sum_insert f m k a :
  m !! k = None → map_sum f (<[k:=a]> m) = (f k a + map_sum f m)%Z.
Proof. intros Hk. unfold map_sum. rewrite map_fold_insert_L; [done| |done]. intros. lia. Qed.

Lemma map_sum_delete f m k a :
  m !! k = Some a → map_sum f m = (f k a + map_sum f (delete k m))%Z.
Proof.
  intros Hk. rewrite <- (insert_id m k a) at 1 by done. rewrite <- insert_delete_eq.
  apply map_sum_insert, lookup_delete_eq.
Qed.

Lemma map_sum_ext f g m :
  (∀ k a, m !! k = Some a → f k a = g k a) → map_sum f m = map_sum g m.
Proof.
  revert f g. induction m as [|k a m Hk IH] using map_ind; intros f g Hfg; [done|].
  rewrite !map_sum_insert by done. rewrite (Hfg k a) by apply lookup_insert_eq. f_equal.
  apply IH. intros k' a' Hk'. apply Hfg. rewrite lookup_insert_ne; [done|]. by intros ->; congruence.
Qed.
End map_sum.

