(* ===== verification/HashProbe.v ===== *)
(** * Linear probing

    The loop that [PairArray.cc] and [JoinPairArray.cc] share: from a home
    slot, inspect at most [numSlots] slots of a circular table and stop at the
    first slot that is unused or that matches.  Both tables instantiate the
    section below; its lemmas say where a probe stops and that occupying the
    slot it stops at keeps every other entry reachable. *)

From S2P Require Import Prelude.

(** ** The size of a slot

    [objSize], a [uint32_t]: what [MapRecordClass] or [JoinMapRecordClass] of the
    types of a table take, up to 16 MB.  The byte size of a table is computed, and its slots
    are reached in the loops of [doubleArray] and the constructor, by 32-bit
    products with it. *)
Class RecordSize := {
  record_size : Z;
  record_size_ok : (0 < record_size ≤ 16777216)%Z
}.

(** The tables of a map: at most so many slots can be doubled, and at most so
    many entries go into a table that doubles when it is two thirds full. *)
Definition max_slots {RS : RecordSize} : Z := Z.min 1073741824 ((u32_modulus - 1) / (2 * record_size)).
Definition max_entries {RS : RecordSize} : Z := (max_slots / 4)%Z.

Lemma max_slots_bounds {RS : RecordSize} :
  (16 ≤ max_entries)%Z ∧ (4 * max_entries ≤ max_slots ≤ 1073741824)%Z ∧ (max_entries ≤ 268435456)%Z.
Proof.
  pose proof record_size_ok. unfold max_entries. assert (64 ≤ max_slots ≤ 1073741824)%Z.
  { unfold max_slots, u32_modulus. assert (64 ≤ (4294967296 - 1) / (2 * record_size))%Z by (apply Z.div_le_lower_bound; lia). lia. }
  pose proof (Z.div_mod max_slots 4). pose proof (Z.mod_pos_bound max_slots 4). lia.
Qed.

(** The bytes of a table that is doubled are counted without overflow. *)
Lemma max_slots_bytes {RS : RecordSize} n : (0 ≤ n ≤ max_slots)%Z → (0 ≤ record_size * (2 * n) < u32_modulus)%Z.
Proof.
  intros [Hn Hm]. pose proof record_size_ok. assert (n ≤ (u32_modulus - 1) / (2 * record_size))%Z as Hd by (unfold max_slots in Hm; lia).
  assert (2 * record_size * n ≤ u32_modulus - 1)%Z; [|nia]. etrans; [apply Z.mul_le_mono_nonneg_l; [lia|exact Hd]|].
  apply Z.mul_div_le. lia.
Qed.

(** Slots of a hash and two 32-bit integers. *)
Definition small_slots : RecordSize := {| record_size := 16; record_size_ok := ltac:(done) |}.

Ltac slots_lia := pose proof max_slots_bounds; pose proof record_size_ok; lia.

(** How a probe ends: at an unused slot, at a matching slot, or after having
    looked at every slot ("Ran off the end of the hash table!!"). *)
Inductive probe_result :=
| PEmpty (i : nat)
| PMatch (i : nat)
| POff.

#[export] Instance probe_result_eq_dec : EqDecision probe_result.
Proof. intros x y. unfold Decision. decide equality; apply Nat.eq_dec. Defined.

(** [if (slot == numSlots - 1) slot = 0; else slot++;] *)
Definition next_slot (n i : nat) : nat :=
  if decide (i = n - 1) then 0 else S i.

Section probe.
Context {A : Type}.
Implicit Types (data : list A) (unused matches : A → bool).

(** The loop body of [count], [setUnused], [operator[]], [lookup] and [push]:
    [fuel] is [numSlots - slotsChecked]. *)
Fixpoint probe unused matches data (fuel i : nat) : probe_result :=
  match fuel with
  | 0 => POff
  | S fuel' =>
      match data !! i with
      | None => POff
      | Some s =>
          if unused s then PEmpty i
          else if matches s then PMatch i
          else probe unused matches data fuel' (next_slot (length data) i)
      end
  end.

(** The slot looked at after [j] steps from home slot [h]. *)
Definition slot_at data (h j : nat) : nat := (h + j) mod length data.

(** The first [j] slots on the probe path of [h] all satisfy [P]. *)
Definition path_all (P : A → Prop) data (h j : nat) : Prop :=
  ∀ j', j' < j → ∃ s, data !! slot_at data h j' = Some s ∧ P s.

(** Slot [i] is on the probe path of [h], behind used slots only. *)
Definition reachable unused data (h i : nat) : Prop :=
  ∃ j, j < length data ∧ i = slot_at data h j ∧
       path_all (λ s, unused s = false) data h j.

Lemma slot_at_0 data h : h < length data → slot_at data h 0 = h.
Proof. intros H. unfold slot_at. rewrite Nat.add_0_r. by apply Nat.mod_small. Qed.

Lemma slot_at_lt data h j : h < length data → slot_at data h j < length data.
Proof. intros H. apply Nat.mod_upper_bound. lia. Qed.

Lemma next_slot_lt n i : i < n → next_slot n i < n.
Proof. unfold next_slot. case_decide; lia. Qed.

Lemma slot_at_next data h j :
  h < length data → slot_at data (next_slot (length data) h) j = slot_at data h (S j).
Proof.
  intros H. unfold slot_at, next_slot. case_decide as Hd.
  - replace (h + S j) with (j + 1 * length data) by lia. by rewrite Nat.Div0.mod_add.
  - f_equal. lia.
Qed.

Lemma slot_at_inj data h j1 j2 :
  h < length data → j1 < length data → j2 < length data →
  slot_at data h j1 = slot_at data h j2 → j1 = j2.
Proof.
  unfold slot_at. intros Hh H1 H2 He. set (n := length data) in *.
  assert (Hs : ∀ j, j < n → (h + j) mod n = if decide (h + j < n) then h + j else h + j - n).
  { intros j Hj. case_decide; [by apply Nat.mod_small|].
    symmetry. apply (Nat.mod_unique _ _ 1); lia. }
  rewrite !Hs in He by done. repeat case_decide; lia.
Qed.

(** Every slot is looked at: the path from [h] covers the table. *)
Lemma slot_at_surj data h i :
  h < length data → i < length data → ∃ j, j < length data ∧ slot_at data h j = i.
Proof.
  intros Hh Hi. unfold slot_at. destruct (decide (h ≤ i)).
  - exists (i - h). split; [lia|]. rewrite Nat.mod_small; lia.
  - exists (i + length data - h). split; [lia|].
    symmetry. apply (Nat.mod_unique _ _ 1); lia.
Qed.

Lemma slot_at_length data data' h j :
  length data' = length data → slot_at data' h j = slot_at data h j.
Proof. unfold slot_at. by intros ->. Qed.

Lemma path_all_impl (P Q : A → Prop) data h j :
  (∀ s, P s → Q s) → path_all P data h j → path_all Q data h j.
Proof. intros HPQ H j' Hj. destruct (H j' Hj) as (s & ? & ?). eauto. Qed.

Lemma path_all_shift (P : A → Prop) data h j s :
  h < length data → data !! h = Some s → P s →
  path_all P data (next_slot (length data) h) j → path_all P data h (S j).
Proof.
  intros Hh Hs HP H j' Hj'. destruct j' as [|j'].
  - rewrite slot_at_0 by done. eauto.
  - rewrite <- slot_at_next by done. apply H. lia.
Qed.

(** Where a probe of [fuel] steps stops, in one statement. *)
Definition skipped unused matches (s : A) : Prop := unused s = false ∧ matches s = false.

Lemma probe_spec unused matches data fuel h :
  h < length data →
  match probe unused matches data fuel h with
  | PEmpty i => ∃ j s, j < fuel ∧ i = slot_at data h j ∧ data !! i = Some s ∧
      unused s = true ∧ path_all (skipped unused matches) data h j
  | PMatch i => ∃ j s, j < fuel ∧ i = slot_at data h j ∧ data !! i = Some s ∧
      unused s = false ∧ matches s = true ∧ path_all (skipped unused matches) data h j
  | POff => path_all (skipped unused matches) data h fuel
  end.
Proof.
  revert h. induction fuel as [|fuel IH]; intros h Hh; simpl; [intros ? ?; lia|].
  destruct (lookup_lt_is_Some_2 _ _ Hh) as [s Hs]. rewrite Hs.
  destruct (unused s) eqn:Hu; [|destruct (matches s) eqn:Hm].
  - exists 0, s. rewrite slot_at_0 by done. repeat split; [lia|done..|]. intros ? ?; lia.
  - exists 0, s. rewrite slot_at_0 by done. repeat split; [lia|done..|]. intros ? ?; lia.
  - assert (skipped unused matches s) as Hk by done.
    specialize (IH _ (next_slot_lt _ _ Hh)).
    destruct (probe unused matches data fuel (next_slot (length data) h)).
    + destruct IH as (j & s' & ? & -> & ? & ? & ?). exists (S j), s'.
      rewrite <- slot_at_next by done. repeat split; [lia|done..|].
      by eapply path_all_shift.
    + destruct IH as (j & s' & ? & -> & ? & ? & ? & ?). exists (S j), s'.
      rewrite <- slot_at_next by done. repeat split; [lia|done..|].
      by eapply path_all_shift.
    + by eapply path_all_shift.
Qed.

(** A reachable entry that is the only match is found. *)
Lemma probe_found unused matches data h i s :
  h < length data → reachable unused data h i →
  data !! i = Some s → unused s = false → matches s = true →
  (∀ i' s', data !! i' = Some s' → unused s' = false → matches s' = true → i' = i) →
  probe unused matches data (length data) h = PMatch i.
Proof.
  intros Hh (j & Hj & Hij & Hp) Hs Hu Hm Huniq.
  pose proof (probe_spec unused matches data (length data) h Hh) as Hspec.
  destruct (probe unused matches data (length data) h) as [i'|i'|].
  - destruct Hspec as (j' & s' & Hj' & -> & Hs' & Hu' & Hp'). exfalso.
    destruct (decide (j' < j)) as [Hlt|Hge].
    + destruct (Hp j' Hlt) as (s'' & ? & ?). congruence.
    + destruct (decide (j = j')) as [->|]; [congruence|].
      destruct (Hp' j) as (s'' & Hs'' & _ & Hm''); [lia|]. subst i. congruence.
  - destruct Hspec as (j' & s' & Hj' & -> & Hs' & Hu' & Hm' & _). f_equal. eauto.
  - exfalso. destruct (Hspec j Hj) as (s'' & Hs'' & _ & ?). subst i. congruence.
Qed.

(** Without a match, a table with a free slot yields a reachable free slot. *)
Lemma probe_free unused matches data h :
  h < length data →
  (∃ i s, data !! i = Some s ∧ unused s = true) →
  (∀ i s, data !! i = Some s → unused s = false → matches s = false) →
  ∃ i s, probe unused matches data (length data) h = PEmpty i ∧
         data !! i = Some s ∧ unused s = true ∧ reachable unused data h i.
Proof.
  intros Hh (i0 & s0 & Hs0 & Hu0) Hno.
  pose proof (probe_spec unused matches data (length data) h Hh) as Hspec.
  destruct (probe unused matches data (length data) h) as [i|i|].
  - destruct Hspec as (j & s & Hj & -> & Hs & Hu & Hp). exists (slot_at data h j), s.
    repeat split; [done..|]. exists j. split_and!; [done|done|].
    eapply path_all_impl; [|done]. by intros ? [].
  - destruct Hspec as (j & s & Hj & -> & Hs & Hu & Hm & _). by rewrite (Hno _ _ Hs Hu) in Hm.
  - exfalso. destruct (slot_at_surj data h i0 Hh) as (j & Hj & Hji);
      [by eapply lookup_lt_Some|].
    destruct (Hspec j Hj) as (s & Hs & Hu & _). congruence.
Qed.

(** Filling or rewriting a slot keeps every reachable slot reachable. *)
Lemma reachable_insert unused data h i k s :
  unused s = false → reachable unused data h i → reachable unused (<[k:=s]> data) h i.
Proof.
  intros Hu (j & Hj & Hi & Hp). exists j.
  rewrite length_insert. repeat split; [done| |].
  - rewrite Hi. symmetry. apply slot_at_length, length_insert.
  - intros j' Hj'. destruct (Hp j' Hj') as (s' & Hs' & Hu').
    rewrite (slot_at_length data) by apply length_insert.
    destruct (decide (k = slot_at data h j')) as [->|Hne].
    + exists s. split; [|done]. apply list_lookup_insert_eq. by eapply lookup_lt_Some.
    + exists s'. by rewrite list_lookup_insert_ne.
Qed.

(** Reachability depends only on which slots are unused. *)
Lemma reachable_ext unused data data' h i :
  length data' = length data →
  (∀ j, unused <$> data' !! j = unused <$> data !! j) →
  reachable unused data h i → reachable unused data' h i.
Proof.
  intros Hlen Hext (j & Hj & Hi & Hp). exists j. split_and!; [lia| |].
  - by rewrite Hi, (slot_at_length data data').
  - intros j' Hj'. destruct (Hp j' Hj') as (s & Hs & Hu). rewrite (slot_at_length data data') by done.
    specialize (Hext (slot_at data h j')). rewrite Hs in Hext. simpl in Hext.
    destruct (data' !! slot_at data h j') as [s'|]; simplify_eq/=. eexists. split; [done|]. congruence.
Qed.

End probe.

#[export] Hint Resolve slot_at_lt next_slot_lt reachable_insert : netsdb.
