(* ===== verification/PairArray.v ===== *)
(** * PairArray and Map: the open-addressing hash table of the object model

    Models [builtInPDBObjects/headers/PairArray.cc] (the table) and
    [PDBMap.cc] (the growing map built on it).  A [PairArray] is a header and
    an array of slots; a slot whose hash field holds [UNUSED] is free, any
    other slot holds a constructed key and value.  The abstract view
    [to_map] is a finite map from keys to values; [wf] is the table
    invariant.  Whether an allocation fits is an argument of the operations
    that allocate: a deep copy or a new array may throw [NotEnoughSpace]. *)

From S2P Require Import Prelude HashProbe.

(** [#define UNUSED 493295393] *)
Definition UNUSED : Z := 493295393.

(** The significand of the double [.667]: its value is [FILL_MANT / 2^53]. *)
Definition FILL_MANT : Z := 6007801902912242.

(** [maxSlots = numSlotsIn * FILL_FACTOR], a double product truncated to
    [uint32_t]. *)
Definition fill_max (n : Z) : Z := (round53 (n * FILL_MANT) / 2 ^ 53)%Z.

(** ** Integer hashing *)

(** [newHash]: the bit twiddling of [PDBMap.cc] on 32-bit words. *)
Definition newHash (x : Z) : Z :=
  let x := u32 (Z.lxor (Z.shiftr x 16) x * 73244475) in
  let x := u32 (Z.lxor (Z.shiftr x 16) x * 73244475) in
  Z.lxor (Z.shiftr x 16) x.

(** [specialHash (unsigned)] and [specialHash (int)]: a signed key is first
    converted to [unsigned]. *)
Definition specialHash_unsigned (u : Z) : Z := newHash u.
Definition specialHash_int (u : Z) : Z := newHash (u32 u).

(** Which of the allocations of a map operation fit: the new array, the
    move of slot [i] into it, and the construction of a new entry. *)
Record space := Space {
  fits_array : bool;
  fits_move : nat → bool;
  fits_insert : bool
}.

Definition plenty : space := Space true (λ _, true) true.

Record slot {K V : Type} := Slot {
  slot_hash : Z;
  slot_kv : option (K * V)
}.
Arguments slot : clear implicits.
Arguments Slot {K V}.

Record PairArray {K V : Type} := MkPairArray {
  usedSlots : Z;
  numSlots : Z;
  maxSlots : Z;
  data : list (slot K V);
  (** of a table without slots *)
  disableDestructor : bool
}.
Arguments PairArray : clear implicits.
Arguments MkPairArray {K V}.

(** A position of [PDBMapIterator]. *)
Record iterator := Iterator { it_slot : nat; it_done : bool }.

Section PairArray.
Context {RS : RecordSize} {K V : Type} `{Countable K}.
(** [hash_impl k]: [std::hash], [KeyType::hash] or [specialHash], as the
    overloads of [Hasher] select; [dV]: the value [ValueType()] constructs. *)
Context (hash_impl : K → Z) (dV : V).
Implicit Types (pa : PairArray K V) (s : slot K V).

(** [Hasher::hash] *)
Definition Hasher_hash (k : K) : Z :=
  let temp := hash_impl k in if (temp =? UNUSED)%Z then 858931273%Z else temp.

Definition is_unused s : bool := (slot_hash s =? UNUSED)%Z.

(** [GET_HASH(data, slot) == hashVal && GET_KEY(data, slot, KeyType) == me] *)
Definition slot_matches (h : Z) (k : K) s : bool :=
  (slot_hash s =? h)%Z && match slot_kv s with Some (k', _) => bool_decide (k' = k) | None => false end.

(** [hashVal % (numSlots - 1)]; the divisor is a [uint32_t]. *)
Definition home_slot (n h : Z) : outcome nat :=
  let d := u32 (n - 1) in if (d =? 0)%Z then Undefined else Ret (Z.to_nat (h mod d)).

(** The probe loop all three operations run. *)
Definition find_slot pa (k : K) : outcome probe_result :=
  let h := Hasher_hash k in
  start ← home_slot (numSlots pa) h;
  mret (probe is_unused (slot_matches h k) (data pa) (Z.to_nat (numSlots pa)) start).

Definition set_data pa (d : list (slot K V)) : PairArray K V :=
  MkPairArray (usedSlots pa) (numSlots pa) (maxSlots pa) d (disableDestructor pa).

Definition set_usedSlots pa (n : Z) : PairArray K V :=
  MkPairArray n (numSlots pa) (maxSlots pa) (data pa) (disableDestructor pa).

(** [count] *)
Definition count pa (k : K) : outcome Z :=
  r ← find_slot pa k;
  mret match r with PEmpty _ => 0%Z | PMatch _ => 1%Z | POff => 0%Z end.

(** [setUnused]: destroys the entry and frees its slot; [usedSlots] keeps its
    value. *)
Definition setUnused (k : K) : M (PairArray K V) unit := λ pa,
  match find_slot pa k with
  | Ret (PEmpty _) => (Ret tt, pa)
  | Ret (PMatch i) => (Ret tt, set_data pa (<[i := Slot UNUSED None]> (data pa)))
  | Ret POff => (Ret tt, pa)
  | NotEnoughSpace => (NotEnoughSpace, pa)
  | Exit c => (Exit c, pa)
  | Undefined => (Undefined, pa)
  end.

(** [operator[]]: the slot whose value is returned by reference.  [fits] says
    whether constructing the entry and assigning the key find room; when they
    do not, the slot's hash has not been written yet. *)
Definition operator_at (fits : bool) (k : K) : M (PairArray K V) nat := λ pa,
  match find_slot pa k with
  | Ret (PEmpty i) =>
      if fits then
        (Ret i, set_usedSlots
                  (set_data pa (<[i := Slot (Hasher_hash k) (Some (k, dV))]> (data pa)))
                  (u32 (usedSlots pa + 1)))
      else (NotEnoughSpace, pa)
  | Ret (PMatch i) => (Ret i, pa)
  | Ret POff => (Exit 1, pa)
  | NotEnoughSpace => (NotEnoughSpace, pa)
  | Exit c => (Exit c, pa)
  | Undefined => (Undefined, pa)
  end.

(** Reading and writing through the reference [operator[]] returns. *)
Definition value_at pa (i : nat) : option V :=
  s ← data pa !! i; kv ← slot_kv s; Some (snd kv).

Definition assign_value (i : nat) (v : V) : M (PairArray K V) unit :=
  modify (λ pa, set_data pa (alter (λ s,
    Slot (slot_hash s) (match slot_kv s with Some (k, _) => Some (k, v) | None => None end)) i (data pa))).

(** The constructors: no slots, and [numSlotsIn] free slots. *)
Definition PairArray_empty : PairArray K V := MkPairArray 0 0 0 [] false.

(** The loop that looks for a power of two at least [numSlotsIn] among
    [2^0 .. 2^31]. *)
Fixpoint got_power (fuel : nat) (val numSlotsIn : Z) : bool :=
  match fuel with
  | 0 => false
  | S fuel' => if (numSlotsIn <=? val)%Z then true else got_power fuel' (u32 (val * 2)) numSlotsIn
  end.

(** The loop that sets the slots to [UNUSED] multiplies the index of a slot and
    [objSize] in 32 bits: in a table of more than 4 GiB slots are left as they
    were. *)
Definition PairArray_new (numSlotsIn : Z) : outcome (PairArray K V) :=
  if got_power 32 1 numSlotsIn then
    if (record_size * (numSlotsIn - 1) <? u32_modulus)%Z then
      Ret (MkPairArray 0 numSlotsIn (fill_max numSlotsIn)
             (replicate (Z.to_nat numSlotsIn) (Slot UNUSED None)) false)
    else Undefined
  else Exit 1.

Definition isOverFull pa : bool := (maxSlots pa <=? usedSlots pa)%Z.
Definition numUsedSlots pa : Z := usedSlots pa.

(** [data] takes no space in the class, so the flag behind it is the first byte
    of the first slot, the lowest byte of its hash; a table without slots has
    room for the flag itself.  A [bool] that is neither 0 nor 1 must not be
    read. *)
Definition setDisableDestructor (b : bool) pa : PairArray K V :=
  match data pa with
  | [] => MkPairArray (usedSlots pa) (numSlots pa) (maxSlots pa) [] b
  | s :: d => set_data pa (Slot (Z.lor (Z.land (slot_hash s) (-256)) (Z.b2z b)) (slot_kv s) :: d)
  end.

Definition isDestructorDisabled pa : outcome bool :=
  match data pa with
  | [] => Ret (disableDestructor pa)
  | s :: _ =>
      let byte := Z.land (slot_hash s) 255 in
      if (byte =? 0)%Z then Ret false else if (byte =? 1)%Z then Ret true else Undefined
  end.

(** The destructor: the entries whose constituents are destroyed.
    [keyObj], [valueObj]: the types descend from [Object]. *)
Definition destroyed (keyObj valueObj : bool) pa : outcome (list (K * V)) :=
  disabled ← isDestructorDisabled pa;
  if disabled : bool then Ret []
  else if negb keyObj && negb valueObj then Ret []
  else if forallb (λ s, is_unused s || bool_decide (is_Some (slot_kv s))) (data pa)
  then Ret (omap (λ s, if is_unused s then None else slot_kv s) (data pa))
  else Undefined.

(** [doubleArray]: moves every used slot [i, i+1, ...] of the old array, the
    state, into [newOne]. *)
Fixpoint move_slots (fits : nat → bool) (todo i : nat) (newOne : PairArray K V) :
    M (PairArray K V) (PairArray K V) := λ pa,
  match todo with
  | 0 => (Ret newOne, pa)
  | S todo' =>
      match data pa !! i with
      | None => (Undefined, pa)
      | Some s =>
          if is_unused s then move_slots fits todo' (S i) newOne pa
          else
            match slot_kv s with
            | None => (Undefined, pa)
            | Some (k, v) =>
                match (j ← operator_at (fits i) k; assign_value j v) newOne with
                | (Ret _, newOne') =>
                    move_slots fits todo' (S i) newOne'
                      (set_data pa (<[i := Slot UNUSED None]> (data pa)))
                | (NotEnoughSpace, _) => (NotEnoughSpace, pa)
                | (Exit c, _) => (Exit c, pa)
                | (Undefined, _) => (Undefined, pa)
                end
            end
      end
  end.

(** [objSize * howMany] bytes are asked for, a product of two [uint32_t]: when it
    is less than the slots need, they lie past the end of the object. *)
Definition doubleArray (sp : space) : M (PairArray K V) (PairArray K V) := λ pa,
  let howMany := u32 (numSlots pa * 2) in
  if fits_array sp then
    if (u32 (record_size * howMany) <? record_size * howMany)%Z then (Undefined, pa)
    else match PairArray_new howMany with
    | Ret newOne => move_slots (fits_move sp) (Z.to_nat (numSlots pa)) 0 newOne pa
    | NotEnoughSpace => (NotEnoughSpace, pa)
    | Exit c => (Exit c, pa)
    | Undefined => (Undefined, pa)
    end
  else (NotEnoughSpace, pa).

(** ** Deep copy *)

(** The copy loop of [setUpAndCopyFrom] from slot [i] on: [copyKey i] and
    [copyValue i] say whether the copies of slot [i] find room. *)
Fixpoint copy_slots (copyKey copyValue : nat → bool) (i : nat) (from : list (slot K V)) :
    outcome unit * list (slot K V) :=
  match from with
  | [] => (Ret tt, [])
  | s :: from' =>
      if is_unused s then
        let '(r, to') := copy_slots copyKey copyValue (S i) from' in
        (r, Slot UNUSED None :: to')
      else if copyKey i && copyValue i then
        let '(r, to') := copy_slots copyKey copyValue (S i) from' in (r, s :: to')
      else (NotEnoughSpace, replicate (length from) (Slot UNUSED None))
  end.

(** [setUpAndCopyFrom]: the target, with the exception it throws if a copy
    does not fit.  Primitive keys and values are copied by [memmove]. *)
Definition setUpAndCopyFrom (keyObj valueObj : bool) (copyKey copyValue : nat → bool)
    (fromMe : PairArray K V) : outcome unit * PairArray K V :=
  if negb keyObj && negb valueObj then
    (Ret tt, MkPairArray (usedSlots fromMe) (numSlots fromMe) (maxSlots fromMe) (data fromMe) false)
  else
    let '(r, d) := copy_slots (λ i, negb keyObj || copyKey i) (λ i, negb valueObj || copyValue i)
                     0 (data fromMe) in
    let toMe := MkPairArray (usedSlots fromMe) (numSlots fromMe) (maxSlots fromMe) d false in
    (r, match r with NotEnoughSpace => setDisableDestructor true toMe | _ => toMe end).

(** ** Iteration *)

(** [while (slot != numSlots && GET_HASH(data, slot) == UNUSED) slot++;] *)
Fixpoint skip_unused pa (fuel i : nat) : nat :=
  match fuel with
  | 0 => i
  | S fuel' =>
      match data pa !! i with
      | Some s => if is_unused s then skip_unused pa fuel' (S i) else i
      | None => i
      end
  end.

Definition settle pa (i : nat) : iterator :=
  let i' := skip_unused pa (Z.to_nat (numSlots pa)) i in
  Iterator i' (bool_decide (Z.of_nat i' = numSlots pa)).

Definition iter_begin pa : iterator := settle pa 0.
Definition iter_end : iterator := Iterator 0 true.
Definition iter_next pa (it : iterator) : iterator :=
  let it' := settle pa (if it_done it then it_slot it else S (it_slot it)) in
  Iterator (it_slot it') (it_done it || it_done it').
Definition iter_deref pa (it : iterator) : option (K * V) :=
  s ← data pa !! it_slot it; slot_kv s.
Definition iter_ne (a b : iterator) : bool := negb (it_done a) || negb (it_done b).

(** [for (auto it = m.begin(); it != m.end(); ++it) { ... *it ... }] *)
Fixpoint iterate pa (fuel : nat) (it : iterator) : option (list (K * V)) :=
  match fuel with
  | 0 => None
  | S fuel' =>
      if iter_ne it iter_end then
        kv ← iter_deref pa it; l ← iterate pa fuel' (iter_next pa it); Some (kv :: l)
      else Some []
  end.

(** ** Map *)

(** [Map::Map(uint32_t)]: the size is raised to two. *)
Definition Map_new (initSize : Z) : outcome (PairArray K V) :=
  PairArray_new (if (initSize <? 2)%Z then 2%Z else initSize).

Definition Map_default : outcome (PairArray K V) := PairArray_new 2.

(** [Map::operator[]]: a missing key in an over-full array doubles it first. *)
Definition Map_at (sp : space) (k : K) : M (PairArray K V) nat :=
  pa ← get;
  c ← lift (count pa k);
  (if (c =? 0)%Z && isOverFull pa then temp ← doubleArray sp; put temp else mret tt) ;;
  operator_at (fits_insert sp) k.

Definition Map_count (k : K) : M (PairArray K V) Z := pa ← get; lift (count pa k).
Definition Map_size (pa : PairArray K V) : Z := numUsedSlots pa.
Definition Map_setUnused (k : K) : M (PairArray K V) unit := setUnused k.

(** [m[k] = v] *)
Definition Map_store (sp : space) (k : K) (v : V) : M (PairArray K V) unit :=
  i ← Map_at sp k; assign_value i v.

(** ** Abstract view and invariant *)

(** The key and value a slot holds. *)
Definition entry s : option (K * V) := if is_unused s then None else slot_kv s.

(** The finite map a table represents. *)
Definition to_map pa : gmap K V := slots_map entry (data pa).

(** The number of slots in use. *)
Definition used_count pa : nat := length (filter (λ s, is_unused s = false) (data pa)).

(** The home slot of key [k] in a table with at least two slots. *)
Definition home pa (k : K) : nat := Z.to_nat (Hasher_hash k mod (numSlots pa - 1)).

(** The table invariant: the header agrees with the slot array, [usedSlots]
    bounds the slots in use from above and stays within [maxSlots], every used
    slot holds a constructed entry, filed under its key's hash and reachable
    from its home slot, and no key occurs twice. *)
Record wf pa : Prop := {
  wf_len : Z.of_nat (length (data pa)) = numSlots pa;
  wf_size : (2 ≤ numSlots pa < u32_modulus)%Z;
  wf_max : maxSlots pa = fill_max (numSlots pa);
  wf_used : (Z.of_nat (used_count pa) ≤ usedSlots pa ≤ maxSlots pa)%Z;
  wf_entry i s : data pa !! i = Some s → is_unused s = false →
    ∃ k v, slot_kv s = Some (k, v) ∧ slot_hash s = Hasher_hash k ∧
           reachable is_unused (data pa) (home pa k) i;
  wf_uniq : slots_unique entry (data pa)
}.

End PairArray.

(** ** The fill factor *)

Lemma fill_max_bounds n :
  (2 ≤ n < u32_modulus)%Z → (1 ≤ fill_max n < n)%Z.
Proof.
  intros Hn. unfold fill_max. pose proof (round53_error (n * FILL_MANT)) as [He1 He2].
  { unfold FILL_MANT. lia. }
  unfold FILL_MANT in *. split.
  - apply Z.div_le_lower_bound; lia.
  - apply Z.div_lt_upper_bound; lia.
Qed.

(** Doubling the table strictly raises the fill limit. *)
Lemma fill_max_double n :
  (2 ≤ n)%Z → (fill_max n < fill_max (2 * n))%Z.
Proof.
  intros Hn. unfold fill_max.
  pose proof (round53_error (n * FILL_MANT)) as [He1 He2]; [unfold FILL_MANT; lia|].
  pose proof (round53_error (2 * n * FILL_MANT)) as [He3 He4]; [unfold FILL_MANT; lia|].
  unfold FILL_MANT in *.
  set (x := round53 (n * 6007801902912242)) in *.
  set (y := round53 (2 * n * 6007801902912242)) in *.
  pose proof (Z.div_mod x (2 ^ 53) ltac:(lia)). pose proof (Z.mod_pos_bound x (2 ^ 53) ltac:(lia)).
  apply Z.lt_le_trans with (x / 2 ^ 53 + 1)%Z; [lia|].
  apply Z.div_le_lower_bound; lia.
Qed.

Section facts.
Context {RS : RecordSize} {K V : Type} `{Countable K} (hash_impl : K → Z) (dV : V).
Implicit Types (pa : PairArray K V) (s : slot K V) (k : K).
Local Abbreviation Hasher_hash := (Hasher_hash hash_impl).
Local Abbreviation wf := (wf hash_impl).
Local Abbreviation home := (home hash_impl).
Local Abbreviation find_slot := (find_slot hash_impl).
Local Abbreviation operator_at := (operator_at hash_impl dV).

Lemma Hasher_hash_used k : Hasher_hash k ≠ UNUSED.
Proof. unfold PairArray.Hasher_hash. destruct (_ =? _)%Z eqn:E; [done|]. by apply Z.eqb_neq. Qed.

Lemma is_unused_entry s : is_unused s = true → entry s = None.
Proof. unfold entry. by intros ->. Qed.

Lemma home_lt pa k : wf pa → home pa k < length (data pa).
Proof.
  intros Hwf. pose proof (wf_len _ _ Hwf). pose proof (wf_size _ _ Hwf).
  unfold PairArray.home. pose proof (Z.mod_pos_bound (Hasher_hash k) (numSlots pa - 1)). lia.
Qed.

Lemma home_slot_wf pa k :
  wf pa → home_slot (numSlots pa) (Hasher_hash k) = Ret (home pa k).
Proof.
  intros Hwf. pose proof (wf_size _ _ Hwf). unfold home_slot.
  rewrite u32_small by word_lia. destruct (Z.eqb_spec (numSlots pa - 1) 0); [lia|done].
Qed.

Lemma find_slot_wf pa k :
  wf pa → find_slot pa k =
    Ret (probe is_unused (slot_matches (Hasher_hash k) k) (data pa) (length (data pa)) (home pa k)).
Proof.
  intros Hwf. unfold PairArray.find_slot. rewrite home_slot_wf by done. simpl.
  pose proof (wf_len _ _ Hwf) as Hl. by rewrite <- Hl, Nat2Z.id.
Qed.

(** A used slot matches a key exactly when it holds that key. *)
Lemma slot_matches_entry pa k i s :
  wf pa → data pa !! i = Some s → is_unused s = false →
  slot_matches (Hasher_hash k) k s = true ↔ ∃ v, entry s = Some (k, v).
Proof.
  intros Hwf Hs Hu. destruct (wf_entry _ _ Hwf _ _ Hs Hu) as (k' & v & Hkv & Hh & _).
  unfold slot_matches, entry. rewrite Hu, Hkv, Hh, andb_true_iff, bool_decide_eq_true.
  split; [intros [_ ->]; eauto|]. intros [w [= -> _]]. split; [apply Z.eqb_refl|done].
Qed.

(** A table below its limit has a free slot. *)
Lemma free_slot pa : wf pa → ∃ i s, data pa !! i = Some s ∧ is_unused s = true.
Proof.
  intros Hwf. pose proof (wf_used _ _ Hwf). pose proof (wf_max _ _ Hwf).
  pose proof (wf_len _ _ Hwf). pose proof (wf_size _ _ Hwf).
  pose proof (fill_max_bounds (numSlots pa) ltac:(done)).
  destruct (filter_length_lt_exists (λ s, is_unused s = false) (data pa)) as (i & s & ? & ?).
  { unfold used_count in *. lia. }
  exists i, s. split; [done|]. by destruct (is_unused s).
Qed.

Lemma to_map_lookup pa k v :
  wf pa → to_map pa !! k = Some v ↔ ∃ i s, data pa !! i = Some s ∧ entry s = Some (k, v).
Proof. intros Hwf. apply slots_map_lookup. by eapply wf_uniq. Qed.

(** Probing for a key that is present finds its slot. *)
Lemma find_slot_hit pa k v :
  wf pa → to_map pa !! k = Some v →
  ∃ i, find_slot pa k = Ret (PMatch i) ∧ data pa !! i = Some (Slot (Hasher_hash k) (Some (k, v))).
Proof.
  intros Hwf Hk. apply to_map_lookup in Hk as (i & s & Hs & He); [|done].
  destruct (is_unused s) eqn:Hu; [by rewrite is_unused_entry in He|].
  destruct (wf_entry _ _ Hwf _ _ Hs Hu) as (k' & v' & Hkv & Hh & Hr).
  assert (k' = k ∧ v' = v) as [-> ->] by (unfold entry in He; rewrite Hu, Hkv in He; naive_solver).
  exists i. split; [|destruct s; simpl in *; congruence].
  rewrite find_slot_wf by done. f_equal.
  eapply probe_found; [by apply home_lt|done|done|done| |].
  - apply (slot_matches_entry pa _ i); eauto.
  - intros i' s' Hs' Hu' Hm. apply (slot_matches_entry pa _ i') in Hm as [w Hw]; [|done..].
    by eapply (wf_uniq _ _ Hwf).
Qed.

(** Probing for a key that is absent stops at a reachable free slot. *)
Lemma find_slot_miss pa k :
  wf pa → to_map pa !! k = None →
  ∃ i s, find_slot pa k = Ret (PEmpty i) ∧ data pa !! i = Some s ∧ is_unused s = true ∧
         reachable is_unused (data pa) (home pa k) i.
Proof.
  intros Hwf Hk. rewrite find_slot_wf by done.
  destruct (probe_free is_unused (slot_matches (Hasher_hash k) k) (data pa) (home pa k))
    as (i & s & Hp & ? & ? & ?); [by apply home_lt|by apply free_slot| |].
  - intros i s Hs Hu. destruct (slot_matches _ _ s) eqn:Hm; [|done].
    apply (slot_matches_entry pa _ i) in Hm as [v Hv]; [|done..].
    assert (to_map pa !! k = Some v) by (apply to_map_lookup; eauto). congruence.
  - exists i, s. by rewrite Hp.
Qed.

Lemma find_slot_total pa k :
  wf pa → ∃ i, find_slot pa k = Ret (PEmpty i) ∨ find_slot pa k = Ret (PMatch i).
Proof.
  intros Hwf. destruct (to_map pa !! k) as [v|] eqn:Hk.
  - destruct (find_slot_hit pa k v) as (i & ? & _); eauto.
  - destruct (find_slot_miss pa k) as (i & s & ? & _); eauto.
Qed.

Lemma operator_at_hit fits pa k v :
  wf pa → to_map pa !! k = Some v →
  ∃ i, operator_at fits k pa = (Ret i, pa) ∧
       data pa !! i = Some (Slot (Hasher_hash k) (Some (k, v))).
Proof.
  intros Hwf Hk. destruct (find_slot_hit _ _ _ Hwf Hk) as (i & Hf & Hi).
  exists i. unfold PairArray.operator_at. by rewrite Hf.
Qed.

(** Occupying a free slot reachable from the key's home keeps the invariant. *)
Lemma wf_fill pa i s k v n :
  wf pa → data pa !! i = Some s → is_unused s = true →
  reachable is_unused (data pa) (home pa k) i → to_map pa !! k = None →
  (usedSlots pa + 1 ≤ n ≤ maxSlots pa)%Z →
  let pa' := set_usedSlots (set_data pa (<[i := Slot (Hasher_hash k) (Some (k, v))]> (data pa))) n in
  wf pa' ∧ to_map pa' = <[k:=v]> (to_map pa) ∧ used_count pa' = S (used_count pa).
Proof.
  intros Hwf Hs Hu Hr Hk Hn pa'.
  set (s' := Slot (Hasher_hash k) (Some (k, v))).
  assert (is_unused s' = false) as Hu'.
  { unfold is_unused. simpl. apply Z.eqb_neq, Hasher_hash_used. }
  assert (entry s' = Some (k, v)) as He by (unfold entry; by rewrite Hu').
  destruct (slots_fill entry (data pa) i s s' k v) as [Huniq Hmap];
    [by eapply wf_uniq|done|by apply is_unused_entry|done|done|].
  assert (used_count pa' = S (used_count pa)) as Hc.
  { unfold used_count. change (data pa') with (<[i:=s']> (data pa)).
    pose proof (filter_insert_length is_unused (data pa) i s' s Hs) as Hf.
    rewrite Hu, Hu' in Hf. lia. }
  split_and!; [|done|done].
  pose proof (wf_used _ _ Hwf).
  split; simpl.
  - rewrite length_insert. by eapply wf_len.
  - by eapply wf_size.
  - by eapply wf_max.
  - rewrite Hc. lia.
  - intros j t Ht Htu. apply lookup_insert_cases in Ht as [(-> & <- & _)|[Hij Ht]].
    + exists k, v. split_and!; [done|done|]. by apply reachable_insert.
    + destruct (wf_entry _ _ Hwf _ _ Ht Htu) as (k' & v' & ? & ? & ?).
      exists k', v'. split_and!; [done|done|]. by apply reachable_insert.
  - done.
Qed.

Lemma operator_at_miss pa k :
  wf pa → to_map pa !! k = None → (usedSlots pa < maxSlots pa)%Z →
  ∃ i pa', operator_at true k pa = (Ret i, pa') ∧ wf pa' ∧
    to_map pa' = <[k:=dV]> (to_map pa) ∧ used_count pa' = S (used_count pa) ∧
    usedSlots pa' = (usedSlots pa + 1)%Z ∧ numSlots pa' = numSlots pa ∧
    data pa' !! i = Some (Slot (Hasher_hash k) (Some (k, dV))).
Proof.
  intros Hwf Hk Hlt. destruct (find_slot_miss _ _ Hwf Hk) as (i & s & Hf & Hs & Hu & Hr).
  assert (u32 (usedSlots pa + 1) = usedSlots pa + 1)%Z as Hw.
  { apply u32_small. pose proof (wf_size _ _ Hwf). pose proof (wf_used _ _ Hwf).
    pose proof (wf_max _ _ Hwf). pose proof (fill_max_bounds (numSlots pa) ltac:(done)). word_lia. }
  destruct (wf_fill pa i s k dV (u32 (usedSlots pa + 1)) Hwf Hs Hu Hr Hk) as (? & ? & ?); [lia|].
  eexists i, _. unfold PairArray.operator_at. rewrite Hf. split_and!; try done.
  simpl. apply list_lookup_insert_eq. by eapply lookup_lt_Some.
Qed.

(** Writing through the reference updates the entry's value. *)
Lemma assign_value_spec pa i h k v w :
  wf pa → data pa !! i = Some (Slot h (Some (k, v))) → h ≠ UNUSED →
  ∃ pa', assign_value i w pa = (Ret tt, pa') ∧ wf pa' ∧
    to_map pa' = <[k:=w]> (to_map pa) ∧ used_count pa' = used_count pa ∧
    usedSlots pa' = usedSlots pa ∧ numSlots pa' = numSlots pa.
Proof.
  intros Hwf Hs Hne. set (s := Slot h (Some (k, v))) in *. set (s' := Slot h (Some (k, w))).
  assert (is_unused s = false) as Hu by by apply Z.eqb_neq.
  assert (is_unused s' = false) as Hu' by by apply Z.eqb_neq.
  destruct (slots_update entry (data pa) i s s' k v w) as [Huniq Hmap];
    [by eapply wf_uniq|done|unfold entry; by rewrite Hu|unfold entry; by rewrite Hu'|].
  destruct (wf_entry _ _ Hwf _ _ Hs Hu) as (k1 & v1 & Hkv & Hh & Hr).
  simpl in Hkv. simplify_eq.
  exists (set_data pa (<[i:=s']> (data pa))).
  assert (used_count (set_data pa (<[i:=s']> (data pa))) = used_count pa) as Hc.
  { unfold used_count. change (data (set_data pa ?d)) with d.
    pose proof (filter_insert_length is_unused (data pa) i s' s Hs) as Hf.
    rewrite Hu, Hu' in Hf. lia. }
  split_and!; try done.
  - unfold assign_value, modify. do 3 f_equal.
    by rewrite (list_alter_insert_lookup _ _ _ s).
  - split; simpl.
    + rewrite length_insert. by eapply wf_len.
    + by eapply wf_size.
    + by eapply wf_max.
    + rewrite Hc. by eapply wf_used.
    + intros j t Ht Htu. apply lookup_insert_cases in Ht as [(-> & <- & _)|[Hij Ht]].
      * exists k1, w. split_and!; [done|done|]. by apply reachable_insert.
      * destruct (wf_entry _ _ Hwf _ _ Ht Htu) as (k' & v' & ? & ? & ?).
        exists k', v'. split_and!; [done|done|]. by apply reachable_insert.
    + done.
Qed.

(** ** Construction and doubling *)

Lemma got_power_from fuel (j n : Z) :
  (0 ≤ j)%Z → (j + Z.of_nat fuel ≤ 31)%Z →
  got_power (S fuel) (2 ^ j) n = (n <=? 2 ^ (j + Z.of_nat fuel))%Z.
Proof.
  revert j. induction fuel as [|fuel IH]; intros j Hj Hf.
  - simpl. rewrite Z.add_0_r. by destruct (_ <=? _)%Z.
  - assert (2 ^ j * 2 = 2 ^ (j + 1))%Z as Hd by (rewrite Z.pow_add_r by lia; lia).
    assert (2 ^ (j + 1) < 2 ^ 32)%Z by (apply Z.pow_lt_mono_r; lia).
    assert (0 < 2 ^ j)%Z by (apply Z.pow_pos_nonneg; lia).
    change (got_power (S (S fuel)) (2 ^ j) n) with
      (if (n <=? 2 ^ j)%Z then true else got_power (S fuel) (u32 (2 ^ j * 2)) n).
    rewrite Hd, u32_small by (unfold u32_modulus; lia).
    rewrite IH by lia. replace (j + 1 + Z.of_nat fuel)%Z with (j + Z.of_nat (S fuel))%Z by lia.
    destruct (Z.leb_spec n (2 ^ j)); [|done]. symmetry. apply Z.leb_le.
    etrans; [done|]. apply Z.pow_le_mono_r; lia.
Qed.

(** The search accepts every size up to [2^31], a power of two or not. *)
Lemma got_power_spec n : got_power 32 1 n = (n <=? 2147483648)%Z.
Proof. exact (got_power_from 31 0 n ltac:(lia) ltac:(lia)). Qed.

Lemma PairArray_new_wf n :
  (2 ≤ n ≤ 2147483648)%Z → (record_size * (n - 1) < u32_modulus)%Z →
  ∃ pa, PairArray_new n = Ret pa ∧ wf pa ∧ to_map pa = ∅ ∧ used_count pa = 0 ∧
        usedSlots pa = 0%Z ∧ numSlots pa = n.
Proof.
  intros Hn Hb. unfold PairArray_new. rewrite got_power_spec.
  destruct (Z.leb_spec n 2147483648); [|lia]. rewrite (proj2 (Z.ltb_lt _ _) Hb).
  set (l := replicate (Z.to_nat n) (Slot UNUSED None)).
  assert (∀ i s, l !! i = Some s → s = (Slot UNUSED None : slot K V)) as Hl.
  { intros i s Hs. by apply lookup_replicate in Hs as [-> _]. }
  assert (∀ m, filter (λ s : slot K V, is_unused s = false) (replicate m (Slot UNUSED None)) = []) as Hf.
  { intros m. induction m as [|m IH]; [done|]. simpl replicate. rewrite filter_cons. by case_decide. }
  assert (∀ m, omap entry (replicate m (Slot UNUSED None : slot K V)) = []) as Ho.
  { intros m. by induction m. }
  pose proof (fill_max_bounds n ltac:(word_lia)).
  eexists. split; [done|]. split_and!; try done.
  - split; simpl.
    + unfold l. rewrite length_replicate. lia.
    + word_lia.
    + done.
    + unfold used_count, l. simpl. rewrite Hf. simpl. lia.
    + intros i s Hs Hu. by apply Hl in Hs as ->.
    + intros i j x y k v w Hx _ He. by apply Hl in Hx as ->.
  - unfold to_map, slots_map. simpl. unfold l. by rewrite Ho.
  - unfold used_count. simpl. unfold l. by rewrite Hf.
Qed.
(** Whether a slot is ready to be moved: it holds an entry under its hash. *)
Definition movable s : Prop :=
  is_unused s = false → ∃ k v, slot_kv s = Some (k, v) ∧ slot_hash s = Hasher_hash k.

(** What [move_slots] does to the new array, given the slots [l] still to be
    moved: it adds them all, or stops at a slot that does not fit. *)
Lemma move_slots_spec fits l i pa new :
  drop i (data pa) = l → Forall movable l → slots_unique entry l →
  wf new → (∀ k v, slots_map entry l !! k = Some v → to_map new !! k = None) →
  usedSlots new = Z.of_nat (used_count new) →
  (usedSlots new + Z.of_nat (length (filter (λ s, is_unused s = false) l)) ≤ maxSlots new)%Z →
  match move_slots hash_impl dV fits (length l) i new pa with
  | (Ret new', _) => wf new' ∧ to_map new' = slots_map entry l ∪ to_map new ∧
      numSlots new' = numSlots new ∧ usedSlots new' = Z.of_nat (used_count new') ∧
      used_count new' = used_count new + length (filter (λ s, is_unused s = false) l)
  | (NotEnoughSpace, _) => ∃ j, i ≤ j ∧ fits j = false
  | _ => False
  end.
Proof.
  revert i pa new. induction l as [|s l IH]; intros i pa new Hl Hmv Hu Hwf Hdisj Hcnt Hroom; simpl.
  { split_and!; [done| |done|done|simpl; lia]. unfold slots_map. simpl. by rewrite (left_id_L ∅ (∪)). }
  assert (data pa !! i = Some s) as Hi.
  { rewrite <- (Nat.add_0_r i), <- lookup_drop, Hl. done. }
  assert (drop (S i) (data pa) = l) as Hl'.
  { rewrite <- Nat.add_1_r, <- drop_drop, Hl. done. }
  rewrite Hi. apply Forall_cons in Hmv as [Hm Hmv].
  pose proof (slots_unique_tail _ _ _ Hu) as Hu'.
  rewrite filter_cons in Hroom |- *. unfold movable in Hm. destruct (is_unused s) eqn:Hus.
  - rewrite decide_False in Hroom |- * by done.
    rewrite slots_map_cons_None in Hdisj |- * by by apply is_unused_entry.
    specialize (IH (S i) pa new Hl' Hmv Hu' Hwf Hdisj Hcnt Hroom).
    destruct (move_slots _ _ _ _ _ _ _) as [[] ?]; try done.
    destruct IH as (j & ? & ?). exists j. split; [lia|done].
  - rewrite decide_True in Hroom |- * by done. destruct (Hm eq_refl) as (k & v & Hkv & Hh).
    assert (entry s = Some (k, v)) as He by (unfold entry; by rewrite Hus).
    rewrite Hkv. rewrite (slots_map_cons_Some _ _ _ k v) in Hdisj |- * by done.
    assert (slots_map entry l !! k = None) as Hkl.
    { apply slots_map_lookup_None; [done|]. intros j x w Hx Hw.
      assert (0 = S j); [|lia]. by eapply (Hu 0 (S j)); simpl; eauto. }
    assert (to_map new !! k = None) as Hkn by apply (Hdisj k v), lookup_insert_eq.
    simpl in Hroom.
    destruct (fits i) eqn:Hfit.
    + destruct (operator_at_miss new k Hwf Hkn ltac:(lia))
        as (j & n1 & Hop & Hwf1 & Hm1 & Hc1 & Hus1 & Hn1 & Hj).
      destruct (assign_value_spec n1 j _ k dV v Hwf1 Hj (Hasher_hash_used k))
        as (n2 & Ha & Hwf2 & Hm2 & Hc2 & Hus2 & Hn2).
      rewrite (M_bind_Ret _ _ _ _ _ Hop), Ha.
      assert (maxSlots n2 = maxSlots new) as Hmax.
      { rewrite (wf_max _ _ Hwf2), (wf_max _ _ Hwf). congruence. }
      specialize (IH (S i) (set_data pa (<[i:=Slot UNUSED None]> (data pa))) n2).
      rewrite Hm2, Hm1, insert_insert_eq in IH.
      assert (∀ k0 v0, slots_map entry l !! k0 = Some v0 → <[k:=v]> (to_map new) !! k0 = None) as Hd.
      { intros k0 v0 Hk0. rewrite lookup_insert_ne by congruence. apply (Hdisj k0 v0).
        by rewrite lookup_insert_ne by congruence. }
      specialize (IH ltac:(simpl; rewrite drop_insert_lt by lia; done)
        Hmv Hu' Hwf2 Hd ltac:(lia) ltac:(rewrite Hmax; lia)).
      destruct (move_slots _ _ _ _ _ _ _) as [[new'| | |] ?]; try done.
      * destruct IH as (? & -> & ? & ? & ?). split_and!; [done| |congruence|done|simpl; lia].
        by rewrite <- insert_union_r, insert_union_l by done.
      * destruct IH as (j' & ? & ?). exists j'. split; [lia|done].
    + destruct (find_slot_miss _ _ Hwf Hkn) as (j & s' & Hf & _).
      run. unfold PairArray.operator_at. rewrite Hf. exists i. split; [lia|done].
Qed.

Lemma wf_movable pa : wf pa → Forall movable (data pa).
Proof.
  intros Hwf. apply Forall_lookup. intros i s Hs Hu.
  destruct (wf_entry _ _ Hwf _ _ Hs Hu) as (k & v & ? & ? & _). eauto.
Qed.

(** Doubling an over-full table of at most [max_slots] slots keeps its contents
    and makes room for one more entry. *)
Lemma doubleArray_spec sp pa :
  wf pa → (numSlots pa ≤ max_slots)%Z →
  match doubleArray hash_impl dV sp pa with
  | (Ret new, _) => wf new ∧ to_map new = to_map pa ∧ numSlots new = (2 * numSlots pa)%Z ∧
      usedSlots new = Z.of_nat (used_count new) ∧ used_count new = used_count pa ∧
      (usedSlots new < maxSlots new)%Z
  | (NotEnoughSpace, pa') => (fits_array sp = false ∧ pa' = pa) ∨ ∃ j, fits_move sp j = false
  | _ => False
  end.
Proof.
  intros Hwf Hn. pose proof (wf_size _ _ Hwf). pose proof (wf_len _ _ Hwf) as Hlen.
  unfold doubleArray. destruct (fits_array sp) eqn:Hfit; [|by left].
  assert (0 ≤ record_size * (2 * numSlots pa) < u32_modulus)%Z as Hbytes by (apply max_slots_bytes; lia). pose proof max_slots_bounds. pose proof record_size_ok.
  rewrite (u32_small (numSlots pa * 2)) by word_lia. rewrite (u32_small (record_size * _)) by lia. rewrite Z.ltb_irrefl.
  destruct (PairArray_new_wf (numSlots pa * 2) ltac:(lia) ltac:(lia))
    as (new & -> & Hwfn & Hmapn & Hcn & Hun & Hnn).
  pose proof (fill_max_double (numSlots pa) ltac:(lia)) as Hfm.
  pose proof (wf_used _ _ Hwf) as Hused. rewrite (wf_max _ _ Hwf) in Hused.
  assert (maxSlots new = fill_max (2 * numSlots pa)) as Hmaxn.
  { rewrite (wf_max _ _ Hwfn), Hnn. f_equal. lia. }
  pose proof (move_slots_spec (fits_move sp) (data pa) 0 pa new (drop_0 _) (wf_movable _ Hwf)
    (wf_uniq _ _ Hwf) Hwfn) as Hmv.
  rewrite Hmapn in Hmv. specialize (Hmv ltac:(intros; apply lookup_empty) ltac:(lia)).
  unfold used_count in Hused. specialize (Hmv ltac:(lia)).
  replace (Z.to_nat (numSlots pa)) with (length (data pa)) by lia.
  destruct (move_slots _ _ _ _ _ _ _) as [[new'| | |] pa']; try done.
  - destruct Hmv as (Hwf' & -> & Hns & Hus & Hc).
    assert (maxSlots new' = maxSlots new) as Hmax.
    { rewrite (wf_max _ _ Hwf'), (wf_max _ _ Hwfn). congruence. }
    split_and!; [done| |lia|done| |].
    + by rewrite (right_id_L ∅ (∪)).
    + unfold used_count in *. lia.
    + unfold used_count in *. lia.
  - right. destruct Hmv as (j & _ & ?). eauto.
Qed.
(** ** Map operations *)

Lemma count_lookup pa k :
  wf pa → count hash_impl pa k = Ret (if decide (is_Some (to_map pa !! k)) then 1 else 0)%Z.
Proof.
  intros Hwf. unfold count. destruct (to_map pa !! k) as [v|] eqn:Hk.
  - destruct (find_slot_hit _ _ _ Hwf Hk) as (i & -> & _). by rewrite decide_True by eauto.
  - destruct (find_slot_miss _ _ Hwf Hk) as (i & s & -> & _).
    rewrite decide_False; [done|]. by intros [? ?].
Qed.

(** The abstract [operator[]]: a missing key is bound to the default value. *)
Definition spec_at (m : gmap K V) k : gmap K V :=
  match m !! k with Some _ => m | None => <[k:=dV]> m end.

(** The table has counted its entries exactly: no [setUnused] so far. *)
Definition counted pa : Prop := usedSlots pa = Z.of_nat (used_count pa).

(** What [Map::operator[]] does on every branch, whatever fits. *)
Lemma Map_at_cases sp pa k :
  wf pa → (numSlots pa ≤ max_slots)%Z →
  match Map_at hash_impl dV sp k pa with
  | (Ret i, pa') => wf pa' ∧ to_map pa' = spec_at (to_map pa) k ∧
      (∃ v, to_map pa' !! k = Some v ∧ data pa' !! i = Some (Slot (Hasher_hash k) (Some (k, v)))) ∧
      (counted pa → counted pa') ∧
      (numSlots pa' = numSlots pa ∨
       numSlots pa' = (2 * numSlots pa)%Z ∧ (maxSlots pa ≤ usedSlots pa)%Z)
  | (NotEnoughSpace, pa') =>
      sp ≠ plenty ∧ ((∀ j, fits_move sp j = true) → wf pa' ∧ to_map pa' = to_map pa)
  | _ => False
  end.
Proof.
  intros Hwf Hn. unfold Map_at. run. rewrite count_lookup by done.
  destruct (to_map pa !! k) as [v|] eqn:Hk.
  { rewrite decide_True by eauto. simpl. run.
    destruct (operator_at_hit (fits_insert sp) _ _ _ Hwf Hk) as (i & -> & Hi).
    unfold spec_at. rewrite Hk. split_and!; eauto. }
  rewrite decide_False by (by intros [? ?]).
  assert (∀ p, wf p → to_map p = to_map pa → (usedSlots p < maxSlots p)%Z →
    match operator_at (fits_insert sp) k p with
    | (Ret i, p') => wf p' ∧ to_map p' = spec_at (to_map pa) k ∧
        (∃ v, to_map p' !! k = Some v ∧ data p' !! i = Some (Slot (Hasher_hash k) (Some (k, v)))) ∧
        (counted p → counted p') ∧ numSlots p' = numSlots p
    | (NotEnoughSpace, p') => sp ≠ plenty ∧ p' = p
    | _ => False
    end) as Hins.
  { intros p Hp Hm Hlt. rewrite <- Hm in Hk. destruct (fits_insert sp) eqn:Hfit.
    - destruct (operator_at_miss p k Hp Hk Hlt) as (i & p' & -> & Hp' & Hm' & Hc' & Hu' & Hn' & Hi).
      rewrite <- Hm. unfold spec_at. rewrite Hk. split_and!; [done|done| |unfold counted; lia|done].
      exists dV. split; [|done]. rewrite Hm'. apply lookup_insert_eq.
    - destruct (find_slot_miss _ _ Hp Hk) as (i & s & Hf & _).
      unfold PairArray.operator_at. rewrite Hf. split; [|done]. by intros ->. }
  simpl. unfold isOverFull. destruct (Z.leb_spec (maxSlots pa) (usedSlots pa)) as [Hfull|Hroom]; run.
  - pose proof (doubleArray_spec sp pa Hwf Hn) as Hd.
    destruct (doubleArray _ _ _ _) as [[new| | |] pa']; run; try done.
    + destruct Hd as (Hwf' & Hm' & Hn' & Hu' & _ & Hlt'). specialize (Hins new Hwf' Hm' Hlt').
      destruct (operator_at _ _ _) as [[i| | |] p']; try done.
      * destruct Hins as (? & ? & ? & He & Hn''). split_and!; [done..|auto|].
        right. split; [congruence|done].
      * by destruct Hins as [? ->].
    + destruct Hd as [[Hf ->]|[j Hj]]; (split; [intros ->; done|]); [done|].
      intros Hall. by rewrite Hall in Hj.
  - specialize (Hins pa Hwf eq_refl Hroom).
    destruct (operator_at _ _ _) as [[i| | |] p']; try done.
    + destruct Hins as (? & ? & ? & ? & ?). split_and!; eauto.
    + by destruct Hins as [? ->].
Qed.

Lemma Map_store_cases sp pa k v :
  wf pa → (numSlots pa ≤ max_slots)%Z → sp = plenty →
  ∃ pa', Map_store hash_impl dV sp k v pa = (Ret tt, pa') ∧ wf pa' ∧
    to_map pa' = <[k:=v]> (to_map pa) ∧ (counted pa → counted pa') ∧
    (numSlots pa' = numSlots pa ∨
     numSlots pa' = (2 * numSlots pa)%Z ∧ (maxSlots pa ≤ usedSlots pa)%Z).
Proof.
  intros Hwf Hn ->. pose proof (Map_at_cases plenty pa k Hwf Hn) as Hc.
  unfold Map_store. rewrite M_bind_unfold.
  destruct (Map_at _ _ _ _ _) as [[i| | |] p]; try done; [|by destruct Hc].
  destruct Hc as (Hp & Hm & (w & Hw & Hi) & He & Hns).
  destruct (assign_value_spec p i _ k w v Hp Hi (Hasher_hash_used k))
    as (p' & Ha & Hp' & Hm' & Hc' & Hu' & Hn').
  exists p'. split_and!; [done|done| |unfold counted in *; lia|lia].
  rewrite Hm', Hm. unfold spec_at. destruct (to_map pa !! k); [done|]. apply insert_insert_eq.
Qed.

(** Without erasures, the map doubles only when at least half full. *)
Definition tight pa : Prop := (numSlots pa ≤ Z.max 2 (4 * Z.of_nat (size (to_map pa))))%Z.

(** A sequence of [m[k] = v]. *)
Fixpoint Map_store_all (kvs : list (K * V)) : M (PairArray K V) unit :=
  match kvs with
  | [] => mret tt
  | (k, v) :: kvs' => Map_store hash_impl dV plenty k v ;; Map_store_all kvs'
  end.

Lemma movable_omap_length l :
  Forall movable l → length (omap entry l) = length (filter (λ s, is_unused s = false) l).
Proof.
  induction 1 as [|s l Hs _ IH]; [done|]. rewrite filter_cons. simpl. unfold movable in Hs.
  destruct (is_unused s) eqn:Hu.
  - rewrite is_unused_entry by done. by rewrite decide_False by done.
  - rewrite decide_True by done. destruct (Hs eq_refl) as (k & v & Hkv & _).
    unfold entry at 1. rewrite Hu, Hkv. simpl. by f_equal.
Qed.

(** [size] counts the keys of a map that was never erased from. *)
Lemma size_to_map pa : wf pa → size (to_map pa) = used_count pa.
Proof.
  intros Hwf. unfold to_map, slots_map.
  rewrite map_size_list_to_map by by apply slots_NoDup, (wf_uniq _ _ Hwf).
  apply movable_omap_length. by apply wf_movable.
Qed.

Lemma fill_max_half n : (2 ≤ n)%Z → (n ≤ 2 * fill_max n)%Z.
Proof.
  intros Hn. unfold fill_max. pose proof (round53_error (n * FILL_MANT)) as [He1 He2].
  { unfold FILL_MANT. lia. }
  unfold FILL_MANT in *. set (x := round53 _) in *.
  pose proof (Z.div_mod x (2 ^ 53) ltac:(lia)). pose proof (Z.mod_pos_bound x (2 ^ 53) ltac:(lia)). lia.
Qed.

Lemma Map_store_tight pa k v :
  wf pa → counted pa → tight pa → (Z.of_nat (size (to_map pa)) < max_entries)%Z →
  ∃ pa', Map_store hash_impl dV plenty k v pa = (Ret tt, pa') ∧ wf pa' ∧ counted pa' ∧ tight pa' ∧
    to_map pa' = <[k:=v]> (to_map pa).
Proof.
  intros Hwf Hc Ht Hs. unfold tight, counted in *.
  destruct (Map_store_cases plenty pa k v Hwf) as (pa' & Heq & Hwf' & Hm & Hc' & Hn); [slots_lia|done|].
  exists pa'. split_and!; [done|done|by apply Hc'| |done].
  assert (size (to_map pa) ≤ size (to_map pa')) as Hsz.
  { rewrite Hm. destruct (to_map pa !! k) eqn:E.
    - rewrite map_size_insert_Some by eauto. done.
    - rewrite map_size_insert_None by done. lia. }
  destruct Hn as [Hn|[Hn Hfull]]; [lia|].
  pose proof (fill_max_half (numSlots pa) (proj1 (wf_size _ _ Hwf))).
  rewrite (wf_max _ _ Hwf), Hc, <- size_to_map in Hfull by done. lia.
Qed.

Lemma Map_store_all_spec kvs pa :
  wf pa → counted pa → tight pa → (Z.of_nat (size (to_map pa) + length kvs) ≤ max_entries)%Z →
  ∃ pa', Map_store_all kvs pa = (Ret tt, pa') ∧ wf pa' ∧ counted pa' ∧ tight pa' ∧
    to_map pa' = foldl (λ m kv, <[kv.1:=kv.2]> m) (to_map pa) kvs.
Proof.
  revert pa. induction kvs as [|[k v] kvs IH]; intros pa Hwf Hc Ht Hlen; simpl.
  { by exists pa. }
  simpl in Hlen. destruct (Map_store_tight pa k v Hwf Hc Ht ltac:(lia)) as (p & Hp & Hwf' & Hc' & Ht' & Hm).
  rewrite M_bind_unfold, Hp. rewrite <- Hm. apply IH; [done..|].
  rewrite Hm. destruct (to_map pa !! k) eqn:E.
  - rewrite map_size_insert_Some by eauto. lia.
  - rewrite map_size_insert_None by done. lia.
Qed.

Lemma Map_default_spec :
  ∃ pa, Map_default = Ret pa ∧ wf pa ∧ counted pa ∧ tight pa ∧ to_map pa = ∅.
Proof.
  pose proof record_size_ok. destruct (PairArray_new_wf 2 ltac:(lia) ltac:(word_lia)) as (pa & Hpa & Hwf & Hm & Hc & Hu & Hn).
  exists pa. unfold counted, tight. split_and!; [done|done|lia|lia|done].
Qed.

(** ** Erasing *)

Lemma setUnused_hit pa k v :
  wf pa → to_map pa !! k = Some v →
  ∃ i, setUnused hash_impl k pa = (Ret tt, set_data pa (<[i := Slot UNUSED None]> (data pa))) ∧
       data pa !! i = Some (Slot (Hasher_hash k) (Some (k, v))).
Proof.
  intros Hwf Hk. destruct (find_slot_hit _ _ _ Hwf Hk) as (i & Hf & Hi).
  exists i. unfold setUnused. by rewrite Hf.
Qed.

(** ** Iteration *)

Lemma drop_lookup_cons {A} (l : list A) i x :
  l !! i = Some x → drop i l = x :: drop (S i) l.
Proof. apply drop_S. Qed.

(** [skip_unused] stops at the first used slot, or at the end. *)
Lemma skip_unused_spec pa fuel i :
  i ≤ length (data pa) → length (data pa) - i ≤ fuel →
  let i' := skip_unused pa fuel i in
  i ≤ i' ≤ length (data pa) ∧ omap entry (drop i' (data pa)) = omap entry (drop i (data pa)) ∧
  (i' < length (data pa) → ∃ s, data pa !! i' = Some s ∧ is_unused s = false).
Proof.
  revert i. induction fuel as [|fuel IH]; intros i Hi Hf; simpl.
  { split_and!; [lia|lia|done|lia]. }
  destruct (data pa !! i) as [s|] eqn:Hs.
  - pose proof (lookup_lt_Some _ _ _ Hs). destruct (is_unused s) eqn:Hu.
    + destruct (IH (S i)) as (? & He & ?); [lia|lia|]. split_and!; [lia|lia| |done].
      rewrite He, (drop_lookup_cons _ _ _ Hs). simpl. by rewrite is_unused_entry.
    + split_and!; [lia|lia|done|eauto].
  - apply lookup_ge_None in Hs. split_and!; [lia|lia|done|lia].
Qed.

Lemma settle_spec pa i :
  wf pa → i ≤ length (data pa) →
  let it := settle pa i in
  it_slot it ≤ length (data pa) ∧
  omap entry (drop (it_slot it) (data pa)) = omap entry (drop i (data pa)) ∧
  (it_done it = true → omap entry (drop i (data pa)) = []) ∧
  (it_done it = false → ∃ s, data pa !! it_slot it = Some s ∧ is_unused s = false) ∧
  i ≤ it_slot it.
Proof.
  intros Hwf Hi. pose proof (wf_len _ _ Hwf) as Hlen. unfold settle. simpl.
  destruct (skip_unused_spec pa (Z.to_nat (numSlots pa)) i Hi ltac:(lia)) as (? & He & Hs).
  split_and!; [lia|done| | |lia].
  - intros Hd%bool_decide_eq_true. rewrite <- He. rewrite drop_ge by lia. done.
  - intros Hd%bool_decide_eq_false. apply Hs. lia.
Qed.

Lemma iterate_from pa fuel it :
  wf pa → it_slot it ≤ length (data pa) → length (data pa) - it_slot it < fuel →
  (it_done it = true → omap entry (drop (it_slot it) (data pa)) = []) →
  (it_done it = false → ∃ s, data pa !! it_slot it = Some s ∧ is_unused s = false) →
  iterate pa fuel it = Some (omap entry (drop (it_slot it) (data pa))).
Proof.
  intros Hwf. revert it. induction fuel as [|fuel IH]; intros it Hi Hf Hd Hnd; [lia|].
  simpl. unfold iter_ne. simpl. rewrite orb_false_r.
  destruct (it_done it) eqn:Hdone; simpl; [by rewrite Hd|].
  destruct (Hnd eq_refl) as (s & Hs & Hu).
  destruct (wf_entry _ _ Hwf _ _ Hs Hu) as (k & v & Hkv & _).
  unfold iter_deref. rewrite Hs. simpl. rewrite Hkv. simpl.
  pose proof (lookup_lt_Some _ _ _ Hs) as Hlt.
  destruct (settle_spec pa (S (it_slot it)) Hwf ltac:(lia)) as (Hle & He & Hd' & Hnd' & Hge).
  unfold settle in He, Hle, Hd', Hnd', Hge. simpl in He, Hle, Hd', Hnd', Hge.
  rewrite IH; unfold iter_next; rewrite Hdone; simpl.
  - rewrite He, (drop_lookup_cons _ _ _ Hs). simpl. unfold entry at 2. by rewrite Hu, Hkv.
  - done.
  - lia.
  - intros Ht. by rewrite He, Hd'.
  - done.
Qed.

(** ** Deep copy *)

(** A slot of a partial copy is free or equal to the source's slot. *)
Lemma copy_slots_lookup cK cV i (l : list (slot K V)) j s :
  (copy_slots cK cV i l).2 !! j = Some s → s = Slot UNUSED None ∨ l !! j = Some s.
Proof.
  revert i j. induction l as [|t l IH]; intros i j; simpl; [done|].
  specialize (IH (S i)). destruct (copy_slots cK cV (S i) l) as [r d]. simpl in IH.
  destruct (is_unused t); [|destruct (cK i && cV i)]; simpl.
  - destruct j as [|j]; simpl; [naive_solver|apply IH].
  - destruct j as [|j]; simpl; [naive_solver|apply IH].
  - destruct j as [|j]; simpl; [naive_solver|].
    intros Hj. apply lookup_replicate in Hj as [-> _]. by left.
Qed.
End facts.

(** ** Integer keys do not collide *)

Lemma shiftr_lxor_lt x : (0 ≤ x < 2 ^ 32)%Z → (0 ≤ Z.lxor (Z.shiftr x 16) x < 2 ^ 32)%Z.
Proof.
  intros Hx. assert (0 ≤ Z.shiftr x 16)%Z by (apply Z.shiftr_nonneg; lia).
  split; [apply Z.lxor_nonneg; lia|].
  destruct (decide (Z.lxor (Z.shiftr x 16) x = 0)%Z) as [->|Hne]; [lia|].
  apply Z.log2_lt_pow2; [pose proof (proj2 (Z.lxor_nonneg (Z.shiftr x 16) x)); lia|].
  eapply Z.le_lt_trans; [apply Z.log2_lxor; lia|]. apply Z.max_lub_lt.
  - eapply Z.le_lt_trans with (Z.log2 x).
    + apply Z.log2_le_mono. rewrite Z.shiftr_div_pow2 by lia. apply Z.div_le_upper_bound; lia.
    + destruct (decide (x = 0)%Z) as [->|]; [done|]. apply Z.log2_lt_pow2; lia.
  - destruct (decide (x = 0)%Z) as [->|]; [done|]. apply Z.log2_lt_pow2; lia.
Qed.

(** [x ^= x >> 16] undoes itself on 32 bits. *)
Lemma xorshift_involutive x :
  (0 ≤ x < 2 ^ 32)%Z →
  Z.lxor (Z.shiftr (Z.lxor (Z.shiftr x 16) x) 16) (Z.lxor (Z.shiftr x 16) x) = x.
Proof.
  intros Hx. rewrite Z.shiftr_lxor, Z.shiftr_shiftr by lia.
  assert (Z.shiftr x (16 + 16) = 0)%Z as ->.
  { rewrite Z.shiftr_div_pow2 by lia. apply Z.div_small. lia. }
  by rewrite Z.lxor_0_l, <- Z.lxor_assoc, Z.lxor_nilpotent, Z.lxor_0_l.
Qed.

(** Multiplication by the odd constant is invertible modulo [2^32]. *)
Lemma mul_invertible x :
  (0 ≤ x < 2 ^ 32)%Z → u32 (u32 (x * 73244475) * 295559667) = x.
Proof.
  intros Hx. unfold u32, u32_modulus. rewrite Z.mul_mod_idemp_l by lia.
  rewrite <- Z.mul_assoc. rewrite <- Z.mul_mod_idemp_r by lia.
  change ((73244475 * 295559667) mod 4294967296)%Z with 1%Z.
  rewrite Z.mul_1_r. by apply Z.mod_small.
Qed.

(** One xor-multiply round of [newHash]. *)
Definition newHash_round (x : Z) : Z := u32 (Z.lxor (Z.shiftr x 16) x * 73244475).

Lemma newHash_round_inj x y :
  (0 ≤ x < 2 ^ 32)%Z → (0 ≤ y < 2 ^ 32)%Z → newHash_round x = newHash_round y → x = y.
Proof.
  unfold newHash_round. intros Hx Hy He.
  rewrite <- (xorshift_involutive x), <- (xorshift_involutive y) by done.
  rewrite <- (mul_invertible (Z.lxor (Z.shiftr x 16) x)) by by apply shiftr_lxor_lt.
  by rewrite He, mul_invertible by by apply shiftr_lxor_lt.
Qed.

Lemma newHash_inj x y :
  (0 ≤ x < 2 ^ 32)%Z → (0 ≤ y < 2 ^ 32)%Z → newHash x = newHash y → x = y.
Proof.
  intros Hx Hy He.
  assert (Hr : ∀ z, (0 ≤ newHash_round z < 2 ^ 32)%Z) by (intros; apply u32_range).
  apply newHash_round_inj, newHash_round_inj; [done..|].
  rewrite <- (xorshift_involutive (newHash_round (newHash_round x))) by apply Hr.
  rewrite <- (xorshift_involutive (newHash_round (newHash_round y))) by apply Hr.
  change (newHash x = newHash y) in He. unfold newHash in He. unfold newHash_round. by rewrite He.
Qed.

(** Two slot arrays that agree on every used slot represent the same map. *)
Definition same_used {K V} (d d' : list (slot K V)) : Prop :=
  Forall2 (λ s t, is_unused s = is_unused t ∧ (is_unused s = false → s = t)) d d'.

Lemma same_used_facts {K V} (d d' : list (slot K V)) :
  same_used d d' →
  length d' = length d ∧ omap entry d' = omap entry d ∧
  (∀ j, is_unused <$> d' !! j = is_unused <$> d !! j) ∧
  length (filter (λ s, is_unused s = false) d') = length (filter (λ s, is_unused s = false) d) ∧
  (∀ j s, d' !! j = Some s → is_unused s = false → d !! j = Some s).
Proof.
  induction 1 as [|s t d d' [Hu He] _ (IHl & IHo & IHu & IHf & IHe)]; [done|].
  split_and!; simpl.
  - lia.
  - destruct (is_unused s) eqn:Hs.
    + rewrite !is_unused_entry by congruence. exact IHo.
    + rewrite <- (He eq_refl). destruct (entry s); [by f_equal|exact IHo].
  - intros [|j]; simpl; [congruence|done].
  - rewrite !filter_cons, Hu. case_decide; simpl; lia.
  - intros [|j]; simpl; [|apply IHe]. intros x [= ->] Hx. f_equal. apply He. congruence.
Qed.

(** The flag is the same in a table with the same used slots. *)
Lemma same_used_flag {K V} (pa : PairArray K V) d :
  data pa ≠ [] → same_used (data pa) d →
  isDestructorDisabled (MkPairArray (usedSlots pa) (numSlots pa) (maxSlots pa) d false) = isDestructorDisabled pa.
Proof.
  intros Hne Hsame. unfold isDestructorDisabled. destruct Hsame as [|s t l l' [Hu He] _]; [done|]. simpl.
  replace (slot_hash t) with (slot_hash s); [done|]. destruct (is_unused s) eqn:Hs; [|by rewrite He].
  unfold is_unused in *. apply Z.eqb_eq in Hs. symmetry in Hu. apply Z.eqb_eq in Hu. congruence.
Qed.

Lemma low_byte_set x : Z.land (Z.lor (Z.land x (-256)) 1) 255 = 1%Z.
Proof.
  rewrite Z.land_lor_distr_l, <-Z.land_assoc. change (Z.land (-256) 255)%Z with 0%Z. by rewrite Z.land_0_r.
Qed.

Lemma wf_same_used {K V} `{Countable K} (hash_impl : K → Z) (pa pa' : PairArray K V) :
  wf hash_impl pa → same_used (data pa) (data pa') →
  numSlots pa' = numSlots pa → maxSlots pa' = maxSlots pa →
  (usedSlots pa ≤ usedSlots pa' ≤ maxSlots pa)%Z →
  wf hash_impl pa' ∧ to_map pa' = to_map pa.
Proof.
  intros Hwf Hsame Hn Hm Hused.
  destruct (same_used_facts _ _ Hsame) as (Hlen & Homap & Hext & Hfil & Hused').
  split; [|by unfold to_map, slots_map; rewrite Homap].
  split; rewrite ?Hn, ?Hm, ?Hlen; try by apply Hwf.
  - unfold used_count. rewrite Hfil. pose proof (wf_used _ _ Hwf). unfold used_count in *. lia.
  - intros j t Ht Htu. destruct (wf_entry _ _ Hwf j t (Hused' _ _ Ht Htu) Htu) as (k & v & ? & ? & Hr).
    exists k, v. split_and!; [done..|]. unfold home. rewrite Hn.
    by eapply reachable_ext.
  - assert (Hent : ∀ j t kv, data pa' !! j = Some t → entry t = Some kv → data pa !! j = Some t).
    { intros j t kv Ht He. apply Hused'; [done|]. unfold entry in He. by destruct (is_unused t). }
    intros i j x y k v w Hx Hy Hex Hey. eapply (wf_uniq _ _ Hwf); eauto.
Qed.

Lemma same_used_insert {K V} (d : list (slot K V)) i s t :
  d !! i = Some s → is_unused s = true → is_unused t = true → same_used d (<[i:=t]> d).
Proof.
  intros Hs Hu Ht. apply Forall2_same_length_lookup. split; [by rewrite length_insert|].
  intros j x y Hx Hy. apply lookup_insert_cases in Hy as [(-> & <- & _)|[_ Hy]]; simplify_eq; [|done].
  by rewrite Hu, Ht.
Qed.

Lemma wf_unfill {K V} `{Countable K} (hash_impl : K → Z) (pa : PairArray K V) i s n :
  wf hash_impl pa → data pa !! i = Some s → is_unused s = true →
  (usedSlots pa ≤ n ≤ maxSlots pa)%Z →
  let pa' := set_usedSlots (set_data pa (<[i := Slot UNUSED None]> (data pa))) n in
  wf hash_impl pa' ∧ to_map pa' = to_map pa.
Proof. intros Hwf Hs Hu Hn. apply wf_same_used; try done. by eapply same_used_insert. Qed.

Lemma copy_slots_same {K V} cK cV i (l : list (slot K V)) :
  match copy_slots cK cV i l with
  | (Ret _, d) => same_used l d
  | (NotEnoughSpace, d) => length d = length l ∧ ∃ j, cK j && cV j = false
  | _ => False
  end.
Proof.
  revert i. induction l as [|s l IH]; intros i; simpl; [by constructor|].
  specialize (IH (S i)). destruct (copy_slots cK cV (S i) l) as [[[]| | |] d]; try done.
  - destruct (is_unused s) eqn:Hu; [constructor; [by rewrite Hu|done]|].
    destruct (cK i && cV i) eqn:Hc; [by constructor|]. simpl. rewrite length_replicate. eauto.
  - destruct IH as [IHl IHe]. destruct (is_unused s); [simpl; split; [lia|done]|].
    destruct (cK i && cV i) eqn:Hc; simpl; rewrite ?length_replicate; eauto.
Qed.

(** ** Properties *)

(** [C26] A map built by a sequence of at most [max_entries] assignments [m[k] = v] from
    the empty map, while memory lasts, is the finite map the sequence describes:
    the table never runs off its end, never throws, every written key is counted
    once with its last value, and [size] is the number of distinct keys.  The bound
    is the number of entries up to which the bytes of a doubled table are counted
    in 32 bits without overflow (just below 2^25 with slots of 16 bytes, never more than 2^28);
    past it the slots are written behind the table ([doubleArray_overruns]). *)
Theorem Map_store_all_refines {RS : RecordSize} {K V} `{Countable K} (hash_impl : K → Z) (dV : V) kvs :
  (Z.of_nat (length kvs) ≤ max_entries)%Z →
  ∃ m m', Map_default = Ret m ∧ Map_store_all hash_impl dV kvs m = (Ret tt, m') ∧
    to_map m' = foldl (λ mm kv, <[kv.1:=kv.2]> mm) ∅ kvs ∧
    Map_size m' = Z.of_nat (size (to_map m')) ∧
    ∀ k, count hash_impl m' k = Ret (if decide (is_Some (to_map m' !! k)) then 1 else 0)%Z.
Proof.
  intros Hlen. destruct (Map_default_spec (K:=K) (V:=V) hash_impl) as (m & Hm & Hwf & Hc & Ht & He).
  destruct (Map_store_all_spec hash_impl dV kvs m Hwf Hc Ht) as (m' & Hs & Hwf' & Hc' & _ & Hm').
  { rewrite He, map_size_empty. simpl. lia. }
  exists m, m'. rewrite <- He, <- Hm'. split_and!; [done..| |].
  - unfold Map_size, numUsedSlots. rewrite Hc'. f_equal. symmetry. by eapply size_to_map.
  - intros k. by apply count_lookup.
Qed.

Local Existing Instance small_slots.

(** A table of three integer entries, for the witnesses below. *)
Definition demo_ops : list (Z * Z) := [(1, 10); (2, 20); (-7, 30); (2, 21)]%Z.

Definition demo : PairArray Z Z :=
  match Map_default with
  | Ret m => (Map_store_all specialHash_int 0%Z demo_ops m).2
  | _ => PairArray_empty
  end.

Lemma demo_wf : wf specialHash_int demo ∧ counted demo.
Proof.
  destruct (Map_default_spec (K:=Z) (V:=Z) specialHash_int) as (m & Hm & Hwf & Hc & Ht & He).
  destruct (Map_store_all_spec specialHash_int 0%Z demo_ops m Hwf Hc Ht) as (m' & Hs & Hwf' & Hc' & _).
  { rewrite He, map_size_empty. done. }
  unfold demo. by rewrite Hm, Hs.
Qed.

Lemma Map_store_all_refines_witness :
  (Z.of_nat (length demo_ops) ≤ max_entries)%Z ∧
  ∃ m m' : PairArray Z Z, Map_default = Ret m ∧
    Map_store_all specialHash_int 0%Z demo_ops m = (Ret tt, m') ∧
    to_map m' = foldl (λ mm kv, <[kv.1:=kv.2]> mm) ∅ demo_ops ∧
    Map_size m' = Z.of_nat (size (to_map m')) ∧
    ∀ k, count specialHash_int m' k = Ret (if decide (is_Some (to_map m' !! k)) then 1 else 0)%Z.
Proof.
  split; [done|]. apply (Map_store_all_refines specialHash_int 0%Z demo_ops). done.
Defined.

(** [Map::operator[]] on every branch, for any pattern of allocation
    failures: it returns a reference to the value bound to the key after
    binding a missing key to the default, the invariant holds again, and the
    table at most doubles, when it had reached its fill limit; or it throws
    [NotEnoughSpace], and unless a move of the doubling loop itself threw, the
    contents are unchanged.  It never exits and is never undefined. *)
Theorem Map_at_spec {RS : RecordSize} {K V} `{Countable K} (hash_impl : K → Z) (dV : V) sp (pa : PairArray K V) k :
  wf hash_impl pa → (numSlots pa ≤ max_slots)%Z →
  match Map_at hash_impl dV sp k pa with
  | (Ret i, pa') => wf hash_impl pa' ∧ to_map pa' = spec_at dV (to_map pa) k ∧
      value_at pa' i = to_map pa' !! k ∧ is_Some (to_map pa' !! k) ∧
      (numSlots pa' = numSlots pa ∨
       numSlots pa' = (2 * numSlots pa)%Z ∧ (maxSlots pa ≤ usedSlots pa)%Z)
  | (NotEnoughSpace, pa') =>
      (∀ j, fits_move sp j = true) → wf hash_impl pa' ∧ to_map pa' = to_map pa
  | (Exit _, _) => False
  | (Undefined, _) => False
  end.
Proof.
  intros Hwf Hn. pose proof (Map_at_cases hash_impl dV sp pa k Hwf Hn) as Hc.
  destruct (Map_at _ _ _ _ _) as [[i| | |] pa']; [|by destruct Hc|done|done].
  destruct Hc as (? & ? & (v & Hv & Hi) & _ & ?). split_and!; [done|done| |eauto|done].
  unfold value_at. by rewrite Hi, Hv.
Qed.

Lemma Map_at_spec_witness :
  wf specialHash_int demo ∧ (numSlots demo ≤ max_slots)%Z ∧
  match Map_at specialHash_int 0%Z plenty 5%Z demo with
  | (Ret i, pa') => wf specialHash_int pa' ∧ to_map pa' = spec_at 0%Z (to_map demo) 5%Z ∧
      value_at pa' i = to_map pa' !! 5%Z ∧ is_Some (to_map pa' !! 5%Z) ∧
      (numSlots pa' = numSlots demo ∨
       numSlots pa' = (2 * numSlots demo)%Z ∧ (maxSlots demo ≤ usedSlots demo)%Z)
  | (NotEnoughSpace, pa') =>
      (∀ j, fits_move plenty j = true) → wf specialHash_int pa' ∧ to_map pa' = to_map demo
  | (Exit _, _) => False
  | (Undefined, _) => False
  end.
Proof.
  assert (numSlots demo ≤ max_slots)%Z as Hn by (vm_compute; discriminate).
  split; [apply demo_wf|]. split; [exact Hn|].
  apply (Map_at_spec specialHash_int 0%Z plenty demo 5%Z); [apply demo_wf|exact Hn].
Defined.

(** Iterating from [begin()] to [end()] visits every entry of the map
    exactly once and stops. *)
Theorem iterate_complete {K V} `{Countable K} (hash_impl : K → Z) (pa : PairArray K V) :
  wf hash_impl pa →
  ∃ l, iterate pa (S (Z.to_nat (numSlots pa))) (iter_begin pa) = Some l ∧
       l ≡ₚ map_to_list (to_map pa).
Proof.
  intros Hwf. pose proof (wf_len _ _ Hwf).
  destruct (settle_spec hash_impl pa 0 Hwf ltac:(lia)) as (Hle & He & Hd & Hnd & _).
  exists (omap entry (data pa)). split.
  - unfold iter_begin. rewrite (iterate_from hash_impl); try done; [|lia|].
    + rewrite He. by rewrite drop_0.
    + intros Hdone. by rewrite He, Hd.
  - unfold to_map, slots_map. symmetry. apply map_to_list_to_map, slots_NoDup. by eapply wf_uniq.
Qed.

Lemma iterate_complete_witness :
  wf specialHash_int demo ∧
  ∃ l, iterate demo (S (Z.to_nat (numSlots demo))) (iter_begin demo) = Some l ∧
       l ≡ₚ map_to_list (to_map demo).
Proof. split; [apply demo_wf|]. apply (iterate_complete specialHash_int), demo_wf. Defined.

(** Erasing a key with [setUnused] right after inserting it, as the sinks
    do when the value does not fit, restores the contents and the invariant;
    but the slot stays counted in [usedSlots], so [size] is one too high. *)
Theorem setUnused_undoes_insert {RS : RecordSize} {K V} `{Countable K} (hash_impl : K → Z) (dV : V) (pa : PairArray K V) k :
  wf hash_impl pa → to_map pa !! k = None → (usedSlots pa < maxSlots pa)%Z →
  ∃ i pa1 pa2, operator_at hash_impl dV true k pa = (Ret i, pa1) ∧
    setUnused hash_impl k pa1 = (Ret tt, pa2) ∧
    wf hash_impl pa2 ∧ to_map pa2 = to_map pa ∧ Map_size pa2 = (Map_size pa + 1)%Z.
Proof.
  intros Hwf Hk Hlt. destruct (find_slot_miss hash_impl pa k Hwf Hk) as (i & s & Hf & Hs & Hu & Hr).
  destruct (operator_at_miss hash_impl dV pa k Hwf Hk Hlt)
    as (i1 & pa1 & Hop & Hwf1 & Hm1 & _ & Hu1 & Hn1 & Hi1).
  destruct (setUnused_hit hash_impl pa1 k dV Hwf1) as (i2 & Hset & Hi2).
  { rewrite Hm1. apply lookup_insert_eq. }
  exists i1, pa1. eexists. split; [done|]. split; [done|].
  assert (i2 = i1) as ->.
  { eapply (wf_uniq _ _ Hwf1); [exact Hi2|exact Hi1| |];
      unfold entry, is_unused; simpl; by rewrite (proj2 (Z.eqb_neq _ _) (Hasher_hash_used hash_impl k)). }
  unfold operator_at in Hop. rewrite Hf in Hop. injection Hop as <- <-.
  unfold set_usedSlots, set_data in *. simpl in *. rewrite list_insert_insert_eq.
  destruct (wf_unfill hash_impl pa i s (u32 (usedSlots pa + 1)) Hwf Hs Hu) as [Hw Hm]; [lia|].
  split_and!; [exact Hw|exact Hm|done].
Qed.

Lemma setUnused_undoes_insert_witness :
  wf specialHash_int demo ∧ to_map demo !! 5%Z = None ∧ (usedSlots demo < maxSlots demo)%Z ∧
  ∃ i pa1 pa2, operator_at specialHash_int 0%Z true 5%Z demo = (Ret i, pa1) ∧
    setUnused specialHash_int 5%Z pa1 = (Ret tt, pa2) ∧
    wf specialHash_int pa2 ∧ to_map pa2 = to_map demo ∧ Map_size pa2 = (Map_size demo + 1)%Z.
Proof.
  assert (to_map demo !! 5%Z = None) as Hk by (vm_compute; reflexivity).
  assert (usedSlots demo < maxSlots demo)%Z as Hlt by (vm_compute; reflexivity).
  split; [apply demo_wf|]. split; [exact Hk|]. split; [exact Hlt|].
  apply (setUnused_undoes_insert specialHash_int 0%Z demo 5%Z); [apply demo_wf|exact Hk|exact Hlt].
Defined.

(** [setUpAndCopyFrom] either copies the whole table, keeping its map,
    its invariant and its header, or throws because the copy of some key or
    value did not fit; a table whose copy threw holds behind its first slot only
    copies of source entries and is marked so that its destructor destroys
    nothing. *)
Theorem setUpAndCopyFrom_spec {K V} `{Countable K} (hash_impl : K → Z)
    keyObj valueObj copyKey copyValue (fromMe : PairArray K V) :
  wf hash_impl fromMe →
  match setUpAndCopyFrom keyObj valueObj copyKey copyValue fromMe with
  | (Ret _, toMe) => wf hash_impl toMe ∧ to_map toMe = to_map fromMe ∧
      numSlots toMe = numSlots fromMe ∧ isDestructorDisabled toMe = isDestructorDisabled fromMe
  | (NotEnoughSpace, toMe) => destroyed keyObj valueObj toMe = Ret [] ∧
      (∀ i s, data toMe !! S i = Some s → s = Slot UNUSED None ∨ data fromMe !! S i = Some s) ∧
      ∃ i, keyObj = true ∧ copyKey i = false ∨ valueObj = true ∧ copyValue i = false
  | (Exit _, _) => False
  | (Undefined, _) => False
  end.
Proof.
  intros Hwf. unfold setUpAndCopyFrom. pose proof (wf_used _ _ Hwf). pose proof (wf_len _ _ Hwf) as Hlen. pose proof (wf_size _ _ Hwf).
  assert (data fromMe ≠ []) as Hne by (intros E; rewrite E in Hlen; simpl in Hlen; lia).
  destruct (negb keyObj && negb valueObj).
  { destruct (wf_same_used hash_impl fromMe
      (MkPairArray (usedSlots fromMe) (numSlots fromMe) (maxSlots fromMe) (data fromMe) false))
      as [? ?]; [done| |done|done|simpl; lia|].
    2: { split_and!; [done..|]. unfold isDestructorDisabled. simpl. by destruct (data fromMe). }
    simpl. apply Forall2_same_length_lookup. split; [done|]. intros; by simplify_eq. }
  set (cK := λ i, negb keyObj || copyKey i). set (cV := λ i, negb valueObj || copyValue i).
  pose proof (copy_slots_same cK cV 0 (data fromMe)) as Hs.
  pose proof (copy_slots_lookup cK cV 0 (data fromMe)) as Hl.
  destruct (copy_slots cK cV 0 (data fromMe)) as [[[]| | |] d]; try done.
  - destruct (wf_same_used hash_impl fromMe
      (MkPairArray (usedSlots fromMe) (numSlots fromMe) (maxSlots fromMe) d false)) as [? ?];
      [done|done|done|done|simpl; lia|]. split_and!; [done..|]. by apply same_used_flag.
  - destruct Hs as [Hlen' [j Hj]]. destruct d as [|s d]; [simpl in *; lia|]. split_and!; [|intros i; exact (Hl (S i))|].
    { unfold destroyed, isDestructorDisabled, setDisableDestructor. simpl. rewrite low_byte_set. done. }
    exists j.
    unfold cK, cV in Hj. destruct keyObj, valueObj, (copyKey j), (copyValue j); naive_solver.
Qed.

Lemma setUpAndCopyFrom_spec_witness :
  wf specialHash_int demo ∧
  match setUpAndCopyFrom false true (λ _, true) (λ _, true) demo with
  | (Ret _, toMe) => wf specialHash_int toMe ∧ to_map toMe = to_map demo ∧
      numSlots toMe = numSlots demo ∧ isDestructorDisabled toMe = isDestructorDisabled demo
  | (NotEnoughSpace, toMe) => destroyed false true toMe = Ret [] ∧
      (∀ i s, data toMe !! S i = Some s → s = Slot UNUSED None ∨ data demo !! S i = Some s) ∧
      ∃ i : nat, false = true ∧ true = false ∨ true = true ∧ true = false
  | (Exit _, _) => False
  | (Undefined, _) => False
  end.
Proof.
  split; [apply demo_wf|].
  pose proof (setUpAndCopyFrom_spec specialHash_int false true (λ _, true) (λ _, true) demo
    (proj1 demo_wf)) as Hspec.
  cbv beta in Hspec. exact Hspec.
Defined.

(** Distinct [int] keys have distinct 32-bit hashes, so in a map keyed by
    integers two keys can share a hash only through the remapped [UNUSED]
    code. *)
Theorem specialHash_int_injective (x y : Z) :
  (-2147483648 ≤ x < 2147483648)%Z → (-2147483648 ≤ y < 2147483648)%Z →
  specialHash_int x = specialHash_int y → x = y.
Proof.
  unfold specialHash_int. intros Hx Hy He.
  apply (newHash_inj (u32 x) (u32 y) (u32_range x) (u32_range y)) in He.
  unfold u32, u32_modulus in He.
  pose proof (Z.div_mod x 4294967296 ltac:(lia)). pose proof (Z.div_mod y 4294967296 ltac:(lia)).
  pose proof (Z.mod_pos_bound x 4294967296 ltac:(lia)).
  pose proof (Z.mod_pos_bound y 4294967296 ltac:(lia)). lia.
Qed.

Lemma specialHash_int_injective_witness :
  (-2147483648 ≤ -7 < 2147483648)%Z ∧ specialHash_int (-7) = specialHash_int (-7) ∧ (-7 = -7)%Z.
Proof.
  split; [lia|]. split; [reflexivity|].
  apply (specialHash_int_injective (-7) (-7)); [lia|lia|reflexivity].
Defined.

(** The five-entry table of the next two theorems: keys 1 to 5. *)
Definition five : PairArray Z Z :=
  match Map_default with
  | Ret m => (Map_store_all specialHash_int 0%Z [(1, 10); (2, 20); (3, 30); (4, 40); (5, 50)]%Z m).2
  | _ => PairArray_empty
  end.

(** [setUnused] frees a slot without repairing the probe paths that cross
    it: after erasing key 1 from the map with the integer keys 1 to 5, key 5
    is no longer found although it was not erased and is still stored. *)
Theorem setUnused_loses_other_key :
  count specialHash_int five 5%Z = Ret 1%Z ∧
  let pa := (setUnused specialHash_int 1%Z five).2 in
  count specialHash_int pa 5%Z = Ret 0%Z ∧
  to_map pa !! 5%Z = Some 50%Z.
Proof. vm_compute. done. Qed.

(** [Map::operator[]] is not exception safe while it doubles: if a move
    throws [NotEnoughSpace] half way, the entries already moved are gone.
    Here the key 4, present before, is lost by a failed insertion of key 6. *)
Theorem Map_at_move_throw_loses_entries :
  count specialHash_int five 4%Z = Ret 1%Z ∧
  let sp := Space true (λ i, bool_decide (i < 3)) true in
  match Map_at specialHash_int 0%Z sp 6%Z five with
  | (NotEnoughSpace, pa') => count specialHash_int pa' 4%Z = Ret 0%Z ∧ to_map pa' !! 4%Z = None
  | _ => False
  end.
Proof. vm_compute. done. Qed.

(** The destructor of a table reads the hash of the first slot as its flag: when
    the slot is free the byte is not a [bool]. *)
Lemma destructor_flag_is_hash :
  (m ← Map_default (K:=Z) (V:=Z); isDestructorDisabled m) = Undefined ∧
  ∃ pa : PairArray Z Z, data pa = [Slot 2 (Some (1, 1)%Z)] ∧
    isDestructorDisabled (setDisableDestructor true pa) = Ret true ∧
    slot_hash <$> data (setDisableDestructor true pa) = [1%Z].
Proof.
  split; [vm_compute; reflexivity|]. exists (MkPairArray 1 1 0 [Slot 2 (Some (1, 1)%Z)] false).
  split; [done|]. split; vm_compute; reflexivity.
Qed.

(** The bytes of the doubled table are counted in 32 bits: when they are 4 GiB or
    more, fewer are asked for, and the slots are written past the end of the
    object.  With slots of 16 bytes this happens at 2^27 of them. *)
Lemma doubleArray_overruns {RS : RecordSize} {K V : Type} `{EqDecision K} (hash_impl : K → Z) (dV : V) (sp : space)
    (pa : PairArray K V) :
  fits_array sp = true → (u32_modulus ≤ record_size * u32 (numSlots pa * 2))%Z → doubleArray hash_impl dV sp pa = (Undefined, pa).
Proof.
  intros Hfits Hbytes. unfold doubleArray. rewrite Hfits, (proj2 (Z.ltb_lt _ _)); [done|].
  pose proof (Z.mod_pos_bound (record_size * u32 (numSlots pa * 2)) u32_modulus ltac:(done)). unfold u32 at 1. lia.
Qed.

Lemma doubleArray_overruns_witness : ∃ pa : PairArray Z Z, doubleArray specialHash_int 0%Z plenty pa = (Undefined, pa) ∧ numSlots pa = 134217728%Z.
Proof.
  exists (MkPairArray 0 134217728 0 [] false). split; [|reflexivity].
  apply doubleArray_overruns; [reflexivity|vm_compute; discriminate].
Defined.
