(* ===== verification/JoinPairArray.v ===== *)
(** * JoinPairArray and JoinMap: the multimap behind hash joins

    Models [builtInPDBObjects/headers/JoinPairArray.cc] and [JoinMap.cc]: an
    open-addressing table from 64-bit hash values to one value in the slot and
    an overflow list for the further values with the same hash.  The abstract
    view [to_multimap] is a finite map from hashes to the non-empty list of
    values pushed under them, oldest first. *)

From S2P Require Import Prelude HashProbe PairArray.
From stdpp Require Import sorting.

(** [#define JM_UNUSED 493295393] *)
Definition JM_UNUSED : Z := 493295393.

(** [maxSlots = numSlotsIn * JM_FILL_FACTOR]: the same constant as in
    [PairArray.cc]. *)
Definition jm_fill_max (n : Z) : Z := fill_max n.

(** [me == JM_UNUSED ? 858931273 : me] *)
Definition jm_hash (me : Z) : Z := if (me =? JM_UNUSED)%Z then 858931273%Z else me.

Record jslot {V : Type} := JSlot {
  js_hash : Z;
  js_next : Z;
  js_value : option V
}.
Arguments jslot : clear implicits.
Arguments JSlot {V}.

Record JoinPairArray {V : Type} := MkJoinPairArray {
  j_usedSlots : Z;
  j_numSlots : Z;
  j_maxSlots : Z;
  j_overflows : list (list V);
  j_data : list (jslot V)
}.
Arguments JoinPairArray : clear implicits.
Arguments MkJoinPairArray {V}.

(** Where the reference returned by [push] points: the value of a slot, or an
    element of an overflow list. *)
Inductive jref :=
| RHead (i : nat)
| ROver (n j : nat).

(** Which allocations of a [push] fit: the doubled array, the construction of
    the entry moved from slot [i], the value constructed in the slot, a new
    overflow list, and its new element. *)
Record jspace := JSpace {
  jfits_array : bool;
  jfits_move : nat → bool;
  jfits_head : bool;
  jfits_list : bool;
  jfits_elem : bool
}.

Definition jplenty : jspace := JSpace true (λ _, true) true true true.

(** [JoinMapIterator]: the slots in iteration order, and a position. *)
Record jiterator := JIterator {
  ji_order : list (nat * Z);
  ji_pos : nat;
  ji_done : bool
}.

(** [a.second < b.second], as a total relation for the sort. *)
Definition ji_le (a b : nat * Z) : Prop := (a.2 ≤ b.2)%Z.

#[export] Instance ji_le_dec : RelDecision ji_le.
Proof. intros a b. unfold ji_le. apply _. Defined.

Section JoinPairArray.
Context {RS : RecordSize} {V : Type} (dV : V).
Implicit Types (jp : JoinPairArray V) (s : jslot V).

Definition js_unused s : bool := (js_hash s =? JM_UNUSED)%Z.
Definition js_matches (h : Z) s : bool := (js_hash s =? h)%Z.

Definition jset_data jp d : JoinPairArray V :=
  MkJoinPairArray (j_usedSlots jp) (j_numSlots jp) (j_maxSlots jp) (j_overflows jp) d.
Definition jset_overflows jp o : JoinPairArray V :=
  MkJoinPairArray (j_usedSlots jp) (j_numSlots jp) (j_maxSlots jp) o (j_data jp).
Definition jset_used jp n : JoinPairArray V :=
  MkJoinPairArray n (j_numSlots jp) (j_maxSlots jp) (j_overflows jp) (j_data jp).

(** The probe loop of [count], [setUnused], [lookup] and [push]. *)
Definition jfind jp (me : Z) : outcome probe_result :=
  let h := jm_hash me in
  start ← home_slot (j_numSlots jp) h;
  mret (probe js_unused (js_matches h) (j_data jp) (Z.to_nat (j_numSlots jp)) start).

(** [overflows[n]]; reading past the vector is undefined. *)
Definition overflow_at jp (n : Z) : outcome (list V) :=
  match j_overflows jp !! Z.to_nat n with Some l => Ret l | None => Undefined end.

(** [count] *)
Definition jcount jp (me : Z) : outcome Z :=
  r ← jfind jp me;
  match r with
  | PEmpty _ | POff => Ret 0%Z
  | PMatch i =>
      match j_data jp !! i with
      | Some s =>
          if (js_next s =? UINT32_MAX)%Z then Ret 1%Z
          else l ← overflow_at jp (js_next s); Ret (1 + Z.of_nat (length l))%Z
      | None => Undefined
      end
  end.

(** [setUnused]: pops the newest overflow value, or frees the slot. *)
Definition jsetUnused (me : Z) : M (JoinPairArray V) unit := λ jp,
  match jfind jp me with
  | Ret (PEmpty _) => (Ret tt, jp)
  | Ret (PMatch i) =>
      match j_data jp !! i with
      | None => (Undefined, jp)
      | Some s =>
          let free := (Ret tt, jset_data jp (<[i := JSlot JM_UNUSED UINT32_MAX None]> (j_data jp))) in
          if (js_next s =? UINT32_MAX)%Z then free
          else
            match j_overflows jp !! Z.to_nat (js_next s) with
            | None => (Undefined, jp)
            | Some [] => free
            | Some l =>
                (Ret tt, jset_overflows jp
                   (<[Z.to_nat (js_next s) := take (length l - 1) l]> (j_overflows jp)))
            end
      end
  | Ret POff => (Exit 1, jp)
  | NotEnoughSpace => (NotEnoughSpace, jp)
  | Exit c => (Exit c, jp)
  | Undefined => (Undefined, jp)
  end.

(** [lookup]: the slot of the returned [JoinRecordList]. *)
Definition jlookup jp (me : Z) : outcome nat :=
  r ← jfind jp me;
  match r with PEmpty i | PMatch i => Ret i | POff => Exit 1 end.

(** [overflows[JM_GET_NEXT(data, slot)].push_back(); return its last element]. *)
Definition push_overflow (fits : bool) (n : nat) : M (JoinPairArray V) jref := λ jp,
  match j_overflows jp !! n with
  | None => (Undefined, jp)
  | Some l =>
      if fits then (Ret (ROver n (length l)), jset_overflows jp (<[n := l ++ [dV]]> (j_overflows jp)))
      else (NotEnoughSpace, jp)
  end.

(** [push] *)
Definition jpush (fits_head fits_list fits_elem : bool) (me : Z) : M (JoinPairArray V) jref := λ jp,
  let h := jm_hash me in
  match jfind jp me with
  | Ret (PEmpty i) =>
      if fits_head then
        (Ret (RHead i), jset_used
           (jset_data jp (<[i := JSlot h UINT32_MAX (Some dV)]> (j_data jp)))
           (u32 (j_usedSlots jp + 1)))
      else (NotEnoughSpace, jp)
  | Ret (PMatch i) =>
      match j_data jp !! i with
      | None => (Undefined, jp)
      | Some s =>
          if (js_next s =? UINT32_MAX)%Z then
            if fits_list then
              let n := length (j_overflows jp) in
              push_overflow fits_elem n
                (jset_data (jset_overflows jp (j_overflows jp ++ [[]]))
                   (<[i := JSlot (js_hash s) (u32 (Z.of_nat n)) (js_value s)]> (j_data jp)))
            else (NotEnoughSpace, jp)
          else push_overflow fits_elem (Z.to_nat (js_next s)) jp
      end
  | Ret POff => (Exit 1, jp)
  | NotEnoughSpace => (NotEnoughSpace, jp)
  | Exit c => (Exit c, jp)
  | Undefined => (Undefined, jp)
  end.

(** Writing and reading through the returned reference. *)
Definition jwrite (r : jref) (v : V) : M (JoinPairArray V) unit :=
  modify (λ jp, match r with
    | RHead i => jset_data jp (alter (λ s, JSlot (js_hash s) (js_next s) (Some v)) i (j_data jp))
    | ROver n j => jset_overflows jp (alter (λ l, <[j:=v]> l) n (j_overflows jp))
    end).

Definition jread jp (r : jref) : option V :=
  match r with
  | RHead i => s ← j_data jp !! i; js_value s
  | ROver n j => l ← j_overflows jp !! n; l !! j
  end.

(** The constructor; as in [PairArray] it does not reach slots past 4 GiB. *)
Definition JoinPairArray_new (numSlotsIn : Z) : outcome (JoinPairArray V) :=
  if got_power 32 1 numSlotsIn then
    if (record_size * (numSlotsIn - 1) <? u32_modulus)%Z then
      Ret (MkJoinPairArray 0 numSlotsIn (jm_fill_max numSlotsIn) []
             (replicate (Z.to_nat numSlotsIn) (JSlot JM_UNUSED UINT32_MAX None)))
    else Undefined
  else Exit 1.

Definition jisOverFull jp : bool := (j_maxSlots jp <=? j_usedSlots jp)%Z.

(** The loop of [doubleArray]: pushes every used slot of [d] into the new
    array, copying its value and its [next] field; the old array is only
    read. *)
Fixpoint jmove (fits : nat → bool) (i : nat) (d : list (jslot V)) (newOne : JoinPairArray V) :
    outcome (JoinPairArray V) :=
  match d with
  | [] => Ret newOne
  | s :: d' =>
      if js_unused s then jmove fits (S i) d' newOne
      else
        match jpush (fits i) (fits i) (fits i) (js_hash s) newOne with
        | (Ret (RHead k), newOne') =>
            match js_value s with
            | Some _ =>
                jmove fits (S i) d' (jset_data newOne'
                  (alter (λ t, JSlot (js_hash t) (js_next s) (js_value s)) k (j_data newOne')))
            | None => Undefined
            end
        | (Ret (ROver _ _), _) => Undefined
        | (NotEnoughSpace, _) => NotEnoughSpace
        | (Exit c, _) => Exit c
        | (Undefined, _) => Undefined
        end
  end.

(** The bytes asked for are a 32-bit product, as in [PairArray]. *)
Definition jdoubleArray (sp : jspace) jp : outcome (JoinPairArray V) :=
  let howMany := u32 (j_numSlots jp * 2) in
  if jfits_array sp then
    if (u32 (record_size * howMany) <? record_size * howMany)%Z then Undefined else
    newOne ← JoinPairArray_new howMany;
    newOne' ← jmove (jfits_move sp) 0 (j_data jp) newOne;
    Ret (jset_overflows newOne' (j_overflows jp))
  else NotEnoughSpace.

(** ** JoinRecordList *)

Definition rl_getHash jp (i : nat) : option Z := js_hash <$> j_data jp !! i.

Definition rl_size jp (i : nat) : option nat :=
  s ← j_data jp !! i;
  if js_unused s then Some 0
  else if (js_next s =? UINT32_MAX)%Z then Some 1
  else match j_overflows jp !! Z.to_nat (js_next s) with
       | Some l => Some (length l + 1)
       | None => Some 0
       end.

(** [operator[]], unchecked. *)
Definition rl_at jp (i k : nat) : option V :=
  s ← j_data jp !! i;
  match k with
  | 0 => js_value s
  | S k' => l ← j_overflows jp !! Z.to_nat (js_next s); l !! k'
  end.

(** ** JoinMapIterator *)

(** The used slots with their hashes, in slot order. *)
Fixpoint used_slots (i : nat) (d : list (jslot V)) : list (nat * Z) :=
  match d with
  | [] => []
  | s :: d' => if js_unused s then used_slots (S i) d' else (i, js_hash s) :: used_slots (S i) d'
  end.

Definition jiter_begin jp : jiterator :=
  let order := merge_sort ji_le (used_slots 0 (j_data jp)) in
  JIterator order 0 (bool_decide (order = [])).

Definition jiter_next (it : jiterator) : jiterator :=
  let pos := if ji_done it then ji_pos it else S (ji_pos it) in
  JIterator (ji_order it) pos (ji_done it || bool_decide (pos = length (ji_order it))).

(** [operator+]: skips [howMuch] entries at once. *)
Definition jiter_plus (it : jiterator) (howMuch : nat) : jiterator :=
  if decide (length (ji_order it) ≤ ji_pos it + howMuch)
  then JIterator (ji_order it) (length (ji_order it)) true
  else JIterator (ji_order it) (ji_pos it + howMuch) (ji_done it).

(** [operator*]: the record list of the current slot. *)
Definition jiter_deref (it : jiterator) : option nat := fst <$> ji_order it !! ji_pos it.

Definition jiter_getHash jp (it : jiterator) : option Z :=
  i ← jiter_deref it; js_hash <$> j_data jp !! i.

Definition jiter_ne (a b : jiterator) : bool := negb (ji_done a) || negb (ji_done b).
Definition jiter_eq (a b : jiterator) : bool := negb (negb (ji_done a) || negb (ji_done b)).

(** The default-constructed iterator, [end()]. *)
Definition jiter_end : jiterator := JIterator [] 0 true.

(** The hashes a loop [for (it = begin(); it != end(); ++it)] visits. *)
Fixpoint jiterate jp (fuel : nat) (it : jiterator) : option (list Z) :=
  match fuel with
  | 0 => None
  | S fuel' =>
      if jiter_ne it jiter_end then
        h ← jiter_getHash jp it; l ← jiterate jp fuel' (jiter_next it); Some (h :: l)
      else Some []
  end.

(** ** JoinMap *)

Definition JoinMap_new (initSize : Z) : outcome (JoinPairArray V) :=
  JoinPairArray_new (if (initSize <? 2)%Z then 2%Z else initSize).

Definition JoinMap_default : outcome (JoinPairArray V) := JoinPairArray_new 2.

(** [JoinMap::push]: doubles an over-full array whether or not the hash is
    new. *)
Definition JoinMap_push (sp : jspace) (me : Z) : M (JoinPairArray V) jref :=
  jp ← get;
  (if jisOverFull jp then temp ← lift (jdoubleArray sp jp); put temp else mret tt) ;;
  jpush (jfits_head sp) (jfits_list sp) (jfits_elem sp) me.

Definition JoinMap_lookup jp (me : Z) : outcome nat := jlookup jp me.
Definition JoinMap_count jp (me : Z) : outcome Z := jcount jp me.
Definition JoinMap_setUnused (me : Z) : M (JoinPairArray V) unit := jsetUnused me.
Definition JoinMap_size jp : Z := j_usedSlots jp.

(** [m.push(h) = v] *)
Definition JoinMap_store (sp : jspace) (me : Z) (v : V) : M (JoinPairArray V) unit :=
  r ← JoinMap_push sp me; jwrite r v.

(** ** Abstract view and invariant *)

(** The overflow values a [next] field designates. *)
Definition overflow_of (ov : list (list V)) (next : Z) : list V :=
  if (next =? UINT32_MAX)%Z then [] else default [] (ov !! Z.to_nat next).

Definition jentry (ov : list (list V)) s : option (Z * list V) :=
  if js_unused s then None
  else match js_value s with Some v => Some (js_hash s, v :: overflow_of ov (js_next s)) | None => None end.

Definition to_multimap jp : gmap Z (list V) := slots_map (jentry (j_overflows jp)) (j_data jp).

Definition jused_count jp : nat := length (filter (λ s, js_unused s = false) (j_data jp)).

Definition jhome jp (h : Z) : nat := Z.to_nat (h mod (j_numSlots jp - 1)).

(** The table part of the invariant: it does not look at the overflow lists. *)
Record jwf_table jp : Prop := {
  jwf_len : Z.of_nat (length (j_data jp)) = j_numSlots jp;
  jwf_size : (2 ≤ j_numSlots jp < u32_modulus)%Z;
  jwf_max : j_maxSlots jp = fill_max (j_numSlots jp);
  jwf_used : (Z.of_nat (jused_count jp) ≤ j_usedSlots jp ≤ j_maxSlots jp)%Z;
  jwf_entry i s : j_data jp !! i = Some s → js_unused s = false →
    is_Some (js_value s) ∧ reachable js_unused (j_data jp) (jhome jp (js_hash s)) i;
  jwf_uniq i j s t : j_data jp !! i = Some s → j_data jp !! j = Some t →
    js_unused s = false → js_hash s = js_hash t → i = j
}.

(** The overflow part: every used slot's [next] is the empty marker or an
    overflow list no other slot uses. *)
Record jwf_overflow (d : list (jslot V)) (ov : list (list V)) : Prop := {
  jwo_next i s : d !! i = Some s → js_unused s = false → js_next s ≠ UINT32_MAX →
    (0 ≤ js_next s < Z.of_nat (length ov))%Z;
  jwo_uniq i j s t : d !! i = Some s → d !! j = Some t →
    js_unused s = false → js_unused t = false →
    js_next s ≠ UINT32_MAX → js_next s = js_next t → i = j;
  jwo_len : (Z.of_nat (length ov) ≤ UINT32_MAX)%Z
}.

Definition jwf jp : Prop := jwf_table jp ∧ jwf_overflow (j_data jp) (j_overflows jp).

End JoinPairArray.

Section facts.
Context {RS : RecordSize} {V : Type} (dV : V).
Implicit Types (jp : JoinPairArray V) (s t : jslot V).

Lemma jm_hash_used me : jm_hash me ≠ JM_UNUSED.
Proof. unfold jm_hash. destruct (Z.eqb_spec me JM_UNUSED); done. Qed.

Lemma jm_hash_idemp me : jm_hash (jm_hash me) = jm_hash me.
Proof. unfold jm_hash at 1. by rewrite (proj2 (Z.eqb_neq _ _) (jm_hash_used me)). Qed.

Lemma js_unused_false s : js_unused s = false ↔ js_hash s ≠ JM_UNUSED.
Proof. unfold js_unused. apply Z.eqb_neq. Qed.

Lemma jm_hash_slot s : js_unused s = false → jm_hash (js_hash s) = js_hash s.
Proof. unfold jm_hash, js_unused. by intros ->. Qed.

Lemma jhome_lt jp h : jwf_table jp → jhome jp h < length (j_data jp).
Proof.
  intros Hwf. pose proof (jwf_len _ Hwf). pose proof (jwf_size _ Hwf).
  unfold jhome. pose proof (Z.mod_pos_bound h (j_numSlots jp - 1)). lia.
Qed.

Lemma jfind_wf jp me :
  jwf_table jp → jfind jp me =
    Ret (probe js_unused (js_matches (jm_hash me)) (j_data jp) (length (j_data jp)) (jhome jp (jm_hash me))).
Proof.
  intros Hwf. pose proof (jwf_size _ Hwf). pose proof (jwf_len _ Hwf) as Hl.
  unfold jfind, home_slot. rewrite u32_small by word_lia.
  destruct (Z.eqb_spec (j_numSlots jp - 1) 0); [lia|]. simpl. unfold jhome.
  by rewrite <- Hl, Nat2Z.id.
Qed.

Lemma jfree_slot jp : jwf_table jp → ∃ i s, j_data jp !! i = Some s ∧ js_unused s = true.
Proof.
  intros Hwf. pose proof (jwf_used _ Hwf). pose proof (jwf_max _ Hwf).
  pose proof (jwf_len _ Hwf). pose proof (jwf_size _ Hwf).
  pose proof (fill_max_bounds (j_numSlots jp) ltac:(done)).
  destruct (filter_length_lt_exists (λ s, js_unused s = false) (j_data jp)) as (i & s & ? & ?).
  { unfold jused_count in *. lia. }
  exists i, s. split; [done|]. by destruct (js_unused s).
Qed.

Lemma jfind_hit jp me i s :
  jwf_table jp → j_data jp !! i = Some s → js_hash s = jm_hash me → jfind jp me = Ret (PMatch i).
Proof.
  intros Hwf Hs Hh. assert (js_unused s = false) as Hu.
  { apply js_unused_false. rewrite Hh. apply jm_hash_used. }
  rewrite jfind_wf by done. f_equal.
  destruct (jwf_entry _ Hwf _ _ Hs Hu) as [_ Hr]. rewrite Hh in Hr.
  eapply probe_found; [by apply jhome_lt|done|done|done| |].
  - unfold js_matches. by apply Z.eqb_eq.
  - intros i' s' Hs' Hu' Hm%Z.eqb_eq. eapply (jwf_uniq _ Hwf); eauto. congruence.
Qed.

Lemma jfind_miss jp me :
  jwf_table jp → (∀ i s, j_data jp !! i = Some s → js_hash s ≠ jm_hash me) →
  ∃ i s, jfind jp me = Ret (PEmpty i) ∧ j_data jp !! i = Some s ∧ js_unused s = true ∧
         reachable js_unused (j_data jp) (jhome jp (jm_hash me)) i.
Proof.
  intros Hwf Hno. rewrite jfind_wf by done.
  destruct (probe_free js_unused (js_matches (jm_hash me)) (j_data jp) (jhome jp (jm_hash me)))
    as (i & s & Hp & ? & ? & ?); [by apply jhome_lt|by apply jfree_slot| |].
  - intros i s Hs _. apply Z.eqb_neq. by eapply Hno.
  - exists i, s. by rewrite Hp.
Qed.

(** The slot of a hash, if any. *)
Lemma jslot_dec jp h :
  (∃ i s, j_data jp !! i = Some s ∧ js_hash s = h) ∨
  (∀ i s, j_data jp !! i = Some s → js_hash s ≠ h).
Proof.
  destruct (decide (Exists (λ s, js_hash s = h) (j_data jp))) as [He|Hn].
  - left. apply Exists_exists in He as (s & Hs & ?).
    apply list_elem_of_lookup in Hs as [i ?]. eauto.
  - right. intros i s Hs Hh. apply Hn. apply Exists_exists. exists s. split; [|done].
    by eapply list_elem_of_lookup_2.
Qed.

Lemma jentry_key ov s h l : jentry ov s = Some (h, l) → js_hash s = h ∧ js_unused s = false.
Proof. unfold jentry. destruct (js_unused s), (js_value s); naive_solver. Qed.

Lemma jentries_unique jp ov : jwf_table jp → slots_unique (jentry ov) (j_data jp).
Proof.
  intros Hwf i j x y h a b Hx Hy Ha Hb.
  apply jentry_key in Ha as [Ha Hu], Hb as [Hb _].
  eapply (jwf_uniq _ Hwf); eauto. congruence.
Qed.

Lemma jmap_absent jp ov h :
  jwf_table jp → (∀ i s, j_data jp !! i = Some s → js_hash s ≠ h) →
  slots_map (jentry ov) (j_data jp) !! h = None.
Proof.
  intros Hwf Hno. apply slots_map_lookup_None; [by apply jentries_unique|].
  intros i s l Hs He. apply jentry_key in He as [He _]. by eapply Hno.
Qed.

Lemma jmap_present jp i s v :
  jwf_table jp → j_data jp !! i = Some s → js_unused s = false → js_value s = Some v →
  to_multimap jp !! js_hash s = Some (v :: overflow_of (j_overflows jp) (js_next s)).
Proof.
  intros Hwf Hs Hu Hv. apply slots_map_lookup; [by apply jentries_unique|].
  exists i, s. split; [done|]. unfold jentry. by rewrite Hu, Hv.
Qed.

(** Filling a free slot reachable from the home of a new hash. *)
Lemma jtable_fill jp i s t n :
  jwf_table jp → j_data jp !! i = Some s → js_unused s = true →
  js_unused t = false → is_Some (js_value t) →
  reachable js_unused (j_data jp) (jhome jp (js_hash t)) i →
  (∀ j x, j_data jp !! j = Some x → js_hash x ≠ js_hash t) →
  (j_usedSlots jp + 1 ≤ n ≤ j_maxSlots jp)%Z →
  let jp' := jset_used (jset_data jp (<[i:=t]> (j_data jp))) n in
  jwf_table jp' ∧ jused_count jp' = S (jused_count jp).
Proof.
  intros Hwf Hs Hu Hut Hvt Hr Hno Hn jp'.
  assert (jused_count jp' = S (jused_count jp)) as Hc.
  { unfold jused_count. change (j_data jp') with (<[i:=t]> (j_data jp)).
    pose proof (filter_insert_length js_unused (j_data jp) i t s Hs) as Hf.
    rewrite Hu, Hut in Hf. lia. }
  split; [|done]. pose proof (jwf_used _ Hwf). split; simpl.
  - rewrite length_insert. by apply jwf_len.
  - by apply jwf_size.
  - by apply jwf_max.
  - rewrite Hc. lia.
  - intros j x Hx Hxu. apply lookup_insert_cases in Hx as [(-> & <- & _)|[Hij Hx]].
    + split; [done|]. by apply reachable_insert.
    + destruct (jwf_entry _ Hwf _ _ Hx Hxu) as [? ?]. split; [done|]. by apply reachable_insert.
  - intros j k x y Hx Hy Hxu Hxy.
    apply lookup_insert_cases in Hx as [(-> & <- & _)|[Hij Hx]];
    apply lookup_insert_cases in Hy as [(-> & <- & _)|[Hik Hy]]; [done|..].
    + by destruct (Hno _ _ Hy).
    + by destruct (Hno _ _ Hx).
    + by eapply (jwf_uniq _ Hwf).
Qed.

(** Rewriting the [next] field or the value of a used slot. *)
Lemma jtable_update jp i s t ov :
  jwf_table jp → j_data jp !! i = Some s → js_unused s = false →
  js_hash t = js_hash s → is_Some (js_value t) →
  let jp' := jset_data (jset_overflows jp ov) (<[i:=t]> (j_data jp)) in
  jwf_table jp' ∧ jused_count jp' = jused_count jp.
Proof.
  intros Hwf Hs Hu Hh Hv jp'.
  assert (js_unused t = false) as Hut by (unfold js_unused in *; congruence).
  assert (jused_count jp' = jused_count jp) as Hc.
  { unfold jused_count. change (j_data jp') with (<[i:=t]> (j_data jp)).
    pose proof (filter_insert_length js_unused (j_data jp) i t s Hs) as Hf.
    rewrite Hu, Hut in Hf. lia. }
  split; [|done]. split; simpl.
  - rewrite length_insert. by apply jwf_len.
  - by apply jwf_size.
  - by apply jwf_max.
  - rewrite Hc. by apply jwf_used.
  - intros j x Hx Hxu. apply lookup_insert_cases in Hx as [(-> & <- & _)|[Hij Hx]].
    + split; [done|]. apply reachable_insert; [done|]. rewrite Hh.
      by apply (jwf_entry _ Hwf _ _ Hs Hu).
    + destruct (jwf_entry _ Hwf _ _ Hx Hxu) as [? ?]. split; [done|]. by apply reachable_insert.
  - intros j k x y Hx Hy Hxu Hxy.
    apply lookup_insert_cases in Hx as [(-> & <- & _)|[Hij Hx]];
    apply lookup_insert_cases in Hy as [(-> & <- & _)|[Hik Hy]]; [done|..];
    eapply (jwf_uniq _ Hwf); eauto; congruence.
Qed.

Lemma jtable_overflows jp ov : jwf_table jp → jwf_table (jset_overflows jp ov).
Proof. intros [? ? ? ? ? ?]. by split. Qed.

(** ** push *)

(** The abstract push: append to the list of the hash. *)
Definition pushed (mm : gmap Z (list V)) (h : Z) (v : V) : gmap Z (list V) :=
  <[h := default [] (mm !! h) ++ [v]]> mm.

(** What a caller may rely on after a push returned the reference [r]: any
    value written through it is the last one pushed under [h]. *)
Definition push_post jp h jp' (r : jref) : Prop :=
  (∀ v, jwf (jwrite r v jp').2 ∧ to_multimap (jwrite r v jp').2 = pushed (to_multimap jp) h v) ∧
  jp' = (jwrite r dV jp').2 ∧
  j_numSlots jp' = j_numSlots jp ∧
  (j_usedSlots jp ≤ j_usedSlots jp' ≤ j_usedSlots jp + 1)%Z ∧
  length (j_overflows jp') ≤ length (j_overflows jp) + 1.

(** [st v]: the table after [v] was written through the reference. *)
Lemma push_post_intro jp h jp' r (st : V → JoinPairArray V) :
  (∀ v, (jwrite r v jp').2 = st v) → jp' = st dV →
  (∀ v, jwf (st v) ∧ to_multimap (st v) = pushed (to_multimap jp) h v) →
  j_numSlots (st dV) = j_numSlots jp →
  (j_usedSlots jp ≤ j_usedSlots (st dV) ≤ j_usedSlots jp + 1)%Z →
  length (j_overflows (st dV)) ≤ length (j_overflows jp) + 1 →
  push_post jp h jp' r.
Proof.
  intros Hw Heq Hst Hn Hu Ho. unfold push_post.
  split; [intros v; rewrite Hw; apply Hst|]. split; [congruence|]. by rewrite Heq.
Qed.

Lemma overflow_wf_new (d : list (jslot V)) ov i s :
  jwf_overflow d ov → js_unused s = false → js_next s = UINT32_MAX →
  jwf_overflow (<[i:=s]> d) ov.
Proof.
  intros Ho Hu Hn. split; [| |by eapply jwo_len].
  - intros j x Hx. apply lookup_insert_cases in Hx as [(_ & <- & _)|[_ Hx]]; [done|].
    by eapply jwo_next.
  - intros j k x y Hx Hy Hxu Hyu Hxn Hxy.
    apply lookup_insert_cases in Hx as [(_ & <- & _)|[_ Hx]]; [done|].
    apply lookup_insert_cases in Hy as [(_ & <- & _)|[_ Hy]]; [congruence|].
    by eapply (jwo_uniq _ _ Ho).
Qed.

Lemma overflow_of_max ov : overflow_of (V:=V) ov UINT32_MAX = [].
Proof. done. Qed.

(** A push of a new hash occupies a free slot on its probe path. *)
Lemma jpush_raw jp me :
  jwf_table jp → (∀ i s, j_data jp !! i = Some s → js_hash s ≠ jm_hash me) →
  (j_usedSlots jp < j_maxSlots jp)%Z →
  ∃ i s, j_data jp !! i = Some s ∧ js_unused s = true ∧
    reachable js_unused (j_data jp) (jhome jp (jm_hash me)) i ∧
    ∀ fh fl fe, jpush dV fh fl fe me jp =
      if fh : bool then
        (Ret (RHead i), jset_used (jset_data jp (<[i := JSlot (jm_hash me) UINT32_MAX (Some dV)]> (j_data jp)))
                          (j_usedSlots jp + 1))
      else (NotEnoughSpace, jp).
Proof.
  intros Hwf Hno Hlt. destruct (jfind_miss jp me Hwf Hno) as (i & s & Hf & Hs & Hu & Hr).
  exists i, s. split_and!; [done..|]. intros fh fl fe. unfold jpush. rewrite Hf.
  pose proof (jwf_size _ Hwf). pose proof (jwf_used _ Hwf). pose proof (jwf_max _ Hwf).
  pose proof (fill_max_bounds (j_numSlots jp) ltac:(done)). by rewrite u32_small by word_lia.
Qed.

Lemma jpush_miss fh fl fe jp me :
  jwf jp → (∀ i s, j_data jp !! i = Some s → js_hash s ≠ jm_hash me) →
  (j_usedSlots jp < j_maxSlots jp)%Z →
  match jpush dV fh fl fe me jp with
  | (Ret r, jp') => push_post jp (jm_hash me) jp' r
  | (NotEnoughSpace, jp') => fh = false ∧ jp' = jp
  | _ => False
  end.
Proof.
  intros [Hwf Ho] Hno Hlt. destruct (jpush_raw jp me Hwf Hno Hlt) as (i & s & Hs & Hu & Hr & ->).
  destruct fh; [|done].
  assert (∀ v, js_unused (JSlot (jm_hash me) UINT32_MAX (Some v)) = false) as Hun
    by (intros v; apply js_unused_false, jm_hash_used).
  pose proof (lookup_lt_Some _ _ _ Hs) as Hi.
  assert (∀ v, (jwrite (RHead i) v (jset_used (jset_data jp
      (<[i := JSlot (jm_hash me) UINT32_MAX (Some dV)]> (j_data jp))) (j_usedSlots jp + 1))).2 =
    jset_used (jset_data jp (<[i := JSlot (jm_hash me) UINT32_MAX (Some v)]> (j_data jp)))
      (j_usedSlots jp + 1)) as Hw.
  { intros v. unfold jwrite, modify. simpl. unfold jset_data, jset_used. simpl. f_equal.
    rewrite (list_alter_insert_lookup _ _ _ _ (list_lookup_insert_eq _ _ _ Hi)).
    by rewrite list_insert_insert_eq. }
  eapply push_post_intro; [exact Hw|done| |done|simpl; lia|simpl; lia].
  intros v. set (t := JSlot (jm_hash me) UINT32_MAX (Some v)).
  destruct (jtable_fill jp i s t (j_usedSlots jp + 1) Hwf Hs Hu (Hun v)) as [Hwf' _];
    [eauto|done|done|lia|].
  split; [split; [done|apply overflow_wf_new; [done|apply Hun|done]]|].
  unfold to_multimap, pushed. simpl. rewrite jmap_absent by done. simpl.
  apply (slots_fill (jentry (j_overflows jp)) _ _ s); [by apply jentries_unique|done| | |].
  - unfold jentry. by rewrite Hu.
  - unfold jentry, t. by rewrite Hun.
  - by apply jmap_absent.
Qed.

(** The used slots' views do not change when the overflow vector grows. *)
Lemma jentry_grow jp l i s :
  jwf jp → j_data jp !! i = Some s →
  jentry (j_overflows jp ++ l) s = jentry (j_overflows jp) s.
Proof.
  intros [Hwf Ho] Hs. unfold jentry. destruct (js_unused s) eqn:Hu; [done|].
  destruct (js_value s); [|done]. do 3 f_equal. unfold overflow_of.
  destruct (Z.eqb_spec (js_next s) UINT32_MAX); [done|].
  pose proof (jwo_next _ _ Ho _ _ Hs Hu ltac:(done)). rewrite lookup_app_l; [done|lia].
Qed.

Lemma to_multimap_grow jp l :
  jwf jp → slots_map (jentry (j_overflows jp ++ l)) (j_data jp) = to_multimap jp.
Proof. intros Hwf. apply slots_map_ext. intros i s Hs. by eapply jentry_grow. Qed.

(** Starting an overflow list with [l] for the slot of [me]. *)
Lemma overflow_start jp i s v l :
  jwf jp → j_data jp !! i = Some s → js_unused s = false → js_next s = UINT32_MAX →
  js_value s = Some v → (Z.of_nat (length (j_overflows jp)) < UINT32_MAX)%Z →
  let t := JSlot (js_hash s) (Z.of_nat (length (j_overflows jp))) (js_value s) in
  let jp' := jset_data (jset_overflows jp (j_overflows jp ++ [l])) (<[i:=t]> (j_data jp)) in
  jwf jp' ∧ to_multimap jp' = <[js_hash s := v :: l]> (to_multimap jp).
Proof.
  intros Hjp Hs Hu Hn Hv Hlen t jp'. pose proof Hjp as [Hwf Ho].
  destruct (jtable_update jp i s t (j_overflows jp ++ [l]) Hwf Hs Hu) as [Hwf' _]; [done|by eexists|].
  split; [split; [done|split]|].
  - intros j x Hx Hxu Hxn. simpl in Hx. unfold jp'. simpl. rewrite length_app. simpl.
    apply lookup_insert_cases in Hx as [(-> & <- & _)|[_ Hx]]; [simpl; lia|].
    pose proof (jwo_next _ _ Ho _ _ Hx Hxu Hxn). lia.
  - intros j k x y Hx Hy Hxu Hyu Hxn Hxy. simpl in Hx, Hy.
    apply lookup_insert_cases in Hx as [(-> & <- & _)|[Hij Hx]];
    apply lookup_insert_cases in Hy as [(-> & <- & _)|[Hik Hy]]; [done|..].
    + pose proof (jwo_next _ _ Ho _ _ Hy Hyu ltac:(congruence)). simpl in Hxy. lia.
    + pose proof (jwo_next _ _ Ho _ _ Hx Hxu Hxn). simpl in Hxy. lia.
    + by eapply (jwo_uniq _ _ Ho).
  - unfold jp'. simpl. rewrite length_app. simpl. lia.
  - unfold to_multimap at 1. simpl. rewrite <- (to_multimap_grow jp [l]) by done.
    apply (slots_update _ _ _ s _ _ (v :: overflow_of (j_overflows jp ++ [l]) (js_next s)));
      [by apply jentries_unique|done| |].
    + unfold jentry. by rewrite Hu, Hv.
    + unfold jentry, js_unused in *. simpl. rewrite Hu, Hv. unfold overflow_of.
      rewrite (proj2 (Z.eqb_neq _ _)) by lia. rewrite Nat2Z.id, lookup_app_r by lia.
      by rewrite Nat.sub_diag.
Qed.

(** Changing the overflow list of one slot. *)
Lemma overflow_change jp i s v l' :
  jwf jp → j_data jp !! i = Some s → js_unused s = false → js_next s ≠ UINT32_MAX →
  js_value s = Some v →
  let jp' := jset_overflows jp (<[Z.to_nat (js_next s) := l']> (j_overflows jp)) in
  jwf jp' ∧ to_multimap jp' = <[js_hash s := v :: l']> (to_multimap jp).
Proof.
  intros [Hwf Ho] Hs Hu Hn Hv jp'. pose proof (jwo_next _ _ Ho _ _ Hs Hu Hn) as Hb.
  split; [split; [by apply jtable_overflows|]|].
  - destruct Ho as [Ho1 Ho2 Ho3]. split; simpl; rewrite ?length_insert; eauto.
  - apply (slots_modify (jentry (j_overflows jp)) _ (j_data jp) (j_data jp) i s s _
      (v :: overflow_of (j_overflows jp) (js_next s))); [by apply jentries_unique|done|done| | |].
    + unfold jentry. by rewrite Hu, Hv.
    + unfold jentry. rewrite Hu, Hv. unfold overflow_of. simpl.
      rewrite (proj2 (Z.eqb_neq _ _) Hn), list_lookup_insert_eq by lia. done.
    + intros j Hj. destruct (j_data jp !! j) as [t|] eqn:Ht; [|done]. simpl. f_equal.
      unfold jentry. destruct (js_unused t) eqn:Htu; [done|]. destruct (js_value t); [|done].
      do 3 f_equal. unfold overflow_of. simpl.
      destruct (Z.eqb_spec (js_next t) UINT32_MAX); [done|].
      rewrite list_lookup_insert_ne; [done|]. intros He. apply Hj.
      pose proof (jwo_next _ _ Ho _ _ Ht Htu ltac:(done)).
      eapply (jwo_uniq _ _ Ho); eauto. lia.
Qed.

(** Appending to an overflow list and writing the new element. *)
Lemma push_overflow_spec fe jp n l :
  j_overflows jp !! n = Some l →
  match push_overflow dV fe n jp with
  | (Ret r, jp') => r = ROver n (length l) ∧
      (∀ v, (jwrite r v jp').2 = jset_overflows jp (<[n := l ++ [v]]> (j_overflows jp))) ∧
      jp' = (jwrite r dV jp').2
  | (NotEnoughSpace, jp') => fe = false ∧ jp' = jp
  | _ => False
  end.
Proof.
  intros Hl. unfold push_overflow. rewrite Hl. destruct fe; [|done].
  pose proof (lookup_lt_Some _ _ _ Hl) as Hn.
  assert (∀ v, (jwrite (ROver n (length l)) v
      (jset_overflows jp (<[n := l ++ [dV]]> (j_overflows jp)))).2 =
      jset_overflows jp (<[n := l ++ [v]]> (j_overflows jp))) as Hw.
  { intros v. unfold jwrite, modify, jset_overflows. simpl. f_equal.
    rewrite (list_alter_insert_lookup _ _ _ _ (list_lookup_insert_eq _ _ _ Hn)).
    rewrite list_insert_insert_eq, insert_app_r_alt by lia. by rewrite Nat.sub_diag. }
  split_and!; [done|done|by rewrite Hw].
Qed.

Lemma jpush_hit fh fl fe jp me i s :
  jwf jp → j_data jp !! i = Some s → js_hash s = jm_hash me →
  (Z.of_nat (length (j_overflows jp)) < UINT32_MAX)%Z →
  match jpush dV fh fl fe me jp with
  | (Ret r, jp') => push_post jp (jm_hash me) jp' r
  | (NotEnoughSpace, jp') => fl && fe = false ∧ jwf jp' ∧ to_multimap jp' = to_multimap jp
  | _ => False
  end.
Proof.
  intros Hjp Hs Hh Hlen. pose proof Hjp as [Hwf Ho].
  assert (js_unused s = false) as Hu by (apply js_unused_false; rewrite Hh; apply jm_hash_used).
  destruct (jwf_entry _ Hwf _ _ Hs Hu) as [[v0 Hv] _].
  pose proof (jmap_present jp i s v0 Hwf Hs Hu Hv) as Hmm. rewrite Hh in Hmm.
  unfold jpush. rewrite (jfind_hit jp me i s Hwf Hs Hh), Hs.
  destruct (Z.eqb_spec (js_next s) UINT32_MAX) as [Hn|Hn].
  - destruct fl; [|done]. rewrite u32_small by word_lia.
    set (t := JSlot (js_hash s) (Z.of_nat (length (j_overflows jp))) (js_value s)).
    set (d' := <[i:=t]> (j_data jp)).
    pose proof (push_overflow_spec fe (jset_data (jset_overflows jp (j_overflows jp ++ [[]])) d')
      (length (j_overflows jp)) [] (list_lookup_middle _ _ _ _ eq_refl)) as Hp.
    destruct (push_overflow _ _ _ _) as [[r| | |] jp']; try done.
    + destruct Hp as (-> & Hw & Heq).
      assert (∀ v, (jwrite (ROver (length (j_overflows jp)) 0) v jp').2 =
        jset_data (jset_overflows jp (j_overflows jp ++ [[v]])) d') as Hw'.
      { intros v. etrans; [exact (Hw v)|]. unfold jset_data, jset_overflows. simpl. f_equal.
        by rewrite insert_app_r_alt, Nat.sub_diag by lia. }
      eapply push_post_intro; [exact Hw'|etrans; [exact Heq|exact (Hw' dV)]| |done|simpl; lia|simpl; rewrite length_app; simpl; lia].
      intros v. destruct (overflow_start jp i s v0 [v] Hjp Hs Hu Hn Hv Hlen) as [? Hm].
      split; [done|]. etrans; [exact Hm|]. unfold pushed. by rewrite Hmm, Hn, overflow_of_max, Hh.
    + destruct Hp as [-> ->]. split; [done|].
      destruct (overflow_start jp i s v0 [] Hjp Hs Hu Hn Hv Hlen) as [? Hm].
      split; [done|]. etrans; [exact Hm|]. rewrite Hh. apply insert_id.
      by rewrite Hmm, Hn, overflow_of_max.
  - pose proof (jwo_next _ _ Ho _ _ Hs Hu Hn) as Hb.
    destruct (lookup_lt_is_Some_2 (j_overflows jp) (Z.to_nat (js_next s)) ltac:(lia)) as [l Hl].
    pose proof (push_overflow_spec fe jp _ l Hl) as Hp.
    destruct (push_overflow _ _ _ _) as [[r| | |] jp']; try done.
    + destruct Hp as (-> & Hw & Heq).
      eapply push_post_intro; [exact Hw|etrans; [exact Heq|exact (Hw dV)]| |done|simpl; lia|simpl; rewrite length_insert; lia].
      intros v.
      destruct (overflow_change jp i s v0 (l ++ [v]) Hjp Hs Hu Hn Hv) as [? Hm].
      split; [done|]. etrans; [exact Hm|]. unfold pushed. rewrite Hmm, Hh. unfold overflow_of.
      by rewrite (proj2 (Z.eqb_neq _ _) Hn), Hl.
    + destruct Hp as [-> ->]. split; [by destruct fl|]. done.
Qed.

(** ** Construction and doubling *)

Lemma JoinPairArray_new_wf n :
  (2 ≤ n ≤ 2147483648)%Z → (record_size * (n - 1) < u32_modulus)%Z →
  ∃ jp, JoinPairArray_new n = Ret jp ∧ jwf jp ∧ j_usedSlots jp = 0%Z ∧ jused_count jp = 0 ∧
    j_numSlots jp = n ∧ (∀ i s, j_data jp !! i = Some s → s = JSlot JM_UNUSED UINT32_MAX (None (A:=V))).
Proof.
  intros Hn Hb. unfold JoinPairArray_new. rewrite got_power_spec.
  destruct (Z.leb_spec n 2147483648); [|lia]. rewrite (proj2 (Z.ltb_lt _ _) Hb).
  set (d := replicate (Z.to_nat n) (JSlot JM_UNUSED UINT32_MAX (None (A:=V)))).
  assert (∀ i s, d !! i = Some s → s = JSlot JM_UNUSED UINT32_MAX None) as Hd.
  { intros i s Hs. by apply lookup_replicate in Hs as [-> _]. }
  assert (∀ m, filter (λ s, js_unused s = false) (replicate m (JSlot JM_UNUSED UINT32_MAX (None (A:=V)))) = []) as Hf.
  { intros m. induction m as [|m IH]; [done|]. simpl replicate. rewrite filter_cons. by case_decide. }
  pose proof (fill_max_bounds n ltac:(word_lia)).
  eexists. split; [done|]. split_and!; try done.
  - split; [split; simpl|split; simpl].
    + unfold d. rewrite length_replicate. lia.
    + word_lia.
    + done.
    + unfold jused_count, d. simpl. rewrite Hf. unfold jm_fill_max. simpl. lia.
    + intros i s Hs Hu. by apply Hd in Hs as ->.
    + intros i j s t Hs _ Hu. by apply Hd in Hs as ->.
    + intros i s Hs Hu. by apply Hd in Hs as ->.
    + intros i j s t Hs _ Hu. by apply Hd in Hs as ->.
    + done.
  - unfold jused_count. simpl. unfold d. by rewrite Hf.
Qed.

Lemma jmove_spec fits ov l i new :
  jwf_table new → j_usedSlots new = Z.of_nat (jused_count new) →
  (∀ j s, l !! j = Some s → js_unused s = false → is_Some (js_value s)) →
  slots_unique (jentry ov) l →
  (∀ h w, slots_map (jentry ov) l !! h = Some w → ∀ j t, j_data new !! j = Some t → js_hash t ≠ h) →
  (j_usedSlots new + Z.of_nat (length (filter (λ s, js_unused s = false) l)) ≤ j_maxSlots new)%Z →
  match jmove dV fits i l new with
  | Ret new' => jwf_table new' ∧
      slots_map (jentry ov) (j_data new') = slots_map (jentry ov) l ∪ slots_map (jentry ov) (j_data new) ∧
      j_numSlots new' = j_numSlots new ∧ j_usedSlots new' = Z.of_nat (jused_count new') ∧
      jused_count new' = jused_count new + length (filter (λ s, js_unused s = false) l) ∧
      (∀ j t, j_data new' !! j = Some t → js_unused t = false →
        (∃ k s, l !! k = Some s ∧ js_unused s = false ∧ js_hash s = js_hash t ∧ js_next s = js_next t) ∨
        j_data new !! j = Some t)
  | NotEnoughSpace => ∃ j, i ≤ j ∧ fits j = false
  | _ => False
  end.
Proof.
  revert i new. induction l as [|s l IH]; intros i new Hwf Hcnt Hval Hu Hdisj Hroom; simpl.
  { split_and!; [done| |done|done|simpl; lia|eauto]. unfold slots_map at 2. simpl. by rewrite (left_id_L ∅ (∪)). }
  pose proof (slots_unique_tail _ _ _ Hu) as Hu'.
  assert (Hval' := λ j t, Hval (S j) t).
  rewrite filter_cons in Hroom |- *. destruct (js_unused s) eqn:Hus.
  - rewrite decide_False in Hroom |- * by done.
    rewrite slots_map_cons_None in Hdisj |- * by (unfold jentry; by rewrite Hus).
    specialize (IH (S i) new Hwf Hcnt Hval' Hu' Hdisj Hroom).
    destruct (jmove _ _ _ _ _); try done.
    + destruct IH as (? & ? & ? & ? & ? & Hnew). split_and!; [done..|].
      intros j t Ht Htu. destruct (Hnew j t Ht Htu) as [(k & x & ? & ?)|?]; [left|by right].
      by exists (S k), x.
    + destruct IH as (j & ? & ?). exists j. split; [lia|done].
  - rewrite decide_True in Hroom |- * by done. simpl in Hroom.
    destruct (Hval 0 s eq_refl Hus) as [v Hv].
    assert (jentry ov s = Some (js_hash s, v :: overflow_of ov (js_next s))) as He.
    { unfold jentry. by rewrite Hus, Hv. }
    rewrite (slots_map_cons_Some _ _ _ _ _ He) in Hdisj |- *.
    pose proof (jm_hash_slot s Hus) as Hjm.
    assert (∀ j t, j_data new !! j = Some t → js_hash t ≠ jm_hash (js_hash s)) as Hno.
    { rewrite Hjm. eapply Hdisj. apply lookup_insert_eq. }
    destruct (jpush_raw new (js_hash s) Hwf Hno ltac:(lia)) as (k & f & Hk & Hfu & Hr & ->).
    destruct (fits i) eqn:Hfit; [|exists i; by split].
    rewrite Hjm in Hr |- *. rewrite Hv. simpl.
    pose proof (lookup_lt_Some _ _ _ Hk) as Hlt.
    rewrite (list_alter_insert_lookup _ _ _ _ (list_lookup_insert_eq _ _ _ Hlt)).
    rewrite list_insert_insert_eq. simpl.
    set (t := JSlot (js_hash s) (js_next s) (Some v)).
    set (new2 := jset_used (jset_data new (<[k:=t]> (j_data new))) (j_usedSlots new + 1)).
    rewrite Hjm in Hno.
    destruct (jtable_fill new k f t (j_usedSlots new + 1) Hwf Hk Hfu Hus ltac:(by eexists) Hr Hno ltac:(lia))
      as [Hwf2 Hc2].
    assert (jentry ov t = Some (js_hash s, v :: overflow_of ov (js_next s))) as Het.
    { unfold jentry, js_unused in *. simpl. by rewrite Hus. }
    assert (slots_map (jentry ov) l !! js_hash s = None) as Hkl.
    { apply slots_map_lookup_None; [done|]. intros j x w Hx Hw.
      assert (0 = S j); [|lia]. by eapply (Hu 0 (S j)); simpl; eauto. }
    destruct (slots_fill (jentry ov) (j_data new) k f t _ _ (jentries_unique new ov Hwf) Hk
      ltac:(unfold jentry; by rewrite Hfu) Het (jmap_absent new ov _ Hwf Hno)) as [_ Hfill].
    assert (jused_count new2 = S (jused_count new)) as Hcn by exact Hc2.
    specialize (IH (S i) new2 Hwf2 ltac:(change (j_usedSlots new2) with (j_usedSlots new + 1)%Z; lia) Hval' Hu').
    assert (∀ h w, slots_map (jentry ov) l !! h = Some w →
      ∀ j x, j_data new2 !! j = Some x → js_hash x ≠ h) as Hd2.
    { intros h w Hh j x Hx. simpl in Hx.
      apply lookup_insert_cases in Hx as [(_ & <- & _)|[_ Hx]]; [simpl; congruence|].
      eapply Hdisj; [|done]. rewrite lookup_insert_ne by congruence. done. }
    specialize (IH Hd2 ltac:(change (j_usedSlots new2) with (j_usedSlots new + 1)%Z;
      change (j_maxSlots new2) with (j_maxSlots new); lia)).
    change (MkJoinPairArray _ _ _ _ _) with new2.
    destruct (jmove _ _ _ _ _) as [new'| | |]; try done.
    + destruct IH as (? & Hm & ? & ? & ? & Hnew). split_and!; [done| |done|done|simpl in *; lia|].
      * rewrite Hm. simpl. rewrite Hfill. by rewrite <- insert_union_r, insert_union_l by done.
      * intros j x Hx Hxu. destruct (Hnew j x Hx Hxu) as [(k' & y & ? & ?)|Hj].
        -- left. by exists (S k'), y.
        -- simpl in Hj. apply lookup_insert_cases in Hj as [(_ & <- & _)|[_ Hj]]; [|by right].
           left. by exists 0, s.
    + destruct IH as (j & ? & ?). exists j. split; [lia|done].
Qed.

Lemma jdoubleArray_spec sp jp :
  jwf jp → (j_numSlots jp ≤ max_slots)%Z →
  match jdoubleArray dV sp jp with
  | Ret new => jwf new ∧ to_multimap new = to_multimap jp ∧ j_numSlots new = (2 * j_numSlots jp)%Z ∧
      j_usedSlots new = Z.of_nat (jused_count jp) ∧ (j_usedSlots new < j_maxSlots new)%Z ∧
      j_overflows new = j_overflows jp
  | NotEnoughSpace => sp ≠ jplenty
  | _ => False
  end.
Proof.
  intros [Hwf Ho] Hn. pose proof (jwf_size _ Hwf). pose proof (jwf_len _ Hwf) as Hlen.
  unfold jdoubleArray. destruct (jfits_array sp) eqn:Hfit; [|by intros ->].
  assert (0 ≤ record_size * (2 * j_numSlots jp) < u32_modulus)%Z as Hbytes by (apply max_slots_bytes; lia).
  pose proof max_slots_bounds. pose proof record_size_ok.
  rewrite (u32_small (j_numSlots jp * 2)) by word_lia. rewrite (u32_small (record_size * _)) by lia. rewrite Z.ltb_irrefl.
  destruct (JoinPairArray_new_wf (j_numSlots jp * 2) ltac:(lia) ltac:(lia))
    as (new & -> & [Hwfn Hon] & Hun & Hcn & Hnn & Hdn). simpl.
  pose proof (fill_max_double (j_numSlots jp) ltac:(lia)) as Hfm.
  pose proof (jwf_used _ Hwf) as Hused. rewrite (jwf_max _ Hwf) in Hused. unfold jused_count in Hused.
  assert (j_maxSlots new = fill_max (2 * j_numSlots jp)) as Hmaxn.
  { rewrite (jwf_max _ Hwfn), Hnn. f_equal. lia. }
  pose proof (jmove_spec (jfits_move sp) (j_overflows jp) (j_data jp) 0 new Hwfn ltac:(lia)) as Hmv.
  specialize (Hmv ltac:(intros j s Hs Hu; by apply (jwf_entry _ Hwf _ _ Hs Hu))
    (jentries_unique jp _ Hwf)).
  specialize (Hmv ltac:(intros h w Hh j t ->%Hdn <-; apply slots_map_lookup in Hh
    as (k & x & _ & [Hx Hxu]%jentry_key); [by apply js_unused_false in Hxu|by apply jentries_unique])).
  specialize (Hmv ltac:(lia)).
  destruct (jmove _ _ _ _ _) as [new'| | |]; try done; simpl.
  - destruct Hmv as (Hwf' & Hm & Hns & Hus & Hc & Hnew).
    assert (slots_map (jentry (j_overflows jp)) (j_data new) = ∅) as He.
    { apply map_eq. intros h. rewrite lookup_empty. apply slots_map_lookup_None; [by apply jentries_unique|].
      intros i x w ->%Hdn. done. }
    rewrite He, (right_id_L ∅ (∪)) in Hm.
    assert (j_maxSlots new' = j_maxSlots new) as Hmax.
    { rewrite (jwf_max _ Hwf'), (jwf_max _ Hwfn). congruence. }
    assert (∀ j t, j_data new' !! j = Some t → js_unused t = false → ∃ k s, j_data jp !! k = Some s ∧
      js_unused s = false ∧ js_hash s = js_hash t ∧ js_next s = js_next t) as Hold.
    { intros j t Ht Htu. destruct (Hnew j t Ht Htu) as [?|Hj]; [done|]. by apply Hdn in Hj as ->. }
    split_and!; [split; [by apply jtable_overflows|]|done|simpl; lia| |simpl; lia|done].
    + simpl. split; [| |by eapply jwo_len].
      * intros j t Ht Htu Htn. destruct (Hold j t Ht Htu) as (k & s & Hs & Hsu & _ & Hsn).
        rewrite <- Hsn in *. by eapply (jwo_next _ _ Ho).
      * intros j j' t t' Ht Ht' Htu Htu' Htn Htt.
        destruct (Hold j t Ht Htu) as (k & s & Hs & Hsu & Hsh & Hsn).
        destruct (Hold j' t' Ht' Htu') as (k' & s' & Hs' & Hsu' & Hsh' & Hsn').
        assert (k = k') as -> by (eapply (jwo_uniq _ _ Ho); eauto; congruence).
        eapply (jwf_uniq _ Hwf'); eauto. congruence.
    + simpl. unfold jused_count in *. lia.
  - destruct Hmv as (j & _ & Hj). by intros ->.
Qed.

(** ** JoinMap operations *)

(** [JoinMap::push] on every branch, for any pattern of allocation failures. *)
Lemma JoinMap_push_cases sp me jp :
  jwf jp → (j_numSlots jp ≤ max_slots)%Z → (Z.of_nat (length (j_overflows jp)) < UINT32_MAX)%Z →
  match JoinMap_push dV sp me jp with
  | (Ret r, jp') =>
      (∀ v, jwf (jwrite r v jp').2 ∧
            to_multimap (jwrite r v jp').2 = pushed (to_multimap jp) (jm_hash me) v) ∧
      jp' = (jwrite r dV jp').2 ∧
      (j_numSlots jp' = j_numSlots jp ∨
       j_numSlots jp' = (2 * j_numSlots jp)%Z ∧ (j_maxSlots jp ≤ j_usedSlots jp)%Z) ∧
      (j_usedSlots jp' ≤ j_usedSlots jp + 1)%Z ∧
      length (j_overflows jp') ≤ length (j_overflows jp) + 1
  | (NotEnoughSpace, jp') => sp ≠ jplenty ∧ jwf jp' ∧ to_multimap jp' = to_multimap jp
  | _ => False
  end.
Proof.
  intros Hjp Hn Hlen. unfold JoinMap_push. run.
  assert (∀ p, jwf p → to_multimap p = to_multimap jp → (j_usedSlots p < j_maxSlots p)%Z →
    j_overflows p = j_overflows jp →
    match jpush dV (jfits_head sp) (jfits_list sp) (jfits_elem sp) me p with
    | (Ret r, p') => push_post p (jm_hash me) p' r
    | (NotEnoughSpace, p') => sp ≠ jplenty ∧ jwf p' ∧ to_multimap p' = to_multimap jp
    | _ => False
    end) as Hins.
  { intros p Hp Hm Hlt Hov. destruct (jslot_dec p (jm_hash me)) as [(i & s & Hs & Hh)|Hno].
    - pose proof (jpush_hit (jfits_head sp) (jfits_list sp) (jfits_elem sp) p me i s Hp Hs Hh
        ltac:(by rewrite Hov)) as Hc.
      destruct (jpush _ _ _ _ _ _) as [[r| | |] p']; try done.
      destruct Hc as (Hf & ? & ?). split_and!; [by intros ->|done|congruence].
    - pose proof (jpush_miss (jfits_head sp) (jfits_list sp) (jfits_elem sp) p me Hp Hno Hlt) as Hc.
      destruct (jpush _ _ _ _ _ _) as [[r| | |] p']; try done.
      destruct Hc as (Hf & ->). split_and!; [by intros ->|done|done]. }
  unfold jisOverFull. destruct (Z.leb_spec (j_maxSlots jp) (j_usedSlots jp)) as [Hfull|Hroom]; run.
  - pose proof (jdoubleArray_spec sp jp Hjp Hn) as Hd. pose proof (jwf_used _ (proj1 Hjp)).
    destruct (jdoubleArray _ _ _) as [new| | |]; run; try done.
    destruct Hd as (Hwf' & Hm' & Hn' & Hu' & Hlt' & Ho'). specialize (Hins new Hwf' Hm' Hlt' Ho').
    destruct (jpush _ _ _ _ _ _) as [[r| | |] p']; try done.
    destruct Hins as (Hst & ? & ? & ? & ?). rewrite Hm', Ho' in *.
    split_and!; [done|done|right; split; [congruence|done]|lia|lia].
  - specialize (Hins jp Hjp eq_refl Hroom eq_refl).
    destruct (jpush _ _ _ _ _ _) as [[r| | |] p']; try done.
    destruct Hins as (? & ? & ? & ? & ?). split_and!; [done|done|by left|lia|lia].
Qed.

(** A sequence of [m.push(h) = v]. *)
Fixpoint JoinMap_store_all (hvs : list (Z * V)) : M (JoinPairArray V) unit :=
  match hvs with
  | [] => mret tt
  | (h, v) :: hvs' => JoinMap_store dV jplenty h v ;; JoinMap_store_all hvs'
  end.

(** The multimap a sequence of pushes describes. *)
Definition spec_pushes (mm : gmap Z (list V)) (hvs : list (Z * V)) : gmap Z (list V) :=
  foldl (λ m hv, pushed m (jm_hash hv.1) hv.2) mm hvs.

(** The growth bound after [n] pushes. *)
Definition jtight (n : Z) jp : Prop :=
  (j_numSlots jp ≤ Z.max 2 (4 * n))%Z ∧ (j_usedSlots jp ≤ n)%Z ∧
  (Z.of_nat (length (j_overflows jp)) ≤ n)%Z.

Lemma JoinMap_store_tight n h v jp :
  jwf jp → jtight n jp → (n < max_entries)%Z →
  ∃ jp', JoinMap_store dV jplenty h v jp = (Ret tt, jp') ∧ jwf jp' ∧ jtight (n + 1) jp' ∧
    to_multimap jp' = pushed (to_multimap jp) (jm_hash h) v.
Proof.
  intros Hjp (Ht1 & Ht2 & Ht3) Hn. pose proof (jwf_size _ (proj1 Hjp)).
  assert (j_numSlots jp ≤ max_slots)%Z as Hslots by slots_lia. pose proof (JoinMap_push_cases jplenty h jp Hjp Hslots ltac:(unfold UINT32_MAX; slots_lia)) as Hc.
  unfold JoinMap_store. rewrite M_bind_unfold.
  destruct (JoinMap_push _ _ _ _) as [[r| | |] p]; try done; [|by destruct Hc].
  destruct Hc as (Hw & _ & Hns & Hus & Hov). destruct (Hw v) as [Hwf' Hm'].
  assert (j_numSlots (jwrite r v p).2 = j_numSlots p ∧ j_usedSlots (jwrite r v p).2 = j_usedSlots p ∧
    length (j_overflows (jwrite r v p).2) = length (j_overflows p)) as (E1 & E2 & E3).
  { destruct r; simpl; split_and!; try done. apply length_alter. }
  exists (jwrite r v p).2. split; [done|]. split; [done|]. split; [|done].
  unfold jtight. rewrite E1, E2, E3. split_and!; [|lia|lia].
  destruct Hns as [->|[-> Hfull]]; [lia|].
  pose proof (fill_max_half (j_numSlots jp) ltac:(lia)). rewrite (jwf_max _ (proj1 Hjp)) in Hfull. lia.
Qed.

Lemma JoinMap_store_all_spec n hvs jp :
  jwf jp → jtight n jp → (n + Z.of_nat (length hvs) ≤ max_entries)%Z →
  ∃ jp', JoinMap_store_all hvs jp = (Ret tt, jp') ∧ jwf jp' ∧
    jtight (n + Z.of_nat (length hvs)) jp' ∧ to_multimap jp' = spec_pushes (to_multimap jp) hvs.
Proof.
  revert n jp. induction hvs as [|[h v] hvs IH]; intros n jp Hjp Ht Hn; simpl.
  { exists jp. rewrite Z.add_0_r. done. }
  simpl in Hn. destruct (JoinMap_store_tight n h v jp Hjp Ht ltac:(lia)) as (p & Hp & Hwf & Htp & Hm).
  destruct (IH (n + 1)%Z p Hwf Htp ltac:(lia)) as (p' & Hp' & Hwf' & Ht' & Hm').
  exists p'. rewrite M_bind_unfold, Hp. split_and!; [done|done| |].
  - by replace (n + Z.of_nat (S (length hvs)))%Z with (n + 1 + Z.of_nat (length hvs))%Z by lia.
  - rewrite Hm', Hm. done.
Qed.

Lemma JoinMap_default_spec :
  ∃ jp, JoinMap_default = Ret jp ∧ jwf (V:=V) jp ∧ jtight 0 jp ∧ to_multimap jp = ∅.
Proof.
  pose proof record_size_ok. destruct (JoinPairArray_new_wf 2 ltac:(lia) ltac:(word_lia)) as (jp & Hjp & Hwf & Hu & Hc & Hn & Hd).
  exists jp. split_and!; [done|done| |].
  - unfold jtight. rewrite Hn, Hu. split_and!; [lia|lia|]. 
    unfold JoinPairArray_new in Hjp. simpl in Hjp. destruct (_ <? _)%Z; [|done]. injection Hjp as <-. simpl. lia.
  - apply map_eq. intros h. rewrite lookup_empty.
    apply slots_map_lookup_None; [by apply jentries_unique, Hwf|]. by intros i x w ->%Hd.
Qed.

(** ** Lookup *)

(** The record list found for a hash is the list pushed under it. *)
Lemma jlookup_spec jp me :
  jwf jp →
  ∃ i, jlookup jp me = Ret i ∧
    rl_size jp i = Some (length (default [] (to_multimap jp !! jm_hash me))) ∧
    (∀ k v, default [] (to_multimap jp !! jm_hash me) !! k = Some v → rl_at jp i k = Some v) ∧
    jcount jp me = Ret (Z.of_nat (length (default [] (to_multimap jp !! jm_hash me)))).
Proof.
  intros [Hwf Ho]. unfold jlookup, jcount.
  destruct (jslot_dec jp (jm_hash me)) as [(i & s & Hs & Hh)|Hno].
  - assert (js_unused s = false) as Hu by (apply js_unused_false; rewrite Hh; apply jm_hash_used).
    destruct (jwf_entry _ Hwf _ _ Hs Hu) as [[v0 Hv] _].
    pose proof (jmap_present jp i s v0 Hwf Hs Hu Hv) as Hmm. rewrite Hh in Hmm.
    rewrite (jfind_hit jp me i s Hwf Hs Hh), Hmm. simpl.
    exists i. unfold rl_size, rl_at, overflow_of. rewrite Hs. simpl. rewrite Hu.
    destruct (Z.eqb_spec (js_next s) UINT32_MAX) as [Hn|Hn].
    + split_and!; [done|done| |done]. intros [|k] v Hk; simpl in *; [congruence|by rewrite lookup_nil in Hk].
    + pose proof (jwo_next _ _ Ho _ _ Hs Hu Hn).
      destruct (lookup_lt_is_Some_2 (j_overflows jp) (Z.to_nat (js_next s)) ltac:(lia)) as [l Hl].
      unfold overflow_at. rewrite Hl. simpl. split_and!; [done|f_equal; lia| |f_equal; lia].
      intros [|k] v Hk; simpl in *; congruence.
  - destruct (jfind_miss jp me Hwf Hno) as (i & s & Hf & Hs & Hu & _). rewrite Hf. simpl.
    assert (to_multimap jp !! jm_hash me = None) as -> by by apply jmap_absent.
    exists i. unfold rl_size. rewrite Hs. simpl. rewrite Hu. split_and!; done.
Qed.

(** ** Erasing *)

(** [setUnused] of a hash with at least two values drops the newest one. *)
Lemma jsetUnused_pop jp me v w l :
  jwf jp → to_multimap jp !! jm_hash me = Some (v :: w :: l) →
  ∃ jp', jsetUnused me jp = (Ret tt, jp') ∧ jwf jp' ∧
    to_multimap jp' = <[jm_hash me := take (S (length l)) (v :: w :: l)]> (to_multimap jp) ∧
    j_numSlots jp' = j_numSlots jp ∧ j_usedSlots jp' = j_usedSlots jp.
Proof.
  intros Hjp Hmm. pose proof Hjp as [Hwf Ho].
  apply slots_map_lookup in Hmm as (i & s & Hs & He); [|by apply jentries_unique].
  destruct (jentry_key _ _ _ _ He) as [Hh Hu].
  unfold jentry in He. rewrite Hu in He. destruct (js_value s) as [v0|] eqn:Hv; [|done].
  injection He as _ -> Hov. unfold overflow_of in Hov.
  destruct (Z.eqb_spec (js_next s) UINT32_MAX) as [Hn|Hn]; [done|].
  destruct (j_overflows jp !! Z.to_nat (js_next s)) as [ov|] eqn:Hl; [|done]. simpl in Hov. subst ov.
  unfold jsetUnused. rewrite (jfind_hit jp me i s Hwf Hs Hh), Hs.
  rewrite (proj2 (Z.eqb_neq _ _) Hn), Hl.
  destruct (overflow_change jp i s v (take (length (w :: l) - 1) (w :: l)) Hjp Hs Hu Hn Hv) as [? Hm].
  eexists. split; [done|]. split; [done|]. split; [|done].
  etrans; [exact Hm|]. rewrite Hh. simpl. by rewrite Nat.sub_0_r.
Qed.

Lemma to_multimap_nonempty jp h l : jwf jp → to_multimap jp !! h = Some l → l ≠ [].
Proof.
  intros Hjp Hl. apply slots_map_lookup in Hl as (i & s & _ & He); [|by apply jentries_unique, Hjp].
  unfold jentry in He. destruct (js_unused s), (js_value s); simplify_eq; done.
Qed.

(** [setUnused] of a hash that had a value before the newest one. *)
Lemma jsetUnused_newest me v l (mm : gmap Z (list V)) jp1 :
  jwf jp1 → mm !! jm_hash me = Some l → l ≠ [] → to_multimap jp1 = pushed mm (jm_hash me) v →
  ∃ jp2, jsetUnused me jp1 = (Ret tt, jp2) ∧ jwf jp2 ∧ to_multimap jp2 = mm.
Proof.
  intros Hwf1 Hl Hne Hm1. destruct l as [|v0 l]; [done|].
  assert (∃ w l', l ++ [v] = w :: l') as (w & l' & Heq) by (destruct l; simpl; eauto).
  unfold pushed in Hm1. rewrite Hl in Hm1. simpl in Hm1. rewrite Heq in Hm1.
  destruct (jsetUnused_pop jp1 me v0 w l' Hwf1) as (jp2 & H2 & Hwf2 & Hm2 & _).
  { rewrite Hm1. by rewrite lookup_insert_eq. }
  exists jp2. split_and!; [done|done|]. rewrite Hm2, Hm1, insert_insert_eq.
  replace (take (S (length l')) (v0 :: w :: l')) with (v0 :: l); [by apply insert_id|].
  simpl. f_equal. rewrite <- Heq. apply (f_equal length) in Heq. rewrite length_app in Heq. simpl in Heq.
  replace (length l') with (length l) by lia. by rewrite take_app_length.
Qed.

(** ** Iteration *)

#[local] Instance ji_le_trans : Transitive ji_le.
Proof. intros a b c. unfold ji_le. lia. Qed.

#[local] Instance ji_le_total : Total ji_le.
Proof. intros a b. unfold ji_le. lia. Qed.

Lemma elem_of_used_slots k h i d :
  (k, h) ∈ used_slots (V:=V) i d ↔
    ∃ j s, d !! j = Some s ∧ js_unused s = false ∧ k = i + j ∧ h = js_hash s.
Proof.
  revert i. induction d as [|s d IH]; intros i; simpl.
  { split; [by intros ?%elem_of_nil|by intros (j & s & ? & _)]. }
  assert ((∃ j t, (s :: d) !! j = Some t ∧ js_unused t = false ∧ k = i + j ∧ h = js_hash t) ↔
    (js_unused s = false ∧ k = i ∧ h = js_hash s) ∨
    ∃ j t, d !! j = Some t ∧ js_unused t = false ∧ k = S i + j ∧ h = js_hash t) as ->.
  { split.
    - intros ([|j] & t & Ht & Hu & -> & ->); simpl in Ht.
      + injection Ht as ->. left. split_and!; [done|lia|done].
      + right. exists j, t. split_and!; [done|done|lia|done].
    - intros [(Hu & -> & ->)|(j & t & Ht & Hu & -> & ->)].
      + exists 0, s. split_and!; [done|done|lia|done].
      + exists (S j), t. split_and!; [done|done|lia|done]. }
  destruct (js_unused s); rewrite ?elem_of_cons, IH; naive_solver.
Qed.

Lemma length_used_slots i d : length (used_slots (V:=V) i d) ≤ length d.
Proof. revert i. induction d as [|s d IH]; intros i; simpl; [done|]. destruct (js_unused s); simpl; specialize (IH (S i)); lia. Qed.

(** The loop from position [pos] visits the rest of the order. *)
Lemma jiterate_from jp order n pos :
  (∀ i h, (i, h) ∈ order → js_hash <$> j_data jp !! i = Some h) →
  pos ≤ length order → length order - pos < n →
  jiterate jp n (JIterator order pos (bool_decide (pos = length order))) = Some (drop pos order).*2.
Proof.
  intros Hord. revert pos. induction n as [|n IH]; intros pos Hp Hn; [lia|]. simpl.
  unfold jiter_ne, jiter_end. simpl. rewrite orb_false_r.
  case_bool_decide as Hd; simpl.
  { rewrite drop_ge by lia. done. }
  destruct (lookup_lt_is_Some_2 order pos ltac:(lia)) as [[i h] Hi].
  unfold jiter_getHash, jiter_deref. simpl. rewrite Hi. simpl.
  rewrite (Hord i h) by by eapply list_elem_of_lookup_2. simpl.
  unfold jiter_next. simpl.
  rewrite IH by lia. simpl. by rewrite (drop_S _ _ _ Hi).
Qed.

Lemma jiter_begin_order jp i h :
  (i, h) ∈ merge_sort ji_le (used_slots 0 (j_data jp)) →
  ∃ s, j_data jp !! i = Some s ∧ js_unused s = false ∧ h = js_hash s.
Proof.
  rewrite merge_sort_Permutation. intros (j & s & Hs & Hu & -> & ->)%elem_of_used_slots. eauto.
Qed.

Lemma jused_slots_NoDup jp :
  jwf_table jp → NoDup (used_slots 0 (j_data jp)).*2.
Proof.
  intros Hwf. 
  assert (∀ d i, (∀ j j' s t, d !! j = Some s → d !! j' = Some t → js_unused s = false →
    js_hash s = js_hash t → j = j') → NoDup (used_slots (V:=V) i d).*2) as H.
  { intros d. induction d as [|s d IH]; intros i Hu; simpl; [constructor|].
    assert (NoDup (used_slots (S i) d).*2) as Htl.
    { apply IH. intros j j' t t' Ht Ht' Hut Hh. by injection (Hu (S j) (S j') t t' Ht Ht' Hut Hh). }
    destruct (js_unused s) eqn:Hs; [done|]. simpl. constructor; [|done].
    intros ([k h] & Hh & (j & t & Ht & _ & _ & ->)%elem_of_used_slots)%list_elem_of_fmap.
    by specialize (Hu 0 (S j) s t eq_refl Ht Hs Hh). }
  apply H. intros. by eapply (jwf_uniq _ Hwf).
Qed.

Lemma ji_sorted_lt (l : list (nat * Z)) :
  StronglySorted ji_le l → NoDup l.*2 → StronglySorted Z.lt l.*2.
Proof.
  induction 1 as [|[i h] l _ IH Hall]; intros Hnd; simpl in *; [constructor|].
  apply NoDup_cons in Hnd as [Hn Hnd]. constructor; [by apply IH|].
  apply Forall_forall. intros h' ([j h''] & -> & Hin)%list_elem_of_fmap.
  rewrite Forall_forall in Hall. specialize (Hall _ Hin). unfold ji_le in Hall. simpl in *.
  assert (h ≠ h''); [|lia]. intros ->. apply Hn, list_elem_of_fmap. by exists (j, h'').
Qed.

Lemma jmap_keys jp h :
  jwf jp → is_Some (to_multimap jp !! h) ↔
    ∃ i s, j_data jp !! i = Some s ∧ js_unused s = false ∧ h = js_hash s.
Proof.
  intros [Hwf Ho]. split.
  - intros [l Hl]. apply slots_map_lookup in Hl as (i & s & Hs & He); [|by apply jentries_unique].
    destruct (jentry_key _ _ _ _ He) as [<- Hu]. eauto.
  - intros (i & s & Hs & Hu & ->). destruct (jwf_entry _ Hwf _ _ Hs Hu) as [[v Hv] _].
    eexists. by eapply jmap_present.
Qed.

(** Advancing by [n] with [operator+] is [n] increments, and dereferences to
    the same slot. *)
Lemma jiter_next_plus (it : jiterator) n :
  ji_done it = bool_decide (ji_pos it = length (ji_order it)) → ji_pos it ≤ length (ji_order it) →
  Nat.iter n jiter_next it = jiter_plus it n.
Proof.
  destruct it as [o p d]. simpl. intros -> Hp. revert p Hp. induction n as [|n IH]; intros p Hp.
  - unfold jiter_plus. simpl. rewrite Nat.add_0_r. destruct (decide _); [|done].
    assert (p = length o) as -> by lia. by rewrite bool_decide_true.
  - rewrite Nat.iter_succ_r. unfold jiter_next at 2. simpl.
    case_bool_decide as Hd.
    + subst p. specialize (IH (length o) ltac:(done)). rewrite bool_decide_true in IH by done.
      simpl. rewrite IH. unfold jiter_plus. simpl. by rewrite !decide_True by lia.
    + simpl. rewrite IH by lia. unfold jiter_plus. simpl.
      replace (S (p + n)) with (p + S n) by lia. destruct (decide _); [done|].
      by rewrite !bool_decide_false by lia.
Qed.

(** ** Properties *)

(** The values a list of pushes puts under the hash of [h], oldest first. *)
Definition values_under (h : Z) (hvs : list (Z * V)) : list V :=
  (filter (λ hv, jm_hash hv.1 = jm_hash h) hvs).*2.

Lemma spec_pushes_lookup h hvs (mm : gmap Z (list V)) :
  default [] (spec_pushes mm hvs !! jm_hash h) = default [] (mm !! jm_hash h) ++ values_under h hvs.
Proof.
  revert mm. induction hvs as [|[h' v] hvs IH]; intros mm; unfold values_under; simpl.
  { by rewrite app_nil_r. }
  unfold spec_pushes in *. simpl. rewrite IH. unfold pushed. rewrite filter_cons. simpl.
  destruct (decide (jm_hash h' = jm_hash h)) as [->|Hne].
  - rewrite lookup_insert_eq. simpl. by rewrite <- app_assoc.
  - by rewrite lookup_insert_ne by done.
Qed.

(** [C27] Building a hash-join table: pushing a list of at most [max_entries] (hash,
    value) pairs into a new [JoinMap] succeeds while memory lasts, and afterwards
    the record list looked up for a hash holds exactly the values pushed under it,
    in the order of the pushes; [count] is their number.  Up to the bound the bytes
    of a doubled table are counted in 32 bits without overflow
    ([jdoubleArray_overruns]). *)
Theorem JoinMap_build_lookup (hvs : list (Z * V)) :
  (Z.of_nat (length hvs) ≤ max_entries)%Z →
  ∃ m0 m, JoinMap_default = Ret m0 ∧ JoinMap_store_all hvs m0 = (Ret tt, m) ∧
    ∀ h, JoinMap_count m h = Ret (Z.of_nat (length (values_under h hvs))) ∧
      ∃ i, JoinMap_lookup m h = Ret i ∧
        rl_size m i = Some (length (values_under h hvs)) ∧
        ∀ k v, values_under h hvs !! k = Some v → rl_at m i k = Some v.
Proof.
  intros Hn. destruct JoinMap_default_spec as (m0 & Hm0 & Hwf0 & Ht0 & He).
  destruct (JoinMap_store_all_spec 0 hvs m0 Hwf0 Ht0 Hn) as (m & Hm & Hwf & _ & Hmm).
  exists m0, m. split_and!; [done|done|]. intros h.
  destruct (jlookup_spec m h Hwf) as (i & Hi & Hsz & Hat & Hc).
  pose proof (spec_pushes_lookup h hvs ∅) as Hv. rewrite lookup_empty in Hv. simpl in Hv.
  rewrite Hmm, He, Hv in *. split; [done|]. by exists i.
Qed.

(** [JoinMap::push] for any pattern of allocation failures, rehashing
    included: the value written through the returned reference is the newest
    one under its hash and no other list changes; and when an allocation
    throws, the multimap is what it was before the call, so that the push can
    be repeated on a new block. *)
Theorem JoinMap_push_spec (sp : jspace) (me : Z) (jp : JoinPairArray V) :
  jwf jp → (j_numSlots jp ≤ max_slots)%Z → (Z.of_nat (length (j_overflows jp)) < UINT32_MAX)%Z →
  match JoinMap_push dV sp me jp with
  | (Ret r, jp') => ∀ v, jwf (jwrite r v jp').2 ∧
      to_multimap (jwrite r v jp').2 = pushed (to_multimap jp) (jm_hash me) v
  | (NotEnoughSpace, jp') => sp ≠ jplenty ∧ jwf jp' ∧ to_multimap jp' = to_multimap jp
  | _ => False
  end.
Proof.
  intros Hjp Hn Hlen. pose proof (JoinMap_push_cases sp me jp Hjp Hn Hlen) as Hc.
  destruct (JoinMap_push _ _ _ _) as [[r| | |] jp']; try done. by destruct Hc.
Qed.

(** [setUnused] undoes the newest [push] of a hash that already had a
    value. *)
Theorem setUnused_undoes_push (me : Z) (v : V) (jp jp1 : JoinPairArray V) :
  jwf jp → (j_numSlots jp ≤ max_slots)%Z → (Z.of_nat (length (j_overflows jp)) < UINT32_MAX)%Z →
  is_Some (to_multimap jp !! jm_hash me) →
  JoinMap_store dV jplenty me v jp = (Ret tt, jp1) →
  ∃ jp2, JoinMap_setUnused me jp1 = (Ret tt, jp2) ∧ jwf jp2 ∧ to_multimap jp2 = to_multimap jp.
Proof.
  intros Hjp Hn Hlen [l Hl] Hst. pose proof (JoinMap_push_cases jplenty me jp Hjp Hn Hlen) as Hc.
  unfold JoinMap_store in Hst. rewrite M_bind_unfold in Hst.
  destruct (JoinMap_push _ _ _ _) as [[r| | |] p]; try done.
  destruct Hc as (Hw & _). destruct (Hw v) as [Hwf1 Hm1].
  assert ((jwrite r v p).2 = jp1) as Hjp1 by by injection Hst. rewrite Hjp1 in *.
  exact (jsetUnused_newest me v l _ jp1 Hwf1 Hl (to_multimap_nonempty jp _ l Hjp Hl) Hm1).
Qed.

(** Iterating over a [JoinMap] visits every hash with values exactly
    once, in increasing order, and the loop ends. *)
Theorem jiterate_sorted (jp : JoinPairArray V) :
  jwf jp →
  ∃ hs, jiterate jp (S (length (j_data jp))) (jiter_begin jp) = Some hs ∧
    StronglySorted Z.lt hs ∧ ∀ h, h ∈ hs ↔ is_Some (to_multimap jp !! h).
Proof.
  intros Hjp. set (order := merge_sort ji_le (used_slots 0 (j_data jp))).
  pose proof (merge_sort_Permutation ji_le (used_slots 0 (j_data jp))) as Hp. fold order in Hp.
  exists order.*2. split_and!.
  - unfold jiter_begin. fold order.
    replace (bool_decide (order = [])) with (bool_decide (0 = length order)).
    2:{ apply bool_decide_ext. destruct order; naive_solver. }
    rewrite jiterate_from; [by rewrite drop_0|..|lia|].
    + intros i h (s & -> & _ & ->)%jiter_begin_order. done.
    + rewrite Hp. pose proof (length_used_slots 0 (j_data jp)). lia.
  - apply ji_sorted_lt; [apply StronglySorted_merge_sort; apply _|].
    rewrite Hp. by apply jused_slots_NoDup, Hjp.
  - intros h. rewrite jmap_keys by done. rewrite Hp. split.
    + intros ([i h'] & -> & (j & s & Hs & Hu & _ & ->)%elem_of_used_slots)%list_elem_of_fmap. eauto.
    + intros (i & s & Hs & Hu & ->). apply list_elem_of_fmap. exists (i, js_hash s).
      split; [done|]. apply elem_of_used_slots. by exists i, s.
Qed.
End facts.

(** ** Witnesses *)

Local Existing Instance small_slots.

(** A table with two values under the hash 7 and one under 9. *)
Definition jdemo : JoinPairArray Z :=
  match JoinMap_default with
  | Ret m => (JoinMap_store_all 0%Z [(7, 70); (9, 90); (7, 71)]%Z m).2
  | _ => MkJoinPairArray 0 0 0 [] []
  end.

Lemma jdemo_wf : jwf jdemo ∧ jtight 3 jdemo.
Proof.
  destruct (JoinMap_default_spec (V:=Z)) as (m0 & Hm0 & Hwf0 & Ht0 & _).
  destruct (JoinMap_store_all_spec 0%Z 0 [(7, 70); (9, 90); (7, 71)]%Z m0 Hwf0 Ht0)
    as (m & Hm & Hwf & Ht & _); [done|].
  unfold jdemo. rewrite Hm0, Hm. by split.
Qed.

Lemma JoinMap_build_lookup_witness :
  ∃ m0 m, JoinMap_default = Ret m0 ∧
    JoinMap_store_all 0%Z [(7, 70); (9, 90); (7, 71)]%Z m0 = (Ret tt, m) ∧
    JoinMap_count m 7 = Ret 2%Z.
Proof.
  destruct (JoinMap_build_lookup 0%Z [(7, 70); (9, 90); (7, 71)]%Z) as (m0 & m & H0 & Hm & Hl).
  { done. }
  exists m0, m. split; [exact H0|]. split; [exact Hm|]. exact (proj1 (Hl 7%Z)).
Defined.

Lemma jdemo_room : (j_numSlots jdemo ≤ max_slots)%Z ∧
  (Z.of_nat (length (j_overflows jdemo)) < UINT32_MAX)%Z.
Proof.
  destruct jdemo_wf as [_ (H1 & _ & H3)]. split; [change max_slots with 134217727%Z; lia|]. unfold UINT32_MAX. lia.
Qed.

Lemma JoinMap_push_spec_witness :
  match JoinMap_push 0%Z jplenty 7 jdemo with
  | (Ret r, jp') => ∀ v, jwf (jwrite r v jp').2 ∧
      to_multimap (jwrite r v jp').2 = pushed (to_multimap jdemo) (jm_hash 7) v
  | (NotEnoughSpace, jp') => jplenty ≠ jplenty ∧ jwf jp' ∧ to_multimap jp' = to_multimap jdemo
  | _ => False
  end.
Proof.
  exact (JoinMap_push_spec 0%Z jplenty 7 jdemo (proj1 jdemo_wf) (proj1 jdemo_room) (proj2 jdemo_room)).
Defined.

Lemma setUnused_undoes_push_witness :
  ∃ jp2, JoinMap_setUnused 7 (JoinMap_store 0%Z jplenty 7 72%Z jdemo).2 = (Ret tt, jp2) ∧ jwf jp2 ∧
    to_multimap jp2 = to_multimap jdemo.
Proof.
  apply (setUnused_undoes_push 0%Z 7 72%Z jdemo (JoinMap_store 0%Z jplenty 7 72%Z jdemo).2).
  - apply jdemo_wf.
  - apply jdemo_room.
  - apply jdemo_room.
  - vm_compute. eauto.
  - vm_compute. reflexivity.
Defined.

Lemma jiterate_sorted_witness :
  ∃ hs, jiterate jdemo (S (length (j_data jdemo))) (jiter_begin jdemo) = Some hs ∧
    StronglySorted Z.lt hs ∧ ∀ h, h ∈ hs ↔ is_Some (to_multimap jdemo !! h).
Proof. apply (jiterate_sorted jdemo), jdemo_wf. Defined.

(** The bytes of a doubled table are counted in 32 bits here too. *)
Lemma jdoubleArray_overruns {RS : RecordSize} {V} (dV : V) (sp : jspace) (jp : JoinPairArray V) :
  jfits_array sp = true → (u32_modulus ≤ record_size * u32 (j_numSlots jp * 2))%Z → jdoubleArray dV sp jp = Undefined.
Proof.
  intros Hfits Hbytes. unfold jdoubleArray. rewrite Hfits, (proj2 (Z.ltb_lt _ _)); [done|].
  pose proof (Z.mod_pos_bound (record_size * u32 (j_numSlots jp * 2)) u32_modulus ltac:(done)). unfold u32 at 1. lia.
Qed.
