(* ===== verification/JoinMapPush.v ===== *)
(** * JoinMapPush: a push and what may follow it

    Lemmas on [JoinMap::push] for its callers: the reference it returns can be
    read and written ([jread], [jwrite]), a [setUnused] after it takes it back
    whether or not the hash was new, and it only fails for a present hash when
    the table or an overflow list cannot grow ([steady_push]). *)

From S2P Require Import Prelude.
From S2P Require Import HashProbe.
From S2P Require Import PairArray.
From S2P Require Import JoinPairArray.

Lemma omap_insert_None {A B} (f : A → option B) (l : list A) i x y :
  l !! i = Some x → f x = None → f y = None → omap f (<[i := y]> l) = omap f l.
Proof.
  intros Hx Hfx Hfy. revert i Hx. induction l as [|a l IH]; intros [|i] Hx; simplify_eq/=; [by rewrite Hfx, Hfy|].
  destruct (f a); [f_equal|]; by apply IH.
Qed.

Section push.
Context {RS : RecordSize} {V : Type} (dV : V).
Implicit Types (jp : JoinPairArray V) (r : jref) (v : V).

(** A reference to a value that is there. *)
Definition jref_ok jp r : Prop := is_Some (jread jp r).

Lemma jwrite_alters jp r v : (jwrite r v jp).1 = Ret tt.
Proof. done. Qed.

Lemma jread_jwrite jp r v : jref_ok jp r → jread (jwrite r v jp).2 r = Some v.
Proof.
  intros [w Hw]. destruct r as [i|n j]; simpl in *.
  - destruct (j_data jp !! i) as [s|] eqn:Hs; [|done]. rewrite list_lookup_alter_eq, Hs. done.
  - destruct (j_overflows jp !! n) as [l|] eqn:Hl; [|done]. rewrite list_lookup_alter_eq, Hl. simpl in *.
    apply list_lookup_insert_eq. by eapply lookup_lt_Some.
Qed.

Lemma jwrite_jwrite jp r v w : jwrite r v (jwrite r w jp).2 = jwrite r v jp.
Proof.
  destruct r as [i|n j]; unfold jwrite, modify; simpl; f_equal; [unfold jset_data|unfold jset_overflows]; simpl; f_equal;
    rewrite list_alter_alter_eq; apply list_alter_ext; try done. intros l Hl. simpl. apply list_insert_insert_eq.
Qed.

Lemma jwrite_same jp r v : jread jp r = Some v → (jwrite r v jp).2 = jp.
Proof.
  intros Hr. destruct jp as [u n x o d]. destruct r as [i|k j]; simpl in *; unfold jset_data, jset_overflows; simpl; f_equal.
  - destruct (d !! i) as [s|] eqn:Hs; [|done]. simpl in Hr. rewrite (list_alter_insert_lookup _ _ _ _ Hs). apply list_insert_id.
    rewrite Hs. destruct s; simpl in *. by subst.
  - destruct (o !! k) as [l|] eqn:Hl; [|done]. simpl in Hr. rewrite (list_alter_insert_lookup _ _ _ _ Hl). apply list_insert_id.
    rewrite Hl. by rewrite list_insert_id.
Qed.

Lemma jref_ok_jwrite jp r v : jref_ok jp r → jref_ok (jwrite r v jp).2 r.
Proof. intros Hr. unfold jref_ok. by rewrite jread_jwrite. Qed.

(** ** The table part *)

Lemma jpush_ref fh fl fe me jp r p :
  jwf_table jp → jpush dV fh fl fe me jp = (Ret r, p) → jref_ok p r.
Proof.
  intros Hwf. destruct (jslot_dec jp (jm_hash me)) as [(i & s & Hs & Hh)|Hno].
  - unfold jpush. rewrite (jfind_hit jp me i s Hwf Hs Hh), Hs.
    assert (∀ n q, push_overflow dV fe n q = (Ret r, p) → jref_ok p r) as Ho.
    { intros n q. unfold push_overflow. destruct (j_overflows q !! n) as [l|] eqn:Hl; [|done]. destruct fe; [|done].
      intros [= <- <-]. unfold jref_ok. simpl. rewrite list_lookup_insert_eq by (by eapply lookup_lt_Some). simpl.
      by rewrite list_lookup_middle. }
    destruct (js_next s =? UINT32_MAX)%Z; [|by apply Ho]. destruct fl; [by apply Ho|done].
  - destruct (jfind_miss jp me Hwf Hno) as (i & s & Hf & Hs & _). unfold jpush. rewrite Hf. destruct fh; [|done].
    intros [= <- <-]. unfold jref_ok. simpl. by rewrite list_lookup_insert_eq by (by eapply lookup_lt_Some).
Qed.

(** An unused slot may as well be marked unused again. *)
Lemma jwf_mark jp i s n :
  jwf jp → j_data jp !! i = Some s → js_unused s = true → (j_usedSlots jp ≤ n ≤ j_maxSlots jp)%Z →
  let jp' := jset_used (jset_data jp (<[i := JSlot JM_UNUSED UINT32_MAX None]> (j_data jp))) n in
  jwf jp' ∧ to_multimap jp' = to_multimap jp.
Proof.
  intros [Hwf Ho] Hs Hu Hn jp'. set (t := JSlot JM_UNUSED UINT32_MAX None : jslot V). assert (js_unused t = true) as Hut by done.
  assert (∀ j x, j_data jp' !! j = Some x → js_unused x = false → j_data jp !! j = Some x) as Hold.
  { intros j x Hx Hxu. apply lookup_insert_cases in Hx as [(-> & <- & _)|[_ Hx]]; [discriminate Hxu|done]. }
  split; [split|].
  - assert (jused_count jp' = jused_count jp) as Hc.
    { unfold jused_count. pose proof (filter_insert_length js_unused (j_data jp) i t s Hs) as Hf. rewrite Hu, Hut in Hf. simpl. fold t. lia. }
    pose proof (jwf_used _ Hwf). split; simpl.
    + rewrite length_insert. by apply jwf_len.
    + by apply jwf_size.
    + by apply jwf_max.
    + rewrite Hc. lia.
    + intros j x Hx Hxu. destruct (jwf_entry _ Hwf _ _ (Hold j x Hx Hxu) Hxu) as [? Hr]. split; [done|].
      apply (reachable_ext js_unused (j_data jp)); [apply length_insert| |done]. intros k. destruct (decide (k = i)) as [->|Hne].
      * rewrite list_lookup_insert_eq by (by eapply lookup_lt_Some). rewrite Hs. simpl. by rewrite Hu.
      * by rewrite list_lookup_insert_ne.
    + intros j k x y Hx Hy Hxu Hxy. assert (js_unused y = false) as Hyu by (unfold js_unused in *; congruence).
      by eapply (jwf_uniq _ Hwf); [apply Hold|apply Hold|..].
  - split; simpl.
    + intros j x Hx Hxu. by eapply (jwo_next _ _ Ho); [apply Hold|].
    + intros j k x y Hx Hy Hxu Hyu. by eapply (jwo_uniq _ _ Ho); [apply Hold|apply Hold|..].
    + by eapply jwo_len.
  - unfold to_multimap, slots_map. simpl. f_equal. apply omap_insert_None with s; [done| |done]. unfold jentry. by rewrite Hu.
Qed.

(** ** Taking a push back *)

(** [setUnused] of a hash that is not there. *)
Lemma jsetUnused_absent jp me :
  jwf jp → to_multimap jp !! jm_hash me = None → jsetUnused me jp = (Ret tt, jp).
Proof.
  intros [Hwf Ho] Hmm. destruct (jslot_dec jp (jm_hash me)) as [(i & s & Hs & Hh)|Hno].
  - assert (js_unused s = false) as Hu by (apply js_unused_false; rewrite Hh; apply jm_hash_used).
    destruct (jwf_entry _ Hwf _ _ Hs Hu) as [[v Hv] _]. pose proof (jmap_present jp i s v Hwf Hs Hu Hv) as Hp. congruence.
  - destruct (jfind_miss jp me Hwf Hno) as (i & s & Hf & _). unfold jsetUnused. by rewrite Hf.
Qed.

Lemma absent_slot jp h : jwf jp → to_multimap jp !! h = None → ∀ i s, j_data jp !! i = Some s → js_hash s ≠ h ∨ js_unused s = true.
Proof.
  intros [Hwf Ho] Hmm i s Hs. destruct (js_unused s) eqn:Hu; [by right|left]. intros <-.
  destruct (jwf_entry _ Hwf _ _ Hs Hu) as [[v Hv] _]. by rewrite (jmap_present jp i s v Hwf Hs Hu Hv) in Hmm.
Qed.

(** [setUnused] right after the push of a new hash. *)
Lemma jpush_new_undo fh fl fe me jp r p v :
  jwf jp → (j_usedSlots jp < j_maxSlots jp)%Z → to_multimap jp !! jm_hash me = None → jpush dV fh fl fe me jp = (Ret r, p) →
  ∃ p', jsetUnused me (jwrite r v p).2 = (Ret tt, p') ∧ jwf p' ∧ to_multimap p' = to_multimap jp.
Proof.
  intros Hjp Hlt Hmm Hrun.
  assert (∀ i s, j_data jp !! i = Some s → js_hash s ≠ jm_hash me) as Hno.
  { intros i s Hs. destruct (absent_slot jp _ Hjp Hmm i s Hs) as [|Hu]; [done|].
    intros Heq. apply Z.eqb_eq in Hu. rewrite Heq in Hu. by apply jm_hash_used in Hu. }
  destruct (jpush_raw dV jp me (proj1 Hjp) Hno Hlt) as (i & s & Hs & Hu & Hr & Hraw). rewrite Hraw in Hrun. destruct fh; [|done].
  injection Hrun as <- <-. pose proof (lookup_lt_Some _ _ _ Hs) as Hi. simpl. unfold modify. simpl.
  set (t := JSlot (jm_hash me) UINT32_MAX (Some v)).
  assert (alter (λ s, JSlot (js_hash s) (js_next s) (Some v)) i (<[i := JSlot (jm_hash me) UINT32_MAX (Some dV)]> (j_data jp)) =
    <[i := t]> (j_data jp)) as ->.
  { rewrite (list_alter_insert_lookup _ _ _ _ (list_lookup_insert_eq _ _ _ Hi)). by rewrite list_insert_insert_eq. }
  pose proof (jwf_used _ (proj1 Hjp)).
  destruct (jtable_fill jp i s t (j_usedSlots jp + 1) (proj1 Hjp) Hs Hu) as [Hwf' _]; [by apply js_unused_false, jm_hash_used|by eexists|done|done|lia|].
  assert (jset_data (jset_used (jset_data jp (<[i := JSlot (jm_hash me) UINT32_MAX (Some dV)]> (j_data jp))) (j_usedSlots jp + 1)) (<[i := t]> (j_data jp)) =
    jset_used (jset_data jp (<[i := t]> (j_data jp))) (j_usedSlots jp + 1)) as -> by done.
  unfold jsetUnused. rewrite (jfind_hit _ me i t Hwf'); [|simpl; by apply list_lookup_insert_eq|done].
  simpl. rewrite list_lookup_insert_eq by done. eexists. split; [done|].
  pose proof (jwf_mark jp i s (j_usedSlots jp + 1) Hjp Hs Hu ltac:(lia)) as Hm. cbv zeta in Hm.
  unfold jset_data, jset_used in *. simpl in *. by rewrite list_insert_insert_eq.
Qed.

(** [setUnused] right after any push, whatever was written through the reference. *)
Lemma JoinMap_push_undo sp me jp r p v :
  jwf jp → (j_numSlots jp ≤ max_slots)%Z → (Z.of_nat (length (j_overflows jp)) < UINT32_MAX)%Z →
  JoinMap_push dV sp me jp = (Ret r, p) →
  ∃ p', JoinMap_setUnused me (jwrite r v p).2 = (Ret tt, p') ∧ jwf p' ∧ to_multimap p' = to_multimap jp.
Proof.
  intros Hjp Hn Hlen Hrun. pose proof (JoinMap_push_cases dV sp me jp Hjp Hn Hlen) as Hc. rewrite Hrun in Hc. destruct Hc as (Hw & _).
  destruct (to_multimap jp !! jm_hash me) as [l|] eqn:Hl.
  - destruct (Hw v) as [Hwf1 Hm1]. exact (jsetUnused_newest me v l _ _ Hwf1 Hl (to_multimap_nonempty jp _ l Hjp Hl) Hm1).
  - unfold JoinMap_push in Hrun. apply M_bind_inv in Hrun as (j0 & j1 & [= <- <-] & Hrun). revert Hrun. unfold jisOverFull.
    destruct (Z.leb_spec (j_maxSlots jp) (j_usedSlots jp)) as [Hfull|Hroom]; run.
    + pose proof (jdoubleArray_spec dV sp jp Hjp Hn) as Hd. destruct (jdoubleArray _ _ _) as [new| | |]; run; try done.
      destruct Hd as (Hwf' & Hm' & _ & _ & Hlt' & _). rewrite <- Hm' in *. intros Hrun. by eapply jpush_new_undo.
    + intros Hrun. by eapply jpush_new_undo.
Qed.

(** The table and the overflow lists can grow; only a new entry may not fit. *)
Definition steady_push (sp : jspace) : Prop := sp = JSpace true (λ _, true) (jfits_head sp) true true.

Lemma JoinMap_push_steady sp me jp p :
  jwf jp → (j_numSlots jp ≤ max_slots)%Z → (Z.of_nat (length (j_overflows jp)) < UINT32_MAX)%Z → steady_push sp →
  JoinMap_push dV sp me jp = (NotEnoughSpace, p) → to_multimap jp !! jm_hash me = None.
Proof.
  intros Hjp Hn Hlen Hsp. rewrite Hsp. unfold JoinMap_push. intros Hrun.
  assert (∀ q, jwf q → to_multimap q = to_multimap jp → j_overflows q = j_overflows jp →
    jpush dV (jfits_head sp) true true me q = (NotEnoughSpace, p) → to_multimap jp !! jm_hash me = None) as Hpush.
  { intros q Hq Hm Hov Hp. destruct (jslot_dec q (jm_hash me)) as [(i & s & Hs & Hh)|Hno].
    - pose proof (jpush_hit dV (jfits_head sp) true true q me i s Hq Hs Hh ltac:(by rewrite Hov)) as Hc.
      rewrite Hp in Hc. by destruct Hc.
    - rewrite <- Hm. apply jmap_absent; [apply Hq|done]. }
  revert Hrun. run. destruct (jisOverFull jp); run; [|by apply Hpush].
  pose proof (jdoubleArray_spec dV jplenty jp Hjp Hn) as Hd.
  change (jdoubleArray dV (JSpace true (λ _, true) (jfits_head sp) true true) jp) with (jdoubleArray dV jplenty jp).
  destruct (jdoubleArray dV jplenty jp) as [new| | |]; run; try done. destruct Hd as (Hwf & Hm & _ & _ & _ & Hov).
  by apply Hpush.
Qed.

(** All a caller may rely on.  [n] bounds the number of pushes so far. *)
Lemma JoinMap_push_facts sp me jp n :
  jwf jp → jtight n jp → (n < max_entries)%Z →
  match JoinMap_push dV sp me jp with
  | (Ret r, p) => jread p r = Some dV ∧ ∀ v, jwf (jwrite r v p).2 ∧ jtight (n + 1) (jwrite r v p).2 ∧
      to_multimap (jwrite r v p).2 = pushed (to_multimap jp) (jm_hash me) v ∧
      ∃ p', JoinMap_setUnused me (jwrite r v p).2 = (Ret tt, p') ∧ jwf p' ∧ to_multimap p' = to_multimap jp
  | (NotEnoughSpace, p) => sp ≠ jplenty ∧ jwf p ∧ to_multimap p = to_multimap jp ∧
      (steady_push sp → to_multimap jp !! jm_hash me = None)
  | _ => False
  end.
Proof.
  intros Hjp (Ht1 & Ht2 & Ht3) Hn. pose proof (jwf_size _ (proj1 Hjp)).
  assert (j_numSlots jp ≤ max_slots)%Z as Hsize by slots_lia.
  assert (Z.of_nat (length (j_overflows jp)) < UINT32_MAX)%Z as Hov by (unfold UINT32_MAX; slots_lia).
  pose proof (JoinMap_push_cases dV sp me jp Hjp Hsize Hov) as Hc.
  destruct (JoinMap_push dV sp me jp) as [[r| | |] p] eqn:Hrun; try done.
  2:{ destruct Hc as (? & ? & ?). split_and!; try done. intros Hsp. by eapply JoinMap_push_steady. }
  destruct Hc as (Hw & Hp & Hns & Hus & Hol). split.
  - assert (jref_ok p r) as Hr.
    { unfold JoinMap_push in Hrun. apply M_bind_inv in Hrun as (j0 & j1 & [= <- <-] & Hrun). revert Hrun. unfold jisOverFull.
      destruct (Z.leb_spec (j_maxSlots jp) (j_usedSlots jp)); run; [|by apply jpush_ref, Hjp].
      pose proof (jdoubleArray_spec dV sp jp Hjp Hsize) as Hd. destruct (jdoubleArray _ _ _) as [new| | |]; run; try done.
      apply jpush_ref, Hd. }
    rewrite Hp at 1. by apply jread_jwrite.
  - intros v. destruct (Hw v) as [Hwf' Hm']. split; [done|]. split; [|split; [done|by eapply JoinMap_push_undo]].
    assert (j_numSlots (jwrite r v p).2 = j_numSlots p ∧ j_usedSlots (jwrite r v p).2 = j_usedSlots p ∧
      length (j_overflows (jwrite r v p).2) = length (j_overflows p)) as (E1 & E2 & E3).
    { destruct r; simpl; split_and!; try done. apply length_alter. }
    unfold jtight. rewrite E1, E2, E3. split_and!; [|lia|lia].
    destruct Hns as [->|[-> Hfull]]; [lia|].
    pose proof (fill_max_half (j_numSlots jp) ltac:(lia)). rewrite (jwf_max _ (proj1 Hjp)) in Hfull. lia.
Qed.
End push.
