(* ===== verification/PDBVector.v ===== *)
(** * Array and Vector: the growable array of the object model

    Models [builtInPDBObjects/headers/Array.cc] and [PDBVector.cc].  An array
    is one allocation of [numSlots] cells, of which the first [usedSlots] hold
    constructed objects.  [holds a l] says that array [a] stores the list [l];
    the theorems show the operations to be those of a list, what happens when
    an allocation throws, and where the code leaves its allocation. *)

From S2P Require Import Prelude.

(** One array: the two 32-bit counters and the cells of its allocation; [None]
    is raw storage. *)
Record Array {A : Type} := MkArray {
  a_usedSlots : Z;
  a_numSlots : Z;
  a_data : list (option A)
}.
Arguments Array : clear implicits.
Arguments MkArray {A}.

(** Which allocations of a call fit: the array made by [resize], the copy of
    its [i]-th element, the copy of the element pushed. *)
Record vspace := VSpace {
  v_array : bool;
  v_copy : nat → bool;
  v_elem : bool
}.

Definition vplenty : vspace := VSpace true (λ _, true) true.

Section Vector.
Context {A : Type} (dA : A).
Implicit Types (a t : Array A) (l : list A).

Definition aset_data a d : Array A := MkArray (a_usedSlots a) (a_numSlots a) d.
Definition aset_used a n : Array A := MkArray n (a_numSlots a) (a_data a).

(** ** Array *)

(** [data[i] = x]; a write past the allocation is undefined. *)
Definition write_cell (i : nat) (x : option A) : M (Array A) unit := λ a,
  if decide (i < length (a_data a)) then (Ret tt, aset_data a (<[i := x]> (a_data a)))
  else (Undefined, a).

(** [getObj], unchecked. *)
Definition getObj a (which : Z) : outcome A :=
  match a_data a !! Z.to_nat which with Some (Some x) => Ret x | _ => Undefined end.

(** [Array(numSlotsIn)] in an allocation of that many cells. *)
Definition Array_new (numSlotsIn : Z) : Array A :=
  MkArray 0 numSlotsIn (replicate (Z.to_nat numSlotsIn) None).

(** [Array()] *)
Definition Array_empty : Array A := MkArray 0 0 [].

(** [Array(numSlotsIn, numUsedSlots)] constructs (or zeroes) the first
    [numUsedSlots] cells, which must lie in the allocation. *)
Definition Array_new_used (numSlotsIn numUsedSlots : Z) : outcome (Array A) :=
  if decide (numUsedSlots ≤ numSlotsIn)%Z then
    Ret (MkArray numUsedSlots numSlotsIn
      (replicate (Z.to_nat numUsedSlots) (Some dA) ++
       replicate (Z.to_nat (numSlotsIn - numUsedSlots)) None))
  else Undefined.

Definition isFull a : bool := (a_usedSlots a =? a_numSlots a)%Z.

Definition numUsedSlots a : Z := a_usedSlots a.
Definition setUsed (toMe : Z) : M (Array A) unit := modify (λ a, aset_used a toMe).

(** [assign]: prints a message and returns when [which > usedSlots]. *)
Definition aassign (which : Z) (val : A) : M (Array A) unit := λ a,
  if (a_usedSlots a <? which)%Z then (Ret tt, a)
  else write_cell (Z.to_nat which) (Some val) a.

(** [push_back()] *)
Definition apush_back_default : M (Array A) unit := λ a,
  (write_cell (Z.to_nat (a_usedSlots a)) (Some dA) ;;
   modify (λ a', aset_used a' (u32 (a_usedSlots a' + 1)))) a.

(** [push_back(val)]: constructs the cell, then assigns to it; the assignment
    may throw. *)
Definition apush_back (fits : bool) (val : A) : M (Array A) unit := λ a,
  (write_cell (Z.to_nat (a_usedSlots a)) (Some dA) ;;
   lift (if fits then Ret tt else NotEnoughSpace) ;;
   write_cell (Z.to_nat (a_usedSlots a)) (Some val) ;;
   modify (λ a', aset_used a' (u32 (a_usedSlots a' + 1)))) a.

Definition apop_back : M (Array A) unit := λ a,
  if (a_usedSlots a =? 0)%Z then (Ret tt, a)
  else (write_cell (Z.to_nat (a_usedSlots a - 1)) None ;;
        modify (λ a', aset_used a' (a_usedSlots a' - 1)%Z)) a.

(** The loop of [resize] from index [i]: copies into [t] below [min],
    destroys the old elements above it.  The outcome holds the new array, the
    state is the old one. *)
Fixpoint resize_loop (fits : nat → bool) (fuel i min myUsedSlots : nat) (t : Array A) :
    M (Array A) (Array A) := λ a,
  match fuel with
  | 0 => (Ret t, a)
  | S fuel' =>
      if decide (i < min) then
        match a_data a !! i with
        | Some (Some x) =>
            if fits i then
              match write_cell i (Some x) t with
              | (Ret _, t') => resize_loop fits fuel' (S i) min myUsedSlots t' a
              | (_, _) => (Undefined, a)
              end
            else (NotEnoughSpace, a)
        | _ => (Undefined, a)
        end
      else if decide (i < myUsedSlots) then
        (write_cell i None ;;
         modify (λ a', aset_used a' (a_usedSlots a' - 1)%Z) ;;
         resize_loop fits fuel' (S i) min myUsedSlots t) a
      else (Ret t, a)
  end.

(** [resize] *)
Definition resize (sp : vspace) (howMany : Z) : M (Array A) (Array A) := λ a,
  if v_array sp then
    let min := Z.min (a_usedSlots a) howMany in
    let t := aset_used (Array_new howMany) min in
    resize_loop (v_copy sp) (Z.to_nat (a_usedSlots a)) 0 (Z.to_nat min) (Z.to_nat (a_usedSlots a)) t a
  else (NotEnoughSpace, a).

Definition doubleSize (sp : vspace) : M (Array A) (Array A) := λ a,
  resize sp (u32 (a_numSlots a * 2)) a.

(** The copy loop of [setUpAndCopyFrom] for objects: [usedSlots] is cut back
    to the elements copied so far when one throws. *)
Fixpoint acopy (fits : nat → bool) (fuel i : nat) (from : Array A) : M (Array A) unit := λ to,
  match fuel with
  | 0 => (Ret tt, to)
  | S fuel' =>
      match a_data from !! i with
      | Some x =>
          if fits i then (write_cell i x ;; acopy fits fuel' (S i) from) to
          else (NotEnoughSpace, aset_used to (Z.of_nat i))
      | None => (Undefined, to)
      end
  end.

(** [setUpAndCopyFrom] into an allocation of the source's size. *)
Definition asetUpAndCopyFrom (isObject : bool) (fits : nat → bool) (from : Array A) :
    outcome unit * Array A :=
  let to := MkArray (a_usedSlots from) (a_numSlots from)
              (replicate (Z.to_nat (a_numSlots from)) None) in
  acopy (if isObject then fits else λ _, true) (Z.to_nat (a_usedSlots from)) 0 from to.

(** ** Vector

    The state of a vector is the array its handle refers to. *)

Definition Vector_new (initSize : Z) : Array A := Array_new initSize.
Definition Vector_new_used (initSize usedSize : Z) : outcome (Array A) := Array_new_used initSize usedSize.
Definition Vector_default : Array A := Array_new 1.

Definition Vector_size a : Z := numUsedSlots a.
Definition Vector_at a (which : Z) : outcome A := getObj a which.
Definition Vector_assign (which : Z) (val : A) : M (Array A) unit := aassign which val.

(** [if (myArray->isFull()) myArray = myArray->doubleSize()] *)
Definition Vector_grow (sp : vspace) : M (Array A) unit :=
  a ← get;
  if isFull a then t ← doubleSize sp; put t else mret tt.

Definition Vector_push_back_default (sp : vspace) : M (Array A) unit :=
  Vector_grow sp ;; apush_back_default.

Definition Vector_push_back (sp : vspace) (val : A) : M (Array A) unit :=
  Vector_grow sp ;; apush_back (v_elem sp) val.

Definition Vector_pop_back : M (Array A) unit := apop_back.

(** [clear]: a new array of one slot. *)
Definition Vector_clear (fits : bool) : M (Array A) unit := λ a,
  if fits then (Ret tt, Array_new 1) else (NotEnoughSpace, a).

Definition Vector_resize (sp : vspace) (toMe : Z) : M (Array A) unit :=
  t ← resize sp toMe; put t.

(** The loop of [fill]. *)
Fixpoint fill_loop (fuel i : nat) (val : A) : M (Array A) unit :=
  match fuel with
  | 0 => mret tt
  | S fuel' => write_cell i (Some val) ;; fill_loop fuel' (S i) val
  end.

Definition Vector_fill (val : A) : M (Array A) unit := λ a,
  fill_loop (Z.to_nat (Vector_size a)) 0 val a.

(** ** Invariant *)

(** Array [a] stores the list [l]. *)
Record holds a l : Prop := {
  holds_data : take (length l) (a_data a) = Some <$> l;
  holds_used : a_usedSlots a = Z.of_nat (length l);
  holds_num : a_numSlots a = Z.of_nat (length (a_data a));
  holds_room : length l ≤ length (a_data a);
  holds_bound : (a_numSlots a < u32_modulus)%Z
}.
End Vector.

Section facts.
Context {A : Type} (dA : A).
Implicit Types (a t : Array A) (l : list A).

Lemma holds_lookup a l i x : holds a l → l !! i = Some x → a_data a !! i = Some (Some x).
Proof.
  intros Ha Hi. pose proof (lookup_lt_Some _ _ _ Hi).
  rewrite <- (lookup_take_lt _ (length l)) by done. rewrite (holds_data _ _ Ha).
  by rewrite list_lookup_fmap, Hi.
Qed.

Lemma getObj_spec a l i : holds a l → 0 ≤ i < length l →
  ∃ x, l !! i = Some x ∧ getObj a (Z.of_nat i) = Ret x.
Proof.
  intros Ha Hi. destruct (lookup_lt_is_Some_2 l i ltac:(lia)) as [x Hx].
  exists x. split; [done|]. unfold getObj. by rewrite Nat2Z.id, (holds_lookup a l i x).
Qed.

Lemma write_cell_ok i x a :
  i < length (a_data a) → write_cell i x a = (Ret tt, aset_data a (<[i := x]> (a_data a))).
Proof. intros Hi. unfold write_cell. by rewrite decide_True. Qed.

(** Writing inside the stored list. *)
Lemma holds_insert a l i x :
  holds a l → i < length l → holds (aset_data a (<[i := Some x]> (a_data a))) (<[i := x]> l).
Proof.
  intros [Hd Hu Hn Hr Hb] Hi. split; simpl; rewrite ?length_insert; [|done..].
  rewrite take_insert_lt, Hd by done. by rewrite list_fmap_insert.
Qed.

(** Writing the first cell past the stored list and counting it. *)
Lemma holds_snoc a l x c :
  holds a l → length l < length (a_data a) → c = (Z.of_nat (length l) + 1)%Z →
  holds (aset_used (aset_data a (<[length l := Some x]> (a_data a))) c) (l ++ [x]).
Proof.
  intros [Hd Hu Hn Hr Hb] Hi ->. split; simpl; rewrite ?length_insert, ?length_app; simpl; [|lia|done|lia|done].
  rewrite Nat.add_1_r. rewrite (take_S_r _ _ (Some x)) by by apply list_lookup_insert_eq.
  rewrite take_insert_ge, Hd by done. by rewrite fmap_app.
Qed.

(** Changing cells past the stored list. *)
Lemma holds_beyond a l d :
  holds a l → length d = length (a_data a) → take (length l) d = take (length l) (a_data a) →
  holds (aset_data a d) l.
Proof. intros [Hd Hu Hn Hr Hb] Hl Ht. split; simpl; rewrite ?Hl; congruence. Qed.

Lemma aisFull_spec a l : holds a l → isFull a = bool_decide (length l = length (a_data a)).
Proof.
  intros [Hd Hu Hn Hr Hb]. unfold isFull. rewrite Hu, Hn.
  case_bool_decide; [apply Z.eqb_eq|apply Z.eqb_neq]; lia.
Qed.

Lemma Array_new_holds n : (0 ≤ n < u32_modulus)%Z → holds (Array_new (A:=A) n) [].
Proof. intros Hn. split; simpl; rewrite ?length_replicate; [done|lia|lia|lia|lia]. Qed.

Lemma Array_new_used_holds n m :
  (0 ≤ m ≤ n)%Z → (n < u32_modulus)%Z →
  ∃ a, Array_new_used dA n m = Ret a ∧ a_numSlots a = n ∧ holds a (replicate (Z.to_nat m) dA).
Proof.
  intros Hm Hn. unfold Array_new_used. rewrite decide_True by lia. eexists. split; [done|]. split; [done|].
  split; simpl; rewrite ?length_app, ?length_replicate; [|lia|lia|lia|lia].
  rewrite take_app_length' by by rewrite length_replicate. by rewrite fmap_replicate.
Qed.

(** ** resize *)

(** The tail of the loop only destroys old elements. *)
Lemma resize_loop_tail fits fuel i min my t a :
  min ≤ i → i + fuel ≤ length (a_data a) → 
  ∃ a', resize_loop fits fuel i min my t a = (Ret t, a').
Proof.
  revert i a. induction fuel as [|fuel IH]; intros i a Hi Hl; simpl; [by eexists|].
  rewrite decide_False by lia. destruct (decide (i < my)); [|by eexists].
  run. rewrite write_cell_ok by lia. apply IH; [lia|]. simpl. rewrite length_insert. lia.
Qed.

Lemma resize_loop_spec fits a l m fuel i t :
  holds a l → m ≤ length l → m ≤ length (a_data t) → i ≤ m → i + fuel = length l →
  take i (a_data t) = Some <$> take i l →
  match resize_loop fits fuel i m (length l) t a with
  | (Ret t', _) => take m (a_data t') = Some <$> take m l ∧ length (a_data t') = length (a_data t) ∧
      a_usedSlots t' = a_usedSlots t ∧ a_numSlots t' = a_numSlots t
  | (NotEnoughSpace, a') => a' = a ∧ ∃ j, fits j = false
  | _ => False
  end.
Proof.
  intros Ha Hm Hmt. revert i t Hmt. induction fuel as [|fuel IH]; intros i t Hmt Hi Hf Ht.
  { simpl. assert (i = m) as <- by lia. done. }
  destruct (decide (i = m)) as [->|Hne].
  { destruct (resize_loop_tail fits (S fuel) m m (length l) t a) as [a' ->]; [done| |done].
    pose proof (holds_room _ _ Ha). lia. }
  simpl. rewrite decide_True by lia.
  destruct (lookup_lt_is_Some_2 l i ltac:(lia)) as [x Hx]. rewrite (holds_lookup a l i x) by done.
  destruct (fits i) eqn:Hfi; [|by eauto].
  rewrite write_cell_ok by lia.
  specialize (IH (S i) (aset_data t (<[i := Some x]> (a_data t)))). simpl in IH.
  rewrite length_insert in IH. apply IH; [done|lia|lia|].
  rewrite (take_S_r _ _ (Some x)) by (apply list_lookup_insert_eq; lia).
  rewrite take_insert_ge, Ht by done. by rewrite (take_S_r _ _ _ Hx), fmap_app.
Qed.

Lemma resize_spec sp howMany a l :
  holds a l → (0 ≤ howMany < u32_modulus)%Z →
  match resize sp howMany a with
  | (Ret t, _) => holds t (take (Z.to_nat howMany) l) ∧ a_numSlots t = howMany
  | (NotEnoughSpace, a') => a' = a ∧ (v_array sp = false ∨ ∃ j, v_copy sp j = false)
  | _ => False
  end.
Proof.
  intros Ha Hn. unfold resize. destruct (v_array sp); [|by eauto].
  pose proof (holds_used _ _ Ha) as Hu. rewrite Hu, Nat2Z.id.
  set (m := Z.to_nat (Z.min (Z.of_nat (length l)) howMany)).
  set (t := aset_used (Array_new howMany) _).
  pose proof (resize_loop_spec (v_copy sp) a l m (length l) 0 t Ha ltac:(lia)) as Hs.
  assert (length (a_data t) = Z.to_nat howMany) as Hlt by (unfold t; simpl; by rewrite length_replicate).
  specialize (Hs ltac:(lia) ltac:(lia) ltac:(lia) ltac:(by rewrite !take_0)).
  destruct (resize_loop _ _ _ _ _ _ _) as [[t'| | |] a']; try done; [|naive_solver].
  destruct Hs as (Hd & Hl & Hut & Hnt). split; [|done].
  assert (length (take (Z.to_nat howMany) l) = m) as Hlm by (rewrite length_take; lia).
  split; rewrite ?Hlm; [|rewrite Hut; simpl; lia|rewrite Hnt, Hl, Hlt; simpl; lia|lia|rewrite Hnt; simpl; lia].
  rewrite Hd. f_equal. destruct (decide (length l ≤ Z.to_nat howMany)).
  - rewrite !take_ge by lia. done.
  - f_equal. lia.
Qed.

(** ** push_back *)

Lemma apush_back_spec fits v a l :
  holds a l → length l < length (a_data a) →
  match apush_back dA fits v a with
  | (Ret _, a') => holds a' (l ++ [v]) ∧ a_numSlots a' = a_numSlots a
  | (NotEnoughSpace, a') => fits = false ∧ holds a' l ∧ a_numSlots a' = a_numSlots a
  | _ => False
  end.
Proof.
  intros Ha Hlt. unfold apush_back. pose proof (holds_used _ _ Ha) as Hu.
  pose proof (holds_bound _ _ Ha). pose proof (holds_num _ _ Ha).
  run. rewrite Hu, Nat2Z.id, write_cell_ok by done.
  assert (holds (aset_data a (<[length l := Some dA]> (a_data a))) l) as Ha1.
  { apply holds_beyond; [done|by rewrite length_insert|]. by rewrite take_insert_ge. }
  destruct fits; run; [|done].
  rewrite write_cell_ok by (simpl; by rewrite length_insert).
  split; [|done]. simpl. apply holds_snoc; [done|simpl; by rewrite length_insert|].
  rewrite Hu. apply u32_small. word_lia.
Qed.

Lemma Vector_grow_spec sp a l :
  holds a l → (1 ≤ a_numSlots a ≤ 2147483647)%Z →
  match Vector_grow sp a with
  | (Ret _, a') => holds a' l ∧ length l < length (a_data a') ∧
      (a_numSlots a' = a_numSlots a ∨
       a_numSlots a' = (2 * a_numSlots a)%Z ∧ a_numSlots a = Z.of_nat (length l))
  | (NotEnoughSpace, a') => a' = a ∧ (v_array sp = false ∨ ∃ j, v_copy sp j = false)
  | _ => False
  end.
Proof.
  intros Ha Hn. unfold Vector_grow. run. rewrite (aisFull_spec a l Ha).
  pose proof (holds_room _ _ Ha). pose proof (holds_num _ _ Ha).
  case_bool_decide as Hf; run; [|split_and!; [done|lia|by left]].
  unfold doubleSize. rewrite u32_small by word_lia.
  pose proof (resize_spec sp (a_numSlots a * 2) a l Ha ltac:(word_lia)) as Hs.
  destruct (resize _ _ _) as [[t| | |] a']; run; try done.
  destruct Hs as [Ht Hnt]. rewrite take_ge in Ht by lia.
  pose proof (holds_num _ _ Ht). split_and!; [done|lia|right; lia].
Qed.

Lemma Vector_push_back_cases sp v a l :
  holds a l → (1 ≤ a_numSlots a ≤ 2147483647)%Z →
  match Vector_push_back dA sp v a with
  | (Ret _, a') => holds a' (l ++ [v]) ∧ (a_numSlots a' = a_numSlots a ∨
       a_numSlots a' = (2 * a_numSlots a)%Z ∧ a_numSlots a = Z.of_nat (length l))
  | (NotEnoughSpace, a') => sp ≠ vplenty ∧ holds a' l ∧ (1 ≤ a_numSlots a' ≤ 2 * a_numSlots a)%Z
  | _ => False
  end.
Proof.
  intros Ha Hn. unfold Vector_push_back. run. pose proof (Vector_grow_spec sp a l Ha Hn) as Hg.
  destruct (Vector_grow sp a) as [[[]| | |] a1]; try done.
  2:{ destruct Hg as (-> & Hf). split_and!; [|done|lia|lia].
      intros ->. destruct Hf as [?|[? ?]]; done. }
  destruct Hg as (Ha1 & Hlt & Hns). pose proof (apush_back_spec (v_elem sp) v a1 l Ha1 Hlt) as Hp.
  destruct (apush_back _ _ _ _) as [[[]| | |] a2]; try done.
  - destruct Hp as (? & ->). done.
  - destruct Hp as (Hf & ? & ->). split_and!; [by intros ->|done|lia|lia].
Qed.

Lemma Vector_pop_back_spec a l :
  holds a l → ∃ a', Vector_pop_back a = (Ret tt, a') ∧ holds a' (take (length l - 1) l) ∧
    a_numSlots a' = a_numSlots a.
Proof.
  intros Ha. pose proof (holds_used _ _ Ha) as Hu. unfold Vector_pop_back, apop_back.
  pose proof (holds_room _ _ Ha) as Hr. rewrite Hu. destruct (Z.eqb_spec (Z.of_nat (length l)) 0) as [Hz|Hz].
  { exists a. split_and!; [done| |done]. by rewrite take_ge by lia. }
  run. rewrite write_cell_ok by lia. eexists. split; [done|]. split; [|done].
  replace (Z.to_nat (Z.of_nat (length l) - 1)) with (length l - 1) by lia. destruct Ha as [Hd _ Hn _ Hb].
  assert (length (take (length l - 1) l) = length l - 1) as Hl by (rewrite length_take; lia).
  split; rewrite ?Hl; simpl; rewrite ?length_insert; [|lia|done|lia|done].
  rewrite take_insert_ge by done.
  replace (length l - 1) with ((length l - 1) `min` length l) at 1 by lia.
  by rewrite <- take_take, Hd, fmap_take.
Qed.

(** [assign] inside the stored list. *)
Lemma Vector_assign_spec a l i v :
  holds a l → i < length l →
  ∃ a', Vector_assign (Z.of_nat i) v a = (Ret tt, a') ∧ holds a' (<[i := v]> l).
Proof.
  intros Ha Hi. unfold Vector_assign, aassign. pose proof (holds_room _ _ Ha).
  rewrite (holds_used _ _ Ha), (proj2 (Z.ltb_ge _ _)) by lia.
  rewrite Nat2Z.id, write_cell_ok by lia. eexists. split; [done|]. by apply holds_insert.
Qed.

Lemma fill_loop_spec v fuel i a l :
  holds a l → i + fuel = length l →
  ∃ a', fill_loop fuel i v a = (Ret tt, a') ∧ holds a' (take i l ++ replicate fuel v).
Proof.
  revert i a l. induction fuel as [|fuel IH]; intros i a l Ha Hi; simpl.
  { eexists. split; [done|]. by rewrite take_ge, app_nil_r by lia. }
  pose proof (holds_room _ _ Ha). run. rewrite write_cell_ok by lia.
  destruct (IH (S i) _ _ (holds_insert a l i v Ha ltac:(lia))) as (a' & -> & Ha').
  { rewrite length_insert. lia. }
  eexists. split; [done|].
  rewrite (take_S_r _ _ v), <- app_assoc, take_insert_ge in Ha'; [done|done|].
  apply list_lookup_insert_eq. lia.
Qed.

Lemma acopy_spec fits fuel i (from to : Array A) l :
  holds from l → i + fuel = length l → length l ≤ length (a_data to) →
  take i (a_data to) = Some <$> take i l → a_usedSlots to = Z.of_nat (length l) →
  match acopy fits fuel i from to with
  | (Ret _, to') => take (length l) (a_data to') = Some <$> l ∧ a_usedSlots to' = a_usedSlots to ∧
      length (a_data to') = length (a_data to) ∧ a_numSlots to' = a_numSlots to
  | (NotEnoughSpace, to') => ∃ j, fits j = false ∧ j < length l ∧
      take j (a_data to') = Some <$> take j l ∧ a_usedSlots to' = Z.of_nat j ∧
      length (a_data to') = length (a_data to) ∧ a_numSlots to' = a_numSlots to
  | _ => False
  end.
Proof.
  intros Hf. revert i to. induction fuel as [|fuel IH]; intros i to Hi Hl Ht Hu; simpl.
  { assert (i = length l) as -> by lia. rewrite firstn_all in Ht. done. }
  destruct (lookup_lt_is_Some_2 l i ltac:(lia)) as [x Hx]. rewrite (holds_lookup from l i x) by done.
  destruct (fits i) eqn:Hfi; [|exists i; split_and!; [done|lia|done..]].
  run. rewrite write_cell_ok by lia.
  specialize (IH (S i) (aset_data to (<[i := Some x]> (a_data to)))). simpl in IH.
  rewrite length_insert in IH. apply IH; [lia|done| |done].
  rewrite (take_S_r _ _ (Some x)) by (apply list_lookup_insert_eq; lia).
  rewrite take_insert_ge, Ht by done. by rewrite (take_S_r _ _ _ Hx), fmap_app.
Qed.

(** Pushing a list of values. *)
Fixpoint Vector_push_all (vs : list A) : M (Array A) unit :=
  match vs with
  | [] => mret tt
  | v :: vs' => Vector_push_back dA vplenty v ;; Vector_push_all vs'
  end.

Lemma Vector_push_all_holds (C : Z) vs a l :
  holds a l → (1 ≤ a_numSlots a ≤ Z.max C (2 * Z.of_nat (length l)))%Z → (C ≤ 2147483648)%Z →
  (Z.of_nat (length l + length vs) ≤ 1073741824)%Z →
  ∃ a', Vector_push_all vs a = (Ret tt, a') ∧ holds a' (l ++ vs) ∧
    (1 ≤ a_numSlots a' ≤ Z.max C (2 * Z.of_nat (length (l ++ vs))))%Z.
Proof.
  revert a l. induction vs as [|v vs IH]; intros a l Ha Hn HC Hlen; simpl.
  { exists a. by rewrite app_nil_r. }
  simpl in Hlen. run. 
  assert ((a_numSlots a ≤ 2147483647)%Z ∨ length l < length (a_data a)) as Hcase.
  { rewrite (holds_num _ _ Ha) in *. lia. }
  pose proof (holds_num _ _ Ha).
  assert (∃ a1, Vector_push_back dA vplenty v a = (Ret tt, a1) ∧ holds a1 (l ++ [v]) ∧
    (a_numSlots a1 = a_numSlots a ∨ a_numSlots a1 = (2 * a_numSlots a)%Z ∧ a_numSlots a = Z.of_nat (length l)))
    as (a1 & -> & Ha1 & Hn1).
  { destruct (decide (a_numSlots a ≤ 2147483647)%Z).
    - pose proof (Vector_push_back_cases vplenty v a l Ha ltac:(lia)) as Hp.
      destruct (Vector_push_back _ _ _ _) as [[[]| | |] a1]; try done; [by exists a1|by destruct Hp].
    - destruct Hcase as [?|Hlt]; [lia|]. unfold Vector_push_back, Vector_grow. run.
      rewrite (aisFull_spec a l Ha), bool_decide_false by lia. run.
      pose proof (apush_back_spec true v a l Ha Hlt) as Hp. simpl in *.
      destruct (apush_back _ _ _ _) as [[[]| | |] a1]; try done; [|by destruct Hp].
      destruct Hp. exists a1. eauto. }
  destruct (IH a1 (l ++ [v]) Ha1) as (a' & Ha' & Hh & Hb).
  - rewrite length_app. simpl. lia.
  - done.
  - rewrite length_app. simpl. lia.
  - exists a'. rewrite <- app_assoc in Hh, Hb. done.
Qed.

(** ** Properties *)

(** A vector made with at least one slot is a list: after any sequence of
    pushes, however often the array was doubled, [size] is the number of
    pushes, [operator[]] returns the pushed values by position, and the
    capacity is within a factor two of the larger of the initial size and the
    number of elements. *)
Theorem Vector_push_all_spec (initSize : Z) (vs : list A) :
  (1 ≤ initSize ≤ 2147483648)%Z → (Z.of_nat (length vs) ≤ 1073741824)%Z →
  ∃ a, Vector_push_all vs (Vector_new initSize) = (Ret tt, a) ∧
    Vector_size a = Z.of_nat (length vs) ∧
    (∀ i v, vs !! i = Some v → Vector_at a (Z.of_nat i) = Ret v) ∧
    (a_numSlots a ≤ Z.max initSize (2 * Z.of_nat (length vs)))%Z.
Proof.
  intros Hi Hl.
  destruct (Vector_push_all_holds initSize vs (Vector_new initSize) []) as (a & Ha & Hh & Hb).
  - apply Array_new_holds. word_lia.
  - simpl. lia.
  - lia.
  - simpl. lia.
  - exists a. simpl in *. split_and!; [done|by apply holds_used| |lia].
    intros i v Hv. unfold Vector_at, getObj. by rewrite Nat2Z.id, (holds_lookup a vs i v).
Qed.

(** [push_back] on every branch: it appends the value; when making the
    larger array, copying an element into it or copying the new value throws
    [NotEnoughSpace], the vector still holds what it held before; and
    [pop_back] undoes it. *)
Theorem Vector_push_back_spec (sp : vspace) (v : A) (a : Array A) (l : list A) :
  holds a l → (1 ≤ a_numSlots a ≤ 2147483647)%Z →
  match Vector_push_back dA sp v a with
  | (Ret _, a') => holds a' (l ++ [v]) ∧
      ∃ a'', Vector_pop_back a' = (Ret tt, a'') ∧ holds a'' l
  | (NotEnoughSpace, a') => sp ≠ vplenty ∧ holds a' l
  | _ => False
  end.
Proof.
  intros Ha Hn. pose proof (Vector_push_back_cases sp v a l Ha Hn) as Hp.
  destruct (Vector_push_back _ _ _ _) as [[[]| | |] a']; try done; [|by destruct Hp as (? & ? & _)].
  destruct Hp as [Ha' _]. split; [done|].
  destruct (Vector_pop_back_spec a' _ Ha') as (a'' & Hpop & Hh & _). exists a''. split; [done|].
  rewrite length_app in Hh. simpl in Hh. by rewrite Nat.add_sub, take_app_length in Hh.
Qed.

(** [resize] keeps the first elements that fit in the new capacity; it
    does not lengthen the vector when it grows it, and leaves it untouched
    when an allocation throws. *)
Theorem Vector_resize_spec (sp : vspace) (n : Z) (a : Array A) (l : list A) :
  holds a l → (0 ≤ n < u32_modulus)%Z →
  match Vector_resize sp n a with
  | (Ret _, a') => holds a' (take (Z.to_nat n) l) ∧ a_numSlots a' = n
  | (NotEnoughSpace, a') => a' = a
  | _ => False
  end.
Proof.
  intros Ha Hn. unfold Vector_resize. run. pose proof (resize_spec sp n a l Ha Hn) as Hr.
  destruct (resize sp n a) as [[t| | |] a']; run; try done. by destruct Hr.
Qed.

(** The deep copy of an array holds the same elements; if copying an
    element throws, [usedSlots] is cut back, so that what is left is an array
    of the elements copied before it. *)
Theorem asetUpAndCopyFrom_spec (isObject : bool) (fits : nat → bool) (from : Array A) (l : list A) :
  holds from l →
  match asetUpAndCopyFrom isObject fits from with
  | (Ret _, to) => holds to l ∧ a_numSlots to = a_numSlots from
  | (NotEnoughSpace, to) => isObject = true ∧ ∃ j, fits j = false ∧ j < length l ∧ holds to (take j l)
  | _ => False
  end.
Proof.
  intros Hf. pose proof Hf as [_ Hu Hn Hr Hb]. unfold asetUpAndCopyFrom. rewrite Hu, Nat2Z.id.
  set (to := MkArray _ _ _).
  assert (length (a_data to) = length (a_data from)) as Hl by (unfold to; simpl; rewrite length_replicate; lia).
  pose proof (acopy_spec (if isObject then fits else λ _, true) (length l) 0 from to l Hf
    ltac:(lia) ltac:(lia) ltac:(by rewrite !take_0) ltac:(done)) as Hs.
  destruct (acopy _ _ _ _ _) as [[u| | |] to']; try done.
  - destruct Hs as (Hd & Hu' & Hl' & Hn'). rewrite Hn'. split; [|done].
    split; [done|rewrite Hu'; done|rewrite Hn', Hl'; unfold to; simpl; rewrite length_replicate; lia|lia|by rewrite Hn'].
  - destruct Hs as (j & Hj & Hjl & Hd & Hu' & Hl' & Hn'). destruct isObject; [|done]. split; [done|].
    exists j. split_and!; [done|done|].
    assert (length (take j l) = j) as Hlj by (rewrite length_take; lia).
    split; rewrite ?Hlj; [done|done|rewrite Hn', Hl'; unfold to; simpl; rewrite length_replicate; lia|lia|by rewrite Hn'].
Qed.

(** [fill] overwrites every element and changes neither size nor
    capacity. *)
Theorem Vector_fill_spec (v : A) (a : Array A) (l : list A) :
  holds a l →
  ∃ a', Vector_fill v a = (Ret tt, a') ∧ holds a' (replicate (length l) v).
Proof.
  intros Ha. unfold Vector_fill, Vector_size, numUsedSlots. rewrite (holds_used _ _ Ha), Nat2Z.id.
  destruct (fill_loop_spec v (length l) 0 a l Ha ltac:(done)) as (a' & -> & Ha'). by exists a'.
Qed.
End facts.

(** ** Witnesses and counterexamples *)

(** A vector of three integers in an array of four. *)
Definition three : Array Z := (Vector_push_all 0%Z [5; 6; 7]%Z Vector_default).2.

Lemma three_holds : holds three [5; 6; 7]%Z.
Proof. split; try reflexivity. vm_compute. lia. Qed.

Lemma Vector_push_all_spec_witness :
  ∃ a, Vector_push_all 0%Z [5; 6; 7]%Z (Vector_new 1) = (Ret tt, a) ∧ Vector_size a = 3%Z.
Proof.
  destruct (Vector_push_all_spec 0%Z 1 [5; 6; 7]%Z) as (a & Ha & Hs & _); [lia|simpl; lia|].
  exists a. split; [exact Ha|exact Hs].
Defined.

Lemma Vector_push_back_spec_witness :
  match Vector_push_back 0%Z vplenty 8%Z three with
  | (Ret _, a') => holds a' [5; 6; 7; 8]%Z ∧
      ∃ a'', Vector_pop_back a' = (Ret tt, a'') ∧ holds a'' [5; 6; 7]%Z
  | (NotEnoughSpace, a') => vplenty ≠ vplenty ∧ holds a' [5; 6; 7]%Z
  | _ => False
  end.
Proof. apply (Vector_push_back_spec 0%Z vplenty 8%Z three [5; 6; 7]%Z three_holds). vm_compute. split; discriminate. Defined.

Lemma Vector_resize_spec_witness :
  match Vector_resize vplenty 2 three with
  | (Ret _, a') => holds a' [5; 6]%Z ∧ a_numSlots a' = 2%Z
  | (NotEnoughSpace, a') => a' = three
  | _ => False
  end.
Proof. apply (Vector_resize_spec vplenty 2 three [5; 6; 7]%Z three_holds). vm_compute. split; [discriminate|reflexivity]. Defined.

Lemma asetUpAndCopyFrom_spec_witness :
  match asetUpAndCopyFrom true (λ i, bool_decide (i < 2)) three with
  | (Ret _, to) => holds to [5; 6; 7]%Z ∧ a_numSlots to = a_numSlots three
  | (NotEnoughSpace, to) => true = true ∧ ∃ j, bool_decide (j < 2) = false ∧ j < 3 ∧
      holds to (take j [5; 6; 7]%Z)
  | _ => False
  end.
Proof. exact (asetUpAndCopyFrom_spec true (λ i, bool_decide (i < 2)) three [5; 6; 7]%Z three_holds). Defined.

Lemma Vector_fill_spec_witness :
  ∃ a', Vector_fill 9%Z three = (Ret tt, a') ∧ holds a' [9; 9; 9]%Z.
Proof. exact (Vector_fill_spec 9%Z three [5; 6; 7]%Z three_holds). Defined.

(** Doubling a capacity of zero leaves zero: on a vector made with
    [Vector(0)], or shrunk with [resize(0)], [push_back] writes past the
    allocation.  And [assign] guards with [which > usedSlots], so on a full
    vector the index [size] passes the guard and is written past the
    allocation. *)
Theorem Vector_writes_past_allocation :
  (Vector_push_back 0%Z vplenty 1%Z (Vector_new 0)).1 = Undefined ∧
  ((Vector_resize vplenty 0 ;; Vector_push_back 0%Z vplenty 1%Z) three).1 = Undefined ∧
  let full := (Vector_push_back 0%Z vplenty 8%Z three).2 in
  Vector_size full = a_numSlots full ∧ (Vector_assign (Vector_size full) 9%Z full).1 = Undefined.
Proof. by vm_compute. Qed.
