(* ===== verification/TopKQueue.v ===== *)
(** * TopKQueue: the bounded min-heap of top-k aggregation

    Models [builtInPDBObjects/headers/TopKQueue.cc]: two parallel vectors hold
    a binary min-heap of the best [k] scores and their values, and a single
    item is kept outside them.  The theorems show that after any inserts the
    queue holds the best [k] items, and that [operator+] merges two queues
    without losing one of the best [k] of their union. *)

From S2P Require Import Prelude PDBVector.

(** What the queue needs of the [<] of its score class. *)
Class StrictWeakOrder {S : Type} (slt : S → S → bool) := {
  slt_asym x y : slt x y = true → slt y x = false;
  slt_trans x y z : slt y x = false → slt z y = false → slt z x = false
}.

#[export] Instance Z_ltb_order : StrictWeakOrder Z.ltb.
Proof. split; intros *; rewrite ?Z.ltb_lt, ?Z.ltb_ge; lia. Qed.

(** Which allocations of an [insert] fit: the two vectors made for the second
    item, the pushes of the first item into them, the pushes of the new one. *)
Record tkspace := TkSpace {
  tk_mk_scores : bool;
  tk_mk_values : bool;
  tk_first_score : vspace;
  tk_first_value : vspace;
  tk_new_score : vspace;
  tk_new_value : vspace
}.

Definition tkplenty : tkspace := TkSpace true true vplenty vplenty vplenty vplenty.

Record TopKQueue {S V : Type} := MkTopKQueue {
  tk_empty : bool;
  tk_scores : option (Array S);
  tk_values : option (Array V);
  tk_k : Z;
  tk_tempScore : S;
  tk_tempValue : V
}.
Arguments TopKQueue : clear implicits.
Arguments MkTopKQueue {S V}.

Section TopKQueue.
Context {S V : Type} (slt : S → S → bool) (dS : S) (dV : V).
Implicit Types (q : TopKQueue S V).

Definition tset_temp q s v : TopKQueue S V :=
  MkTopKQueue (tk_empty q) (tk_scores q) (tk_values q) (tk_k q) s v.
Definition tset_empty q e : TopKQueue S V :=
  MkTopKQueue e (tk_scores q) (tk_values q) (tk_k q) (tk_tempScore q) (tk_tempValue q).
Definition tset_scores q a : TopKQueue S V :=
  MkTopKQueue (tk_empty q) a (tk_values q) (tk_k q) (tk_tempScore q) (tk_tempValue q).
Definition tset_values q a : TopKQueue S V :=
  MkTopKQueue (tk_empty q) (tk_scores q) a (tk_k q) (tk_tempScore q) (tk_tempValue q).

(** The constructors. *)
Definition TopKQueue_new (kIn : Z) : TopKQueue S V := MkTopKQueue true None None kIn dS dV.
Definition TopKQueue_default : TopKQueue S V := MkTopKQueue true None None 1 dS dV.
Definition TopKQueue_init (kIn : Z) (initScore : S) (initValue : V) : TopKQueue S V :=
  MkTopKQueue false None None kIn initScore initValue.

(** A call on [*allScores] or [*allValues]; dereferencing null is
    undefined. *)
Definition on_scores {A} (m : M (Array S) A) : M (TopKQueue S V) A := λ q,
  match tk_scores q with
  | Some a => let (r, a') := m a in (r, tset_scores q (Some a'))
  | None => (Undefined, q)
  end.

Definition on_values {A} (m : M (Array V) A) : M (TopKQueue S V) A := λ q,
  match tk_values q with
  | Some a => let (r, a') := m a in (r, tset_values q (Some a'))
  | None => (Undefined, q)
  end.

(** [scores[i]], [values[i]], [allScores->size()] *)
Definition score_at (i : nat) : M (TopKQueue S V) S := on_scores (λ a, (getObj a (Z.of_nat i), a)).
Definition value_at (i : nat) : M (TopKQueue S V) V := on_values (λ a, (getObj a (Z.of_nat i), a)).
Definition scores_size : M (TopKQueue S V) nat := on_scores (gets (λ a, Z.to_nat (Vector_size a))).

Definition set_score (i : nat) (s : S) : M (TopKQueue S V) unit := on_scores (write_cell i (Some s)).
Definition set_value (i : nat) (v : V) : M (TopKQueue S V) unit := on_values (write_cell i (Some v)).

(** [swap], through [tempScore] and [tempValue]. *)
Definition swap (i j : nat) : M (TopKQueue S V) unit :=
  si ← score_at i; vi ← value_at i;
  modify (λ q, tset_temp q si vi) ;;
  sj ← score_at j; vj ← value_at j;
  set_score i sj ;; set_value i vj ;;
  set_score j si ;; set_value j vi.

(** [while (current > 0 && scores[current] < scores[(current - 1) / 2])] *)
Fixpoint sift_up (fuel current : nat) : M (TopKQueue S V) unit :=
  match fuel with
  | 0 => lift Undefined
  | Datatypes.S fuel' =>
      match current with
      | 0 => mret tt
      | Datatypes.S _ =>
          sc ← score_at current; sp ← score_at (Nat.div2 (current - 1));
          if slt sc sp then
            swap current (Nat.div2 (current - 1)) ;; sift_up fuel' (Nat.div2 (current - 1))
          else mret tt
      end
  end.

(** The [while (true)] loop that moves the item at [current] down. *)
Fixpoint sift_down (fuel limit current : nat) : M (TopKQueue S V) unit :=
  match fuel with
  | 0 => lift Undefined
  | Datatypes.S fuel' =>
      if decide (current * 2 + 2 < limit) then
        s1 ← score_at (current * 2 + 1); s2 ← score_at (current * 2 + 2);
        let smallPos := if slt s1 s2 then current * 2 + 1 else current * 2 + 2 in
        ss ← score_at smallPos; sc ← score_at current;
        if slt ss sc then swap smallPos current ;; sift_down fuel' limit smallPos else mret tt
      else if decide (current * 2 + 1 < limit) then
        let smallPos := current * 2 + 1 in
        ss ← score_at smallPos; sc ← score_at current;
        if slt ss sc then swap smallPos current ;; sift_down fuel' limit smallPos else mret tt
      else mret tt
  end.

(** [allScores == nullptr]: make the two vectors and move the first item into
    them. *)
Definition make_vectors (sp : tkspace) : M (TopKQueue S V) unit :=
  (if tk_mk_scores sp then modify (λ q, tset_scores q (Some Vector_default)) else lift NotEnoughSpace) ;;
  (if tk_mk_values sp then modify (λ q, tset_values q (Some Vector_default)) else lift NotEnoughSpace) ;;
  q ← get;
  on_scores (Vector_push_back dS (tk_first_score sp) (tk_tempScore q)) ;;
  on_values (Vector_push_back dV (tk_first_value sp) (tk_tempValue q)).

(** Removal of the worst item: the last one takes its place. *)
Definition drop_worst : M (TopKQueue S V) unit :=
  n ← scores_size;
  s ← score_at (n - 1); set_score 0 s ;;
  v ← value_at (n - 1); set_value 0 v ;;
  on_scores Vector_pop_back ;; on_values Vector_pop_back ;;
  limit ← scores_size; sift_down (Datatypes.S limit) limit 0.

(** [insert] once the vectors exist. *)
Definition insert_heap (sp : tkspace) (score : S) (value : V) : M (TopKQueue S V) unit :=
  s0 ← score_at 0; n ← scores_size; q ← get;
  if slt score s0 && (tk_k q <=? Z.of_nat n)%Z then mret tt
  else
    on_scores (Vector_push_back dS (tk_new_score sp) score) ;;
    on_values (Vector_push_back dV (tk_new_value sp) value) ;;
    n' ← scores_size; sift_up n' (n' - 1) ;;
    n'' ← scores_size;
    if (Z.of_nat n'' <=? tk_k q)%Z then mret tt else drop_worst.

(** [insert] *)
Definition insert (sp : tkspace) (score : S) (value : V) : M (TopKQueue S V) unit :=
  q ← get;
  if tk_empty q then modify (λ q, tset_empty (tset_temp q score value) false)
  else
    (match tk_scores q with None => make_vectors sp | Some _ => mret tt end) ;;
    insert_heap sp score value.

(** The loop of [operator+] over the other queue's items, from the [i]-th. *)
Fixpoint merge_loop (sp : tkspace) (fuel i : nat) (scores : Array S) (values : Array V) :
    M (TopKQueue S V) unit :=
  match fuel with
  | 0 => mret tt
  | Datatypes.S fuel' =>
      s ← lift (getObj scores (Z.of_nat i)); v ← lift (getObj values (Z.of_nat i));
      insert sp s v ;; merge_loop sp fuel' (Datatypes.S i) scores values
  end.

(** [operator+], the argument being another queue than [this]. *)
Definition merge (sp : tkspace) (addMeIn : TopKQueue S V) : M (TopKQueue S V) unit :=
  if tk_empty addMeIn then mret tt
  else match tk_scores addMeIn with
    | None => insert sp (tk_tempScore addMeIn) (tk_tempValue addMeIn)
    | Some scores =>
        match tk_values addMeIn with
        | Some values => merge_loop sp (Z.to_nat (Vector_size scores)) 0 scores values
        | None => lift Undefined
        end
    end.

(** [size], which looks only at the vector of values. *)
Definition TopKQueue_size q : outcome Z :=
  match tk_values q with Some a => Ret (Vector_size a) | None => Undefined end.

(** [operator[]] *)
Definition TopKQueue_at q (i : nat) : outcome (S * V) :=
  if tk_empty q then Exit 1
  else match tk_values q with
    | None => if decide (i = 0) then Ret (tk_tempScore q, tk_tempValue q) else Exit 1
    | Some values =>
        if (Z.of_nat i <? Vector_size values)%Z then
          match tk_scores q with
          | Some scores => s ← getObj scores (Z.of_nat i); v ← getObj values (Z.of_nat i); Ret (s, v)
          | None => Undefined
          end
        else Exit 1
    end.

(** ** The heap on a list of items *)

Definition hswap (i j : nat) (h : list (S * V)) : list (S * V) :=
  match h !! i, h !! j with
  | Some x, Some y => <[j := x]> (<[i := y]> h)
  | _, _ => h
  end.

(** [c] is a child of [p] in the implicit binary tree. *)
Definition child (p c : nat) : Prop := c = 2 * p + 1 ∨ c = 2 * p + 2.

(** The score at [i] is not above the score at [j]. *)
Definition hle (h : list (S * V)) (i j : nat) : Prop :=
  ∀ x y, h !! i = Some x → h !! j = Some y → slt y.1 x.1 = false.

Definition heap (h : list (S * V)) : Prop := ∀ p c, child p c → hle h p c.

(** [h] is a heap except that the item at [cur] may be below its parent, or
    above its children. *)
Definition heap_up (cur : nat) (h : list (S * V)) : Prop :=
  (∀ p c, child p c → c ≠ cur → hle h p c) ∧
  (∀ g c, child g cur → child cur c → hle h g c).

Definition heap_down (cur : nat) (h : list (S * V)) : Prop :=
  (∀ p c, child p c → p ≠ cur → hle h p c) ∧
  (∀ g c, child g cur → child cur c → hle h g c).

(** [c] holds the best [max 1 k] items of [l]. *)
Definition best (k : Z) (l c : list (S * V)) : Prop :=
  ∃ rest, c ++ rest ≡ₚ l ∧ length c = Z.to_nat (Z.max 1 k) `min` length l ∧
    ∀ x y, x ∈ c → y ∈ rest → slt x.1 y.1 = false.

(** The vectors of [q] hold the items [h]. *)
Definition vecs q (h : list (S * V)) : Prop :=
  ∃ a b, tk_scores q = Some a ∧ tk_values q = Some b ∧ holds a h.*1 ∧ holds b h.*2 ∧
    (1 ≤ a_numSlots a ≤ 2 * Z.max 1 (tk_k q))%Z ∧ (1 ≤ a_numSlots b ≤ 2 * Z.max 1 (tk_k q))%Z.

(** Queue [q] is well formed and its items are [h]. *)
Inductive items q : list (S * V) → Prop :=
| items_none : tk_empty q = true → tk_scores q = None → tk_values q = None → items q []
| items_one : tk_empty q = false → tk_scores q = None → tk_values q = None →
    items q [(tk_tempScore q, tk_tempValue q)]
| items_heap h : tk_empty q = false → vecs q h → heap h → 1 ≤ length h → items q h.
End TopKQueue.

Section facts.
Context {S V : Type} (slt : S → S → bool) `{!StrictWeakOrder slt} (dS : S) (dV : V).
Implicit Types (q : TopKQueue S V) (h l : list (S * V)) (x y z : S * V).

Abbreviation hle := (hle slt).
Abbreviation heap := (heap slt).
Abbreviation heap_up := (heap_up slt).
Abbreviation heap_down := (heap_down slt).
Abbreviation best := (best slt).

Lemma slt_irrefl (s : S) : slt s s = false.
Proof. destruct (slt s s) eqn:E; [|done]. by rewrite <- E, (slt_asym s s E). Qed.

(** ** Swapping two items of a list *)

Lemma insert_Permutation {A} (l : list A) i (x y : A) :
  l !! i = Some y → y :: <[i := x]> l ≡ₚ x :: l.
Proof.
  revert i. induction l as [|z l IH]; intros [|i] Hi; simplify_eq/=; [constructor|].
  rewrite Permutation_swap, (IH i Hi). apply Permutation_swap.
Qed.

Lemma hswap_lookup i j h x y :
  h !! i = Some x → h !! j = Some y →
  ∀ k, hswap i j h !! k = if decide (k = j) then Some x else if decide (k = i) then Some y else h !! k.
Proof.
  intros Hi Hj k. unfold hswap. rewrite Hi, Hj.
  pose proof (lookup_lt_Some _ _ _ Hi). pose proof (lookup_lt_Some _ _ _ Hj).
  destruct (decide (k = j)) as [->|]; [apply list_lookup_insert_eq; by rewrite length_insert|].
  rewrite list_lookup_insert_ne by done.
  destruct (decide (k = i)) as [->|]; [by apply list_lookup_insert_eq|].
  by rewrite list_lookup_insert_ne.
Qed.

Lemma hswap_Permutation i j h : hswap i j h ≡ₚ h.
Proof.
  unfold hswap. destruct (h !! i) as [x|] eqn:Hi, (h !! j) as [y|] eqn:Hj; try done.
  apply (Permutation_cons_inv (a:=y)). 
  assert (<[i:=y]> h !! j = Some y) as Hj'.
  { destruct (decide (i = j)) as [->|]; [|by rewrite list_lookup_insert_ne].
    apply list_lookup_insert_eq. by eapply lookup_lt_Some. }
  rewrite (insert_Permutation _ j x y Hj'). by apply insert_Permutation.
Qed.

Lemma length_hswap i j h : length (hswap i j h) = length h.
Proof. by rewrite hswap_Permutation. Qed.

(** ** The heap order *)

Lemma hle_of h i j x y : h !! i = Some x → h !! j = Some y → slt y.1 x.1 = false → hle h i j.
Proof. intros Hi Hj Hs x' y' ??. by simplify_eq. Qed.

Ltac swap_cases Hi Hj :=
  rewrite ?(hswap_lookup _ _ _ _ _ Hi Hj) in *; unfold child in *;
  repeat case_decide; try lia; subst; simplify_eq; try lia.

(** Applies one instance of the heap order. *)
Ltac by_order H := eapply H; [| |eassumption|eassumption]; unfold child in *; lia.

(** Swapping an item with its larger parent moves the defect up. *)
Lemma heap_up_swap p c h x y :
  heap_up c h → child p c → h !! c = Some x → h !! p = Some y → slt x.1 y.1 = true →
  heap_up p (hswap c p h).
Proof.
  intros [H1 H2] Hpc Hc Hp Hlt. pose proof (slt_asym _ _ Hlt) as Hle. split.
  - intros a b Hab Hb u w Hu Hw. swap_cases Hc Hp; first
      [exact Hle | by_order H2 | by_order H1 | eapply slt_trans; [exact Hle|by_order H1]].
  - intros g b Hg Hb u w Hu Hw. swap_cases Hc Hp.
    + by_order H1.
    + eapply slt_trans; [eapply H1; [| |eassumption|exact Hp]|by_order H1]; unfold child; lia.
Qed.

(** Swapping an item with its smallest child moves the defect down. *)
Lemma heap_down_swap p c h x y :
  heap_down p h → child p c → h !! c = Some x → h !! p = Some y → slt x.1 y.1 = true →
  (∀ b z, child p b → h !! b = Some z → slt z.1 x.1 = false) →
  heap_down c (hswap c p h).
Proof.
  intros [H1 H2] Hpc Hc Hp Hlt Hmin. pose proof (slt_asym _ _ Hlt) as Hle. split.
  - intros a b Hab Ha u w Hu Hw. swap_cases Hc Hp; first
      [exact Hle | by_order H2 | by_order H1 | eapply Hmin; [|exact Hw]; unfold child; lia].
  - intros g b Hg Hb u w Hu Hw. swap_cases Hc Hp. by_order H1.
Qed.

Lemma heap_up_done p c h x y :
  heap_up c h → child p c → h !! c = Some x → h !! p = Some y → slt x.1 y.1 = false → heap h.
Proof.
  intros [H1 H2] Hpc Hc Hp Hlt a b Hab. destruct (decide (b = c)) as [->|]; [|by apply H1].
  assert (a = p) as -> by (unfold child in *; lia). by eapply hle_of.
Qed.

Lemma heap_up_root h : heap_up 0 h → heap h.
Proof. intros [H1 _] a b Hab. apply H1; [done|]. unfold child in Hab. lia. Qed.

Lemma heap_down_done p h :
  heap_down p h → (∀ c, child p c → hle h p c) → heap h.
Proof. intros [H1 _] Hp a b Hab. destruct (decide (a = p)) as [->|]; [by apply Hp|by apply H1]. Qed.

(** The root of a heap is a smallest item. *)
Lemma heap_root h x y i : heap h → h !! 0 = Some x → h !! i = Some y → slt y.1 x.1 = false.
Proof.
  intros Hh Hx. revert y. induction (lt_wf i) as [i _ IH]. intros y Hy.
  destruct i as [|i]; [simplify_eq; apply slt_irrefl|].
  assert (∃ p, p < Datatypes.S i ∧ child p (Datatypes.S i)) as (p & Hp & Hc).
  { exists (Nat.div2 i). pose proof (Nat.div2_odd i). unfold child.
    destruct (Nat.odd i); simpl in *; lia. }
  pose proof (lookup_lt_Some _ _ _ Hy).
  destruct (lookup_lt_is_Some_2 h p ltac:(lia)) as [z Hz].
  eapply slt_trans; [by apply (IH p)|]. by eapply Hh.
Qed.

(** Appending an item leaves only the order with its parent open. *)
Lemma heap_up_snoc h x : heap h → heap_up (length h) (h ++ [x]).
Proof.
  intros Hh. split.
  - intros p c Hc Hne u w Hu Hw. pose proof (lookup_lt_Some _ _ _ Hw) as Hlw. rewrite length_app in Hlw.
    simpl in Hlw. unfold child in Hc. rewrite lookup_app_l in Hu, Hw by lia. by eapply Hh.
  - intros g c _ Hc u w _ Hw. apply lookup_lt_Some in Hw. rewrite length_app in Hw. simpl in Hw.
    unfold child in Hc. lia.
Qed.

(** Replacing the root leaves only the order with its children open. *)
Lemma heap_down_root h x y t : heap (x :: t ++ [y]) → heap_down 0 (y :: t).
Proof.
  intros Hh. split; [|unfold child; lia].
  intros [|p] [|c] Hc Hne u w Hu Hw; [done|done|unfold child in *; lia|]. simpl in *.
  eapply (Hh (Datatypes.S p) (Datatypes.S c) Hc); simpl; rewrite lookup_app_l; eauto using lookup_lt_Some.
Qed.

(** ** The queue's vectors *)

(** The vectors of [q] hold [ls] and [lv]. *)
Definition vecs2 q (ls : list S) (lv : list V) : Prop :=
  ∃ a b, tk_scores q = Some a ∧ tk_values q = Some b ∧ holds a ls ∧ holds b lv ∧
    (1 ≤ a_numSlots a ≤ 2 * Z.max 1 (tk_k q))%Z ∧ (1 ≤ a_numSlots b ≤ 2 * Z.max 1 (tk_k q))%Z.

(** [q'] differs from [q] at most in its vectors and its scratch item. *)
Definition same q q' : Prop := tk_k q' = tk_k q ∧ tk_empty q' = tk_empty q.

Lemma on_scores_read {A} (f : Array S → outcome A) q a :
  tk_scores q = Some a → on_scores (λ a, (f a, a)) q = (f a, q).
Proof. intros Ha. unfold on_scores. rewrite Ha. destruct q; simpl in *. by subst. Qed.

Lemma on_values_read {A} (f : Array V → outcome A) q b :
  tk_values q = Some b → on_values (λ b, (f b, b)) q = (f b, q).
Proof. intros Hb. unfold on_values. rewrite Hb. destruct q; simpl in *. by subst. Qed.

Lemma score_at_spec q ls lv i s : vecs2 q ls lv → ls !! i = Some s → score_at i q = (Ret s, q).
Proof.
  intros (a & b & Ha & _ & Hh & _) Hi. unfold score_at. rewrite (on_scores_read _ q a) by done.
  unfold getObj. by rewrite Nat2Z.id, (holds_lookup a ls i s).
Qed.

Lemma value_at_spec q ls lv i v : vecs2 q ls lv → lv !! i = Some v → value_at i q = (Ret v, q).
Proof.
  intros (a & b & _ & Hb & _ & Hh & _) Hi. unfold value_at. rewrite (on_values_read _ q b) by done.
  unfold getObj. by rewrite Nat2Z.id, (holds_lookup b lv i v).
Qed.

Lemma scores_size_spec q ls lv : vecs2 q ls lv → scores_size q = (Ret (length ls), q).
Proof.
  intros (a & b & Ha & _ & Hh & _). unfold scores_size.
  etrans; [apply (on_scores_read (λ a, Ret (Z.to_nat (Vector_size a))) q a Ha)|].
  unfold Vector_size, numUsedSlots. by rewrite (holds_used _ _ Hh), Nat2Z.id.
Qed.

Lemma set_score_spec q ls lv i s :
  vecs2 q ls lv → i < length ls →
  ∃ q', set_score i s q = (Ret tt, q') ∧ same q q' ∧ vecs2 q' (<[i := s]> ls) lv.
Proof.
  intros (a & b & Ha & Hb & Hha & Hhb & Hk) Hi. unfold set_score, on_scores. rewrite Ha.
  pose proof (holds_room _ _ Hha). rewrite write_cell_ok by lia. eexists. split; [done|]. split; [done|].
  eexists _, b. split_and!; [done|done|by apply holds_insert|done|..]; simpl; lia.
Qed.

Lemma set_value_spec q ls lv i v :
  vecs2 q ls lv → i < length lv →
  ∃ q', set_value i v q = (Ret tt, q') ∧ same q q' ∧ vecs2 q' ls (<[i := v]> lv).
Proof.
  intros (a & b & Ha & Hb & Hha & Hhb & Hk) Hi. unfold set_value, on_values. rewrite Hb.
  pose proof (holds_room _ _ Hhb). rewrite write_cell_ok by lia. eexists. split; [done|]. split; [done|].
  eexists a, _. split_and!; [done|done|done|by apply holds_insert|..]; simpl; lia.
Qed.

Lemma vecs_lookup q h i x : vecs q h → h !! i = Some x →
  score_at i q = (Ret x.1, q) ∧ value_at i q = (Ret x.2, q).
Proof.
  intros Hq Hi. split; [eapply score_at_spec|eapply value_at_spec]; try done; by rewrite list_lookup_fmap, Hi.
Qed.

Lemma same_trans q q' q'' : same q q' → same q' q'' → same q q''.
Proof. unfold same. naive_solver congruence. Qed.

Lemma swap_spec q h i j :
  vecs q h → i < length h → j < length h →
  ∃ q', swap i j q = (Ret tt, q') ∧ same q q' ∧ vecs q' (hswap i j h).
Proof.
  intros Hq [x Hx]%lookup_lt_is_Some_2 [y Hy]%lookup_lt_is_Some_2. unfold swap.
  pose proof (lookup_lt_Some _ _ _ Hx). pose proof (lookup_lt_Some _ _ _ Hy).
  destruct (vecs_lookup q h i x Hq Hx) as [E1 E2]. run. rewrite E1. run. rewrite E2. run.
  set (q0 := tset_temp q x.1 x.2). assert (vecs q0 h) as Hq0 by exact Hq.
  destruct (vecs_lookup q0 h j y Hq0 Hy) as [E3 E4]. rewrite E3. run. rewrite E4. run.
  destruct (set_score_spec q0 _ _ i y.1 Hq0) as (q1 & -> & Hs1 & Hq1); [by rewrite length_fmap|]. run.
  destruct (set_value_spec q1 _ _ i y.2 Hq1) as (q2 & -> & Hs2 & Hq2); [by rewrite length_fmap|]. run.
  destruct (set_score_spec q2 _ _ j x.1 Hq2) as (q3 & -> & Hs3 & Hq3); [by rewrite length_insert, length_fmap|]. run.
  destruct (set_value_spec q3 _ _ j x.2 Hq3) as (q4 & -> & Hs4 & Hq4); [by rewrite length_insert, length_fmap|].
  exists q4. split; [done|]. split; [eauto using same_trans|].
  unfold hswap. rewrite Hx, Hy. rewrite <- !list_fmap_insert in Hq4. exact Hq4.
Qed.

(** ** The two sifting loops *)

Lemma sift_up_spec fuel c q h :
  vecs q h → c < length h → c < fuel → heap_up c h →
  ∃ q' h', sift_up slt fuel c q = (Ret tt, q') ∧ same q q' ∧ vecs q' h' ∧ heap h' ∧ h' ≡ₚ h.
Proof.
  revert c q h. induction fuel as [|fuel IH]; intros c q h Hq Hc Hf Hh; [lia|]. simpl.
  destruct c as [|c].
  { exists q, h. split_and!; [done|done|done|by apply heap_up_root|done]. }
  set (c1 := Datatypes.S c) in *. set (p := Nat.div2 (c1 - 1)).
  assert (child p c1 ∧ p < c1) as [Hpc Hlt].
  { unfold p, c1, child. simpl. rewrite Nat.sub_0_r. pose proof (Nat.div2_odd c).
    destruct (Nat.odd c); simpl in *; lia. }
  destruct (lookup_lt_is_Some_2 h c1 Hc) as [x Hx].
  destruct (lookup_lt_is_Some_2 h p ltac:(lia)) as [y Hy].
  run. rewrite (proj1 (vecs_lookup q h _ _ Hq Hx)).
  run. rewrite (proj1 (vecs_lookup q h _ _ Hq Hy)).
  destruct (slt x.1 y.1) eqn:Hxy.
  - run. destruct (swap_spec q h c1 p Hq) as (q1 & -> & Hs1 & Hq1); [lia|lia|].
    destruct (IH p q1 (hswap c1 p h) Hq1) as (q' & h' & E & Hs & Hq' & Hh' & Hp).
    + rewrite length_hswap. lia.
    + lia.
    + by eapply heap_up_swap.
    + exists q', h'. split; [done|]. split_and!; [by eapply same_trans|done|done|].
      by rewrite Hp, hswap_Permutation.
  - exists q, h. split_and!; [done|done|done|by eapply heap_up_done|done].
Qed.

Lemma sift_down_step q h p c x y fuel :
  vecs q h → child p c → h !! c = Some x → h !! p = Some y →
  heap_down p h → (∀ b z, child p b → h !! b = Some z → slt z.1 x.1 = false) →
  (∀ q1, vecs q1 (hswap c p h) → heap_down c (hswap c p h) →
    ∃ q' h', sift_down slt fuel (length h) c q1 = (Ret tt, q') ∧ same q1 q' ∧ vecs q' h' ∧ heap h' ∧
      h' ≡ₚ hswap c p h) →
  ∃ q' h', (ss ← score_at c; sc ← score_at p;
            if slt ss sc then swap c p ;; sift_down slt fuel (length h) c else mret tt) q = (Ret tt, q') ∧
    same q q' ∧ vecs q' h' ∧ heap h' ∧ h' ≡ₚ h.
Proof.
  intros Hq Hpc Hx Hy Hh Hmin IH. run.
  rewrite (proj1 (vecs_lookup q h _ _ Hq Hx)). run. rewrite (proj1 (vecs_lookup q h _ _ Hq Hy)).
  destruct (slt x.1 y.1) eqn:Hxy.
  - run. destruct (swap_spec q h c p Hq) as (q1 & -> & Hs1 & Hq1); [by eapply lookup_lt_Some..|].
    destruct (IH q1 Hq1) as (q' & h' & E & Hs & Hq' & Hh' & Hp); [by eapply heap_down_swap|].
    exists q', h'. split; [done|]. split_and!; [by eapply same_trans|done|done|].
    by rewrite Hp, hswap_Permutation.
  - exists q, h. split_and!; [done|done|done| |done].
    apply (heap_down_done p); [done|]. intros b Hb. intros u w Hu Hw. simplify_eq.
    eapply slt_trans; [exact Hxy|]. by eapply Hmin.
Qed.

Lemma sift_down_spec fuel c q h :
  vecs q h → c < length h → length h - c < fuel → heap_down c h →
  ∃ q' h', sift_down slt fuel (length h) c q = (Ret tt, q') ∧ same q q' ∧ vecs q' h' ∧ heap h' ∧ h' ≡ₚ h.
Proof.
  revert c q h. induction fuel as [|fuel IH]; intros c q h Hq Hc Hf Hh; [lia|]. simpl.
  destruct (lookup_lt_is_Some_2 h c Hc) as [y Hy].
  assert (∀ d, c < d → d < length h → ∀ q1, vecs q1 (hswap d c h) → heap_down d (hswap d c h) →
    ∃ q' h', sift_down slt fuel (length h) d q1 = (Ret tt, q') ∧ same q1 q' ∧ vecs q' h' ∧ heap h' ∧
      h' ≡ₚ hswap d c h) as IH'.
  { intros d Hd Hdl q1 Hq1 Hh1. rewrite <- (length_hswap d c h). apply IH; rewrite ?length_hswap; done || lia. }
  destruct (decide (c * 2 + 2 < length h)).
  - destruct (lookup_lt_is_Some_2 h (c * 2 + 1) ltac:(lia)) as [x1 Hx1].
    destruct (lookup_lt_is_Some_2 h (c * 2 + 2) ltac:(lia)) as [x2 Hx2].
    run. rewrite (proj1 (vecs_lookup q h _ _ Hq Hx1)). run.
    rewrite (proj1 (vecs_lookup q h _ _ Hq Hx2)).
    assert (∀ b z, child c b → h !! b = Some z → z = x1 ∨ z = x2) as Hch.
    { intros b z [->| ->] Hz; [left|right].
      - rewrite (Nat.mul_comm 2) in Hz. by simplify_eq.
      - rewrite (Nat.mul_comm 2) in Hz. by simplify_eq. }
    destruct (slt x1.1 x2.1) eqn:Hlt.
    + eapply sift_down_step; eauto; [unfold child; lia| |apply IH'; lia].
      intros b z Hb Hz. destruct (Hch b z Hb Hz) as [->| ->]; [apply slt_irrefl|by apply slt_asym].
    + eapply sift_down_step; eauto; [unfold child; lia| |apply IH'; lia].
      intros b z Hb Hz. destruct (Hch b z Hb Hz) as [->| ->]; [done|apply slt_irrefl].
  - destruct (decide (c * 2 + 1 < length h)).
    + destruct (lookup_lt_is_Some_2 h (c * 2 + 1) ltac:(lia)) as [x1 Hx1].
      eapply sift_down_step; eauto; [unfold child; lia| |apply IH'; lia].
      intros b z [->| ->] Hz; [|apply lookup_lt_Some in Hz; lia].
      rewrite (Nat.mul_comm 2) in Hz. simplify_eq. apply slt_irrefl.
    + exists q, h. split_and!; [done|done|done| |done].
      apply (heap_down_done c); [done|]. intros b Hb u w Hu Hw. apply lookup_lt_Some in Hw.
      unfold child in Hb. lia.
Qed.

(** ** insert *)

Lemma push_score_spec q ls lv s :
  vecs2 q ls lv → (Z.of_nat (length ls) ≤ Z.max 1 (tk_k q))%Z → (tk_k q ≤ 1073741823)%Z →
  ∃ q', on_scores (Vector_push_back dS vplenty s) q = (Ret tt, q') ∧ same q q' ∧ vecs2 q' (ls ++ [s]) lv.
Proof.
  intros (a & b & Ha & Hb & Hha & Hhb & Hka & Hkb) Hl Hk. unfold on_scores. rewrite Ha.
  pose proof (Vector_push_back_cases dS vplenty s a ls Hha ltac:(lia)) as Hp.
  destruct (Vector_push_back _ _ _ _) as [[[]| | |] a']; try done; [|by destruct Hp].
  destruct Hp as [Hh' Hn]. eexists. split; [done|]. split; [done|].
  exists a', b. split_and!; try done; simpl; lia.
Qed.

Lemma push_value_spec q ls lv v :
  vecs2 q ls lv → (Z.of_nat (length lv) ≤ Z.max 1 (tk_k q))%Z → (tk_k q ≤ 1073741823)%Z →
  ∃ q', on_values (Vector_push_back dV vplenty v) q = (Ret tt, q') ∧ same q q' ∧ vecs2 q' ls (lv ++ [v]).
Proof.
  intros (a & b & Ha & Hb & Hha & Hhb & Hka & Hkb) Hl Hk. unfold on_values. rewrite Hb.
  pose proof (Vector_push_back_cases dV vplenty v b lv Hhb ltac:(lia)) as Hp.
  destruct (Vector_push_back _ _ _ _) as [[[]| | |] b']; try done; [|by destruct Hp].
  destruct Hp as [Hh' Hn]. eexists. split; [done|]. split; [done|].
  exists a, b'. split_and!; try done; simpl; lia.
Qed.

(** Pushing an item on both vectors. *)
Lemma push_item_spec q h s v :
  vecs q h → (Z.of_nat (length h) ≤ Z.max 1 (tk_k q))%Z → (tk_k q ≤ 1073741823)%Z →
  ∃ q' q1, on_scores (Vector_push_back dS vplenty s) q = (Ret tt, q1) ∧
    on_values (Vector_push_back dV vplenty v) q1 = (Ret tt, q') ∧ same q q' ∧ vecs q' (h ++ [(s, v)]).
Proof.
  intros Hq Hl Hk.
  destruct (push_score_spec q _ _ s Hq) as (q1 & E1 & Hs1 & Hq1); [by rewrite length_fmap|done|].
  destruct (push_value_spec q1 _ _ v Hq1) as (q2 & E2 & Hs2 & Hq2).
  { destruct Hs1 as [-> _]. by rewrite length_fmap. }
  { by destruct Hs1 as [-> _]. }
  exists q2, q1. split_and!; [done|done|by eapply same_trans|]. unfold vecs. by rewrite !fmap_app.
Qed.

Lemma pop_item_spec q h x :
  vecs q (h ++ [x]) →
  ∃ q' q1, on_scores Vector_pop_back q = (Ret tt, q1) ∧ on_values Vector_pop_back q1 = (Ret tt, q') ∧
    same q q' ∧ vecs q' h.
Proof.
  intros (a & b & Ha & Hb & Hha & Hhb & Hka & Hkb).
  destruct (Vector_pop_back_spec a _ Hha) as (a' & Ea & Hha' & Hna).
  destruct (Vector_pop_back_spec b _ Hhb) as (b' & Eb & Hhb' & Hnb).
  exists (tset_values (tset_scores q (Some a')) (Some b')), (tset_scores q (Some a')).
  unfold on_scores, on_values. simpl. rewrite Ha, Ea. rewrite Hb, Eb. split_and!; [done|done|done|].
  rewrite fmap_app, length_app, Nat.add_sub, take_app_length in Hha'.
  rewrite fmap_app, length_app, Nat.add_sub, take_app_length in Hhb'.
  exists a', b'. split_and!; try done; simpl; lia.
Qed.

(** Removing the root of a heap of at least two items. *)
Lemma drop_worst_spec q x y t :
  vecs q (x :: t ++ [y]) → heap (x :: t ++ [y]) →
  ∃ q' h', drop_worst slt q = (Ret tt, q') ∧ same q q' ∧ vecs q' h' ∧ heap h' ∧ h' ≡ₚ y :: t.
Proof.
  intros Hq Hh. unfold drop_worst. set (h := x :: t ++ [y]) in *.
  assert (h !! (length h - 1) = Some y) as Hlast.
  { unfold h. simpl. rewrite length_app. simpl. rewrite Nat.sub_0_r, Nat.add_1_r. simpl.
    rewrite lookup_app_r by lia. by rewrite Nat.sub_diag. }
  run. rewrite (scores_size_spec q _ _ Hq), length_fmap. run.
  rewrite (proj1 (vecs_lookup q h _ _ Hq Hlast)). run.
  destruct (set_score_spec q _ _ 0 y.1 Hq) as (q1 & -> & Hs1 & Hq1); [simpl; lia|]. run.
  rewrite (value_at_spec q1 _ _ (length h - 1) y.2 Hq1) by by rewrite list_lookup_fmap, Hlast. run.
  destruct (set_value_spec q1 _ _ 0 y.2 Hq1) as (q2 & -> & Hs2 & Hq2); [simpl; lia|]. run.
  assert (vecs q2 ((y :: t) ++ [y])) as Hq2' by exact Hq2.
  destruct (pop_item_spec q2 (y :: t) y Hq2') as (q4 & q3 & -> & E4 & Hs4 & Hq4). run. rewrite E4. run.
  rewrite (scores_size_spec q4 _ _ Hq4), length_fmap. run.
  destruct (sift_down_spec (Datatypes.S (length (y :: t))) 0 q4 (y :: t) Hq4) as (q' & h' & E & Hs & Hq' & Hh' & Hp).
  - simpl. lia.
  - lia.
  - by eapply heap_down_root.
  - exists q', h'. split; [exact E|]. split_and!; eauto using same_trans.
Qed.

(** ** Keeping the best items *)

Lemma best_append k l h h' x :
  best k l h → (Z.of_nat (length h) < Z.max 1 k)%Z → h' ≡ₚ h ++ [x] → best k (l ++ [x]) h'.
Proof.
  intros (rest & Hp & Hl & Ho) Hlt Hh'. assert (rest = []) as ->.
  { pose proof (Permutation_length Hp) as Hlen. rewrite length_app in Hlen.
    destruct rest; [done|]. simpl in Hlen. lia. }
  rewrite app_nil_r in Hp. exists []. rewrite app_nil_r. split_and!.
  - by rewrite Hh', Hp.
  - rewrite Hh', length_app, <- Hp, length_app. simpl. lia.
  - intros a b _ Hb. by apply elem_of_nil in Hb.
Qed.

Lemma best_reject k l h x :
  best k l h → (Z.max 1 k ≤ Z.of_nat (length h))%Z → (∀ y, y ∈ h → slt y.1 x.1 = false) →
  best k (l ++ [x]) h.
Proof.
  intros (rest & Hp & Hl & Ho) Hge Hx. exists (x :: rest). split_and!.
  - rewrite <- Hp, <- app_assoc. apply Permutation_app_head. apply Permutation_cons_append.
  - rewrite length_app. simpl. lia.
  - intros a b Ha [->|Hb]%elem_of_cons; [by apply Hx|by apply Ho].
Qed.

Lemma best_replace k l h h' x r m :
  best k l h → (Z.max 1 k ≤ Z.of_nat (length h))%Z → r :: h' ≡ₚ h ++ [x] →
  (∀ y, y ∈ h' → slt y.1 r.1 = false) → m ∈ h → slt x.1 m.1 = false → 
  best k (l ++ [x]) h'.
Proof.
  intros (rest & Hp & Hl & Ho) Hge Hr Hmin Hm Hx. exists (r :: rest). split_and!.
  - rewrite <- Permutation_middle, app_comm_cons, Hr, <- Hp, <- !app_assoc.
    apply Permutation_app_head, Permutation_app_comm.
  - apply Permutation_length in Hr. rewrite length_app in *. simpl in *. lia.
  - intros a b Ha [->|Hb]%elem_of_cons; [by apply Hmin|].
    assert (a ∈ h ++ [x]) as Ha' by (rewrite <- Hr; by constructor).
    apply elem_of_app in Ha' as [Ha'|Ha'%list_elem_of_singleton]; [by apply Ho|].
    subst a. eapply slt_trans; [by apply (Ho m b)|done].
Qed.

Lemma insert_heap_spec q h s v :
  vecs q h → heap h → 1 ≤ length h → (Z.of_nat (length h) ≤ Z.max 1 (tk_k q))%Z →
  (tk_k q ≤ 1073741823)%Z →
  ∃ q' h', insert_heap slt dS dV tkplenty s v q = (Ret tt, q') ∧ same q q' ∧ vecs q' h' ∧ heap h' ∧
    1 ≤ length h' ∧ ∀ l, best (tk_k q) l h → best (tk_k q) (l ++ [(s, v)]) h'.
Proof.
  intros Hq Hh Hl1 HlK Hk. unfold insert_heap.
  destruct (lookup_lt_is_Some_2 h 0 ltac:(lia)) as [m Hm].
  assert (m ∈ h) as Hmin by by eapply list_elem_of_lookup_2.
  run. rewrite (proj1 (vecs_lookup q h _ _ Hq Hm)). run. rewrite (scores_size_spec q _ _ Hq), length_fmap. run.
  destruct (slt s m.1 && _) eqn:Hrej.
  { apply andb_true_iff in Hrej as [Hsm Hfull%Z.leb_le]. exists q, h. split_and!; try done.
    intros l Hb. apply best_reject; [done|lia|]. intros y [i Hi]%list_elem_of_lookup.
    eapply slt_trans; [by eapply slt_asym|]. by eapply heap_root. }
  run. destruct (push_item_spec q h s v Hq HlK Hk) as (q2 & q1 & E1 & E2 & Hs2 & Hq2).
  simpl. rewrite E1. run. rewrite E2. run.
  rewrite (scores_size_spec q2 _ _ Hq2), length_fmap. run.
  destruct (sift_up_spec (length (h ++ [(s, v)])) (length (h ++ [(s, v)]) - 1) q2 _ Hq2)
    as (q3 & h3 & E3 & Hs3 & Hq3 & Hh3 & Hp3).
  { rewrite length_app. simpl. lia. }
  { rewrite length_app. simpl. lia. }
  { rewrite length_app, Nat.add_sub. by apply heap_up_snoc. }
  rewrite E3. run. rewrite (scores_size_spec q3 _ _ Hq3), length_fmap. run.
  assert (same q q3) as Hs by by eapply same_trans.
  assert (length h3 = length h + 1) as Hl3 by (by rewrite Hp3, length_app).
  destruct Hs as [Hks Hes]. rewrite Hl3. destruct (Z.leb_spec (Z.of_nat (length h + 1)) (tk_k q)) as [Hfit|Hover].
  { exists q3, h3. split_and!; try done; [lia|]. intros l Hb. eapply best_append; [done|lia|done]. }
  destruct h3 as [|r h3]; [simpl in *; lia|].
  destruct (exists_last (l:=h3)) as (t & y & ->); [destruct h3; simpl in *; [lia|done]|].
  destruct (drop_worst_spec q3 r y t Hq3 Hh3) as (q4 & h4 & E4 & [Hk4 He4] & Hq4 & Hh4 & Hp4).
  exists q4, h4. split_and!; [done|split; congruence|done|done|rewrite Hp4; simpl; lia|].
  assert (∀ z, z ∈ h4 → slt z.1 r.1 = false) as Hr.
  { intros z Hz. rewrite Hp4, Permutation_cons_append in Hz. apply list_elem_of_lookup in Hz as [i Hi].
    by apply (heap_root (r :: t ++ [y]) r z (Datatypes.S i) Hh3). }
  assert (r :: h4 ≡ₚ h ++ [(s, v)]) as Hp.
  { rewrite <- Hp3, Hp4. constructor. apply Permutation_cons_append. }
  intros l Hb. apply andb_false_iff in Hrej. destruct (decide (slt s m.1 = true)) as [Hsm|Hsm].
  - destruct Hrej as [?|Hroom%Z.leb_gt]; [congruence|].
    lia.
  - apply not_true_is_false in Hsm. eapply (best_replace _ l h h4 _ r m); try done. lia.
Qed.

Lemma make_vectors_spec q :
  tk_scores q = None → tk_values q = None → (tk_k q ≤ 1073741823)%Z →
  ∃ q', make_vectors dS dV tkplenty q = (Ret tt, q') ∧ same q q' ∧
    vecs q' [(tk_tempScore q, tk_tempValue q)].
Proof.
  intros Hs Hv Hk. unfold make_vectors. simpl. run.
  set (q0 := tset_values (tset_scores q (Some Vector_default)) (Some Vector_default)).
  assert (vecs q0 []) as Hq0.
  { exists Vector_default, Vector_default. unfold Vector_default.
    split_and!; [done|done|apply Array_new_holds; word_lia|apply Array_new_holds; word_lia|simpl; lia..]. }
  destruct (push_item_spec q0 [] (tk_tempScore q0) (tk_tempValue q0) Hq0) as (q2 & q1 & E1 & E2 & Hs2 & Hq2);
    [simpl; lia|done|].
  cbn [tk_first_score tk_first_value tkplenty]. fold q0. rewrite E1. run. rewrite E2. by exists q2.
Qed.

(** ** The queue as the best items inserted so far *)

(** [q] is what inserting the items [l] leaves. *)
Definition represents q l : Prop := ∃ h, items slt q h ∧ best (tk_k q) l h.

Lemma best_length k l h : best k l h → length h = Z.to_nat (Z.max 1 k) `min` length l.
Proof. by intros (? & _ & ? & _). Qed.

Lemma best_nil k : best k ([] : list (S * V)) [].
Proof. exists []. split_and!; [done|simpl; lia|]. intros x y Hx. by apply elem_of_nil in Hx. Qed.

Lemma heap_one x : heap [x].
Proof. intros p c Hc u w _ Hw. apply lookup_lt_Some in Hw. unfold child in Hc. simpl in Hw. lia. Qed.

Lemma insert_represents q l s v :
  represents q l → (tk_k q ≤ 1073741823)%Z →
  ∃ q', insert slt dS dV tkplenty s v q = (Ret tt, q') ∧ tk_k q' = tk_k q ∧ represents q' (l ++ [(s, v)]).
Proof.
  intros (h & Hi & Hb) Hk. unfold insert. run. pose proof (best_length _ _ _ Hb) as Hlen.
  destruct Hi as [He Hs Hv|He Hs Hv|h He Hq Hh Hl]; rewrite He.
  - run. eexists. split; [done|]. split; [done|]. exists [(s, v)]. split.
    { by apply items_one. }
    eapply best_append; [exact Hb|simpl; lia|done].
  - destruct (make_vectors_spec q Hs Hv Hk) as (q1 & E1 & [Hk1 He1] & Hq1). run. rewrite Hs, E1. run.
    destruct (insert_heap_spec q1 _ s v Hq1 (heap_one _)) as (q' & h' & -> & [Hk2 He2] & Hq' & Hh' & Hl' & Hb');
      [simpl; lia|simpl; lia|lia|].
    exists q'. split_and!; [done|congruence|]. exists h'. split.
    { apply items_heap; [congruence|done|done|done]. }
    rewrite Hk2, Hk1 in *. by apply Hb'.
  - destruct Hq as (a & b & Ha & Hrest). rewrite Ha. run.
    destruct (insert_heap_spec q h s v) as (q' & h' & -> & [Hk2 He2] & Hq' & Hh' & Hl' & Hb');
      [by exists a, b|done|done|lia|done|].
    exists q'. split_and!; [done|done|]. exists h'. split.
    { apply items_heap; [congruence|done|done|done]. }
    rewrite Hk2. by apply Hb'.
Qed.

(** Inserting a list of items. *)
Fixpoint insert_all (xs : list (S * V)) : M (TopKQueue S V) unit :=
  match xs with
  | [] => mret tt
  | (s, v) :: xs' => insert slt dS dV tkplenty s v ;; insert_all xs'
  end.

Lemma insert_all_represents xs q l :
  represents q l → (tk_k q ≤ 1073741823)%Z →
  ∃ q', insert_all xs q = (Ret tt, q') ∧ tk_k q' = tk_k q ∧ represents q' (l ++ xs).
Proof.
  revert q l. induction xs as [|[s v] xs IH]; intros q l Hq Hk; simpl.
  { exists q. by rewrite app_nil_r. }
  destruct (insert_represents q l s v Hq Hk) as (q1 & E1 & Hk1 & Hq1). run. rewrite E1.
  destruct (IH q1 _ Hq1 ltac:(lia)) as (q' & E & Hk' & Hq'). exists q'.
  rewrite <- app_assoc in Hq'. split_and!; [done|congruence|done].
Qed.

(** Reading a queue item by item. *)
Lemma TopKQueue_at_items q h :
  items slt q h → (∀ i x, h !! i = Some x → TopKQueue_at q i = Ret x) ∧
    ∀ i, length h ≤ i → TopKQueue_at q i = Exit 1.
Proof.
  unfold TopKQueue_at. intros [He Hs Hv|He Hs Hv|h' He (a & b & Ha & Hb & Hha & Hhb & _) Hh Hl]; rewrite He.
  - split; [intros i x Hi; by rewrite lookup_nil in Hi|done].
  - rewrite Hv. split; [|intros i Hi; simpl in Hi; by rewrite decide_False by lia].
    intros [|i] x Hi; simpl in Hi; [by simplify_eq|by rewrite lookup_nil in Hi].
  - rewrite Hb. unfold Vector_size, numUsedSlots. rewrite (holds_used _ _ Hhb), length_fmap. split.
    + intros i x Hi. pose proof (lookup_lt_Some _ _ _ Hi). rewrite (proj2 (Z.ltb_lt _ _)) by lia.
      rewrite Ha. unfold getObj. rewrite Nat2Z.id.
      rewrite (holds_lookup a _ i x.1 Hha) by by rewrite list_lookup_fmap, Hi. simpl.
      rewrite (holds_lookup b _ i x.2 Hhb) by by rewrite list_lookup_fmap, Hi. simpl. by destruct x.
    + intros i Hi. by rewrite (proj2 (Z.ltb_ge _ _)) by lia.
Qed.

(** The best of a union are among the best of each part. *)
Lemma best_merge k k' l l' h' h :
  best k' l' h' → (k ≤ k')%Z → best k (l ++ h') h → best k (l ++ l') h.
Proof.
  intros (r' & Hp' & Hl' & Ho') Hk (r & Hp & Hl & Ho). exists (r ++ r'). split_and!.
  - by rewrite app_assoc, Hp, <- Hp', app_assoc.
  - rewrite Hl, !length_app. lia.
  - intros x y Hx [Hy|Hy]%elem_of_app; [by apply Ho|].
    destruct (Permutation_cross_split _ _ _ _ Hp) as (ha & hb & ra & rb & Hh & Hr & Hll & Hh').
    destruct rb as [|z rb].
    + rewrite app_nil_r in Hh'. apply (Ho' x y); [|done].
      apply Permutation_length in Hp', Hh as Hlh, Hh' as Hlh'. rewrite !length_app in *.
      assert (0 < length r') by (destruct r'; [by apply elem_of_nil in Hy|simpl; lia]).
      assert (ha = []) as -> by (apply length_zero_iff_nil; lia).
      simpl in Hh. by rewrite <- Hh', Hh.
    + assert (z ∈ h') as Hz' by (rewrite <- Hh'; apply elem_of_app; right; constructor).
      assert (z ∈ r) as Hz by (rewrite <- Hr; apply elem_of_app; right; constructor).
      eapply slt_trans; [by apply (Ho' z y)|by apply Ho].
Qed.

Lemma merge_loop_spec fuel i (a : Array S) (b : Array V) h q :
  holds a h.*1 → holds b h.*2 → i + fuel = length h →
  merge_loop slt dS dV tkplenty fuel i a b q = insert_all (drop i h) q.
Proof.
  intros Ha Hb. revert i q. induction fuel as [|fuel IH]; intros i q Hi.
  { rewrite drop_ge by lia. done. }
  destruct (lookup_lt_is_Some_2 h i ltac:(lia)) as [[s v] Hx].
  rewrite (drop_S _ _ _ Hx). simpl. run. unfold getObj. rewrite Nat2Z.id.
  rewrite (holds_lookup a _ i s Ha) by by rewrite list_lookup_fmap, Hx. run.
  rewrite (holds_lookup b _ i v Hb) by by rewrite list_lookup_fmap, Hx. run.
  destruct (insert _ _ _ _ _ _ _) as [[[]| | |] q1]; try done. apply IH. lia.
Qed.

(** ** Properties *)

(** [C29] Top-k: after inserting any list of items into a new queue of size
    [k], the items read back by index are [max 1 k] items of the list (all of
    them when there are fewer), none scores below an item left out, and the
    index after the last is refused. *)
Theorem TopKQueue_inserts_best (k : Z) (xs : list (S * V)) :
  (0 ≤ k ≤ 1073741823)%Z →
  ∃ q c, insert_all xs (TopKQueue_new dS dV k) = (Ret tt, q) ∧ best k xs c ∧
    (∀ i x, c !! i = Some x → TopKQueue_at q i = Ret x) ∧ TopKQueue_at q (length c) = Exit 1.
Proof.
  intros Hk. destruct (insert_all_represents xs (TopKQueue_new dS dV k) []) as (q & E & Hkq & c & Hc & Hb).
  - exists []. split; [by apply items_none|apply best_nil].
  - simpl. lia.
  - exists q, c. rewrite Hkq in Hb. simpl in Hb. destruct (TopKQueue_at_items q c Hc) as [Hat Hend].
    split_and!; [done|done|done|by apply Hend].
Qed.

(** Merging: if two queues are what inserting [l] and [l'] leaves, and
    the merged-in queue keeps at least as many items, then [operator+] leaves
    what inserting [l] and [l'] into one queue leaves: no item among the best
    of both is lost by keeping only the best of each. *)
Theorem merge_best (q q' : TopKQueue S V) (l l' : list (S * V)) :
  represents q l → represents q' l' → (tk_k q ≤ tk_k q')%Z → (tk_k q ≤ 1073741823)%Z →
  ∃ q'', merge slt dS dV tkplenty q' q = (Ret tt, q'') ∧ tk_k q'' = tk_k q ∧ represents q'' (l ++ l').
Proof.
  intros Hq (h' & Hi & Hb) Hk Hk1.
  assert (∃ q'', merge slt dS dV tkplenty q' q = (Ret tt, q'') ∧ tk_k q'' = tk_k q ∧ represents q'' (l ++ h'))
    as (q'' & E & Hkq & h & Hh & Hbh).
  { unfold merge. pose proof (best_length _ _ _ Hb) as Hlen.
    destruct Hi as [He Hs Hv|He Hs Hv|h' He (a & b & Ha & Hv & Hha & Hhb & _) Hh Hl]; rewrite He.
    - exists q. by rewrite app_nil_r.
    - rewrite Hs. by apply insert_represents.
    - rewrite Ha, Hv. unfold Vector_size, numUsedSlots.
      rewrite (holds_used _ _ Hha), length_fmap, Nat2Z.id.
      destruct (insert_all_represents h' q l Hq Hk1) as (q'' & E & Hk' & Hq'').
      exists q''. split_and!; [|done|done]. by rewrite (merge_loop_spec _ 0 a b h' q Hha Hhb). }
  exists q''. split_and!; [done|done|]. exists h. split; [done|].
  rewrite Hkq in *. by eapply best_merge.
Qed.
End facts.

(** ** Witnesses and counterexamples *)

Lemma TopKQueue_inserts_best_witness :
  ∃ q c, insert_all Z.ltb 0%Z 0%Z [(5, 50); (9, 90); (2, 20); (7, 70)]%Z (TopKQueue_new 0%Z 0%Z 2) =
      (Ret tt, q) ∧ best Z.ltb 2 [(5, 50); (9, 90); (2, 20); (7, 70)]%Z c ∧
    (∀ i x, c !! i = Some x → TopKQueue_at q i = Ret x) ∧ TopKQueue_at q (length c) = Exit 1.
Proof. apply (TopKQueue_inserts_best Z.ltb 0%Z 0%Z 2). lia. Defined.

Lemma merge_best_witness :
  let q := TopKQueue_init 2 5%Z 50%Z in let q' := TopKQueue_init 2 7%Z 70%Z in
  ∃ q'', merge Z.ltb 0%Z 0%Z tkplenty q' q = (Ret tt, q'') ∧ tk_k q'' = tk_k q ∧
    represents Z.ltb q'' [(5, 50); (7, 70)]%Z.
Proof.
  assert (∀ s v : Z, represents Z.ltb (TopKQueue_init 2 s v) [(s, v)]) as Hone.
  { intros s v. exists [(s, v)]. split; [apply items_one; reflexivity|].
    exists []. split_and!; [reflexivity|reflexivity|]. intros x y _ Hy. by apply elem_of_nil in Hy. }
  apply (merge_best Z.ltb 0%Z 0%Z _ _ [(5, 50)]%Z [(7, 70)]%Z (Hone _ _) (Hone _ _)); simpl; lia.
Defined.

(** [insert] is not exception safe: when the score was pushed and the
    push of the value throws, the two vectors differ in length.  Here the item
    (9, 90) fails and is inserted again, then (11, 110) is inserted: the value
    110 is reported with the score 9. *)
Theorem insert_throw_shifts_values :
  let throws := TkSpace true true vplenty vplenty vplenty (VSpace true (λ _, true) false) in
  let ins := insert Z.ltb 0%Z 0%Z in
  let q1 := (insert_all Z.ltb 0%Z 0%Z [(5, 50); (7, 70)]%Z (TopKQueue_new 0%Z 0%Z 10)).2 in
  match ins throws 9%Z 90%Z q1 with
  | (NotEnoughSpace, q2) =>
      TopKQueue_at (insert_all Z.ltb 0%Z 0%Z [(9, 90); (11, 110)]%Z q2).2 3 = Ret (9, 110)%Z
  | _ => False
  end.
Proof. vm_compute. done. Qed.

(** [size] dereferences the vector of values, which does not exist in a
    queue of one item: a queue made from an item, which [operator[]] reads at
    index 0, has no defined size. *)
Theorem size_of_one_item_undefined :
  let q := TopKQueue_init 5 3%Z 30%Z in
  TopKQueue_at q 0 = Ret (3, 30)%Z ∧ TopKQueue_size q = Undefined.
Proof. done. Qed.
