(* ===== verification/Aggregation.v ===== *)
(** * Aggregation: sinks and processors that aggregate key-value pairs

    Models [queryExecution/headers/ShuffleSink.h], [CombinedShuffleSink.h],
    [CombinerProcessor.cc], [AggregationProcessor.cc], [AggOutProcessor.cc] and
    the loops of [queryExecution/source/PipelineStage.cc] and
    [serverFunctionalities/source/HermesExecutionServer.cc] that drive them.

    A query that aggregates runs in three steps: each pipeline adds its tuples
    to maps on output pages, one map per hash partition ([ShuffleSink]); each
    node combines the pages of its pipelines for the partitions of another node
    ([CombinerProcessor]); each partition aggregates the maps it receives
    ([AggregationProcessor]).  A page that is full is sent and a fresh one taken,
    so the same key may be on many pages.  All three add a pair to a [Map] with
    the same statements, [add_tuple] here. *)

From S2P Require Import Prelude HashProbe PairArray.

(** Which allocations of adding one pair fit: those of [operator[]], the copy of
    the old value to a local, the assignment of the value, and, in the exception
    handler, putting the old value back; [torn] is what a failed assignment
    leaves behind. *)
Record tuple_space {V : Type} := TupleSpace {
  at_space : space;
  fits_copy : bool;
  fits_value : bool;
  fits_restore : bool;
  torn : V
}.
Arguments tuple_space : clear implicits.
Arguments TupleSpace {V}.

(** A place that holds one map inside a larger state. *)
Record place {K V : Type} {S : Type} := Place {
  view : S → option (PairArray K V);
  update : PairArray K V → S → S
}.
Arguments place : clear implicits.
Arguments Place {K V S}.

(** A tuple set, as far as its two columns matter, and the container on the
    output page. *)
Record sink {K V O : Type} := Sink {
  keyColumn : list K;
  valueColumn : list V;
  container : O
}.
Arguments sink : clear implicits.
Arguments Sink {K V O}.

(** A method of the map at a place; there is no map at a bad index. *)
Definition on {K V S A} (l : place K V S) (m : M (PairArray K V) A) : M S A := λ s,
  match view l s with
  | Some t => let '(r, t') := m t in (r, update l t' s)
  | None => (Undefined, s)
  end.

Section aggregation.
Context {RS : RecordSize} {K V : Type} `{Countable K}.
(** The hash of a key, the default value, and [operator+] of the values. *)
Context (hash_impl : K → Z) (dV : V) (plus : V → V → V).
Implicit Types (pa t : PairArray K V) (k : K) (v : V).

(** ** Adding a pair *)

(** [*temp = v] and [temp = v] through a reference; [ValueType copy = temp]. *)
Definition set_value (fits : bool) (left : V) (i : nat) (v : V) : M (PairArray K V) unit :=
  if fits then assign_value i v else assign_value i left ;; lift NotEnoughSpace.

Definition copy_value (fits : bool) (i : nat) : M (PairArray K V) V := λ pa,
  match value_at pa i with
  | Some v => if fits then (Ret v, pa) else (NotEnoughSpace, pa)
  | None => (Undefined, pa)
  end.

(** The body of the loops: a missing key is inserted, and erased again when its
    value does not fit; the value of a present key is replaced by the sum, and
    put back when the sum does not fit.  [failed] is what the handlers of the
    sinks do besides. *)
Definition add_tuple {S} (l : place K V S) (failed : M S unit) (sp : tuple_space V) (k : K) (v : V) : M S unit :=
  c ← on l (Map_count hash_impl k);
  if (c =? 0)%Z then
    temp ← catch (on l (Map_at hash_impl dV (at_space sp) k)) (failed ;; lift NotEnoughSpace);
    catch (on l (set_value (fits_value sp) (torn sp) temp v))
      (on l (Map_setUnused hash_impl k) ;; failed ;; lift NotEnoughSpace)
  else
    temp ← on l (Map_at hash_impl dV (at_space sp) k);
    copy ← on l (copy_value (fits_copy sp) temp);
    catch (on l (set_value (fits_value sp) (torn sp) temp (plus copy v)))
      (on l (set_value (fits_restore sp) (torn sp) temp copy) ;; failed ;; lift NotEnoughSpace).

(** ** Sinks *)

(** [keyColumn.erase(begin, begin + i); valueColumn.erase(begin, begin + i);] *)
Definition erase_processed {O} (i : nat) : M (sink K V O) unit :=
  modify (λ s, Sink (drop i (keyColumn s)) (drop i (valueColumn s)) (container s)).

Definition in_container {O} (l : place K V O) : place K V (sink K V O) :=
  Place (λ s, view l (container s)) (λ t s, Sink (keyColumn s) (valueColumn s) (update l t (container s))).

(** The map at an index of a vector of handles. *)
Definition at_index (i : nat) : place K V (list (PairArray K V)) :=
  Place (λ l, l !! i) (λ t l, <[i := t]> l).

(** The loop over tuples [i, i+1, ...]; [which h] is the map of hash [h], if the
    index can be computed. *)
Fixpoint write_tuples {O} (which : Z → option (place K V O)) (sps : nat → tuple_space V) (todo i : nat) :
    M (sink K V O) unit := λ s,
  match todo with
  | 0 => (Ret tt, s)
  | S todo' =>
      match keyColumn s !! i, valueColumn s !! i with
      | Some k, Some v =>
          match which (Hasher_hash hash_impl k) with
          | Some l =>
              (add_tuple (in_container l) (erase_processed i) (sps i) k v ;;
               write_tuples which sps todo' (S i)) s
          | None => (Undefined, s)
          end
      | _, _ => (Undefined, s)
      end
  end.

Definition write_out {O} (which : Z → option (place K V O)) (sps : nat → tuple_space V) : M (sink K V O) unit := λ s,
  write_tuples which sps (length (keyColumn s)) 0 s.

(** [ShuffleSink]: one map per partition. *)
Definition ShuffleSink_which (numPartitions : Z) (hashVal : Z) : option (place K V (list (PairArray K V))) :=
  if (numPartitions =? 0)%Z then None else Some (at_index (Z.to_nat (hashVal mod numPartitions))).

Definition ShuffleSink_createNewOutputContainer (numPartitions : Z) (fits : bool) : outcome (list (PairArray K V)) :=
  if fits then mapM (λ _, Map_new 4) (seq 0 (Z.to_nat numPartitions)) else NotEnoughSpace.

Definition ShuffleSink_writeOut (numPartitions : Z) (sps : nat → tuple_space V) :
    M (sink K V (list (PairArray K V))) unit :=
  write_out (ShuffleSink_which numPartitions) sps.

(** [AggregationMap]: a map with the number of its partition. *)
Record AggregationMap := MkAggregationMap {
  aggMap : PairArray K V;
  hashPartitionId : Z
}.

Definition set_aggMap (t : PairArray K V) (m : AggregationMap) : AggregationMap :=
  MkAggregationMap t (hashPartitionId m).

(** [AggregationMap(initSize)] and [AggregationMap()], with
    [setHashPartitionId]. *)
Definition AggregationMap_new (initSize id : Z) : outcome AggregationMap :=
  m ← Map_new initSize; mret (MkAggregationMap m id).
Definition AggregationMap_default (id : Z) : outcome AggregationMap :=
  m ← Map_default; mret (MkAggregationMap m id).

(** [CombinedShuffleSink]: a vector of maps per node. *)
Definition getMap (numPartitionsPerNode myHashID : Z) : place K V (list (list AggregationMap)) :=
  let nodeId := Z.to_nat (myHashID / numPartitionsPerNode) in
  let partitionId := Z.to_nat (myHashID mod numPartitionsPerNode) in
  Place (λ o, node ← o !! nodeId; m ← node !! partitionId; Some (aggMap m))
    (λ t o, alter (alter (set_aggMap t) partitionId) nodeId o).

Definition CombinedShuffleSink_which (numNodes numPartitionsPerNode hashVal : Z) :
    option (place K V (list (list AggregationMap))) :=
  if (numNodes * numPartitionsPerNode =? 0)%Z then None
  else Some (getMap numPartitionsPerNode (hashVal mod (numNodes * numPartitionsPerNode))).

Definition CombinedShuffleSink_createNewOutputContainer (numNodes numPartitionsPerNode : Z) (fits : bool) :
    outcome (list (list AggregationMap)) :=
  if fits then
    mapM (λ _ : nat, mapM (λ j : nat, AggregationMap_new 64 (Z.of_nat j)) (seq 0 (Z.to_nat numPartitionsPerNode)))
      (seq 0 (Z.to_nat numNodes))
  else NotEnoughSpace.

Definition CombinedShuffleSink_writeOut (numNodes numPartitionsPerNode : Z) (sps : nat → tuple_space V) :
    M (sink K V (list (list AggregationMap))) unit :=
  write_out (CombinedShuffleSink_which numNodes numPartitionsPerNode) sps.

(** ** CombinerProcessor *)

(** [begin] and [end] iterate over the array of the current input map,
    [curOutputMap] is an index into [outputData]. *)
Record CombinerProcessor := MkCombiner {
  cp_nodePartitionIds : list nat;
  cp_finalized : bool;
  cp_curPartPos : nat;
  cp_inputData : list (PairArray K V);
  cp_array : PairArray K V;
  cp_begin : iterator;
  cp_outputData : list AggregationMap;
  cp_curOutputMap : nat
}.

Definition numNodePartitions (c : CombinerProcessor) : nat := length (cp_nodePartitionIds c).

Definition CombinerProcessor_new (partitions : list nat) : CombinerProcessor :=
  MkCombiner partitions false 0 [] PairArray_empty iter_end [] 0.

(** The iterators over the map [curMap]. *)
Definition cp_iterate (curMap : PairArray K V) (c : CombinerProcessor) : CombinerProcessor :=
  MkCombiner (cp_nodePartitionIds c) (cp_finalized c) (cp_curPartPos c) (cp_inputData c)
    curMap (iter_begin curMap) (cp_outputData c) (cp_curOutputMap c).
Definition cp_set_begin (it : iterator) (c : CombinerProcessor) : CombinerProcessor :=
  MkCombiner (cp_nodePartitionIds c) (cp_finalized c) (cp_curPartPos c) (cp_inputData c)
    (cp_array c) it (cp_outputData c) (cp_curOutputMap c).
Definition cp_set_pos (pos : nat) (c : CombinerProcessor) : CombinerProcessor :=
  MkCombiner (cp_nodePartitionIds c) (cp_finalized c) pos (cp_inputData c)
    (cp_array c) (cp_begin c) (cp_outputData c) (cp_curOutputMap c).
Definition cp_set_output (i : nat) (c : CombinerProcessor) : CombinerProcessor :=
  MkCombiner (cp_nodePartitionIds c) (cp_finalized c) (cp_curPartPos c) (cp_inputData c)
    (cp_array c) (cp_begin c) (cp_outputData c) i.
Definition cp_set_outputData (o : list AggregationMap) (c : CombinerProcessor) : CombinerProcessor :=
  MkCombiner (cp_nodePartitionIds c) (cp_finalized c) (cp_curPartPos c) (cp_inputData c)
    (cp_array c) (cp_begin c) o (cp_curOutputMap c).

(** The map of the current partition on the input page. *)
Definition cp_curMap (c : CombinerProcessor) : option (PairArray K V) :=
  id ← cp_nodePartitionIds c !! cp_curPartPos c; cp_inputData c !! id.

Definition CombinerProcessor_loadInputPage (page : list (PairArray K V)) : M CombinerProcessor unit := λ c,
  let c1 := MkCombiner (cp_nodePartitionIds c) (cp_finalized c) 0 page
              (cp_array c) (cp_begin c) (cp_outputData c) (cp_curOutputMap c) in
  match cp_curMap c1 with
  | Some curMap => (Ret tt, cp_iterate curMap c1)
  | None => (Undefined, c1)
  end.

Definition CombinerProcessor_loadOutputPage (fits : bool) : M CombinerProcessor unit :=
  c ← get;
  o ← lift (if fits then mapM (λ i : nat, AggregationMap_default (Z.of_nat i)) (seq 0 (numNodePartitions c))
            else NotEnoughSpace);
  modify (cp_set_outputData o) ;;
  modify (λ c, cp_set_output (cp_curPartPos c) c).

Definition cp_output : place K V CombinerProcessor :=
  Place (λ c, m ← cp_outputData c !! cp_curOutputMap c; Some (aggMap m))
    (λ t c, cp_set_outputData (alter (set_aggMap t) (cp_curOutputMap c) (cp_outputData c)) c).

(** The loop of [fillNextOutputPage] for a page that is not finalized: one turn
    adds a pair, the [i]-th of this call, or moves on to the next partition. *)
Fixpoint cp_fill (sps : nat → tuple_space V) (fuel i : nat) : M CombinerProcessor bool := λ c,
  match fuel with
  | 0 => (Undefined, c)
  | S fuel' =>
      let add : M CombinerProcessor bool := λ c,
        match iter_deref (cp_array c) (cp_begin c) with
        | Some (curKey, curValue) =>
            (add_tuple cp_output (mret tt) (sps i) curKey curValue ;;
             modify (λ c, cp_set_begin (iter_next (cp_array c) (cp_begin c)) c) ;;
             cp_fill sps fuel' (S i)) c
        | None => (Undefined, c)
        end in
      if negb (iter_ne (cp_begin c) iter_end) then
        if decide (cp_curPartPos c < numNodePartitions c - 1) then
          let c1 := cp_set_pos (S (cp_curPartPos c)) c in
          match cp_curMap c1 with
          | None => (Undefined, c1)
          | Some curMap =>
              if (0 <? Map_size curMap)%Z then
                let c2 := cp_iterate curMap c1 in
                if iter_ne (cp_begin c2) iter_end then add (cp_set_output (cp_curPartPos c2) c2)
                else cp_fill sps fuel' i c2
              else cp_fill sps fuel' i c1
          end
        else (Ret false, cp_set_output 0 (cp_set_pos 0 c))
      else add c
  end.

(** [fillNextOutputPage]: whether the output page is full. *)
Definition CombinerProcessor_fillNextOutputPage (sps : nat → tuple_space V) (fuel : nat) : M CombinerProcessor bool := λ c,
  if cp_finalized c then (Ret false, c)
  else catch (cp_fill sps fuel 0) (mret true) c.

(** Enough turns for what is left of the input page. *)
Definition cp_turns (c : CombinerProcessor) : nat :=
  S (Z.to_nat (numSlots (cp_array c))) +
  foldr (λ id n, match cp_inputData c !! id with Some m => S (Z.to_nat (numSlots m)) + n | None => n end)
    1 (cp_nodePartitionIds c).

(** ** The combiner thread

    [runCombiner] of [PipelineStage.cc]: the processor and the output pages sent
    so far, with the number of calls of [fillNextOutputPage].  The answers of the
    allocator are given for each output page by its number, whether its maps fit,
    and for each call, for the pairs that it adds. *)
Record combiner := MkCombinerRun {
  cr_processor : CombinerProcessor;
  cr_sent : list (list AggregationMap);
  cr_calls : nat
}.

Definition in_processor {A} (m : M CombinerProcessor A) : M combiner A := λ c,
  let '(r, p) := m (cr_processor c) in (r, MkCombinerRun p (cr_sent c) (cr_calls c)).

Definition send_output : M combiner unit :=
  modify (λ c, MkCombinerRun (cr_processor c) (cr_sent c ++ [cp_outputData (cr_processor c)]) (cr_calls c)).

Definition count_call : M combiner unit :=
  modify (λ c, MkCombinerRun (cr_processor c) (cr_sent c) (S (cr_calls c))).

Section combiner.
Context (fits_page : nat → bool) (sps : nat → nat → tuple_space V).

Definition load_output : M combiner unit :=
  c ← get; in_processor (CombinerProcessor_loadOutputPage (fits_page (length (cr_sent c)))).

(** [while (combinerProcessor->fillNextOutputPage()) { send, new page }] *)
Fixpoint combine_page (fuel : nat) : M combiner unit :=
  match fuel with
  | 0 => lift Undefined
  | S fuel' =>
      c ← get;
      count_call ;;
      full ← in_processor (CombinerProcessor_fillNextOutputPage (sps (cr_calls c)) (cp_turns (cr_processor c)));
      if (full : bool) then send_output ;; load_output ;; combine_page fuel' else mret tt
  end.

Fixpoint combine_pages (fuel : nat) (pages : list (list (PairArray K V))) : M combiner unit :=
  match pages with
  | [] => mret tt
  | page :: pages' =>
      in_processor (CombinerProcessor_loadInputPage page) ;;
      combine_page fuel ;;
      combine_pages fuel pages'
  end.

Definition CombinerProcessor_finalize (c : CombinerProcessor) : CombinerProcessor :=
  MkCombiner (cp_nodePartitionIds c) true (cp_curPartPos c) (cp_inputData c)
    (cp_array c) (cp_begin c) (cp_outputData c) (cp_curOutputMap c).

(** [fuel] bounds the calls for one input page. *)
Definition run_combiner (fuel : nat) (partitions : list nat) (pages : list (list (PairArray K V))) :
    outcome (list (list AggregationMap)) :=
  match (load_output ;; combine_pages fuel pages ;;
         in_processor (modify CombinerProcessor_finalize) ;;
         in_processor (CombinerProcessor_fillNextOutputPage (sps 0) 0) ;;
         send_output) (MkCombinerRun (CombinerProcessor_new partitions) [] 0) with
  | (Ret _, c) => Ret (cr_sent c)
  | (NotEnoughSpace, _) => NotEnoughSpace
  | (Exit e, _) => Exit e
  | (Undefined, _) => Undefined
  end.
End combiner.

(** ** AggregationProcessor *)

Record AggregationProcessor := MkAggregator {
  ap_id : Z;
  ap_finalized : bool;
  ap_curMap : option AggregationMap;
  ap_begin : iterator;
  ap_outputData : option (PairArray K V);
  ap_numHashKeys : Z
}.

Definition AggregationProcessor_new (id : Z) : AggregationProcessor :=
  MkAggregator id false None iter_end None 0.

Definition ap_set_begin (it : iterator) (a : AggregationProcessor) : AggregationProcessor :=
  MkAggregator (ap_id a) (ap_finalized a) (ap_curMap a) it (ap_outputData a) (ap_numHashKeys a).
Definition ap_set_outputData (o : option (PairArray K V)) (a : AggregationProcessor) : AggregationProcessor :=
  MkAggregator (ap_id a) (ap_finalized a) (ap_curMap a) (ap_begin a) o (ap_numHashKeys a).
Definition ap_count_key (a : AggregationProcessor) : AggregationProcessor :=
  MkAggregator (ap_id a) (ap_finalized a) (ap_curMap a) (ap_begin a) (ap_outputData a) (ap_numHashKeys a + 1).

(** [loadInputObject]: a map of another partition is passed over. *)
Definition AggregationProcessor_loadInputObject (m : AggregationMap) (a : AggregationProcessor) : AggregationProcessor :=
  if (hashPartitionId m =? ap_id a)%Z then
    MkAggregator (ap_id a) (ap_finalized a) (Some m) (iter_begin (aggMap m)) (ap_outputData a) (ap_numHashKeys a)
  else
    MkAggregator (ap_id a) (ap_finalized a) None (ap_begin a) (ap_outputData a) (ap_numHashKeys a).

(** [loadInputPage]: the first map of the page that is of the partition. *)
Fixpoint AggregationProcessor_loadInputPage (page : list AggregationMap) (a : AggregationProcessor) : AggregationProcessor :=
  match page with
  | [] => a
  | m :: page' =>
      let a' := AggregationProcessor_loadInputObject m a in
      match ap_curMap a' with Some _ => a' | None => AggregationProcessor_loadInputPage page' a' end
  end.

Definition AggregationProcessor_loadOutputPage (fits : bool) : M AggregationProcessor unit :=
  o ← lift (if fits then Map_default else NotEnoughSpace);
  modify (ap_set_outputData (Some o)).

Definition AggregationProcessor_needsProcessInput (a : AggregationProcessor) : bool :=
  match ap_curMap a with Some _ => true | None => false end.

Definition AggregationProcessor_finalize (a : AggregationProcessor) : AggregationProcessor :=
  MkAggregator (ap_id a) true (ap_curMap a) (ap_begin a) (ap_outputData a) (ap_numHashKeys a).

Definition AggregationProcessor_clearOutputPage (a : AggregationProcessor) : AggregationProcessor :=
  ap_set_outputData None a.

Definition ap_output : place K V AggregationProcessor :=
  Place ap_outputData (λ t, ap_set_outputData (Some t)).

(** [numHashKeys++] follows the assignment of a new key. *)
Fixpoint ap_fill (sps : nat → tuple_space V) (fuel i : nat) : M AggregationProcessor bool := λ a,
  match fuel with
  | 0 => (Undefined, a)
  | S fuel' =>
      if negb (iter_ne (ap_begin a) iter_end) then (Ret false, a)
      else
        match m ← ap_curMap a; iter_deref (aggMap m) (ap_begin a) with
        | Some (curKey, curValue) =>
            (c ← on ap_output (Map_count hash_impl curKey);
             add_tuple ap_output (mret tt) (sps i) curKey curValue ;;
             modify (λ a,
               let a := if (c =? 0)%Z then ap_count_key a else a in
               match ap_curMap a with Some m => ap_set_begin (iter_next (aggMap m) (ap_begin a)) a | None => a end) ;;
             ap_fill sps fuel' (S i)) a
        | None => (Undefined, a)
        end
  end.

(** [fillNextOutputPage] *)
Definition AggregationProcessor_fillNextOutputPage (sps : nat → tuple_space V) : M AggregationProcessor bool := λ a,
  if ap_finalized a then (Ret false, a)
  else
    match ap_curMap a with
    | None => (Ret false, a)
    | Some m => catch (ap_fill sps (S (Z.to_nat (numSlots (aggMap m)))) 0) (mret true) a
    end.

(** ** The aggregation thread

    The loop of [HermesExecutionServer.cc] for partition [id] when the result is
    kept in memory, over the objects of the pages it receives.  Its output page
    is not taken yet ([outBytes] is null), or written to by the processor, or
    given up because it was full, with the map that is on it. *)
Inductive output_page :=
| NoPage
| InUse
| GivenUp (t : option (PairArray K V)).

Definition take_page (page : output_page) : output_page :=
  match page with NoPage => InUse | _ => page end.

Section aggregator.
Context (sps : nat → nat → tuple_space V).

(** The objects [j, j+1, ...] of a page: the first one that does not fit ends the
    page. *)
Fixpoint aggregate_objects (n : nat) (objects : list AggregationMap) : M (AggregationProcessor * output_page) unit :=
  match objects with
  | [] => mret tt
  | m :: objects' => λ '(a, page),
      let a := AggregationProcessor_loadInputObject m a in
      if negb (AggregationProcessor_needsProcessInput a) then aggregate_objects (S n) objects' (a, page)
      else
        let '(r, a) := match page with NoPage => AggregationProcessor_loadOutputPage true a | _ => (Ret tt, a) end in
        let page := take_page page in
        match r with
        | Ret _ =>
            match AggregationProcessor_fillNextOutputPage (sps n) a with
            | (Ret true, a) => (Ret tt, (AggregationProcessor_clearOutputPage a, GivenUp (ap_outputData a)))
            | (Ret false, a) => aggregate_objects (S n) objects' (a, page)
            | (NotEnoughSpace, a) => (NotEnoughSpace, (a, page))
            | (Exit e, a) => (Exit e, (a, page))
            | (Undefined, a) => (Undefined, (a, page))
            end
        | NotEnoughSpace => (NotEnoughSpace, (a, page))
        | Exit e => (Exit e, (a, page))
        | Undefined => (Undefined, (a, page))
        end
  end.

Fixpoint aggregate_pages (n : nat) (pages : list (list AggregationMap)) : M (AggregationProcessor * output_page) unit :=
  match pages with
  | [] => mret tt
  | page :: pages' => aggregate_objects n page ;; aggregate_pages (n + length page) pages'
  end.

(** The result is the map on the output page, none if no map was received. *)
Definition run_aggregator (id : Z) (pages : list (list AggregationMap)) : outcome (option (PairArray K V)) :=
  match aggregate_pages 0 pages (AggregationProcessor_new id, NoPage) with
  | (Ret _, (a, page)) =>
      match page with
      | NoPage => Ret None
      | _ =>
          match AggregationProcessor_fillNextOutputPage (sps 0) (AggregationProcessor_finalize a) with
          | (Ret _, a) => Ret (match page with GivenUp t => t | _ => ap_outputData a end)
          | (NotEnoughSpace, _) => NotEnoughSpace
          | (Exit e, _) => Exit e
          | (Undefined, _) => Undefined
          end
      end
  | (NotEnoughSpace, _) => NotEnoughSpace
  | (Exit e, _) => Exit e
  | (Undefined, _) => Undefined
  end.
End aggregator.

(** ** AggOutProcessor *)

(** Turns the entries of a map into output objects; an object is its key and
    value. *)
Record AggOutProcessor := MkAggOut {
  oo_finalized : bool;
  oo_inputData : PairArray K V;
  oo_begin : iterator;
  oo_outputData : list (K * V);
  oo_pos : Z
}.

Definition AggOutProcessor_loadInputPage (m : PairArray K V) (a : AggOutProcessor) : AggOutProcessor :=
  MkAggOut (oo_finalized a) m (iter_begin m) (oo_outputData a) (oo_pos a).

Definition AggOutProcessor_loadOutputPage (a : AggOutProcessor) : AggOutProcessor :=
  MkAggOut (oo_finalized a) (oo_inputData a) (oo_begin a) [] 0.

(** The object is pushed, and the iterator moves on. *)
Definition oo_emit (kv : K * V) (a : AggOutProcessor) : AggOutProcessor :=
  MkAggOut (oo_finalized a) (oo_inputData a) (iter_next (oo_inputData a) (oo_begin a)) (oo_outputData a ++ [kv]) (oo_pos a + 1).

(** The loop of [fillNextOutputPage]; [fits i] says whether the [i]-th object of
    the call can be made and pushed. *)
Fixpoint oo_fill (fits : nat → bool) (fuel i : nat) : M AggOutProcessor bool := λ a,
  match fuel with
  | 0 => (Undefined, a)
  | S fuel' =>
      if negb (iter_ne (oo_begin a) iter_end) then (Ret false, a)
      else
        match iter_deref (oo_inputData a) (oo_begin a) with
        | Some kv => if fits i then oo_fill fits fuel' (S i) (oo_emit kv a) else (NotEnoughSpace, a)
        | None => (Undefined, a)
        end
  end.

Definition AggOutProcessor_fillNextOutputPage (fits : nat → bool) : M AggOutProcessor bool := λ a,
  if oo_finalized a then (Ret false, a)
  else catch (oo_fill fits (S (Z.to_nat (numSlots (oo_inputData a)))) 0) (mret true) a.

(** The loop of [HermesExecutionServer.cc] around it: the output pages, full ones
    first; [fits n] is for the [n]-th page. *)
Fixpoint agg_out (fits : nat → nat → bool) (fuel n : nat) (a : AggOutProcessor) : outcome (list (list (K * V))) :=
  match fuel with
  | 0 => Undefined
  | S fuel' =>
      match AggOutProcessor_fillNextOutputPage (fits n) a with
      | (Ret true, a1) => rest ← agg_out fits fuel' (S n) (AggOutProcessor_loadOutputPage a1); mret (oo_outputData a1 :: rest)
      | (Ret false, a1) => Ret [oo_outputData a1]
      | (NotEnoughSpace, _) => NotEnoughSpace
      | (Exit e, _) => Exit e
      | (Undefined, _) => Undefined
      end
  end.
End aggregation.
