(* ===== verification/AggregateSink.v ===== *)
(** * AggregateSink: adding pairs to maps and to the containers of sinks

    What [add_tuple] does to a map, aggregates as finite maps with the reference
    definition [aggregate], and what the sinks [ShuffleSink] and
    [CombinedShuffleSink] do with a tuple set: both are instances of
    [Partitioned], the promise that every hash leads to a map of the container
    that can be written without touching the others. *)

From S2P Require Import Prelude HashProbe PairArray Aggregation.

(** ** Adding a pair to a map *)

Section adding.
Context {RS : RecordSize} {K V : Type} `{Countable K} (hash_impl : K → Z) (dV : V) (plus : V → V → V).
Implicit Types (pa t : PairArray K V) (k : K) (v : V) (m : gmap K V).
Local Abbreviation wf := (wf hash_impl).
Local Abbreviation Hasher_hash := (Hasher_hash hash_impl).

(** The abstract operation. *)
Definition add_pair m (kv : K * V) : gmap K V :=
  <[kv.1 := match m !! kv.1 with Some x => plus x kv.2 | None => kv.2 end]> m.

Lemma Map_at_present sp pa k v :
  wf pa → to_map pa !! k = Some v →
  ∃ i, Map_at hash_impl dV sp k pa = (Ret i, pa) ∧ data pa !! i = Some (Slot (Hasher_hash k) (Some (k, v))).
Proof.
  intros Hwf Hk. unfold Map_at. run. rewrite (count_lookup hash_impl) by done. rewrite decide_True by eauto. simpl. run.
  by apply operator_at_hit.
Qed.

(** A slot of the map, or of the doubled map, is filled. *)
Lemma Map_at_absent sp pa k :
  wf pa → (numSlots pa ≤ max_slots)%Z → to_map pa !! k = None → (∀ j, fits_move sp j = true) →
  match Map_at hash_impl dV sp k pa with
  | (Ret i, p) => ∃ base s, wf base ∧ to_map base = to_map pa ∧
      data base !! i = Some s ∧ is_unused s = true ∧ (usedSlots base + 1 ≤ maxSlots base)%Z ∧
      p = set_usedSlots (set_data base (<[i := Slot (Hasher_hash k) (Some (k, dV))]> (data base))) (usedSlots base + 1)
  | (NotEnoughSpace, p) => sp ≠ plenty ∧ wf p ∧ to_map p = to_map pa
  | _ => False
  end.
Proof.
  intros Hwf Hn Hk Hmv. pose proof (Map_at_cases hash_impl dV sp pa k Hwf Hn) as Hc. unfold Map_at in *.
  revert Hc. run. rewrite (count_lookup hash_impl) by done. rewrite decide_False by (intros [? ?]; congruence).
  assert (∀ base, wf base → to_map base = to_map pa → (usedSlots base < maxSlots base)%Z →
    match operator_at hash_impl dV (fits_insert sp) k base with
    | (Ret i, p) => ∃ s, data base !! i = Some s ∧ is_unused s = true ∧
        p = set_usedSlots (set_data base (<[i := Slot (Hasher_hash k) (Some (k, dV))]> (data base))) (usedSlots base + 1)
    | (NotEnoughSpace, p) => True
    | _ => False
    end) as Hop.
  { intros base Hb Hm Hlt. rewrite <- Hm in Hk. destruct (find_slot_miss hash_impl base k Hb Hk) as (i & s & Hf & Hs & Hu & _).
    unfold operator_at. rewrite Hf. destruct (fits_insert sp); [|done]. exists s. split_and!; [done|done|].
    rewrite u32_small; [done|]. pose proof (wf_size _ _ Hb). pose proof (wf_used _ _ Hb). pose proof (wf_max _ _ Hb).
    pose proof (fill_max_bounds (numSlots base) ltac:(done)). word_lia. }
  simpl. unfold isOverFull. destruct (Z.leb_spec (maxSlots pa) (usedSlots pa)) as [Hfull|Hroom]; run.
  - pose proof (doubleArray_spec hash_impl dV sp pa Hwf Hn) as Hd.
    destruct (doubleArray _ _ _ _) as [[new| | |] pa']; run; try done; [|by intros [Hsp Hw]; destruct (Hw Hmv)].
    destruct Hd as (Hwf' & Hm' & _ & _ & _ & Hlt'). specialize (Hop new Hwf' Hm' Hlt').
    destruct (operator_at _ _ _ _ _) as [[i| | |] p]; try done; [|by intros [Hsp Hw]; destruct (Hw Hmv)].
    intros _. destruct Hop as (s & ? & ? & ->). exists new, s. split_and!; try done. lia.
  - specialize (Hop pa Hwf eq_refl Hroom).
    destruct (operator_at _ _ _ _ _) as [[i| | |] p]; try done; [|by intros [Hsp Hw]; destruct (Hw Hmv)].
    intros _. destruct Hop as (s & ? & ? & ->). exists pa, s. split_and!; try done. lia.
Qed.

(** Erasing the key just inserted, whatever its value is by now. *)
Lemma erase_inserted base i s k v n :
  wf base → data base !! i = Some s → is_unused s = true → (usedSlots base ≤ n ≤ maxSlots base)%Z →
  let p := set_usedSlots (set_data base (<[i := Slot (Hasher_hash k) (Some (k, v))]> (data base))) n in
  wf p → ∃ p', Map_setUnused hash_impl k p = (Ret tt, p') ∧ wf p' ∧ to_map p' = to_map base.
Proof.
  intros Hb Hs Hu Hn p Hp. unfold Map_setUnused.
  assert (data p !! i = Some (Slot (Hasher_hash k) (Some (k, v)))) as Hi.
  { simpl. apply list_lookup_insert_eq. by eapply lookup_lt_Some. }
  assert (∀ w, entry (Slot (Hasher_hash k) (Some (k, w)) : slot K V) = Some (k, w)) as He.
  { intros w. unfold entry, is_unused. simpl. by rewrite (proj2 (Z.eqb_neq _ _) (Hasher_hash_used hash_impl k)). }
  assert (to_map p !! k = Some v) as Hk.
  { apply (to_map_lookup hash_impl); [done|]. eauto. }
  destruct (setUnused_hit hash_impl p k v Hp Hk) as (i2 & Hset & Hi2). rewrite Hset.
  assert (i2 = i) as -> by (eapply (wf_uniq _ _ Hp); [exact Hi2|exact Hi|by apply He|by apply He]).
  eexists. split; [done|]. unfold p, set_usedSlots, set_data. simpl. rewrite list_insert_insert_eq.
  exact (wf_unfill hash_impl base i s n Hb Hs Hu Hn).
Qed.
End adding.

(** [l] is a place of [s] that holds [t], and can be written again and again. *)
Record place_ok {K V S} (l : place K V S) (s : S) (t : PairArray K V) : Prop := {
  pl_view : view l s = Some t;
  pl_view_update t1 : view l (update l t1 s) = Some t1;
  pl_update_update t1 t2 : update l t2 (update l t1 s) = update l t2 s;
  pl_update_view : update l t s = s
}.

Lemma on_ok {K V S A} (l : place K V S) s t (m : M (PairArray K V) A) :
  place_ok l s t → on l m s = let '(r, t') := m t in (r, update l t' s).
Proof. intros Hl. unfold on. by rewrite (pl_view _ _ _ Hl). Qed.

Lemma on_update {K V S A} (l : place K V S) s t t1 (m : M (PairArray K V) A) :
  place_ok l s t → on l m (update l t1 s) = let '(r, t') := m t1 in (r, update l t' s).
Proof.
  intros Hl. unfold on. rewrite (pl_view_update _ _ _ Hl). destruct (m t1) as [r t'].
  by rewrite (pl_update_update _ _ _ Hl).
Qed.

Section tuple.
Context {RS : RecordSize} {K V : Type} `{Countable K} (hash_impl : K → Z) (dV : V) (plus : V → V → V).
Implicit Types (pa t : PairArray K V) (k : K) (v : V) (m : gmap K V).
Local Abbreviation wf := (wf hash_impl).

(** The allocations that the code does not expect to fail: moving the entries
    when a map doubles, and copying the old value to a local and back. *)
Record steady (sp : tuple_space V) : Prop := {
  st_move j : fits_move (at_space sp) j = true;
  st_copy : fits_copy sp = true;
  st_restore : fits_restore sp = true
}.

(** Everything fits. *)
Definition ample (sp : tuple_space V) : Prop := at_space sp = plenty ∧ fits_value sp = true.

Definition grows pa t : Prop :=
  numSlots t = numSlots pa ∨ numSlots t = (2 * numSlots pa)%Z ∧ (maxSlots pa ≤ usedSlots pa)%Z.

(** What adding a pair does to the map: it adds the pair, or throws with the map
    as it was. *)
Definition added sp (kv : K * V) (ok : bool) t t' : Prop :=
  wf t' ∧
  if ok then to_map t' = add_pair plus (to_map t) kv ∧ (counted t → counted t') ∧ grows t t'
  else to_map t' = to_map t ∧ ¬ ample sp.

Lemma set_value_present fits left t i k v w :
  wf t → data t !! i = Some (Slot (Hasher_hash hash_impl k) (Some (k, v))) →
  ∃ t', set_value fits left i w t = (if fits then Ret tt else NotEnoughSpace, t') ∧ wf t' ∧
    to_map t' = <[k := if fits then w else left]> (to_map t) ∧ used_count t' = used_count t ∧
    usedSlots t' = usedSlots t ∧ numSlots t' = numSlots t ∧
    data t' !! i = Some (Slot (Hasher_hash hash_impl k) (Some (k, if fits then w else left))).
Proof.
  intros Hwf Hi.
  assert (∀ x, ∃ t', assign_value i x t = (Ret tt, t') ∧ wf t' ∧ to_map t' = <[k := x]> (to_map t) ∧
    used_count t' = used_count t ∧ usedSlots t' = usedSlots t ∧ numSlots t' = numSlots t ∧
    data t' !! i = Some (Slot (Hasher_hash hash_impl k) (Some (k, x)))) as Ha.
  { intros x. destruct (assign_value_spec hash_impl t i _ k v x Hwf Hi (Hasher_hash_used hash_impl k))
      as (t' & Ht' & ? & ? & ? & ? & ?).
    exists t'. split_and!; try done. unfold assign_value, modify in Ht'. injection Ht' as <-.
    simpl. rewrite list_lookup_alter_eq, Hi. done. }
  unfold set_value. destruct fits.
  - destruct (Ha w) as (t' & -> & ?). by exists t'.
  - destruct (Ha left) as (t' & Ht' & ?). exists t'. rewrite M_bind_unfold, Ht'. done.
Qed.

Context {S : Type} (l : place K V S) (failed : M S unit) (fail : S → S).
Hypothesis failed_ok : ∀ s, failed s = (Ret tt, fail s).

Lemma add_tuple_present sp s t k v x :
  place_ok l s t → wf t → steady sp → to_map t !! k = Some x →
  ∃ t' (ok : bool), add_tuple hash_impl dV plus l failed sp k v s =
      (if ok then Ret tt else NotEnoughSpace, if ok then update l t' s else fail (update l t' s)) ∧
    added sp (k, v) ok t t'.
Proof.
  intros Hl Hwf Hst Hk. unfold add_tuple. run. rewrite (on_ok _ _ _ _ Hl). unfold Map_count. run.
  rewrite (count_lookup hash_impl) by done. rewrite decide_True by eauto. cbn [Z.eqb].
  run. rewrite (on_update _ _ _ _ _ Hl). destruct (Map_at_present hash_impl dV (at_space sp) t k x Hwf Hk) as (i & -> & Hi).
  run. rewrite (on_update _ _ _ _ _ Hl). unfold copy_value, value_at. rewrite Hi. simpl. rewrite (st_copy _ Hst).
  unfold catch at 1. rewrite (on_update _ _ _ _ _ Hl).
  destruct (set_value_present (fits_value sp) (torn sp) t i k x (plus x v) Hwf Hi) as (t1 & -> & Hwf1 & Hm1 & Hc1 & Hu1 & Hn1 & Hi1).
  destruct (fits_value sp) eqn:Hfit.
  - exists t1, true. split; [done|]. split; [done|]. unfold add_pair, grows, counted. simpl. rewrite Hk.
    split; [done|]. split; [lia|]. lia.
  - run. rewrite (on_update _ _ _ _ _ Hl). rewrite (st_restore _ Hst).
    destruct (set_value_present true (torn sp) t1 i k (torn sp) x Hwf1 Hi1) as (t2 & -> & Hwf2 & Hm2 & _).
    run. rewrite failed_ok. exists t2, false. split; [done|]. split; [done|]. split.
    + rewrite Hm2, Hm1, insert_insert_eq. by apply insert_id.
    + intros [_ ?]. congruence.
Qed.

Lemma add_tuple_absent sp s t k v :
  place_ok l s t → wf t → (numSlots t ≤ max_slots)%Z → steady sp → to_map t !! k = None →
  ∃ t' (ok : bool), add_tuple hash_impl dV plus l failed sp k v s =
      (if ok then Ret tt else NotEnoughSpace, if ok then update l t' s else fail (update l t' s)) ∧
    added sp (k, v) ok t t'.
Proof.
  intros Hl Hwf Hn Hst Hk. unfold add_tuple. run. rewrite (on_ok _ _ _ _ Hl). unfold Map_count. run.
  rewrite (count_lookup hash_impl) by done. rewrite decide_False by (intros [? ?]; congruence). cbn [Z.eqb].
  run. unfold catch at 1. rewrite (on_update _ _ _ _ _ Hl).
  pose proof (Map_at_cases hash_impl dV (at_space sp) t k Hwf Hn) as Hc.
  pose proof (Map_at_absent hash_impl dV (at_space sp) t k Hwf Hn Hk (st_move _ Hst)) as Ha.
  destruct (Map_at hash_impl dV (at_space sp) k t) as [[i| | |] p]; try done.
  2:{ destruct Ha as (Hsp & Hp & Hm). run. rewrite failed_ok. exists p, false. split; [done|]. split; [done|].
      split; [done|]. intros [? _]. done. }
  destruct Hc as (Hp & Hm & (w & Hw & Hi) & Hcnt & Hgrow). run. unfold catch at 1. rewrite (on_update _ _ _ _ _ Hl).
  destruct (set_value_present (fits_value sp) (torn sp) p i k w v Hp Hi) as (t1 & Hset & Hwf1 & Hm1 & Hc1 & Hu1 & Hn1 & Hi1).
  rewrite Hset. destruct (fits_value sp) eqn:Hfit.
  - exists t1, true. split; [done|]. split; [done|]. unfold add_pair, grows. simpl. rewrite Hk.
    split; [rewrite Hm1, Hm; unfold spec_at; rewrite Hk; apply insert_insert_eq|].
    split; [intros Hct; specialize (Hcnt Hct); unfold counted in *; lia|lia].
  - destruct Ha as (base & s0 & Hb & Hmb & Hs0 & Hu0 & Hle & ->).
    run. rewrite (on_update _ _ _ _ _ Hl).
    assert (t1 = set_usedSlots (set_data base (<[i := Slot (Hasher_hash hash_impl k) (Some (k, torn sp))]> (data base))) (usedSlots base + 1)) as ->.
    { unfold set_value in Hset. rewrite M_bind_unfold in Hset. unfold assign_value, modify in Hset. injection Hset as <-.
      unfold set_data, set_usedSlots. simpl. f_equal.
      rewrite (list_alter_insert_lookup _ _ _ (Slot (Hasher_hash hash_impl k) (Some (k, dV)))).
      - by rewrite list_insert_insert_eq.
      - apply list_lookup_insert_eq. by eapply lookup_lt_Some. }
    assert (usedSlots base ≤ usedSlots base + 1 ≤ maxSlots base)%Z as Hle' by lia.
    destruct (erase_inserted hash_impl base i s0 k (torn sp) (usedSlots base + 1) Hb Hs0 Hu0 Hle' Hwf1) as (t2 & -> & Hwf2 & Hm2).
    run. rewrite failed_ok. exists t2, false. split; [done|]. split; [done|]. split; [congruence|]. intros [_ ?]. congruence.
Qed.

(** Adding a pair to a map adds it or throws; after a throw the map is as it
    was and the handler's own part has run. *)
Lemma add_tuple_ok sp s t k v :
  place_ok l s t → wf t → (numSlots t ≤ max_slots)%Z → steady sp →
  ∃ t' (ok : bool), add_tuple hash_impl dV plus l failed sp k v s =
      (if ok then Ret tt else NotEnoughSpace, if ok then update l t' s else fail (update l t' s)) ∧
    added sp (k, v) ok t t'.
Proof.
  intros Hl Hwf Hn Hst. destruct (to_map t !! k) as [x|] eqn:Hk.
  - by eapply add_tuple_present.
  - by apply add_tuple_absent.
Qed.
End tuple.

(** ** Aggregates as finite maps *)

Section aggregates.
Context {RS : RecordSize} {K V : Type} `{Countable K} (plus : V → V → V).
Implicit Types (m : gmap K V) (l : list (K * V)).
Local Abbreviation add_pair := (add_pair plus).

(** The reference definition: the pairs are added one by one. *)
Definition aggregate_onto m l : gmap K V := foldl add_pair m l.
Definition aggregate l : gmap K V := aggregate_onto ∅ l.

(** Adding up two aggregates. *)
Definition combine m1 m2 : gmap K V := union_with (λ x y, Some (plus x y)) m1 m2.

Definition combine_all (ms : list (gmap K V)) : gmap K V := foldr combine ∅ ms.

(** The keys of one partition. *)
Definition part (index : K → nat) (i : nat) m : gmap K V := filter (λ kv, index kv.1 = i) m.

Lemma combine_empty_l m : combine ∅ m = m.
Proof. apply map_eq. intros k. unfold combine. rewrite lookup_union_with, lookup_empty. by destruct (m !! k). Qed.

Lemma combine_empty_r m : combine m ∅ = m.
Proof. apply map_eq. intros k. unfold combine. rewrite lookup_union_with, lookup_empty. by destruct (m !! k). Qed.

Lemma combine_assoc `{!Assoc (=) plus} m1 m2 m3 : combine m1 (combine m2 m3) = combine (combine m1 m2) m3.
Proof.
  apply map_eq. intros k. unfold combine. rewrite !lookup_union_with.
  destruct (m1 !! k), (m2 !! k), (m3 !! k); simpl; try done. by rewrite (assoc_L plus).
Qed.

Lemma combine_comm `{!Comm (=) plus} m1 m2 : combine m1 m2 = combine m2 m1.
Proof.
  apply map_eq. intros k. unfold combine. rewrite !lookup_union_with.
  destruct (m1 !! k), (m2 !! k); simpl; try done. by rewrite (comm_L plus).
Qed.

Lemma add_pair_combine m kv : add_pair m kv = combine m {[kv.1 := kv.2]}.
Proof.
  apply map_eq. intros k. unfold AggregateSink.add_pair, combine. rewrite lookup_union_with.
  destruct (decide (k = kv.1)) as [->|Hne].
  - rewrite lookup_insert_eq, lookup_singleton_eq. by destruct (m !! kv.1).
  - rewrite lookup_insert_ne, lookup_singleton_ne by done. by destruct (m !! k).
Qed.

Lemma aggregate_onto_combine `{!Assoc (=) plus} m l : aggregate_onto m l = combine m (aggregate l).
Proof.
  unfold aggregate, aggregate_onto. revert m. induction l as [|kv l IH]; intros m; simpl; [by rewrite combine_empty_r|].
  rewrite IH, (IH (add_pair ∅ kv)), !add_pair_combine, combine_empty_l. by rewrite combine_assoc.
Qed.

Lemma aggregate_app `{!Assoc (=) plus} l1 l2 : aggregate (l1 ++ l2) = combine (aggregate l1) (aggregate l2).
Proof. unfold aggregate at 1, aggregate_onto. rewrite foldl_app. apply aggregate_onto_combine. Qed.

Lemma combine_all_app `{!Assoc (=) plus} ms1 ms2 :
  combine_all (ms1 ++ ms2) = combine (combine_all ms1) (combine_all ms2).
Proof.
  induction ms1 as [|m ms1 IH]; simpl; [by rewrite combine_empty_l|]. by rewrite IH, combine_assoc.
Qed.

Lemma aggregate_concat `{!Assoc (=) plus} ls : aggregate (concat ls) = combine_all (aggregate <$> ls).
Proof. induction ls as [|l ls IH]; simpl; [done|]. by rewrite aggregate_app, IH. Qed.

Lemma aggregate_permutation `{!Assoc (=) plus} `{!Comm (=) plus} l l' :
  l ≡ₚ l' → aggregate l = aggregate l'.
Proof.
  induction 1 as [|x l l' _ IH|x y l|l1 l2 l3 _ IH1 _ IH2]; [done| | |congruence].
  - change (x :: l) with ([x] ++ l). change (x :: l') with ([x] ++ l'). by rewrite !aggregate_app, IH.
  - change (y :: x :: l) with ([y] ++ [x] ++ l). change (x :: y :: l) with ([x] ++ [y] ++ l).
    rewrite !aggregate_app, !combine_assoc. f_equal. apply combine_comm.
Qed.

(** Adding the entries of a map one by one. *)
Lemma aggregate_entries `{!Assoc (=) plus} `{!Comm (=) plus} m l : l ≡ₚ map_to_list m → aggregate l = m.
Proof.
  intros Hl. rewrite (aggregate_permutation _ _ Hl). clear l Hl. induction m as [|k v m Hk IH] using map_ind.
  - by rewrite map_to_list_empty.
  - rewrite (aggregate_permutation _ _ (map_to_list_insert m k v Hk)).
    change ((k, v) :: map_to_list m) with ([(k, v)] ++ map_to_list m). rewrite aggregate_app, IH.
    unfold aggregate, aggregate_onto. simpl. rewrite add_pair_combine, combine_empty_l. simpl.
    apply map_eq. intros j. unfold combine. rewrite lookup_union_with. destruct (decide (j = k)) as [->|Hne].
    + by rewrite lookup_singleton_eq, lookup_insert_eq, Hk.
    + rewrite lookup_singleton_ne, lookup_insert_ne by done. by destruct (m !! j).
Qed.

Lemma part_lookup index i m k : part index i m !! k = if decide (index k = i) then m !! k else None.
Proof.
  unfold part. case_decide as Hi.
  - destruct (m !! k) as [v|] eqn:E; [by apply map_lookup_filter_Some|]. apply map_lookup_filter_None. by left.
  - apply map_lookup_filter_None. right. by intros v _.
Qed.

Lemma part_add_pair index i m kv :
  part index i (add_pair m kv) = if decide (index kv.1 = i) then add_pair (part index i m) kv else part index i m.
Proof.
  apply map_eq. intros k. rewrite part_lookup. unfold AggregateSink.add_pair. destruct (decide (k = kv.1)) as [->|Hne].
  - rewrite lookup_insert_eq. case_decide as Hi; [|rewrite part_lookup; by case_decide].
    rewrite lookup_insert_eq, part_lookup. by rewrite decide_True by done.
  - rewrite lookup_insert_ne by done. case_decide as Hi; case_decide as Hj; rewrite ?lookup_insert_ne, part_lookup by done;
      (case_decide; done).
Qed.

Lemma part_combine index i m1 m2 : part index i (combine m1 m2) = combine (part index i m1) (part index i m2).
Proof.
  apply map_eq. intros k. unfold combine. rewrite lookup_union_with, !part_lookup, lookup_union_with. by case_decide.
Qed.

Lemma part_combine_all index i ms : part index i (combine_all ms) = combine_all (part index i <$> ms).
Proof.
  induction ms as [|m ms IH]; simpl; [|by rewrite part_combine, IH].
  apply map_eq. intros k. rewrite part_lookup. by case_decide.
Qed.

Lemma part_size index i m : size (part index i m) ≤ size m.
Proof. apply map_subseteq_size, map_filter_subseteq. Qed.

Lemma size_add_pair m kv : size m ≤ size (add_pair m kv) ≤ Datatypes.S (size m).
Proof.
  unfold AggregateSink.add_pair. destruct (m !! kv.1) eqn:E.
  - rewrite map_size_insert_Some by eauto. lia.
  - rewrite map_size_insert_None by done. lia.
Qed.

Lemma size_aggregate_onto m l : size (aggregate_onto m l) ≤ size m + length l.
Proof.
  unfold aggregate_onto. revert m. induction l as [|kv l IH]; intros m; simpl; [lia|].
  pose proof (IH (add_pair m kv)). pose proof (size_add_pair m kv). lia.
Qed.
End aggregates.

(** ** Sinks and their containers *)

(** What a sink promises of its containers: every hash leads to one of [n] maps,
    each of which can be written without touching the others. *)
Class Partitioned {K V O : Type} (which : Z → option (place K V O)) (shape : O → Prop)
    (tables : O → list (PairArray K V)) (index : Z → nat) : Prop := {
  partitioned_which h o : shape o → ∃ l t,
    which h = Some l ∧ place_ok l o t ∧ tables o !! index h = Some t ∧
    ∀ t', shape (update l t' o) ∧ tables (update l t' o) = <[index h := t']> (tables o)
}.

Section sinks.
Context {RS : RecordSize} {K V : Type} `{Countable K} (hash_impl : K → Z) (dV : V) (plus : V → V → V).
Context {O : Type} (which : Z → option (place K V O)) (shape : O → Prop) (tables : O → list (PairArray K V))
  (index : Z → nat) `{!Partitioned which shape tables index}.
Implicit Types (o : O) (t : PairArray K V) (m : gmap K V) (c : Z).
Local Abbreviation wf := (wf hash_impl).

(** The partition of a key. *)
Definition key_index (k : K) : nat := index (Hasher_hash hash_impl k).

(** The container holds the aggregate [m]: every map has the keys of its
    partition. *)
Definition container_holds m o : Prop :=
  shape o ∧ ∀ i t, tables o !! i = Some t → wf t ∧ to_map t = part key_index i m.

(** No map is larger than its entries and its initial size ask for, and nothing
    has been erased. *)
Definition container_open c o : Prop :=
  ∀ i t, tables o !! i = Some t → counted t ∧ (numSlots t ≤ Z.max c (4 * Z.of_nat (size (to_map t))))%Z.

Lemma grows_bound c t t' :
  wf t → wf t' → counted t → grows t t' → (numSlots t ≤ Z.max c (4 * Z.of_nat (size (to_map t))))%Z →
  size (to_map t) ≤ size (to_map t') → (numSlots t' ≤ Z.max c (4 * Z.of_nat (size (to_map t'))))%Z.
Proof.
  intros Hwf Hwf' Hc [Hn|[Hn Hfull]] Hb Hs; [lia|].
  pose proof (fill_max_half (numSlots t) (proj1 (wf_size _ _ Hwf))).
  rewrite (wf_max _ _ Hwf), Hc, <- (size_to_map hash_impl) in Hfull by done. lia.
Qed.

(** One tuple: it is added, or the container is left as it was and the processed
    tuples are erased. *)
Lemma write_tuple_ok c sp m keys values o i k v :
  container_holds m o → container_open c o → (c ≤ max_slots)%Z → (Z.of_nat (size m) < max_entries)%Z → steady sp →
  ∃ l o' (ok : bool), which (Hasher_hash hash_impl k) = Some l ∧
    add_tuple hash_impl dV plus (in_container l) (erase_processed i) sp k v (Sink keys values o) =
      (if ok then Ret tt else NotEnoughSpace,
       if ok then Sink keys values o' else Sink (drop i keys) (drop i values) o') ∧
    container_holds (if ok then add_pair plus m (k, v) else m) o' ∧
    if ok then container_open c o' else ¬ ample sp.
Proof.
  intros [Hsh Hm] Hopen Hc Hsize Hst.
  destruct (partitioned_which (Hasher_hash hash_impl k) o Hsh) as (l & t & Hw & Hl & Ht & Hupd).
  exists l. destruct (Hm _ _ Ht) as [Hwf Hmt]. destruct (Hopen _ _ Ht) as [Hcnt Hns].
  assert (place_ok (in_container l) (Sink keys values o) t) as Hl'.
  { destruct Hl as [H1 H2 H3 H4]. split; simpl; intros; rewrite ?H2, ?H3, ?H4; done. }
  pose proof (part_size key_index (index (Hasher_hash hash_impl k)) m) as Hps.
  assert (numSlots t ≤ max_slots)%Z as Hns' by (rewrite Hmt in Hns; slots_lia).
  destruct (add_tuple_ok hash_impl dV plus (in_container l) (erase_processed i)
    (λ s, Sink (drop i (keyColumn s)) (drop i (valueColumn s)) (container s)) ltac:(done)
    sp (Sink keys values o) t k v Hl' Hwf Hns' Hst) as (t' & ok & -> & Hwf' & Hadd).
  destruct (Hupd t') as [Hsh' Htab]. exists (update l t' o), ok. split; [done|].
  split; [by destruct ok|].
  assert (∀ m' , to_map t' = part key_index (index (Hasher_hash hash_impl k)) m' →
    (∀ j, j ≠ index (Hasher_hash hash_impl k) → part key_index j m' = part key_index j m) →
    container_holds m' (update l t' o)) as Hholds.
  { intros m' Hm' Hother. split; [done|]. intros j u Hu. rewrite Htab in Hu.
    apply list_lookup_insert_Some in Hu as [(<- & <- & _)|[Hj Hu]]; [by split|].
    destruct (Hm _ _ Hu) as [? ->]. split; [done|]. by rewrite Hother. }
  destruct ok.
  - destruct Hadd as (Hm' & Hc' & Hg). split.
    + apply Hholds.
      * rewrite Hm', part_add_pair. simpl. by rewrite decide_True, Hmt by done.
      * intros j Hj. rewrite part_add_pair. simpl. by rewrite decide_False by (intros Heq; apply Hj; by rewrite <- Heq).
    + intros j u Hu. rewrite Htab in Hu. apply list_lookup_insert_Some in Hu as [(<- & <- & _)|[Hj Hu]].
      * split; [by apply Hc'|]. eapply grows_bound; [exact Hwf|done|done|done|done|].
        rewrite Hm'. apply size_add_pair.
      * by eapply Hopen.
  - destruct Hadd as [Hm' Hample]. split; [|done]. apply Hholds; [|done]. by rewrite Hm'.
Qed.

(** The tuples of a sink. *)
Definition tuples (s : sink K V O) : list (K * V) := zip (keyColumn s) (valueColumn s).

(** What [writeOut] does with the tuples from [i] on: [p] of them are added; if
    that is not all of them, an allocation has failed and the tuples up to the
    first one not added are erased. *)
Lemma write_tuples_ok c sps todo i keys values o m :
  length keys = length values → i + todo = length keys → (∀ j, steady (sps j)) →
  container_holds m o → container_open c o → (c ≤ max_slots)%Z →
  (Z.of_nat (size m + todo) ≤ max_entries)%Z →
  ∃ o' p (ok : bool), write_tuples hash_impl dV plus which sps todo i (Sink keys values o) =
      (if ok then Ret tt else NotEnoughSpace,
       if ok then Sink keys values o' else Sink (drop (i + p) keys) (drop (i + p) values) o') ∧
    p ≤ todo ∧ container_holds (aggregate_onto plus m (take p (drop i (zip keys values)))) o' ∧
    if ok then p = todo ∧ container_open c o' else p < todo ∧ ¬ ample (sps (i + p)).
Proof.
  intros Hlen Hi Hst Hm Hopen Hc Hsize. revert i o m Hi Hm Hopen Hsize.
  induction todo as [|todo IH]; intros i o m Hi Hm Hopen Hsize; simpl.
  { exists o, 0, true. rewrite take_0. by split_and!. }
  destruct (lookup_lt_is_Some_2 keys i) as [k Hk]; [lia|]. destruct (lookup_lt_is_Some_2 values i) as [v Hv]; [lia|].
  rewrite Hk, Hv. assert (zip keys values !! i = Some (k, v)) as Hkv by (apply lookup_zip_Some; by split).
  rewrite (drop_S _ _ _ Hkv).
  destruct (write_tuple_ok c (sps i) m keys values o i k v Hm Hopen Hc ltac:(lia) (Hst i)) as (l & o1 & ok & -> & Hadd & Hm1 & Hok).
  rewrite M_bind_unfold, Hadd. destruct ok.
  - destruct (IH (S i) o1 (add_pair plus m (k, v)) ltac:(lia) Hm1 Hok) as (o' & p & ok' & Hw & Hp & Hm' & Hok').
    { pose proof (size_add_pair plus m (k, v)). lia. }
    exists o', (S p), ok'. rewrite <- !Nat.add_succ_comm in *. cbn beta iota. rewrite Hw.
    split; [by destruct ok'|]. split; [lia|]. split; [done|]. destruct ok'; [destruct Hok'; split; [lia|done]|].
    destruct Hok'. split; [lia|done].
  - exists o1, 0, false. rewrite Nat.add_0_r. split_and!; [done|lia|done|lia|done].
Qed.

(** [writeOut]: tuples are added from the front; when one does not fit, exactly
    those added are erased from the tuple set, and the exception is passed on. *)
Lemma write_out_ok c sps s m :
  length (keyColumn s) = length (valueColumn s) → (∀ j, steady (sps j)) →
  container_holds m (container s) → container_open c (container s) → (c ≤ max_slots)%Z →
  (Z.of_nat (size m + length (keyColumn s)) ≤ max_entries)%Z →
  ∃ s' p (ok : bool), write_out hash_impl dV plus which sps s = (if ok then Ret tt else NotEnoughSpace, s') ∧
    length (keyColumn s') = length (valueColumn s') ∧
    container_holds (aggregate_onto plus m (take p (tuples s))) (container s') ∧
    if ok then p = length (keyColumn s) ∧ tuples s' = tuples s ∧ container_open c (container s')
    else tuples s' = drop p (tuples s) ∧ p < length (keyColumn s) ∧ ¬ ample (sps p).
Proof.
  intros Hlen Hst Hm Hopen Hc Hsize. destruct s as [keys values o]. simpl in *. unfold write_out, tuples. simpl.
  destruct (write_tuples_ok c sps (length keys) 0 keys values o m Hlen (Nat.add_0_l _) Hst Hm Hopen Hc Hsize)
    as (o' & p & ok & Hw & Hp & Hm' & Hok). rewrite Hw. rewrite drop_0 in Hm'. simpl in *.
  destruct ok.
  - destruct Hok as [-> Hopen']. eexists _, _, true. by split_and!.
  - destruct Hok as [Hlt Hample]. eexists _, p, false. split; [done|]. simpl. rewrite !length_drop.
    split_and!; [lia|done|by rewrite zip_with_drop|done|exact Hample].
Qed.
End sinks.

Section containers.
Context {RS : RecordSize} {K V : Type} `{Countable K} (hash_impl : K → Z).
Implicit Types (m : gmap K V).

#[export] Instance ShuffleSink_partitioned (n : Z) : (0 < n)%Z →
  Partitioned (ShuffleSink_which n) (λ o : list (PairArray K V), length o = Z.to_nat n) id (λ h, Z.to_nat (h mod n)).
Proof.
  intros Hn. constructor. intros h o Ho. unfold ShuffleSink_which. rewrite (proj2 (Z.eqb_neq n 0)) by lia.
  pose proof (Z.mod_pos_bound h n Hn). destruct (lookup_lt_is_Some_2 o (Z.to_nat (h mod n))) as [t Ht]; [lia|].
  exists (at_index (Z.to_nat (h mod n))), t. split; [done|]. split.
  - pose proof (lookup_lt_Some _ _ _ Ht) as Hlt. split; simpl; [done| | |].
    + intros t1. by apply list_lookup_insert_eq.
    + intros t1 t2. apply list_insert_insert_eq.
    + by apply list_insert_id.
  - split; [done|]. intros t'. simpl. by rewrite length_insert.
Qed.

Lemma mjoin_alter {A} (f : A → A) n p j (ls : list (list A)) :
  Forall (λ l, length l = n) ls → p < n → mjoin (alter (alter f p) j ls) = alter f (j * n + p) (mjoin ls).
Proof.
  intros Hl Hp. revert j. induction Hl as [|l ls Hlen _ IH]; intros [|j]; [done|done| |].
  - change (alter f p l ++ mjoin ls = alter f (0 * n + p) (l ++ mjoin ls)). by rewrite alter_app_l by lia.
  - change (l ++ mjoin (alter (alter f p) j ls) = alter f (S j * n + p) (l ++ mjoin ls)). rewrite IH. replace (S j * n + p) with (length l + (j * n + p)) by lia. by rewrite alter_app_r.
Qed.

Lemma fmap_set_aggMap t i (l : list (AggregationMap (K:=K) (V:=V))) :
  aggMap <$> alter (set_aggMap t) i l = <[i := t]> (aggMap <$> l).
Proof.
  revert i. induction l as [|x l IH]; intros [|i]; [done|done|done|].
  change (aggMap x :: (aggMap <$> alter (set_aggMap t) i l) = aggMap x :: <[i := t]> (aggMap <$> l)). by rewrite IH.
Qed.

Lemma alter_alter {A} (f g : A → A) i (l : list A) : alter f i (alter g i l) = alter (λ x, f (g x)) i l.
Proof. revert i. induction l as [|x l IH]; intros [|i]; [done|done|done|]. apply (f_equal (cons x)), IH. Qed.

Lemma alter_same {A} (f : A → A) i (l : list A) : (∀ x, l !! i = Some x → f x = x) → alter f i l = l.
Proof.
  intros Hf. transitivity (alter id i l); [by apply list_alter_ext|by apply list_alter_id].
Qed.

Lemma alter_lookup_Some {A} (f : A → A) i (l : list A) j y :
  alter f i l !! j = Some y → (i = j ∧ ∃ z, l !! i = Some z ∧ y = f z) ∨ (i ≠ j ∧ l !! j = Some y).
Proof.
  destruct (decide (i = j)) as [->|Hij].
  - rewrite list_lookup_alter_eq. destruct (l !! j) as [z|]; [|done]. intros [= <-]. left. eauto.
  - rewrite list_lookup_alter_ne by done. by right.
Qed.

(** The maps of all nodes one after the other. *)
Definition node_tables (o : list (list (AggregationMap (K:=K) (V:=V)))) : list (PairArray K V) := aggMap <$> mjoin o.

Definition node_shape (N P : Z) (o : list (list (AggregationMap (K:=K) (V:=V)))) : Prop :=
  length o = Z.to_nat N ∧ Forall (λ l, length l = Z.to_nat P) o.

#[export] Instance CombinedShuffleSink_partitioned (N P : Z) : (0 < N)%Z → (0 < P)%Z →
  Partitioned (CombinedShuffleSink_which N P) (node_shape N P) node_tables (λ h, Z.to_nat (h mod (N * P))).
Proof.
  intros HN HP. constructor. intros h o [Hlen Hall]. unfold CombinedShuffleSink_which.
  rewrite (proj2 (Z.eqb_neq (N * P) 0)) by lia. set (id := (h mod (N * P))%Z).
  assert (0 ≤ id < N * P)%Z as Hid by (apply Z.mod_pos_bound; lia).
  pose proof (Z.mod_pos_bound id P HP) as Hp. pose proof (Z.div_mod id P ltac:(lia)) as Hdm.
  assert (0 ≤ id / P < N)%Z as Hj by (split; [apply Z.div_pos; lia|apply Z.div_lt_upper_bound; lia]).
  set (j := Z.to_nat (id / P)). set (p := Z.to_nat (id mod P)).
  destruct (lookup_lt_is_Some_2 o j) as [node Hnode]; [lia|].
  assert (length node = Z.to_nat P) as Hnl by (by eapply (proj1 (Forall_lookup _ _) Hall)).
  destruct (lookup_lt_is_Some_2 node p) as [x Hx]; [lia|].
  assert (Z.to_nat id = j * Z.to_nat P + p) as Hidx by nia.
  assert (∀ o', node_shape N P o' → ∀ t', node_shape N P (alter (alter (set_aggMap t') p) j o') ∧
    node_tables (alter (alter (set_aggMap t') p) j o') = <[Z.to_nat id := t']> (node_tables o')) as Hupd.
  { intros o' [Hlen' Hall'] t'. split; [split|].
    - by rewrite length_alter.
    - apply Forall_alter; [done|]. intros l Hl Hll. by rewrite length_alter.
    - unfold node_tables. rewrite (mjoin_alter _ (Z.to_nat P)) by (done || lia). by rewrite Hidx, fmap_set_aggMap. }
  exists (getMap P id), (aggMap x). split; [done|]. fold j p. split; [|split].
  - unfold getMap. fold j p. split; simpl.
    + by rewrite Hnode; simpl; rewrite Hx.
    + intros t1. rewrite list_lookup_alter_eq, Hnode. simpl. rewrite list_lookup_alter_eq, Hx. done.
    + intros t1 t2. rewrite alter_alter. apply list_alter_ext; [|done]. intros l _. by rewrite alter_alter.
    + apply alter_same. intros l Hl. rewrite Hnode in Hl. injection Hl as <-.
      apply alter_same. intros y Hy. rewrite Hx in Hy. injection Hy as <-. by destruct x.
  - unfold node_tables. rewrite list_lookup_fmap, Hidx.
    rewrite (proj2 (join_lookup_Some_same_length' (Z.to_nat P) o j p x Hall ltac:(lia))); [done|]. by exists node.
  - intros t'. by apply Hupd.
Qed.

Lemma Map_new_fresh n : (0 ≤ n ≤ max_slots)%Z →
  ∃ t : PairArray K V, Map_new n = Ret t ∧ wf hash_impl t ∧ counted t ∧ to_map t = ∅ ∧ (numSlots t ≤ Z.max 2 n)%Z.
Proof.
  intros Hn. unfold Map_new. set (n' := if (n <? 2)%Z then 2%Z else n).
  pose proof max_slots_bounds. pose proof record_size_ok.
  assert (2 ≤ n' ≤ max_slots ∧ n' ≤ Z.max 2 n)%Z as [Hn' Hmax] by (unfold n'; destruct (Z.ltb_spec n 2); lia).
  assert (0 ≤ record_size * (2 * n') < u32_modulus)%Z by (apply max_slots_bytes; lia).
  destruct (PairArray_new_wf (V:=V) hash_impl n') as (t & -> & Hwf & Hm & Hc & Hu & Hns); [lia|lia|].
  exists t. unfold counted. split_and!; try done; lia.
Qed.
End containers.
