(* ===== verification/AggregateCombine.v ===== *)
(** * AggregateCombine: combining pages and aggregating partitions

    What the combiner thread, the aggregation thread and [AggOutProcessor] of
    [Aggregation] do: nothing is lost and nothing is counted twice, whichever
    allocations fail. *)

From S2P Require Import Prelude HashProbe PairArray Aggregation AggregateSink.

(** ** Iterators over maps *)

Section iterators.
Context {RS : RecordSize} {K V : Type} `{Countable K} (hash_impl : K → Z).
Implicit Types (t : PairArray K V) (it : iterator).

(** The entries of a map in the order of iteration, and those still ahead. *)
Definition entries t : list (K * V) := omap entry (data t).
Definition ahead t it : list (K * V) := omap entry (drop (it_slot it) (data t)).

Record iter_ok t it : Prop := {
  io_slot : it_slot it ≤ length (data t);
  io_done : it_done it = true → ahead t it = [];
  io_more : it_done it = false → ∃ s, data t !! it_slot it = Some s ∧ is_unused s = false
}.

Lemma iter_ne_end it : iter_ne it iter_end = negb (it_done it).
Proof. unfold iter_ne. simpl. apply orb_false_r. Qed.

Lemma settle_ok t i : wf hash_impl t → i ≤ length (data t) →
  iter_ok t (settle t i) ∧ ahead t (settle t i) = omap entry (drop i (data t)).
Proof.
  intros Hwf Hi. destruct (settle_spec hash_impl t i Hwf Hi) as (H1 & H2 & H3 & H4 & _).
  split; [|done]. split; [done| |done]. intros Hd. unfold ahead. rewrite H2. by apply H3.
Qed.

Lemma iter_begin_ok t : wf hash_impl t → iter_ok t (iter_begin t) ∧ ahead t (iter_begin t) = entries t.
Proof. intros Hwf. destruct (settle_ok t 0 Hwf) as [H1 H2]; [lia|]. by split. Qed.

Lemma iter_step t it : wf hash_impl t → iter_ok t it → it_done it = false →
  ∃ kv, iter_deref t it = Some kv ∧ ahead t it = kv :: ahead t (iter_next t it) ∧ iter_ok t (iter_next t it).
Proof.
  intros Hwf [Hle _ Hmore] Hd. destruct (Hmore Hd) as (s & Hs & Hu).
  destruct (wf_entry _ _ Hwf _ _ Hs Hu) as (k & v & Hkv & _). exists (k, v).
  pose proof (lookup_lt_Some _ _ _ Hs) as Hlt.
  destruct (settle_ok t (S (it_slot it)) Hwf ltac:(lia)) as [Hok Ha].
  assert (iter_next t it = settle t (S (it_slot it))) as ->.
  { unfold iter_next. rewrite Hd. by destruct (settle t (S (it_slot it))). }
  split; [unfold iter_deref; by rewrite Hs|]. split; [|done].
  rewrite Ha. unfold ahead. rewrite (drop_lookup_cons _ _ _ Hs). simpl. unfold entry at 1. by rewrite Hu, Hkv.
Qed.

Lemma entries_map t : wf hash_impl t → entries t ≡ₚ map_to_list (to_map t).
Proof.
  intros Hwf. unfold to_map, slots_map. symmetry. apply map_to_list_to_map, slots_NoDup. by eapply wf_uniq.
Qed.

Lemma entries_length t : wf hash_impl t → length (entries t) ≤ Z.to_nat (numSlots t).
Proof.
  intros Hwf. pose proof (wf_len _ _ Hwf) as Hl. unfold entries.
  assert (∀ d : list (slot K V), length (omap entry d) ≤ length d) as Ho.
  { intros d. induction d as [|s d IH]; [done|].
    change (length (match entry s with Some y => y :: omap entry d | None => omap entry d end) ≤ S (length d)).
    destruct (entry s); simpl; lia. }
  pose proof (Ho (data t)). lia.
Qed.

Lemma size_zero_entries t : wf hash_impl t → (Map_size t ≤ 0)%Z → entries t = [].
Proof.
  intros Hwf Hs. pose proof (wf_used _ _ Hwf) as Hu. unfold Map_size, numUsedSlots in Hs.
  destruct (entries t) as [|kv l] eqn:E; [done|]. pose proof (entries_map t Hwf) as Hp.
  apply Permutation_length in Hp. rewrite length_map_to_list, (size_to_map hash_impl), E in Hp by done. simpl in Hp. lia.
Qed.
End iterators.

(** ** Combining pages *)

Section combining.
Context {RS : RecordSize} {K V : Type} `{Countable K} (hash_impl : K → Z) (dV : V) (plus : V → V → V).
Implicit Types (t : PairArray K V) (ms : nat → gmap K V) (c : CombinerProcessor (K:=K) (V:=V)) (l : list (nat * (K * V))).
Local Abbreviation wf := (wf hash_impl).

(** Pairs with the position of their partition: those of position [i]. *)
Definition at_position (i : nat) l : list (K * V) := omap (λ x, if decide (x.1 = i) then Some x.2 else None) l.

(** Adding the pairs to the aggregates of their positions. *)
Definition add_all ms l (i : nat) : gmap K V := aggregate_onto plus (ms i) (at_position i l).

(** The pairs of the partitions [ids] of a page, the first at position [p]. *)
Fixpoint page_pairs (page : list (PairArray K V)) (p : nat) (ids : list nat) : list (nat * (K * V)) :=
  match ids with
  | [] => []
  | id :: ids' => ((p,.) <$> match page !! id with Some t => entries t | None => [] end) ++ page_pairs page (S p) ids'
  end.

(** What is left of the input page. *)
Definition pending c : list (nat * (K * V)) :=
  ((cp_curPartPos c,.) <$> ahead (cp_array c) (cp_begin c)) ++
  page_pairs (cp_inputData c) (S (cp_curPartPos c)) (drop (S (cp_curPartPos c)) (cp_nodePartitionIds c)).

(** The output page holds the aggregates [ms], a map per position. *)
Definition outputs_hold ms (outs : list AggregationMap) : Prop :=
  ∀ i x, outs !! i = Some x → wf (aggMap x) ∧ hashPartitionId x = Z.of_nat i ∧ to_map (aggMap x) = ms i.

Definition outputs_open (outs : list (AggregationMap (K:=K) (V:=V))) : Prop :=
  ∀ i x, outs !! i = Some x →
    counted (aggMap x) ∧ (numSlots (aggMap x) ≤ Z.max 2 (4 * Z.of_nat (size (to_map (aggMap x)))))%Z.

(** The processor between two turns. *)
Record combining_ok c : Prop := {
  co_final : cp_finalized c = false;
  co_pos : cp_curPartPos c < numNodePartitions c;
  co_input id : id ∈ cp_nodePartitionIds c → ∃ t, cp_inputData c !! id = Some t ∧ wf t;
  co_array : wf (cp_array c);
  co_begin : iter_ok (cp_array c) (cp_begin c);
  co_outputs : length (cp_outputData c) = numNodePartitions c;
  co_output : it_done (cp_begin c) = false → cp_curOutputMap c = cp_curPartPos c
}.

Definition same_input c c' : Prop :=
  cp_nodePartitionIds c' = cp_nodePartitionIds c ∧ cp_inputData c' = cp_inputData c.

Lemma at_position_cons i x l : at_position i (x :: l) = (if decide (x.1 = i) then [x.2] else []) ++ at_position i l.
Proof. unfold at_position. simpl. by case_decide. Qed.

Lemma at_position_app i l1 l2 : at_position i (l1 ++ l2) = at_position i l1 ++ at_position i l2.
Proof. apply omap_app. Qed.

Lemma add_all_cons ms x l i :
  add_all ms (x :: l) i = add_all (λ j, if decide (x.1 = j) then add_pair plus (ms j) x.2 else ms j) l i.
Proof. unfold add_all. rewrite at_position_cons. by case_decide. Qed.

Lemma add_all_app ms l1 l2 i : add_all ms (l1 ++ l2) i = add_all (add_all ms l1) l2 i.
Proof. unfold add_all. rewrite at_position_app. unfold aggregate_onto. by rewrite foldl_app. Qed.

Lemma outputs_hold_ext ms ms' outs : (∀ i, ms i = ms' i) → outputs_hold ms outs → outputs_hold ms' outs.
Proof. intros He Ho i x Hx. destruct (Ho i x Hx) as (? & ? & ?). by rewrite <- He. Qed.

(** One pair is added at the current position, or the output is as it was. *)
Lemma cp_add_ok sp c ms k v :
  combining_ok c → it_done (cp_begin c) = false → outputs_hold ms (cp_outputData c) → outputs_open (cp_outputData c) →
  (Z.of_nat (size (ms (cp_curPartPos c))) < max_entries)%Z → steady sp →
  ∃ outs (ok : bool), add_tuple hash_impl dV plus cp_output (mret tt) sp k v c =
      (if ok then Ret tt else NotEnoughSpace, cp_set_outputData outs c) ∧
    length outs = length (cp_outputData c) ∧
    outputs_hold (if ok then λ j, if decide (cp_curPartPos c = j) then add_pair plus (ms j) (k, v) else ms j else ms) outs ∧
    if ok then outputs_open outs else ¬ ample sp.
Proof.
  intros Hok Hd Hms Hopen Hsize Hst. pose proof (co_output _ Hok Hd) as Hcur. pose proof (co_pos _ Hok) as Hpos.
  destruct (lookup_lt_is_Some_2 (cp_outputData c) (cp_curPartPos c)) as [x Hx]; [by rewrite (co_outputs _ Hok)|].
  destruct (Hms _ _ Hx) as (Hwf & Hid & Hm). destruct (Hopen _ _ Hx) as [Hcnt Hns].
  assert (place_ok cp_output c (aggMap x)) as Hl.
  { destruct c as [ids fin pos inp arr beg outs cur]. simpl in *. subst cur. split; simpl.
    - by rewrite Hx.
    - intros t1. rewrite list_lookup_alter_eq, Hx. done.
    - intros t1 t2. unfold cp_set_outputData. simpl. f_equal. rewrite alter_alter. by apply list_alter_ext.
    - unfold cp_set_outputData. simpl. f_equal. apply alter_same. intros y Hy. rewrite Hx in Hy. injection Hy as <-. by destruct x. }
  assert (numSlots (aggMap x) ≤ max_slots)%Z as Hns' by (rewrite Hm in Hns; slots_lia).
  destruct (add_tuple_ok hash_impl dV plus cp_output (mret tt) id ltac:(done) sp c (aggMap x) k v Hl Hwf Hns' Hst)
    as (t' & ok & -> & Hwf' & Hadd).
  exists (alter (set_aggMap t') (cp_curPartPos c) (cp_outputData c)), ok. split.
  { unfold cp_output. simpl. rewrite Hcur. by destruct ok. }
  split; [apply length_alter|].
  assert (∀ ms', to_map t' = ms' (cp_curPartPos c) → (∀ j, j ≠ cp_curPartPos c → ms' j = ms j) →
    outputs_hold ms' (alter (set_aggMap t') (cp_curPartPos c) (cp_outputData c))) as Hholds.
  { intros ms' Hm' Hother j y Hy. apply alter_lookup_Some in Hy as [(<- & z & Hz & ->)|[Hj Hy]].
    - rewrite Hx in Hz. injection Hz as <-. by split_and!.
    - rewrite Hother by done. by apply Hms. }
  destruct ok.
  - destruct Hadd as (Hm' & Hc' & Hg). split.
    + apply Hholds; [by rewrite Hm', decide_True, Hm by done|]. intros j Hj. by rewrite decide_False by done.
    + intros j y Hy. apply alter_lookup_Some in Hy as [(<- & z & Hz & ->)|[Hj Hy]]; [|by eapply Hopen].
      rewrite Hx in Hz. injection Hz as <-. simpl. split; [by apply Hc'|].
      eapply (grows_bound hash_impl 2 (aggMap x)); try done. rewrite Hm'. apply size_add_pair.
  - destruct Hadd as [Hm' Hample]. split; [|done]. apply Hholds; [|done]. by rewrite Hm'.
Qed.
End combining.

Section filling.
Context {RS : RecordSize} {K V : Type} `{Countable K} (hash_impl : K → Z) (dV : V) (plus : V → V → V).
Implicit Types (t : PairArray K V) (ms : nat → gmap K V) (c : CombinerProcessor (K:=K) (V:=V)).
Local Abbreviation wf := (wf hash_impl).
Local Abbreviation combining_ok := (combining_ok hash_impl).
Local Abbreviation outputs_hold := (outputs_hold hash_impl).

(** A turn that adds a pair. *)
Lemma cp_next c outs : combining_ok c → it_done (cp_begin c) = false → length outs = length (cp_outputData c) →
  let c1 := cp_set_begin (iter_next (cp_array c) (cp_begin c)) (cp_set_outputData outs c) in
  ∃ kv, iter_deref (cp_array c) (cp_begin c) = Some kv ∧ combining_ok c1 ∧ pending c = (cp_curPartPos c, kv) :: pending c1.
Proof.
  intros [Hf Hp Hin Ha Hb Ho Hcur] Hd Hl c1.
  destruct (iter_step hash_impl _ _ Ha Hb Hd) as (kv & Hkv & Hah & Hok). exists kv. split; [done|]. split.
  - split; simpl; try done; [by rewrite Hl|]. intros _. by apply Hcur.
  - unfold pending. simpl. by rewrite Hah.
Qed.

(** A turn that moves on to the next partition. *)
Lemma cp_advance c : combining_ok c → it_done (cp_begin c) = true → S (cp_curPartPos c) < numNodePartitions c →
  let c1 := cp_set_pos (S (cp_curPartPos c)) c in
  ∃ t, cp_curMap c1 = Some t ∧ wf t ∧
    ((Map_size t ≤ 0)%Z → combining_ok c1 ∧ pending c1 = pending c) ∧
    pending (cp_iterate t c1) = pending c ∧
    (it_done (iter_begin t) = true → combining_ok (cp_iterate t c1)) ∧
    (it_done (iter_begin t) = false → combining_ok (cp_set_output (S (cp_curPartPos c)) (cp_iterate t c1))).
Proof.
  intros [Hf Hp Hin Ha Hb Ho Hcur] Hd Hlt c1. unfold numNodePartitions in Hlt.
  destruct (lookup_lt_is_Some_2 (cp_nodePartitionIds c) (S (cp_curPartPos c))) as [id Hid]; [done|].
  destruct (Hin id) as (t & Ht & Hwf); [by eapply list_elem_of_lookup_2|].
  exists t. unfold cp_curMap. simpl. rewrite Hid. simpl. split; [done|]. split; [done|].
  assert (ahead (cp_array c) (cp_begin c) = []) as Hnil by by apply (io_done _ _ Hb).
  assert (pending c = ((S (cp_curPartPos c),.) <$> entries t) ++
    page_pairs (cp_inputData c) (S (S (cp_curPartPos c))) (drop (S (S (cp_curPartPos c))) (cp_nodePartitionIds c))) as Hpend.
  { unfold pending. rewrite Hnil, (drop_S _ _ _ Hid). simpl. by rewrite Ht. }
  destruct (iter_begin_ok hash_impl t Hwf) as [Hib Hia].
  split_and!.
  - intros Hz. pose proof (size_zero_entries hash_impl t Hwf Hz) as He. split.
    + split; simpl; try done. congruence.
    + rewrite Hpend, He. unfold pending. simpl. by rewrite Hnil.
  - rewrite Hpend. unfold pending. simpl. by rewrite Hia.
  - intros Hd'. split; simpl; try done. congruence.
  - intros Hd'. by split; simpl.
Qed.

(** What [fillNextOutputPage] does with what is left of the input page: pairs are
    added in order; if not all of them, an allocation has failed, and the
    processor is ready to go on behind the last pair added. *)
Definition filled (sps : nat → tuple_space V) i ms c (r : outcome bool) c' (taken rest : list (nat * (K * V))) : Prop :=
  pending c = taken ++ rest ∧ outputs_hold (add_all plus ms taken) (cp_outputData c') ∧ same_input c c' ∧
  length (cp_outputData c') = length (cp_outputData c) ∧ cp_finalized c' = false ∧
  match r with
  | Ret full => full = false ∧ rest = [] ∧ outputs_open (cp_outputData c') ∧ cp_curPartPos c' = 0 ∧ cp_curOutputMap c' = 0
  | NotEnoughSpace => combining_ok c' ∧ pending c' = rest ∧ rest ≠ [] ∧ ¬ ample (sps (i + length taken))
  | _ => False
  end.

Lemma cp_fill_ok sps fuel i c ms :
  (∀ j, steady (sps j)) → combining_ok c → outputs_hold ms (cp_outputData c) → outputs_open (cp_outputData c) →
  (∀ j, Z.of_nat (size (ms j) + length (pending c)) ≤ max_entries)%Z →
  length (pending c) + (numNodePartitions c - cp_curPartPos c) ≤ fuel →
  ∃ r c' taken rest, cp_fill hash_impl dV plus sps fuel i c = (r, c') ∧ filled sps i ms c r c' taken rest.
Proof.
  intros Hst. revert i c ms. induction fuel as [|fuel IH]; intros i c ms Hok Hms Hopen Hsize Hfuel.
  { pose proof (co_pos _ _ Hok). lia. }
  (* adding a pair *)
  assert (∀ c, combining_ok c → outputs_hold ms (cp_outputData c) → outputs_open (cp_outputData c) →
    (∀ j, Z.of_nat (size (ms j) + length (pending c)) ≤ max_entries)%Z →
    length (pending c) + (numNodePartitions c - cp_curPartPos c) ≤ S fuel → it_done (cp_begin c) = false →
    ∃ r c' taken rest, match iter_deref (cp_array c) (cp_begin c) with
      | Some (curKey, curValue) =>
          (add_tuple hash_impl dV plus cp_output (mret tt) (sps i) curKey curValue ;;
           modify (λ c, cp_set_begin (iter_next (cp_array c) (cp_begin c)) c) ;;
           cp_fill hash_impl dV plus sps fuel (S i)) c
      | None => (Undefined, c)
      end = (r, c') ∧ filled sps i ms c r c' taken rest) as Hadd.
  { clear c Hok Hms Hopen Hsize Hfuel. intros c Hok Hms Hopen Hsize Hfuel Hd.
    destruct (cp_next c (cp_outputData c) Hok Hd eq_refl) as ([k v] & -> & _ & Hpend).
    pose proof (Hsize (cp_curPartPos c)) as Hsz. rewrite Hpend in Hsz. simpl in Hsz.
    destruct (cp_add_ok (RS:=RS) hash_impl dV plus (sps i) c ms k v Hok Hd Hms Hopen ltac:(slots_lia) (Hst i))
      as (outs & ok & Hadd & Hlen & Hms1 & Hok1).
    destruct (cp_next c outs Hok Hd Hlen) as (kv & _ & Hc1 & Hpend1).
    rewrite M_bind_unfold, Hadd. destruct ok.
    - run. change (cp_array (cp_set_outputData outs c)) with (cp_array c).
      change (cp_begin (cp_set_outputData outs c)) with (cp_begin c). 
      set (c2 := cp_set_begin (iter_next (cp_array c) (cp_begin c)) (cp_set_outputData outs c)) in *.
      assert (length (pending c) = S (length (pending c2))) as Hpl by by rewrite Hpend1.
      destruct (IH (S i) c2 _ Hc1 Hms1 Hok1) as (r & c' & taken & rest & -> & Hp & Hh & Hsame & Hl & Hfin & Hr).
      { intros j. pose proof (Hsize j). case_decide; [|lia]. pose proof (size_add_pair plus (ms j) (k, v)). lia. }
      { change (numNodePartitions c2) with (numNodePartitions c). change (cp_curPartPos c2) with (cp_curPartPos c). lia. }
      exists r, c', ((cp_curPartPos c, kv) :: taken), rest. split; [done|]. split; [by rewrite Hpend1, Hp|].
      assert (kv = (k, v)) as -> by (rewrite Hpend in Hpend1; by injection Hpend1).
      split; [eapply outputs_hold_ext; [|exact Hh]; intros j; by rewrite add_all_cons|].
      split; [done|]. split; [by rewrite Hl|]. split; [done|]. simpl. rewrite <- Nat.add_succ_comm. done.
    - exists NotEnoughSpace, (cp_set_outputData outs c), [], (pending c). split; [done|]. split; [done|].
      split; [done|]. split; [done|]. split; [done|]. split; [apply (co_final _ _ Hok)|].
      split; [|split; [done|split; [by rewrite Hpend|by rewrite Nat.add_0_r]]].
      destruct Hok. split; try done. simpl. by rewrite Hlen. }
  cbn [cp_fill]. rewrite iter_ne_end, negb_involutive. destruct (it_done (cp_begin c)) eqn:Hd; [|by apply Hadd].
  destruct (decide (cp_curPartPos c < numNodePartitions c - 1)) as [Hlt|Hge].
  - destruct (cp_advance c Hok Hd ltac:(lia)) as (t & -> & Hwf & Hzero & Hpend & Hdone & Hmore).
    destruct (Z.ltb_spec 0 (Map_size t)) as [Hs|Hs].
    + rewrite iter_ne_end. change (cp_begin (cp_iterate t ?x)) with (iter_begin t).
      destruct (it_done (iter_begin t)) eqn:Hd'; cbn [negb].
      * destruct (IH i (cp_iterate t (cp_set_pos (S (cp_curPartPos c)) c)) ms (Hdone eq_refl) Hms Hopen) as (r & c' & taken & rest & -> & Hr).
        { by rewrite Hpend. }
        { rewrite Hpend. change (numNodePartitions (cp_iterate _ _)) with (numNodePartitions c). simpl. lia. }
        exists r, c', taken, rest. split; [done|]. unfold filled in *. by rewrite Hpend in Hr.
      * destruct (Hadd (cp_set_output (S (cp_curPartPos c)) (cp_iterate t (cp_set_pos (S (cp_curPartPos c)) c))) (Hmore eq_refl) Hms Hopen)
          as (r & c' & taken & rest & Heq & Hr); try done.
        { change (pending (cp_set_output ?x ?y)) with (pending y). by rewrite Hpend. }
        { change (pending (cp_set_output ?x ?y)) with (pending y). rewrite Hpend.
          change (numNodePartitions (cp_set_output _ _)) with (numNodePartitions c). simpl. lia. }
        exists r, c', taken, rest. split; [exact Heq|]. unfold filled in *.
        change (pending (cp_set_output ?x ?y)) with (pending y) in Hr. by rewrite Hpend in Hr.
    + destruct (Hzero Hs) as [Hok' Hpend'].
      destruct (IH i (cp_set_pos (S (cp_curPartPos c)) c) ms Hok' Hms Hopen) as (r & c' & taken & rest & -> & Hr).
      { by rewrite Hpend'. }
      { rewrite Hpend'. change (numNodePartitions (cp_set_pos _ _)) with (numNodePartitions c). simpl. lia. }
      exists r, c', taken, rest. split; [done|]. unfold filled in *. by rewrite Hpend' in Hr.
  - exists (Ret false), (cp_set_output 0 (cp_set_pos 0 c)), [], []. split; [done|].
    assert (pending c = []) as Hnil.
    { unfold pending. pose proof (co_pos _ _ Hok) as Hpos. unfold numNodePartitions in *.
      rewrite drop_ge by lia. simpl. rewrite app_nil_r. by rewrite (io_done _ _ (co_begin _ _ Hok) Hd). }
    split; [done|]. split; [done|]. split; [done|]. split; [done|]. split; [apply (co_final _ _ Hok)|]. done.
Qed.
End filling.

Section running.
Context {RS : RecordSize} {K V : Type} `{Countable K} (hash_impl : K → Z) (dV : V) (plus : V → V → V) `{!Assoc (=) plus} `{!Comm (=) plus}.
Context (fits_page : nat → bool) (sps : nat → nat → tuple_space V).
Implicit Types (t : PairArray K V) (ms : nat → gmap K V) (c : combiner (K:=K) (V:=V)).
Local Abbreviation wf := (wf hash_impl).
Local Abbreviation combining_ok := (combining_ok hash_impl).
Local Abbreviation outputs_hold := (outputs_hold hash_impl).

(** The answers of the allocator: an empty page has room for its maps, and of two
    calls in a row, the second of which may have an empty page to fill, one finds
    room for its first pair. *)
Record answers_ok : Prop := {
  an_page n : fits_page n = true;
  an_steady n i : steady (sps n i);
  an_first n : ample (sps n 0) ∨ ample (sps (S n) 0)
}.

(** The map at position [i] of an output page, and the sum over the pages sent. *)
Definition page_map (i : nat) (out : list (AggregationMap (K:=K) (V:=V))) : gmap K V :=
  match out !! i with Some x => to_map (aggMap x) | None => ∅ end.
Definition sent_total (sent : list (list AggregationMap)) (i : nat) : gmap K V :=
  combine_all plus (page_map i <$> sent).

Lemma sent_total_snoc sent out i : sent_total (sent ++ [out]) i = combine plus (sent_total sent i) (page_map i out).
Proof. unfold sent_total. rewrite fmap_app, combine_all_app by done. simpl. by rewrite combine_empty_r. Qed.

Lemma add_all_combine ms l i : add_all plus ms l i = combine plus (ms i) (aggregate plus (at_position i l)).
Proof. by apply aggregate_onto_combine. Qed.

Lemma default_maps (n s : nat) :
  ∃ l, mapM (λ i : nat, AggregationMap_default (K:=K) (V:=V) (Z.of_nat i)) (seq s n) = Ret l ∧ length l = n ∧
    ∀ i x, l !! i = Some x → wf (aggMap x) ∧ hashPartitionId x = Z.of_nat (s + i) ∧ to_map (aggMap x) = ∅ ∧
      counted (aggMap x) ∧ (numSlots (aggMap x) ≤ 2)%Z.
Proof.
  destruct (Map_default_spec (V:=V) hash_impl) as (t & Ht & Hwf & Hc & Htight & Hm).
  revert s. induction n as [|n IH]; intros s; [by exists []|]. destruct (IH (S s)) as (l & Hl & Hlen & Hall).
  exists (MkAggregationMap t (Z.of_nat s) :: l). cbn [seq mapM]. rewrite Hl. unfold AggregationMap_default. rewrite Ht.
  split; [done|]. split; [by simpl; rewrite Hlen|]. intros [|i] x Hx.
  - injection Hx as <-. simpl. rewrite Nat.add_0_r. unfold tight in Htight. rewrite Hm, map_size_empty in Htight. split_and!; try done; lia.
  - rewrite <- Nat.add_succ_comm. by apply Hall.
Qed.

(** A fresh output page. *)
Lemma load_output_ok c : fits_page (length (cr_sent c)) = true →
  ∃ outs, load_output fits_page c = (Ret tt, MkCombinerRun
      (cp_set_output (cp_curPartPos (cr_processor c)) (cp_set_outputData outs (cr_processor c))) (cr_sent c) (cr_calls c)) ∧
    length outs = numNodePartitions (cr_processor c) ∧ outputs_hold (λ _, ∅) outs ∧ outputs_open outs.
Proof.
  intros Hfit. destruct (default_maps (numNodePartitions (cr_processor c)) 0) as (outs & Ho & Hlen & Hall).
  exists outs. split.
  - unfold load_output, in_processor, CombinerProcessor_loadOutputPage. run. rewrite Hfit, Ho. run. by destruct c.
  - split; [done|]. split; intros i x Hx; destruct (Hall i x Hx) as (? & ? & Hm & ? & ?); [done|].
    split; [done|]. rewrite Hm, map_size_empty. lia.
Qed.

(** The processor between two input pages. *)
Record page_done ms c c' : Prop := {
  pd_ids : cp_nodePartitionIds (cr_processor c') = cp_nodePartitionIds (cr_processor c);
  pd_final : cp_finalized (cr_processor c') = false;
  pd_length : length (cp_outputData (cr_processor c')) = numNodePartitions (cr_processor c);
  pd_pos : cp_curPartPos (cr_processor c') = 0;
  pd_cur : cp_curOutputMap (cr_processor c') = 0;
  pd_holds : outputs_hold ms (cp_outputData (cr_processor c'));
  pd_open : outputs_open (cp_outputData (cr_processor c'))
}.

(** Every page sent has the right maps. *)
Definition sent_ok (n : nat) (sent : list (list (AggregationMap (K:=K) (V:=V)))) : Prop :=
  ∀ out, out ∈ sent → length out = n ∧ ∀ i x, out !! i = Some x → wf (aggMap x) ∧ hashPartitionId x = Z.of_nat i.

Lemma page_map_holds ms n outs i : outputs_hold ms outs → length outs = n → i < n → page_map i outs = ms i.
Proof.
  intros Hh Hl Hi. unfold page_map. destruct (lookup_lt_is_Some_2 outs i) as [x Hx]; [lia|]. rewrite Hx. by apply Hh.
Qed.

Lemma sent_ok_snoc ms n sent outs : sent_ok n sent → outputs_hold ms outs → length outs = n → sent_ok n (sent ++ [outs]).
Proof.
  intros Hs Hh Hl out [Ho|Ho%list_elem_of_singleton]%elem_of_app; [by apply Hs|]. subst out. split; [done|].
  intros i x Hx. destruct (Hh i x Hx) as (? & ? & _). done.
Qed.

(** The turns given to a call are enough. *)
Lemma cp_turns_enough (c : CombinerProcessor (K:=K) (V:=V)) :
  combining_ok c → length (pending c) + (numNodePartitions c - cp_curPartPos c) ≤ cp_turns c.
Proof.
  intros Hok. unfold cp_turns, pending. rewrite length_app, length_fmap.
  pose proof (entries_length hash_impl _ (co_array _ _ Hok)) as Hel.
  assert (length (ahead (cp_array c) (cp_begin c)) ≤ Z.to_nat (numSlots (cp_array c))) as Ha.
  { etrans; [|exact Hel]. unfold ahead, entries. clear. generalize (data (cp_array c)) as d.
    generalize (it_slot (cp_begin c)) as i. intros i d. rewrite <- (take_drop i d) at 2. rewrite omap_app, length_app. lia. }
  set (f := λ (id n : nat), match cp_inputData c !! id with Some m => S (Z.to_nat (numSlots m)) + n | None => n end).
  assert (∀ ids q, (∀ id, id ∈ ids → ∃ t, cp_inputData c !! id = Some t ∧ wf t) →
    length (page_pairs (cp_inputData c) q ids) + length ids + 1 ≤ foldr f 1 ids) as Hp.
  { intros ids. induction ids as [|id ids IHi]; intros q Hall; simpl; [lia|].
    destruct (Hall id) as (t & Ht & Hwf); [left|]. unfold f at 1. rewrite Ht, length_app, length_fmap.
    pose proof (entries_length hash_impl t Hwf). pose proof (IHi (S q) ltac:(intros; apply Hall; by right)). lia. }
  assert (∀ k ids, foldr f 1 (drop k ids) ≤ foldr f 1 ids) as Hdrop.
  { intros k. induction k as [|k IHk]; intros [|id ids]; simpl; try lia. etrans; [apply IHk|]. unfold f at 2. destruct (_ !! _); lia. }
  pose proof (co_pos _ _ Hok) as Hpos. unfold numNodePartitions in *.
  pose proof (Hp (drop (S (cp_curPartPos c)) (cp_nodePartitionIds c)) (S (cp_curPartPos c))) as H1.
  rewrite length_drop in H1. pose proof (Hdrop (S (cp_curPartPos c)) (cp_nodePartitionIds c)).
  specialize (H1 ltac:(intros id Hid; apply (co_input _ _ Hok); eapply subseteq_drop; exact Hid)). fold f. lia.
Qed.

Lemma combine_page_ok fuel c ms future :
  answers_ok → combining_ok (cr_processor c) → outputs_hold ms (cp_outputData (cr_processor c)) →
  outputs_open (cp_outputData (cr_processor c)) → sent_ok (numNodePartitions (cr_processor c)) (cr_sent c) →
  (∀ j, Z.of_nat (size (ms j) + length (pending (cr_processor c)) + future) ≤ max_entries)%Z →
  2 * length (pending (cr_processor c)) + 2 ≤ fuel ∨
    ample (sps (cr_calls c) 0) ∧ 2 * length (pending (cr_processor c)) + 1 ≤ fuel →
  ∃ c' ms', combine_page hash_impl dV plus fits_page sps fuel c = (Ret tt, c') ∧ page_done ms' c c' ∧
    sent_ok (numNodePartitions (cr_processor c)) (cr_sent c') ∧
    (∀ j, Z.of_nat (size (ms' j) + future) ≤ max_entries)%Z ∧
    ∀ i, i < numNodePartitions (cr_processor c) →
      combine plus (sent_total (cr_sent c') i) (ms' i) =
      combine plus (sent_total (cr_sent c) i) (add_all plus ms (pending (cr_processor c)) i).
Proof.
  intros Han. revert c ms. induction fuel as [|fuel IH]; intros c ms Hok Hms Hopen Hsent Hsize Hfuel; [lia|].
  cbn [combine_page]. run. unfold count_call. run.
  destruct (cp_fill_ok hash_impl dV plus (sps (cr_calls c)) (cp_turns (cr_processor c)) 0 (cr_processor c) ms)
    as (r & p & taken & rest & Hfill & Hpend & Hh & [Hids Hin] & Hlen & Hfin & Hr); try done.
  { intros j. by apply Han. }
  { intros j. pose proof (Hsize j). lia. }
  { by apply cp_turns_enough. }
  unfold in_processor at 1. unfold CombinerProcessor_fillNextOutputPage at 1. cbn [cr_processor cr_sent cr_calls]. rewrite (co_final _ _ Hok). unfold catch. rewrite Hfill.
  assert (length (pending (cr_processor c)) = length taken + length rest) as Hpl by (rewrite Hpend; apply length_app).
  assert (∀ j, size (add_all plus ms taken j) ≤ size (ms j) + length taken) as Hsz.
  { intros j. unfold add_all. etrans; [apply size_aggregate_onto|]. apply Nat.add_le_mono_l.
    clear. induction taken as [|x l IHl]; [done|]. rewrite at_position_cons, length_app. case_decide; simpl; lia. }
  assert (numNodePartitions p = numNodePartitions (cr_processor c)) as Hnp by (unfold numNodePartitions; by rewrite Hids).
  destruct r as [full| | |]; try done.
  - destruct Hr as (-> & -> & Hop & Hpos & Hcur). eexists _, (add_all plus ms taken). split; [done|].
    split; [split; simpl; try done; by rewrite Hlen, (co_outputs _ _ Hok)|].
    split; [done|]. split.
    + intros j. pose proof (Hsize j). pose proof (Hsz j). lia.
    + intros i Hi. simpl. by rewrite Hpend, app_nil_r.
  - destruct Hr as (Hok' & Hrest & Hne & Hnample). unfold send_output. run. cbn [cr_processor cr_sent cr_calls].
    set (c1 := MkCombinerRun p (cr_sent c ++ [cp_outputData p]) (S (cr_calls c))).
    destruct (load_output_ok c1 (an_page Han _)) as (outs & Hload & Hol & Hoh & Hoo). rewrite Hload. run. set (c2 := MkCombinerRun _ _ _).
    change (cr_processor c1) with p in *.
    assert (length (cp_outputData p) = numNodePartitions (cr_processor c)) as Hlp by by rewrite Hlen, (co_outputs _ _ Hok).
    assert (pending (cr_processor c2) = rest) as Hpend2 by by rewrite <- Hrest.
    assert (combining_ok (cr_processor c2)) as Hok2 by by destruct Hok'; split.
    destruct (IH c2 (λ _, ∅) Hok2 Hoh Hoo) as (c' & ms' & Hrun & Hdone & Hsent' & Hsize' & Htot).
    + change (numNodePartitions (cr_processor c2)) with (numNodePartitions p). rewrite Hnp. by eapply sent_ok_snoc.
    + intros j. pose proof (Hsize j). rewrite Hpend2, map_size_empty. lia.
    + rewrite Hpend2. destruct (decide (taken = [])) as [->|Ht].
      * right. simpl in *. destruct (an_first Han (cr_calls c)) as [Ha|Ha]; [done|]. split; [exact Ha|].
        destruct Hfuel as [|[Hample _]]; [lia|done].
      * left. destruct taken; [done|]. simpl in *. lia.
    + change (numNodePartitions (cr_processor c2)) with (numNodePartitions p) in *. rewrite Hnp in *.
      exists c', ms'. split; [done|]. split.
      { destruct Hdone as [H1 H2 H3 H4 H5 H6 H7]. split; try done; [by rewrite H1|]. rewrite H3. done. }
      split; [done|]. split; [done|]. intros i Hi. rewrite (Htot i Hi), Hpend2. unfold c2. simpl. rewrite sent_total_snoc.
      rewrite (page_map_holds _ _ _ _ Hh Hlp Hi), Hpend, add_all_app, (add_all_combine (add_all plus ms taken)).
      rewrite (add_all_combine (λ _, ∅)), combine_empty_l. by rewrite combine_assoc.
Qed.

(** The pairs of all pages. *)
Definition pages_length (ids : list nat) (pages : list (list (PairArray K V))) : nat :=
  sum_list_with (λ page, length (page_pairs page 0 ids)) pages.

(** A page has a map for every partition. *)
Definition input_page_ok (ids : list nat) (page : list (PairArray K V)) : Prop :=
  ∀ id, id ∈ ids → ∃ t, page !! id = Some t ∧ wf t.

(** The sum of partition [id] over the pages. *)
Definition input_total (pages : list (list (PairArray K V))) (id : nat) : gmap K V :=
  combine_all plus ((λ page, match page !! id with Some t => to_map t | None => ∅ end) <$> pages).

Lemma page_pairs_above (page : list (PairArray K V)) q ids i : i < q → at_position i (page_pairs page q ids) = [].
Proof.
  revert q. induction ids as [|id ids IH]; intros q Hi; simpl; [done|]. rewrite at_position_app, IH by lia.
  rewrite app_nil_r. generalize (match page !! id with Some t => entries t | None => [] end) as l.
  intros l. induction l as [|x l IHl]; [done|]. change ((q, x) :: ((q,.) <$> l)) with ([(q, x)] ++ ((q,.) <$> l)).
  rewrite fmap_cons, at_position_cons, IHl. simpl. by rewrite decide_False by lia.
Qed.

Lemma at_position_same i (l : list (K * V)) : at_position i ((i,.) <$> l) = l.
Proof.
  induction l as [|x l IH]; [done|]. rewrite fmap_cons, at_position_cons, IH. simpl. by rewrite decide_True by done.
Qed.

(** The pairs of a page at a position add up to the map of its partition. *)
Lemma page_pairs_total page q ids i id : input_page_ok ids page → ids !! i = Some id →
  ∃ t, page !! id = Some t ∧ wf t ∧ aggregate plus (at_position (q + i) (page_pairs page q ids)) = to_map t.
Proof.
  intros Hin. revert q i. induction ids as [|id0 ids IH]; intros q i Hi; [done|]. simpl. rewrite at_position_app.
  destruct (Hin id0 ltac:(by left)) as (t0 & Ht0 & Hwf0). rewrite Ht0. destruct i as [|i]; simpl in Hi.
  - injection Hi as ->. exists t0. split; [done|]. split; [done|]. rewrite page_pairs_above by lia. rewrite app_nil_r, Nat.add_0_r.
    rewrite at_position_same. apply aggregate_entries; [done..|]. by apply (entries_map hash_impl).
  - destruct (IH ltac:(intros ? ?; apply Hin; by right) (S q) i Hi) as (t & Ht & Hwf & Hagg). exists t. split; [done|]. split; [done|].
    rewrite <- Hagg. f_equal. rewrite Nat.add_succ_comm.
    assert (at_position (q + S i) ((q,.) <$> entries t0) = []) as ->; [|done].
    generalize (entries t0) as l. intros l. induction l as [|x l IHl]; [done|].
    rewrite fmap_cons, at_position_cons, IHl. simpl. by rewrite decide_False by lia.
Qed.

Lemma load_page_ok page (c : CombinerProcessor (K:=K) (V:=V)) :
  input_page_ok (cp_nodePartitionIds c) page → cp_nodePartitionIds c ≠ [] → cp_finalized c = false →
  length (cp_outputData c) = numNodePartitions c → cp_curOutputMap c = 0 →
  ∃ p, CombinerProcessor_loadInputPage page c = (Ret tt, p) ∧ combining_ok p ∧
    cp_nodePartitionIds p = cp_nodePartitionIds c ∧ cp_outputData p = cp_outputData c ∧
    pending p = page_pairs page 0 (cp_nodePartitionIds c).
Proof.
  intros Hin Hne Hfin Hlen Hcur. destruct c as [ids fin pos inp arr beg outs cur]. simpl in *.
  destruct ids as [|id ids]; [done|]. destruct (Hin id ltac:(by left)) as (t & Ht & Hwf).
  unfold CombinerProcessor_loadInputPage, cp_curMap. simpl. rewrite Ht. eexists. split; [done|].
  destruct (iter_begin_ok hash_impl t Hwf) as [Hb Ha]. split; [|split; [done|split; [done|]]].
  - split; try done. unfold numNodePartitions. simpl. lia.
  - unfold pending. simpl. by rewrite Ha, drop_0.
Qed.

Lemma combine_pages_ok fuel pages c ms :
  answers_ok → cp_nodePartitionIds (cr_processor c) ≠ [] →
  (∀ page, page ∈ pages → input_page_ok (cp_nodePartitionIds (cr_processor c)) page ∧
    2 * length (page_pairs page 0 (cp_nodePartitionIds (cr_processor c))) + 2 ≤ fuel) →
  page_done ms c c → sent_ok (numNodePartitions (cr_processor c)) (cr_sent c) →
  (∀ j, Z.of_nat (size (ms j) + pages_length (cp_nodePartitionIds (cr_processor c)) pages) ≤ max_entries)%Z →
  ∃ c' ms', combine_pages hash_impl dV plus fits_page sps fuel pages c = (Ret tt, c') ∧ page_done ms' c c' ∧
    sent_ok (numNodePartitions (cr_processor c)) (cr_sent c') ∧
    ∀ i id, cp_nodePartitionIds (cr_processor c) !! i = Some id →
      combine plus (sent_total (cr_sent c') i) (ms' i) =
      combine plus (combine plus (sent_total (cr_sent c) i) (ms i)) (input_total pages id).
Proof.
  intros Han Hne. revert c ms Hne. induction pages as [|page pages IH]; intros c ms Hne Hpages Hdone Hsent Hsize; cbn [combine_pages].
  { exists c, ms. split; [done|]. split; [done|]. split; [done|]. intros i id _. unfold input_total. simpl. by rewrite combine_empty_r. }
  destruct (Hpages page ltac:(by left)) as [Hin Hfuel]. pose proof Hdone as [_ Hfin Hlen Hpos Hcur Hh Hop].
  destruct (load_page_ok page (cr_processor c) Hin Hne Hfin Hlen Hcur) as (p & Hload & Hok & Hids & Houts & Hpend).
  rewrite M_bind_unfold. unfold in_processor at 1. rewrite Hload, M_bind_unfold.
  set (c1 := MkCombinerRun p (cr_sent c) (cr_calls c)). unfold pages_length in Hsize. simpl in Hsize.
  assert (numNodePartitions p = numNodePartitions (cr_processor c)) as Hnp by (unfold numNodePartitions; by rewrite Hids).
  destruct (combine_page_ok fuel c1 ms (pages_length (cp_nodePartitionIds (cr_processor c)) pages) Han) as (c2 & ms2 & Hrun & Hdone2 & Hsent2 & Hsize2 & Htot2); simpl.
  { done. } { by rewrite Houts. } { by rewrite Houts. } { by rewrite Hnp. }
  { intros j. rewrite Hpend. pose proof (Hsize j). unfold pages_length. lia. }
  { left. by rewrite Hpend. }
  simpl in Hsent2, Htot2. rewrite Hnp, Hpend in *. rewrite Hrun.
  assert (cp_nodePartitionIds (cr_processor c2) = cp_nodePartitionIds (cr_processor c)) as Hids2.
  { rewrite (pd_ids _ _ _ Hdone2). exact Hids. }
  assert (numNodePartitions (cr_processor c2) = numNodePartitions (cr_processor c)) as Hnp2 by (unfold numNodePartitions; by rewrite Hids2).
  destruct (IH c2 ms2) as (c' & ms' & Hrun' & Hdone' & Hsent' & Htot').
  { by rewrite Hids2. } { intros page' Hp'. rewrite Hids2. apply Hpages. by right. }
  { destruct Hdone2 as [H1 H2 H3 H4 H5 H6 H7]. split; try done. by rewrite H3, Hnp2. }
  { by rewrite Hnp2. } { by rewrite Hids2. }
  exists c', ms'. split; [done|]. split.
  { destruct Hdone' as [H1 H2 H3 H4 H5 H6 H7]. split; try done; [by rewrite H1|]. by rewrite H3. }
  split; [by rewrite <- Hnp2|]. intros i id Hi. rewrite (Htot' i id) by by rewrite Hids2.
  rewrite Htot2 by by eapply lookup_lt_Some. rewrite add_all_combine.
  destruct (page_pairs_total page 0 _ i id Hin Hi) as (t & Ht & _ & Hagg). change (0 + i) with i in Hagg. rewrite Hagg.
  unfold input_total. simpl. rewrite Ht. by rewrite !combine_assoc.
Qed.
End running.

Section run_combiner.
Context {RS : RecordSize} {K V : Type} `{Countable K} (hash_impl : K → Z) (dV : V) (plus : V → V → V) `{!Assoc (=) plus} `{!Comm (=) plus}.
Context (fits_page : nat → bool) (sps : nat → nat → tuple_space V).

Lemma run_combiner_ok fuel partitions (pages : list (list (PairArray K V))) :
  answers_ok fits_page sps → partitions ≠ [] →
  (∀ page, page ∈ pages → input_page_ok hash_impl partitions page ∧ 2 * length (page_pairs page 0 partitions) + 2 ≤ fuel) →
  (Z.of_nat (pages_length partitions pages) ≤ max_entries)%Z →
  ∃ sent, run_combiner hash_impl dV plus fits_page sps fuel partitions pages = Ret sent ∧
    sent_ok hash_impl (length partitions) sent ∧
    ∀ i id, partitions !! i = Some id → sent_total plus sent i = input_total plus pages id.
Proof.
  intros Han Hne Hpages Hsize. unfold run_combiner. rewrite M_bind_unfold.
  destruct (load_output_ok hash_impl fits_page (MkCombinerRun (CombinerProcessor_new (K:=K) (V:=V) partitions) [] 0) (an_page _ _ Han _))
    as (outs & Hload & Hlen & Hh & Hop).
  rewrite Hload, M_bind_unfold. set (c0 := MkCombinerRun _ _ _).
  destruct (combine_pages_ok hash_impl dV plus fits_page sps fuel pages c0 (λ _, ∅) Han Hne Hpages)
    as (c & ms & Hrun & [Hids Hfin Hl Hpos Hcur Hms Ho] & Hsent & Htot).
  { by split. }
  { by intros out Hout%elem_of_nil. }
  { intros j. rewrite map_size_empty. exact Hsize. }
  rewrite Hrun. unfold in_processor, CombinerProcessor_fillNextOutputPage, send_output. run.
  eexists. split; [done|]. cbn [cr_sent cr_processor CombinerProcessor_finalize cp_outputData cp_finalized].
  split; [by eapply sent_ok_snoc|]. intros i id Hi. rewrite sent_total_snoc by done.
  change (cp_outputData (CombinerProcessor_finalize (cr_processor c))) with (cp_outputData (cr_processor c)).
  rewrite (page_map_holds hash_impl ms (length partitions)) by (done || by eapply lookup_lt_Some).
  rewrite (Htot i id Hi). simpl. unfold sent_total. simpl. by rewrite !combine_empty_l.
Qed.
End run_combiner.

(** ** Aggregating the maps of a partition *)

Section aggregating.
Context {RS : RecordSize} {K V : Type} `{Countable K} (hash_impl : K → Z) (dV : V) (plus : V → V → V).
Implicit Types (t : PairArray K V) (a : AggregationProcessor (K:=K) (V:=V)) (m : AggregationMap (K:=K) (V:=V)).
Local Abbreviation wf := (wf hash_impl).

(** A map that can still be added to. *)
Definition open_map t : Prop :=
  wf t ∧ counted t ∧ (numSlots t ≤ Z.max 2 (4 * Z.of_nat (size (to_map t))))%Z.

(** The processor has an output map [t], and [n] keys counted besides those of
    the map. *)
Record aggregating_ok a t m : Prop := {
  ag_final : ap_finalized a = false;
  ag_output : ap_outputData a = Some t;
  ag_map : ap_curMap a = Some m;
  ag_wf : wf (aggMap m);
  ag_begin : iter_ok (aggMap m) (ap_begin a);
  ag_open : open_map t
}.

(** What one call of [fillNextOutputPage] does: it adds the pairs of the current
    map, those in [rest] apart, which is not empty only if an allocation failed;
    new keys are counted. *)
Definition ap_filled (sps : nat → tuple_space V) (i : nat) a t m (full : bool) a' (taken rest : list (K * V)) : Prop :=
  ahead (aggMap m) (ap_begin a) = taken ++ rest ∧ ap_finalized a' = false ∧ ap_id a' = ap_id a ∧
  (∃ t', ap_outputData a' = Some t' ∧ wf t' ∧ to_map t' = aggregate_onto plus (to_map t) taken ∧
    ap_numHashKeys a' = (ap_numHashKeys a + Z.of_nat (size (to_map t')) - Z.of_nat (size (to_map t)))%Z ∧
    (full = false → open_map t')) ∧
  if full then rest ≠ [] ∧ ¬ ample (sps (i + length taken)) else rest = [].

Lemma ap_count_ok t k : wf t → Map_count hash_impl k t = (Ret (if decide (is_Some (to_map t !! k)) then 1 else 0)%Z, t).
Proof. intros Hwf. unfold Map_count. run. by rewrite (count_lookup hash_impl). Qed.

Lemma size_add_pair_new (g : gmap K V) kv :
  size (add_pair plus g kv) = if decide (is_Some (g !! kv.1)) then size g else S (size g).
Proof.
  unfold AggregateSink.add_pair. case_decide as Hd.
  - by apply map_size_insert_Some.
  - apply map_size_insert_None. by apply eq_None_not_Some.
Qed.

Lemma ap_fill_ok sps fuel i a t m :
  (∀ j, steady (sps j)) → aggregating_ok a t m → length (ahead (aggMap m) (ap_begin a)) < fuel →
  (Z.of_nat (size (to_map t) + length (ahead (aggMap m) (ap_begin a))) ≤ max_entries)%Z →
  ∃ (full : bool) a' taken rest, ap_fill hash_impl dV plus sps fuel i a = (if full then NotEnoughSpace else Ret false, a') ∧
    ap_filled sps i a t m full a' taken rest.
Proof.
  intros Hst. revert i a t. induction fuel as [|fuel IH]; intros i a t Hok Hfuel Hsize; [lia|]. cbn [ap_fill].
  rewrite iter_ne_end, negb_involutive. destruct (it_done (ap_begin a)) eqn:Hd.
  { exists false, a, [], []. split; [done|]. split; [by rewrite (io_done _ _ (ag_begin _ _ _ Hok) Hd)|].
    split; [apply (ag_final _ _ _ Hok)|]. split; [done|]. split; [|done]. exists t. split; [apply (ag_output _ _ _ Hok)|].
    split; [apply (ag_open _ _ _ Hok)|]. split; [done|]. split; [lia|]. intros _. apply (ag_open _ _ _ Hok). }
  destruct (iter_step hash_impl _ _ (ag_wf _ _ _ Hok) (ag_begin _ _ _ Hok) Hd) as ([k v] & Hkv & Hah & Hnext).
  rewrite (ag_map _ _ _ Hok). simpl. rewrite Hkv. rewrite Hah in Hfuel, Hsize. simpl in Hfuel, Hsize.
  destruct (ag_open _ _ _ Hok) as (Hwf & Hcnt & Hns).
  assert (place_ok ap_output a t) as Hl by (destruct a; destruct Hok as [? Ho ? ? ? ?]; simpl in *; subst; by split).
  rewrite M_bind_unfold, (on_ok _ _ _ _ Hl), (ap_count_ok t k Hwf).
  assert (update ap_output t a = a) as -> by apply (pl_update_view _ _ _ Hl).
  destruct (add_tuple_ok hash_impl dV plus ap_output (mret tt) id ltac:(done) (sps i) a t k v Hl Hwf ltac:(slots_lia) (Hst i))
    as (t' & ok & Hadd & Hwf' & Ht'). rewrite M_bind_unfold, Hadd. destruct ok.
  - destruct Ht' as (Hm' & Hc' & Hg). run. set (c := if decide _ then _ else _).
    set (a1 := if (c =? 0)%Z then ap_count_key (update ap_output t' a) else update ap_output t' a).
    assert (ap_curMap a1 = Some m) as Hcur by (unfold a1; destruct (c =? 0)%Z; apply (ag_map _ _ _ Hok)).
    assert (ap_begin a1 = ap_begin a) as Hbeg by (unfold a1; by destruct (c =? 0)%Z).
    rewrite Hcur, Hbeg. set (a2 := ap_set_begin _ a1).
    assert (aggregating_ok a2 t' m) as Hok2.
    { split; try done.
      - unfold a2, a1. destruct (c =? 0)%Z; apply (ag_final _ _ _ Hok).
      - unfold a2, a1. by destruct (c =? 0)%Z.
      - apply (ag_wf _ _ _ Hok).
      - split; [done|]. split; [by apply Hc'|]. eapply (grows_bound hash_impl 2 t); try done. rewrite Hm'. apply size_add_pair. }
    change (ahead (aggMap m) (iter_next (aggMap m) (ap_begin a))) with (ahead (aggMap m) (ap_begin a2)) in *.
    destruct (IH (S i) a2 t' Hok2 ltac:(lia)) as (full & a' & taken & rest & -> & Hp & Hfin & Hid & (t'' & Ho & Hwf'' & Hm'' & Hn & Hop) & Hrest).
    { rewrite Hm'. pose proof (size_add_pair plus (to_map t) (k, v)). lia. }
    exists full, a', ((k, v) :: taken), rest. split; [done|]. split; [by rewrite Hah, Hp|]. split; [done|].
    split; [rewrite Hid; unfold a2, a1; by destruct (c =? 0)%Z|]. split.
    + exists t''. split; [done|]. split; [done|]. split; [by rewrite Hm'', Hm'|]. split; [|done].
      rewrite Hn, Hm', size_add_pair_new. unfold a2, a1, c. simpl. case_decide; simpl; lia.
    + simpl. by rewrite <- Nat.add_succ_comm.
  - destruct Ht' as [Hm' Hample]. exists true, (update ap_output t' a), [], ((k, v) :: ahead (aggMap m) (iter_next (aggMap m) (ap_begin a))).
    split; [done|]. split; [done|]. split; [apply (ag_final _ _ _ Hok)|]. split; [done|]. split; [|by rewrite Nat.add_0_r].
    exists t'. split; [done|]. split; [done|]. split; [done|]. split; [rewrite Hm'; simpl; lia|done].
Qed.
End aggregating.

Section run_aggregator.
Context {RS : RecordSize} {K V : Type} `{Countable K} (hash_impl : K → Z) (dV : V) (plus : V → V → V) `{!Assoc (=) plus} `{!Comm (=) plus}.
Context (sps : nat → nat → tuple_space V) (sps_ok : ∀ n i, steady (sps n i) ∧ ample (sps n i)).
Implicit Types (t : PairArray K V) (a : AggregationProcessor (K:=K) (V:=V)) (m : AggregationMap (K:=K) (V:=V)) (g : gmap K V).
Local Abbreviation wf := (wf hash_impl).

(** The maps of partition [id], their sum and their size. *)
Definition of_partition (id : Z) (objects : list (AggregationMap (K:=K) (V:=V))) : list (gmap K V) :=
  (λ m, to_map (aggMap m)) <$> filter (λ m, hashPartitionId m = id) objects.
Definition partition_total (id : Z) (objects : list (AggregationMap (K:=K) (V:=V))) : gmap K V :=
  combine_all plus (of_partition id objects).
Definition objects_size (objects : list (AggregationMap (K:=K) (V:=V))) : nat :=
  sum_list_with (λ m, size (to_map (aggMap m))) objects.

(** The thread of partition [id] holds [g], on its output page if it has made
    one. *)
Definition aggregator_holds (id : Z) g (s : AggregationProcessor * output_page (K:=K) (V:=V)) : Prop :=
  ap_finalized s.1 = false ∧ ap_id s.1 = id ∧ ap_numHashKeys s.1 = Z.of_nat (size g) ∧
  match s.2 with
  | NoPage => g = ∅
  | InUse => ∃ t, ap_outputData s.1 = Some t ∧ open_map hash_impl t ∧ to_map t = g
  | GivenUp _ => False
  end.

Lemma of_partition_cons id m objects :
  of_partition id (m :: objects) = if decide (hashPartitionId m = id) then to_map (aggMap m) :: of_partition id objects else of_partition id objects.
Proof. unfold of_partition. rewrite filter_cons. by case_decide. Qed.

Lemma of_partition_app id o1 o2 : of_partition id (o1 ++ o2) = of_partition id o1 ++ of_partition id o2.
Proof. unfold of_partition. by rewrite filter_app, fmap_app. Qed.

Lemma size_combine g1 g2 : size (combine plus g1 g2) ≤ size g1 + size g2.
Proof.
  rewrite <- (aggregate_entries plus g2 (map_to_list g2)) at 1 by done. rewrite <- aggregate_onto_combine by done.
  etrans; [apply size_aggregate_onto|]. by rewrite length_map_to_list.
Qed.

(** The first map of the partition makes the output page. *)
Lemma ap_make_page a : ∃ t, AggregationProcessor_loadOutputPage true a = (Ret tt, ap_set_outputData (Some t) a) ∧
  open_map hash_impl t ∧ to_map t = ∅.
Proof.
  destruct (Map_default_spec (V:=V) hash_impl) as (t & Ht & Hwf & Hc & Htight & Hm). exists t.
  unfold AggregationProcessor_loadOutputPage. run. rewrite Ht. run. split; [done|]. split; [|done].
  split; [done|]. split; [done|]. unfold tight in Htight. lia.
Qed.

(** One map of the partition is added. *)
Lemma aggregate_map_ok sp a t m :
  (∀ i, steady (sp i) ∧ ample (sp i)) →
  ap_finalized a = false → ap_curMap a = Some m → ap_begin a = iter_begin (aggMap m) → wf (aggMap m) →
  ap_outputData a = Some t → open_map hash_impl t → (Z.of_nat (size (to_map t) + size (to_map (aggMap m))) ≤ max_entries)%Z →
  ∃ a' t', AggregationProcessor_fillNextOutputPage hash_impl dV plus sp a = (Ret false, a') ∧
    ap_finalized a' = false ∧ ap_id a' = ap_id a ∧ ap_outputData a' = Some t' ∧ open_map hash_impl t' ∧
    to_map t' = combine plus (to_map t) (to_map (aggMap m)) ∧
    ap_numHashKeys a' = (ap_numHashKeys a + Z.of_nat (size (to_map t')) - Z.of_nat (size (to_map t)))%Z.
Proof.
  intros Hsp Hfin Hcur Hbeg Hwf Hout Hopen Hsize. destruct (iter_begin_ok hash_impl (aggMap m) Hwf) as [Hib Hia].
  pose proof (entries_map hash_impl (aggMap m) Hwf) as Hperm.
  assert (length (entries (aggMap m)) = size (to_map (aggMap m))) as Hlen by (by rewrite Hperm, length_map_to_list).
  assert (aggregating_ok hash_impl a t m) as Hok by (split; [done|done|done|done|by rewrite Hbeg|done]).
  pose proof (entries_length hash_impl _ Hwf) as Hel.
  destruct (ap_fill_ok hash_impl dV plus sp (S (Z.to_nat (numSlots (aggMap m)))) 0 a t m (λ j, proj1 (Hsp j)) Hok)
    as (full & a' & taken & rest & Hrun & Hp & Hfin' & Hid & (t' & Ho & Hwf' & Hm' & Hn & Hop) & Hrest).
  { rewrite Hbeg, Hia. lia. }
  { by rewrite Hbeg, Hia, Hlen. }
  destruct full; [by destruct Hrest as [_ []]; apply Hsp|]. subst rest. rewrite app_nil_r, Hbeg, Hia in Hp.
  exists a', t'. unfold AggregationProcessor_fillNextOutputPage. rewrite Hfin, Hcur. unfold catch. rewrite Hrun.
  split_and!; try done; [by apply Hop|]. rewrite Hm', <- Hp, aggregate_onto_combine by done. f_equal. by apply aggregate_entries.
Qed.

Lemma aggregate_objects_ok id n objects s g :
  aggregator_holds id g s → (∀ m, m ∈ objects → wf (aggMap m)) →
  (Z.of_nat (size g + objects_size objects) ≤ max_entries)%Z →
  ∃ s', aggregate_objects hash_impl dV plus sps n objects s = (Ret tt, s') ∧
    aggregator_holds id (combine plus g (partition_total id objects)) s' ∧
    (s'.2 = NoPage → s.2 = NoPage ∧ of_partition id objects = []) .
Proof.
  revert n s g. induction objects as [|m objects IH]; intros n [a page] g Hs Hwf Hsize; cbn [aggregate_objects].
  { exists (a, page). split; [done|]. unfold partition_total. simpl. rewrite combine_empty_r. by split. }
  destruct Hs as (Hfin & Hid & Hkeys & Hpage). simpl in *. unfold objects_size in Hsize. simpl in Hsize.
  unfold AggregationProcessor_needsProcessInput, partition_total, AggregationProcessor_loadInputObject.
  rewrite of_partition_cons, Hid. destruct (Z.eqb_spec (hashPartitionId m) id) as [Heq|Hne]; simpl.
  2:{ rewrite decide_False by done. apply IH; [by split_and!|intros; apply Hwf; by right|unfold objects_size; lia]. }
  rewrite decide_True by done. simpl. set (a0 := MkAggregator _ _ _ _ _ _).
  assert (∃ a1 t, match page with NoPage => AggregationProcessor_loadOutputPage true a0 | _ => (Ret tt, a0) end = (Ret tt, a1) ∧
    ap_outputData a1 = Some t ∧ open_map hash_impl t ∧ to_map t = g ∧ ap_finalized a1 = false ∧ ap_id a1 = id ∧
    ap_curMap a1 = Some m ∧ ap_begin a1 = iter_begin (aggMap m) ∧ ap_numHashKeys a1 = Z.of_nat (size g)) as
    (a1 & t & -> & Hout & Hopen & Hg & Hfin1 & Hid1 & Hcur1 & Hbeg1 & Hkeys1).
  { destruct page; [| |done].
    - destruct (ap_make_page a0) as (t & -> & Ho & Hm). eexists _, t. subst g. split_and!; done.
    - destruct Hpage as (t & Ht & Ho & Hg). exists a0, t. by split_and!. }
  assert (take_page page = InUse) as -> by by destruct page.
  destruct (aggregate_map_ok (sps n) a1 t m (sps_ok n) Hfin1 Hcur1 Hbeg1 (Hwf m ltac:(by left)) Hout Hopen)
    as (a2 & t2 & -> & Hfin2 & Hid2 & Hout2 & Hopen2 & Hm2 & Hkeys2).
  { rewrite Hg. lia. }
  destruct (IH (S n) (a2, InUse) (combine plus g (to_map (aggMap m)))) as (s' & -> & Hs' & Hpage').
  { rewrite Hg in *. split_and!; simpl; [done|congruence|rewrite Hkeys2, Hkeys1, Hm2; lia|]. by exists t2. }
  { intros; apply Hwf; by right. }
  { pose proof (size_combine g (to_map (aggMap m))). unfold objects_size. lia. }
  exists s'. split; [done|]. split; [by rewrite combine_assoc by done|]. intros Hf. by destruct (Hpage' Hf).
Qed.

Lemma aggregate_pages_ok id n pages s g :
  aggregator_holds id g s → (∀ page m, page ∈ pages → m ∈ page → wf (aggMap m)) →
  (Z.of_nat (size g + objects_size (concat pages)) ≤ max_entries)%Z →
  ∃ s', aggregate_pages hash_impl dV plus sps n pages s = (Ret tt, s') ∧
    aggregator_holds id (combine plus g (partition_total id (concat pages))) s' ∧
    (s'.2 = NoPage → s.2 = NoPage ∧ of_partition id (concat pages) = []).
Proof.
  revert n s g. induction pages as [|page pages IH]; intros n s g Hs Hwf Hsize; cbn [aggregate_pages].
  { exists s. split; [done|]. unfold partition_total. simpl. rewrite combine_empty_r. by split. }
  simpl in Hsize. unfold objects_size in Hsize. rewrite sum_list_with_app in Hsize.
  destruct (aggregate_objects_ok id n page s g Hs (λ m, Hwf page m ltac:(by left))) as (s1 & Hrun & Hs1 & Hf1).
  { unfold objects_size. lia. }
  rewrite M_bind_unfold, Hrun.
  destruct (IH (n + length page) s1 (combine plus g (partition_total id page)) Hs1) as (s' & -> & Hs' & Hf').
  { intros p m Hp. apply Hwf. by right. }
  { assert (size (partition_total id page) ≤ objects_size page) as Hle.
    { unfold partition_total. clear - Assoc0 Comm0. induction page as [|m page IH]; [change (size (∅ : gmap K V) ≤ 0); by rewrite map_size_empty|]. rewrite of_partition_cons.
      unfold objects_size in *. simpl. case_decide; simpl; [|lia].
      pose proof (size_combine (to_map (aggMap m)) (combine_all plus (of_partition id page))). lia. }
    pose proof (size_combine g (partition_total id page)). unfold objects_size in *. lia. }
  exists s'. split; [done|]. unfold partition_total in *. simpl. rewrite of_partition_app, combine_all_app by done.
  split; [by rewrite combine_assoc|]. intros Hf. destruct (Hf' Hf) as [H1 H2]. destruct (Hf1 H1) as [H3 H4].
  split; [done|]. by rewrite H4, H2.
Qed.

Lemma run_aggregator_ok id pages :
  (∀ page m, page ∈ pages → m ∈ page → wf (aggMap m)) →
  (Z.of_nat (objects_size (concat pages)) ≤ max_entries)%Z →
  ∃ o, run_aggregator hash_impl dV plus sps id pages = Ret o ∧
    match o with
    | Some t => wf t ∧ to_map t = partition_total id (concat pages)
    | None => of_partition id (concat pages) = []
    end.
Proof.
  intros Hwf Hsize. destruct (aggregate_pages_ok id 0 pages (AggregationProcessor_new id, NoPage) ∅) as ([a page] & Hrun & Hs & Hf).
  { by split_and!. } { done. } { by rewrite map_size_empty. }
  unfold run_aggregator. rewrite Hrun. rewrite combine_empty_l in Hs. destruct page.
  - exists None. split; [done|]. by apply Hf.
  - destruct Hs as (_ & _ & _ & t & Ht & (Hwft & _) & Hm). simpl in Ht. exists (Some t).
    unfold AggregationProcessor_fillNextOutputPage. simpl. by rewrite Ht.
  - by destruct Hs as (_ & _ & _ & []).
Qed.
End run_aggregator.

(** ** Objects from the entries of a map *)

Section output.
Context {RS : RecordSize} {K V : Type} `{Countable K} (hash_impl : K → Z).
Implicit Types (a : AggOutProcessor (K:=K) (V:=V)).

Lemma oo_fill_ok fits fuel i a :
  wf hash_impl (oo_inputData a) → iter_ok (oo_inputData a) (oo_begin a) →
  length (ahead (oo_inputData a) (oo_begin a)) < fuel →
  ∃ (full : bool) a' taken, oo_fill fits fuel i a = (if full then NotEnoughSpace else Ret false, a') ∧
    oo_inputData a' = oo_inputData a ∧ oo_finalized a' = oo_finalized a ∧ iter_ok (oo_inputData a) (oo_begin a') ∧
    ahead (oo_inputData a) (oo_begin a) = taken ++ ahead (oo_inputData a) (oo_begin a') ∧
    oo_outputData a' = oo_outputData a ++ taken ∧
    if full then fits (i + length taken) = false else ahead (oo_inputData a) (oo_begin a') = [].
Proof.
  intros Hwf. revert i a Hwf. induction fuel as [|fuel IH]; intros i a Hwf Hok Hfuel; [lia|]. cbn [oo_fill].
  rewrite iter_ne_end, negb_involutive. destruct (it_done (oo_begin a)) eqn:Hd.
  { exists false, a, []. rewrite app_nil_r. split_and!; try done. by apply (io_done _ _ Hok). }
  destruct (iter_step hash_impl _ _ Hwf Hok Hd) as (kv & -> & Hah & Hnext). destruct (fits i) eqn:Hfit.
  - rewrite Hah in Hfuel. simpl in Hfuel.
    destruct (IH (S i) (oo_emit kv a)) as (full & a' & taken & -> & H1 & H2 & H3 & H4 & H5 & H6); [done|done|simpl; lia|].
    simpl in *. exists full, a', (kv :: taken). split_and!; try done.
    + by rewrite Hah, H4.
    + by rewrite H5, <- app_assoc.
    + simpl. by rewrite <- Nat.add_succ_comm.
  - exists true, a, []. rewrite app_nil_r, Nat.add_0_r. by split_and!.
Qed.

Lemma agg_out_ok fits fuel n a :
  (∀ n, fits n 0 = true) → wf hash_impl (oo_inputData a) → iter_ok (oo_inputData a) (oo_begin a) →
  oo_finalized a = false → length (ahead (oo_inputData a) (oo_begin a)) < fuel →
  ∃ pages, agg_out fits fuel n a = Ret pages ∧ concat pages = oo_outputData a ++ ahead (oo_inputData a) (oo_begin a).
Proof.
  intros Hfits. revert n a. induction fuel as [|fuel IH]; intros n a Hwf Hok Hfin Hfuel; [lia|]. cbn [agg_out].
  pose proof (entries_length hash_impl _ Hwf) as Hel.
  assert (length (ahead (oo_inputData a) (oo_begin a)) ≤ length (entries (oo_inputData a))) as Hle.
  { unfold ahead, entries. rewrite <- (take_drop (it_slot (oo_begin a)) (data (oo_inputData a))) at 2. rewrite omap_app, length_app. lia. }
  destruct (oo_fill_ok (fits n) (S (Z.to_nat (numSlots (oo_inputData a)))) 0 a Hwf Hok)
    as (full & a' & taken & Hrun & H1 & H2 & H3 & H4 & H5 & H6); [lia|].
  unfold AggOutProcessor_fillNextOutputPage, catch. rewrite Hfin, Hrun. destruct full; simpl.
  - assert (taken ≠ []) as Ht by (intros ->; simpl in H6; by rewrite Hfits in H6).
    rewrite H4, length_app in Hfuel. destruct taken as [|kv taken]; [done|]. simpl in Hfuel.
    destruct (IH (S n) (AggOutProcessor_loadOutputPage a')) as (pages & -> & Hpages); simpl; rewrite ?H1; try done; [congruence|lia|].
    simpl. eexists. split; [done|]. simpl in *. rewrite Hpages, H5, H4, H1. by rewrite <- app_assoc.
  - eexists. split; [done|]. simpl. rewrite app_nil_r, H5. f_equal. by rewrite H4, H6, app_nil_r.
Qed.
End output.
