(* ===== verification/Pipeline.v ===== *)
(** * Pipeline: pushing tuple sets through stages into pages

    Models [lambdas/headers/Pipeline.h].  A pipeline takes tuple sets from a
    source, runs them through its stages, and writes them into a container on an
    output page.  Any of these steps may run out of space on the page; the page
    is then put aside and the step is tried again on a fresh one.  Pages put
    aside are written back a few iterations later, because tuple sets may still
    point into them, and the rest when the pipeline is destroyed.

    The source, the stages, the sink and the page functions are arguments:
    [ComputeSource], [ComputeExecutor], [ComputeSink] and the three callbacks of
    the constructor.  [PipelineLaws] states what the pipeline relies on. *)

From S2P Require Import Prelude.

(** [DELAY_VALUE] *)
Definition DELAY_VALUE : Z := 4.

(** The iteration number that cleans all pages. *)
Definition ALL_ITERATIONS : Z := 999999999.

(** [MemoryHolder]: a page, the container on it, and the iteration in which it
    was put aside. *)
Record MemoryHolder {O : Type} := Holder {
  outputSink : option O;
  location : Z;
  size_of_page : Z;
  iteration : Z
}.
Arguments MemoryHolder : clear implicits.
Arguments Holder {O}.

(** What the pipeline calls: [E] is the state of all of it. *)
Record pipeline_ops {E T O : Type} := Ops {
  getNextTupleSet : M E (option T);
  stages : list (T → M E T);
  createNewOutputContainer : M E O;
  writeOut : T → O → E → outcome unit * (T * O) * E;
  getNewPage : M E (Z * Z)
}.
Arguments pipeline_ops : clear implicits.
Arguments Ops {E T O}.

(** The calls that take and give back pages, oldest first. *)
Inductive page_event {O : Type} :=
| Requested (loc : Z)
| WrittenBack (loc : Z) (o : O)
| Discarded (loc : Z).
Arguments page_event : clear implicits.

Record pipeline {E O : Type} := MkPipeline {
  env : E;
  unwrittenPages : list (MemoryHolder O);
  events : list (page_event O)
}.
Arguments pipeline : clear implicits.
Arguments MkPipeline {E O}.

Section pipeline.
Context {E T O : Type} (ops : pipeline_ops E T O).
Local Abbreviation M := (M (pipeline E O)).
Implicit Types (h : MemoryHolder O) (t : T) (o : O).

Definition in_env {A} (m : Prelude.M E A) : M A := λ p,
  let '(r, e) := m (env p) in (r, MkPipeline e (unwrittenPages p) (events p)).
Definition set_unwritten (q : list (MemoryHolder O)) : M unit :=
  modify (λ p, MkPipeline (env p) q (events p)).
Definition log (e : page_event O) : M unit :=
  modify (λ p, MkPipeline (env p) (unwrittenPages p) (events p ++ [e])).

(** [try { m } catch (NotEnoughSpace&)]: nothing if it was thrown. *)
Definition attempt {A} (m : M A) : M (option A) := catch (a ← m; mret (Some a)) (mret None).

(** [MemoryHolder(getNewPage())]; it makes an allocation block at the location,
    also if that is null. *)
Definition MemoryHolder_new : M (MemoryHolder O) :=
  '(loc, size) ← in_env (getNewPage ops);
  if (loc =? 0)%Z then lift Undefined else log (Requested loc) ;; mret (Holder None loc size 0).

Definition setIteration (it : Z) h : MemoryHolder O := Holder (outputSink h) (location h) (size_of_page h) it.
Definition setSink o h : MemoryHolder O := Holder (Some o) (location h) (size_of_page h) (iteration h).

(** [cleanPages]: pages from the front of the queue, as long as they are old
    enough.  A page without a container is given one and discarded. *)
Fixpoint clean_queue (it : Z) (q : list (MemoryHolder O)) : M unit :=
  match q with
  | [] => set_unwritten []
  | h :: q' =>
      if (iteration h + DELAY_VALUE <? it)%Z then
        match outputSink h with
        | None =>
            in_env (createNewOutputContainer ops) ;;
            log (Discarded (location h)) ;; set_unwritten q' ;; clean_queue it q'
        | Some o => log (WrittenBack (location h) o) ;; set_unwritten q' ;; clean_queue it q'
        end
      else set_unwritten q
  end.

Definition cleanPages (it : Z) : M unit := p ← get; clean_queue it (unwrittenPages p).

(** [myRAM->setIteration(iteration); unwrittenPages.push(myRAM);] *)
Definition put_aside (it : Z) h : M unit :=
  p ← get; set_unwritten (unwrittenPages p ++ [setIteration it h]).

(** The handlers of [run] put the page aside, clean, and take a fresh page. *)
Definition next_page (it : Z) h : M (MemoryHolder O) :=
  put_aside it h ;; cleanPages (it + 1) ;; MemoryHolder_new.

Definition add_container h : M (MemoryHolder O) :=
  o ← in_env (createNewOutputContainer ops); mret (setSink o h).

(** The local variables of [run]. *)
Record locals := Locals { myRAM : MemoryHolder O; curIteration : Z }.

(** A step that is tried again, once, on a fresh page with a container. *)
Definition retry {A} (m : M A) (l : locals) : M (A * locals) :=
  r ← attempt m;
  match r with
  | Some a => mret (a, l)
  | None =>
      h ← next_page (curIteration l) (myRAM l);
      h ← add_container h;
      r ← attempt m;
      match r with
      | Some a => mret (a, Locals h (curIteration l + 1))
      | None => lift (Exit 1)
      end
  end.

(** The stages, one after the other. *)
Fixpoint run_stages (qs : list (T → Prelude.M E T)) t (l : locals) : M (T * locals) :=
  match qs with
  | [] => mret (t, l)
  | q :: qs' => '(t', l') ← retry (in_env (q t)) l; run_stages qs' t' l'
  end.

(** [writeOut] changes the tuple set and the container also when it throws. *)
Definition write_container t o : M (outcome unit * T * O) := λ p,
  let '(r, (t', o'), e) := writeOut ops t o (env p) in
  let p' := MkPipeline e (unwrittenPages p) (events p) in
  match r with
  | Ret _ | NotEnoughSpace => (Ret (r, t', o'), p')
  | Exit c => (Exit c, p')
  | Undefined => (Undefined, p')
  end.

(** [while (!end)]: writing a tuple set, on as many pages as it takes.  The page
    may have no container yet. *)
Fixpoint write_chunk (fuel : nat) t (l : locals) : M locals :=
  match fuel with
  | 0 => lift Undefined
  | S fuel' =>
      created ← attempt (match outputSink (myRAM l) with Some o => mret o | None => in_env (createNewOutputContainer ops) end);
      match created with
      | None =>
          h ← next_page (curIteration l) (myRAM l);
          write_chunk fuel' t (Locals h (curIteration l + 1))
      | Some o =>
          '(r, t', o') ← write_container t o;
          let h := setSink o' (myRAM l) in
          match r with
          | NotEnoughSpace =>
              h ← next_page (curIteration l) h;
              write_chunk fuel' t' (Locals h (curIteration l + 1))
          | _ => mret (Locals h (curIteration l))
          end
      end
  end.

(** The loop of [run]: [chunks] bounds the tuple sets, [pages] the pages one
    tuple set is spread over. *)
Fixpoint run_loop (pages chunks : nat) (l : locals) : M locals :=
  match chunks with
  | 0 => lift Undefined
  | S chunks' =>
      '(t, l) ← retry (in_env (getNextTupleSet ops)) l;
      match t with
      | None => mret l
      | Some t =>
          '(t, l) ← run_stages (stages ops) t l;
          l ← write_chunk pages t l;
          run_loop pages chunks' l
      end
  end.

Definition run (pages chunks : nat) : M unit :=
  h ← MemoryHolder_new;
  h ← add_container h;
  l ← run_loop pages chunks (Locals h 0);
  put_aside (curIteration l) (myRAM l).

(** [~Pipeline]: the queue is reversed and all of it is written back. *)
Definition destroy : M unit :=
  p ← get; set_unwritten (reverse (unwrittenPages p)) ;; cleanPages ALL_ITERATIONS.
End pipeline.

(** ** What the pipeline relies on *)

(** The meaning of tuple sets, containers, stages and sources as lists of rows.
    [running e cur ls]: in the state [e] the source still has the tuple sets
    [ls], and [cur] is the tuple set under way, with the number of stages it has
    been through and its rows.
    [page_open o l]: the container [o] has the rows [l] and can be written to;
    [page_holds o l]: it has the rows [l], as it may be left by an exception.
    At most [bound] rows are written to one container. *)
Class PipelineLaws {E T O R : Type} (ops : pipeline_ops E T O)
    (running : E → option (nat * T * list R) → list (list R) → Prop) (page_open page_holds : O → list R → Prop)
    (fs : list (list R → list R)) (bound : nat) : Prop := {
  law_source e ls : running e None ls →
    match getNextTupleSet ops e with
    | (Ret (Some t), e') => ∃ l ls', ls = l :: ls' ∧ running e' (Some (0, t, l)) ls'
    | (Ret None, e') => ls = [] ∧ running e' None []
    | (NotEnoughSpace, e') => running e' None ls
    | _ => False
    end;
  law_length : length (stages ops) = length fs;
  law_stage i q f t l ls e : stages ops !! i = Some q → fs !! i = Some f → running e (Some (i, t, l)) ls →
    match q t e with
    | (Ret t', e') => running e' (Some (S i, t', f l)) ls
    | (NotEnoughSpace, e') => running e' (Some (i, t, l)) ls
    | _ => False
    end;
  law_create e cur ls : running e cur ls →
    match createNewOutputContainer ops e with
    | (Ret o, e') => page_open o [] ∧ running e' cur ls
    | (NotEnoughSpace, e') => running e' cur ls
    | _ => False
    end;
  law_write t o e l0 l ls : page_open o l0 → running e (Some (length fs, t, l)) ls → length l0 + length l ≤ bound →
    match writeOut ops t o e with
    | (Ret _, (_, o'), e') => page_open o' (l0 ++ l) ∧ running e' None ls
    | (NotEnoughSpace, (t', o'), e') => ∃ p, p ≤ length l ∧ running e' (Some (length fs, t', drop p l)) ls ∧ page_holds o' (l0 ++ take p l)
    | _ => False
    end;
  law_open o l : page_open o l → page_holds o l;
  law_page e cur ls : running e cur ls →
    match getNewPage ops e with
    | (Ret (loc, _), e') => loc ≠ 0%Z ∧ running e' cur ls
    | _ => False
    end
}.

(** What it takes to finish: a fresh page has room for a container and for the
    first row of any tuple set. *)
Class PipelineProgress {E T O R : Type} (ops : pipeline_ops E T O)
    (running : E → option (nat * T * list R) → list (list R) → Prop) (page_open page_holds : O → list R → Prop)
    (fs : list (list R → list R)) (bound : nat) : Prop := {
  progress_create e : ∃ o, (createNewOutputContainer ops e).1 = Ret o;
  progress_write t o e l ls t' o' e' : page_open o [] → running e (Some (length fs, t, l)) ls → length l ≤ bound →
    writeOut ops t o e = (NotEnoughSpace, (t', o'), e') →
    ∃ p, 0 < p ≤ length l ∧ running e' (Some (length fs, t', drop p l)) ls ∧ page_holds o' (take p l)
}.

(** ** Reasoning about calls

    [wp U X N m Q p]: running [m] from [p] ends in a state with [Q], or throws
    [NotEnoughSpace] in a state with [N]; it exits only if [X], and what is
    undefined, or out of fuel, is allowed only if [U]. *)
Definition wp {S A} (U X : Prop) (N : S → Prop) (m : Prelude.M S A) (Q : A → S → Prop) (s : S) : Prop :=
  match m s with
  | (Ret a, s') => Q a s'
  | (NotEnoughSpace, s') => N s'
  | (Exit _, _) => X
  | (Undefined, _) => U
  end.

Section wp.
Context {S : Type} (U X : Prop) (N : S → Prop).

Lemma wp_ret {A} (a : A) Q (s : S) : Q a s → wp U X N (mret a) Q s.
Proof. done. Qed.

Lemma wp_bind {A B} (m : M S A) (f : A → M S B) Q s :
  wp U X N m (λ a, wp U X N (f a) Q) s → wp U X N (m ≫= f) Q s.
Proof. unfold wp. rewrite M_bind_unfold. by destruct (m s) as [[a| | |] s']. Qed.

Lemma wp_get {B} (f : S → M S B) Q s : wp U X N (f s) Q s → wp U X N (get ≫= f) Q s.
Proof. done. Qed.

Lemma wp_mono {A} (m : M S A) (Q Q' : A → S → Prop) s :
  wp U X N m Q s → (∀ a s', Q a s' → Q' a s') → wp U X N m Q' s.
Proof. unfold wp. destruct (m s) as [[a| | |] s']; auto. Qed.

Lemma wp_throw {A} (N' : S → Prop) (m : M S A) (Q : A → S → Prop) s :
  wp U X N' m Q s → (∀ s', N' s' → N s') → wp U X N m Q s.
Proof. unfold wp. destruct (m s) as [[a| | |] s']; auto. Qed.
End wp.

Section facts.
Context {E T O R : Type} (ops : pipeline_ops E T O)
  (running : E → option (nat * T * list R) → list (list R) → Prop) (page_open page_holds : O → list R → Prop)
  (fs : list (list R → list R)) (bound : nat)
  `{!PipelineLaws ops running page_open page_holds fs bound}.
Implicit Types (h : MemoryHolder O) (t : T) (o : O) (p : pipeline E O) (l : list R)
  (cur : option (nat * T * list R)) (ls : list (list R)).
Local Abbreviation Progress := (PipelineProgress ops running page_open page_holds fs bound).

(** How a page that is put aside will leave the pipeline. *)
Definition release h : page_event O :=
  match outputSink h with Some o => WrittenBack (location h) o | None => Discarded (location h) end.

Definition is_request (ev : page_event O) : bool := match ev with Requested _ => true | _ => false end.
Definition event_page (ev : page_event O) : Z :=
  match ev with Requested loc => loc | WrittenBack loc _ => loc | Discarded loc => loc end.

(** The pages taken, those given back, and those given back or waiting for it. *)
Definition requested p : list Z := event_page <$> filter (λ ev, is_request ev = true) (events p).
Definition released p : list (page_event O) := filter (λ ev, is_request ev = false) (events p).
Definition accounted p : list (page_event O) := released p ++ (release <$> unwrittenPages p).

(** The rows on a page that was given back. *)
Definition event_holds (ev : page_event O) l : Prop :=
  match ev with WrittenBack _ o => page_holds o l | Discarded _ => l = [] | Requested _ => False end.

Definition holder_holds h l : Prop :=
  match outputSink h with Some o => page_holds o l | None => l = [] end.
Definition holder_open h l : Prop :=
  match outputSink h with Some o => page_open o l | None => l = [] end.

(** Waiting pages are in the order of their iterations, the newest just before
    the current one. *)
Definition queue_ok (it : Z) (q : list (MemoryHolder O)) : Prop :=
  iteration <$> q = seqZ (it - Z.of_nat (length q)) (Z.of_nat (length q)).

(** The pipeline between two steps: [rows] have been put on pages that are
    accounted for, and every page taken is accounted for or the current one. *)
Record pipeline_ok p (current : list Z) (it : Z) (rows : list R) : Prop := {
  po_rows : ∃ cs, Forall2 event_holds (accounted p) cs ∧ concat cs = rows;
  po_pages : requested p = (event_page <$> accounted p) ++ current;
  po_queue : queue_ok it (unwrittenPages p);
  po_count : Z.of_nat (length (accounted p)) = it;
  po_few : (Z.of_nat (length (unwrittenPages p)) ≤ DELAY_VALUE)%Z
}.

Lemma release_page h : event_page (release h) = location h.
Proof. unfold release. by destruct (outputSink h). Qed.

Lemma release_holds h l : holder_holds h l → event_holds (release h) l.
Proof. unfold holder_holds, release. by destruct (outputSink h). Qed.

Lemma release_not_request h : is_request (release h) = false.
Proof. unfold release. by destruct (outputSink h). Qed.

Lemma accounted_same p p' : events p' = events p → unwrittenPages p' = unwrittenPages p → accounted p' = accounted p ∧ requested p' = requested p.
Proof. intros H1 H2. unfold accounted, released, requested. by rewrite H1, H2. Qed.

(** [cleanPages] gives back some pages from the front of the queue: those that
    are old enough, up to the first that is not. *)
Lemma clean_queue_ok U X (N : pipeline E O → Prop) it q p cur ls :
  unwrittenPages p = q → running (env p) cur ls → (Progress ∨ ∀ p', N p') →
  wp U X N (clean_queue ops it q) (λ _ p', accounted p' = accounted p ∧ requested p' = requested p ∧ running (env p') cur ls ∧
    ∃ q1 q2, q = q1 ++ q2 ∧ unwrittenPages p' = q2 ∧
      Forall (λ h, iteration h + DELAY_VALUE < it)%Z q1 ∧
      match q2 with [] => True | h :: _ => (it ≤ iteration h + DELAY_VALUE)%Z end) p.
Proof.
  intros Hq Hrun Hpr. revert p Hq Hrun. induction q as [|h q IH]; intros p Hq Hrun; simpl.
  { unfold wp, set_unwritten, modify, accounted, requested, released. simpl. rewrite Hq.
    split_and!; try done. by exists [], []. }
  destruct (Z.ltb_spec (iteration h + DELAY_VALUE) it) as [Hold|Hnew].
  2:{ unfold wp, set_unwritten, modify, accounted, requested, released. simpl. rewrite Hq. split_and!; try done.
      exists [], (h :: q). by split_and!. }
  assert (∀ p2, events p2 = events p → running (env p2) cur ls →
    wp U X N (log (release h) ;; set_unwritten q ;; clean_queue ops it q)
    (λ _ p', accounted p' = accounted p ∧ requested p' = requested p ∧ running (env p') cur ls ∧
      ∃ q1 q2, h :: q = q1 ++ q2 ∧ unwrittenPages p' = q2 ∧
      Forall (λ h, iteration h + DELAY_VALUE < it)%Z q1 ∧
      match q2 with [] => True | h :: _ => (it ≤ iteration h + DELAY_VALUE)%Z end) p2) as Hgo.
  { intros p2 Hev Hr2. do 2 apply wp_bind. unfold wp at 1 2, log, set_unwritten, modify. simpl.
    eapply wp_mono; [apply IH; done|]. intros [] p' (Ha & Hr & Hs & q1 & q2 & -> & Hun & Hq1 & Hq2). split_and!.
    - rewrite Ha. unfold accounted, released. simpl. rewrite Hev, Hq, filter_app, filter_cons, filter_nil, release_not_request. simpl.
      by rewrite <- app_assoc.
    - rewrite Hr. unfold requested. simpl. rewrite Hev, filter_app, filter_cons, filter_nil, release_not_request. simpl. by rewrite app_nil_r.
    - done.
    - exists (h :: q1), q2. split_and!; try done. by constructor. }
  unfold release in Hgo. destruct (outputSink h) as [o|] eqn:Ho; [by apply Hgo|].
  apply wp_bind. unfold wp at 1, in_env. pose proof (law_create (env p) cur ls Hrun) as Hc.
  destruct (createNewOutputContainer ops (env p)) as [[o| | |] e] eqn:He; try done.
  - by apply Hgo, Hc.
  - destruct Hpr as [Hpr|HN]; [|apply HN]. destruct (progress_create (env p)) as [o Ho']. by rewrite He in Ho'.
Qed.

(** What a run exits for: the source or a stage that throws on a fresh page to
    which only a container has been added. *)
Definition no_room_when_fresh : Prop :=
  ∃ e0 loc size e1 o e, getNewPage ops e0 = (Ret (loc, size), e1) ∧ createNewOutputContainer ops e1 = (Ret o, e) ∧
    ((∃ ls e', running e None ls ∧ getNextTupleSet ops e = (NotEnoughSpace, e')) ∨
     (∃ i q t l ls e', stages ops !! i = Some q ∧ running e (Some (i, t, l)) ls ∧ q t e = (NotEnoughSpace, e'))).

Context (U X : Prop) (N : pipeline E O → Prop).
Local Abbreviation wp := (wp U X N).

(** Either progress is granted, or the run may be cut off. *)
Hypothesis progress_or : Progress ∨ U ∧ ∀ p, N p.
Hypothesis exit_ok : no_room_when_fresh → X.

Lemma seqZ_one z : seqZ z 1 = [z].
Proof. reflexivity. Qed.

Lemma queue_ok_snoc it (q : list (MemoryHolder O)) h : queue_ok it q → queue_ok (it + 1) (q ++ [setIteration it h]).
Proof.
  unfold queue_ok. intros Hq. rewrite fmap_app, length_app. simpl. rewrite Hq.
  replace (Z.of_nat (length q + 1)) with (Z.of_nat (length q) + 1)%Z by lia.
  rewrite seqZ_app by lia. f_equal; [f_equal; lia|]. rewrite seqZ_one. f_equal. lia.
Qed.

(** The back of a queue is in order too. *)
Lemma queue_ok_suffix it (q1 q2 : list (MemoryHolder O)) : queue_ok it (q1 ++ q2) → queue_ok it q2.
Proof.
  unfold queue_ok. rewrite fmap_app, length_app. intros Hq.
  replace (Z.of_nat (length q1 + length q2)) with (Z.of_nat (length q1) + Z.of_nat (length q2))%Z in Hq by lia.
  rewrite seqZ_app in Hq by lia. apply app_inj_1 in Hq as [_ Hq]; [|rewrite length_fmap, length_seqZ; lia].
  rewrite Hq. f_equal. lia.
Qed.

Lemma queue_ok_cons it h (q : list (MemoryHolder O)) :
  queue_ok it (h :: q) → iteration h = (it - Z.of_nat (length (h :: q)))%Z ∧ queue_ok it q.
Proof.
  intros Hq. split; [|by apply (queue_ok_suffix it [h])]. unfold queue_ok in Hq.
  rewrite seqZ_cons in Hq by (simpl; lia). by injection Hq.
Qed.

Lemma open_holds h l : holder_open h l → holder_holds h l.
Proof. unfold holder_open, holder_holds. destruct (outputSink h); [apply law_open|done]. Qed.

Lemma MemoryHolder_new_ok it p rows cur ls :
  pipeline_ok p [] it rows → running (env p) cur ls →
  wp (MemoryHolder_new ops) (λ h p', outputSink h = None ∧ pipeline_ok p' [location h] it rows ∧ running (env p') cur ls ∧
    ∃ e0 loc size, getNewPage ops e0 = (Ret (loc, size), env p')) p.
Proof.
  intros [Hrows Hpages Hq Hn Hf] Hrun. unfold MemoryHolder_new. apply wp_bind. unfold Pipeline.wp, in_env.
  pose proof (law_page (env p) cur ls Hrun) as Hl. destruct (getNewPage ops (env p)) as [[[loc size]| | |] e] eqn:Hnew; try done.
  destruct Hl as [Hloc Hrun'].
  rewrite (proj2 (Z.eqb_neq loc 0)) by done. unfold log. run. simpl. split; [done|]. split; [|split; [done|by exists (env p), loc, size]].
  assert (accounted (MkPipeline e (unwrittenPages p) (events p ++ [Requested loc])) = accounted p) as Ha.
  { unfold accounted, released. simpl. rewrite filter_app, filter_cons, filter_nil. simpl. by rewrite app_nil_r. }
  split; rewrite ?Ha; try done. unfold requested in *. simpl. rewrite filter_app, filter_cons, filter_nil. simpl.
  rewrite fmap_app. simpl. rewrite Hpages. by rewrite app_nil_r.
Qed.

(** Putting a page aside, cleaning, and taking a fresh page. *)
Lemma next_page_ok it h p rows lr cur ls :
  pipeline_ok p [location h] it rows → holder_holds h lr → running (env p) cur ls →
  wp (next_page ops it h) (λ h' p', outputSink h' = None ∧ pipeline_ok p' [location h'] (it + 1) (rows ++ lr) ∧ running (env p') cur ls ∧
    ∃ e0 loc size, getNewPage ops e0 = (Ret (loc, size), env p')) p.
Proof.
  intros [(cs & Hcs & Hrows) Hpages Hq Hn Hf] Hh Hrun. unfold next_page. apply wp_bind.
  unfold put_aside. apply wp_get. unfold Pipeline.wp at 1, set_unwritten, modify. simpl.
  set (p1 := MkPipeline (env p) (unwrittenPages p ++ [setIteration it h]) (events p)).
  assert (accounted p1 = accounted p ++ [release h]) as Ha1.
  { unfold accounted, p1, released. simpl. by rewrite fmap_app, app_assoc. }
  assert (queue_ok (it + 1) (unwrittenPages p1)) as Hq1.
  { by apply queue_ok_snoc. }
  apply wp_bind. unfold cleanPages. apply wp_get.
  eapply wp_mono; [apply (clean_queue_ok U X N _ _ _ cur ls); [done|done|tauto]|].
  intros [] p2 (Ha & Hr & Hs & q1 & q2 & Hq12 & Hun & _ & Hnew). fold p1 in Hq12, Ha, Hr, Hs.
  eapply wp_mono; [apply (MemoryHolder_new_ok (it + 1) p2 (rows ++ lr) cur ls); [|done]|].
  { split.
    - exists (cs ++ [lr]). rewrite Ha, Ha1. split.
      + apply Forall2_app; [done|]. constructor; [by apply release_holds|constructor].
      + rewrite concat_app, Hrows. simpl. by rewrite app_nil_r.
    - rewrite Hr, Ha, Ha1. unfold p1. unfold requested in *. simpl. rewrite Hpages, fmap_app. simpl. by rewrite release_page, app_nil_r.
    - rewrite Hun. apply (queue_ok_suffix _ q1). by rewrite <- Hq12.
    - rewrite Ha, Ha1, length_app. simpl. lia.
    - rewrite Hun. rewrite Hq12 in Hq1. apply queue_ok_suffix in Hq1. destruct q2 as [|h2 q2]; [done|].
      apply queue_ok_cons in Hq1 as [Hh2 _]. unfold DELAY_VALUE in *. simpl in *. lia. }
  done.
Qed.

Lemma add_container_ok it h p rows cur ls :
  outputSink h = None → pipeline_ok p [location h] it rows → running (env p) cur ls →
  wp (add_container ops h) (λ h' p', pipeline_ok p' [location h'] it rows ∧ holder_open h' [] ∧ running (env p') cur ls ∧
    ∃ o, createNewOutputContainer ops (env p) = (Ret o, env p')) p.
Proof.
  intros Hnone Hok Hrun. unfold add_container. apply wp_bind. unfold Pipeline.wp, in_env.
  pose proof (law_create (env p) cur ls Hrun) as Hc.
  destruct (createNewOutputContainer ops (env p)) as [[o| | |] e] eqn:He; try done; simpl.
  - destruct Hc as [Ho Hrun']. split; [|split; [done|split; [done|by exists o]]]. destruct Hok as [? ? ? ? ?]. by split.
  - destruct progress_or as [Hp|[_ HN]]; [|apply HN]. destruct (progress_create (env p)) as [o Ho]. by rewrite He in Ho.
Qed.

(** The locals of [run], with the rows on pages put aside and on the current
    page. *)
Definition locals_ok p (lo : locals (O:=O)) (rows lr : list R) : Prop :=
  pipeline_ok p [location (myRAM lo)] (curIteration lo) rows ∧ holder_open (myRAM lo) lr.

Lemma pipeline_ok_keeps p p' pages it rows :
  events p' = events p → unwrittenPages p' = unwrittenPages p → pipeline_ok p pages it rows → pipeline_ok p' pages it rows.
Proof.
  intros He Hu [H1 H2 H3 H4 H5]. destruct (accounted_same p p' He Hu) as [Ha Hr]. split; by rewrite ?Ha, ?Hr, ?Hu.
Qed.

Lemma retry_ok {A} (m : M E A) lo p rows lr cur ls (Q : A → E → Prop) :
  (∀ e0 loc size e1 o e e', getNewPage ops e0 = (Ret (loc, size), e1) → createNewOutputContainer ops e1 = (Ret o, e) →
    running e cur ls → m e = (NotEnoughSpace, e') → X) →
  (∀ e, running e cur ls → match m e with (Ret a, e') => Q a e' | (NotEnoughSpace, e') => running e' cur ls | _ => False end) →
  running (env p) cur ls → locals_ok p lo rows lr →
  wp (retry ops (in_env m) lo) (λ r p', Q r.1 (env p') ∧ ∃ rows' lr', locals_ok p' r.2 rows' lr' ∧ rows' ++ lr' = rows ++ lr) p.
Proof.
  intros Hx Hm Hrun [Hok Hopen]. unfold retry. apply wp_bind. unfold attempt, catch, Pipeline.wp at 1. rewrite M_bind_unfold.
  unfold in_env at 1. pose proof (Hm (env p) Hrun) as H1. destruct (m (env p)) as [[a| | |] e1]; try done; simpl in *.
  { apply wp_ret. split; [done|]. exists rows, lr. split; [|done]. split; [by eapply pipeline_ok_keeps; [..|exact Hok]|done]. }
  set (p1 := MkPipeline e1 (unwrittenPages p) (events p)).
  assert (pipeline_ok p1 [location (myRAM lo)] (curIteration lo) rows) as Hok1 by by eapply pipeline_ok_keeps; [..|exact Hok].
  apply wp_bind. eapply wp_mono; [apply (next_page_ok (curIteration lo) (myRAM lo) p1 rows lr cur ls Hok1); [by apply open_holds|done]|].
  intros h p2 (Hnone & Hok2 & Hr2 & e0 & loc & size & Hpage). apply wp_bind.
  eapply wp_mono; [eapply (add_container_ok (curIteration lo + 1) h p2 _ cur ls); done|]. intros h' p3 (Hok3 & Hopen3 & Hr3 & o & Hcreate).
  apply wp_bind. unfold attempt, catch, Pipeline.wp at 1. rewrite M_bind_unfold.
  unfold in_env at 1. pose proof (Hm (env p3) Hr3) as H3. destruct (m (env p3)) as [[a| | |] e4] eqn:Hm3; try done; simpl in *; [|by eapply Hx].
  apply wp_ret. split; [done|]. exists (rows ++ lr), []. split; [|by rewrite app_nil_r].
  split; [by eapply pipeline_ok_keeps; [..|exact Hok3]|done].
Qed.

Lemma run_stages_ok i t l lo p rows lr ls :
  i ≤ length fs → running (env p) (Some (i, t, l)) ls → locals_ok p lo rows lr →
  wp (run_stages ops (drop i (stages ops)) t lo) (λ r p',
    running (env p') (Some (length fs, r.1, foldl (λ l f, f l) l (drop i fs))) ls ∧
    ∃ rows' lr', locals_ok p' r.2 rows' lr' ∧ rows' ++ lr' = rows ++ lr) p.
Proof.
  intros Hi. remember (length fs - i) as n eqn:Hn. revert i Hi Hn t l lo p rows lr.
  induction n as [|n IH]; intros i Hi Hn t l lo p rows lr Hrun Hlo; pose proof law_length as Hlen.
  { rewrite !drop_ge by lia. apply wp_ret. simpl. replace (length fs) with i by lia. split; [done|]. by exists rows, lr. }
  destruct (lookup_lt_is_Some_2 (stages ops) i) as [q Hq]; [lia|]. destruct (lookup_lt_is_Some_2 fs i) as [f Hf]; [lia|].
  rewrite (drop_S _ _ _ Hq), (drop_S _ _ _ Hf). simpl. apply wp_bind. eapply wp_mono.
  { apply (retry_ok (q t) lo p rows lr (Some (i, t, l)) ls (λ t' e, running e (Some (S i, t', f l)) ls)); [| |done..].
    - intros e0 loc size e1 o e e' ????. apply exit_ok. exists e0, loc, size, e1, o, e. split_and!; [done..|]. right. by exists i, q, t, l, ls, e'.
    - intros e He. by apply law_stage. }
  intros [t' lo'] p1 (Hrun1 & rows1 & lr1 & Hlo1 & Heq1). simpl in *.
  eapply wp_mono; [apply (IH (S i) ltac:(lia) ltac:(lia) t' (f l) lo' p1 rows1 lr1); done|].
  intros [t2 lo2] p2 (H2 & rows2 & lr2 & Hlo2 & Heq2).
  split; [done|]. exists rows2, lr2. split; [done|congruence].
Qed.

(** The page is given a container if it has none. *)
Lemma ensure_container_ok lo p lr cur ls :
  holder_open (myRAM lo) lr → running (env p) cur ls →
  wp (attempt (match outputSink (myRAM lo) with Some o => mret o | None => in_env (createNewOutputContainer ops) end))
    (λ created p', events p' = events p ∧ unwrittenPages p' = unwrittenPages p ∧ running (env p') cur ls ∧
      match created with Some o => page_open o lr | None => U ∧ lr = [] end) p.
Proof.
  intros Hopen Hrun. unfold holder_open in Hopen. destruct (outputSink (myRAM lo)) as [o|]; [done|]. subst lr.
  unfold attempt, catch, Pipeline.wp, in_env. run. pose proof (law_create (env p) cur ls Hrun) as Hc.
  destruct (createNewOutputContainer ops (env p)) as [[o| | |] e] eqn:He; try done; simpl.
  - destruct Hc as [Ho Hr]. by split_and!.
  - split_and!; try done. destruct progress_or as [Hp|[HU _]]; [|done].
    destruct (progress_create (env p)) as [o Ho]. by rewrite He in Ho.
Qed.

(** Writing a tuple set: all of its rows are written, in order, on one page or on
    several.  With progress, a turn per row and two more are enough. *)
Lemma write_chunk_ok fuel t l lo p rows lr ls :
  running (env p) (Some (length fs, t, l)) ls → locals_ok p lo rows lr → length (rows ++ lr ++ l) ≤ bound →
  U ∨ Progress ∧ length l + (if decide (lr = []) then 1 else 2) ≤ fuel →
  wp (write_chunk ops fuel t lo) (λ lo' p', running (env p') None ls ∧
    ∃ rows' lr', locals_ok p' lo' rows' lr' ∧ rows' ++ lr' = rows ++ lr ++ l) p.
Proof.
  revert t l lo p rows lr. induction fuel as [|fuel IH]; intros t l lo p rows lr Hrun [Hok Hopen] Hbound Hfuel; simpl.
  { destruct Hfuel as [HU|[_ Hf]]; [done|]. case_decide; lia. }
  apply wp_bind. eapply wp_mono; [by apply (ensure_container_ok lo p lr (Some (length fs, t, l)) ls)|].
  intros created p1 (He1 & Hu1 & Hrun1 & Hcr). pose proof (pipeline_ok_keeps p p1 _ _ _ He1 Hu1 Hok) as Hok1.
  destruct created as [o|].
  2:{ destruct Hcr as [HU ->]. apply wp_bind.
      eapply wp_mono; [apply (next_page_ok (curIteration lo) (myRAM lo) p1 rows [] (Some (length fs, t, l)) ls Hok1); [by apply open_holds|done]|].
      intros h p2 (Hnone & Hok2 & Hrun2 & _). rewrite app_nil_r in Hok2.
      apply (IH t l (Locals h (curIteration lo + 1)) p2 rows []); [done| |done|by left].
      split; [done|]. unfold holder_open. simpl. by rewrite Hnone. }
  apply wp_bind. unfold write_container, Pipeline.wp at 1. rewrite !length_app in Hbound.
  pose proof (law_write t o (env p1) lr l ls Hcr Hrun1 ltac:(lia)) as Hw.
  destruct (writeOut ops t o (env p1)) as [[r [t' o']] e] eqn:Hwr.
  set (p2 := MkPipeline e (unwrittenPages p1) (events p1)).
  assert (pipeline_ok p2 [location (setSink o' (myRAM lo))] (curIteration lo) rows) as Hok2 by by eapply pipeline_ok_keeps; [..|exact Hok1].
  destruct r as [[]| | |]; try done.
  { destruct Hw as [Hw Hrun2]. apply wp_ret. split; [done|]. exists rows, (lr ++ l). split; [|done]. by split. }
  assert (∃ k, k ≤ length l ∧ running e (Some (length fs, t', drop k l)) ls ∧ page_holds o' (lr ++ take k l) ∧
    (U ∨ Progress ∧ length (drop k l) + 1 ≤ fuel)) as (k & Hk & Hrun2 & Hpage & Hfuel').
  { destruct Hfuel as [HU|[Hp Hf]]; [destruct Hw as (k & ? & ? & ?); exists k; by split_and!; [..|left]|].
    case_decide as Hlr; [subst lr|destruct Hw as (k & ? & ? & ?); exists k; split_and!; [done..|right; split; [done|rewrite length_drop; lia]]].
    destruct (progress_write t o (env p1) l ls t' o' e Hcr Hrun1 ltac:(simpl in *; lia) Hwr) as (k & ? & ? & ?).
    exists k. split_and!; [lia|done..|right; split; [done|rewrite length_drop; lia]]. }
  apply wp_bind. eapply wp_mono; [apply (next_page_ok (curIteration lo) (setSink o' (myRAM lo)) p2 rows (lr ++ take k l) (Some (length fs, t', drop k l)) ls Hok2); done|].
  intros h p3 (Hnone & Hok3 & Hrun3 & _).
  eapply wp_mono; [apply (IH t' (drop k l) (Locals h (curIteration lo + 1)) p3 (rows ++ lr ++ take k l) []); [done| | |done]|].
  - split; [done|]. unfold holder_open. simpl. by rewrite Hnone.
  - rewrite !length_app, length_take, length_drop. simpl. lia.
  - intros lo' p' (Hrun' & rows' & lr' & Hlo' & Heq). split; [done|]. exists rows', lr'. split; [done|].
    rewrite Heq. simpl. by rewrite <- !app_assoc, take_drop.
Qed.

(** What the tuple sets of the source become. *)
Definition staged l : list R := foldl (λ l f, f l) l fs.

Definition staged_rows (ls : list (list R)) : list R := concat (staged <$> ls).

Lemma staged_rows_cons l ls : staged_rows (l :: ls) = staged l ++ staged_rows ls.
Proof. done. Qed.

Lemma run_loop_ok pages chunks lo p ls rows lr :
  running (env p) None ls → locals_ok p lo rows lr →
  length (rows ++ lr ++ staged_rows ls) ≤ bound →
  U ∨ Progress ∧ length ls < chunks ∧ Forall (λ l, length (staged l) + 2 ≤ pages) ls →
  wp (run_loop ops pages chunks lo) (λ lo' p', running (env p') None [] ∧ ∃ rows' lr', locals_ok p' lo' rows' lr' ∧
    rows' ++ lr' = rows ++ lr ++ staged_rows ls) p.
Proof.
  revert lo p ls rows lr. induction chunks as [|chunks IH]; intros lo p ls rows lr Hrun Hlo Hbound Hfuel; simpl.
  { destruct Hfuel as [HU|(_ & Hf & _)]; [done|lia]. }
  apply wp_bind. eapply wp_mono.
  { apply (retry_ok (getNextTupleSet ops) lo p rows lr None ls
      (λ ot e, match ot with Some t => ∃ l ls', ls = l :: ls' ∧ running e (Some (0, t, l)) ls' | None => ls = [] ∧ running e None [] end)); [| |done..].
    - intros e0 loc size e1 o e e' ????. apply exit_ok. exists e0, loc, size, e1, o, e. split_and!; [done..|]. left. by exists ls, e'.
    - intros e He. pose proof (law_source e ls He) as H1. by destruct (getNextTupleSet ops e) as [[[t|]| | |] e']. }
  intros [ot lo1] p1 (Ht & rows1 & lr1 & Hlo1 & Heq1). simpl in *. destruct ot as [t|].
  2:{ destruct Ht as [-> Hrun1]. apply wp_ret. split; [done|]. exists rows1, lr1. split; [done|].
      unfold staged_rows. simpl. by rewrite app_nil_r. }
  destruct Ht as (l & ls' & -> & Hrun1). rewrite staged_rows_cons in *. simpl in *. apply wp_bind.
  eapply wp_mono; [apply (run_stages_ok 0 t l lo1 p1 rows1 lr1 ls'); [lia|done..]|].
  intros [t2 lo2] p2 (Hrun2 & rows2 & lr2 & Hlo2 & Heq2). simpl in *. apply wp_bind.
  assert (rows2 ++ lr2 = rows ++ lr) as Heq by congruence.
  assert (length rows2 + length lr2 = length rows + length lr) as Hlen by (rewrite <- !length_app; by rewrite Heq).
  rewrite !length_app in Hbound.
  eapply wp_mono; [apply (write_chunk_ok pages t2 (staged l) lo2 p2 rows2 lr2 ls'); try done|].
  { rewrite !length_app. lia. }
  { destruct Hfuel as [HU|(Hp & _ & Hf)]; [by left|]. right. split; [done|]. apply Forall_cons in Hf as [Hf _]. case_decide; lia. }
  intros lo3 p3 (Hrun3 & rows3 & lr3 & Hlo3 & Heq3).
  assert (rows3 ++ lr3 = (rows ++ lr) ++ staged l) as Heq3' by (rewrite Heq3, app_assoc; by rewrite Heq).
  eapply wp_mono; [apply (IH lo3 p3 ls' rows3 lr3); try done|].
  { rewrite app_assoc, Heq3'. rewrite !length_app. lia. }
  { destruct Hfuel as [HU|(Hp & Hc & Hf)]; [by left|]. right. split_and!; [done|lia|by apply Forall_cons in Hf as [_ Hf]]. }
  intros lo4 p4 (Hrun4 & rows4 & lr4 & Hlo4 & Heq4). split; [done|]. exists rows4, lr4. split; [done|].
  rewrite Heq4, app_assoc, Heq3'. by rewrite <- !app_assoc.
Qed.

(** A pipeline that starts with no pages. *)
Lemma run_ok pages chunks e ls :
  running e None ls → length (staged_rows ls) ≤ bound →
  U ∨ Progress ∧ length ls < chunks ∧ Forall (λ l, length (staged l) + 2 ≤ pages) ls →
  wp (run ops pages chunks) (λ _ p, running (env p) None [] ∧
    (∃ cs, Forall2 event_holds (accounted p) cs ∧ concat cs = staged_rows ls) ∧
    requested p = event_page <$> accounted p ∧
    queue_ok (Z.of_nat (length (accounted p))) (unwrittenPages p) ∧
    (Z.of_nat (length (unwrittenPages p)) ≤ DELAY_VALUE + 1)%Z) (MkPipeline e [] []).
Proof.
  intros Hrun Hbound Hfuel. unfold run. apply wp_bind.
  assert (pipeline_ok (MkPipeline e [] []) [] 0 []) as H0 by (split; [by exists []|done|done|done|done]).
  eapply wp_mono; [by apply (MemoryHolder_new_ok 0 (MkPipeline e [] []) [] None ls)|]. intros h p1 (Hnone & Hok1 & Hrun1 & _). apply wp_bind.
  eapply wp_mono; [by apply (add_container_ok 0 h p1 [] None ls)|]. intros h' p2 (Hok2 & Hopen2 & Hrun2 & _). apply wp_bind.
  eapply wp_mono; [by apply (run_loop_ok pages chunks (Locals h' 0) p2 ls [] [])|]. intros lo p3 (Hrun3 & rows & lr & [Hok3 Hopen3] & Heq).
  destruct Hok3 as [(cs & Hcs & Hrows) Hpages Hq Hn Hf]. simpl in Heq.
  unfold put_aside. apply wp_get. unfold Pipeline.wp, set_unwritten, modify. simpl.
  set (p4 := MkPipeline (env p3) (unwrittenPages p3 ++ [setIteration (curIteration lo) (myRAM lo)]) (events p3)).
  assert (accounted p4 = accounted p3 ++ [release (myRAM lo)]) as Ha.
  { unfold accounted, p4, released. simpl. by rewrite fmap_app, app_assoc. }
  rewrite Ha. split_and!; [done|..].
  - exists (cs ++ [lr]). split; [|by rewrite concat_app, Hrows; simpl; rewrite app_nil_r].
    apply Forall2_app; [done|]. constructor; [|constructor]. by apply release_holds, open_holds.
  - change (requested p4) with (requested p3). rewrite Hpages, fmap_app. simpl. by rewrite release_page.
  - rewrite length_app. simpl. replace (Z.of_nat (length (accounted p3) + 1)) with (curIteration lo + 1)%Z by lia.
    by apply queue_ok_snoc.
  - rewrite length_app. simpl. lia.
Qed.

(** The destructor gives all waiting pages back, newest first. *)
Lemma destroy_ok p :
  running (env p) None [] → queue_ok (Z.of_nat (length (accounted p))) (unwrittenPages p) →
  (Z.of_nat (length (accounted p)) + DELAY_VALUE ≤ ALL_ITERATIONS)%Z →
  wp (destroy ops) (λ _ p', released p' ≡ₚ accounted p ∧ requested p' = requested p ∧ unwrittenPages p' = []) p.
Proof.
  intros Hrun Hqok Hit. unfold destroy. apply wp_get. apply wp_bind. unfold Pipeline.wp at 1, set_unwritten, modify. simpl.
  unfold cleanPages. apply wp_get. eapply wp_mono; [apply (clean_queue_ok U X N _ _ _ None []); [done|done|tauto]|].
  intros [] p' (Ha & Hr & _ & q1 & q2 & Hq & Hun & _ & Hnew). simpl in *. destruct q2 as [|h q2].
  - split_and!; [|done|done]. unfold accounted in Ha. rewrite Hun in Ha. simpl in Ha. rewrite app_nil_r in Ha. rewrite Ha.
    unfold accounted, released. simpl. by rewrite reverse_Permutation.
  - exfalso. assert (h ∈ unwrittenPages p) as Hin by (apply elem_of_reverse; rewrite Hq; apply elem_of_app; right; left).
    assert (iteration h ∈ iteration <$> unwrittenPages p) as Hi by (by apply list_elem_of_fmap_2).
    rewrite Hqok in Hi. apply elem_of_seqZ in Hi. lia.
Qed.
End facts.

(** A whole run and the destructor. *)
Lemma run_destroy_ok {E T O R : Type} (ops : pipeline_ops E T O)
    (running : E → option (nat * T * list R) → list (list R) → Prop) (page_open page_holds : O → list R → Prop)
    (fs : list (list R → list R)) (bound : nat) `{!PipelineLaws ops running page_open page_holds fs bound}
    `{!PipelineProgress ops running page_open page_holds fs bound} (pages chunks : nat) (e : E) (ls : list (list R)) :
  running e None ls → length (staged_rows fs ls) ≤ bound →
  length ls < chunks → Forall (λ l, length (staged fs l) + 2 ≤ pages) ls →
  match run ops pages chunks (MkPipeline e [] []) with
  | (Ret _, p) =>
      (Z.of_nat (length (requested p)) + DELAY_VALUE ≤ ALL_ITERATIONS)%Z →
      match destroy ops p with
      | (Ret _, p') => unwrittenPages p' = [] ∧
          ∃ filled cs, released p' ≡ₚ filled ∧ requested p' = event_page <$> filled ∧
            Forall2 (event_holds page_holds) filled cs ∧ concat cs = staged_rows fs ls
      | _ => False
      end
  | (Exit _, _) => no_room_when_fresh ops running
  | _ => False
  end.
Proof.
  intros Hs Hbound Hchunks Hpages.
  pose proof (run_ok ops running page_open page_holds fs bound False (no_room_when_fresh ops running) (λ _, False)
    (or_introl _) (λ H, H) pages chunks e ls Hs Hbound (or_intror (conj _ (conj Hchunks Hpages)))) as Hrun.
  unfold wp in Hrun. destruct (run _ _ _ _) as [[[]| | |] p]; try done.
  destruct Hrun as (Hr & (cs & Hcs & Hrows) & Hreq & Hq & _). intros Hn. rewrite Hreq, length_fmap in Hn.
  pose proof (destroy_ok ops running page_open page_holds fs bound False False (λ _, False)
    (or_introl _) p Hr Hq Hn) as Hd.
  unfold wp in Hd. destruct (destroy ops p) as [[[]| | |] p']; try done. destruct Hd as (Hrel & Hreq' & Hun).
  split; [done|]. exists (accounted p), cs. split_and!; [done|congruence|done|done].
Qed.

(** ** How long pages wait

    The calls that take and give back pages tell how many pages the pipeline has
    at any time; nothing is assumed of what the pipeline calls. *)

Section waiting.
Context {E T O : Type} (ops : pipeline_ops E T O).
Implicit Types (h : MemoryHolder O) (p : pipeline E O) (calls : list (page_event O)).

(** At most [DELAY_VALUE + 1] pages are held, and none has been given back that
    has fewer than [DELAY_VALUE] later ones. *)
Definition held_ok calls : Prop :=
  let n := Z.of_nat (length (filter (λ ev, is_request ev = true) calls)) in
  let k := Z.of_nat (length (filter (λ ev, is_request ev = false) calls)) in
  (n ≤ k + DELAY_VALUE + 1)%Z ∧ (0 < k → k + DELAY_VALUE ≤ n)%Z.

Definition delayed calls : Prop := ∀ calls', calls' `prefix_of` calls → held_ok calls'.

Lemma delayed_snoc calls ev : delayed calls → held_ok (calls ++ [ev]) → delayed (calls ++ [ev]).
Proof.
  intros Hd Hh calls' [k Hk]. destruct k as [|x k _] using rev_ind; [rewrite app_nil_r in Hk; by subst|].
  apply Hd. exists k. rewrite app_assoc in Hk. by apply app_inj_tail in Hk as [-> _].
Qed.

Definition in_order p : Prop := delayed (events p) ∧ (event_page <$> released p) `prefix_of` requested p.

(** The pipeline between two steps: the pages taken are given back, waiting, or
    [current]. *)
Record waiting_ok p (current : list Z) (it : Z) : Prop := {
  wo_pages : requested p = (event_page <$> accounted p) ++ current;
  wo_queue : queue_ok it (unwrittenPages p);
  wo_count : Z.of_nat (length (accounted p)) = it;
  wo_calls : delayed (events p)
}.

Lemma waiting_in_order p current it : waiting_ok p current it → in_order p.
Proof.
  intros [Hp _ _ Hd]. split; [done|]. rewrite Hp. unfold accounted. rewrite fmap_app, <- app_assoc. by apply prefix_app_r.
Qed.

Lemma waiting_same p p' current it :
  events p' = events p → unwrittenPages p' = unwrittenPages p → waiting_ok p current it → waiting_ok p' current it.
Proof. intros He Hu [H1 H2 H3 H4]. destruct (accounted_same p p' He Hu) as [Ha Hr]. split; by rewrite ?Ha, ?Hr, ?Hu, ?He. Qed.

(** [m] ends in a state with [Q], or with an exception, an exit or undefined
    behaviour while the calls are in order. *)
Definition ends {A} (m : M (pipeline E O) A) (Q : A → pipeline E O → Prop) p : Prop :=
  match m p with (Ret a, p') => Q a p' | (_, p') => in_order p' end.

Lemma ends_bind {A B} (m : M _ A) (f : A → M _ B) Q p : ends m (λ a, ends (f a) Q) p → ends (m ≫= f) Q p.
Proof. unfold ends. rewrite M_bind_unfold. by destruct (m p) as [[a| | |] p']. Qed.

Lemma ends_mono {A} (m : M _ A) (Q Q' : A → _ → Prop) p : ends m Q p → (∀ a p', Q a p' → Q' a p') → ends m Q' p.
Proof. unfold ends. destruct (m p) as [[a| | |] p']; auto. Qed.

Lemma in_env_waits {A} (m : M E A) current it p :
  waiting_ok p current it → ends (in_env m) (λ _ p', waiting_ok p' current it) p.
Proof.
  intros Hw. unfold ends, in_env. destruct (m (env p)) as [r e].
  assert (waiting_ok (MkPipeline e (unwrittenPages p) (events p)) current it) as Hw' by by eapply waiting_same; [..|exact Hw].
  destruct r; [done|by eapply waiting_in_order..].
Qed.

Lemma attempt_waits {A} (m : M _ A) current it p :
  (∀ p, waiting_ok p current it → ends m (λ _ p', waiting_ok p' current it) p ∧
    ∀ p', m p = (NotEnoughSpace, p') → waiting_ok p' current it) →
  waiting_ok p current it → ends (attempt m) (λ _ p', waiting_ok p' current it) p.
Proof.
  intros Hm Hw. destruct (Hm p Hw) as [H1 H2]. unfold ends, attempt, catch in *. rewrite M_bind_unfold.
  destruct (m p) as [[a| | |] p']; try done. by apply H2.
Qed.

Lemma attempt_env_waits {A} (m : M E A) current it p :
  waiting_ok p current it → ends (attempt (in_env m)) (λ _ p', waiting_ok p' current it) p.
Proof.
  apply attempt_waits. intros p1 Hw. split; [by apply in_env_waits|]. intros p2 Hp. unfold in_env in Hp.
  destruct (m (env p1)) as [r e]. injection Hp as _ <-. by eapply waiting_same; [..|exact Hw].
Qed.

(** Cleaning gives back pages from the front. *)
Lemma clean_queue_waits it q p :
  unwrittenPages p = q → waiting_ok p [] it → length q ≤ 5 →
  ends (clean_queue ops it q) (λ _ p', waiting_ok p' [] it ∧ (Z.of_nat (length (unwrittenPages p')) ≤ DELAY_VALUE)%Z) p.
Proof.
  revert p. induction q as [|h q IH]; intros p Hq Hw Hlen; simpl.
  { unfold ends, set_unwritten, modify. simpl. split; [by eapply waiting_same; [..|exact Hw]|done]. }
  pose proof Hw as [Hpg Hqo Hcount Hd]. rewrite Hq in Hqo. apply queue_ok_cons in Hqo as [Hh Hqo].
  destruct (Z.ltb_spec (iteration h + DELAY_VALUE) it) as [Hold|Hnew].
  2:{ unfold ends, set_unwritten, modify. simpl. split; [by eapply waiting_same; [..|exact Hw]|]. simpl in Hh. unfold DELAY_VALUE in *. lia. }
  assert (∀ p2, events p2 = events p → waiting_ok p2 [] it →
    ends (log (release h) ;; set_unwritten q ;; clean_queue ops it q)
      (λ _ p', waiting_ok p' [] it ∧ (Z.of_nat (length (unwrittenPages p')) ≤ DELAY_VALUE)%Z) p2) as Hgo.
  { intros p2 Hev Hw2. do 2 apply ends_bind. unfold ends at 1 2, log, set_unwritten, modify. simpl.
    apply IH; [done| |simpl in Hlen; lia]. set (p3 := MkPipeline _ _ _).
    assert (requested p3 = requested p) as Hr3.
    { unfold requested, p3. simpl. rewrite Hev, filter_app, filter_cons, filter_nil, release_not_request. simpl. by rewrite app_nil_r. }
    assert (accounted p3 = accounted p) as Ha3.
    { unfold accounted, released, p3. simpl. rewrite Hev, Hq, filter_app, filter_cons, filter_nil, release_not_request. simpl. by rewrite <- app_assoc. }
    split; [by rewrite Hr3, Ha3| |by rewrite Ha3|].
    - done.
    - simpl. apply delayed_snoc; rewrite Hev; [done|]. unfold held_ok. rewrite !filter_app, !filter_cons, !filter_nil, release_not_request.
      simpl. rewrite app_nil_r, length_app. simpl.
      pose proof (f_equal length Hpg) as Hl. unfold requested in Hl. rewrite app_nil_r, !length_fmap in Hl.
      unfold accounted in Hcount, Hl. rewrite Hq in Hcount, Hl. rewrite length_app, length_fmap in Hcount, Hl. unfold released in Hcount, Hl.
      unfold DELAY_VALUE in *. simpl in *. lia. }
  unfold release in Hgo. destruct (outputSink h) as [o|]; [by apply Hgo|].
  apply ends_bind. unfold ends at 1, in_env. destruct (createNewOutputContainer ops (env p)) as [r e].
  assert (waiting_ok (MkPipeline e (unwrittenPages p) (events p)) [] it) as Hw' by by eapply waiting_same; [..|exact Hw].
  destruct r; [by apply Hgo|by eapply waiting_in_order..].
Qed.

(** The state in which the pipeline has a page that it writes to. *)
Definition holds_page p (it : Z) (loc : Z) : Prop :=
  waiting_ok p [loc] it ∧ (Z.of_nat (length (unwrittenPages p)) ≤ DELAY_VALUE)%Z.

Lemma MemoryHolder_new_waits it p :
  waiting_ok p [] it → (Z.of_nat (length (unwrittenPages p)) ≤ DELAY_VALUE)%Z →
  ends (MemoryHolder_new ops) (λ h p', holds_page p' it (location h)) p.
Proof.
  intros Hw Hn. unfold MemoryHolder_new. apply ends_bind. unfold ends at 1, in_env.
  destruct (getNewPage ops (env p)) as [r e]. set (p1 := MkPipeline e _ _).
  assert (waiting_ok p1 [] it) as Hw1 by by eapply waiting_same; [..|exact Hw].
  destruct r as [[loc size]| | |]; try by eapply waiting_in_order.
  destruct (loc =? 0)%Z; [unfold ends, lift; simpl; by eapply waiting_in_order|].
  unfold ends, log. run. simpl. destruct Hw1 as [Hpg Hq Hc Hd]. split; [|done].
  assert (accounted (MkPipeline e (unwrittenPages p) (events p ++ [Requested loc])) = accounted p) as Ha.
  { unfold accounted, released. simpl. rewrite filter_app, filter_cons, filter_nil. simpl. by rewrite app_nil_r. }
  split; rewrite ?Ha; [|done..|].
  - unfold requested in *. simpl in *. rewrite filter_app, filter_cons, filter_nil. simpl. rewrite fmap_app. simpl.
    rewrite Hpg. by rewrite app_nil_r.
  - simpl. apply delayed_snoc; [done|]. unfold held_ok. rewrite !filter_app, !filter_cons, !filter_nil. simpl.
    rewrite app_nil_r, length_app. simpl. pose proof (Hd _ (reflexivity _)) as [_ Hh]. simpl in Hh.
    pose proof (f_equal length Hpg) as Hl. unfold requested, accounted, released in Hl. simpl in Hl.
    rewrite app_nil_r, !length_fmap, length_app, length_fmap in Hl. simpl in *. unfold DELAY_VALUE in *. lia.
Qed.

Lemma put_aside_waits it h p : holds_page p it (location h) →
  ends (put_aside it h) (λ _ p', waiting_ok p' [] (it + 1) ∧ (Z.of_nat (length (unwrittenPages p')) ≤ DELAY_VALUE + 1)%Z) p.
Proof.
  intros [[Hpg Hq Hc Hd] Hn]. unfold put_aside, ends, set_unwritten, modify. run. simpl.
  set (p1 := MkPipeline _ _ _).
  assert (accounted p1 = accounted p ++ [release h]) as Ha1 by (unfold accounted, p1, released; simpl; by rewrite fmap_app, app_assoc).
  split; [split|].
  - rewrite Ha1. unfold p1. unfold requested in *. simpl. rewrite Hpg, fmap_app. simpl. by rewrite release_page, app_nil_r.
  - by apply queue_ok_snoc.
  - rewrite Ha1, length_app. simpl. lia.
  - done.
  - rewrite length_app. simpl. lia.
Qed.

Lemma next_page_waits it h p : holds_page p it (location h) →
  ends (next_page ops it h) (λ h' p', holds_page p' (it + 1) (location h')) p.
Proof.
  intros Hp. unfold next_page. apply ends_bind. eapply ends_mono; [by apply put_aside_waits|]. intros [] p1 [Hw Hn].
  apply ends_bind. eapply ends_mono; [apply (clean_queue_waits (it + 1) (unwrittenPages p1)); [done..|unfold DELAY_VALUE in *; lia]|].
  intros [] p2 [Hw2 Hn2]. by apply MemoryHolder_new_waits.
Qed.

Lemma attempt_holds {A} (m : M E A) it loc p : holds_page p it loc → ends (attempt (in_env m)) (λ _ p', holds_page p' it loc) p.
Proof.
  intros [Hw Hn]. pose proof (attempt_env_waits m [loc] it p Hw) as H. unfold ends, attempt, catch, in_env in *.
  rewrite M_bind_unfold in *. destruct (m (env p)) as [[a| | |] e]; simpl in *; done.
Qed.

Lemma in_env_holds {A} (m : M E A) it loc p : holds_page p it loc → ends (in_env m) (λ _ p', holds_page p' it loc) p.
Proof.
  intros [Hw Hn]. pose proof (in_env_waits m [loc] it p Hw) as H. unfold ends, in_env in *.
  destruct (m (env p)) as [[a| | |] e]; simpl in *; done.
Qed.

Local Abbreviation locals_hold p lo := (holds_page p (curIteration lo) (location (myRAM lo))).

Lemma retry_waits {A} (m : M E A) (lo : locals (O:=O)) p : locals_hold p lo →
  ends (retry ops (in_env m) lo) (λ r p', locals_hold p' r.2) p.
Proof.
  intros Hp. unfold retry. apply ends_bind. eapply ends_mono; [by apply attempt_holds|]. intros [a|] p1 H1; [done|].
  apply ends_bind. eapply ends_mono; [by apply next_page_waits|]. intros h p2 H2.
  apply ends_bind. unfold add_container. apply ends_bind. eapply ends_mono; [eapply in_env_holds, H2|]. intros o p3 H3. cbv beta.
  change (ends (r ← attempt (in_env m); match r with Some a => mret (a, Locals (setSink o h) (curIteration lo + 1)) | None => lift (Exit 1) end)
    (λ r p', locals_hold p' r.2) p3).
  apply ends_bind. eapply ends_mono; [eapply attempt_holds, H3|]. intros [a|] p4 H4; [done|].
  unfold ends, lift. by eapply waiting_in_order, H4.
Qed.

Lemma run_stages_waits qs t (lo : locals (O:=O)) p : locals_hold p lo →
  ends (run_stages ops qs t lo) (λ r p', locals_hold p' r.2) p.
Proof.
  revert t lo p. induction qs as [|q qs IH]; intros t lo p Hp; [done|]. simpl. apply ends_bind.
  eapply ends_mono; [by apply retry_waits|]. intros [t' lo'] p1 H1. by apply IH.
Qed.

Lemma write_chunk_waits fuel t (lo : locals (O:=O)) p : locals_hold p lo →
  ends (write_chunk ops fuel t lo) (λ lo' p', locals_hold p' lo') p.
Proof.
  revert t lo p. induction fuel as [|fuel IH]; intros t lo p Hp; [by eapply waiting_in_order, Hp|]. cbn [write_chunk].
  apply ends_bind. eapply (ends_mono _ (λ _ p', locals_hold p' lo)).
  { destruct (outputSink (myRAM lo)); [done|by apply attempt_holds]. }
  intros [o|] p1 H1.
  2:{ apply ends_bind. eapply ends_mono; [by apply next_page_waits|]. intros h p2 H2. by apply IH. }
  apply ends_bind. unfold ends at 1, write_container. destruct (writeOut ops t o (env p1)) as [[r [t' o']] e].
  set (p2 := MkPipeline e _ _).
  assert (locals_hold p2 lo) as H2 by (split; [by eapply waiting_same; [..|apply H1]|apply H1]).
  destruct r as [[]| | |]; [done| |by eapply waiting_in_order, H2..].
  apply ends_bind. eapply ends_mono; [by apply next_page_waits|]. intros h p3 H3. by apply IH.
Qed.

Lemma run_loop_waits pages chunks (lo : locals (O:=O)) p : locals_hold p lo →
  ends (run_loop ops pages chunks lo) (λ lo' p', locals_hold p' lo') p.
Proof.
  revert lo p. induction chunks as [|chunks IH]; intros lo p Hp; [by eapply waiting_in_order, Hp|]. simpl.
  apply ends_bind. eapply ends_mono; [by apply retry_waits|]. intros [[t|] lo1] p1 H1; [|done].
  apply ends_bind. eapply ends_mono; [by apply run_stages_waits|]. intros [t2 lo2] p2 H2.
  apply ends_bind. eapply ends_mono; [by apply write_chunk_waits|]. intros lo3 p3 H3. by apply IH.
Qed.

(** Cleaning everything gives the queue back from the front to the back. *)
Lemma clean_all_releases it q p : unwrittenPages p = q → Forall (λ h, iteration h + DELAY_VALUE < it)%Z q →
  match clean_queue ops it q p with
  | (Ret _, p') => unwrittenPages p' = [] ∧ requested p' = requested p ∧ released p' = released p ++ (release <$> q)
  | _ => True
  end.
Proof.
  revert p. induction q as [|h q IH]; intros p Hq Hall; simpl.
  { unfold set_unwritten, modify. simpl. by rewrite app_nil_r. }
  apply Forall_cons in Hall as [Hh Hall]. rewrite (proj2 (Z.ltb_lt _ _)) by done.
  assert (∀ p2, events p2 = events p →
    match (log (release h) ;; set_unwritten q ;; clean_queue ops it q) p2 with
    | (Ret _, p') => unwrittenPages p' = [] ∧ requested p' = requested p ∧ released p' = released p ++ (release <$> h :: q)
    | _ => True
    end) as Hgo.
  { intros p2 Hev. unfold log, set_unwritten, modify. run. simpl.
    pose proof (IH (MkPipeline (env p2) q (events p2 ++ [release h])) eq_refl Hall) as H.
    destruct (clean_queue _ _ _ _) as [[[]| | |] p']; try done. destruct H as (H1 & H2 & H3). split_and!; [done|rewrite H2|rewrite H3].
    - unfold requested. simpl. rewrite Hev, filter_app, filter_cons, filter_nil, release_not_request. simpl. by rewrite app_nil_r.
    - unfold released. simpl. rewrite Hev, filter_app, filter_cons, filter_nil, release_not_request. simpl. by rewrite <- app_assoc. }
  unfold release in Hgo at 1. destruct (outputSink h) as [o|]; [by apply Hgo|].
  rewrite M_bind_unfold. unfold in_env. destruct (createNewOutputContainer ops (env p)) as [[o| | |] e]; try done. by apply Hgo.
Qed.

Lemma run_waits pages chunks e :
  let '(r, p) := run ops pages chunks (MkPipeline e [] []) in
  delayed (events p) ∧ (event_page <$> released p) `prefix_of` requested p ∧
  match r with
  | Ret _ =>
      requested p = (event_page <$> released p) ++ (location <$> unwrittenPages p) ∧
      ((Z.of_nat (length (requested p)) + DELAY_VALUE ≤ ALL_ITERATIONS)%Z →
       match destroy ops p with
       | (Ret _, p') => unwrittenPages p' = [] ∧ requested p' = requested p ∧
           released p' = released p ++ reverse (release <$> unwrittenPages p)
       | _ => True
       end)
  | _ => True
  end.
Proof.
  assert (ends (run ops pages chunks) (λ _ p', ∃ it, waiting_ok p' [] it) (MkPipeline e [] [])) as H.
  { unfold run. apply ends_bind. eapply ends_mono; [apply (MemoryHolder_new_waits 0)|].
    { split; [done..|]. intros calls' [k Hk]. simpl in Hk. destruct calls'; [|done]. unfold held_ok, DELAY_VALUE. simpl. lia. } { done. }
    intros h p1 H1. apply ends_bind. unfold add_container. apply ends_bind.
    eapply ends_mono; [eapply in_env_holds, H1|]. intros o p2 H2.
    change (ends (l ← run_loop ops pages chunks (Locals (setSink o h) 0); put_aside (curIteration l) (myRAM l))
      (λ _ p', ∃ it, waiting_ok p' [] it) p2).
    apply ends_bind. eapply ends_mono; [by apply run_loop_waits|]. intros lo p3 H3.
    eapply ends_mono; [by apply put_aside_waits|]. intros [] p4 [H4 _]. by eexists. }
  unfold ends in H. destruct (run _ _ _ _) as [[[]| | |] p]; [|by destruct H..]. destruct H as [it Hw].
  destruct (waiting_in_order _ _ _ Hw) as [Hd Ho]. destruct Hw as [Hpg Hq Hc _]. split_and!; [done..| |].
  - rewrite Hpg, app_nil_r. unfold accounted. rewrite fmap_app, <- list_fmap_compose. f_equal. apply list_fmap_ext. intros. apply release_page.
  - intros Hn. rewrite Hpg, app_nil_r, length_fmap in Hn. unfold destroy, set_unwritten, modify, cleanPages. run. simpl.
    pose proof (clean_all_releases ALL_ITERATIONS (reverse (unwrittenPages p)) (MkPipeline (env p) (reverse (unwrittenPages p)) (events p)) eq_refl) as H.
    rewrite fmap_reverse in H. apply H. apply Forall_reverse, Forall_forall. intros h Hh.
    assert (iteration h ∈ iteration <$> unwrittenPages p) as Hi by by apply list_elem_of_fmap_2.
    unfold queue_ok in Hq. rewrite Hq in Hi. apply elem_of_seqZ in Hi. lia.
Qed.
End waiting.

(** ** Properties *)

(** [C9] A pipeline writes the rows of its source, as its stages make them, to its
    pages.  When a fresh page has room for a container and for the first row of
    any tuple set ([PipelineProgress]; otherwise [write_chunk_diverges]), the
    pipeline finishes, unless it exits because the source or a stage throws on a
    page to which, after it was taken, only a container has been added
    ([no_room_when_fresh]); and when it is destroyed (after fewer than about 10^9
    pages) it does not exit, each page taken has been given back exactly once, and
    the rows on the pages in the order in which they were filled are the rows of
    the source in order. *)
Theorem Pipeline_writes_rows {E T O R : Type} (ops : pipeline_ops E T O)
    (running : E → option (nat * T * list R) → list (list R) → Prop) (page_open page_holds : O → list R → Prop)
    (fs : list (list R → list R)) (bound : nat) `{!PipelineLaws ops running page_open page_holds fs bound}
    `{!PipelineProgress ops running page_open page_holds fs bound} (pages chunks : nat) (e : E) (ls : list (list R)) :
  running e None ls → length (staged_rows fs ls) ≤ bound →
  length ls < chunks → Forall (λ l, length (staged fs l) + 2 ≤ pages) ls →
  match run ops pages chunks (MkPipeline e [] []) with
  | (Ret _, p) =>
      (Z.of_nat (length (requested p)) + DELAY_VALUE ≤ ALL_ITERATIONS)%Z →
      match destroy ops p with
      | (Ret _, p') => unwrittenPages p' = [] ∧
          ∃ filled cs, released p' ≡ₚ filled ∧ requested p' = event_page <$> filled ∧
            Forall2 (event_holds page_holds) filled cs ∧ concat cs = staged_rows fs ls
      | _ => False
      end
  | (Exit _, _) => no_room_when_fresh ops running
  | _ => False
  end.
Proof. by eapply run_destroy_ok. Qed.

(** [C31] Whatever the source, the stages, the sink and the page functions do,
    and however a run ends, at no time are more than [DELAY_VALUE] pages waiting
    besides the one that is written to: in every prefix of the calls the pages
    taken outnumber those given back by at most [DELAY_VALUE + 1], and a page is
    given back only when [DELAY_VALUE] later pages have been taken.  In a run
    pages are given back in the order in which they were taken.  When the run has
    returned all pages taken are given back or waiting, and the destructor, if it
    returns (and fewer than about 10^9 pages were taken), gives the waiting ones
    back, newest first. *)
Theorem Pipeline_few_pages_wait {E T O : Type} (ops : pipeline_ops E T O) (pages chunks : nat) (e : E) :
  let '(r, p) := run ops pages chunks (MkPipeline e [] []) in
  (∀ calls, calls `prefix_of` events p →
     let n := Z.of_nat (length (filter (λ ev, is_request ev = true) calls)) in
     let k := Z.of_nat (length (filter (λ ev, is_request ev = false) calls)) in
     (n ≤ k + DELAY_VALUE + 1)%Z ∧ (0 < k → k + DELAY_VALUE ≤ n)%Z) ∧
  (event_page <$> released p) `prefix_of` requested p ∧
  match r with
  | Ret _ =>
      requested p = (event_page <$> released p) ++ (location <$> unwrittenPages p) ∧
      ((Z.of_nat (length (requested p)) + DELAY_VALUE ≤ ALL_ITERATIONS)%Z →
       match destroy ops p with
       | (Ret _, p') => unwrittenPages p' = [] ∧ requested p' = requested p ∧
           released p' = released p ++ reverse (release <$> unwrittenPages p)
       | _ => True
       end)
  | _ => True
  end.
Proof. pose proof (run_waits ops pages chunks e) as H. destruct (run _ _ _ _) as [r p]. exact H. Qed.

(** ** A sink that never takes a row *)

Section stuck.
Context {E T O : Type} (ops : pipeline_ops E T O).
Hypothesis create_ok : ∀ e, ∃ o e', createNewOutputContainer ops e = (Ret o, e').
Hypothesis page_ok : ∀ e, ∃ loc size e', getNewPage ops e = (Ret (loc, size), e') ∧ loc ≠ 0%Z.
Implicit Types (p : pipeline E O).

Lemma requested_log ev p : is_request ev = false →
  requested (MkPipeline (env p) (unwrittenPages p) (events p ++ [ev])) = requested p.
Proof. intros Hev. unfold requested. simpl. rewrite filter_app, filter_cons, filter_nil, Hev. simpl. by rewrite app_nil_r. Qed.

Lemma clean_queue_total it q p : ∃ p', clean_queue ops it q p = (Ret tt, p') ∧ requested p' = requested p.
Proof.
  revert p. induction q as [|h q IH]; intros p; simpl; [by eexists|].
  destruct (_ <? _)%Z; [|by eexists]. destruct (outputSink h) as [o|].
  - run. destruct (IH (MkPipeline (env p) q (events p ++ [WrittenBack (location h) o]))) as (p' & Hp & Hr).
    exists p'. split; [exact Hp|]. rewrite Hr. by apply (requested_log (WrittenBack (location h) o)).
  - destruct (create_ok (env p)) as (o & e & He). rewrite M_bind_unfold. unfold in_env. rewrite He. run.
    destruct (IH (MkPipeline e q (events p ++ [Discarded (location h)]))) as (p' & Hp & Hr).
    exists p'. split; [exact Hp|]. rewrite Hr. by apply (requested_log (Discarded (location h)) p).
Qed.

Lemma next_page_total it h p : ∃ h' p', next_page ops it h p = (Ret h', p') ∧
  length (requested p') = S (length (requested p)).
Proof.
  unfold next_page, put_aside, cleanPages. run.
  destruct (clean_queue_total (it + 1) (unwrittenPages p ++ [setIteration it h])
    (MkPipeline (env p) (unwrittenPages p ++ [setIteration it h]) (events p))) as (p1 & Hc & Hr).
  unfold set_unwritten, modify. run. cbn [unwrittenPages env events]. rewrite Hc. unfold MemoryHolder_new, in_env. run. destruct (page_ok (env p1)) as (loc & size & e & -> & Hloc).
  run. rewrite (proj2 (Z.eqb_neq loc 0)) by done. unfold log. run. eexists _, _. split; [done|].
  change (requested p) with (requested (MkPipeline (env p) (unwrittenPages p ++ [setIteration it h]) (events p))).
  rewrite <- Hr. unfold requested. simpl. rewrite filter_app, filter_cons, filter_nil. simpl.
  rewrite fmap_app, length_app. simpl. lia.
Qed.
End stuck.

(** The loop that writes a tuple set has no other exit than success: when the
    sink throws on a fresh page without having taken a row, it asks for page
    after page, without end.  (A stage in the same situation exits with a
    message.) *)
Theorem write_chunk_diverges {E T O : Type} (ops : pipeline_ops E T O) (t : T) :
  (∀ o e, ∃ o' e', writeOut ops t o e = (NotEnoughSpace, (t, o'), e')) →
  (∀ e, ∃ o e', createNewOutputContainer ops e = (Ret o, e')) →
  (∀ e, ∃ loc size e', getNewPage ops e = (Ret (loc, size), e') ∧ loc ≠ 0%Z) →
  ∀ fuel lo (p : pipeline E O), ∃ p', write_chunk ops fuel t lo p = (Undefined, p') ∧
    length (requested p') = length (requested p) + fuel.
Proof.
  intros Hw Hc Hp fuel. induction fuel as [|fuel IH]; intros lo p; [exists p; split; [done|lia]|].
  cbn [write_chunk].
  assert (∃ o e, attempt (match outputSink (myRAM lo) with Some o => mret o | None => in_env (createNewOutputContainer ops) end) p =
    (Ret (Some o), MkPipeline e (unwrittenPages p) (events p))) as (o & e & Ha).
  { unfold attempt, catch, in_env. run. destruct (outputSink (myRAM lo)) as [o|].
    - exists o, (env p). by destruct p.
    - destruct (Hc (env p)) as (o & e & ->). by exists o, e. }
  rewrite M_bind_unfold, Ha. destruct (Hw o e) as (o' & e' & Hwr). rewrite M_bind_unfold. unfold write_container.
  cbn [env]. rewrite Hwr. simpl. set (p1 := MkPipeline _ _ _).
  destruct (next_page_total ops Hc Hp (curIteration lo) (setSink o' (myRAM lo)) p1) as (h & p2 & Hn & Hr).
  rewrite M_bind_unfold, Hn. destruct (IH (Locals h (curIteration lo + 1)) p2) as (p' & -> & Hlen). exists p'. split; [done|].
  rewrite Hlen, Hr. change (requested p1) with (requested p). lia.
Qed.

(** ** A small pipeline

    Tuple sets are lists of numbers, a page has room for two numbers, pages are
    at 1, 2, ..., there is one stage that adds one.  The state is what is left of
    the source and the last page. *)
Definition demo_ops : pipeline_ops (list (list Z) * Z) (list Z) (list Z) := Ops
  (λ '(s, n), match s with [] => (Ret None, (s, n)) | t :: s' => (Ret (Some t), (s', n)) end)
  [λ t e, (Ret (Z.succ <$> t), e)]
  (λ e, (Ret [], e))
  (λ t o e, let k := 2 - length o in
     (if decide (length t ≤ k) then Ret tt else NotEnoughSpace, (drop k t, o ++ take k t), e))
  (λ '(s, n), (Ret (Z.abs n + 1, 64), (s, Z.abs n + 1)))%Z.

Definition demo_running (e : list (list Z) * Z) (cur : option (nat * list Z * list Z)) (ls : list (list Z)) : Prop :=
  e.1 = ls ∧ match cur with Some (_, t, l) => t = l | None => True end.

#[export] Instance demo_laws bound :
  PipelineLaws demo_ops demo_running (λ o l, o = l ∧ length l ≤ 2) (λ o l, o = l) [fmap Z.succ] bound.
Proof.
  split.
  - intros [s n] ls [<- _]. simpl. destruct s as [|l s]; [by split|]. by exists l, s.
  - done.
  - intros [|i] q f t l ls [s n]; [|done]. by intros [= <-] [= <-] [<- ->].
  - intros [s n] cur ls Hr. simpl. split; [split; [done|simpl; lia]|done].
  - intros t o [s n] l0 l ls [-> Hl0] [<- ->] _. simpl. case_decide as Hd.
    + rewrite take_ge by lia. split; [split; [done|rewrite length_app; lia]|done].
    + exists (2 - length l0). split_and!; [lia|done|done].
  - by intros o l [-> _].
  - intros [s n] cur ls Hr. simpl. split; [lia|done].
Qed.

#[export] Instance demo_progress bound :
  PipelineProgress demo_ops demo_running (λ o l, o = l ∧ length l ≤ 2) (λ o l, o = l) [fmap Z.succ] bound.
Proof.
  split; simpl; [by eexists|]. intros t o [s n] l ls t' o' e' [-> _] [<- ->] _. simpl. case_decide as Hd; [done|].
  intros [= <- <- <-]. exists 2. split; [lia|]. by split.
Qed.

Definition demo_input : list (list Z) := [[1; 2; 3]; []; [4; 5; 6; 7; 8]; [9]]%Z.

Lemma Pipeline_writes_rows_witness :
  ∃ p p', run demo_ops 10 10 (MkPipeline (demo_input, 0%Z) [] []) = (Ret tt, p) ∧ destroy demo_ops p = (Ret tt, p') ∧
    released p' = [WrittenBack 5 [10]; WrittenBack 4 [8; 9]; WrittenBack 3 [6; 7]; WrittenBack 2 [4; 5]; WrittenBack 1 [2; 3]]%Z ∧
    ∃ filled cs, released p' ≡ₚ filled ∧ Forall2 (event_holds (λ o l, o = l)) filled cs ∧
      concat cs = [2; 3; 4; 5; 6; 7; 8; 9; 10]%Z.
Proof.
  pose proof (Pipeline_writes_rows demo_ops demo_running (λ o l, o = l ∧ length l ≤ 2) (λ o l, o = l) [fmap Z.succ]
    100 10 10 (demo_input, 0%Z) demo_input (conj eq_refl I)) as H.
  specialize (H ltac:(vm_compute; lia) ltac:(vm_compute; lia) ltac:(repeat constructor; vm_compute; lia)).
  destruct (run demo_ops 10 10 (MkPipeline (demo_input, 0%Z) [] [])) as [r p] eqn:Hr.
  vm_compute in Hr. injection Hr as <- <-. cbv beta iota in H.
  specialize (H ltac:(vm_compute; discriminate)).
  destruct (destroy demo_ops _) as [r p'] eqn:Hd in H |- *. vm_compute in Hd. injection Hd as <- <-.
  destruct H as (_ & filled & cs & H1 & _ & H2 & H3).
  eexists _, _. split; [reflexivity|]. split; [vm_compute; reflexivity|]. split; [reflexivity|].
  exists filled, cs. split; [exact H1|]. split; [exact H2|exact H3].
Defined.

Lemma Pipeline_few_pages_wait_witness :
  ∃ p p', run demo_ops 10 10 (MkPipeline (demo_input ++ demo_input, 0%Z) [] []) = (Ret tt, p) ∧
    released p = [WrittenBack 1 [2; 3]; WrittenBack 2 [4; 5]; WrittenBack 3 [6; 7]; WrittenBack 4 [8; 9]]%Z ∧
    destroy demo_ops p = (Ret tt, p') ∧ released p' = released p ++ reverse (release <$> unwrittenPages p).
Proof.
  pose proof (Pipeline_few_pages_wait demo_ops 10 10 (demo_input ++ demo_input, 0%Z)) as H.
  destruct (run demo_ops 10 10 (MkPipeline (demo_input ++ demo_input, 0%Z) [] [])) as [r p] eqn:Hr.
  vm_compute in Hr. injection Hr as <- <-. destruct H as (_ & _ & _ & H). specialize (H ltac:(vm_compute; discriminate)).
  destruct (destroy demo_ops _) as [r p'] eqn:Hd in H |- *. vm_compute in Hd. injection Hd as <- <-.
  eexists _, _. split; [reflexivity|]. split; [reflexivity|]. split; [vm_compute; reflexivity|]. apply H.
Defined.

(** A sink whose rows are larger than a page. *)
Definition stuck_ops : pipeline_ops (list (list Z) * Z) (list Z) (list Z) := Ops
  (getNextTupleSet demo_ops) [] (λ e, (Ret [], e)) (λ t o e, (NotEnoughSpace, (t, o), e)) (getNewPage demo_ops).

Lemma write_chunk_diverges_witness :
  ∃ p', write_chunk stuck_ops 100 [1%Z] (Locals (Holder None 1 64 0) 0) (MkPipeline ([], 1%Z) [] []) = (Undefined, p') ∧
    length (requested p') = 100.
Proof.
  apply (write_chunk_diverges stuck_ops [1%Z]).
  - intros o e. by exists o, e.
  - intros e. by exists [], e.
  - intros [s n]. exists (Z.abs n + 1)%Z, 64%Z, (s, Z.abs n + 1)%Z. split; [reflexivity|]. lia.
Defined.
