(* ===== verification/AggregationQuery.v ===== *)
(** * AggregationQuery: an aggregation from the tuples to the result

    The sinks of [Aggregation] in a [Pipeline], and the three steps of a
    distributed aggregation put together: the result of every partition is the
    part of the reference aggregate that its keys make up. *)

From S2P Require Import Prelude HashProbe PairArray Aggregation AggregateSink AggregateCombine Pipeline.

(** ** A pipeline that ends in a shuffle sink *)

Section shuffle.
Context {RS : RecordSize} {K V : Type} `{Countable K} (hash_impl : K → Z) (dV : V) (plus : V → V → V).
(** The number of partitions. *)
Context (n : Z) (n_pos : (0 < n)%Z).
Implicit Types (m : gmap K V) (o : list (PairArray K V)).

(** The partition of a key. *)
Definition shuffle_index (h : Z) : nat := Z.to_nat (h mod n).

(** The container has the aggregate [m]; it can be added to. *)
Definition shuffle_holds m o : Prop :=
  container_holds hash_impl (λ o : list (PairArray K V), length o = Z.to_nat n) id shuffle_index m o.
Definition shuffle_open o : Prop := container_open id 4 o.

#[local] Instance shuffle_partitioned :
  Partitioned (ShuffleSink_which n) (λ o : list (PairArray K V), length o = Z.to_nat n) id shuffle_index.
Proof. exact (ShuffleSink_partitioned n n_pos). Qed.

Lemma shuffle_write_ok sps (s : sink K V (list (PairArray K V))) m :
  length (keyColumn s) = length (valueColumn s) → (∀ j, steady (sps j)) →
  shuffle_holds m (container s) → shuffle_open (container s) →
  (Z.of_nat (size m + length (keyColumn s)) ≤ max_entries)%Z →
  ∃ s' p (ok : bool), ShuffleSink_writeOut hash_impl dV plus n sps s = (if ok then Ret tt else NotEnoughSpace, s') ∧
    length (keyColumn s') = length (valueColumn s') ∧
    shuffle_holds (aggregate_onto plus m (take p (tuples s))) (container s') ∧
    if ok then p = length (keyColumn s) ∧ tuples s' = tuples s ∧ shuffle_open (container s')
    else tuples s' = drop p (tuples s) ∧ p < length (keyColumn s) ∧ ¬ ample (sps p).
Proof. intros. eapply (write_out_ok hash_impl dV plus (ShuffleSink_which n) _ id shuffle_index 4); try done. slots_lia. Qed.

Lemma fresh_maps k : ∃ o : list (PairArray K V), mapM (λ _ : nat, Map_new 4) (seq k (Z.to_nat n)) = Ret o ∧ length o = Z.to_nat n ∧
  ∀ i t, o !! i = Some t → wf hash_impl t ∧ counted t ∧ to_map t = ∅ ∧ (numSlots t ≤ 4)%Z.
Proof.
  destruct (Map_new_fresh (RS:=RS) (V:=V) hash_impl 4 ltac:(slots_lia)) as (t & Ht & Hwf & Hc & Hm & Hn).
  generalize (Z.to_nat n). intros j. revert k. induction j as [|j IH]; intros k; [by exists []|].
  destruct (IH (S k)) as (o & Ho & Hl & Hall). exists (t :: o). cbn [seq mapM]. rewrite Ho, Ht. split; [done|].
  split; [by simpl; rewrite Hl|]. intros [|i] u Hu; [|by eapply Hall]. injection Hu as <-. split_and!; done.
Qed.

(** A fresh container. *)
Lemma shuffle_container_ok :
  ∃ o, ShuffleSink_createNewOutputContainer n true = Ret o ∧ shuffle_holds ∅ o ∧ shuffle_open o.
Proof.
  destruct (fresh_maps 0) as (o & Ho & Hl & Hall). exists o. split; [done|]. split.
  - split; [done|]. intros i t Ht. destruct (Hall i t Ht) as (Hwf & _ & Hm & _). split; [done|].
    rewrite Hm. apply map_eq. intros k. rewrite part_lookup, lookup_empty. by case_decide.
  - intros i t Ht. destruct (Hall i t Ht) as (_ & Hc & _ & Hn). split; [done|lia].
Qed.

(** *** The sink of a pipeline

    The pages are numbered as they are taken; [answers] are those of the
    allocator for the tuples of a page, by their number on the page.  A page
    with a container has the answers still to come. *)
Record shuffle_page := MkShufflePage {
  sp_maps : list (PairArray K V);
  sp_answers : nat → tuple_space V
}.

Context (answers : nat → nat → tuple_space V).

(** A pipeline with any source and stages, whose answers may depend on the number
    of pages taken. *)
Context {Src : Type} (next : M Src (option (list K * list V))) (executors : list (list K * list V → nat → outcome (list K * list V)))
  (fs : list (list (K * V) → list (K * V))) (source_is : Src → list (list (K * V)) → Prop).

Definition shuffle_next : M (Src * nat) (option (list K * list V)) := λ '(s, e),
  let '(r, s') := next s in (r, (s', e)).

Definition shuffle_create : M (Src * nat) shuffle_page := λ '(s, e),
  (o ← ShuffleSink_createNewOutputContainer n true; mret (MkShufflePage o (answers e)), (s, e)).

Definition shuffle_write (t : list K * list V) (o : shuffle_page) (e : Src * nat) :
    outcome unit * ((list K * list V) * shuffle_page) * (Src * nat) :=
  let '(r, s) := ShuffleSink_writeOut hash_impl dV plus n (sp_answers o) (Sink t.1 t.2 (sp_maps o)) in
  (r, ((keyColumn s, valueColumn s), MkShufflePage (container s) (λ j, sp_answers o (length t.1 + j))), e).

Definition shuffle_new_page : M (Src * nat) (Z * Z) := λ '(s, e), (Ret (Z.of_nat e + 1, 0)%Z, (s, S e)).

Definition shuffle_ops : pipeline_ops (Src * nat) (list K * list V) shuffle_page :=
  Ops shuffle_next ((λ q t '(s, e), (q t e, (s, e))) <$> executors) shuffle_create shuffle_write shuffle_new_page.

(** Two columns of the same length. *)
Definition columns_are (t : list K * list V) (l : list (K * V)) : Prop :=
  length t.1 = length t.2 ∧ zip t.1 t.2 = l.

Definition shuffle_page_holds (o : shuffle_page) (l : list (K * V)) : Prop :=
  shuffle_holds (aggregate plus l) (sp_maps o).

Definition shuffle_page_open (o : shuffle_page) (l : list (K * V)) : Prop :=
  shuffle_page_holds o l ∧ shuffle_open (sp_maps o) ∧ (∀ j, steady (sp_answers o j)) ∧
  (l = [] → ample (sp_answers o 0)).

Definition shuffle_running (e : Src * nat) (cur : option (nat * (list K * list V) * list (K * V))) (ls : list (list (K * V))) : Prop :=
  source_is e.1 ls ∧ match cur with Some (_, t, l) => columns_are t l | None => True end.

Context (bound : nat).
Hypothesis bound_ok : (Z.of_nat bound ≤ max_entries)%Z.

Hypothesis answers_steady : ∀ i j, steady (answers i j).
Hypothesis answers_first : ∀ i, ample (answers i 0).
Hypothesis next_ok : ∀ s ls, source_is s ls →
  match next s with
  | (Ret (Some t), s') => ∃ l ls', ls = l :: ls' ∧ columns_are t l ∧ source_is s' ls'
  | (Ret None, s') => ls = [] ∧ source_is s' []
  | (NotEnoughSpace, s') => source_is s' ls
  | _ => False
  end.
Hypothesis executors_ok : Forall2 (λ q f, ∀ t l e, columns_are t l →
  match q t e with Ret t' => columns_are t' (f l) | NotEnoughSpace => True | _ => False end) executors fs.

Lemma shuffle_write_cases t (o : shuffle_page) e l0 l :
  shuffle_page_open o l0 → columns_are t l → length l0 + length l ≤ bound →
  match shuffle_write t o e with
  | (Ret _, (_, o'), e') => e' = e ∧ shuffle_page_open o' (l0 ++ l)
  | (NotEnoughSpace, (t', o'), e') => e' = e ∧ ∃ p, p ≤ length l ∧ columns_are t' (drop p l) ∧
      shuffle_page_holds o' (l0 ++ take p l) ∧ (l0 = [] → 0 < p)
  | _ => False
  end.
Proof.
  intros (Hh & Hop & Hst & Hfirst) [Hlen Hl] Hb. unfold shuffle_write.
  assert (length t.1 = length l) as Hll by (rewrite <- Hl, length_zip_with; lia).
  destruct (shuffle_write_ok (sp_answers o) (Sink t.1 t.2 (sp_maps o)) (aggregate plus l0) Hlen Hst Hh Hop)
    as (s' & p & ok & -> & Hlen' & Hh' & Hok).
  { simpl. pose proof (size_aggregate_onto plus ∅ l0) as Hs. rewrite map_size_empty in Hs. unfold aggregate in *. lia. }
  unfold tuples in *. simpl in *. rewrite Hl in *.
  assert (∀ q, aggregate_onto plus (aggregate plus l0) q = aggregate plus (l0 ++ q)) as Hagg.
  { intros q. unfold aggregate, aggregate_onto. by rewrite foldl_app. }
  rewrite Hagg in Hh'. destruct ok.
  - destruct Hok as (-> & _ & Hop'). rewrite take_ge in Hh' by lia. split; [done|]. split; [exact Hh'|]. split; [exact Hop'|].
    split; [intros j; apply Hst|]. intros Hnil. simpl. apply app_eq_nil in Hnil as [-> ->]. simpl in Hll. rewrite Hll.
    simpl. by apply Hfirst.
  - destruct Hok as (Ht & Hp & Hpos). split; [done|]. exists p. split; [lia|]. split; [by split|]. split; [exact Hh'|].
    intros ->. destruct p; [|lia]. destruct Hpos. by apply Hfirst.
Qed.

#[export] Instance shuffle_laws :
  PipelineLaws shuffle_ops shuffle_running shuffle_page_open shuffle_page_holds fs bound.
Proof using answers_first answers_steady bound_ok executors_ok n_pos next_ok.
  split.
  - intros [s e] ls [Hs _]. simpl in *. pose proof (next_ok s ls Hs) as Hn.
    destruct (next s) as [[[t|]| | |] s']; try done.
    + destruct Hn as (l & ls' & -> & Ht & Hs'). by exists l, ls'.
    + by destruct Hn.
  - simpl. rewrite length_fmap. by eapply Forall2_length.
  - intros i q f t l ls [s e] Hq Hf [Hs Ht]. simpl in *. rewrite list_lookup_fmap in Hq.
    destruct (executors !! i) as [q0|] eqn:Hq0; [|done]. injection Hq as <-.
    pose proof (Forall2_lookup_lr _ _ _ _ _ _ executors_ok Hq0 Hf t l e Ht) as Hr. by destruct (q0 t e).
  - intros [s e] cur ls Hr. cbn [createNewOutputContainer shuffle_ops shuffle_create].
    destruct shuffle_container_ok as (o & -> & Hh & Hop). simpl. split; [|done].
    split; [exact Hh|]. split; [exact Hop|]. split; [intros j; apply answers_steady|]. intros _. apply answers_first.
  - intros t o e l0 l ls Ho [Hs Ht] Hb. pose proof (shuffle_write_cases t o e l0 l Ho Ht Hb) as Hw. simpl.
    destruct (shuffle_write t o e) as [[[]  [t' o']] e']; try done.
    + by destruct Hw as [-> Hw].
    + destruct Hw as (-> & p & ? & ? & ? & _). by exists p.
  - by intros o l [Hh _].
  - intros [s e] cur ls Hr. simpl. split; [lia|done].
Qed.

(** The pipeline exits only because the source or an executor runs out of space
    on a fresh page. *)
Lemma shuffle_exits : no_room_when_fresh shuffle_ops shuffle_running →
  (∃ s ls s', source_is s ls ∧ next s = (NotEnoughSpace, s')) ∨
  (∃ q t l page, q ∈ executors ∧ columns_are t l ∧ q t page = NotEnoughSpace).
Proof.
  intros (e0 & loc & size & e1 & o & [s e] & _ & _ & [(ls & e' & [Hs _] & Hn)|(i & f & t & l & ls & e' & Hf & [_ Ht] & Hn)]); simpl in *.
  - left. destruct (next s) as [r s'] eqn:Hs'. injection Hn as -> _. by exists s, ls, s'.
  - right. rewrite list_lookup_fmap in Hf. destruct (executors !! i) as [q|] eqn:Hq; [|done]. simplify_eq/=.
    exists q, t, l, e. split_and!; [by eapply list_elem_of_lookup_2|done|]. congruence.
Qed.

#[export] Instance shuffle_progress :
  PipelineProgress shuffle_ops shuffle_running shuffle_page_open shuffle_page_holds fs bound.
Proof using bound_ok n_pos.
  split.
  - intros [s e]. cbn [createNewOutputContainer shuffle_ops shuffle_create].
    destruct shuffle_container_ok as (o & -> & _). by eexists.
  - intros t o e l ls t' o' e' Ho [Hs Ht] Hb Hw. pose proof (shuffle_write_cases t o e [] l Ho Ht Hb) as Hc.
    simpl in Hw. rewrite Hw in Hc. destruct Hc as (-> & p & Hp & Ht' & Hh & Hpos). specialize (Hpos eq_refl).
    exists p. split; [lia|]. by split.
Qed.
End shuffle.

(** ** What a shuffling pipeline leaves on its pages *)

Section written.
Context {RS : RecordSize} {K V : Type} `{Countable K} (hash_impl : K → Z) (dV : V) (plus : V → V → V) (n : Z).

(** The pages hold the aggregates of the rows, spread over the pages in any
    way. *)
Definition pages_hold (pages : list (list (PairArray K V))) (rows : list (K * V)) : Prop :=
  ∃ cs, Forall2 (λ page c, shuffle_holds hash_impl n (aggregate plus c) page) pages cs ∧ concat cs ≡ₚ rows.

(** The pages that a pipeline has written back. *)
Definition written_page (ev : page_event (shuffle_page (K:=K) (V:=V))) : option (list (PairArray K V)) :=
  match ev with WrittenBack _ o => Some (sp_maps o) | _ => None end.
Definition written {E} (p : pipeline E (shuffle_page (K:=K) (V:=V))) : list (list (PairArray K V)) :=
  omap written_page (events p).

Lemma written_released {E} (p : pipeline E (shuffle_page (K:=K) (V:=V))) : written p = omap written_page (released p).
Proof.
  unfold written, released. induction (events p) as [|ev evs IH]; [done|]. rewrite filter_cons.
  destruct ev; [exact IH| |exact IH]. simpl. exact (f_equal (cons _) IH).
Qed.

Lemma events_hold evs cs :
  Forall2 (event_holds (shuffle_page_holds hash_impl plus n)) evs cs → pages_hold (omap written_page evs) (concat cs).
Proof.
  induction 1 as [|ev c evs cs Hev _ (ds & Hds & Hp)]; [by exists []|]. destruct ev as [|loc o|loc]; simpl in *; [done| |].
  - exists (c :: ds). split; [by constructor|]. simpl. by rewrite Hp.
  - subst c. by exists ds.
Qed.

Lemma pages_hold_permutation pages pages' rows :
  pages ≡ₚ pages' → pages_hold pages rows → pages_hold pages' rows.
Proof.
  intros Hp (cs & Hcs & Hr). destruct (Permutation_Forall2 Hp Hcs) as (cs' & Hp' & Hcs').
  exists cs'. split; [done|]. rewrite <- Hr. by rewrite Hp'.
Qed.

(** The map of a partition on a page. *)
Definition partition_map (i : nat) (page : list (PairArray K V)) : gmap K V :=
  match page !! i with Some t => to_map t | None => ∅ end.

Lemma pages_hold_total `{!Assoc (=) plus} `{!Comm (=) plus} pages rows i :
  i < Z.to_nat n → pages_hold pages rows →
  combine_all plus (partition_map i <$> pages) = part (key_index hash_impl (shuffle_index n)) i (aggregate plus rows).
Proof.
  intros Hi (cs & Hcs & Hr). rewrite <- (aggregate_permutation plus _ _ Hr), aggregate_concat, part_combine_all by done.
  f_equal. clear Hr. induction Hcs as [|page c pages cs [Hlen Hall] _ IH]; [done|]. simpl. f_equal; [|done].
  destruct (lookup_lt_is_Some_2 page i) as [t Ht]; [lia|]. unfold partition_map. rewrite Ht. by apply Hall.
Qed.
End written.

(** ** From the pages to the result of a partition *)

Section query.
Context {RS : RecordSize} {K V : Type} `{Countable K} (hash_impl : K → Z) (dV : V) (plus : V → V → V) `{!Assoc (=) plus} `{!Comm (=) plus}.
Context (n : Z) (n_pos : (0 < n)%Z).
Local Abbreviation pages_hold := (pages_hold hash_impl plus n).
Local Abbreviation key_part := (part (V:=V) (key_index hash_impl (shuffle_index n))).

Lemma pages_hold_input partitions (pages : list (list (PairArray K V))) rows page :
  (∀ id, id ∈ partitions → id < Z.to_nat n) → pages_hold pages rows → page ∈ pages →
  input_page_ok hash_impl partitions page.
Proof.
  intros Hids (cs & Hcs & _) [i Hi]%list_elem_of_lookup id Hid. destruct (Forall2_lookup_l _ _ _ _ _ Hcs Hi) as (c & _ & Hlen & Hall).
  destruct (lookup_lt_is_Some_2 page id) as [t Ht]; [rewrite Hlen; by apply Hids|]. exists t. split; [done|]. by apply (Hall id).
Qed.

Lemma page_le_pages partitions (pages : list (list (PairArray K V))) page :
  page ∈ pages → length (page_pairs page 0 partitions) ≤ pages_length partitions pages.
Proof. intros Hp. induction Hp as [page pages|page page' pages _ IH]; unfold pages_length in *; simpl; lia. Qed.

(** The combiner of one node. *)
Lemma node_combines fits sps fuel partitions pages rows :
  answers_ok fits sps → partitions ≠ [] → (∀ id, id ∈ partitions → id < Z.to_nat n) → pages_hold pages rows →
  2 * pages_length partitions pages + 2 ≤ fuel → (Z.of_nat (pages_length partitions pages) ≤ max_entries)%Z →
  ∃ sent, run_combiner hash_impl dV plus fits sps fuel partitions pages = Ret sent ∧
    sent_ok hash_impl (length partitions) sent ∧
    ∀ i id, partitions !! i = Some id → sent_total plus sent i = key_part id (aggregate plus rows).
Proof.
  intros Han Hne Hids Hp Hfuel Hsize.
  destruct (run_combiner_ok hash_impl dV plus fits sps fuel partitions pages Han Hne) as (sent & Hrun & Hok & Htot); [|done|].
  { intros page Hpage. split; [by eapply pages_hold_input|]. pose proof (page_le_pages partitions pages page Hpage). lia. }
  exists sent. split; [done|]. split; [done|]. intros i id Hi. rewrite (Htot i id Hi).
  apply (pages_hold_total hash_impl plus n pages rows id); [|done]. apply Hids. by eapply list_elem_of_lookup_2.
Qed.

Lemma combine_all_permutation (ms ms' : list (gmap K V)) : ms ≡ₚ ms' → combine_all plus ms = combine_all plus ms'.
Proof.
  induction 1 as [|x l l' _ IH|x y l|l1 l2 l3 _ IH1 _ IH2]; simpl; [done|by rewrite IH| |congruence].
  rewrite !(combine_assoc plus). f_equal. by apply combine_comm.
Qed.

Lemma of_partition_none id (objects : list (AggregationMap (K:=K) (V:=V))) :
  (∀ m, m ∈ objects → hashPartitionId m ≠ id) → of_partition id objects = [].
Proof.
  induction objects as [|m objects IH]; intros Hne; [done|]. rewrite of_partition_cons, decide_False by (apply Hne; by left).
  apply IH. intros x Hx. apply Hne. by right.
Qed.

(** On a page sent, the map of partition [i] is at position [i]. *)
Lemma of_partition_page k i (out : list (AggregationMap (K:=K) (V:=V))) :
  (∀ j x, out !! j = Some x → wf hash_impl (aggMap x) ∧ hashPartitionId x = Z.of_nat (k + j)) →
  combine_all plus (of_partition (Z.of_nat (k + i)) out) = page_map i out.
Proof.
  revert k i. induction out as [|x out IH]; intros k i Hout; [by unfold page_map; rewrite lookup_nil|].
  destruct (Hout 0 x eq_refl) as [_ Hx]. rewrite of_partition_cons, Hx.
  assert (∀ j y, out !! j = Some y → wf hash_impl (aggMap y) ∧ hashPartitionId y = Z.of_nat (S k + j)) as Hout'.
  { intros j y Hy. destruct (Hout (S j) y Hy) as [? ->]. split; [done|lia]. }
  destruct i as [|i].
  - rewrite decide_True by lia. rewrite of_partition_none; [apply combine_empty_r|].
    intros m [j Hj]%list_elem_of_lookup. destruct (Hout' j m Hj) as [_ ->]. lia.
  - rewrite decide_False by lia. rewrite <- Nat.add_succ_comm. by rewrite (IH (S k) i Hout').
Qed.

Lemma partition_total_sent np i (sent : list (list (AggregationMap (K:=K) (V:=V)))) :
  sent_ok hash_impl np sent → partition_total plus (Z.of_nat i) (concat sent) = sent_total plus sent i.
Proof.
  unfold partition_total, sent_total. induction sent as [|out sent IH]; intros Hok; [done|]. simpl.
  rewrite of_partition_app, combine_all_app, IH by (try done; intros o Ho; apply Hok; by right).
  f_equal. apply (of_partition_page 0 i). intros j x Hx. apply (Hok out ltac:(by left) ) in Hx. exact Hx.
Qed.

(** The nodes combine their pages one by one. *)
Definition combine_nodes (fits : nat → nat → bool) (sps : nat → nat → nat → tuple_space V) (fuel : nat) (partitions : list nat)
    (nodes : list (list (list (PairArray K V)))) : list (outcome (list (list AggregationMap))) :=
  imap (λ k pages, run_combiner hash_impl dV plus (fits k) (sps k) fuel partitions pages) nodes.

Lemma nodes_combine fits sps fuel partitions nodes rows :
  (∀ k, answers_ok (fits k) (sps k)) → partitions ≠ [] → (∀ id, id ∈ partitions → id < Z.to_nat n) →
  (∀ pages, pages ∈ nodes → 2 * pages_length partitions pages + 2 ≤ fuel ∧ (Z.of_nat (pages_length partitions pages) ≤ max_entries)%Z) →
  Forall2 pages_hold nodes rows →
  ∃ sents, combine_nodes fits sps fuel partitions nodes = Ret <$> sents ∧
    sent_ok hash_impl (length partitions) (concat sents) ∧
    ∀ i id, partitions !! i = Some id → sent_total plus (concat sents) i = key_part id (aggregate plus (concat rows)).
Proof using H dV plus Assoc0 Comm0.
  intros Han Hne Hids Hsize Hh. unfold combine_nodes. revert fits sps Han.
  induction Hh as [|pages rs nodes rows Hp _ IH]; intros fits sps Han.
  { exists []. split; [done|]. split; [by intros o Ho%elem_of_nil|]. intros i id _. unfold sent_total, aggregate. simpl.
    apply map_eq. intros k. rewrite part_lookup. by case_decide. }
  destruct (Hsize pages ltac:(by left)) as [Hfuel Hs].
  destruct (node_combines (fits 0) (sps 0) fuel partitions pages rs (Han 0) Hne Hids Hp Hfuel Hs) as (sent & Hrun & Hok & Htot).
  destruct (IH ltac:(intros q Hq; apply Hsize; by right) (λ k, fits (S k)) (λ k, sps (S k)) (λ k, Han (S k))) as (sents & Hruns & Hoks & Htots).
  exists (sent :: sents). rewrite imap_cons. split; [|split].
  - rewrite fmap_cons, Hrun. f_equal. exact Hruns.
  - intros out Hout. simpl in Hout. apply elem_of_app in Hout as [?|?]; [by apply Hok|by apply Hoks].
  - intros i id Hi. simpl. unfold sent_total in *. rewrite fmap_app, combine_all_app, (Htot i id Hi), (Htots i id Hi) by done.
    by rewrite <- part_combine, <- aggregate_app.
Qed.
End query.

(** ** Properties *)

(** The result that the thread of a partition leaves in memory. *)
Definition result_map {K V} `{Countable K} (o : option (PairArray K V)) : gmap K V :=
  match o with Some t => to_map t | None => ∅ end.

(** [C30] [ShuffleSink::writeOut] adds tuples from the front; when one does not fit,
    exactly those added are erased from the tuple set and the exception is passed
    on, so that the rest can be written to another page.  Assumed for every tuple:
    moving the entries of a doubled map and copying the old value of a key to a
    local and back fit ([steady]); when such a copy throws, nothing is erased
    ([ShuffleSink_copy_counts_twice]).  The container has its maps, and they and the
    tuples have at most [max_entries] keys. *)
Theorem ShuffleSink_writeOut_spec {RS : RecordSize} {K V} `{Countable K} (hash_impl : K → Z) (dV : V) (plus : V → V → V) (n : Z)
    (sps : nat → tuple_space V) (s : sink K V (list (PairArray K V))) (m : gmap K V) :
  (0 < n)%Z → length (keyColumn s) = length (valueColumn s) → (∀ j, steady (sps j)) →
  shuffle_holds hash_impl n m (container s) → shuffle_open (container s) →
  (Z.of_nat (size m + length (keyColumn s)) ≤ max_entries)%Z →
  match ShuffleSink_writeOut hash_impl dV plus n sps s with
  | (Ret _, s') => shuffle_holds hash_impl n (aggregate_onto plus m (tuples s)) (container s')
  | (NotEnoughSpace, s') => ∃ p, p < length (keyColumn s) ∧ ¬ ample (sps p) ∧
      tuples s' = drop p (tuples s) ∧ shuffle_holds hash_impl n (aggregate_onto plus m (take p (tuples s))) (container s')
  | _ => False
  end.
Proof.
  intros Hn Hlen Hst Hh Ho Hsize.
  destruct (shuffle_write_ok hash_impl dV plus n Hn sps s m Hlen Hst Hh Ho Hsize) as (s' & p & ok & -> & _ & Hh' & Hok).
  destruct ok.
  - destruct Hok as (-> & _ & _). by rewrite take_ge in Hh' by (unfold tuples; rewrite length_zip_with; lia).
  - destruct Hok as (? & ? & ?). by exists p.
Qed.

(** [C10] The pages that a pipeline with a shuffle sink writes back hold, partition by
    partition, the aggregate of all rows of its source: no row is lost or counted
    twice, at whichever rows new entries and doubled tables found no room.
    Assumed of the allocator: moving the entries of a doubled map and copying the
    old value of a key to a local and back always fit ([steady]; otherwise a row
    is counted twice, [ShuffleSink_copy_counts_twice]), and a fresh page takes its
    first pair ([ample]); there are at most [max_entries] rows and fewer than about
    10^9 pages; the source and the executors keep their part of [PipelineLaws].
    The pipeline exits only if the source or an executor throws. *)
Theorem shuffle_pipeline_aggregates {RS : RecordSize} {K V} `{Countable K} (hash_impl : K → Z) (dV : V) (plus : V → V → V)
    `{!Assoc (=) plus} `{!Comm (=) plus} (n : Z) (answers : nat → nat → tuple_space V)
    {Src : Type} (next : M Src (option (list K * list V))) (executors : list (list K * list V → nat → outcome (list K * list V)))
    (fs : list (list (K * V) → list (K * V))) (source_is : Src → list (list (K * V)) → Prop)
    (pages chunks : nat) (s : Src) (ls : list (list (K * V))) :
  (0 < n)%Z → (∀ i j, steady (answers i j)) → (∀ i, ample (answers i 0)) →
  (∀ s ls, source_is s ls →
    match next s with
    | (Ret (Some t), s') => ∃ l ls', ls = l :: ls' ∧ columns_are t l ∧ source_is s' ls'
    | (Ret None, s') => ls = [] ∧ source_is s' []
    | (NotEnoughSpace, s') => source_is s' ls
    | _ => False
    end) →
  Forall2 (λ q f, ∀ t l e, columns_are t l →
    match q t e with Ret t' => columns_are t' (f l) | NotEnoughSpace => True | _ => False end) executors fs →
  source_is s ls → (Z.of_nat (length (staged_rows fs ls)) ≤ max_entries)%Z →
  length ls < chunks → Forall (λ l, length (staged fs l) + 2 ≤ pages) ls →
  let ops := shuffle_ops hash_impl dV plus n answers next executors in
  match run ops pages chunks (MkPipeline (s, 0) [] []) with
  | (Ret _, p) =>
      (Z.of_nat (length (requested p)) + DELAY_VALUE ≤ ALL_ITERATIONS)%Z →
      match destroy ops p with
      | (Ret _, p') => pages_hold hash_impl plus n (written p') (staged_rows fs ls) ∧
          ∀ i, i < Z.to_nat n → combine_all plus (partition_map i <$> written p') =
            part (key_index hash_impl (shuffle_index n)) i (aggregate plus (staged_rows fs ls))
      | _ => False
      end
  | (Exit _, _) =>
      (∃ s ls s', source_is s ls ∧ next s = (NotEnoughSpace, s')) ∨
      (∃ q t l page, q ∈ executors ∧ columns_are t l ∧ q t page = NotEnoughSpace)
  | _ => False
  end.
Proof.
  intros Hn Hst Hfirst Hnext Hexec Hs Hsize Hchunks Hpages ops.
  pose proof (shuffle_laws hash_impl dV plus n Hn answers next executors fs source_is _ Hsize Hst Hfirst Hnext Hexec) as Hlaws.
  pose proof (shuffle_progress hash_impl dV plus n Hn answers next executors fs source_is _ Hsize) as Hprog.
  pose proof (run_destroy_ok ops _ _ _ _ _ pages chunks (s, 0) ls (conj Hs I) (le_n _) Hchunks Hpages) as Hrun.
  destruct (run _ _ _ _) as [[[]| | |] p]; try done; [|by eapply shuffle_exits]. intros Hreq. specialize (Hrun Hreq).
  destruct (destroy _ _) as [[[]| | |] p']; try done. destruct Hrun as (_ & filled & cs & Hrel & _ & Hcs & Hrows).
  assert (pages_hold hash_impl plus n (written p') (staged_rows fs ls)) as Hh.
  { rewrite written_released, <- Hrows. eapply pages_hold_permutation; [|by eapply events_hold].
    symmetry. by rewrite Hrel. }
  split; [done|]. intros i Hi. by apply pages_hold_total.
Qed.

(** A node that combines the pages of its pipelines for some partitions sends
    pages with a map per partition, which add up to the part of the aggregate of
    its rows; every full page is followed by one that takes what is left. *)
Theorem run_combiner_spec {RS : RecordSize} {K V} `{Countable K} (hash_impl : K → Z) (dV : V) (plus : V → V → V)
    `{!Assoc (=) plus} `{!Comm (=) plus} (n : Z) (fits : nat → bool) (sps : nat → nat → tuple_space V) (fuel : nat)
    (partitions : list nat) (pages : list (list (PairArray K V))) (rows : list (K * V)) :
  answers_ok fits sps → partitions ≠ [] → (∀ id, id ∈ partitions → id < Z.to_nat n) → pages_hold hash_impl plus n pages rows →
  2 * pages_length partitions pages + 2 ≤ fuel → (Z.of_nat (pages_length partitions pages) ≤ max_entries)%Z →
  ∃ sent, run_combiner hash_impl dV plus fits sps fuel partitions pages = Ret sent ∧
    sent_ok hash_impl (length partitions) sent ∧
    ∀ i id, partitions !! i = Some id →
      sent_total plus sent i = part (key_index hash_impl (shuffle_index n)) id (aggregate plus rows).
Proof. apply node_combines; done. Qed.

(** [C1] A distributed aggregation is equivalent to aggregating all rows, as long as
    the allocator keeps to what follows.  The nodes combine their pages for the
    partitions of one node, the pages they send arrive there in any order, and
    the thread of the [i]-th of these partitions is left with exactly the keys of
    that partition, each with the sum of its values over the rows of all nodes.
    A combiner may fill any number of pages, but moving the entries of a doubled
    map and copying a value to a local always fit, and a fresh page has room for
    its maps and its first pair ([answers_ok]); the output page of the aggregator
    never gets full ([steady] and [ample] for every pair): after a full page it
    works on a null handle ([aggregator_after_full_page]).  No node and no
    aggregator is given more than [max_entries] pairs, and addition is
    associative and commutative. *)
Theorem distributed_aggregation {RS : RecordSize} {K V} `{Countable K} (hash_impl : K → Z) (dV : V) (plus : V → V → V)
    `{!Assoc (=) plus} `{!Comm (=) plus} (n : Z) (fits : nat → nat → bool) (sps : nat → nat → nat → tuple_space V) (fuel : nat)
    (partitions : list nat) (nodes : list (list (list (PairArray K V)))) (rows : list (list (K * V))) :
  (∀ k, answers_ok (fits k) (sps k)) → partitions ≠ [] → (∀ id, id ∈ partitions → id < Z.to_nat n) →
  (∀ pages, pages ∈ nodes → 2 * pages_length partitions pages + 2 ≤ fuel ∧ (Z.of_nat (pages_length partitions pages) ≤ max_entries)%Z) →
  Forall2 (pages_hold hash_impl plus n) nodes rows →
  ∃ sents, combine_nodes hash_impl dV plus fits sps fuel partitions nodes = Ret <$> sents ∧
    ∀ arrivals i id agg_sps, arrivals ≡ₚ concat sents → partitions !! i = Some id →
      (∀ m j, steady (agg_sps m j) ∧ ample (agg_sps m j)) →
      (Z.of_nat (objects_size (concat arrivals)) ≤ max_entries)%Z →
      ∃ o, run_aggregator hash_impl dV plus agg_sps (Z.of_nat i) arrivals = Ret o ∧
        result_map o = part (key_index hash_impl (shuffle_index n)) id (aggregate plus (concat rows)).
Proof.
  intros Han Hne Hids Hsize Hh.
  destruct (nodes_combine hash_impl dV plus n fits sps fuel partitions nodes rows Han Hne Hids Hsize Hh) as (sents & Hrun & Hok & Htot).
  exists sents. split; [done|]. intros arrivals i id agg_sps Harr Hi Hsps Hobj.
  assert (sent_ok hash_impl (length partitions) arrivals) as Hoka.
  { intros out Hout. apply Hok. by rewrite <- Harr. }
  destruct (run_aggregator_ok hash_impl dV plus agg_sps Hsps (Z.of_nat i) arrivals) as (o & Hro & Ho); [|done|].
  { intros page m Hpage [j Hj]%list_elem_of_lookup. by apply (Hoka page Hpage) in Hj as [? _]. }
  exists o. split; [done|]. rewrite <- (Htot i id Hi).
  assert (sent_total plus (concat sents) i = sent_total plus arrivals i) as ->.
  { apply combine_all_permutation; [done..|]. by rewrite Harr. }
  rewrite <- (partition_total_sent hash_impl plus (length partitions) i arrivals Hoka). destruct o as [t|]; [apply Ho|].
  unfold partition_total. by rewrite Ho.
Qed.

(** The output objects made from a map are its entries, each exactly once,
    however they are spread over the pages. *)
Theorem agg_out_entries {K V} `{Countable K} (hash_impl : K → Z) (fits : nat → nat → bool) (t : PairArray K V) (fuel : nat) :
  wf hash_impl t → (∀ page, fits page 0 = true) → Z.to_nat (numSlots t) < fuel →
  ∃ pages, agg_out fits fuel 0 (AggOutProcessor_loadOutputPage (AggOutProcessor_loadInputPage t (MkAggOut false PairArray_empty iter_end [] 0))) = Ret pages ∧
    concat pages ≡ₚ map_to_list (to_map t).
Proof.
  intros Hwf Hfits Hfuel. destruct (iter_begin_ok hash_impl t Hwf) as [Hb Ha]. pose proof (entries_length hash_impl t Hwf).
  destruct (agg_out_ok hash_impl fits fuel 0 (AggOutProcessor_loadOutputPage (AggOutProcessor_loadInputPage t (MkAggOut false PairArray_empty iter_end [] 0))))
    as (pages & -> & Hp); simpl; try done; [rewrite Ha; lia|].
  exists pages. split; [done|]. rewrite Hp. simpl. rewrite Ha. by apply (entries_map hash_impl).
Qed.

(** The thread of a partition gives its output page up when it is full, and
    leaves only the loop over the maps of the current page: when a later page has
    a map of the partition with an entry, the thread writes through the null
    handle [outputData]. *)
Theorem aggregator_after_full_page {RS : RecordSize} {K V} `{Countable K} (hash_impl : K → Z) (dV : V) (plus : V → V → V)
    (sps : nat → nat → tuple_space V) (j : nat) (m : AggregationMap (K:=K) (V:=V)) objects pages a left :
  ap_finalized a = false → ap_outputData a = None → hashPartitionId m = ap_id a →
  wf hash_impl (aggMap m) → to_map (aggMap m) ≠ ∅ →
  (aggregate_pages hash_impl dV plus sps j ((m :: objects) :: pages) (a, GivenUp left)).1 = Undefined.
Proof.
  intros Hfin Hout Hid Hwf Hne. destruct (iter_begin_ok hash_impl (aggMap m) Hwf) as [Hok Ha].
  assert (it_done (iter_begin (aggMap m)) = false) as Hd.
  { destruct (it_done _) eqn:Hd; [|done]. destruct Hne. apply map_to_list_empty_iff, Permutation_nil_r.
    by rewrite <- (entries_map hash_impl _ Hwf), <- Ha, (io_done _ _ Hok Hd). }
  destruct (iter_step hash_impl _ _ Hwf Hok Hd) as ([k v] & Hk & _).
  assert (AggregationProcessor_loadInputObject m a = MkAggregator (ap_id a) false (Some m) (iter_begin (aggMap m)) None (ap_numHashKeys a)) as Hload.
  { unfold AggregationProcessor_loadInputObject. by rewrite Hid, Z.eqb_refl, Hfin, Hout. }
  cbn [aggregate_pages aggregate_objects]. rewrite M_bind_unfold. cbn beta iota zeta. rewrite Hload.
  cbn. unfold catch. cbn beta iota. cbn [ap_begin ap_curMap]. rewrite iter_ne_end, Hd. cbn. rewrite Hk. reflexivity.
Qed.

(** ** Witnesses: pairs of integers, aggregated by addition *)

Definition roomy : tuple_space Z := TupleSpace plenty true true true 0%Z.
Definition no_room : tuple_space Z := TupleSpace plenty true false true 0%Z.

Lemma roomy_ok : steady roomy ∧ ample roomy.
Proof. by split. Qed.

Lemma no_room_steady : steady no_room.
Proof. done. Qed.

(** The first two pairs of a page fit. *)
Definition two_fit (j : nat) : tuple_space Z := if decide (j < 2) then roomy else no_room.

Lemma two_fit_ok : (∀ j, steady (two_fit j)) ∧ ample (two_fit 0).
Proof. split; [|done]. intros j. unfold two_fit. by case_decide. Qed.

Local Existing Instance small_slots.

Definition demo_container : list (PairArray Z Z) :=
  match ShuffleSink_createNewOutputContainer 2 true with Ret o => o | _ => [] end.

Lemma demo_container_ok : shuffle_holds specialHash_int 2 ∅ demo_container ∧ shuffle_open demo_container.
Proof. unfold demo_container. by destruct (shuffle_container_ok (V:=Z) specialHash_int 2) as (o & -> & ? & ?). Qed.

Definition demo_sink (l : list (Z * Z)) : sink Z Z (list (PairArray Z Z)) := Sink l.*1 l.*2 demo_container.

Lemma ShuffleSink_writeOut_spec_witness :
  let s := demo_sink [(1, 10); (2, 20); (1, 5); (3, 30)]%Z in
  ∃ s', ShuffleSink_writeOut specialHash_int 0%Z Z.add 2 two_fit s = (NotEnoughSpace, s') ∧
    tuples s' = [(1, 5); (3, 30)]%Z ∧
    ∃ p, p < 4 ∧ ¬ ample (two_fit p) ∧ tuples s' = drop p (tuples s) ∧
      shuffle_holds specialHash_int 2 (aggregate_onto Z.add ∅ (take p (tuples s))) (container s').
Proof.
  intros s. pose proof (ShuffleSink_writeOut_spec specialHash_int 0%Z Z.add 2 two_fit s ∅) as Hw.
  destruct (ShuffleSink_writeOut specialHash_int 0%Z Z.add 2 two_fit s) as [r s'] eqn:Hr.
  assert (r = NotEnoughSpace ∧ tuples s' = [(1, 5); (3, 30)]%Z) as [-> Ht].
  { vm_compute in Hr. injection Hr as <- <-. by split. }
  exists s'. split; [done|]. split; [done|].
  destruct Hw as (p & Hp & Hpos & Hd & Hh); [lia|done|apply two_fit_ok|apply demo_container_ok|apply demo_container_ok|vm_compute; discriminate|].
  exists p. by split_and!.
Defined.

(** A source that is a list of tuple sets. *)
Definition list_source : M (list (list Z * list Z)) (option (list Z * list Z)) := λ s,
  match s with [] => (Ret None, []) | t :: s' => (Ret (Some t), s') end.

Definition list_source_is (s : list (list Z * list Z)) (ls : list (list (Z * Z))) : Prop := Forall2 columns_are s ls.

Lemma list_source_ok s ls : list_source_is s ls →
  match list_source s with
  | (Ret (Some t), s') => ∃ l ls', ls = l :: ls' ∧ columns_are t l ∧ list_source_is s' ls'
  | (Ret None, s') => ls = [] ∧ list_source_is s' []
  | (NotEnoughSpace, s') => list_source_is s' ls
  | _ => False
  end.
Proof. intros [|t l s' ls' Hl Hs]; simpl; [by split; [|constructor]|]. exists l, ls'. split; [done|]. by split. Qed.

Definition demo_rows : list (list (Z * Z)) :=
  [[(1, 10); (2, 20); (1, 5); (3, 30); (4, 40)]; []; [(2, 7); (5, 50)]; [(1, 1)]]%Z.

Local Abbreviation demo_shuffle := (shuffle_ops specialHash_int 0%Z Z.add 2 (λ _, two_fit) list_source []).
Local Abbreviation demo_run :=
  (run demo_shuffle 10 10 (MkPipeline ((λ l : list (Z * Z), (l.*1, l.*2)) <$> demo_rows, 0) [] [])).

(** The pages taken and the pages written back. *)
Lemma demo_pages :
  match demo_run with
  | (Ret _, p) => match destroy demo_shuffle p with (Ret _, p') => Some (length (requested p), length (written p')) | _ => None end
  | _ => None
  end = Some (4, 4).
Proof. vm_compute. reflexivity. Qed.

Lemma demo_run_ok :
  ∃ p p', demo_run = (Ret tt, p) ∧ destroy demo_shuffle p = (Ret tt, p') ∧ length (requested p) = 4 ∧ length (written p') = 4.
Proof.
  pose proof demo_pages as Hpages. destruct demo_run as [[[]| | |] p]; try discriminate Hpages.
  destruct (destroy demo_shuffle p) as [[[]| | |] p'] eqn:Hd; try discriminate Hpages. injection Hpages as Hreq Hlen.
  exists p, p'. split; [reflexivity|]. split; [exact Hd|]. by split.
Qed.

Lemma shuffle_pipeline_aggregates_witness :
  ∃ p p', demo_run = (Ret tt, p) ∧ destroy demo_shuffle p = (Ret tt, p') ∧ length (written p') = 4 ∧
    ∀ i, i < 2 → combine_all Z.add (partition_map i <$> written p') =
      part (key_index specialHash_int (shuffle_index 2)) i (aggregate Z.add (staged_rows [] demo_rows)).
Proof.
  assert (list_source_is ((λ l, (l.*1, l.*2)) <$> demo_rows) demo_rows) as Hs by (repeat constructor).
  assert (Z.of_nat (length (staged_rows [] demo_rows)) ≤ max_entries)%Z as Hsize by (vm_compute; discriminate).
  assert (Forall (λ l, length (staged [] l) + 2 ≤ 10) demo_rows) as Hfuel by (repeat constructor; vm_compute; lia).
  assert (length demo_rows < 10) as Hchunks by (vm_compute; lia).
  pose proof (shuffle_pipeline_aggregates specialHash_int 0%Z Z.add 2 (λ _, two_fit) list_source [] [] list_source_is
    10 10 ((λ l, (l.*1, l.*2)) <$> demo_rows) demo_rows eq_refl (λ _, proj1 two_fit_ok) (λ _, proj2 two_fit_ok)
    list_source_ok (List.Forall2_nil _) Hs Hsize Hchunks Hfuel) as Hw.
  destruct demo_run_ok as (p & p' & Hr & Hd & Hreq & Hlen). exists p, p'. split; [exact Hr|]. split; [exact Hd|].
  split; [exact Hlen|]. cbv zeta in Hw. rewrite Hr, Hd in Hw. apply Hw. rewrite Hreq. vm_compute. discriminate.
Defined.

(** A page with the aggregate of some rows. *)
Definition demo_page (l : list (Z * Z)) : list (PairArray Z Z) :=
  container (ShuffleSink_writeOut specialHash_int 0%Z Z.add 2 (λ _, roomy) (demo_sink l)).2.

Lemma demo_page_ok l : (Z.of_nat (length l) ≤ max_entries)%Z → shuffle_holds specialHash_int 2 (aggregate Z.add l) (demo_page l).
Proof.
  intros Hl. destruct demo_container_ok as [Hh Ho]. unfold demo_page.
  destruct (shuffle_write_ok specialHash_int 0%Z Z.add 2 ltac:(done) (λ _, roomy) (demo_sink l) ∅) as (s' & p & ok & -> & _ & Hh' & Hok); simpl.
  { by rewrite !length_fmap. } { intros. apply roomy_ok. } { done. } { done. } { by rewrite length_fmap. }
  assert (tuples (demo_sink l) = l) as Ht by apply zip_fst_snd. rewrite Ht in Hh'. destruct ok.
  - destruct Hok as (-> & _). simpl in Hh'. by rewrite length_fmap, take_ge in Hh' by done.
  - destruct Hok as (_ & Hp & Hpos). destruct Hpos. apply roomy_ok.
Qed.

Lemma two_fit_answers : answers_ok (λ _, true) (λ _, two_fit).
Proof. split; [done|intros _; apply two_fit_ok|]. left. apply two_fit_ok. Qed.

Lemma demo_page_holds l : (Z.of_nat (length l) ≤ max_entries)%Z → pages_hold specialHash_int Z.add 2 [demo_page l] l.
Proof. intros Hl. exists [l]. split; [|simpl; by rewrite app_nil_r]. constructor; [by apply demo_page_ok|constructor]. Qed.

Lemma run_combiner_spec_witness :
  ∃ sent, run_combiner specialHash_int 0%Z Z.add (λ _, true) (λ _, two_fit) 20 [1; 0] [demo_page (concat demo_rows)] = Ret sent ∧
    length sent = 3 ∧ sent_total Z.add sent 0 = part (key_index specialHash_int (shuffle_index 2)) 1 (aggregate Z.add (concat demo_rows)).
Proof.
  destruct (run_combiner_spec specialHash_int 0%Z Z.add 2 (λ _, true) (λ _, two_fit) 20 [1; 0] [demo_page (concat demo_rows)] (concat demo_rows))
    as (sent & Hrun & _ & Htot).
  - apply two_fit_answers.
  - discriminate.
  - intros id Hid. do 2 (apply elem_of_cons in Hid as [->|Hid]; [vm_compute; lia|]). by apply elem_of_nil in Hid.
  - apply demo_page_holds. vm_compute. discriminate.
  - vm_compute. lia.
  - vm_compute. discriminate.
  - exists sent. split; [exact Hrun|]. split; [|exact (Htot 0 1 eq_refl)].
    assert (match run_combiner specialHash_int 0%Z Z.add (λ _, true) (λ _, two_fit) 20 [1; 0] [demo_page (concat demo_rows)] with
      Ret sent => length sent | _ => 0 end = 3) as Hlen by (vm_compute; reflexivity). by rewrite Hrun in Hlen.
Defined.

(** Two nodes, with two pages and one page, whose pages arrive in reverse. *)
Definition demo_nodes : list (list (list (PairArray Z Z))) :=
  [[demo_page [(1, 10); (2, 20); (1, 5)]; demo_page [(3, 30); (2, 1)]]; [demo_page [(1, 100); (4, 40); (3, 7)]]]%Z.
Definition demo_node_rows : list (list (Z * Z)) :=
  [[(1, 10); (2, 20); (1, 5); (3, 30); (2, 1)]; [(1, 100); (4, 40); (3, 7)]]%Z.
Local Abbreviation demo_combined :=
  (combine_nodes specialHash_int 0%Z Z.add (λ _ _, true) (λ _ _, two_fit) 20 [1; 0] demo_nodes).

Lemma demo_nodes_hold : Forall2 (pages_hold specialHash_int Z.add 2) demo_nodes demo_node_rows.
Proof.
  repeat constructor.
  - exists [[(1, 10); (2, 20); (1, 5)]; [(3, 30); (2, 1)]]%Z. split; [|reflexivity].
    constructor; [apply demo_page_ok; vm_compute; discriminate|].
    constructor; [apply demo_page_ok; vm_compute; discriminate|constructor].
  - apply demo_page_holds. vm_compute. discriminate.
Qed.

Lemma demo_nodes_size pages : pages ∈ demo_nodes →
  2 * pages_length [1; 0] pages + 2 ≤ 20 ∧ (Z.of_nat (pages_length [1; 0]%nat pages) ≤ max_entries)%Z.
Proof.
  intros Hp. do 2 (apply elem_of_cons in Hp as [->|Hp]; [split; [vm_compute; lia|vm_compute; discriminate]|]).
  by apply elem_of_nil in Hp.
Qed.

Definition sent_pages {A} (rs : list (outcome A)) : list A := omap (λ r, match r with Ret a => Some a | _ => None end) rs.

Lemma sent_pages_ret {A} (l : list A) : sent_pages (Ret <$> l) = l.
Proof. induction l as [|x l IH]; [done|]. exact (f_equal (cons x) IH). Qed.

Lemma demo_arrivals_size : objects_size (concat (reverse (concat (sent_pages demo_combined)))) = 6.
Proof. vm_compute. reflexivity. Qed.

Lemma distributed_aggregation_witness :
  ∃ sents o, demo_combined = Ret <$> sents ∧
    run_aggregator specialHash_int 0%Z Z.add (λ _ _, roomy) 1 (reverse (concat sents)) = Ret o ∧
    result_map o = part (key_index specialHash_int (shuffle_index 2)) 0 (aggregate Z.add (concat demo_node_rows)).
Proof.
  destruct (distributed_aggregation specialHash_int 0%Z Z.add 2 (λ _ _, true) (λ _ _, two_fit) 20 [1; 0] demo_nodes demo_node_rows)
    as (sents & Hrun & Hagg).
  - intros _. apply two_fit_answers.
  - discriminate.
  - intros id Hid. do 2 (apply elem_of_cons in Hid as [->|Hid]; [vm_compute; lia|]). by apply elem_of_nil in Hid.
  - apply demo_nodes_size.
  - apply demo_nodes_hold.
  - destruct (Hagg (reverse (concat sents)) 1 0 (λ _ _, roomy)) as (o & Ho & Hm).
    + apply reverse_Permutation.
    + reflexivity.
    + intros _ _. apply roomy_ok.
    + pose proof demo_arrivals_size as Hs. rewrite Hrun, sent_pages_ret in Hs. rewrite Hs. vm_compute. discriminate.
    + exists sents, o. split; [exact Hrun|]. split; [exact Ho|exact Hm].
Defined.

(** Two objects fit on an output page. *)
Lemma agg_out_entries_witness :
  ∃ pages, agg_out (λ _ i, bool_decide (i < 2)) 10 0
      (AggOutProcessor_loadOutputPage (AggOutProcessor_loadInputPage demo (MkAggOut false PairArray_empty iter_end [] 0))) = Ret pages ∧
    concat pages ≡ₚ map_to_list (to_map demo).
Proof.
  apply (agg_out_entries specialHash_int (λ _ i, bool_decide (i < 2)) demo 10).
  - apply demo_wf.
  - reflexivity.
  - vm_compute. lia.
Defined.

Definition full_aggregator : AggregationProcessor (K:=Z) (V:=Z) * output_page :=
  (aggregate_pages specialHash_int 0%Z Z.add (λ _, two_fit) 0 [[MkAggregationMap demo 0]] (AggregationProcessor_new 0, NoPage)).2.

Lemma aggregator_after_full_page_witness :
  ∃ t, full_aggregator.2 = GivenUp (Some t) ∧ size (to_map t) = 2 ∧
    run_aggregator specialHash_int 0%Z Z.add (λ _, two_fit) 0 [[MkAggregationMap demo 0]] = Ret (Some t) ∧
    run_aggregator specialHash_int 0%Z Z.add (λ _, two_fit) 0 [[MkAggregationMap demo 0]; [MkAggregationMap demo 0]] = Undefined ∧
    (aggregate_pages specialHash_int 0%Z Z.add (λ _, two_fit) 1 [[MkAggregationMap demo 0]] (full_aggregator.1, GivenUp (Some t))).1 = Undefined.
Proof.
  eexists. split; [vm_compute; reflexivity|]. split; [vm_compute; reflexivity|]. split; [vm_compute; reflexivity|].
  split; [vm_compute; reflexivity|].
  apply (aggregator_after_full_page specialHash_int 0%Z Z.add (λ _, two_fit) 1 (MkAggregationMap demo 0) [] [] full_aggregator.1).
  - vm_compute. reflexivity.
  - vm_compute. reflexivity.
  - vm_compute. reflexivity.
  - apply demo_wf.
  - intros Hm. apply (f_equal (λ m : gmap Z Z, bool_decide (m !! 1%Z = None))) in Hm. vm_compute in Hm. discriminate Hm.
Defined.

(** ** The copy of the old value

    [ValueType copy = temp] is outside the [try] blocks of the sinks.  When it
    throws, which it can if values own memory, the tuples added so far are not
    erased from the tuple set, and the pipeline adds them again to the next page. *)

Definition copy_fails (j : nat) : tuple_space Z := TupleSpace plenty (bool_decide (j ≠ 2)) true true 0%Z.

Theorem ShuffleSink_copy_counts_twice :
  let rows := [(1, 10); (2, 20); (1, 5)]%Z in
  let i := key_index specialHash_int (shuffle_index 2) 1%Z in
  ∃ s1 s2, ShuffleSink_writeOut specialHash_int 0%Z Z.add 2 copy_fails (demo_sink rows) = (NotEnoughSpace, s1) ∧
    tuples s1 = rows ∧ partition_map i (container s1) !! 1%Z = Some 10%Z ∧
    ShuffleSink_writeOut specialHash_int 0%Z Z.add 2 (λ _, roomy) (Sink (keyColumn s1) (valueColumn s1) demo_container) = (Ret tt, s2) ∧
    combine_all Z.add (partition_map i <$> [container s1; container s2]) !! 1%Z = Some 25%Z ∧
    aggregate Z.add rows !! 1%Z = Some 15%Z.
Proof. do 2 eexists. repeat split; vm_compute; reflexivity. Qed.
