(* ===== verification/TupleSet.v ===== *)
(** * TupleSet: columns and tuple sets

    Models [lambdas/headers/TupleSet.h] and [TupleSetMachine.h].

    A tuple set maps column numbers to pointers to [std::vector]s.  A column that
    an executor passes on is not copied: the output of the executor points to the
    vector of its input, and only the column that was made for a vector deletes
    it ([mustDelete]).  Sinks erase rows in place.  So the vectors are kept in a
    [store], a heap with addresses that are never used twice, and a tuple set
    refers to them; using a vector that was deleted is [Undefined]. *)

From S2P Require Import Prelude.

(** ** Vectors *)

(** The element types that executors know: handles to objects, [bool], [size_t],
    and vectors of handles.  A null handle is [None]. *)
Inductive vector {O : Type} :=
| Objects (l : list (option O))
| Bools (l : list bool)
| Numbers (l : list Z)
| Vectors (l : list (list (option O))).
Arguments vector : clear implicits.

(** The type that a column was made with. *)
Inductive col_type := TObject | TBool | TNumber | TVector.

#[export] Instance col_type_eq_dec : EqDecision col_type.
Proof. solve_decision. Defined.

Definition type_of {O} (v : vector O) : col_type :=
  match v with Objects _ => TObject | Bools _ => TBool | Numbers _ => TNumber | Vectors _ => TVector end.

Record store {O : Type} := Store {
  vectors : gmap nat (vector O);
  next_vector : nat
}.
Arguments store : clear implicits.
Arguments Store {O}.

(** A column of a tuple set: the address of its vector, and whether the tuple set
    deletes it. *)
Record column := Column {
  contents : nat;
  mustDelete : bool
}.

Abbreviation tuple_set := (gmap nat column).

Section tuple_sets.
Context {O : Type}.
Local Abbreviation M := (M (store O)).
Local Abbreviation vector := (vector O).
Implicit Types (v : vector) (ts : tuple_set).

(** What the maintenance functions of a column do with the elements, whatever
    their type; the argument is the value that new elements have. *)
Definition with_elements (f : ∀ A, A → list A → outcome (list A)) v : outcome vector :=
  match v with
  | Objects l => l' ← f _ None l; mret (Objects l')
  | Bools l => l' ← f _ false l; mret (Bools l')
  | Numbers l => l' ← f _ 0%Z l; mret (Numbers l')
  | Vectors l => l' ← f _ [] l; mret (Vectors l')
  end.

Definition getCount v : nat :=
  match v with Objects l => length l | Bools l => length l | Numbers l => length l | Vectors l => length l end.

(** [new std::vector], [delete], reading and writing through the pointer. *)
Definition new_vector v : M nat := λ s,
  (Ret (next_vector s), Store (<[next_vector s := v]> (vectors s)) (S (next_vector s))).

Definition delete_vector (p : nat) : M unit := λ s,
  match vectors s !! p with
  | Some _ => (Ret tt, Store (delete p (vectors s)) (next_vector s))
  | None => (Undefined, s)
  end.

Definition read_vector (p : nat) : M vector := λ s,
  match vectors s !! p with Some v => (Ret v, s) | None => (Undefined, s) end.

Definition write_vector (p : nat) v : M unit := λ s,
  match vectors s !! p with
  | Some _ => (Ret tt, Store (<[p := v]> (vectors s)) (next_vector s))
  | None => (Undefined, s)
  end.

(** ** TupleSet *)

Definition hasColumn (i : nat) ts : bool := bool_decide (is_Some (ts !! i)).

Definition getNumColumns ts : nat := size ts.

(** The vector of a column: the process exits if there is no such column. *)
Definition getColumn (i : nat) ts : M nat :=
  match ts !! i with Some c => mret (contents c) | None => lift (Exit 1) end.

(** -1 if there is no such column.  Rows are counted in an [int] in the source:
    columns have less than 2^31. *)
Definition getNumRows (i : nat) ts : M Z :=
  match ts !! i with
  | Some c => v ← read_vector (contents c); mret (Z.of_nat (getCount v))
  | None => mret (-1)%Z
  end.

(** Deleting the vector of the old column, if there is one and it must be. *)
Definition kill_column (i : nat) ts : M unit :=
  match ts !! i with
  | Some c => if mustDelete c then delete_vector (contents c) else mret tt
  | None => mret tt
  end.

Definition addColumn (i p : nat) (needToDelete : bool) ts : M tuple_set :=
  kill_column i ts ;; mret (<[i := Column p needToDelete]> ts).

(** [fromMe->columns[whichColInFromMe]] makes a column of null if there is none. *)
Definition copyColumn (fromMe : tuple_set) (from to : nat) ts : M tuple_set :=
  kill_column to ts ;;
  match fromMe !! from with
  | Some c => mret (<[to := Column (contents c) false]> ts)
  | None => lift Undefined
  end.

(** The loop of the lambda [filter]: the new vector has an element for every
    [true]; those that no row is left for keep their initial value. *)
Definition filter_elements (whichAreValid : list bool) (A : Type) (dA : A) (l : list A) : outcome (list A) :=
  if decide (length whichAreValid < length l) then Undefined
  else Ret ((zip whichAreValid l ≫= λ '(b, a), if (b : bool) then [a] else []) ++
            replicate (length (filter (λ b, b = true) (drop (length l) whichAreValid))) dA).

(** A missing column is reported, and nothing is done. *)
Definition filterColumn (i : nat) (whichAreValid : list bool) ts : M tuple_set :=
  match ts !! i with
  | None => mret ts
  | Some c =>
      v ← read_vector (contents c);
      v' ← lift (with_elements (filter_elements whichAreValid) v);
      p ← new_vector v';
      (if mustDelete c then delete_vector (contents c) else mret tt) ;;
      mret (<[i := Column p true]> ts)
  end.

(** The loop of the lambda [replicate]. *)
Fixpoint replicate_elements (times : list nat) (A : Type) (dA : A) (l : list A) : outcome (list A) :=
  match times, l with
  | [], _ => Ret []
  | n :: times', a :: l' => rest ← replicate_elements times' A dA l'; mret (replicate n a ++ rest)
  | n :: times', [] => if decide (n = 0) then replicate_elements times' A dA [] else Undefined
  end.

Definition replicateColumn (fromMe : tuple_set) (from to : nat) (times : list nat) ts : M tuple_set :=
  kill_column to ts ;;
  match fromMe !! from with
  | Some c =>
      v ← read_vector (contents c);
      v' ← lift (with_elements (replicate_elements times) v);
      p ← new_vector v';
      mret (<[to := Column p true]> ts)
  | None => lift Undefined
  end.

(** [~TupleSet] *)
Definition destroy_columns (cs : list (nat * column)) : M unit :=
  foldr (λ ic m, (if mustDelete ic.2 then delete_vector (contents ic.2) else mret tt) ;; m) (mret tt) cs.
Definition TupleSet_destroy ts : M unit := destroy_columns (map_to_list ts).

(** ** TupleSetSetupMachine *)

(** [match]: the position of each attribute in the schema; one that is not there
    is reported and left out. *)
Definition match_atts (inputSchema attsToMatch : list string) : list nat :=
  omap (λ a, fst <$> list_find (λ b, a = b) inputSchema) attsToMatch.

(** [setup] and [replicate]: column [counter] of the output is made from column
    [i] of the input. *)
Fixpoint setup (input : tuple_set) (matches : list nat) (counter : nat) (output : tuple_set) : M tuple_set :=
  match matches with
  | [] => mret output
  | i :: matches' => output ← copyColumn input i counter output; setup input matches' (S counter) output
  end.

Fixpoint machine_replicate (input : tuple_set) (times : list nat) (matches : list nat) (to : nat) (output : tuple_set) : M tuple_set :=
  match matches with
  | [] => mret output
  | i :: matches' =>
      output ← replicateColumn input i to times output; machine_replicate input times matches' (S to) output
  end.

End tuple_sets.

(** ** Ownership

    The vectors that a tuple set deletes belong to it. *)

Definition owns (ts : tuple_set) (p : nat) : Prop := ∃ i c, ts !! i = Some c ∧ mustDelete c = true ∧ contents c = p.

Section facts.
Context {O : Type}.
Implicit Types (s : store O) (v : vector O) (ts input output : tuple_set) (p i : nat) (c : column).

Definition live s p : Prop := is_Some (vectors s !! p).

(** Addresses not used yet have no vector. *)
Definition store_ok s : Prop := ∀ p, live s p → p < next_vector s.

(** What a tuple set owns exists, and is owned by one of its columns. *)
Definition owner_ok s ts : Prop :=
  ∀ i c, ts !! i = Some c → mustDelete c = true → live s (contents c) ∧
    ∀ j c', ts !! j = Some c' → mustDelete c' = true → contents c' = contents c → j = i.

(** A tuple set that is changed from [ts] to [ts'] leaves all vectors alone that
    it does not own; what it owns afterwards it owned before or has made; and
    every vector it owned is owned afterwards or deleted. *)
Record evolves s ts s' ts' : Prop := {
  ev_store : store_ok s';
  ev_owner : owner_ok s' ts';
  ev_next : next_vector s ≤ next_vector s';
  ev_owns p : owns ts' p → owns ts p ∨ next_vector s ≤ p;
  ev_frame p : ¬ owns ts p → p < next_vector s → vectors s' !! p = vectors s !! p;
  ev_live p : live s' p ↔ (live s p ∧ ¬ owns ts p) ∨ owns ts' p
}.

(** The value of a column. *)
Definition col_value s ts i v : Prop := ∃ c, ts !! i = Some c ∧ vectors s !! contents c = Some v.

(** The columns of [input] can be read, and [output] owns none of them. *)
Definition apart s input output : Prop := ∀ i c, input !! i = Some c → live s (contents c) ∧ ¬ owns output (contents c).

Lemma owns_live s ts p : owner_ok s ts → owns ts p → live s p.
Proof. intros Ho (i & c & Hi & Hm & <-). by apply (Ho i c). Qed.

#[local] Instance owns_dec ts p : Decision (owns ts p).
Proof.
  destruct (decide (Exists (λ ic, mustDelete ic.2 = true ∧ contents ic.2 = p) (map_to_list ts))) as [He|He].
  - left. apply Exists_exists in He as ([i c] & Hic & ? & ?). exists i, c. split; [by apply elem_of_map_to_list|done].
  - right. intros (i & c & Hi & Hm & Hc). apply He, Exists_exists. exists (i, c).
    split; [by apply elem_of_map_to_list|done].
Defined.

Lemma evolves_refl s ts : store_ok s → owner_ok s ts → evolves s ts s ts.
Proof.
  intros Hs Ho. split; try done; [by left|]. intros p. split.
  - intros Hp. destruct (decide (owns ts p)); [by right|by left].
  - intros [[? _]|?]; [done|by eapply owns_live].
Qed.

Lemma evolves_trans s ts s1 ts1 s2 ts2 :
  store_ok s → evolves s ts s1 ts1 → evolves s1 ts1 s2 ts2 → evolves s ts s2 ts2.
Proof.
  intros Hs [A1 A2 A3 A4 A5 A6] [B1 B2 B3 B4 B5 B6]. split; [done|done|lia|..].
  - intros p Hp. destruct (B4 p Hp) as [H1|H1]; [by apply A4|right; lia].
  - intros p Hn Hp. rewrite <- (A5 p Hn Hp). apply B5; [|lia]. intros Ho. destruct (A4 p Ho); [done|lia].
  - intros p. rewrite B6. split.
    + intros [[H1 H2]|H1]; [|by right]. apply A6 in H1 as [[H3 H4]|H3]; [by left|done].
    + intros [[H1 H2]|H1]; [|by right]. left. split; [by apply A6; left|].
      intros Ho. destruct (A4 p Ho) as [|Hp]; [done|]. pose proof (Hs p H1). lia.
Qed.

Lemma col_value_evolves s ts s' ts' input i v :
  store_ok s → evolves s ts s' ts' → apart s input ts → col_value s input i v → col_value s' input i v.
Proof.
  intros Hs Hev Ha (c & Hc & Hv). exists c. split; [done|]. destruct (Ha i c Hc) as [Hl Hn].
  rewrite (ev_frame _ _ _ _ Hev) by (done || by apply Hs). done.
Qed.

Lemma apart_evolves s ts s' ts' input :
  store_ok s → evolves s ts s' ts' → apart s input ts → apart s' input ts'.
Proof.
  intros Hs Hev Ha i c Hc. destruct (Ha i c Hc) as [Hl Hn]. pose proof (Hs _ Hl) as Hlt. split.
  - unfold live. by rewrite (ev_frame _ _ _ _ Hev).
  - intros Ho. destruct (ev_owns _ _ _ _ Hev _ Ho); [done|lia].
Qed.

(** The store after the old vector of a column has been deleted. *)
Definition killed i ts s : store O :=
  match ts !! i with
  | Some c => if mustDelete c then Store (delete (contents c) (vectors s)) (next_vector s) else s
  | None => s
  end.

Lemma kill_column_ok i ts s : owner_ok s ts → kill_column i ts s = (Ret tt, killed i ts s).
Proof.
  intros Ho. unfold kill_column, killed. destruct (ts !! i) as [c|] eqn:Hc; [|done]. destruct (mustDelete c) eqn:Hm; [|done].
  destruct (Ho i c Hc Hm) as [[v Hv] _]. unfold delete_vector. by rewrite Hv.
Qed.

Lemma killed_lookup i ts s p :
  vectors (killed i ts s) !! p =
  match ts !! i with
  | Some c => if mustDelete c && bool_decide (contents c = p) then None else vectors s !! p
  | None => vectors s !! p
  end.
Proof.
  unfold killed. destruct (ts !! i) as [c|]; [|done]. destruct (mustDelete c); [|done]. simpl. case_bool_decide as Hp.
  - subst p. by apply lookup_delete_eq.
  - by apply lookup_delete_ne.
Qed.

Lemma killed_next i ts s : next_vector (killed i ts s) = next_vector s.
Proof. unfold killed. destruct (ts !! i) as [c|]; [|done]. by destruct (mustDelete c). Qed.

Lemma killed_fresh i ts s p : store_ok s → next_vector s ≤ p → vectors (killed i ts s) !! p = None.
Proof.
  intros Hs Hp. rewrite killed_lookup. assert (vectors s !! p = None) as Hn.
  { destruct (vectors s !! p) as [x|] eqn:E; [|done]. pose proof (Hs p ltac:(by exists x)). lia. }
  destruct (ts !! i) as [c|]; [|done]. by destruct (mustDelete c && bool_decide (contents c = p)).
Qed.

(** Only what the old column owned is deleted. *)
Lemma killed_keeps i ts s p : ¬ (∃ c, ts !! i = Some c ∧ mustDelete c = true ∧ contents c = p) →
  vectors (killed i ts s) !! p = vectors s !! p.
Proof.
  intros Hn. rewrite killed_lookup. destruct (ts !! i) as [c|]; [|done]. destruct (mustDelete c) eqn:Hm; [|done]. simpl.
  case_bool_decide; [|done]. destruct Hn. by exists c.
Qed.

Lemma killed_live i ts s p : live (killed i ts s) p ↔ live s p ∧ ¬ (∃ c, ts !! i = Some c ∧ mustDelete c = true ∧ contents c = p).
Proof.
  unfold live. split.
  - rewrite killed_lookup. intros Hl. destruct (ts !! i) as [d|]; [|split; [done|by intros (? & ? & _)]].
    destruct (mustDelete d) eqn:Hm; simpl in Hl; [|split; [done|by intros (? & [= <-] & ? & _); congruence]].
    case_bool_decide; [by destruct Hl|]. split; [done|]. by intros (e & [= <-] & _ & ?).
  - intros [Hl Hn]. by rewrite killed_keeps.
Qed.

Lemma owns_insert i c ts p : owns (<[i := c]> ts) p ↔
  (mustDelete c = true ∧ contents c = p) ∨ ∃ j d, j ≠ i ∧ ts !! j = Some d ∧ mustDelete d = true ∧ contents d = p.
Proof.
  split.
  - intros (j & d & Hj & Hd & Hp). apply lookup_insert_Some in Hj as [[<- <-]|[Hj Hd']]; [by left|]. right.
    exists j, d. by split_and!.
  - intros [[Hm Hc]|(j & d & Hj & Hd & Hm & Hc)]; [exists i, c; by rewrite lookup_insert_eq|].
    exists j, d. by rewrite lookup_insert_ne.
Qed.

(** [s'] is [s] without the old vector of column [i], and with the vector of the
    new column [c] if that is to be deleted. *)
Record replaced i c ts s s' : Prop := {
  rp_next : next_vector s ≤ next_vector s';
  rp_rest p : (mustDelete c = true → contents c ≠ p) → vectors s' !! p = vectors (killed i ts s) !! p;
  rp_new : mustDelete c = true → next_vector s ≤ contents c < next_vector s' ∧ live s' (contents c)
}.

Lemma replaced_old i c ts s s' p : replaced i c ts s s' → p < next_vector s → vectors s' !! p = vectors (killed i ts s) !! p.
Proof. intros [? Hr Hn] Hp. apply Hr. intros Hm Hc. destruct (Hn Hm). lia. Qed.

(** The other columns keep their values. *)
Lemma replaced_other i c ts s s' j d :
  store_ok s → owner_ok s ts → replaced i c ts s s' → j ≠ i → ts !! j = Some d → live s (contents d) →
  mustDelete d = true ∨ ¬ owns ts (contents d) → vectors s' !! contents d = vectors s !! contents d.
Proof.
  intros Hs Ho Hr Hj Hd Hl Hown. rewrite (replaced_old i c ts s s') by (done || by apply Hs). apply killed_keeps.
  intros (e & Hi & He & Hc). destruct Hown as [Hm|Hn]; [|destruct Hn; by exists i, e].
  destruct (Ho j d Hd Hm) as [_ Hu]. destruct Hj. symmetry. by apply (Hu i e).
Qed.

Lemma replace_column i c ts s s' :
  store_ok s → owner_ok s ts → replaced i c ts s s' → evolves s ts s' (<[i := c]> ts).
Proof.
  intros Hs Ho Hr. pose proof (replaced_old i c ts s s') as Hold. pose proof (rp_new _ _ _ _ _ Hr) as Hnew.
  assert (∀ p, next_vector s ≤ p → live s' p → mustDelete c = true ∧ contents c = p) as Hlive.
  { intros p Hp Hl. destruct (decide (mustDelete c = true ∧ contents c = p)) as [|Hn]; [done|].
    destruct Hl as [x Hx]. rewrite (rp_rest _ _ _ _ _ Hr), killed_fresh in Hx by (done || naive_solver). done. }
  split; [| |by apply Hr|..].
  - intros p Hl. pose proof (rp_next _ _ _ _ _ Hr). destruct (decide (p < next_vector s)); [lia|].
    destruct (Hlive p ltac:(lia) Hl) as [Hm <-]. by destruct (Hnew Hm) as [[_ ?] _].
  - intros j d Hj Hm. apply lookup_insert_Some in Hj as [[<- <-]|[Hj Hd]].
    + destruct (Hnew Hm) as [Hn Hl]. split; [done|]. intros k e Hk He Hc.
      apply lookup_insert_Some in Hk as [[<- _]|[Hk He']]; [done|]. destruct (Ho k e He' He) as [Hle _].
      pose proof (Hs _ Hle). lia.
    + destruct (Ho j d Hd Hm) as [Hl Hu]. split.
      { unfold live. rewrite (replaced_other i c ts s s' j d); auto. }
      intros k e Hk He Hc. apply lookup_insert_Some in Hk as [[<- <-]|[Hk He']]; [|by apply (Hu k e)].
      destruct (Hnew He) as [Hn _]. pose proof (Hs _ Hl). lia.
  - intros p [[Hm <-]|(j & d & Hj & Hd & Hm & <-)]%owns_insert; [right; by destruct (Hnew Hm) as [[? _] _]|left; by exists j, d].
  - intros p Hn Hp. rewrite Hold by done. apply killed_keeps. intros (d & Hd & Hm & Hc). apply Hn. by exists i, d.
  - intros p. rewrite owns_insert. split.
    + intros Hl. destruct (decide (p < next_vector s)) as [Hp|Hp]; [|right; left; apply Hlive; [lia|done]].
      unfold live in Hl. rewrite (Hold p Hr Hp) in Hl. apply killed_live in Hl as [Hl Hni].
      destruct (decide (owns ts p)) as [(j & d & Hj & Hm & Hc)|Hno]; [|by left]. right. right. exists j, d.
      split_and!; try done. intros ->. apply Hni. by exists d.
    + intros [[Hl Hno]|[[Hm <-]|(j & d & Hj & Hd & Hm & <-)]]; [|by apply Hnew|].
      * unfold live. rewrite (Hold p Hr) by by apply Hs. apply killed_live. split; [done|].
        intros (d & Hd & Hm & Hc). apply Hno. by exists i, d.
      * destruct (Ho j d Hd Hm) as [Hl _]. unfold live. rewrite (replaced_other i c ts s s' j d); auto.
Qed.

(** *** One column *)

Lemma copyColumn_ok input from to ts s c :
  owner_ok s ts → input !! from = Some c →
  copyColumn input from to ts s = (Ret (<[to := Column (contents c) false]> ts), killed to ts s) ∧
  replaced to (Column (contents c) false) ts s (killed to ts s).
Proof.
  intros Ho Hc. split; [|by split; rewrite ?killed_next].
  unfold copyColumn. run. rewrite kill_column_ok by done. by rewrite Hc.
Qed.

Lemma killed_apart input i ts s j c :
  apart s input ts → input !! j = Some c → vectors (killed i ts s) !! contents c = vectors s !! contents c.
Proof.
  intros Ha Hc. apply killed_keeps. intros (d & Hd & Hm & He). destruct (Ha j c Hc) as [_ Hn]. apply Hn. by exists i, d.
Qed.

(** A vector made after the old one was deleted. *)
Lemma replaced_by_new to ts s v :
  store_ok s → let p := next_vector s in let s' := killed to ts s in
  replaced to (Column p true) ts s (Store (<[p := v]> (vectors s')) (S p)).
Proof.
  intros Hs p s'. split; simpl; [lia|intros q Hq; by rewrite lookup_insert_ne by auto|]. intros _. split; [lia|].
  exists v. simpl. by rewrite lookup_insert_eq.
Qed.

Lemma replicateColumn_ok input from to times ts s c v v' :
  store_ok s → owner_ok s ts → apart s input ts →
  input !! from = Some c → vectors s !! contents c = Some v → with_elements (replicate_elements times) v = Ret v' →
  ∃ s', replicateColumn input from to times ts s = (Ret (<[to := Column (next_vector s) true]> ts), s') ∧
    replaced to (Column (next_vector s) true) ts s s' ∧ vectors s' !! next_vector s = Some v'.
Proof.
  intros Hs Ho Ha Hc Hv Hr. eexists. split; [|split; [by apply (replaced_by_new to ts s v')|simpl; by rewrite lookup_insert_eq]].
  unfold replicateColumn. run. rewrite kill_column_ok, Hc by done. run. unfold read_vector.
  rewrite (killed_apart input to ts s from c), Hv by done. run. rewrite Hr. run. unfold new_vector. by rewrite killed_next.
Qed.

Lemma filterColumn_ok i whichAreValid ts s c v v' :
  store_ok s → owner_ok s ts → ts !! i = Some c → vectors s !! contents c = Some v →
  with_elements (filter_elements whichAreValid) v = Ret v' →
  ∃ s', filterColumn i whichAreValid ts s = (Ret (<[i := Column (next_vector s) true]> ts), s') ∧
    replaced i (Column (next_vector s) true) ts s s' ∧ vectors s' !! next_vector s = Some v'.
Proof.
  intros Hs Ho Hc Hv Hr. eexists. split; [|split; [by apply (replaced_by_new i ts s v')|simpl; by rewrite lookup_insert_eq]].
  pose proof (Hs (contents c) ltac:(by exists v)) as Hlt.
  unfold filterColumn. rewrite Hc. run. unfold read_vector at 1. rewrite Hv. run. rewrite Hr. run.
  unfold new_vector, killed. rewrite Hc. simpl. destruct (mustDelete c); [|done].
  unfold delete_vector. run. simpl. rewrite lookup_insert_ne, Hv by lia. run. simpl.
  by rewrite delete_insert_ne by lia.
Qed.

(** Writing to a vector that the tuple set owns. *)
Lemma write_owned i ts s p v :
  store_ok s → owner_ok s ts → ts !! i = Some (Column p true) →
  let s' := Store (<[p := v]> (vectors s)) (next_vector s) in
  write_vector p v s = (Ret tt, s') ∧ evolves s ts s' ts ∧ vectors s' !! p = Some v ∧
  ∀ j c, ts !! j = Some c → contents c ≠ p → vectors s' !! contents c = vectors s !! contents c.
Proof.
  intros Hs Ho Hi s'. assert (owns ts p) as Hown by by exists i, (Column p true).
  destruct (owns_live s ts p Ho Hown) as [w Hw].
  assert (∀ q, live s' q ↔ live s q) as Hlive.
  { intros q. unfold live. simpl. destruct (decide (q = p)) as [->|].
    - rewrite lookup_insert_eq, Hw. split; by eexists.
    - by rewrite lookup_insert_ne by auto. }
  split; [unfold write_vector; by rewrite Hw|]. split; [|split; [simpl; by rewrite lookup_insert_eq|]].
  - split; try done.
    + intros q Hq. apply Hs, Hlive, Hq.
    + intros j c Hj Hm. destruct (Ho j c Hj Hm) as [Hl Hu]. split; [by apply Hlive|done].
    + by left.
    + intros q Hn _. simpl. rewrite lookup_insert_ne; [done|]. by intros <-.
    + intros q. rewrite Hlive. split; [|intros [[? _]|?]; [done|by eapply owns_live]].
      intros Hq. destruct (decide (owns ts q)); [by right|by left].
  - intros j c Hj Hc. simpl. by rewrite lookup_insert_ne by auto.
Qed.

(** [addColumn] of a vector just made. *)
Lemma add_new_column i v ts s :
  store_ok s → owner_ok s ts → ts !! i = None →
  let p := next_vector s in let s' := Store (<[p := v]> (vectors s)) (S p) in
  new_vector v s = (Ret p, s') ∧ addColumn i p true ts s' = (Ret (<[i := Column p true]> ts), s') ∧
  replaced i (Column p true) ts s s'.
Proof.
  intros Hs Ho Hi p s'. split; [done|]. split; [unfold addColumn, kill_column; by rewrite Hi|].
  pose proof (replaced_by_new i ts s v Hs) as Hr. unfold killed in Hr. by rewrite Hi in Hr.
Qed.

(** *** All columns of a schema *)

(** One more step of a loop over columns. *)
Lemma evolves_replace i c s ts s' s'' ts'' :
  store_ok s → owner_ok s ts → replaced i c ts s s' → evolves s' (<[i := c]> ts) s'' ts'' → evolves s ts s'' ts''.
Proof. intros Hs Ho Hr Hev. eapply evolves_trans; [done|by apply replace_column|done]. Qed.

Lemma setup_ok input matches : ∀ counter output s,
  store_ok s → owner_ok s output → apart s input output → Forall (λ i, is_Some (input !! i)) matches →
  ∃ s' output', setup input matches counter output s = (Ret output', s') ∧ evolves s output s' output' ∧
    (∀ k i, matches !! k = Some i → ∃ c, input !! i = Some c ∧ output' !! (counter + k) = Some (Column (contents c) false)) ∧
    (∀ j, j < counter ∨ counter + length matches ≤ j → output' !! j = output !! j) ∧
    (∀ j c, counter + length matches ≤ j → output !! j = Some c → mustDelete c = true →
       vectors s' !! contents c = vectors s !! contents c).
Proof.
  induction matches as [|i matches IH]; intros counter output s Hs Ho Ha Hall.
  { exists s, output. split; [done|]. split; [by apply evolves_refl|]. done. }
  apply Forall_cons in Hall as [[c Hc] Hall].
  destruct (copyColumn_ok input i counter output s c Ho Hc) as [Hrun Hr].
  pose proof (replace_column _ _ _ _ _ Hs Ho Hr) as Hev1.
  destruct (IH (S counter) _ _ (ev_store _ _ _ _ Hev1) (ev_owner _ _ _ _ Hev1) (apart_evolves _ _ _ _ _ Hs Hev1 Ha) Hall)
    as (s2 & out2 & Hrun2 & Hev2 & Hin & Hrest & Hkeep).
  exists s2, out2. split; [simpl; run; by rewrite Hrun|]. split; [by eapply evolves_trans|].
  split; [|split].
  - intros [|k] j Hk; [|replace (counter + S k) with (S counter + k) by lia; by apply Hin].
    injection Hk as <-. exists c. split; [done|]. rewrite Hrest by lia. replace (counter + 0) with counter by lia.
    apply lookup_insert_eq.
  - intros j Hj. simpl in Hj. rewrite Hrest by lia. apply lookup_insert_ne. lia.
  - intros j d Hj Hd Hm. simpl in Hj. rewrite (Hkeep j d); [|lia|rewrite lookup_insert_ne by lia; done|done].
    apply (replaced_other _ _ _ _ _ j d Hs Ho Hr); [lia|done|by apply (Ho j d)|by left].
Qed.

(** What a loop that makes new vectors for columns [from], ... leaves. *)
Lemma machine_replicate_ok input times matches : ∀ to output s,
  store_ok s → owner_ok s output → apart s input output →
  Forall (λ i, ∃ v v', col_value s input i v ∧ with_elements (replicate_elements times) v = Ret v') matches →
  ∃ s' output', machine_replicate input times matches to output s = (Ret output', s') ∧ evolves s output s' output' ∧
    (∀ k i v, matches !! k = Some i → col_value s input i v → ∃ p v', output' !! (to + k) = Some (Column p true) ∧
       with_elements (replicate_elements times) v = Ret v' ∧ vectors s' !! p = Some v') ∧
    (∀ j, j < to ∨ to + length matches ≤ j → output' !! j = output !! j) ∧
    (∀ j c, j < to ∨ to + length matches ≤ j → output !! j = Some c → mustDelete c = true →
       vectors s' !! contents c = vectors s !! contents c).
Proof.
  induction matches as [|i matches IH]; intros to output s Hs Ho Ha Hall.
  { exists s, output. split; [done|]. split; [by apply evolves_refl|]. done. }
  apply Forall_cons in Hall as [(v & v' & (c & Hc & Hv) & Hr) Hall].
  destruct (replicateColumn_ok input i to times output s c v v' Hs Ho Ha Hc Hv Hr) as (s1 & Hrun & Hrep & Hnew).
  pose proof (replace_column _ _ _ _ _ Hs Ho Hrep) as Hev1. set (p := next_vector s) in *.
  assert (∀ j w, col_value s input j w → col_value s1 input j w) as Hcv by (intros j w; by eapply col_value_evolves).
  destruct (IH (S to) _ s1 (ev_store _ _ _ _ Hev1) (ev_owner _ _ _ _ Hev1) (apart_evolves _ _ _ _ _ Hs Hev1 Ha))
    as (s2 & out2 & Hrun2 & Hev2 & Hin & Hrest & Hkeep).
  { eapply Forall_impl; [done|]. intros j (w & w' & Hw & Hw'). exists w, w'. split; [by apply Hcv|done]. }
  exists s2, out2. split; [simpl; run; by rewrite Hrun|]. split; [by eapply evolves_trans|].
  split; [|split].
  - intros [|k] j w Hk Hw.
    + injection Hk as <-. destruct Hw as (? & ? & ?). simplify_eq. exists p, v'.
      replace (to + 0) with to by lia. rewrite Hrest, lookup_insert_eq by lia. split_and!; try done.
      pose proof (Hkeep to (Column p true) ltac:(lia) (lookup_insert_eq _ _ _) eq_refl) as Hk. simpl in Hk. by rewrite Hk.
    + replace (to + S k) with (S to + k) by lia. apply (Hin k j w Hk). by apply Hcv.
  - intros j Hj. simpl in Hj. rewrite Hrest by lia. apply lookup_insert_ne. lia.
  - intros j d Hj Hd Hm. simpl in Hj. rewrite (Hkeep j d); [|lia|rewrite lookup_insert_ne by lia; done|done].
    apply (replaced_other _ _ _ _ _ j d Hs Ho Hrep); [lia|done|by apply (Ho j d)|by left].
Qed.

(** *** The end of a tuple set *)

Definition owned_by (ic : nat * column) (p : nat) : Prop := mustDelete ic.2 = true ∧ contents ic.2 = p.

#[local] Instance owned_by_dec ic p : Decision (owned_by ic p).
Proof. unfold owned_by. apply _. Defined.

Lemma destroy_columns_ok cs : ∀ s,
  NoDup cs.*1 →
  (∀ i c, (i, c) ∈ cs → mustDelete c = true → live s (contents c) ∧
     ∀ j c', (j, c') ∈ cs → mustDelete c' = true → contents c' = contents c → j = i) →
  ∃ s', destroy_columns cs s = (Ret tt, s') ∧ next_vector s' = next_vector s ∧
    ∀ p, ((∃ ic, ic ∈ cs ∧ owned_by ic p) → vectors s' !! p = None) ∧
         (¬ (∃ ic, ic ∈ cs ∧ owned_by ic p) → vectors s' !! p = vectors s !! p).
Proof.
  induction cs as [|[i c] cs IH]; intros s Hnd Hok.
  { exists s. split_and!; try done. intros p. split; [by intros (? & ?%not_elem_of_nil & _)|done]. }
  apply NoDup_cons in Hnd as [Hni Hnd]. simpl in Hni.
  assert (∃ s1, (if mustDelete c then delete_vector (contents c) else mret tt) s = (Ret tt, s1) ∧
    next_vector s1 = next_vector s ∧ ∀ p, vectors s1 !! p = if decide (owned_by (i, c) p) then None else vectors s !! p)
    as (s1 & Hrun & Hnext & Hs1).
  { destruct (mustDelete c) eqn:Hm.
    - destruct (Hok i c (list_elem_of_here _ _) Hm) as [[v Hv] _]. eexists. split; [unfold delete_vector; by rewrite Hv|].
      split; [done|]. intros p. simpl. destruct (decide _) as [[_ <-]|Hn]; [apply lookup_delete_eq|].
      apply lookup_delete_ne. intros <-. by apply Hn.
    - exists s. split_and!; try done. intros p. rewrite decide_False; [done|]. intros [? _]. simpl in *. congruence. }
  destruct (IH s1 Hnd) as (s2 & Hrun2 & Hnext2 & Hs2).
  { intros j d Hj Hd. destruct (Hok j d (list_elem_of_further _ _ _ Hj) Hd) as [[v Hv] Hu]. split.
    - exists v. rewrite Hs1, decide_False; [done|]. intros [Hm Hc]. destruct Hni. apply list_elem_of_fmap. exists (j, d).
      split; [|done]. by apply (Hu i c (list_elem_of_here _ _)).
    - intros k d' Hk. apply Hu. by apply list_elem_of_further. }
  exists s2. split; [simpl; run; rewrite Hrun; exact Hrun2|]. split; [congruence|]. intros p. destruct (Hs2 p) as [Hin Hout].
  rewrite Hs1 in Hout. split.
  - intros (ic & [->|Hic]%elem_of_cons & Hp); [|by apply Hin; exists ic].
    destruct (decide (Exists (λ ic, owned_by ic p) cs)) as [He|Hn]; rewrite Exists_exists in *; [by apply Hin|]. rewrite Hout by done. by rewrite decide_True.
  - intros Hn. rewrite Hout by (intros (ic & Hic & Hp); apply Hn; exists ic; split; [by apply list_elem_of_further|done]). rewrite decide_False; [done|]. intros Hp. apply Hn. exists (i, c).
    split; [apply list_elem_of_here|done].
Qed.

Lemma owns_columns ts p : owns ts p ↔ ∃ ic, ic ∈ map_to_list ts ∧ owned_by ic p.
Proof.
  split; [intros (i & c & Hi & Hm & Hc); exists (i, c); by rewrite elem_of_map_to_list|].
  intros ([i c] & Hic%elem_of_map_to_list & Hm & Hc). by exists i, c.
Qed.

(** The destructor deletes exactly the vectors that the tuple set owns, each
    once. *)
Lemma TupleSet_destroy_ok ts s :
  owner_ok s ts →
  ∃ s', TupleSet_destroy ts s = (Ret tt, s') ∧ next_vector s' = next_vector s ∧
    ∀ p, (owns ts p → vectors s' !! p = None) ∧ (¬ owns ts p → vectors s' !! p = vectors s !! p).
Proof.
  intros Ho. destruct (destroy_columns_ok (map_to_list ts) s) as (s' & Hrun & Hn & Hs').
  { apply NoDup_fst_map_to_list. }
  { intros i c Hi Hm. apply elem_of_map_to_list in Hi. destruct (Ho i c Hi Hm) as [Hl Hu]. split; [done|].
    intros j c' Hj. apply Hu. by apply elem_of_map_to_list. }
  exists s'. split; [done|]. split; [done|]. intros p. rewrite owns_columns. apply Hs'.
Qed.
End facts.
