(* ===== verification/Executor.v ===== *)
(** * Executor: the stages of a pipeline over tuple sets

    Models [lambdas/headers/FilterExecutor.h], [FlattenExecutor.h] and
    [HashOneExecutor.h]: [process] takes the tuple set of the stage before and
    changes the tuple set that it returned last time into the next one.  The
    theorems say what the columns of the output hold, that vectors that the
    executor has not made are left alone, and that nothing it made is lost. *)

From S2P Require Import Prelude.
From S2P Require Import TupleSet.

Section executors.
Context {O : Type}.
Local Abbreviation M := (M (store O)).
Local Abbreviation vector := (vector O).
Implicit Types (v : vector) (ts : tuple_set).

(** ** The executors

    [matches] are the positions of the attributes to include in the output,
    [whichAtt] is that of the attribute to operate on; [output] is the tuple set
    that the executor returned last time. *)

(** A column read as one of a type. *)
Definition bools v : outcome (list bool) := match v with Bools l => Ret l | _ => Undefined end.
Definition numbers v : outcome (list Z) := match v with Numbers l => Ret l | _ => Undefined end.
Definition objects v : outcome (list (option O)) := match v with Objects l => Ret l | _ => Undefined end.
Definition object_vectors v : outcome (list (list (option O))) := match v with Vectors l => Ret l | _ => Undefined end.

Definition column_as {A} (f : vector → outcome A) (i : nat) ts : M A :=
  p ← getColumn i ts; v ← read_vector p; lift (f v).

(** [FilterExecutor::process] *)
Fixpoint filter_columns (whichAreValid : list bool) (i todo : nat) (output : tuple_set) : M tuple_set :=
  match todo with
  | 0 => mret output
  | S todo' => output ← filterColumn i whichAreValid output; filter_columns whichAreValid (S i) todo' output
  end.

Definition FilterExecutor_process (matches : list nat) (whichAtt : nat) (output input : tuple_set) : M tuple_set :=
  output ← setup input matches 0 output;
  inputColumn ← column_as bools whichAtt input;
  filter_columns inputColumn 0 (getNumColumns output) output.

(** [HashOneExecutor::process]: [resize] to a negative number of rows throws an
    exception that nobody catches. *)
Definition HashOneExecutor_process (matches : list nat) (whichAtt outAtt : nat) (output input : tuple_set) : M tuple_set :=
  output ← setup input matches 0 output;
  output ← (if hasColumn outAtt output then mret output
            else p ← new_vector (Numbers []); addColumn outAtt p true output);
  outColumn ← getColumn outAtt output;
  column_as numbers outAtt output ;;
  numRows ← getNumRows whichAtt output;
  if (numRows <? 0)%Z then lift (Exit 134)
  else write_vector outColumn (Numbers (replicate (Z.to_nat numRows) 1%Z)) ;; mret output.

(** [FlattenExecutor::process]: the vectors of handles in the column are laid out
    one after the other. *)
Definition FlattenExecutor_process (matches : list nat) (whichAtt outAtt : nat) (output input : tuple_set) : M tuple_set :=
  inputVecData ← column_as object_vectors whichAtt input;
  let counts := length <$> inputVecData in
  output ← machine_replicate input counts matches 0 output;
  output ← (if hasColumn outAtt output then mret output
            else p ← new_vector (Objects []); addColumn outAtt p true output);
  outColumn ← getColumn outAtt output;
  column_as objects outAtt output ;;
  write_vector outColumn (Objects (concat inputVecData)) ;; mret output.
End executors.

(** ** Reference semantics *)

(** The elements of a list whose mask is true, and each element as often as the
    list of counts says. *)
Definition sieve (b : list bool) (A : Type) (l : list A) : list A := zip b l ≫= λ '(x, a), if (x : bool) then [a] else [].
Definition repeated (times : list nat) (A : Type) (l : list A) : list A := zip times l ≫= λ '(n, a), replicate n a.

Definition vmap {O} (f : ∀ A, list A → list A) (v : vector O) : vector O :=
  match v with
  | Objects l => Objects (f _ l)
  | Bools l => Bools (f _ l)
  | Numbers l => Numbers (f _ l)
  | Vectors l => Vectors (f _ l)
  end.

Section facts.
Context {O : Type}.
Implicit Types (s : store O) (v : vector O) (ts input output : tuple_set).

Lemma filter_elements_sieve b A (d : A) l : length b = length l → filter_elements b A d l = Ret (sieve b A l).
Proof.
  intros Hl. unfold filter_elements, sieve. rewrite decide_False by lia. rewrite drop_ge by lia. simpl. by rewrite app_nil_r.
Qed.

Lemma replicate_elements_repeated times A (d : A) l :
  length times = length l → replicate_elements times A d l = Ret (repeated times A l).
Proof.
  revert l. induction times as [|n times IH]; intros [|a l]; try done. intros [= Hl]. simpl. by rewrite IH.
Qed.

Lemma with_elements_vmap (f : ∀ A, A → list A → outcome (list A)) g v :
  (∀ A (d : A) (l : list A), length l = getCount v → f A d l = Ret (g A l)) → with_elements f v = Ret (vmap g v).
Proof. intros Hf. by destruct v; simpl; rewrite Hf. Qed.

Lemma with_elements_sieve b v : getCount v = length b → with_elements (filter_elements b) v = Ret (vmap (sieve b) v).
Proof. intros Hl. apply with_elements_vmap. intros A d l Hl'. apply filter_elements_sieve. lia. Qed.

Lemma with_elements_repeated times v :
  getCount v = length times → with_elements (replicate_elements times) v = Ret (vmap (repeated times) v).
Proof. intros Hl. apply with_elements_vmap. intros A d l Hl'. apply replicate_elements_repeated. lia. Qed.

(** Columns of the same length stay so. *)
Lemma sieve_length b A (l : list A) : length l = length b → length (sieve b A l) = length (filter (λ x, x = true) b).
Proof.
  unfold sieve. revert l. induction b as [|x b IH]; intros [|a l]; try done. intros [= Hl]. simpl. rewrite length_app, IH by done.
  by destruct x.
Qed.

Lemma repeated_length times A (l : list A) : length l = length times → length (repeated times A l) = sum_list times.
Proof.
  unfold repeated. revert l. induction times as [|n times IH]; intros [|a l]; try done. intros [= Hl]. simpl.
  by rewrite length_app, length_replicate, IH.
Qed.

Lemma getCount_vmap (f : ∀ A, list A → list A) n v : (∀ A (l : list A), length l = getCount v → length (f A l) = n) → getCount (vmap f v) = n.
Proof. intros Hf. destruct v; simpl; by apply Hf. Qed.

(** Reading a column. *)
Lemma column_as_ok {A} (f : vector O → outcome A) i ts s v :
  col_value s ts i v → column_as f i ts s = (f v, s).
Proof. intros (c & Hc & Hv). unfold column_as, getColumn. rewrite Hc. run. unfold read_vector. by rewrite Hv. Qed.

Lemma col_value_is_Some s ts i v : col_value s ts i v → is_Some (ts !! i).
Proof. intros (c & Hc & _). by exists c. Qed.

(** The loop of the filter executor. *)
Lemma filter_columns_ok whichAreValid todo : ∀ i output s,
  store_ok s → owner_ok s output →
  (∀ k, i ≤ k < i + todo → ∃ p v v', output !! k = Some (Column p false) ∧ ¬ owns output p ∧ vectors s !! p = Some v ∧
     with_elements (filter_elements whichAreValid) v = Ret v') →
  ∃ s' output', filter_columns whichAreValid i todo output s = (Ret output', s') ∧ evolves s output s' output' ∧
    (∀ k p v, i ≤ k < i + todo → output !! k = Some (Column p false) → vectors s !! p = Some v →
       ∃ q v', output' !! k = Some (Column q true) ∧ with_elements (filter_elements whichAreValid) v = Ret v' ∧
         vectors s' !! q = Some v') ∧
    (∀ j, j < i ∨ i + todo ≤ j → output' !! j = output !! j) ∧
    (∀ j c, j < i → output !! j = Some c → mustDelete c = true → vectors s' !! contents c = vectors s !! contents c).
Proof.
  induction todo as [|todo IH]; intros i output s Hs Ho Hcols.
  { exists s, output. split; [done|]. split; [by apply evolves_refl|]. split; [lia|done]. }
  destruct (Hcols i ltac:(lia)) as (p & v & v' & Hi & Hno & Hv & Hf).
  destruct (filterColumn_ok i whichAreValid output s _ v v' Hs Ho Hi Hv Hf) as (s1 & Hrun & Hrep & Hnew).
  pose proof (replace_column _ _ _ _ _ Hs Ho Hrep) as Hev1. set (q := next_vector s) in *.
  assert (∀ k r w, i < k → output !! k = Some (Column r false) → ¬ owns output r → vectors s !! r = Some w →
            vectors s1 !! r = Some w ∧ ¬ owns (<[i := Column q true]> output) r) as Hkeep1.
  { intros k r w Hk Hr Hnr Hw. rewrite (ev_frame _ _ _ _ Hev1) by (done || (apply Hs; by exists w)). split; [done|].
    intros Hown. destruct (ev_owns _ _ _ _ Hev1 r Hown) as [|Hge]; [done|]. pose proof (Hs r ltac:(by exists w)). lia. }
  destruct (IH (S i) _ s1 (ev_store _ _ _ _ Hev1) (ev_owner _ _ _ _ Hev1)) as (s2 & out2 & Hrun2 & Hev2 & Hin & Hrest & Hkeep).
  { intros k Hk. destruct (Hcols k ltac:(lia)) as (r & w & w' & Hr & Hnr & Hw & Hw').
    destruct (Hkeep1 k r w ltac:(lia) Hr Hnr Hw). exists r, w, w'. rewrite lookup_insert_ne by lia. done. }
  exists s2, out2. split; [simpl; run; by rewrite Hrun|]. split; [by eapply evolves_trans|]. split; [|split].
  - intros k r w Hk Hr Hw. destruct (decide (k = i)) as [->|].
    + simplify_eq. exists q, v'. rewrite Hrest, lookup_insert_eq by lia. split_and!; try done.
      pose proof (Hkeep i (Column q true) ltac:(lia) (lookup_insert_eq _ _ _) eq_refl) as Hk2. simpl in Hk2. by rewrite Hk2.
    + destruct (Hcols k ltac:(lia)) as (r' & w' & _ & Hr' & Hnr & Hw' & _). simplify_eq.
      destruct (Hkeep1 k r w ltac:(lia) Hr Hnr Hw). apply (Hin k r w); [lia|by rewrite lookup_insert_ne by lia|done].
  - intros j Hj. rewrite Hrest by lia. apply lookup_insert_ne. lia.
  - intros j d Hj Hd Hm. rewrite (Hkeep j d); [|lia|rewrite lookup_insert_ne by lia; done|done].
    apply (replaced_other _ _ _ _ _ j d Hs Ho Hrep); [lia|done|by apply (Ho j d)|by left].
Qed.

(** The columns of [input] at [matches] all have [n] rows. *)
Definition rectangular s input (matches : list nat) (n : nat) : Prop :=
  Forall (λ i, ∃ v, col_value s input i v ∧ getCount v = n) matches.

(** The columns of a tuple set are numbered from zero. *)
Definition columns_below ts (n : nat) : Prop := ∀ k, is_Some (ts !! k) → k < n.

Lemma size_below ts n : columns_below ts n → (∀ k, k < n → is_Some (ts !! k)) → size ts = n.
Proof.
  intros Hb Ha. rewrite <- size_dom. assert (dom ts = set_seq (C := gset nat) 0 n) as ->.
  { apply set_eq. intros k. rewrite elem_of_dom, elem_of_set_seq. split; [intros Hk; specialize (Hb k Hk); lia|].
    intros Hk. apply Ha. lia. }
  apply size_set_seq.
Qed.

(** The columns that [setup] makes refer to vectors of the input. *)
Lemma setup_column s input output k i c v :
  apart s input output → col_value s input i v → input !! i = Some c → output !! k = Some (Column (contents c) false) →
  col_value s output k v ∧ ¬ owns output (contents c).
Proof.
  intros Ha (d & Hd & Hv) Hc Hk. assert (d = c) as -> by congruence. split; [|by apply (Ha i c)]. by exists (Column (contents c) false).
Qed.

(** Column [n] of the output, if it is there, is one that the executor made. *)
Definition appended (τ : col_type) (n : nat) s output : Prop :=
  columns_below output (S n) ∧
  ∀ c, output !! n = Some c → mustDelete c = true ∧ ∃ v, vectors s !! contents c = Some v ∧ type_of v = τ.

(** Making the appended column if it is missing, and writing it. *)
Lemma append_column τ v0 n s output (v : vector O → vector O) :
  store_ok s → owner_ok s output → appended τ n s output →
  (∀ k, k < n → is_Some (output !! k)) →
  ∃ s1 out1 p s', (if hasColumn n output then mret output
      else p ← new_vector v0; addColumn n p true output) s = (Ret out1, s1) ∧
    out1 !! n = Some (Column p true) ∧ ∃ w, vectors s1 !! p = Some w ∧ (w = v0 ∨ type_of w = τ) ∧
    write_vector p (v w) s1 = (Ret tt, s') ∧ vectors s' !! p = Some (v w) ∧ evolves s output s' out1 ∧
    evolves s output s1 out1 ∧ (∀ k, k < n → out1 !! k = output !! k) ∧ columns_below out1 (S n) ∧
    (∀ k c, k < n → output !! k = Some c → live s (contents c) → mustDelete c = true ∨ ¬ owns output (contents c) →
       vectors s1 !! contents c = vectors s !! contents c ∧ vectors s' !! contents c = vectors s !! contents c).
Proof.
  intros Hs Ho [Hb Hn] Hall. unfold hasColumn. case_bool_decide as Hhas.
  - destruct Hhas as [[p m] Hp]. destruct (Hn _ Hp) as (Hm & w & Hw & Hty). simpl in Hm, Hw. subst m.
    destruct (write_owned n output s p (v w) Hs Ho Hp) as (Hrun & Hev & Hv & Hother).
    exists s, output, p. eexists. split; [done|]. split; [done|]. exists w. split; [done|]. split; [by right|]. split; [exact Hrun|].
    split_and!; try done; [by apply evolves_refl|]. intros k c Hk Hc _ Hown. split; [done|]. apply (Hother k c Hc).
    intros Hcp. destruct Hown as [Hmc|Hno]; [|by destruct Hno; exists n, (Column p true)].
    destruct (Ho n _ Hp eq_refl) as [_ Hu]. pose proof (Hu k c Hc Hmc Hcp). lia.
  - assert (output !! n = None) as Hnone by by apply eq_None_not_Some.
    destruct (add_new_column n v0 output s Hs Ho Hnone) as (Hnew & Hadd & Hrep). set (p := next_vector s) in *.
    pose proof (replace_column _ _ _ _ _ Hs Ho Hrep) as Hev. set (s1 := Store _ _) in *.
    set (out1 := <[n := Column p true]> output) in *.
    destruct (write_owned n out1 s1 p (v v0) (ev_store _ _ _ _ Hev) (ev_owner _ _ _ _ Hev) ltac:(apply lookup_insert_eq)) as (Hrun & Hev' & Hv & Hother).
    exists s1, out1, p. eexists. split; [run; rewrite Hnew; run; exact Hadd|]. split; [apply lookup_insert_eq|].
    exists v0. split; [simpl; by rewrite lookup_insert_eq|]. split; [by left|]. split; [exact Hrun|]. split; [done|].
    split; [by eapply evolves_trans|]. split; [done|].
    split; [intros k Hk; apply lookup_insert_ne; lia|]. split.
    { intros k [d Hd]. apply lookup_insert_Some in Hd as [[<- _]|[_ Hd]]; [lia|]. apply Hb. by exists d. }
    intros k c Hk Hc Hl Hown.
    assert (vectors s1 !! contents c = vectors s !! contents c) as Heq.
    { apply (replaced_other _ _ _ _ _ k c Hs Ho Hrep); [lia|done..]. }
    split; [done|]. rewrite <- Heq. apply (Hother k c); [unfold out1; by rewrite lookup_insert_ne by lia|].
    pose proof (Hs _ Hl). unfold p. lia.
Qed.

(** ** The executors *)

(** What a call of an executor promises, apart from its columns: it returns, and
    the input is as before and still apart from the output. *)
Definition processed s input output s' output' : Prop :=
  evolves s output s' output' ∧ apart s' input output' ∧ ∀ i v, col_value s input i v → col_value s' input i v.

Lemma evolves_processed s input output s' output' :
  store_ok s → apart s input output → evolves s output s' output' → processed s input output s' output'.
Proof.
  intros Hs Ha Hev. split; [done|]. split; [by eapply apart_evolves|]. intros i v Hv. by eapply col_value_evolves.
Qed.

(** A column of the output was made by the executor, or it is one of the columns
    to include, passed on. *)
Definition supported (matches : list nat) (input output : tuple_set) : Prop :=
  ∀ k c, output !! k = Some c → mustDelete c = true ∨ ∃ i d, matches !! k = Some i ∧ input !! i = Some d ∧ contents d = contents c.

(** No two columns share a vector. *)
Definition distinct ts : Prop := ∀ i j c d, ts !! i = Some c → ts !! j = Some d → contents c = contents d → i = j.

Lemma supported_distinct matches s input output :
  NoDup matches → distinct input → supported matches input output → owner_ok s output → apart s input output → distinct output.
Proof.
  intros Hnd Hd Hsup Ho Ha i j c d Hi Hj Heq. destruct (Hsup i c Hi) as [Hm|(i' & c' & Hi' & Hc' & Hcc)].
  - destruct (Hsup j d Hj) as [Hm'|(j' & d' & Hj' & Hd' & Hdd)].
    + destruct (Ho i c Hi Hm) as [_ Hu]. symmetry. by apply (Hu j d).
    + destruct (Ha j' d' Hd') as [_ Hn]. destruct Hn. exists i, c. by rewrite Hdd.
  - destruct (Hsup j d Hj) as [Hm'|(j' & d' & Hj' & Hd' & Hdd)].
    + destruct (Ha i' c' Hc') as [_ Hn]. destruct Hn. exists j, d. by rewrite Hcc.
    + assert (i' = j') as <- by (eapply Hd; [done..|]; congruence). by apply (NoDup_lookup matches i j i').
Qed.

(** A filter returns the rows of the columns to include whose mask is true, in
    their order, whatever columns the output had from the tuple set before; the
    vectors of the input are not touched, and what the filter makes belongs to
    its output. *)
Lemma FilterExecutor_process_ok matches whichAtt input output b s :
  store_ok s → owner_ok s output → apart s input output → columns_below output (length matches) →
  col_value s input whichAtt (Bools b) → rectangular s input matches (length b) →
  ∃ s' output', FilterExecutor_process matches whichAtt output input s = (Ret output', s') ∧
    processed s input output s' output' ∧ columns_below output' (length matches) ∧ supported matches input output' ∧
    (∀ k i v, matches !! k = Some i → col_value s input i v → col_value s' output' k (vmap (sieve b) v)) ∧
    rectangular s' output' (seq 0 (length matches)) (length (filter (λ x, x = true) b)).
Proof.
  intros Hs Ho Ha Hb Hmask Hrect.
  assert (∀ k, k < length matches → ∃ i v, matches !! k = Some i ∧ col_value s input i v ∧ getCount v = length b) as Hrow.
  { intros k Hk. destruct (lookup_lt_is_Some_2 matches k Hk) as [i Hi]. unfold rectangular in Hrect.
    rewrite Forall_lookup in Hrect. destruct (Hrect k i Hi) as (v & ? & ?). by exists i, v. }
  destruct (setup_ok input matches 0 output s Hs Ho Ha) as (s1 & out1 & Hrun1 & Hev1 & Hcols & Hrest & _).
  { eapply Forall_impl; [exact Hrect|]. intros i (v & Hv & _). by eapply col_value_is_Some. }
  destruct (evolves_processed _ input _ _ _ Hs Ha Hev1) as (_ & Ha1 & Hcv1).
  assert (∀ k i v, matches !! k = Some i → col_value s input i v →
    ∃ p, out1 !! k = Some (Column p false) ∧ ¬ owns out1 p ∧ vectors s1 !! p = Some v) as Hshallow.
  { intros k i v Hk Hv. destruct (Hcols k i Hk) as (c & Hc & Hoc).
    destruct (setup_column s1 input out1 k i c v Ha1 (Hcv1 _ _ Hv) Hc Hoc) as [(d & Hd & Hdv) Hno]. simpl in Hoc.
    simplify_eq. by exists (contents c). }
  assert (size out1 = length matches) as Hsize.
  { apply size_below; [|intros k Hk; destruct (Hrow k Hk) as (i & v & Hi & Hv & _); by destruct (Hshallow k i v Hi Hv) as (p & -> & _)].
    intros k Hk. destruct (decide (k < length matches)); [done|]. apply Hb. by rewrite <- Hrest by lia. }
  destruct (filter_columns_ok b (size out1) 0 out1 s1 (ev_store _ _ _ _ Hev1) (ev_owner _ _ _ _ Hev1))
    as (s2 & out2 & Hrun2 & Hev2 & Hin & Hrest2 & _).
  { rewrite Hsize. intros k Hk. destruct (Hrow k ltac:(lia)) as (i & v & Hi & Hv & Hc).
    destruct (Hshallow k i v Hi Hv) as (p & Hp & Hno & Hpv). exists p, v. eexists. by rewrite with_elements_sieve. }
  rewrite Hsize in Hin, Hrest2.
  assert (∀ k i v, matches !! k = Some i → col_value s input i v → col_value s2 out2 k (vmap (sieve b) v)) as Hout.
  { intros k i v Hk Hv. pose proof (lookup_lt_Some _ _ _ Hk). destruct (Hshallow k i v Hk Hv) as (p & Hp & _ & Hpv).
    destruct (Hin k p v ltac:(lia) Hp Hpv) as (q & v' & Hq & Hv' & Hqv). exists (Column q true). split; [done|]. simpl.
    assert (getCount v = length b) as Hc.
    { destruct (Hrow k ltac:(lia)) as (i' & w & Hi' & (cw & ? & Hw) & Hc). destruct Hv as (cv & ? & Hv). by simplify_eq. }
    rewrite with_elements_sieve in Hv' by done. congruence. }
  assert (columns_below out2 (length matches)) as Hb2.
  { intros k Hk. destruct (decide (k < length matches)); [done|]. apply Hb. by rewrite <- (Hrest k) by lia; rewrite <- Hrest2 by lia. }
  exists s2, out2. split; [|split; [|split; [done|split; [|split; [exact Hout|]]]]].
  - unfold FilterExecutor_process. run. rewrite Hrun1. run. rewrite (column_as_ok _ _ _ _ _ (Hcv1 _ _ Hmask)). run. exact Hrun2.
  - apply evolves_processed; [done..|]. by eapply evolves_trans.
  - intros k c Hc. left. assert (k < length matches) as Hk by (apply Hb2; by exists c). destruct (Hrow k Hk) as (i & v & Hi & Hv & _).
    destruct (Hshallow k i v Hi Hv) as (p & Hp & _ & Hpv). destruct (Hin k p v ltac:(lia) Hp Hpv) as (q & v' & Hq & _).
    by simplify_eq.
  - apply Forall_lookup. intros k j Hk. apply lookup_seq in Hk as [-> Hk]. simpl.
    destruct (Hrow k Hk) as (i & v & Hi & Hv & Hc). exists (vmap (sieve b) v). split; [by apply (Hout k i)|].
    apply getCount_vmap. intros A l Hl. apply sieve_length. lia.
Qed.

(** The appended column survives the set-up of the other columns. *)
Lemma appended_kept τ n s output s1 out1 :
  appended τ n s output → columns_below out1 (S n) → out1 !! n = output !! n →
  (∀ c, output !! n = Some c → mustDelete c = true → vectors s1 !! contents c = vectors s !! contents c) →
  appended τ n s1 out1.
Proof.
  intros [_ Ha] Hb Hn Hk. split; [done|]. intros c Hc. rewrite Hn in Hc. destruct (Ha c Hc) as [Hm (v & Hv & Ht)].
  split; [done|]. exists v. by rewrite Hk.
Qed.

Lemma below_rest ts ts' n : columns_below ts (S n) → (∀ j, n ≤ j → ts' !! j = ts !! j) → columns_below ts' (S n).
Proof.
  intros Hb Hr k Hk. destruct (decide (k < S n)); [done|]. apply Hb. by rewrite <- Hr by lia.
Qed.

(** The appended column after it was written, and the columns before it. *)
Lemma appended_result τ n p v s' out :
  columns_below out (S n) → out !! n = Some (Column p true) → vectors s' !! p = Some v → type_of v = τ →
  appended τ n s' out ∧ col_value s' out n v.
Proof.
  intros Hb Hp Hv Ht. split; [|by exists (Column p true)]. split; [done|]. intros c Hc. simplify_eq. split; [done|]. by exists v.
Qed.

(** The set-up of an executor that appends a column and writes it. *)
Lemma setup_append τ v0 input matches output s (v : vector O → vector O) :
  store_ok s → owner_ok s output → apart s input output → appended τ (length matches) s output →
  Forall (λ i, is_Some (input !! i)) matches →
  ∃ s1 out1 s2 out2 p w s3, setup input matches 0 output s = (Ret out1, s1) ∧
    (if hasColumn (length matches) out1 then mret out1
     else p ← new_vector v0; addColumn (length matches) p true out1) s1 = (Ret out2, s2) ∧
    out2 !! length matches = Some (Column p true) ∧ vectors s2 !! p = Some w ∧ (w = v0 ∨ type_of w = τ) ∧
    write_vector p (v w) s2 = (Ret tt, s3) ∧ vectors s3 !! p = Some (v w) ∧
    processed s input output s3 out2 ∧ columns_below out2 (S (length matches)) ∧ supported matches input out2 ∧
    (∀ i v, col_value s input i v → col_value s1 input i v) ∧
    (∀ k i c, matches !! k = Some i → input !! i = Some c → out2 !! k = Some (Column (contents c) false)) ∧
    (∀ k i v, matches !! k = Some i → col_value s input i v → col_value s2 out2 k v ∧ col_value s3 out2 k v).
Proof.
  intros Hs Ho Ha Happ Hall. set (m := length matches) in *.
  destruct (setup_ok input matches 0 output s Hs Ho Ha Hall) as (s1 & out1 & Hrun1 & Hev1 & Hcols & Hrest & Hkeep).
  destruct (evolves_processed _ input _ _ _ Hs Ha Hev1) as (_ & Ha1 & Hcv1).
  assert (appended τ m s1 out1) as Happ1.
  { eapply appended_kept; [done| |by apply Hrest; right|by intros c Hc; apply (Hkeep m c)].
    apply (below_rest output); [apply Happ|]. intros j Hj. apply Hrest. by right. }
  destruct (append_column τ v0 m s1 out1 v (ev_store _ _ _ _ Hev1) (ev_owner _ _ _ _ Hev1) Happ1)
    as (s2 & out2 & p & s3 & Hrun2 & Hp & w & Hw & Hty & Hrun3 & Hv3 & Hev3 & Hev2 & Hsame & Hb2 & Hvals).
  { intros k Hk. destruct (lookup_lt_is_Some_2 matches k Hk) as [i Hi]. destruct (Hcols k i Hi) as (c & _ & Hc). by eexists. }
  exists s1, out1, s2, out2, p, w, s3. split_and!; try done.
  { apply evolves_processed; [done..|]. by eapply evolves_trans. }
  { intros k c Hc. assert (k < S m) by (apply Hb2; by exists c). destruct (decide (k = m)) as [->|].
    - left. by simplify_eq.
    - right. destruct (lookup_lt_is_Some_2 matches k ltac:(lia)) as [i Hi]. destruct (Hcols k i Hi) as (d & Hd & Hod).
      rewrite Hsame in Hc by lia. simpl in Hod. exists i, d. split; [done|]. split; [done|]. by simplify_eq. }
  { intros k i c Hk Hc. pose proof (lookup_lt_Some _ _ _ Hk). destruct (Hcols k i Hk) as (d & Hd & Hod).
    rewrite Hsame by done. simpl in Hod. by simplify_eq. }
  intros k i u Hk Hu. pose proof (lookup_lt_Some _ _ _ Hk). destruct (Hcols k i Hk) as (c & Hc & Hoc).
  destruct (setup_column s1 input out1 k i c u Ha1 (Hcv1 _ _ Hu) Hc Hoc) as [(d & Hd & Hdv) Hno].
  simpl in Hoc. assert (d = Column (contents c) false) as -> by congruence. simpl in Hdv.
  destruct (Hvals k _ ltac:(done) Hd ltac:(by exists u) ltac:(by right)) as [H2 H3]. simpl in H2, H3.
  split; (exists (Column (contents c) false); rewrite Hsame by done; split; [done|]; simpl; by rewrite ?H2, ?H3).
Qed.

Lemma rectangular_is_Some s input matches n : rectangular s input matches n → Forall (λ i, is_Some (input !! i)) matches.
Proof. intros Hr. eapply Forall_impl; [exact Hr|]. intros i (v & Hv & _). by eapply col_value_is_Some. Qed.

Lemma rectangular_lookup s input matches n k :
  rectangular s input matches n → k < length matches → ∃ i v, matches !! k = Some i ∧ col_value s input i v ∧ getCount v = n.
Proof.
  intros Hr Hk. destruct (lookup_lt_is_Some_2 matches k Hk) as [i Hi]. unfold rectangular in Hr.
  rewrite Forall_lookup in Hr. destruct (Hr k i Hi) as (v & ? & ?). by exists i, v.
Qed.

(** [HASHONE] passes the columns to include on and appends a column of ones,
    one per row, provided that the attribute it operates on is among the first
    columns of the output. *)
Lemma HashOneExecutor_process_ok matches whichAtt input output n s :
  store_ok s → owner_ok s output → apart s input output → appended TNumber (length matches) s output →
  whichAtt < length matches → rectangular s input matches n →
  ∃ s' output', HashOneExecutor_process matches whichAtt (length matches) output input s = (Ret output', s') ∧
    processed s input output s' output' ∧ appended TNumber (length matches) s' output' ∧ supported matches input output' ∧
    (∀ k i v, matches !! k = Some i → col_value s input i v → col_value s' output' k v) ∧
    col_value s' output' (length matches) (Numbers (replicate n 1%Z)).
Proof.
  intros Hs Ho Ha Happ Hw Hrect.
  destruct (setup_append TNumber (Numbers []) input matches output s (λ _, Numbers (replicate n 1%Z)) Hs Ho Ha Happ (rectangular_is_Some _ _ _ _ Hrect))
    as (s1 & out1 & s2 & out2 & p & w & s3 & Hrun1 & Hrun2 & Hp & Hpw & Hty & Hrun3 & Hv3 & Hpr & Hb & Hsup & Hs1 & Hshallow & Hout).
  destruct (rectangular_lookup _ _ _ _ _ Hrect Hw) as (i & v & Hi & Hv & Hc).
  destruct (Hout _ _ _ Hi Hv) as [(c & Hcc & Hcv) _].
  destruct (appended_result TNumber _ p _ s3 out2 Hb Hp Hv3 eq_refl) as [Happ' Hcol].
  exists s3, out2. split; [|split_and!; [done|done|done| |done]]; [|intros k j u Hk Hu; by apply (Hout k j u)].
  assert (∃ l, w = Numbers l) as [l ->] by (destruct Hty as [->|?]; [by eexists|destruct w; try done; by eexists]).
  unfold HashOneExecutor_process. run. rewrite Hrun1. run. rewrite Hrun2. run.
  unfold getColumn at 1. rewrite Hp. run. erewrite column_as_ok by (by exists (Column p true)). run.
  unfold getNumRows. rewrite Hcc. run. unfold read_vector. rewrite Hcv. run. rewrite Hc.
  destruct (Z.ltb_spec (Z.of_nat n) 0); [lia|]. rewrite Nat2Z.id. run. cbn [contents]. by rewrite Hrun3.
Qed.

(** The row count of the output is asked for with the position that the
    attribute has in the input.  If the output has no such column, it is -1 and
    the process stops. *)
Theorem HashOneExecutor_other_schema matches whichAtt input output s :
  store_ok s → owner_ok s output → apart s input output → appended TNumber (length matches) s output →
  length matches < whichAtt → Forall (λ i, is_Some (input !! i)) matches →
  ∃ s', HashOneExecutor_process matches whichAtt (length matches) output input s = (Exit 134, s').
Proof.
  intros Hs Ho Ha Happ Hw Hall.
  destruct (setup_append TNumber (Numbers []) input matches output s (λ _, Numbers []) Hs Ho Ha Happ Hall)
    as (s1 & out1 & s2 & out2 & p & w & s3 & Hrun1 & Hrun2 & Hp & Hpw & Hty & Hrun3 & Hv3 & Hpr & Hb & Hsup & Hs1 & Hshallow & Hout).
  assert (∃ l, w = Numbers l) as [l ->] by (destruct Hty as [->|?]; [by eexists|destruct w; try done; by eexists]).
  eexists. unfold HashOneExecutor_process. run. rewrite Hrun1. run. rewrite Hrun2. run.
  unfold getColumn at 1. rewrite Hp. run. erewrite column_as_ok by (by exists (Column p true)). run.
  unfold getNumRows. assert (out2 !! whichAtt = None) as ->; [|run; done].
  apply eq_None_not_Some. intros Hx. specialize (Hb _ Hx). lia.
Qed.

(** [FLATTEN] takes a column of vectors apart: every object of every vector
    gets a row of its own, in order, with the other columns repeated beside it. *)
Lemma FlattenExecutor_process_ok matches whichAtt input output rows s :
  store_ok s → owner_ok s output → apart s input output → appended TObject (length matches) s output →
  col_value s input whichAtt (Vectors rows) → rectangular s input matches (length rows) →
  ∃ s' output', FlattenExecutor_process matches whichAtt (length matches) output input s = (Ret output', s') ∧
    processed s input output s' output' ∧ appended TObject (length matches) s' output' ∧ supported matches input output' ∧
    (∀ k i v, matches !! k = Some i → col_value s input i v → col_value s' output' k (vmap (repeated (length <$> rows)) v)) ∧
    col_value s' output' (length matches) (Objects (concat rows)).
Proof.
  intros Hs Ho Ha Happ Hrows Hrect. set (counts := length <$> rows). set (m := length matches) in *.
  assert (∀ k i v, matches !! k = Some i → col_value s input i v → getCount v = length counts) as Hcount.
  { intros k i v Hk (c & Hc & Hv). destruct (rectangular_lookup _ _ _ _ _ Hrect (lookup_lt_Some _ _ _ Hk)) as (j & w & Hj & (d & Hd & Hw) & Hn).
    unfold counts. rewrite length_fmap. by simplify_eq. }
  destruct (machine_replicate_ok input counts matches 0 output s Hs Ho Ha) as (s1 & out1 & Hrun1 & Hev1 & Hcols & Hrest & Hkeep).
  { apply Forall_lookup. intros k i Hk. destruct (rectangular_lookup _ _ _ _ _ Hrect (lookup_lt_Some _ _ _ Hk)) as (j & w & Hj & Hw & Hn).
    simplify_eq. exists w. eexists. split; [done|]. apply with_elements_repeated. by eapply Hcount. }
  assert (appended TObject m s1 out1) as Happ1.
  { eapply appended_kept; [done| |by apply Hrest; right|intros c Hc Hm; apply (Hkeep m c); [by right|done..]].
    apply (below_rest output); [apply Happ|]. intros j Hj. apply Hrest. by right. }
  destruct (append_column TObject (Objects []) m s1 out1 (λ _, Objects (concat rows)) (ev_store _ _ _ _ Hev1) (ev_owner _ _ _ _ Hev1) Happ1)
    as (s2 & out2 & p & s3 & Hrun2 & Hp & w & Hw & Hty & Hrun3 & Hv3 & Hev3 & Hev2 & Hsame & Hb2 & Hvals).
  { intros k Hk. destruct (rectangular_lookup _ _ _ _ _ Hrect Hk) as (i & w & Hi & Hw & _). destruct (Hcols k i w Hi Hw) as (? & ? & Hc & _). by eexists. }
  destruct (appended_result TObject _ p _ s3 out2 Hb2 Hp Hv3 eq_refl) as [Happ' Hcol].
  exists s3, out2. split; [|split; [|split_and!; [done| | |done]]].
  - assert (∃ l, w = Objects l) as [l ->] by (destruct Hty as [->|?]; [by eexists|destruct w; try done; by eexists]).
    unfold FlattenExecutor_process. run. rewrite (column_as_ok _ _ _ _ _ Hrows). cbn [object_vectors]. run. cbv zeta. fold counts. run. rewrite Hrun1. run. rewrite Hrun2. run.
    unfold getColumn at 1. rewrite Hp. run. erewrite column_as_ok by (by exists (Column p true)). run. cbn [contents]. by rewrite Hrun3.
  - apply evolves_processed; [done..|]. by eapply evolves_trans.
  - intros k c Hc. left. assert (k < S m) by (apply Hb2; by exists c). destruct (decide (k = m)) as [->|].
    { by simplify_eq. }
    destruct (rectangular_lookup _ _ _ _ k Hrect ltac:(lia)) as (i & u & Hi & Hu & _).
    destruct (Hcols k i u Hi Hu) as (q & v' & Hq & _). simpl in Hq. rewrite <- (Hsame k) in Hq by lia. by simplify_eq.
  - intros k i v Hk Hv. pose proof (lookup_lt_Some _ _ _ Hk). destruct (Hcols k i v Hk Hv) as (q & v' & Hq & Hv' & Hqv). simpl in Hq.
    rewrite with_elements_repeated in Hv' by by eapply Hcount. injection Hv' as <-.
    destruct (Hvals k _ ltac:(done) Hq ltac:(by eexists) ltac:(by left)) as [_ H3]. simpl in H3.
    exists (Column q true). rewrite Hsame by done. split; [done|]. simpl. by rewrite H3.
Qed.
End facts.

(** ** Executors with their output

    The output is a member of the executor: it keeps what was done to it also
    when the call throws. *)

Record executor {O : Type} := Exec {
  heap : store O;
  output : tuple_set
}.
Arguments executor : clear implicits.
Arguments Exec {O}.

(** A call that changes the output and returns it, as one that does not throw. *)
Definition on_output {O} (m : tuple_set → M (store O) tuple_set) : M (executor O) tuple_set := λ e,
  let '(r, s) := m (output e) (heap e) in (r, Exec s (match r with Ret ts => ts | _ => output e end)).

Definition in_heap {O A} (m : M (store O) A) : M (executor O) A := λ e,
  let '(r, s) := m (heap e) in (r, Exec s (output e)).

(** The vectors of a tuple set have kept their types. *)
Definition types_kept {O} (s s' : store O) (ts : tuple_set) : Prop :=
  ∀ p v, owns ts p → vectors s !! p = Some v → ∃ v', vectors s' !! p = Some v' ∧ type_of v' = type_of v.

(** What a pipeline relies on in a stage.  [before s t l]: the tuple set [t] has
    the rows [l] in the columns that the stage needs; [after] says the same of
    its output, which has the rows [f l] and passes on the columns [passes].
    The stage is [ready] when its output is one that it can use again; it may
    run out of space, which can depend on the number of the page, [now], and is
    then ready to try again. *)
Class StageLaws {O R} (process : nat → tuple_set → M (executor O) tuple_set) (ready : store O → tuple_set → Prop)
    (before after : store O → tuple_set → list R → Prop) (f : list R → list R) (passes : list nat) : Prop := {
  stage_frame s s' ts : ready s ts → types_kept s s' ts → ready s' ts;
  stage_before s s' ts l : before s ts l → (∀ i v, col_value s ts i v → col_value s' ts i v) → before s' ts l;
  stage_process now s input out l :
    store_ok s → owner_ok s out → apart s input out → ready s out → before s input l →
    match process now input (Exec s out) with
    | (Ret t, Exec s' out') => t = out' ∧ processed s input out s' out' ∧ ready s' out' ∧ supported passes input out' ∧ after s' out' (f l)
    | (NotEnoughSpace, Exec s' out') => processed s input out s' out' ∧ ready s' out'
    | _ => False
    end
}.

Lemma owns_empty p : ¬ owns ∅ p.
Proof. intros (i & c & Hi & _). by rewrite lookup_empty in Hi. Qed.

Lemma owner_ok_empty {O} (s : store O) : owner_ok s ∅.
Proof. intros i c Hi. by rewrite lookup_empty in Hi. Qed.

(** After the destructor of a tuple set that started out empty, the vectors are
    those there were. *)
Lemma evolves_destroy {O} (s s' : store O) ts :
  store_ok s → evolves s ∅ s' ts → ∃ s'', TupleSet_destroy ts s' = (Ret tt, s'') ∧ vectors s'' = vectors s.
Proof.
  intros Hs Hev. destruct (TupleSet_destroy_ok ts s' (ev_owner _ _ _ _ Hev)) as (s'' & Hrun & _ & Hv).
  exists s''. split; [done|]. apply map_eq. intros p. destruct (Hv p) as [Hin Hout].
  destruct (vectors s !! p) as [v|] eqn:Hp.
  - pose proof (Hs p ltac:(by exists v)) as Hlt. rewrite Hout.
    + by rewrite (ev_frame _ _ _ _ Hev p (owns_empty p) Hlt).
    + intros Ho. destruct (ev_owns _ _ _ _ Hev p Ho) as [Hemp|?]; [by apply owns_empty in Hemp|lia].
  - destruct (vectors s'' !! p) as [w|] eqn:Hw; [|done].
    assert (¬ owns ts p) as Hno by (intros Ho; specialize (Hin Ho); congruence).
    assert (live s' p) as Hl by (exists w; by rewrite <- (Hout Hno)). apply (ev_live _ _ _ _ Hev) in Hl as [[[x Hx] _]|?]; [congruence|done].
Qed.

(** ** A stage over a stream of tuple sets *)

(** A stage is given tuple sets one by one, whatever pages it gets; when it runs
    out of space the next one is tried. *)
Fixpoint process_all {O} (process : nat → tuple_set → M (executor O) tuple_set) (inputs : list (nat * tuple_set)) : M (executor O) unit :=
  match inputs with
  | [] => mret tt
  | (now, input) :: inputs' => catch (process now input ;; mret tt) (mret tt) ;; process_all process inputs'
  end.

Section streams.
Context {O R : Type} (process : nat → tuple_set → M (executor O) tuple_set) (ready : store O → tuple_set → Prop)
  (before after : store O → tuple_set → list R → Prop) (f : list R → list R) (passes : list nat).
Context `{Hlaws : !StageLaws process ready before after f passes}.

Lemma process_all_ok inputs : ∀ s out,
  store_ok s → owner_ok s out → ready s out → Forall (λ '(_, input), apart s input out ∧ ∃ l, before s input l) inputs →
  ∃ s' out', process_all process inputs (Exec s out) = (Ret tt, Exec s' out') ∧ evolves s out s' out' ∧ ready s' out'.
Proof using Hlaws.
  induction inputs as [|[now input] inputs IH]; intros s out Hs Ho Hr Hall.
  { exists s, out. split_and!; try done; by apply evolves_refl. }
  apply Forall_cons in Hall as [[Ha [l Hl]] Hall]. pose proof (stage_process now s input out l Hs Ho Ha Hr Hl) as Hp.
  assert (∃ s1 out1, catch (process now input ;; mret tt) (mret tt) (Exec s out) = (Ret tt, Exec s1 out1) ∧
    evolves s out s1 out1 ∧ ready s1 out1) as (s1 & out1 & Hrun & Hev & Hr1).
  { unfold catch. rewrite M_bind_unfold. destruct (process now input (Exec s out)) as [[t| | |] [s1 out1]]; try done.
    - destruct Hp as (_ & [Hev _] & Hr1 & _). by exists s1, out1.
    - destruct Hp as ([Hev _] & Hr1). by exists s1, out1. }
  destruct (IH s1 out1 (ev_store _ _ _ _ Hev) (ev_owner _ _ _ _ Hev) Hr1) as (s2 & out2 & Hrun2 & Hev2 & Hr2).
  { eapply Forall_impl; [exact Hall|]. intros [now' input'] [Ha' [l' Hl']]. split; [by eapply apart_evolves|]. exists l'.
    eapply stage_before; [exact Hl'|]. intros i v. by eapply col_value_evolves. }
  exists s2, out2. split_and!; [simpl; run; by rewrite Hrun|by eapply evolves_trans|done].
Qed.
End streams.

(** A stage starts with the output [out] that its constructor has made.  However
    many tuple sets it is given and wherever it runs out of space, the vectors
    that it was given are not changed, and when its output is destroyed every
    vector that it or its constructor made has been deleted exactly once: what is
    left are the vectors there were before. *)
Theorem stage_leaves_nothing {O R} (process : nat → tuple_set → M (executor O) tuple_set) (ready : store O → tuple_set → Prop)
    (before after : store O → tuple_set → list R → Prop) (f : list R → list R) (passes : list nat) `{!StageLaws process ready before after f passes}
    (inputs : list (nat * tuple_set)) (s0 s : store O) (out : tuple_set) :
  store_ok s0 → evolves s0 ∅ s out → ready s out →
  Forall (λ '(_, input), (∀ i c, input !! i = Some c → live s0 (contents c)) ∧ ∃ l, before s0 input l) inputs →
  ∃ s' out', (process_all process inputs ;; e ← get; in_heap (TupleSet_destroy (output e))) (Exec s out) = (Ret tt, Exec s' out') ∧
    vectors s' = vectors s0.
Proof.
  intros Hs0 Hnew Hrdy Hall.
  destruct (process_all_ok process ready before after f passes inputs s out (ev_store _ _ _ _ Hnew) (ev_owner _ _ _ _ Hnew) Hrdy) as (s1 & out1 & Hrun & Hev & _).
  { eapply Forall_impl; [exact Hall|]. intros [now input] [Hl [l Hf]].
    assert (apart s0 input ∅) as Ha by (intros i c Hc; split; [by eapply Hl|apply owns_empty]).
    split; [by eapply apart_evolves|]. exists l. eapply stage_before; [exact Hf|]. intros i v. by eapply col_value_evolves. }
  destruct (evolves_destroy s0 s1 out1 Hs0 (evolves_trans _ _ _ _ _ _ Hs0 Hnew Hev)) as (s2 & Hrun2 & Hv). exists s2, out1.
  run. rewrite Hrun. run. unfold in_heap. simpl. by rewrite Hrun2.
Qed.

(** ** The executors as stages *)

Section instances.
Context {O : Type}.
Implicit Types (s : store O) (ts : tuple_set).

Lemma columns_below_empty n : columns_below ∅ n.
Proof. intros k [c Hc]. by rewrite lookup_empty in Hc. Qed.

Lemma appended_empty τ n s : appended τ n s ∅.
Proof. split; [apply columns_below_empty|]. intros c Hc. by rewrite lookup_empty in Hc. Qed.

Lemma appended_frame τ n s s' ts : appended τ n s ts → types_kept s s' ts → appended τ n s' ts.
Proof.
  intros [Hb Ha] Hv. split; [done|]. intros c Hc. destruct (Ha c Hc) as (Hm & v & Hcv & Ht). split; [done|].
  destruct (Hv (contents c) v) as (v' & ? & ?); [by exists n, c|done|]. exists v'. split; [done|congruence].
Qed.

Lemma rectangular_kept s s' ts matches n :
  rectangular s ts matches n → (∀ i v, col_value s ts i v → col_value s' ts i v) → rectangular s' ts matches n.
Proof. intros Hr Hk. eapply Forall_impl; [exact Hr|]. intros i (v & Hv & Hn). exists v. split; [by apply Hk|done]. Qed.
End instances.

(** ** Witness *)

(** Three columns of objects; [HASHONE] works on the last, the only one that it
    passes on. *)
Definition three_columns : tuple_set := {[0 := Column 0 true; 1 := Column 1 true; 2 := Column 2 true]}.
Definition three_vectors : store Z := Store {[0 := Objects [Some 1%Z]; 1 := Objects [Some 2%Z]; 2 := Objects [Some 3%Z]]} 3.

Lemma three_vectors_ok : store_ok three_vectors.
Proof.
  intros p [v Hv]. unfold three_vectors in *. simpl in *. rewrite !lookup_insert_Some, lookup_singleton_Some in Hv. naive_solver lia.
Qed.

Lemma HashOneExecutor_other_schema_witness :
  ∃ s', HashOneExecutor_process [2] 2 1 ∅ three_columns three_vectors = (Exit 134, s').
Proof.
  apply (HashOneExecutor_other_schema [2] 2 three_columns ∅ three_vectors).
  - apply three_vectors_ok.
  - apply owner_ok_empty.
  - intros i c Hc. split; [|apply owns_empty]. unfold three_columns in Hc. rewrite !lookup_insert_Some, lookup_singleton_Some in Hc.
    assert (contents c = 0 ∨ contents c = 1 ∨ contents c = 2) as [->|[->| ->]] by naive_solver; by eexists.
  - apply appended_empty.
  - simpl. lia.
  - repeat constructor. by eexists.
Defined.
