(* ===== verification/JoinProbe.v ===== *)
(** * JoinProbe: rows of hash joins, and the executors that probe

    Models [lambdas/headers/JoinTuple.h]: the columns that hold the components
    of join tuples, [createCols], [unpack], [eraseEnd] and [truncate], and the
    executors [JoinProbe] and [PartitionedJoinProbe] over the tables of
    [JoinPairArray].  A join tuple is the list of its components.  The executors
    keep pointers to the columns that they made in their constructor; a handle
    that is unpacked from a table stands for the object it leads to. *)

From S2P Require Import Prelude.
From S2P Require Import JoinPairArray.
From S2P Require Import TupleSet.
From S2P Require Import Executor.

Inductive JoinType := HashPartitionedJoin | BroadcastJoin | LocalJoin | CrossProduct | UnknownJoin.

#[export] Instance JoinType_eq_dec : EqDecision JoinType.
Proof. solve_decision. Defined.

(** ** Columns of join tuples *)

Section columns.
Context {O : Type}.
Local Abbreviation M := (M (store O)).
Local Abbreviation join_tuple := (list O).

(** The vector behind the [void*] of a column. *)
Definition read_objects (p : nat) : M (list (option O)) := v ← read_vector p; lift (objects v).

(** [copyTo]: row [whichPos] of the column gets a handle to the component; for a
    row behind the end an object is made and pushed first. *)
Definition copyTo (fits : bool) (x : O) (input whichPos : nat) : M unit :=
  me ← read_objects input;
  if decide (length me ≤ whichPos) then
    if fits then write_vector input (Objects (me ++ [Some x])) else lift NotEnoughSpace
  else write_vector input (Objects (<[whichPos := Some x]> me)).

(** [us[whichVec]] *)
Definition column_pointer (us : list nat) (whichVec : nat) : M nat :=
  match us !! whichVec with Some p => mret p | None => lift Undefined end.

Fixpoint unpack (fits : nat → bool) (arg : join_tuple) (whichPosInTupleSet whichVec : nat) (us : list nat) : M unit :=
  match arg with
  | [] => mret tt
  | myData :: myOtherData =>
      p ← column_pointer us whichVec;
      copyTo (fits whichVec) myData p whichPosInTupleSet ;;
      unpack fits myOtherData whichPosInTupleSet (S whichVec) us
  end.

(** [valColumn.resize(i)] for the columns from [whichVec] on; [width] is the
    number of components left. *)
Fixpoint eraseEnd (i whichVec width : nat) (us : list nat) : M unit :=
  match width with
  | 0 => mret tt
  | S width' =>
      p ← column_pointer us whichVec;
      valColumn ← read_objects p;
      write_vector p (Objects (resize i None valColumn)) ;;
      eraseEnd i (S whichVec) width' us
  end.

(** A new column for every component, at [offset + positions[whichPos]]; returns
    the pointers [putUsHere]. *)
Fixpoint createCols (offset whichPos width : nat) (positions : list nat) (processMe : tuple_set) : M (tuple_set * list nat) :=
  match width with
  | 0 => mret (processMe, [])
  | S width' =>
      match positions !! whichPos with
      | None => lift Undefined
      | Some q =>
          me ← new_vector (Objects []);
          processMe ← addColumn (offset + q) me true processMe;
          '(processMe, putUsHere) ← createCols offset (S whichPos) width' positions processMe;
          mret (processMe, me :: putUsHere)
      end
  end.

(** ** Probing *)

(** The table that a probe looks a hash up in. *)
Inductive prober :=
| Broadcast (inputTable : option (JoinPairArray join_tuple))
| Partitioned (numPartitionsPerNode numNodes : nat) (inputTables : list (JoinPairArray join_tuple))
    (partitionedJoinType : JoinType) (threadId : nat).

(** [value % (numPartitionsPerNode * numNodes) % numPartitionsPerNode]; the
    remainder by zero is not defined. *)
Definition probe_index (numPartitionsPerNode numNodes : nat) (value : Z) : outcome nat :=
  if decide (numPartitionsPerNode * numNodes = 0) then Undefined
  else Ret (Z.to_nat (value mod Z.of_nat (numPartitionsPerNode * numNodes) mod Z.of_nat numPartitionsPerNode)).

Definition table_of (pr : prober) (value : Z) : outcome (JoinPairArray join_tuple) :=
  match pr with
  | Broadcast (Some inputTable) => Ret inputTable
  | Broadcast None => Undefined
  | Partitioned numPartitionsPerNode numNodes inputTables partitionedJoinType threadId =>
      index ← (if decide (partitionedJoinType = CrossProduct) then Ret threadId else probe_index numPartitionsPerNode numNodes value);
      match inputTables !! index with Some t => Ret t | None => Undefined end
  end.

(** [a[which]] *)
Definition record_at (jp : JoinPairArray join_tuple) (a which : nat) : outcome join_tuple :=
  match rl_at jp a which with Some t => Ret t | None => Undefined end.

(** The matches of one row from [which] on; returns [overallCounter]. *)
Fixpoint unpack_hits (fits : nat → nat → bool) (jp : JoinPairArray join_tuple) (a which todo overallCounter : nat) (us : list nat) : M nat :=
  match todo with
  | 0 => mret overallCounter
  | S todo' =>
      t ← lift (record_at jp a which);
      unpack (fits overallCounter) t overallCounter 0 us ;;
      unpack_hits fits jp a (S which) todo' (S overallCounter) us
  end.

(** One row of the input: its number of matches, and [overallCounter]. *)
Definition probe_row (fits : nat → nat → bool) (jp : JoinPairArray join_tuple) (value : Z) (overallCounter : nat) (us : list nat) : M (nat * nat) :=
  numHits ← lift (JoinMap_count jp value);
  if (0 <? numHits)%Z then
    a ← lift (JoinMap_lookup jp value);
    aSize ← lift (match rl_size jp a with Some n => Ret n | None => Undefined end);
    overallCounter ← unpack_hits fits jp a 0 aSize overallCounter us;
    mret (aSize, overallCounter)
  else mret (0, overallCounter).

(** The loop over the hashes of the input: [counts] and [overallCounter]. *)
Fixpoint probe_rows (fits : nat → nat → bool) (pr : prober) (inputHash : list Z) (overallCounter : nat) (us : list nat) : M (list nat * nat) :=
  match inputHash with
  | [] => mret ([], overallCounter)
  | value :: inputHash' =>
      inputTableRef ← lift (table_of pr value);
      '(numHits, overallCounter) ← probe_row fits inputTableRef value overallCounter us;
      '(counts, overallCounter) ← probe_rows fits pr inputHash' overallCounter us;
      mret (numHits :: counts, overallCounter)
  end.

(** The constructor makes the output with the columns of the table: behind the
    attributes to include, or before them.  [width] is the number of components of the
    tuples, [natts] that of the attributes. *)
Definition JoinProbe_new (width natts : nat) (positions : list nat) (needToSwapLHSAndRhs : bool) : M (tuple_set * list nat) :=
  createCols (if needToSwapLHSAndRhs then 0 else natts) 0 width positions ∅.
(** [process] of both probes; without a table [JoinProbe] returns a null tuple
    set.  [columns] are the pointers of the constructor, [offset] is where the
    attributes to include go.  [fits] says which of the objects that are made
    for rows behind the end of a column find room. *)
Definition JoinProbe_process (matches : list nat) (whichAtt width offset : nat) (pr : prober) (fits : nat → nat → bool)
    (columns : list nat) (input : tuple_set) : Prelude.M (executor O) (option tuple_set) :=
  match pr with
  | Broadcast None => mret None
  | _ =>
      inputHash ← in_heap (column_as numbers whichAtt input);
      '(counts, overallCounter) ← in_heap (probe_rows fits pr inputHash 0 columns);
      in_heap (eraseEnd overallCounter 0 width columns) ;;
      output ← on_output (λ output, machine_replicate input counts matches offset output);
      mret (Some output)
  end.
End columns.

(** ** What a probe finds *)

Section facts.
Context {O : Type}.
Local Abbreviation join_tuple := (list O).
Implicit Types (s : store O) (ts input out : tuple_set) (us places : list nat) (jp : JoinPairArray join_tuple).

Definition matches_in jp (h : Z) : list join_tuple := default [] (to_multimap jp !! jm_hash h).

Definition matches_of (pr : prober) (h : Z) : list join_tuple :=
  match table_of pr h with Ret jp => matches_in jp h | _ => [] end.

(** Every hash has a table, which is well formed and has tuples of [width]
    components. *)
Definition prober_ok (width : nat) (pr : prober) : Prop :=
  ∀ h, ∃ jp, table_of pr h = Ret jp ∧ jwf jp ∧ ∀ h' t, t ∈ matches_in jp h' → length t = width.

(** The columns that the executor made are at [places] of its output. *)
Definition held out places us : Prop := Forall2 (λ i p, out !! i = Some (Column p true)) places us.

(** Column [k] starts with component [k] of [rows k]. *)
Definition filled s us (rows : nat → list join_tuple) : Prop :=
  ∀ k p, us !! k = Some p → ∃ l, vectors s !! p = Some (Objects l) ∧ length (rows k) ≤ length l ∧
    take (length (rows k)) l = (λ t, t !! k) <$> rows k.

Lemma filled_nil s us rows : filled s us rows → filled s us (λ _, []).
Proof. intros Hf k p Hk. destruct (Hf k p Hk) as (l & Hl & _). exists l. split; [done|]. simpl. split; [lia|done]. Qed.

Lemma filled_ext s us rows rows' : (∀ k, k < length us → rows k = rows' k) → filled s us rows → filled s us rows'.
Proof.
  intros He Hf k p Hk. rewrite <- He by by eapply lookup_lt_Some. by apply Hf.
Qed.

Lemma read_objects_ok s p l : vectors s !! p = Some (Objects l) → read_objects p s = (Ret l, s).
Proof. intros Hp. unfold read_objects, read_vector. run. by rewrite Hp. Qed.

Lemma copyTo_ok fits x p (l : list (option O)) n s :
  vectors s !! p = Some (Objects l) → n ≤ length l →
  match copyTo fits x p n s with
  | (Ret _, s') => ∃ l', write_vector p (Objects l') s = (Ret tt, s') ∧ S n ≤ length l' ∧ take (S n) l' = take n l ++ [Some x]
  | (NotEnoughSpace, s') => s' = s ∧ fits = false
  | _ => False
  end.
Proof.
  intros Hp Hn. unfold copyTo. run. rewrite (read_objects_ok s p l Hp). run.
  assert (∀ w, write_vector p w s = (Ret tt, Store (<[p := w]> (vectors s)) (next_vector s))) as Hw
    by (intros w; unfold write_vector; by rewrite Hp).
  destruct (decide (length l ≤ n)) as [Hle|Hlt].
  - destruct fits; [|by split]. rewrite Hw. exists (l ++ [Some x]). split; [apply Hw|]. rewrite length_app. simpl. split; [lia|].
    assert (n = length l) as -> by lia. rewrite (take_ge l) by lia. apply take_ge. rewrite length_app. simpl. lia.
  - rewrite Hw. exists (<[n := Some x]> l). split; [apply Hw|]. rewrite length_insert. split; [lia|].
    rewrite (take_S_r _ _ (Some x)) by (apply list_lookup_insert_eq; lia). by rewrite take_insert_ge.
Qed.

(** Writing one of the columns. *)
Lemma held_write s out places us k p w :
  store_ok s → owner_ok s out → NoDup places → held out places us → us !! k = Some p →
  let s' := Store (<[p := w]> (vectors s)) (next_vector s) in
  write_vector p w s = (Ret tt, s') ∧ evolves s out s' out ∧ vectors s' !! p = Some w ∧
  ∀ j q, us !! j = Some q → j ≠ k → vectors s' !! q = vectors s !! q.
Proof.
  intros Hs Ho Hnd Hh Hk s'. destruct (Forall2_lookup_r _ _ _ _ _ Hh Hk) as (i & Hi & Hip).
  destruct (write_owned i out s p w Hs Ho Hip) as (Hrun & Hev & Hv & _). fold s' in Hrun, Hev, Hv. split_and!; try done.
  intros j q Hj Hne. simpl. apply lookup_insert_ne. intros ->. destruct (Forall2_lookup_r _ _ _ _ _ Hh Hj) as (i' & Hi' & Hip').
  destruct (Ho i _ Hip eq_refl) as [_ Hu]. pose proof (Hu i' _ Hip' eq_refl eq_refl) as ->. by destruct (NoDup_lookup _ _ _ _ Hnd Hi' Hi).
Qed.

Lemma column_pointer_ok us k p s : us !! k = Some p → column_pointer us k s = (Ret p, s).
Proof. intros Hk. unfold column_pointer. by rewrite Hk. Qed.

(** [unpack] adds one tuple, component by component. *)
Lemma unpack_ok fits (t : join_tuple) out places us (rows : list join_tuple) arg : ∀ whichVec s,
  store_ok s → owner_ok s out → NoDup places → held out places us → length t = length us → arg = drop whichVec t → whichVec ≤ length t →
  filled s us (λ k, if decide (k < whichVec) then rows ++ [t] else rows) →
  match unpack fits arg (length rows) whichVec us s with
  | (Ret _, s') => evolves s out s' out ∧ filled s' us (λ _, rows ++ [t])
  | (NotEnoughSpace, s') => evolves s out s' out ∧ filled s' us (λ _, []) ∧ ∃ k, fits k = false
  | _ => False
  end.
Proof.
  induction arg as [|x arg IH]; intros k s Hs Ho Hnd Hh Hlen Harg Hk Hf.
  { simpl. split; [by apply evolves_refl|]. symmetry in Harg. apply drop_nil_inv in Harg.
    eapply filled_ext; [|exact Hf]. intros j Hj. simpl. by rewrite decide_True by lia. }
  assert (k < length t) as Hlt.
  { destruct (decide (k < length t)); [done|]. rewrite drop_ge in Harg by lia. done. }
  destruct (lookup_lt_is_Some_2 us k ltac:(lia)) as [p Hp]. assert (t !! k = Some x ∧ arg = drop (S k) t) as [Hx ->].
  { destruct (lookup_lt_is_Some_2 t k Hlt) as [y Hy]. rewrite (drop_S _ _ _ Hy) in Harg. by injection Harg as <- <-. }
  destruct (Hf k p Hp) as (l & Hl & Hle & Htake). rewrite decide_False in Hle, Htake by lia.
  cbn [unpack]. run. rewrite (column_pointer_ok _ _ _ _ Hp). run. pose proof (copyTo_ok (fits k) x p l (length rows) s Hl Hle) as Hc.
  destruct (copyTo (fits k) x p (length rows) s) as [[[]| | |] s1]; try done.
  2:{ destruct Hc as [-> Hfull]. split; [by apply evolves_refl|]. split; [by eapply filled_nil|by exists k]. }
  destruct Hc as (l' & Hw & Hle' & Htake'). destruct (held_write s out places us k p (Objects l') Hs Ho Hnd Hh Hp) as (Hrun & Hev & Hv & Hother).
  rewrite Hrun in Hw. injection Hw as <-. set (s1 := Store _ _) in *.
  pose proof (IH (S k) s1 (ev_store _ _ _ _ Hev) (ev_owner _ _ _ _ Hev) Hnd Hh Hlen eq_refl ltac:(lia)) as Hrest.
  lapply Hrest; clear Hrest; [intros Hrest|].
  - destruct (unpack fits (drop (S k) t) (length rows) (S k) us s1) as [[[]| | |] s2]; try done;
      (destruct Hrest as [Hev2 Hf2]; split; [by eapply evolves_trans|exact Hf2]).
  - intros j q Hj. destruct (decide (j = k)) as [->|Hne].
    + assert (q = p) as -> by congruence. exists l'. rewrite decide_True by lia. rewrite length_app, fmap_app. simpl. split; [done|].
      split; [lia|]. rewrite Nat.add_1_r, Htake', Htake, Hx. done.
    + destruct (Hf j q Hj) as (lj & Hlj & Hlen' & Htj). exists lj. rewrite (Hother j q Hj Hne). split; [done|].
      destruct (decide (j < k)); [rewrite decide_True by lia|rewrite decide_False by lia]; done.
Qed.

Lemma unpack_row fits (t : join_tuple) out places us (rows : list join_tuple) s :
  store_ok s → owner_ok s out → NoDup places → held out places us → length t = length us → filled s us (λ _, rows) →
  match unpack fits t (length rows) 0 us s with
  | (Ret _, s') => evolves s out s' out ∧ filled s' us (λ _, rows ++ [t])
  | (NotEnoughSpace, s') => evolves s out s' out ∧ filled s' us (λ _, []) ∧ ∃ k, fits k = false
  | _ => False
  end.
Proof.
  intros Hs Ho Hnd Hh Hlen Hf. apply (unpack_ok fits t out places us rows t 0 s); try done; try lia.
Qed.

(** The matches of a hash are unpacked one by one. *)
Lemma unpack_hits_ok fits jp a out places us (ts : list join_tuple) : ∀ which (rows : list join_tuple) s,
  store_ok s → owner_ok s out → NoDup places → held out places us → Forall (λ t, length t = length us) ts →
  (∀ k t, ts !! k = Some t → rl_at jp a (which + k) = Some t) → filled s us (λ _, rows) →
  match unpack_hits fits jp a which (length ts) (length rows) us s with
  | (Ret n, s') => n = length (rows ++ ts) ∧ evolves s out s' out ∧ filled s' us (λ _, rows ++ ts)
  | (NotEnoughSpace, s') => evolves s out s' out ∧ filled s' us (λ _, []) ∧ ∃ n k, fits n k = false
  | _ => False
  end.
Proof.
  induction ts as [|t ts IH]; intros which rows s Hs Ho Hnd Hh Hlen Hat Hf.
  { simpl. rewrite app_nil_r. split; [done|]. split; [by apply evolves_refl|done]. }
  apply Forall_cons in Hlen as [Ht Hlen]. cbn [length unpack_hits]. run. unfold record_at.
  pose proof (Hat 0 t eq_refl) as H0. rewrite Nat.add_0_r in H0. rewrite H0. run.
  pose proof (unpack_row (fits (length rows)) t out places us rows s Hs Ho Hnd Hh Ht Hf) as Hu.
  destruct (unpack (fits (length rows)) t (length rows) 0 us s) as [[[]| | |] s1]; try done.
  2:{ destruct Hu as (? & ? & k & ?). split_and!; [done..|]. by exists (length rows), k. }
  destruct Hu as [Hev Hf1].
  pose proof (IH (S which) (rows ++ [t]) s1 (ev_store _ _ _ _ Hev) (ev_owner _ _ _ _ Hev) Hnd Hh Hlen) as Hrest.
  lapply Hrest; clear Hrest; [intros Hrest; specialize (Hrest Hf1)|intros k t' Hk; specialize (Hat (S k) t' Hk); by rewrite Nat.add_succ_r in Hat].
  rewrite length_app, Nat.add_1_r in Hrest. rewrite <- (app_assoc rows [t] ts) in Hrest. simpl in Hrest.
  destruct (unpack_hits _ _ _ _ _ _ _ s1) as [[n| | |] s2]; try done.
  - destruct Hrest as (-> & Hev2 & Hf2). split; [done|]. split; [by eapply evolves_trans|done].
  - destruct Hrest as (Hev2 & Hf2). split; [by eapply evolves_trans|done].
Qed.

(** One row of the input. *)
Lemma probe_row_ok fits jp h out places us (rows : list join_tuple) s :
  store_ok s → owner_ok s out → NoDup places → held out places us → jwf jp → (∀ t, t ∈ matches_in jp h → length t = length us) →
  filled s us (λ _, rows) →
  match probe_row fits jp h (length rows) us s with
  | (Ret (k, n), s') => k = length (matches_in jp h) ∧ n = length (rows ++ matches_in jp h) ∧ evolves s out s' out ∧
      filled s' us (λ _, rows ++ matches_in jp h)
  | (NotEnoughSpace, s') => evolves s out s' out ∧ filled s' us (λ _, []) ∧ ∃ n k, fits n k = false
  | _ => False
  end.
Proof.
  intros Hs Ho Hnd Hh Hwf Hwidth Hf. destruct (jlookup_spec jp h Hwf) as (a & Ha & Hsize & Hat & Hcount).
  fold (matches_in jp h) in Hsize, Hat, Hcount. set (ms := matches_in jp h) in *.
  unfold probe_row. run. unfold JoinMap_count. rewrite Hcount. run.
  destruct (Z.ltb_spec 0 (Z.of_nat (length ms))) as [Hpos|Hz].
  - run. unfold JoinMap_lookup. rewrite Ha. run. rewrite Hsize. run.
    pose proof (unpack_hits_ok fits jp a out places us ms 0 rows s Hs Ho Hnd Hh) as Hu.
    lapply Hu; clear Hu; [intros Hu|by apply Forall_forall; intros t; apply Hwidth]. specialize (Hu Hat Hf).
    destruct (unpack_hits _ _ _ _ _ _ _ s) as [[n| | |] s1]; try done; by destruct Hu as (-> & ? & ?).
  - assert (ms = []) as -> by (destruct ms; [done|simpl in Hz; lia]). simpl. rewrite app_nil_r. split_and!; try done. by apply evolves_refl.
Qed.

Lemma probe_rows_ok fits pr out places us (hashes : list Z) : ∀ (rows : list join_tuple) s,
  store_ok s → owner_ok s out → NoDup places → held out places us → prober_ok (length us) pr → filled s us (λ _, rows) →
  match probe_rows fits pr hashes (length rows) us s with
  | (Ret (counts, n), s') => counts = (λ h, length (matches_of pr h)) <$> hashes ∧ n = length (rows ++ (hashes ≫= matches_of pr)) ∧
      evolves s out s' out ∧ filled s' us (λ _, rows ++ (hashes ≫= matches_of pr))
  | (NotEnoughSpace, s') => evolves s out s' out ∧ filled s' us (λ _, []) ∧ ∃ n k, fits n k = false
  | _ => False
  end.
Proof.
  induction hashes as [|h hashes IH]; intros rows s Hs Ho Hnd Hh Hpr Hf.
  { simpl. rewrite app_nil_r. split_and!; [done..|by apply evolves_refl|done]. }
  destruct (Hpr h) as (jp & Htab & Hwf & Hwidth). 
  assert (matches_of pr h = matches_in jp h) as Hm by by unfold matches_of; rewrite Htab. set (ms := matches_in jp h) in *.
  cbn [probe_rows]. run. rewrite Htab. run.
  pose proof (probe_row_ok fits jp h out places us rows s Hs Ho Hnd Hh Hwf (Hwidth h) Hf) as Hone. fold ms in Hone.
  destruct (probe_row fits jp h (length rows) us s) as [[[k n]| | |] s1]; try done. destruct Hone as (-> & -> & Hev & Hf1).
  specialize (IH (rows ++ ms) s1 (ev_store _ _ _ _ Hev) (ev_owner _ _ _ _ Hev) Hnd Hh Hpr Hf1). run.
  rewrite bind_cons, Hm, (app_assoc rows ms). destruct (probe_rows _ _ _ _ _ s1) as [[[counts n]| | |] s2]; try done.
  - destruct IH as (-> & -> & Hev2 & Hf2). cbn [fmap list_fmap]. rewrite Hm. split_and!; try done. by eapply evolves_trans.
  - destruct IH as (Hev2 & Hf2). split; [by eapply evolves_trans|done].
Qed.

(** After [eraseEnd] the columns hold the rows and nothing else. *)
Lemma eraseEnd_ok out places us (rows : list join_tuple) width : ∀ k s,
  store_ok s → owner_ok s out → NoDup places → held out places us → k + width = length us → filled s us (λ _, rows) →
  ∃ s', eraseEnd (length rows) k width us s = (Ret tt, s') ∧ evolves s out s' out ∧
    (∀ j p, j < k → us !! j = Some p → vectors s' !! p = vectors s !! p) ∧
    ∀ j p, k ≤ j → us !! j = Some p → vectors s' !! p = Some (Objects ((λ t : join_tuple, t !! j) <$> rows)).
Proof.
  induction width as [|width IH]; intros k s Hs Ho Hnd Hh Hk Hf.
  { exists s. split; [done|]. split; [by apply evolves_refl|]. split; [done|]. intros j p Hj Hp. apply lookup_lt_Some in Hp. lia. }
  destruct (lookup_lt_is_Some_2 us k ltac:(lia)) as [p Hp]. destruct (Hf k p Hp) as (l & Hl & Hle & Htake).
  destruct (held_write s out places us k p (Objects (resize (length rows) None l)) Hs Ho Hnd Hh Hp) as (Hrun & Hev & Hv & Hother).
  set (s1 := Store _ _) in *. rewrite resize_le in Hv by done.
  destruct (IH (S k) s1 (ev_store _ _ _ _ Hev) (ev_owner _ _ _ _ Hev) Hnd Hh ltac:(lia)) as (s2 & Hrun2 & Hev2 & Hbefore & Hafter).
  { intros j q Hj. destruct (decide (j = k)) as [->|Hne].
    - assert (q = p) as -> by congruence. eexists. split; [exact Hv|]. rewrite length_take, take_take. split; [lia|]. by rewrite Nat.min_id.
    - rewrite (Hother j q Hj Hne). by apply Hf. }
  exists s2. split; [|split; [by eapply evolves_trans|split]].
  - cbn [eraseEnd]. run. rewrite (column_pointer_ok _ _ _ _ Hp). run. rewrite (read_objects_ok _ _ _ Hl). run. by rewrite Hrun.
  - intros j q Hj Hq. rewrite (Hbefore j q) by (lia || done). apply (Hother j q Hq). lia.
  - intros j q Hj Hq. destruct (decide (j = k)) as [->|Hne]; [|apply Hafter; [lia|done]].
    assert (q = p) as -> by congruence. rewrite (Hbefore k p) by (lia || done). by rewrite Hv, Htake.
Qed.

(** [createCols] makes empty columns at places that are free. *)
Lemma createCols_ok off (positions : list nat) width : ∀ whichPos ts s,
  store_ok s → owner_ok s ts → NoDup positions → whichPos + width = length positions →
  (∀ q, q ∈ drop whichPos positions → ts !! (off + q) = None) →
  ∃ s' ts' us, createCols off whichPos width positions ts s = (Ret (ts', us), s') ∧ evolves s ts s' ts' ∧
    Forall2 (λ q p, ts' !! (off + q) = Some (Column p true) ∧ vectors s' !! p = Some (Objects [])) (drop whichPos positions) us ∧
    (∀ j, (∀ q, q ∈ drop whichPos positions → j ≠ off + q) → ts' !! j = ts !! j) ∧
    (∀ p, live s p → vectors s' !! p = vectors s !! p).
Proof.
  induction width as [|width IH]; intros k ts s Hs Ho Hnd Hk Hfree.
  { exists s, ts, []. split; [done|]. split; [by apply evolves_refl|]. rewrite drop_ge by lia. split; [constructor|done]. }
  destruct (lookup_lt_is_Some_2 positions k ltac:(lia)) as [q Hq]. rewrite (drop_S _ _ _ Hq) in Hfree |- *.
  destruct (add_new_column (off + q) (Objects []) ts s Hs Ho ltac:(apply Hfree; by left)) as (Hnew & Hadd & Hrep).
  pose proof (replace_column _ _ _ _ _ Hs Ho Hrep) as Hev. set (p := next_vector s) in *. set (s1 := Store _ _) in *.
  assert (∀ q', q' ∈ drop (S k) positions → off + q' ≠ off + q) as Hne.
  { intros q' Hq' Heq. assert (q' = q) as -> by lia. apply list_elem_of_lookup_1 in Hq' as [j Hj]. rewrite lookup_drop in Hj.
    pose proof (NoDup_lookup _ _ _ _ Hnd Hq Hj). lia. }
  destruct (IH (S k) (<[off + q := Column p true]> ts) s1 (ev_store _ _ _ _ Hev) (ev_owner _ _ _ _ Hev) Hnd ltac:(lia))
    as (s2 & ts2 & us & Hrun & Hev2 & Hcols & Hrest & Hkeep).
  { intros q' Hq'. rewrite lookup_insert_ne by (intros He; by destruct (Hne q' Hq')). apply Hfree. by right. }
  exists s2, ts2, (p :: us). split; [|split; [by eapply evolves_trans|split; [|split]]].
  - cbn [createCols]. rewrite Hq. run. rewrite Hnew. run. rewrite Hadd. run. rewrite Hrun. done.
  - constructor; [|done]. split.
    + rewrite Hrest by (intros q' Hq' He; by destruct (Hne q' Hq')). apply lookup_insert_eq.
    + rewrite Hkeep by (exists (Objects []); simpl; apply lookup_insert_eq). simpl. apply lookup_insert_eq.
  - intros j Hj. rewrite Hrest by (intros q' Hq'; apply Hj; by right). apply lookup_insert_ne. intros <-. by destruct (Hj q ltac:(by left)).
  - intros r Hr. pose proof (Hs r Hr) as Hlt. assert (r ≠ p) as Hnp by (unfold p; lia).
    rewrite Hkeep by (destruct Hr as [v Hv]; exists v; simpl; by rewrite lookup_insert_ne by done). simpl. by apply lookup_insert_ne.
Qed.

(** ** The executor *)

Section executor.
Context (matches positions : list nat) (needToSwapLHSAndRhs : bool) (us : list nat).

(** Where the columns of the table start, and those of the input. *)
Definition base : nat := if needToSwapLHSAndRhs then 0 else length matches.
Definition offset : nat := if needToSwapLHSAndRhs then length positions else 0.
Definition table_columns : list nat := (λ q, base + q) <$> positions.

(** The output has the columns that the constructor made, still under the
    pointers it kept, and none behind. *)
Definition probe_ready s out : Prop :=
  columns_below out (length matches + length positions) ∧ held out table_columns us ∧ filled s us (λ _, []).

Hypothesis positions_ok : positions ≡ₚ seq 0 (length positions).

Lemma positions_lt q : q ∈ positions → q < length positions.
Proof using positions_ok. rewrite positions_ok at 1. rewrite elem_of_seq. lia. Qed.

Lemma table_columns_outside j : j ∈ table_columns → j < offset ∨ offset + length matches ≤ j.
Proof using positions_ok.
  intros (q & -> & Hq)%list_elem_of_fmap. apply positions_lt in Hq. unfold base, offset. destruct needToSwapLHSAndRhs; lia.
Qed.

Lemma table_columns_all j : j < length matches + length positions → j < offset ∨ offset + length matches ≤ j → j ∈ table_columns.
Proof using positions_ok.
  intros Hj Ho. apply list_elem_of_fmap. exists (j - base). unfold base, offset in *.
  split; [destruct needToSwapLHSAndRhs; lia|]. rewrite positions_ok. apply elem_of_seq. destruct needToSwapLHSAndRhs; lia.
Qed.

Lemma table_columns_NoDup : NoDup table_columns.
Proof using positions_ok.
  apply NoDup_fmap_2; [intros x y Hxy; unfold base in Hxy; lia|]. rewrite positions_ok. apply NoDup_seq.
Qed.

Lemma probe_ready_kept s s' out : probe_ready s out → types_kept s s' out → probe_ready s' out.
Proof.
  intros (Hb & Hh & Hf) Hk. split; [done|]. split; [done|]. intros k p Hp. destruct (Hf k p Hp) as (l & Hl & _).
  destruct (Forall2_lookup_r _ _ _ _ _ Hh Hp) as (i & _ & Hi). destruct (Hk p _ ltac:(by exists i, (Column p true)) Hl) as (v & Hv & Ht).
  destruct v as [l'| | |]; try done. exists l'. split; [done|]. simpl. split; [lia|done].
Qed.

Lemma Broadcast_null width pr : prober_ok width pr → pr ≠ Broadcast None.
Proof. intros Hp ->. by destruct (Hp 0%Z) as (jp & ? & _). Qed.

Lemma process_unfold whichAtt width off pr fits input (e : executor O) : pr ≠ Broadcast None →
  JoinProbe_process matches whichAtt width off pr fits us input e = (
    inputHash ← in_heap (column_as numbers whichAtt input);
    '(counts, overallCounter) ← in_heap (probe_rows fits pr inputHash 0 us);
    in_heap (eraseEnd overallCounter 0 width us) ;;
    output ← on_output (λ output, machine_replicate input counts matches off output);
    mret (Some output)) e.
Proof. by destruct pr as [[jp|]|]. Qed.

(** The output has a row for every match of every row of the input. *)
Lemma JoinProbe_process_ok whichAtt pr fits input out hashes s :
  store_ok s → owner_ok s out → apart s input out → prober_ok (length positions) pr → probe_ready s out →
  col_value s input whichAtt (Numbers hashes) → rectangular s input matches (length hashes) →
  match JoinProbe_process matches whichAtt (length positions) offset pr fits us input (Exec s out) with
  | (Ret r, Exec s' out') => r = Some out' ∧ processed s input out s' out' ∧ probe_ready s' out' ∧ supported matches input out' ∧
      (∀ k i v, matches !! k = Some i → col_value s input i v →
         col_value s' out' (offset + k) (vmap (repeated ((λ h, length (matches_of pr h)) <$> hashes)) v)) ∧
      (∀ k q, positions !! k = Some q →
         col_value s' out' (base + q) (Objects ((λ t : join_tuple, t !! k) <$> (hashes ≫= matches_of pr))))
  | (NotEnoughSpace, Exec s' out') => processed s input out s' out' ∧ probe_ready s' out' ∧ ∃ n k, fits n k = false
  | _ => False
  end.
Proof using positions_ok.
  intros Hs Ho Ha Hpr (Hb & Hh & Hf) Hhash Hrect.
  assert (length us = length positions) as Hlen by (rewrite <- (Forall2_length _ _ _ Hh); apply length_fmap).
  pose proof (probe_rows_ok fits pr out table_columns us hashes [] s Hs Ho table_columns_NoDup Hh ltac:(by rewrite Hlen) Hf) as Hp.
  set (counts := (λ h, length (matches_of pr h)) <$> hashes) in *. set (ts := hashes ≫= matches_of pr) in *. simpl in Hp.
  rewrite process_unfold by by eapply Broadcast_null. unfold in_heap. run. rewrite (column_as_ok _ _ _ _ _ Hhash). cbn [numbers]. run.
  cbn [heap output]. destruct (probe_rows fits pr hashes 0 us s) as [[[cs n]| | |] s1]; try done.
  2:{ destruct Hp as (Hev & Hf1 & Hfull). split; [by apply evolves_processed|]. by split_and!. }
  destruct Hp as (-> & -> & Hev1 & Hf1). run. cbn [heap output].
  destruct (eraseEnd_ok out table_columns us ts (length positions) 0 s1 (ev_store _ _ _ _ Hev1) (ev_owner _ _ _ _ Hev1)
    table_columns_NoDup Hh ltac:(lia) Hf1) as (s2 & Hrun2 & Hev2 & _ & Hcols). rewrite Hrun2. run. unfold on_output. cbn [heap output].
  assert (evolves s out s2 out) as Hev by by eapply evolves_trans.
  destruct (evolves_processed _ input _ _ _ Hs Ha Hev) as (_ & Ha2 & Hcv2).
  assert (∀ k i v, matches !! k = Some i → col_value s input i v → getCount v = length counts) as Hcount.
  { intros k i v Hk (c & Hc & Hv). destruct (rectangular_lookup _ _ _ _ _ Hrect (lookup_lt_Some _ _ _ Hk)) as (j & w & Hj & (d & Hd & Hw) & Hn).
    unfold counts. rewrite length_fmap. by simplify_eq. }
  destruct (machine_replicate_ok input counts matches offset out s2 (ev_store _ _ _ _ Hev) (ev_owner _ _ _ _ Hev) Ha2)
    as (s3 & out3 & Hrun3 & Hev3 & Hnew & Hrest & Hkeep).
  { apply Forall_lookup. intros k i Hk. destruct (rectangular_lookup _ _ _ _ _ Hrect (lookup_lt_Some _ _ _ Hk)) as (j & w & Hj & Hw & Hn).
    simplify_eq. exists w. eexists. split; [by apply Hcv2|]. apply with_elements_repeated. by eapply Hcount. }
  rewrite Hrun3. run. split; [done|]. split; [apply evolves_processed; [done..|by eapply evolves_trans]|].
  assert (held out3 table_columns us) as Hh3.
  { apply Forall2_same_length_lookup_2; [by apply Forall2_length in Hh|]. intros k i p Hi Hp.
    rewrite (Hrest i) by (apply table_columns_outside; by eapply list_elem_of_lookup_2).
    by apply (Forall2_lookup_lr _ _ _ _ _ _ Hh Hi Hp). }
  assert (∀ k q p, positions !! k = Some q → us !! k = Some p →
    out3 !! (base + q) = Some (Column p true) ∧ vectors s3 !! p = Some (Objects ((λ t : join_tuple, t !! k) <$> ts))) as Htable.
  { intros k q p Hq Hp. assert (table_columns !! k = Some (base + q)) as Hi by (unfold table_columns; by rewrite list_lookup_fmap, Hq).
    split; [by apply (Forall2_lookup_lr _ _ _ _ _ _ Hh3 Hi Hp)|].
    pose proof (Hkeep (base + q) (Column p true) (table_columns_outside _ (list_elem_of_lookup_2 _ _ _ Hi))
      (Forall2_lookup_lr _ _ _ _ _ _ Hh Hi Hp) eq_refl) as Hsame. simpl in Hsame. rewrite Hsame. apply (Hcols k p); [lia|done]. }
  split; [|split; [|split]].
  - split; [|split; [done|]].
    + intros k [c Hc]. destruct (decide (k < offset ∨ offset + length matches ≤ k)) as [Hout|Hin]; [apply Hb; exists c; by rewrite <- Hrest|].
      unfold offset in *. destruct needToSwapLHSAndRhs; lia.
    + intros k p Hp. destruct (lookup_lt_is_Some_2 positions k) as [q Hq]; [rewrite <- Hlen; by eapply lookup_lt_Some|].
      destruct (Htable k q p Hq Hp) as [_ ->]. eexists. split; [done|]. simpl. split; [lia|done].
  - intros k c Hc. left. destruct (decide (k < offset ∨ offset + length matches ≤ k)) as [Hout|Hin].
    + rewrite (Hrest k Hout) in Hc. assert (k ∈ table_columns) as Hk by (apply table_columns_all; [apply Hb; by exists c|done]).
      apply list_elem_of_lookup_1 in Hk as [j Hj]. destruct (Forall2_lookup_l _ _ _ _ _ Hh3 Hj) as (p & _ & Hkp).
      rewrite <- (Hrest k Hout) in Hc. by simplify_eq.
    + assert (∃ j, k = offset + j ∧ j < length matches) as (j & -> & Hj) by (exists (k - offset); lia).
      destruct (rectangular_lookup _ _ _ _ j Hrect Hj) as (i & u & Hi & Hu & _).
      destruct (Hnew j i u Hi (Hcv2 _ _ Hu)) as (q & v' & Hq & _). by simplify_eq.
  - intros k i v Hk Hv. destruct (Hnew k i v Hk (Hcv2 _ _ Hv)) as (q & v' & Hq & Hv' & Hqv).
    rewrite with_elements_repeated in Hv' by by eapply Hcount. injection Hv' as <-. by exists (Column q true).
  - intros k q Hq. destruct (lookup_lt_is_Some_2 us k) as [p Hp]; [rewrite Hlen; by eapply lookup_lt_Some|].
    destruct (Htable k q p Hq Hp) as [H1 H2]. by exists (Column p true).
Qed.
End executor.

(** The constructor. *)
Lemma JoinProbe_new_ok matches positions swap s :
  positions ≡ₚ seq 0 (length positions) → store_ok s →
  ∃ s' out us, JoinProbe_new (length positions) (length matches) positions swap s = (Ret (out, us), s') ∧
    evolves s ∅ s' out ∧ probe_ready matches positions swap us s' out.
Proof.
  intros Hpos Hs. assert (NoDup positions) as Hnd by (rewrite Hpos; apply NoDup_seq).
  destruct (createCols_ok (base matches swap) positions (length positions) 0 ∅ s Hs (owner_ok_empty s) Hnd eq_refl (λ _ _, lookup_empty _))
    as (s' & out & us & Hrun & Hev & Hcols & Hrest & _).
  rewrite drop_0 in Hcols, Hrest. exists s', out, us. split; [done|]. split; [done|]. split; [|split].
  - intros j [c Hc]. destruct (decide (j ∈ table_columns matches positions swap)) as [Hj|Hj].
    + apply list_elem_of_fmap in Hj as (q & -> & Hq). apply (positions_lt _ Hpos) in Hq. unfold base. destruct swap; lia.
    + rewrite Hrest, lookup_empty in Hc; [done|]. intros q Hq ->. apply Hj, list_elem_of_fmap. by exists q.
  - apply Forall2_fmap_l. eapply Forall2_impl; [exact Hcols|]. by intros q p [? _].
  - intros k p Hp. destruct (Forall2_lookup_r _ _ _ _ _ Hcols Hp) as (q & _ & _ & Hv). exists []. by split_and!.
Qed.
End facts.
