(* ===== verification/JoinSink.v ===== *)
(** * JoinSink: building hash-join tables

    Models [pack], [truncate] and [JoinSink] of [lambdas/headers/JoinTuple.h],
    with its handlers; [PartitionedJoin] uses [write_row] for its own sink.
    Join tuples are made component by component from the columns of a tuple set,
    in place, through the reference that [JoinMap::push] returns; a null handle
    leaves the component as it was constructed ([blank]).  When a row does not
    fit, the handler takes it out of the table again, erases the rows before it
    from the columns, and passes the exception on. *)

From S2P Require Import Prelude.
From S2P Require Import HashProbe.
From S2P Require Import JoinPairArray.
From S2P Require Import JoinMapPush.
From S2P Require Import TupleSet.
From S2P Require Import Executor.
From S2P Require Import JoinProbe.

(** The answers of the allocator for one row: for [push], and for the copy of
    each component. *)
Record row_space := RowSpace {
  rs_push : jspace;
  rs_pack : nat → bool
}.

Definition rplenty : row_space := RowSpace jplenty (λ _, true).

(** A sink at work: the vectors, and the table that it writes to. *)
Record join_sink {O : Type} := JSink {
  jk_heap : store O;
  jk_map : JoinPairArray (list O)
}.
Arguments join_sink : clear implicits.
Arguments JSink {O}.

Section sink.
Context {RS : RecordSize} {O : Type} (blank : list O).
Local Abbreviation M := (M (join_sink O)).
Local Abbreviation table := (JoinPairArray (list O)).

Definition jk_in_heap {A} (m : Prelude.M (store O) A) : M A := λ k,
  let '(r, s) := m (jk_heap k) in (r, JSink s (jk_map k)).
Definition jk_in_map {A} (m : Prelude.M table A) : M A := λ k,
  let '(r, jp) := m (jk_map k) in (r, JSink (jk_heap k) jp).

(** ** Packing *)

(** Component [whichVec] of the tuple behind a reference. *)
Definition set_component (r : jref) (whichVec : nat) (x : O) : Prelude.M table unit := λ jp,
  match jread jp r with Some t => jwrite r (<[whichVec := x]> t) jp | None => (Undefined, jp) end.

(** [copyFrom]: a null handle is reported and copies nothing. *)
Definition copyFrom (fits : bool) (r : jref) (whichVec input whichPos : nat) : M unit :=
  me ← jk_in_heap (read_objects input);
  match me !! whichPos with
  | None => lift Undefined
  | Some None => mret tt
  | Some (Some x) => if fits then jk_in_map (set_component r whichVec x) else lift NotEnoughSpace
  end.

(** [pack] of the components from [whichVec] on; [width] are left. *)
Fixpoint pack (fits : nat → bool) (r : jref) (whichPosInTupleSet whichVec width : nat) (us : list nat) : M unit :=
  match width with
  | 0 => mret tt
  | S width' =>
      p ← jk_in_heap (column_pointer us whichVec);
      copyFrom (fits whichVec) r whichVec p whichPosInTupleSet ;;
      pack fits r whichPosInTupleSet (S whichVec) width' us
  end.

(** [valColumn.erase(valColumn.begin(), valColumn.begin() + i)] for the columns
    from [whichVec] on. *)
Fixpoint truncate (i whichVec width : nat) (us : list nat) : Prelude.M (store O) unit :=
  match width with
  | 0 => mret tt
  | S width' =>
      p ← column_pointer us whichVec;
      valColumn ← read_objects p;
      (if decide (i ≤ length valColumn) then write_vector p (Objects (drop i valColumn)) else lift Undefined) ;;
      truncate i (S whichVec) width' us
  end.

Definition erase_keys (i p : nat) : Prelude.M (store O) unit :=
  v ← read_vector p;
  keyColumn ← lift (numbers v);
  if decide (i ≤ length keyColumn) then write_vector p (Numbers (drop i keyColumn)) else lift Undefined.

(** ** Rows *)

(** The handlers: the newest value of the hash is dropped, whether or not [push]
    had added one, and the rows before row [i] are erased. *)
Definition take_back {A} (key : Z) (i keyColumn : nat) (us : list nat) : M A :=
  jk_in_map (JoinMap_setUnused key) ;;
  jk_in_heap (truncate i 0 (length blank) us) ;;
  jk_in_heap (erase_keys i keyColumn) ;;
  lift NotEnoughSpace.

Definition write_row (sp : row_space) (keyColumn : nat) (us : list nat) (key : Z) (i : nat) : M unit :=
  n ← (k ← get; lift (JoinMap_count (jk_map k) key));
  if (n =? 0)%Z then
    catch (temp ← jk_in_map (JoinMap_push blank (rs_push sp) key); pack (rs_pack sp) temp i 0 (length blank) us)
      (take_back key i keyColumn us)
  else
    temp ← catch (jk_in_map (JoinMap_push blank (rs_push sp) key)) (take_back key i keyColumn us);
    catch (pack (rs_pack sp) temp i 0 (length blank) us) (take_back key i keyColumn us).

Fixpoint write_rows (sp : nat → row_space) (keyColumn : nat) (us : list nat) (i : nat) (keys : list Z) : M unit :=
  match keys with
  | [] => mret tt
  | key :: keys' => write_row (sp i) keyColumn us key i ;; write_rows sp keyColumn us (S i) keys'
  end.

(** [input->getColumn(useTheseAtts[whereEveryoneGoes[counter]])] *)
Definition get_columns (useTheseAtts whereEveryoneGoes : list nat) (input : tuple_set) : Prelude.M (store O) (list nat) :=
  mapM (λ a, match useTheseAtts !! a with Some att => getColumn att input | None => lift Undefined end) whereEveryoneGoes.

Definition JoinSink_writeOut (keyAtt : nat) (useTheseAtts whereEveryoneGoes : list nat) (sp : nat → row_space) (input : tuple_set) : M unit :=
  columns ← jk_in_heap (get_columns useTheseAtts whereEveryoneGoes input);
  keyColumn ← jk_in_heap (getColumn keyAtt input);
  keys ← jk_in_heap (column_as numbers keyAtt input);
  write_rows sp keyColumn columns 0 keys.
End sink.

Definition JoinSink_createNewOutputContainer {RS : RecordSize} {O} : outcome (JoinPairArray (list O)) := JoinMap_default.

(** ** What a row adds *)

Section facts.
Context {RS : RecordSize} {O : Type} (blank : list O).
Local Abbreviation table := (JoinPairArray (list O)).
Implicit Types (s : store O) (us : list nat) (cols : list (list (option O))) (m : table) (t : list O) (keys : list Z).

Definition cols_at s us cols : Prop := Forall2 (λ p c, vectors s !! p = Some (Objects c)) us cols.

(** The object in row [i] of column [k], if it is not null. *)
Definition object_of cols (i k : nat) : option O := c ← cols !! k; o ← c !! i; o.

(** The components from [k] on taken from row [i]. *)
Definition filled_from cols (i k : nat) t : list O :=
  imap (λ j x, if decide (k ≤ j) then default x (object_of cols i j) else x) t.

(** The tuple that is made of row [i]. *)
Definition packed cols (i : nat) : list O := imap (λ k x, default x (object_of cols i k)) blank.

Lemma filled_all cols i : filled_from cols i 0 blank = packed cols i.
Proof. unfold filled_from, packed. apply imap_ext. intros j x _. by rewrite decide_True by lia. Qed.

Lemma filled_none cols i k t : length t ≤ k → filled_from cols i k t = t.
Proof.
  intros Hk. apply list_eq. intros j. unfold filled_from. rewrite list_lookup_imap.
  destruct (t !! j) as [x|] eqn:Hj; [|done]. simpl. apply lookup_lt_Some in Hj. by rewrite decide_False by lia.
Qed.

Lemma filled_step cols i k t :
  filled_from cols i (S k) (match object_of cols i k with Some x => <[k := x]> t | None => t end) = filled_from cols i k t.
Proof.
  apply list_eq. intros j. unfold filled_from. rewrite !list_lookup_imap. destruct (decide (j = k)) as [->|Hne].
  - destruct (decide (k < length t)) as [Hlt|Hge].
    + destruct (lookup_lt_is_Some_2 t k Hlt) as [y Hy]. destruct (object_of cols i k) as [x|].
      * rewrite list_lookup_insert_eq by done. rewrite Hy. simpl. by rewrite decide_False, decide_True by lia.
      * rewrite Hy. simpl. by rewrite decide_False, decide_True by lia.
    + destruct (object_of cols i k) as [x|]; rewrite ?list_insert_ge by lia; by rewrite lookup_ge_None_2 by lia.
  - assert ((match object_of cols i k with Some x => <[k := x]> t | None => t end) !! j = t !! j) as ->
      by (destruct (object_of cols i k); [by rewrite list_lookup_insert_ne|done]).
    destruct (t !! j) as [y|]; [|done]. simpl. do 2 f_equal.
    destruct (decide (S k ≤ j)); [rewrite decide_True by lia|rewrite decide_False by lia]; done.
Qed.

Lemma set_component_ok r k x t m : jref_ok m r →
  set_component r k x (jwrite r t m).2 = (Ret tt, (jwrite r (<[k := x]> t) m).2).
Proof. intros Hr. unfold set_component. rewrite jread_jwrite by done. by rewrite jwrite_jwrite. Qed.

Lemma pack_ok fits r i us cols m s width : ∀ k t,
  jref_ok m r → cols_at s us cols → Forall (λ c, i < length c) cols → k + width = length us → length t = length us →
  match pack fits r i k width us (JSink s (jwrite r t m).2) with
  | (Ret _, k') => k' = JSink s (jwrite r (filled_from cols i k t) m).2
  | (NotEnoughSpace, k') => (∃ j, fits j = false) ∧ ∃ t', k' = JSink s (jwrite r t' m).2
  | _ => False
  end.
Proof.
  induction width as [|width IH]; intros k t Hr Hc Hi Hk Ht.
  { simpl. by rewrite filled_none by lia. }
  destruct (lookup_lt_is_Some_2 us k ltac:(lia)) as [p Hp]. destruct (Forall2_lookup_l _ _ _ _ _ Hc Hp) as (c & Hck & Hpc).
  cbn [pack]. run. unfold jk_in_heap at 1. cbn [jk_heap jk_map]. rewrite (column_pointer_ok _ _ _ _ Hp). run.
  unfold copyFrom. run. unfold jk_in_heap at 1. cbn [jk_heap jk_map]. rewrite (read_objects_ok _ _ _ Hpc). run.
  destruct (lookup_lt_is_Some_2 c i (Forall_lookup_1 _ _ _ _ Hi Hck)) as [o Ho]. rewrite Ho.
  assert (object_of cols i k = o) as Hobj by (unfold object_of; by rewrite Hck; simpl; rewrite Ho).
  pose proof (filled_step cols i k t) as Hstep. rewrite Hobj in Hstep. destruct o as [x|].
  - destruct (fits k) eqn:Hf; run; [|split; [by exists k|by exists t]]. unfold jk_in_map. cbn [jk_heap jk_map]. rewrite set_component_ok by done. run.
    specialize (IH (S k) (<[k := x]> t) Hr Hc Hi ltac:(lia) ltac:(by rewrite length_insert)). by rewrite Hstep in IH.
  - run. specialize (IH (S k) t Hr Hc Hi ltac:(lia) Ht). by rewrite Hstep in IH.
Qed.

(** ** Erasing rows *)

(** The store after the first [i] rows were erased from the columns. *)
Record erased s us cols (keyp : nat) keys (i : nat) s' : Prop := {
  er_next : next_vector s' = next_vector s;
  er_cols : cols_at s' us (drop i <$> cols);
  er_keys : vectors s' !! keyp = Some (Numbers (drop i keys));
  er_rest p : p ∉ us → p ≠ keyp → vectors s' !! p = vectors s !! p
}.

Lemma truncate_ok i us cols width : ∀ k s,
  NoDup us → k + width = length us → Forall (λ c, i ≤ length c) cols →
  cols_at s us (imap (λ j c, if decide (j < k) then drop i c else c) cols) →
  ∃ s', truncate i k width us s = (Ret tt, s') ∧ next_vector s' = next_vector s ∧ cols_at s' us (drop i <$> cols) ∧
    ∀ p, p ∉ us → vectors s' !! p = vectors s !! p.
Proof.
  induction width as [|width IH]; intros k s Hnd Hk Hi Hc.
  { exists s. split; [done|]. split; [done|]. split; [|done]. replace (drop i <$> cols) with (imap (λ j c, if decide (j < k) then drop i c else c) cols); [done|].
    apply Forall2_length in Hc as Hlen. rewrite length_imap in Hlen. apply list_eq. intros j. rewrite list_lookup_imap, list_lookup_fmap.
    destruct (cols !! j) as [c|] eqn:Hj; [|done]. simpl. apply lookup_lt_Some in Hj. by rewrite decide_True by lia. }
  destruct (lookup_lt_is_Some_2 us k ltac:(lia)) as [p Hp]. destruct (Forall2_lookup_l _ _ _ _ _ Hc Hp) as (c & Hck & Hpc).
  rewrite list_lookup_imap in Hck. destruct (cols !! k) as [c0|] eqn:Hck0; [|done]. simpl in Hck. rewrite decide_False in Hck by lia.
  injection Hck as ->. pose proof (Forall_lookup_1 _ _ _ _ Hi Hck0) as Hic. simpl in Hic.
  cbn [truncate]. run. rewrite (column_pointer_ok _ _ _ _ Hp). run. rewrite (read_objects_ok _ _ _ Hpc). run.
  rewrite decide_True by done. unfold write_vector at 1. rewrite Hpc. run.
  destruct (IH (S k) (Store (<[p := Objects (drop i c)]> (vectors s)) (next_vector s)) Hnd ltac:(lia) Hi) as (s' & Hrun & Hn & Hc' & Hrest).
  - apply Forall2_same_length_lookup_2; [apply Forall2_length in Hc; by rewrite length_imap in *|].
    intros j q d Hj Hd. rewrite list_lookup_imap in Hd. destruct (cols !! j) as [d0|] eqn:Hd0; [|done]. simpl in Hd. injection Hd as <-.
    simpl. destruct (decide (j = k)) as [->|Hne].
    + assert (q = p) as -> by congruence. assert (d0 = c) as -> by congruence. rewrite lookup_insert_eq. by rewrite decide_True by lia.
    + rewrite lookup_insert_ne; [|intros <-; by destruct (NoDup_lookup _ _ _ _ Hnd Hp Hj)].
      pose proof (Forall2_lookup_lr _ _ _ j q (if decide (j < k) then drop i d0 else d0) Hc Hj) as Hq.
      rewrite list_lookup_imap, Hd0 in Hq. rewrite (Hq eq_refl).
      destruct (decide (j < k)); [rewrite decide_True by lia|rewrite decide_False by lia]; done.
  - exists s'. split; [exact Hrun|]. split; [done|]. split; [done|]. intros q Hq. rewrite Hrest by done. simpl.
    apply lookup_insert_ne. intros ->. apply Hq. by eapply list_elem_of_lookup_2.
Qed.

Lemma erase_ok s us cols keyp keys i :
  NoDup us → cols_at s us cols → vectors s !! keyp = Some (Numbers keys) → Forall (λ c, length c = length keys) cols → i ≤ length keys →
  ∃ s1 s', truncate i 0 (length us) us s = (Ret tt, s1) ∧ erase_keys i keyp s1 = (Ret tt, s') ∧ erased s us cols keyp keys i s'.
Proof.
  intros Hnd Hc Hk Hlen Hi. assert (keyp ∉ us) as Hno.
  { intros [j Hj]%list_elem_of_lookup_1. destruct (Forall2_lookup_l _ _ _ _ _ Hc Hj) as (c & _ & Hp). congruence. }
  destruct (truncate_ok i us cols (length us) 0 s Hnd eq_refl) as (s1 & Hrun & Hn & Hc1 & Hrest).
  { eapply Forall_impl; [exact Hlen|]. intros c Hcl. simpl in *. lia. }
  { assert (imap (λ j c, if decide (j < 0) then drop i c else c) cols = cols) as ->; [|done].
    apply list_eq. intros j. rewrite list_lookup_imap. by destruct (cols !! j). }
  assert (vectors s1 !! keyp = Some (Numbers keys)) as Hk1 by by rewrite Hrest.
  exists s1. eexists. split; [done|]. split.
  - unfold erase_keys, read_vector. run. rewrite Hk1. run. cbn [numbers]. rewrite decide_True by done. unfold write_vector. by rewrite Hk1.
  - split; simpl.
    + done.
    + eapply Forall2_impl; [exact Hc1|]. intros p c Hp. simpl. rewrite lookup_insert_ne; [done|]. intros ->. congruence.
    + apply lookup_insert_eq.
    + intros p Hp Hne. rewrite lookup_insert_ne by auto. by apply Hrest.
Qed.

(** ** Writing rows *)

Definition roomy_row (sp : row_space) : Prop := rs_push sp = jplenty ∧ ∀ k, rs_pack sp k = true.

Section rows.
Context (us : list nat) (cols : list (list (option O))) (keyp : nat) (keys : list Z) (s : store O).
Hypothesis columns_NoDup : NoDup us.
Hypothesis columns_ok : cols_at s us cols.
Hypothesis columns_width : length us = length blank.
Hypothesis keys_ok : vectors s !! keyp = Some (Numbers keys).
Hypothesis columns_length : Forall (λ c, length c = length keys) cols.

Lemma take_back_ok {A} key i m m' :
  i ≤ length keys → JoinMap_setUnused key m = (Ret tt, m') →
  ∃ s', take_back blank (A:=A) key i keyp us (JSink s m) = (NotEnoughSpace, JSink s' m') ∧ erased s us cols keyp keys i s'.
Proof using columns_NoDup columns_ok columns_width keys_ok columns_length.
  intros Hi Hun. destruct (erase_ok s us cols keyp keys i columns_NoDup columns_ok keys_ok columns_length Hi) as (s1 & s' & Hr1 & Hr2 & He).
  exists s'. split; [|done]. unfold take_back. run. unfold jk_in_map. cbn [jk_heap jk_map]. rewrite Hun. run.
  unfold jk_in_heap. cbn [jk_heap jk_map]. rewrite <- columns_width, Hr1. run. cbn [jk_heap jk_map]. rewrite Hr2. done.
Qed.

(** A row is added, or the table is as before and the rows before it are gone. *)
Lemma write_row_ok sp key i n m :
  keys !! i = Some key → jwf m → jtight n m → (n < max_entries)%Z → steady_push (rs_push sp) →
  match write_row blank sp keyp us key i (JSink s m) with
  | (Ret _, JSink s' m') => s' = s ∧ jwf m' ∧ jtight (n + 1) m' ∧ to_multimap m' = pushed (to_multimap m) (jm_hash key) (packed cols i)
  | (NotEnoughSpace, JSink s' m') => ¬ roomy_row sp ∧ jwf m' ∧ to_multimap m' = to_multimap m ∧ erased s us cols keyp keys i s'
  | _ => False
  end.
Proof using columns_NoDup columns_ok columns_width keys_ok columns_length.
  intros Hkey Hm Ht Hn Hsp. pose proof (lookup_lt_Some _ _ _ Hkey) as Hi.
  destruct (jlookup_spec m key Hm) as (_ & _ & _ & _ & Hcount). unfold write_row. run. unfold JoinMap_count. cbn [jk_map]. rewrite Hcount. run.
  pose proof (JoinMap_push_facts blank (rs_push sp) key m n Hm Ht Hn) as Hp. unfold jk_in_map.
  assert (Forall (λ c, i < length c) cols) as Hlen by (eapply Forall_impl; [exact columns_length|]; intros c Hc; simpl in *; lia).
  (* packing the new tuple *)
  assert (∀ r p, jread p r = Some blank →
    match pack (rs_pack sp) r i 0 (length blank) us (JSink s p) with
    | (Ret _, k') => k' = JSink s (jwrite r (packed cols i) p).2
    | (NotEnoughSpace, k') => ¬ roomy_row sp ∧ ∃ t, k' = JSink s (jwrite r t p).2
    | _ => False
    end) as Hpack.
  { intros r p Hr. assert (jref_ok p r) as Hok by (unfold jref_ok; by rewrite Hr).
    pose proof (pack_ok (rs_pack sp) r i us cols p s (length blank) 0 blank Hok columns_ok Hlen ltac:(lia) ltac:(lia)) as Hk.
    rewrite filled_all, (jwrite_same p r blank Hr) in Hk. destruct (pack _ _ _ _ _ _ _) as [[[]| | |] k']; try done.
    destruct Hk as [[j Hj] Hk]. split; [|done]. intros [_ Hall]. by rewrite Hall in Hj. }
  (* after a push *)
  assert (∀ r p, JoinMap_push blank (rs_push sp) key m = (Ret r, p) →
    match catch (pack (rs_pack sp) r i 0 (length blank) us) (take_back blank key i keyp us) (JSink s p) with
    | (Ret _, JSink s' m') => s' = s ∧ jwf m' ∧ jtight (n + 1) m' ∧ to_multimap m' = pushed (to_multimap m) (jm_hash key) (packed cols i)
    | (NotEnoughSpace, JSink s' m') => ¬ roomy_row sp ∧ jwf m' ∧ to_multimap m' = to_multimap m ∧ erased s us cols keyp keys i s'
    | _ => False
    end) as Hdone.
  { intros r p Hrun. rewrite Hrun in Hp. destruct Hp as [Hr Hall]. specialize (Hpack r p Hr). unfold catch.
    destruct (pack _ _ _ _ _ _ _) as [[[]| | |] k']; try done.
    - subst k'. by destruct (Hall (packed cols i)) as (? & ? & ? & _).
    - destruct Hpack as (Hno & t & ->). destruct (Hall t) as (_ & _ & _ & m' & Hun & Hwf' & Hm').
      destruct (take_back_ok (A:=()) key i _ m' ltac:(lia) Hun) as (s' & -> & He). by split_and!. }
  destruct (Z.eqb_spec (Z.of_nat (length (default [] (to_multimap m !! jm_hash key)))) 0) as [Hz|Hnz].
  - assert (to_multimap m !! jm_hash key = None) as Hnone.
    { destruct (to_multimap m !! jm_hash key) as [l|] eqn:Hl; [|done]. pose proof (to_multimap_nonempty m _ l Hm Hl).
      destruct l; [done|]. simpl in Hz. lia. }
    unfold catch in *. run. cbn [jk_heap jk_map].
    destruct (JoinMap_push blank (rs_push sp) key m) as [[r| | |] p]; try done; run; [by apply Hdone|].
    destruct Hp as (Hno & Hwf' & Hm' & _). pose proof (jsetUnused_absent p key Hwf' ltac:(by rewrite Hm')) as Hun.
    destruct (take_back_ok (A:=()) key i p p ltac:(lia) Hun) as (s' & -> & He). split_and!; try done. by intros [Hpl _].
  - run. unfold catch at 1. cbn [jk_heap jk_map].
    destruct (JoinMap_push blank (rs_push sp) key m) as [[r| | |] p]; try done; [by apply Hdone|].
    destruct Hp as (_ & _ & _ & Hpres). specialize (Hpres Hsp). by rewrite Hpres in Hnz.
Qed.

(** The rows from [i] on, all of them or up to the first that does not fit. *)
Definition rows_from (i : nat) (l : list Z) : list (Z * list O) := imap (λ j key, (key, packed cols (i + j))) l.

Lemma write_rows_ok sp rest : ∀ i n m,
  drop i keys = rest → jwf m → jtight n m → (n + Z.of_nat (length rest) ≤ max_entries)%Z → (∀ j, steady_push (rs_push (sp j))) →
  match write_rows blank sp keyp us i rest (JSink s m) with
  | (Ret _, JSink s' m') => s' = s ∧ jwf m' ∧ jtight (n + Z.of_nat (length rest)) m' ∧
      to_multimap m' = spec_pushes (to_multimap m) (rows_from i rest)
  | (NotEnoughSpace, JSink s' m') => ∃ j, j < length rest ∧ ¬ roomy_row (sp (i + j)) ∧ jwf m' ∧
      to_multimap m' = spec_pushes (to_multimap m) (take j (rows_from i rest)) ∧ erased s us cols keyp keys (i + j) s'
  | _ => False
  end.
Proof using columns_NoDup columns_ok columns_width keys_ok columns_length.
  induction rest as [|key rest IH]; intros i n m Hi Hm Ht Hn Hsp.
  { simpl. rewrite Z.add_0_r. by split_and!. }
  assert (keys !! i = Some key) as Hkey by (rewrite <- (Nat.add_0_r i), <- lookup_drop, Hi; done).
  simpl in Hn. cbn [write_rows]. run. pose proof (write_row_ok (sp i) key i n m Hkey Hm Ht ltac:(lia) (Hsp i)) as Hw.
  destruct (write_row _ _ _ _ _ _ _) as [[[]| | |] [s1 m1]]; try done.
  - destruct Hw as (-> & Hm1 & Ht1 & Hmm1).
    specialize (IH (S i) (n + 1)%Z m1 ltac:(rewrite <- (Nat.add_1_r i), <- drop_drop, Hi; done) Hm1 Ht1 ltac:(lia) Hsp).
    assert (rows_from i (key :: rest) = (key, packed cols i) :: rows_from (S i) rest) as ->.
    { unfold rows_from. simpl. rewrite Nat.add_0_r. f_equal. apply imap_ext. intros j x _. simpl. by rewrite Nat.add_succ_r. }
    assert (∀ l, spec_pushes (to_multimap m) ((key, packed cols i) :: l) = spec_pushes (to_multimap m1) l) as Hspec
      by (intros l; unfold spec_pushes; simpl; by rewrite Hmm1).
    destruct (write_rows _ _ _ _ _ _ _) as [[[]| | |] [s2 m2]]; try done.
    + destruct IH as (-> & Hm2 & Ht2 & Hmm2). rewrite Hspec. split_and!; try done.
      by replace (n + Z.of_nat (length (key :: rest)))%Z with (n + 1 + Z.of_nat (length rest))%Z by (simpl; lia).
    + destruct IH as (j & Hj & Hno & Hm2 & Hmm2 & He). exists (S j). rewrite firstn_cons, Hspec, Nat.add_succ_r in *. split_and!; try done. simpl. lia.
  - destruct Hw as (Hno & Hm1 & Hmm1 & He). exists 0. rewrite Nat.add_0_r. split_and!; try done. simpl. lia.
Qed.
End rows.
End facts.

(** ** Properties *)

(** When the hash of a row is in the table already and [push] finds no room
    for the row, nothing was added; still the handler takes the newest tuple of
    that hash away.  The rows before the row are erased from the tuple set, so
    the row itself is written again later, but the tuple that was taken away,
    that of an earlier row, is lost. *)
Theorem JoinSink_loses_tuple {RS : RecordSize} {O} (blank : list O) us cols keyp keys s sp key i m t u ts :
  NoDup us → cols_at s us cols → length us = length blank → vectors s !! keyp = Some (Numbers keys) →
  Forall (λ c, length c = length keys) cols → keys !! i = Some key →
  jwf m → (j_numSlots m ≤ max_slots)%Z → (Z.of_nat (length (j_overflows m)) < UINT32_MAX)%Z →
  to_multimap m !! jm_hash key = Some (t :: u :: ts) →
  (∃ p, JoinMap_push blank (rs_push sp) key m = (NotEnoughSpace, p)) →
  ∃ s' m', write_row blank sp keyp us key i (JSink s m) = (NotEnoughSpace, JSink s' m') ∧ erased s us cols keyp keys i s' ∧
    to_multimap m' = <[jm_hash key := take (S (length ts)) (t :: u :: ts)]> (to_multimap m).
Proof.
  intros Hnd Hc Hw Hk Hl Hkey Hm Hn Ho Hmm [p Hp]. pose proof (lookup_lt_Some _ _ _ Hkey) as Hi.
  pose proof (JoinMap_push_cases blank (rs_push sp) key m Hm Hn Ho) as Hcases. rewrite Hp in Hcases. destruct Hcases as (_ & Hwf & Hsame).
  destruct (jlookup_spec m key Hm) as (_ & _ & _ & _ & Hcount). rewrite Hmm in Hcount. simpl in Hcount.
  destruct (jsetUnused_pop p key t u ts Hwf ltac:(by rewrite Hsame)) as (m' & Hun & _ & Hm' & _).
  destruct (take_back_ok blank us cols keyp keys s Hnd Hc Hw Hk Hl (A:=jref) key i p m' ltac:(lia) Hun) as (s' & Hback & He).
  exists s', m'. split; [|split; [done|by rewrite Hm', Hsame]].
  unfold write_row. run. unfold JoinMap_count. cbn [jk_map]. rewrite Hcount. run.
  destruct (Z.eqb_spec (Z.of_nat (S (S (length ts)))) 0); [lia|]. run. unfold catch at 1, jk_in_map at 1. cbn [jk_heap jk_map]. rewrite Hp.
  by rewrite Hback.
Qed.

Local Existing Instance small_slots.

(** A table with two tuples under one hash, and a third row for it. *)
Definition demo_table : JoinPairArray (list Z) :=
  match JoinMap_default with
  | Ret m => (JoinMap_store_all [0]%Z [(7, [1]); (7, [2])]%Z m).2
  | _ => MkJoinPairArray 0 0 0 [] []
  end.
Definition demo_rows : store Z := Store {[0 := Objects [Some 3%Z]; 1 := Numbers [7%Z]]} 2.
Definition demo_space : row_space := RowSpace (JSpace true (λ _, true) true true false) (λ _, true).

Lemma demo_table_ok : jwf demo_table ∧ (j_numSlots demo_table ≤ max_slots)%Z ∧ (Z.of_nat (length (j_overflows demo_table)) < UINT32_MAX)%Z ∧
  to_multimap demo_table !! jm_hash 7 = Some [[1]; [2]]%Z.
Proof.
  destruct (JoinMap_default_spec (V:=list Z)) as (m0 & Hm0 & Hwf0 & Ht0 & _).
  destruct (JoinMap_store_all_spec [0]%Z 0 [(7, [1]); (7, [2])]%Z m0 Hwf0 Ht0 ltac:(simpl; slots_lia)) as (m & Hm & Hwf & Ht & _).
  assert (demo_table = m) as Heq by (unfold demo_table; by rewrite Hm0, Hm). split; [by rewrite Heq|]. vm_compute. by split_and!.
Qed.

Lemma JoinSink_loses_tuple_witness :
  ∃ s' m', write_row [0]%Z demo_space 1 [0] 7 0 (JSink demo_rows demo_table) = (NotEnoughSpace, JSink s' m') ∧
    to_multimap m' !! jm_hash 7 = Some [[1]]%Z.
Proof.
  destruct demo_table_ok as (Hwf & Hn & Ho & Hm).
  destruct (JoinSink_loses_tuple [0]%Z [0] [[Some 3%Z]] 1 [7%Z] demo_rows demo_space 7 0 demo_table [1]%Z [2]%Z []
    (NoDup_singleton 0) ltac:(by repeat constructor) eq_refl eq_refl ltac:(by repeat constructor) eq_refl Hwf Hn Ho Hm) as (s' & m' & Hrun & _ & Hm').
  { eexists. vm_compute. reflexivity. }
  exists s', m'. split; [exact Hrun|]. rewrite Hm'. by rewrite lookup_insert_eq.
Defined.
