(* ===== verification/Stages.v ===== *)
(** * Stages: pipeline stages as operators on typed rows

    Models the executor of [lambdas/headers/CPlusPlusLambda.h] (run by
    [SimpleComputeExecutor.h]) and the constructors of the executors in
    [Executor] and [JoinProbe].  A tuple set is read as a list of rows of a
    schema; each stage is given its meaning on rows ([stage_rows]): selection, the
    map of a lambda, unnesting, a constant column, and a join with a hash table.
    [typecheck] says which stages fit a schema; a stage that does is a lawful
    stage of a pipeline. *)

From S2P Require Import Prelude.
From S2P Require Import TupleSet.
From S2P Require Import Executor.
From S2P Require Import JoinProbe.

(** ** Rows *)

Inductive value {O : Type} :=
| VObject (o : option O)
| VBool (b : bool)
| VNumber (z : Z)
| VVector (os : list (option O)).
Arguments value : clear implicits.

Section stages.
Context {O : Type}.
Local Abbreviation value := (value O).
Local Abbreviation vector := (vector O).
Local Abbreviation row := (list value).

Definition type_of_value (x : value) : col_type :=
  match x with VObject _ => TObject | VBool _ => TBool | VNumber _ => TNumber | VVector _ => TVector end.

Definition values (v : vector) : list value :=
  match v with
  | Objects l => VObject <$> l
  | Bools l => VBool <$> l
  | Numbers l => VNumber <$> l
  | Vectors l => VVector <$> l
  end.

(** [t] has the rows [l]: every column of the schema is there with its type, and
    the columns side by side are the rows. *)
Definition has_rows (schema : list col_type) (s : store O) (t : tuple_set) (l : list row) : Prop :=
  Forall (λ r, length r = length schema) l ∧
  ∀ k τ, schema !! k = Some τ → ∃ v, col_value s t k v ∧ type_of v = τ ∧ (λ r : row, r !! k) <$> l = Some <$> values v.

(** ** Lambdas *)

(** [new std::vector<ReturnType>] *)
Definition empty_vector (τ : col_type) : vector :=
  match τ with TObject => Objects [] | TBool => Bools [] | TNumber => Numbers [] | TVector => Vectors [] end.

(** [outColumn.resize(numTuples)] *)
Definition resize_vector (n : nat) (v : vector) : outcome vector := with_elements (λ A d l, Ret (resize n d l)) v.

(** [outColumn[i] = x] *)
Definition set_element (i : nat) (x : value) (v : vector) : outcome vector :=
  if decide (i < getCount v) then
    match v, x with
    | Objects l, VObject o => Ret (Objects (<[i := o]> l))
    | Bools l, VBool b => Ret (Bools (<[i := b]> l))
    | Numbers l, VNumber z => Ret (Numbers (<[i := z]> l))
    | Vectors l, VVector os => Ret (Vectors (<[i := os]> l))
    | _, _ => Undefined
    end
  else Undefined.

(** [CAST(Param, j)] for every parameter: element [which] of each input column. *)
Definition lambda_args (inAtts : list (list (option O))) (which : nat) : outcome (list (option O)) :=
  mapM (λ col, match col !! which with Some a => Ret a | None => Undefined end) inAtts.

(** [callLambda] for the rows from [which] on; the lambda may throw, and what it
    answers may depend on the page, [now]. *)
Fixpoint call_lambdas (func : nat → list (option O) → outcome value) (now p : nat) (inAtts : list (list (option O)))
    (which todo : nat) : M (store O) unit :=
  match todo with
  | 0 => mret tt
  | S todo' =>
      args ← lift (lambda_args inAtts which);
      x ← lift (func now args);
      v ← read_vector p;
      v' ← lift (set_element which x v);
      write_vector p v' ;;
      call_lambdas func now p inAtts (S which) todo'
  end.

(** The function of the executor.  [matches] are the columns to include,
    [atts] those that the lambda is called on. *)
Definition CPlusPlusLambda_process (matches atts : list nat) (outAtt : nat) (τ : col_type)
    (func : nat → list (option O) → outcome value) (now : nat) (input : tuple_set) : M (executor O) tuple_set :=
  on_output (setup input matches 0) ;;
  inAtts ← in_heap (mapM (λ i, column_as objects i input) atts);
  output ← on_output (λ output, if hasColumn outAtt output then mret output
                                else p ← new_vector (empty_vector τ); addColumn outAtt p true output);
  p ← in_heap (getColumn outAtt output);
  outColumn ← in_heap (read_vector p);
  match inAtts with
  | [] => lift Undefined
  | first :: _ =>
      let numTuples := length first in
      outColumn ← lift (if decide (type_of outColumn = τ) then resize_vector numTuples outColumn else Undefined);
      in_heap (write_vector p outColumn) ;;
      in_heap (call_lambdas func now p inAtts 0 numTuples) ;;
      mret output
  end.

(** ** Stages *)

(** A stage as its constructor leaves it: the columns to include, the columns it
    works on, and for a lambda its type and function. *)
Inductive stage :=
| Filter (matches : list nat) (whichAtt : nat)
| HashOne (matches : list nat) (whichAtt : nat)
| Flatten (matches : list nat) (whichAtt : nat)
| Apply (matches atts : list nat) (τ : col_type) (func : nat → list (option O) → outcome value)
| Probe (matches : list nat) (whichAtt : nat) (positions : list nat) (needToSwapLHSAndRhs : bool) (pr : prober (O:=O))
    (fits : nat → nat → nat → bool).

(** The constructors look attributes up by name; [outAtt] is the number of
    attributes to include. *)
Definition stage_new (make : list nat → nat → stage) (inputSchema attsToOperateOn attsToIncludeInOutput : list string) : outcome stage :=
  match match_atts inputSchema attsToOperateOn with
  | [] => Undefined
  | whichAtt :: _ => Ret (make (match_atts inputSchema attsToIncludeInOutput) whichAtt)
  end.

(** The output that the constructor leaves, and the pointers it keeps. *)
Definition construct (q : stage) : M (store O) (tuple_set * list nat) :=
  match q with
  | Probe matches _ positions needToSwapLHSAndRhs _ _ => JoinProbe_new (length positions) (length matches) positions needToSwapLHSAndRhs
  | _ => mret (∅, [])
  end.

(** The executor of a stage.  A null tuple set is one that the next stage or the
    sink reads from. *)
Definition process (q : stage) (columns : list nat) (now : nat) (input : tuple_set) : M (executor O) tuple_set :=
  match q with
  | Filter matches whichAtt => on_output (λ output, FilterExecutor_process matches whichAtt output input)
  | HashOne matches whichAtt => on_output (λ output, HashOneExecutor_process matches whichAtt (length matches) output input)
  | Flatten matches whichAtt => on_output (λ output, FlattenExecutor_process matches whichAtt (length matches) output input)
  | Apply matches atts τ func => CPlusPlusLambda_process matches atts (length matches) τ func now input
  | Probe matches whichAtt positions needToSwapLHSAndRhs pr fits =>
      output ← JoinProbe_process matches whichAtt (length positions) (offset positions needToSwapLHSAndRhs) pr (fits now) columns input;
      match output with Some output => mret output | None => lift Undefined end
  end.

(** ** The meaning of stages *)

(** The columns to include. *)
Definition passes (q : stage) : list nat :=
  match q with Filter matches _ | HashOne matches _ | Flatten matches _ | Apply matches _ _ _ | Probe matches _ _ _ _ _ => matches end.

Definition project (matches : list nat) (r : row) : row := omap (λ i, r !! i) matches.

Definition true_at (i : nat) (r : row) : bool := match r !! i with Some (VBool true) => true | _ => false end.
Definition vector_at (i : nat) (r : row) : list (option O) := match r !! i with Some (VVector os) => os | _ => [] end.
Definition objects_at (atts : list nat) (r : row) : list (option O) :=
  omap (λ i, match r !! i with Some (VObject o) => Some o | _ => None end) atts.

Definition hash_at (i : nat) (r : row) : Z := match r !! i with Some (VNumber h) => h | _ => 0%Z end.

(** The components of a join tuple in the order of their columns. *)
Definition placed (positions : list nat) (t : list O) : row :=
  (λ j, VObject ('(k, _) ← list_find (λ q, q = j) positions; t !! k)) <$> seq 0 (length positions).

(** What a lambda computes when it does not run out of space: [meaning]. *)
Definition stage_rows (meaning : (nat → list (option O) → outcome value) → list (option O) → value) (q : stage) (l : list row) : list row :=
  match q with
  | Filter matches whichAtt => project matches <$> filter (λ r, true_at whichAtt r = true) l
  | HashOne matches _ => (λ r, project matches r ++ [VNumber 1]) <$> l
  | Flatten matches whichAtt => l ≫= λ r, (λ o, project matches r ++ [VObject o]) <$> vector_at whichAtt r
  | Apply matches atts _ func => (λ r, project matches r ++ [meaning func (objects_at atts r)]) <$> l
  | Probe matches whichAtt positions needToSwapLHSAndRhs pr _ => l ≫= λ r,
      (λ t, if needToSwapLHSAndRhs then placed positions t ++ project matches r else project matches r ++ placed positions t) <$>
        matches_of pr (hash_at whichAtt r)
  end.

(** The schema of the output, if the stage fits the schema of its input. *)
Definition project_schema (schema : list col_type) (matches : list nat) : option (list col_type) := mapM (λ i, schema !! i) matches.

Definition typecheck (schema : list col_type) (q : stage) : option (list col_type) :=
  match q with
  | Filter matches whichAtt =>
      out ← project_schema schema matches; guard (schema !! whichAtt = Some TBool);; Some out
  | HashOne matches whichAtt =>
      out ← project_schema schema matches; guard (whichAtt < length matches);; Some (out ++ [TNumber])
  | Flatten matches whichAtt =>
      out ← project_schema schema matches; guard (schema !! whichAtt = Some TVector);; Some (out ++ [TObject])
  | Apply matches atts τ _ =>
      out ← project_schema schema matches;
      guard (atts ≠ [] ∧ Forall (λ i, schema !! i = Some TObject) atts);; Some (out ++ [τ])
  | Probe matches whichAtt positions needToSwapLHSAndRhs _ _ =>
      out ← project_schema schema matches;
      guard (schema !! whichAtt = Some TNumber ∧ positions ≡ₚ seq 0 (length positions));;
      let table := replicate (length positions) TObject in
      Some (if needToSwapLHSAndRhs then table ++ out else out ++ table)
  end.

(** The schemas along a pipeline. *)
Fixpoint typecheck_all (schema : list col_type) (qs : list stage) : option (list (list col_type)) :=
  match qs with
  | [] => Some [schema]
  | q :: qs' => out ← typecheck schema q; rest ← typecheck_all out qs'; Some (schema :: rest)
  end.
End stages.

Section facts.
Context {O : Type}.
Local Abbreviation value := (value O).
Local Abbreviation row := (list value).
Implicit Types (s : store O) (v : vector O) (ts input out : tuple_set) (r : row) (l : list row).

(** *** Vectors as lists of values *)

Lemma values_length v : length (values v) = getCount v.
Proof. destruct v; simpl; apply length_fmap. Qed.

Lemma set_element_ok i (x : value) v :
  i < getCount v → type_of_value x = type_of v →
  ∃ v', set_element i x v = Ret v' ∧ values v' = <[i := x]> (values v) ∧ type_of v' = type_of v.
Proof.
  intros Hi Ht. unfold set_element. rewrite decide_True by done. destruct v, x; try done;
    (eexists; split; [reflexivity|]; split; [simpl; by rewrite list_fmap_insert|done]).
Qed.

Lemma resize_vector_ok n v : ∃ v', resize_vector n v = Ret v' ∧ getCount v' = n ∧ type_of v' = type_of v.
Proof. destruct v; (eexists; split; [reflexivity|]; split; [apply length_resize|done]). Qed.

Lemma sieve_fmap b A B (f : A → B) (la : list A) : sieve b B (f <$> la) = f <$> sieve b A la.
Proof.
  unfold sieve. revert la. induction b as [|x b IH]; intros [|a la]; try done. simpl. rewrite fmap_app, <- IH. by destruct x.
Qed.

Lemma repeated_fmap times A B (f : A → B) (la : list A) : repeated times B (f <$> la) = f <$> repeated times A la.
Proof.
  unfold repeated. revert la. induction times as [|n times IH]; intros [|a la]; try done. simpl.
  by rewrite fmap_app, <- IH, fmap_replicate.
Qed.

Lemma values_vmap (f : ∀ A, list A → list A) v :
  (∀ A B (g : A → B) la, f B (g <$> la) = g <$> f A la) → values (vmap f v) = f _ (values v) ∧ type_of (vmap f v) = type_of v.
Proof. intros Hf. split; [|by destruct v]. destruct v; simpl; by rewrite Hf. Qed.

(** *** The loop of a lambda *)

Lemma call_lambdas_ok func g now p n τ inAtts argss out todo : ∀ which s v,
  store_ok s → owner_ok s out → out !! n = Some (Column p true) →
  vectors s !! p = Some v → type_of v = τ → getCount v = which + todo → length argss = which + todo →
  (∀ i args, argss !! i = Some args → lambda_args inAtts i = Ret args) →
  (∀ args, (func now args = Ret (g args) ∧ type_of_value (g args) = τ) ∨ func now args = NotEnoughSpace) →
  match call_lambdas func now p inAtts which todo s with
  | (Ret _, s') => ∃ v', vectors s' !! p = Some v' ∧ type_of v' = τ ∧
      values v' = take which (values v) ++ (g <$> drop which argss) ∧ evolves s out s' out ∧
      ∀ q, q ≠ p → vectors s' !! q = vectors s !! q
  | (NotEnoughSpace, s') => (∃ v', vectors s' !! p = Some v' ∧ type_of v' = τ) ∧ evolves s out s' out ∧
      (∀ q, q ≠ p → vectors s' !! q = vectors s !! q) ∧ ∃ args, func now args = NotEnoughSpace
  | _ => False
  end.
Proof.
  induction todo as [|todo IH]; intros which s v Hs Ho Hp Hv Hτ Hc Hl Hargs Hf; simpl.
  { exists v. split_and!; try done; [|by apply evolves_refl]. rewrite drop_ge by lia. simpl. rewrite app_nil_r, take_ge; [done|].
    rewrite values_length. lia. }
  destruct (lookup_lt_is_Some_2 argss which ltac:(lia)) as [args Ha]. run. rewrite (Hargs _ _ Ha). run.
  destruct (Hf args) as [[-> Hty]|Hfull]; [|rewrite Hfull]; run; [|split; [by exists v|split; [by apply evolves_refl|split; [done|by exists args]]]].
  unfold read_vector at 1. rewrite Hv. run.
  destruct (set_element_ok which (g args) v) as (v1 & -> & Hv1 & Hτ1); [lia|congruence|]. run.
  destruct (write_owned n out s p v1 Hs Ho Hp) as (-> & Hev & Hv1s & _). run.
  set (s1 := Store _ _) in *.
  pose proof (IH (S which) s1 v1 (ev_store _ _ _ _ Hev) (ev_owner _ _ _ _ Hev) Hp Hv1s) as Hgo.
  assert (getCount v1 = getCount v) as Hc1 by (rewrite <- !values_length, Hv1; apply length_insert).
  specialize (Hgo ltac:(congruence) ltac:(lia) ltac:(lia) Hargs Hf).
  assert (∀ q, q ≠ p → vectors s1 !! q = vectors s !! q) as Hne by (intros q Hq; simpl; by rewrite lookup_insert_ne).
  destruct (call_lambdas _ _ _ _ _ _ s1) as [[[]| | |] s2]; try done.
  - destruct Hgo as (v2 & Hv2 & Hτ2 & Hval & Hev2 & Hne2). exists v2. split_and!; try done.
    + rewrite Hval, Hv1. rewrite (drop_S argss args which) by done. simpl.
      rewrite (take_S_r _ _ (g args)) by (apply list_lookup_insert_eq; rewrite values_length; lia).
      by rewrite take_insert_ge, <- app_assoc.
    + by eapply evolves_trans.
    + intros q Hq. rewrite Hne2 by done. by apply Hne.
  - destruct Hgo as (? & Hev2 & Hne2 & Hfull). split_and!; [done|by eapply evolves_trans| |done]. intros q Hq. rewrite Hne2 by done. by apply Hne.
Qed.

Lemma columns_as_ok s input atts cols :
  Forall2 (λ i la, col_value s input i (Objects la)) atts cols →
  mapM (λ i, column_as objects i input) atts s = (Ret cols, s).
Proof.
  induction 1 as [|i la atts cols Hla _ IH]; [done|]. simpl. run. rewrite (column_as_ok _ _ _ _ _ Hla). simpl. run. by rewrite IH.
Qed.

Lemma on_output_Ret (m : tuple_set → M (store O) tuple_set) s out ts s' :
  m out s = (Ret ts, s') → on_output m (Exec s out) = (Ret ts, Exec s' ts).
Proof. intros Hm. unfold on_output. simpl. by rewrite Hm. Qed.

Lemma in_heap_Ret {A} (m : M (store O) A) s out a s' :
  m s = (Ret a, s') → in_heap m (Exec s out) = (Ret a, Exec s' out).
Proof. intros Hm. unfold in_heap. simpl. by rewrite Hm. Qed.

Lemma CPlusPlusLambda_process_ok matches atts τ func g now input out s cols argss :
  store_ok s → owner_ok s out → apart s input out → appended τ (length matches) s out →
  Forall (λ i, is_Some (input !! i)) matches → atts ≠ [] → Forall2 (λ i la, col_value s input i (Objects la)) atts cols →
  (∀ la, head cols = Some la → length argss = length la) →
  (∀ i args, argss !! i = Some args → lambda_args cols i = Ret args) →
  (∀ now args, (func now args = Ret (g args) ∧ type_of_value (g args) = τ) ∨ func now args = NotEnoughSpace) →
  match CPlusPlusLambda_process matches atts (length matches) τ func now input (Exec s out) with
  | (Ret t, Exec s' out') => t = out' ∧ processed s input out s' out' ∧ appended τ (length matches) s' out' ∧
      supported matches input out' ∧ (∀ k i v, matches !! k = Some i → col_value s input i v → col_value s' out' k v) ∧
      ∃ v, col_value s' out' (length matches) v ∧ type_of v = τ ∧ values v = g <$> argss
  | (NotEnoughSpace, Exec s' out') => processed s input out s' out' ∧ appended τ (length matches) s' out' ∧
      ∃ args, func now args = NotEnoughSpace
  | _ => False
  end.
Proof.
  intros Hs Ho Ha Happ Hall Hne Hcols Hlen Hargs Hf. set (m := length matches) in *. 
  destruct cols as [|first cols]; [by inversion Hcols; subst|]. specialize (Hlen first eq_refl).
  destruct (setup_append τ (empty_vector τ) input matches out s (λ w, match resize_vector (length first) w with Ret v => v | _ => w end) Hs Ho Ha Happ Hall)
    as (s1 & out1 & s2 & out2 & p & w & s3 & Hrun1 & Hrun2 & Hp & Hpw & Hty & Hrun3 & Hv3 & Hpr & Hb & Hsup & Hs1 & Hshallow & Hout).
  fold m in Hp, Hb, Hrun2.
  assert (type_of w = τ) as Hτ by (destruct Hty as [->|?]; [by destruct τ|done]).
  destruct (resize_vector_ok (length first) w) as (w' & Hw' & Hcw & Hτw). rewrite Hw' in Hrun3, Hv3.
  assert (Forall2 (λ i la, col_value s1 input i (Objects la)) atts (first :: cols)) as Hcols1.
  { eapply Forall2_impl; [exact Hcols|]. intros i la. apply Hs1. }
  pose proof Hpr as (Hev3 & Ha3 & Hk3).
  pose proof (call_lambdas_ok func g now p m τ (first :: cols) argss out2 (length first) 0 s3 w' (ev_store _ _ _ _ Hev3) (ev_owner _ _ _ _ Hev3)
    Hp Hv3 ltac:(congruence) ltac:(done) ltac:(done) Hargs (Hf now)) as Hcall.
  unfold CPlusPlusLambda_process. rewrite (M_bind_Ret _ _ _ _ _ (on_output_Ret _ _ _ _ _ Hrun1)).
  rewrite (M_bind_Ret _ _ _ _ _ (in_heap_Ret _ _ _ _ _ (columns_as_ok _ _ _ _ Hcols1))).
  rewrite (M_bind_Ret _ _ _ _ _ (on_output_Ret _ _ _ _ _ Hrun2)).
  assert (getColumn m out2 s2 = (Ret p, s2)) as Hget by (unfold getColumn; by rewrite Hp).
  rewrite (M_bind_Ret _ _ _ _ _ (in_heap_Ret _ _ _ _ _ Hget)).
  assert (read_vector p s2 = (Ret w, s2)) as Hread by (unfold read_vector; by rewrite Hpw).
  rewrite (M_bind_Ret _ _ _ _ _ (in_heap_Ret _ _ _ _ _ Hread)). cbv zeta. rewrite decide_True, Hw' by done. run.
  rewrite (in_heap_Ret _ _ _ _ _ Hrun3). run. unfold in_heap at 1. cbn [heap output].
  assert (∀ s4, evolves s3 out2 s4 out2 → processed s input out s4 out2) as Hpr4.
  { intros s4 Hev4. split; [by eapply evolves_trans|]. split; [eapply apart_evolves; [by apply Hev3|done..]|].
    intros i v Hv. eapply col_value_evolves; [by apply Hev3|exact Hev4|done|by apply Hk3]. }
  assert (∀ s4 v4, vectors s4 !! p = Some v4 → type_of v4 = τ → appended τ m s4 out2 ∧ col_value s4 out2 m v4) as Happ4.
  { intros s4 v4 Hv4 Hτ4. by apply (appended_result τ m p v4 s4 out2). }
  destruct (call_lambdas func now p (first :: cols) 0 (length first) s3) as [[[]| | |] s4]; try done.
  - destruct Hcall as (v4 & Hv4 & Hτ4 & Hval & Hev4 & Hother). rewrite drop_0 in Hval. simpl in Hval.
    destruct (Happ4 s4 v4 Hv4 Hτ4) as [Happ' Hcol]. split; [done|]. split; [by apply Hpr4|]. split; [done|]. split; [done|]. split; [|by exists v4].
    intros k i v Hk (c & Hc & Hv). exists (Column (contents c) false). split; [by apply (Hshallow k i c)|]. simpl.
    destruct (Ha3 i c Hc) as [_ Hno]. rewrite Hother.
    + destruct (Hk3 i v ltac:(by exists c)) as (d & Hd & Hdv). by simplify_eq.
    + intros Heq. apply Hno. exists m, (Column p true). by rewrite Heq.
  - destruct Hcall as ((v4 & Hv4 & Hτ4) & Hev4 & _ & Hfull). destruct (Happ4 s4 v4 Hv4 Hτ4) as [Happ' _]. split; [by apply Hpr4|by split].
Qed.

(** *** Rows and columns *)

Lemma has_rows_column schema s ts l i τ :
  has_rows schema s ts l → schema !! i = Some τ →
  ∃ v, col_value s ts i v ∧ type_of v = τ ∧ getCount v = length l ∧ (λ r, r !! i) <$> l = Some <$> values v.
Proof.
  intros [_ Hc] Hi. destruct (Hc i τ Hi) as (v & Hv & Ht & Hl). exists v. split_and!; try done.
  apply (f_equal length) in Hl. rewrite !length_fmap, values_length in Hl. done.
Qed.

Lemma project_schema_lookup schema matches σ k i :
  project_schema schema matches = Some σ → matches !! k = Some i → ∃ τ, schema !! i = Some τ ∧ σ !! k = Some τ.
Proof.
  intros Hp%mapM_Some Hk. destruct (Forall2_lookup_l _ _ _ _ _ Hp Hk) as (τ & Hσ & Hi). by exists τ.
Qed.

Lemma project_schema_length schema matches σ : project_schema schema matches = Some σ → length σ = length matches.
Proof. intros Hp%mapM_Some. symmetry. by eapply Forall2_length. Qed.

Lemma has_rows_rectangular schema matches σ s ts l :
  project_schema schema matches = Some σ → has_rows schema s ts l → rectangular s ts matches (length l).
Proof.
  intros Hp Hr. apply Forall_lookup. intros k i Hk. destruct (project_schema_lookup _ _ _ _ _ Hp Hk) as (τ & Hi & _).
  destruct (has_rows_column _ _ _ _ _ _ Hr Hi) as (v & Hv & _ & Hc & _). by exists v.
Qed.

Lemma project_row schema matches σ r :
  project_schema schema matches = Some σ → length r = length schema →
  length (project matches r) = length σ ∧ ∀ k i, matches !! k = Some i → project matches r !! k = r !! i.
Proof.
  intros Hp%mapM_Some Hr. induction Hp as [|i τ matches σ Hi _ IH]; [done|]. destruct IH as [IHl IHk].
  destruct (lookup_lt_is_Some_2 r i) as [x Hx]; [rewrite Hr; by eapply lookup_lt_Some|].
  unfold project in *. simpl. rewrite Hx. simpl. split; [f_equal; exact IHl|]. intros [|k] j Hk; simpl in *; [congruence|by apply IHk].
Qed.

Lemma project_column schema matches σ l k i (f : row → row) :
  project_schema schema matches = Some σ → Forall (λ r, length r = length schema) l → matches !! k = Some i →
  (∀ r, ∃ rest, f r = project matches r ++ rest) → (λ r, f r !! k) <$> l = (λ r, r !! i) <$> l.
Proof.
  intros Hp Hl Hk Hf. apply list_fmap_ext. intros j r Hr. pose proof (Forall_lookup_1 _ _ _ _ Hl Hr) as Hlen. simpl in Hlen.
  destruct (project_row _ _ _ r Hp Hlen) as [Hpl Hpk]. destruct (Hf r) as [rest ->].
  rewrite lookup_app_l; [by apply Hpk|]. rewrite Hpl, (project_schema_length _ _ _ Hp). by eapply lookup_lt_Some.
Qed.

Lemma last_column schema matches σ l (x : row → value) :
  project_schema schema matches = Some σ → Forall (λ r, length r = length schema) l →
  (λ r, (project matches r ++ [x r]) !! length matches) <$> l = (λ r, Some (x r)) <$> l.
Proof.
  intros Hp Hl. apply list_fmap_ext. intros j r Hr. pose proof (Forall_lookup_1 _ _ _ _ Hl Hr) as Hlen. simpl in Hlen.
  destruct (project_row _ _ _ r Hp Hlen) as [Hpl _]. rewrite lookup_app_r by (rewrite Hpl, (project_schema_length _ _ _ Hp); lia).
  by rewrite Hpl, (project_schema_length _ _ _ Hp), Nat.sub_diag.
Qed.

Lemma filter_sieve {A} (P : A → bool) (la : list A) : filter (λ a, P a = true) la = sieve (P <$> la) A la.
Proof.
  unfold sieve. induction la as [|a la IH]; [done|]. rewrite filter_cons. simpl. destruct (P a) eqn:E; simpl; by rewrite IH.
Qed.

Lemma repeated_bind {A B} (g : A → nat) (f : A → B) (la : list A) :
  repeated (g <$> la) B (f <$> la) = la ≫= λ a, replicate (g a) (f a).
Proof. unfold repeated. induction la as [|a la IH]; [done|]. simpl. f_equal. exact IH. Qed.

(** The rows after a column was appended. *)
Lemma has_rows_appended schema matches σ s s' ts ts' l v τ (x : row → value) :
  project_schema schema matches = Some σ → has_rows schema s ts l →
  (∀ k i v, matches !! k = Some i → col_value s ts i v → col_value s' ts' k v) →
  col_value s' ts' (length matches) v → type_of v = τ → values v = x <$> l →
  has_rows (σ ++ [τ]) s' ts' ((λ r, project matches r ++ [x r]) <$> l).
Proof.
  intros Hp Hr Hk Hv Hτ Hx. pose proof Hr as [Hl _]. pose proof (project_schema_length _ _ _ Hp) as Hlen. split.
  - apply Forall_fmap. eapply Forall_impl; [exact Hl|]. intros r Hrl. simpl.
    rewrite !length_app. simpl. by destruct (project_row _ _ _ r Hp Hrl) as [-> _].
  - intros k τ' Hkτ. rewrite <- list_fmap_compose. unfold compose. apply lookup_snoc_Some in Hkτ as [[Hlt Hkσ]|[-> <-]].
    + destruct (lookup_lt_is_Some_2 matches k) as [i Hi]; [lia|]. destruct (project_schema_lookup _ _ _ _ _ Hp Hi) as (τ0 & Hi0 & Hk0).
      simplify_eq. destruct (has_rows_column _ _ _ _ _ _ Hr Hi0) as (w & Hw & Hτw & _ & Hcol).
      exists w. split; [by apply (Hk k i)|]. split; [done|]. rewrite <- Hcol. eapply project_column; [done..|]. intros r. by eexists.
    + exists v. rewrite Hlen. split; [done|]. split; [done|]. rewrite (last_column _ _ _ _ _ Hp Hl), Hx. by rewrite <- list_fmap_compose.
Qed.

(** *** The stages are lawful *)

Context (meaning : (nat → list (option O) → outcome value) → list (option O) → value).

(** The lambda of a stage returns a value of its type, always the same for the
    same arguments, or throws; the tables of a probe are well formed. *)
Definition lambda_ok (q : stage (O:=O)) : Prop :=
  match q with
  | Apply _ _ τ func => ∀ now args,
      (func now args = Ret (meaning func args) ∧ type_of_value (meaning func args) = τ) ∨ func now args = NotEnoughSpace
  | Probe _ _ positions _ pr _ => prober_ok (length positions) pr
  | _ => True
  end.

(** On page [now] the lambda of the stage runs out of space for some arguments, or
    the probe for some component of a join tuple; no other stage ever does. *)
Definition runs_out (now : nat) (q : stage (O:=O)) : Prop :=
  match q with
  | Apply _ _ _ func => ∃ args, func now args = NotEnoughSpace
  | Probe _ _ _ _ _ fits => ∃ n k, fits now n k = false
  | _ => False
  end.

(** The output of the executor has only columns that it made or copied. *)
Definition ready (q : stage (O:=O)) (columns : list nat) s out : Prop :=
  match q with
  | Filter matches _ => columns_below out (length matches)
  | HashOne matches _ => appended TNumber (length matches) s out
  | Flatten matches _ => appended TObject (length matches) s out
  | Apply matches _ τ _ => appended τ (length matches) s out
  | Probe matches _ positions needToSwapLHSAndRhs _ _ => probe_ready matches positions needToSwapLHSAndRhs columns s out
  end.

Lemma rows_of_vectors (rows : list (list (option O))) l i :
  (λ r, r !! i) <$> l = Some <$> values (Vectors rows) → rows = vector_at i <$> l.
Proof.
  simpl. revert rows. induction l as [|r l IH]; intros [|os rows]; try done. simpl. intros [= Hr Hl]. unfold vector_at at 1. rewrite Hr.
  f_equal. by apply IH.
Qed.

Lemma rows_of_bools (b : list bool) l i : (λ r, r !! i) <$> l = Some <$> values (O:=O) (Bools b) → b = true_at i <$> l.
Proof.
  simpl. revert b. induction l as [|r l IH]; intros [|x b]; try done. simpl. intros [= Hr Hl]. unfold true_at at 1. rewrite Hr.
  f_equal; [by destruct x|]. by apply IH.
Qed.

Lemma rows_of_objects atts cols l i r :
  Forall2 (λ a la, (λ r, r !! a) <$> l = Some <$> values (Objects la)) atts cols → l !! i = Some r →
  lambda_args cols i = Ret (objects_at atts r).
Proof.
  intros Hc Hr. unfold lambda_args, objects_at. induction Hc as [|a la atts cols Ha _ IH]; [done|]. simpl.
  apply (f_equal (lookup i)) in Ha. simpl in Ha. rewrite !list_lookup_fmap, Hr in Ha. simpl in Ha.
  destruct (la !! i) as [o|]; simpl in Ha; [|done]. injection Ha as ->. simpl. by rewrite IH.
Qed.

Lemma Forall_filter {A} (P : A → Prop) (Q : A → Prop) `{!∀ a, Decision (Q a)} (la : list A) : Forall P la → Forall P (filter Q la).
Proof. rewrite !Forall_forall. intros Hp a [_ Ha]%list_elem_of_filter. by apply Hp. Qed.

Lemma filter_rows matches schema σ s s' ts ts' l b whichAtt :
  project_schema schema matches = Some σ → has_rows schema s ts l → b = true_at whichAtt <$> l →
  (∀ k i v, matches !! k = Some i → col_value s ts i v → col_value s' ts' k (vmap (sieve b) v)) →
  has_rows σ s' ts' (project matches <$> filter (λ r, true_at whichAtt r = true) l).
Proof.
  intros Hp Hr Hb Hk. pose proof Hr as [Hl _]. split.
  - apply Forall_fmap. eapply Forall_impl; [apply Forall_filter; exact Hl|]. intros r Hrl. simpl. by destruct (project_row _ _ _ r Hp Hrl) as [-> _].
  - intros k τ Hkτ. pose proof (project_schema_length _ _ _ Hp) as Hlen.
    destruct (lookup_lt_is_Some_2 matches k) as [i Hi]; [rewrite <- Hlen; by eapply lookup_lt_Some|].
    destruct (project_schema_lookup _ _ _ _ _ Hp Hi) as (τ0 & Hi0 & Hk0). simplify_eq.
    destruct (has_rows_column _ _ _ _ _ _ Hr Hi0) as (w & Hw & Hτw & _ & Hcol). exists (vmap (sieve (true_at whichAtt <$> l)) w).
    destruct (values_vmap (sieve (true_at whichAtt <$> l)) w (sieve_fmap _)) as [Hval Hτ]. split; [by apply (Hk k i)|]. split; [congruence|].
    rewrite Hval, <- list_fmap_compose, <- sieve_fmap, <- Hcol, sieve_fmap, filter_sieve.
    apply list_fmap_ext. intros j r Hj. unfold compose.
    assert (Forall (λ r, length r = length schema) (sieve (true_at whichAtt <$> l) _ l)) as Hsl
      by (rewrite <- filter_sieve; by apply Forall_filter).
    destruct (project_row _ _ _ r Hp (Forall_lookup_1 _ _ _ _ Hsl Hj)) as [_ Hpr]. by apply Hpr.
Qed.

Lemma fmap_bind {A B C} (f : A → list B) (g : B → C) (la : list A) : g <$> (la ≫= f) = la ≫= λ a, g <$> f a.
Proof. induction la as [|a la IH]; [done|]. simpl. rewrite fmap_app. f_equal. exact IH. Qed.

Lemma fmap_constant {A B} (b : B) (la : list A) : (λ _, b) <$> la = replicate (length la) b.
Proof. induction la as [|a la IH]; [done|]. simpl. f_equal. exact IH. Qed.

Lemma concat_fmap {A B} (f : A → list B) (la : list A) : concat (f <$> la) = la ≫= f.
Proof. induction la as [|a la IH]; [done|]. simpl. f_equal. exact IH. Qed.

Lemma flatten_rows matches schema σ s s' ts ts' l rows whichAtt :
  project_schema schema matches = Some σ → has_rows schema s ts l → rows = vector_at whichAtt <$> l →
  (∀ k i v, matches !! k = Some i → col_value s ts i v → col_value s' ts' k (vmap (repeated (length <$> rows)) v)) →
  col_value s' ts' (length matches) (Objects (concat rows)) →
  has_rows (σ ++ [TObject]) s' ts' (l ≫= λ r, (λ o, project matches r ++ [VObject o]) <$> vector_at whichAtt r).
Proof.
  intros Hp Hr Hrows Hk Hv. pose proof Hr as [Hl _]. pose proof (project_schema_length _ _ _ Hp) as Hlen. split.
  - apply Forall_bind. eapply Forall_impl; [exact Hl|]. intros r Hrl. apply Forall_fmap, Forall_true. intros o. simpl.
    rewrite !length_app. simpl. by destruct (project_row _ _ _ r Hp Hrl) as [-> _].
  - intros k τ' Hkτ. rewrite fmap_bind. apply lookup_snoc_Some in Hkτ as [[Hlt Hkσ]|[-> <-]].
    + destruct (lookup_lt_is_Some_2 matches k) as [i Hi]; [lia|]. destruct (project_schema_lookup _ _ _ _ _ Hp Hi) as (τ0 & Hi0 & Hk0).
      simplify_eq. destruct (has_rows_column _ _ _ _ _ _ Hr Hi0) as (w & Hw & Hτw & _ & Hcol). eexists. split; [by apply (Hk k i)|].
      destruct (values_vmap (repeated (length <$> (vector_at whichAtt <$> l))) w (repeated_fmap _)) as [-> ->]. split; [done|].
      rewrite <- repeated_fmap, <- Hcol, <- (list_fmap_compose (vector_at whichAtt)), repeated_bind. apply Forall_bind_ext.
      eapply Forall_impl; [exact Hl|]. intros r Hrl. simpl. unfold compose. rewrite <- list_fmap_compose, <- fmap_constant.
      apply list_fmap_ext. intros j o _. unfold compose. destruct (project_row _ _ _ r Hp Hrl) as [Hpl Hpk].
      rewrite lookup_app_l by lia. by apply Hpk.
    + rewrite Hlen. eexists. split; [exact Hv|]. split; [done|]. subst rows. simpl. rewrite concat_fmap, !fmap_bind. apply Forall_bind_ext.
      eapply Forall_impl; [exact Hl|]. intros r Hrl. simpl. rewrite <- !list_fmap_compose. apply list_fmap_ext. intros j o _. unfold compose.
      destruct (project_row _ _ _ r Hp Hrl) as [Hpl _]. rewrite lookup_app_r by lia. by rewrite Hpl, Hlen, Nat.sub_diag.
Qed.

(** A row of a join: a row of the input with a tuple of the table beside it. *)
Definition joined (matches positions : list nat) (swap : bool) (r : row) (t : list O) : row :=
  if swap then placed positions t ++ project matches r else project matches r ++ placed positions t.

Lemma placed_lookup positions (t : list O) k q :
  positions ≡ₚ seq 0 (length positions) → positions !! k = Some q → placed positions t !! q = Some (VObject (t !! k)).
Proof.
  intros Hp Hk. unfold placed. assert (NoDup positions) as Hnd by (rewrite Hp; apply NoDup_seq).
  assert (q < length positions) as Hlt by (apply (positions_lt positions Hp), list_elem_of_lookup; by exists k).
  rewrite list_lookup_fmap, lookup_seq_lt by done. simpl. do 2 f_equal.
  assert (list_find (λ q', q' = q) positions = Some (k, q)) as ->; [|done].
  apply list_find_Some. split; [done|]. split; [done|]. intros j y Hj Hjk ->. pose proof (NoDup_lookup _ _ _ _ Hnd Hk Hj). lia.
Qed.

Lemma joined_lookup schema matches σ positions (swap : bool) r t :
  project_schema schema matches = Some σ → length r = length schema →
  (∀ k, k < length matches → joined matches positions swap r t !! (offset positions swap + k) = project matches r !! k) ∧
  (∀ q, q < length positions → joined matches positions swap r t !! (base matches swap + q) = placed positions t !! q) ∧
  length (joined matches positions swap r t) = length matches + length positions.
Proof.
  intros Hp Hr. destruct (project_row _ _ _ r Hp Hr) as [Hpl _]. pose proof (project_schema_length _ _ _ Hp) as Hlen.
  assert (length (placed positions t) = length positions) as Hw by (unfold placed; by rewrite length_fmap, length_seq).
  unfold joined, offset, base. destruct swap; rewrite length_app; (split; [|split; [|lia]]).
  - intros k _. rewrite lookup_app_r by lia. f_equal. lia.
  - intros q Hq. apply lookup_app_l. lia.
  - intros k Hk. apply lookup_app_l. lia.
  - intros q _. rewrite lookup_app_r by lia. f_equal. lia.
Qed.

Lemma joined_schema_lookup matches positions (swap : bool) (σ : list col_type) j τ :
  length σ = length matches →
  (if swap then replicate (length positions) TObject ++ σ else σ ++ replicate (length positions) TObject) !! j = Some τ →
  (∃ k, j = offset positions swap + k ∧ σ !! k = Some τ) ∨ (∃ q, j = base matches swap + q ∧ q < length positions ∧ τ = TObject).
Proof.
  intros Hlen Hj. unfold offset, base. destruct swap; apply lookup_app_Some in Hj as [Hj|[Hge Hj]].
  - apply lookup_replicate in Hj as [-> Hj]. right. by exists j.
  - rewrite length_replicate in Hge, Hj. left. exists (j - length positions). split; [lia|done].
  - left. by exists j.
  - apply lookup_replicate in Hj as [-> Hj]. right. exists (j - length σ). split; [lia|done].
Qed.

Lemma joined_rows schema matches σ positions (swap : bool) (f : row → list (list O)) s s' ts ts' l :
  project_schema schema matches = Some σ → has_rows schema s ts l → positions ≡ₚ seq 0 (length positions) →
  (∀ k i v, matches !! k = Some i → col_value s ts i v →
     col_value s' ts' (offset positions swap + k) (vmap (repeated ((λ r, length (f r)) <$> l)) v)) →
  (∀ k q, positions !! k = Some q → col_value s' ts' (base matches swap + q) (Objects ((λ t : list O, t !! k) <$> (l ≫= f)))) →
  has_rows (if swap then replicate (length positions) TObject ++ σ else σ ++ replicate (length positions) TObject) s' ts'
    (l ≫= λ r, joined matches positions swap r <$> f r).
Proof.
  intros Hp Hr Hpos Hin Htab. pose proof Hr as [Hl _]. pose proof (project_schema_length _ _ _ Hp) as Hlen. split.
  - apply Forall_bind. eapply Forall_impl; [exact Hl|]. intros r Hrl. apply Forall_fmap, Forall_true. intros t. simpl.
    destruct (joined_lookup schema matches σ positions swap r t Hp Hrl) as (_ & _ & ->).
    destruct swap; rewrite length_app, length_replicate; lia.
  - intros j τ Hj. rewrite fmap_bind. destruct (joined_schema_lookup matches positions swap σ j τ Hlen Hj) as [(k & -> & Hk)|(q & -> & Hq & ->)].
    + destruct (lookup_lt_is_Some_2 matches k) as [i Hi]; [rewrite <- Hlen; by eapply lookup_lt_Some|].
      destruct (project_schema_lookup _ _ _ _ _ Hp Hi) as (τ0 & Hi0 & Hk0).
      simplify_eq. destruct (has_rows_column _ _ _ _ _ _ Hr Hi0) as (w & Hw & Hτw & _ & Hcol). eexists. split; [by apply (Hin k i)|].
      destruct (values_vmap (repeated ((λ r, length (f r)) <$> l)) w (repeated_fmap _)) as [-> ->]. split; [done|].
      rewrite <- repeated_fmap, <- Hcol, repeated_bind. apply Forall_bind_ext.
      eapply Forall_impl; [exact Hl|]. intros r Hrl. simpl. rewrite <- list_fmap_compose, <- fmap_constant.
      apply list_fmap_ext. intros n t _. unfold compose. destruct (joined_lookup schema matches σ positions swap r t Hp Hrl) as (Hjl & _ & _).
      rewrite Hjl by (by eapply lookup_lt_Some). destruct (project_row _ _ _ r Hp Hrl) as [_ Hpk]. by apply Hpk.
    + assert (∃ k, positions !! k = Some q) as [k Hk] by (apply list_elem_of_lookup; rewrite Hpos; apply elem_of_seq; lia).
      eexists. split; [by apply (Htab k q)|]. split; [done|]. cbn [values]. rewrite !fmap_bind. apply Forall_bind_ext.
      eapply Forall_impl; [exact Hl|]. intros r Hrl. simpl. rewrite <- !list_fmap_compose. apply list_fmap_ext. intros n t _. unfold compose.
      destruct (joined_lookup schema matches σ positions swap r t Hp Hrl) as (_ & Hjt & _). rewrite Hjt by done. by apply placed_lookup.
Qed.

Lemma has_rows_kept schema s s' ts l :
  has_rows schema s ts l → (∀ i v, col_value s ts i v → col_value s' ts i v) → has_rows schema s' ts l.
Proof. intros [Hl Hc] Hk. split; [done|]. intros k τ Hτ. destruct (Hc k τ Hτ) as (v & Hv & ? & ?). exists v. by split; [apply Hk|]. Qed.

Lemma on_output_stage (m : tuple_set → M (store O) tuple_set) s input out s' out' :
  m out s = (Ret out', s') → on_output m (Exec s out) = (Ret out', Exec s' out').
Proof. intros Hm. unfold on_output. simpl. by rewrite Hm. Qed.

Lemma ready_frame q us s s' out : ready q us s out → types_kept s s' out → ready q us s' out.
Proof. destruct q; simpl; [done|apply appended_frame..|apply probe_ready_kept]. Qed.

(** A constructor makes an output that its stage is ready to use. *)
Lemma construct_ok schema q σ s :
  typecheck schema q = Some σ → store_ok s →
  ∃ s' out us, construct q s = (Ret (out, us), s') ∧ evolves s ∅ s' out ∧ ready q us s' out.
Proof.
  intros Ht Hs. destruct q as [matches w|matches w|matches w|matches atts τ func|matches w positions swap pr fits]; simpl.
  1-4: exists s, ∅, []; split; [done|]; split; [apply evolves_refl; [done|apply owner_ok_empty]|].
  - apply columns_below_empty.
  - apply appended_empty.
  - apply appended_empty.
  - apply appended_empty.
  - simpl in Ht. apply bind_Some in Ht as (σ0 & Hp & Ht). case_guard as Hg; simplify_eq/=. destruct Hg. by apply JoinProbe_new_ok.
Qed.

(** The column of an attribute, as a vector of its type. *)
Lemma typed_column schema s ts l i τ :
  has_rows schema s ts l → schema !! i = Some τ →
  ∃ v, col_value s ts i v ∧ getCount v = length l ∧ (λ r, r !! i) <$> l = Some <$> values v ∧
    match τ with
    | TObject => ∃ x, v = Objects x
    | TBool => ∃ x, v = Bools x
    | TNumber => ∃ x, v = Numbers x
    | TVector => ∃ x, v = Vectors x
    end.
Proof.
  intros Hr Hi. destruct (has_rows_column _ _ _ _ _ _ Hr Hi) as (v & Hv & <- & Hc & Hl). exists v. split_and!; try done.
  destruct v; by eexists.
Qed.

Lemma typed_objects schema s ts l atts :
  has_rows schema s ts l → Forall (λ i, schema !! i = Some TObject) atts →
  ∃ cols, Forall2 (λ i la, col_value s ts i (Objects la)) atts cols ∧
    Forall2 (λ i la, (λ r, r !! i) <$> l = Some <$> values (Objects la)) atts cols.
Proof.
  intros Hr. induction 1 as [|i atts Hi _ (cols & H1 & H2)]; [by exists []|].
  destruct (typed_column _ _ _ _ _ _ Hr Hi) as (v & Hv & _ & Hl & [la ->]). exists (la :: cols). split; by constructor.
Qed.

Lemma Apply_process_ok schema σ matches atts τ func now input out l s :
  project_schema schema matches = Some σ → atts ≠ [] → Forall (λ i, schema !! i = Some TObject) atts →
  lambda_ok (Apply matches atts τ func) →
  store_ok s → owner_ok s out → apart s input out → appended τ (length matches) s out → has_rows schema s input l →
  match process (Apply matches atts τ func) [] now input (Exec s out) with
  | (Ret t, Exec s' out') => t = out' ∧ processed s input out s' out' ∧ ready (Apply matches atts τ func) [] s' out' ∧
      supported matches input out' ∧ has_rows (σ ++ [τ]) s' out' (stage_rows meaning (Apply matches atts τ func) l)
  | (NotEnoughSpace, Exec s' out') => processed s input out s' out' ∧ ready (Apply matches atts τ func) [] s' out' ∧
      runs_out now (Apply matches atts τ func)
  | _ => False
  end.
Proof.
  intros Hp Hne Hatts Hf Hs Ho Ha Happ Hr. destruct (typed_objects _ _ _ _ _ Hr Hatts) as (cols & Hcols & Hrows).
  pose proof (CPlusPlusLambda_process_ok matches atts τ func (meaning func) now input out s cols (objects_at atts <$> l)
    Hs Ho Ha Happ (rectangular_is_Some _ _ _ _ (has_rows_rectangular _ _ _ _ _ _ Hp Hr)) Hne Hcols) as Hrun.
  destruct cols as [|first cols]; [by inversion Hcols; subst|]. lapply Hrun; clear Hrun; [|].
  2:{ intros la [= <-]. inversion Hrows as [|i la atts' cols' Hfirst _]; subst. apply (f_equal length) in Hfirst.
      rewrite !length_fmap, values_length in Hfirst. simpl in Hfirst. by rewrite length_fmap. }
  intros Hrun. lapply Hrun; clear Hrun; [intros Hrun|].
  2:{ intros i args Hargs. rewrite list_lookup_fmap in Hargs. destruct (l !! i) as [r|] eqn:Hri; [|done]. injection Hargs as <-.
      by eapply rows_of_objects. }
  specialize (Hrun Hf). cbn [process] in *. destruct (CPlusPlusLambda_process _ _ _ _ _ _ _ _) as [[t| | |] [s' out']]; try done.
  destruct Hrun as (-> & Hpr & Hrdy & Hsup & Hk & v & Hv & Hτ & Hval). split_and!; try done; [apply Hpr..|].
  apply (has_rows_appended schema matches σ s s' input out' l v τ (λ r, meaning func (objects_at atts r))); try done.
  rewrite Hval. by rewrite <- list_fmap_compose.
Qed.

Lemma rows_of_numbers (h : list Z) l i : (λ r, r !! i) <$> l = Some <$> values (O:=O) (Numbers h) → h = hash_at i <$> l.
Proof.
  simpl. revert h. induction l as [|r l IH]; intros [|x h]; try done. simpl. intros [= Hr Hl]. unfold hash_at at 1. rewrite Hr.
  f_equal. by apply IH.
Qed.

Lemma Probe_process_ok schema σ matches whichAtt positions (swap : bool) pr fits us now input out l s :
  let q := Probe matches whichAtt positions swap pr fits in
  project_schema schema matches = Some σ → schema !! whichAtt = Some TNumber → positions ≡ₚ seq 0 (length positions) → lambda_ok q →
  store_ok s → owner_ok s out → apart s input out → ready q us s out → has_rows schema s input l →
  match process q us now input (Exec s out) with
  | (Ret t, Exec s' out') => t = out' ∧ processed s input out s' out' ∧ ready q us s' out' ∧ supported matches input out' ∧
      has_rows (if swap then replicate (length positions) TObject ++ σ else σ ++ replicate (length positions) TObject) s' out'
        (stage_rows meaning q l)
  | (NotEnoughSpace, Exec s' out') => processed s input out s' out' ∧ ready q us s' out' ∧ runs_out now q
  | _ => False
  end.
Proof.
  intros q Hp Hw Hpos Hlam Hs Ho Ha Hrdy Hr. pose proof (has_rows_rectangular _ _ _ _ _ _ Hp Hr) as Hrect.
  destruct (typed_column _ _ _ _ _ _ Hr Hw) as (v & Hv & Hc & Hcol & [h ->]). simpl in Hc. rewrite <- Hc in Hrect.
  pose proof (JoinProbe_process_ok matches positions swap us Hpos whichAtt pr (fits now) input out h s Hs Ho Ha Hlam Hrdy Hv Hrect) as Hrun.
  apply rows_of_numbers in Hcol as ->. unfold q. cbn [process]. run.
  destruct (JoinProbe_process _ _ _ _ _ _ _ _ _) as [[t| | |] [s' out']]; try done.
  destruct Hrun as (-> & Hpr & Hrdy' & Hsup & Hin & Htab). run. split_and!; try done; [apply Hpr..|].
  cbn [stage_rows]. apply (joined_rows schema matches σ positions swap (λ r, matches_of pr (hash_at whichAtt r)) s s' input out' l); try done.
  - intros k i v Hk Hkv. specialize (Hin k i v Hk Hkv). by rewrite <- list_fmap_compose in Hin.
  - intros k j Hk. specialize (Htab k j Hk). rewrite list_fmap_bind in Htab. exact Htab.
Qed.

Lemma process_ok schema q us σ now s input out l :
  typecheck schema q = Some σ → lambda_ok q →
  store_ok s → owner_ok s out → apart s input out → ready q us s out → has_rows schema s input l →
  match process q us now input (Exec s out) with
  | (Ret t, Exec s' out') => t = out' ∧ processed s input out s' out' ∧ ready q us s' out' ∧
      supported (passes q) input out' ∧ has_rows σ s' out' (stage_rows meaning q l)
  | (NotEnoughSpace, Exec s' out') => processed s input out s' out' ∧ ready q us s' out' ∧ runs_out now q
  | _ => False
  end.
Proof.
  intros Ht Hlam Hs Ho Ha Hrdy Hr. destruct q as [matches w|matches w|matches w|matches atts τ func|matches w positions swap pr fits]; simpl in Ht;
    apply bind_Some in Ht as (σ0 & Hp & Ht); case_guard as Hg; simplify_eq/=;
    pose proof (has_rows_rectangular _ _ _ _ _ _ Hp Hr) as Hrect.
  - destruct (typed_column _ _ _ _ _ _ Hr Hg) as (v & Hv & Hc & Hcol & [b ->]). simpl in Hc. rewrite <- Hc in Hrect.
    destruct (FilterExecutor_process_ok matches w input out b s Hs Ho Ha Hrdy Hv Hrect) as (s' & out' & Hrun & Hpr & Hb & Hsup & Hk & _).
    rewrite (on_output_stage (λ out, FilterExecutor_process matches w out input) s input out s' out' Hrun). split; [done|].
    split; [done|]. split; [done|]. split; [done|]. eapply filter_rows; [done..| |exact Hk]. by apply rows_of_bools.
  - destruct (HashOneExecutor_process_ok matches w input out (length l) s Hs Ho Ha Hrdy Hg Hrect) as (s' & out' & Hrun & Hpr & Hb & Hsup & Hk & Hv).
    rewrite (on_output_stage (λ out, HashOneExecutor_process matches w (length matches) out input) s input out s' out' Hrun).
    do 4 (split; [done|]). eapply has_rows_appended; [done..|]. simpl. by rewrite fmap_constant, fmap_replicate.
  - destruct (typed_column _ _ _ _ _ _ Hr Hg) as (v & Hv & Hc & Hcol & [rows ->]). simpl in Hc. rewrite <- Hc in Hrect.
    destruct (FlattenExecutor_process_ok matches w input out rows s Hs Ho Ha Hrdy Hv Hrect) as (s' & out' & Hrun & Hpr & Hb & Hsup & Hk & Hcat).
    rewrite (on_output_stage (λ out, FlattenExecutor_process matches w (length matches) out input) s input out s' out' Hrun).
    do 4 (split; [done|]). eapply flatten_rows; [done..| |exact Hk|exact Hcat]. by apply rows_of_vectors.
  - destruct Hg as [Hne Hatts]. by apply (Apply_process_ok schema σ0).
  - destruct Hg as [Hw Hpos]. by apply Probe_process_ok with schema.
Qed.

#[export] Instance stage_laws schema q us σ :
  TCEq (typecheck schema q) (Some σ) → lambda_ok q →
  StageLaws (process q us) (ready q us) (has_rows schema) (has_rows σ) (stage_rows meaning q) (passes q).
Proof.
  intros Ht%TCEq_eq Hlam. split; [apply ready_frame|apply has_rows_kept|].
  intros now s input out l Hs Ho Ha Hrdy Hr. pose proof (process_ok schema q us σ now s input out l Ht Hlam Hs Ho Ha Hrdy Hr) as Hp.
  destruct (process q us now input (Exec s out)) as [[t| | |] [s' out']]; try done. by destruct Hp as (? & ? & _).
Qed.
End facts.

(** ** Property *)

Section soundness.
Context {O : Type} (meaning : (nat → list (option O) → outcome (value O)) → list (option O) → value O).

Lemma has_rows_types (schema : list col_type) (s : store O) t l :
  has_rows schema s t l → Forall (λ r, type_of_value <$> r = schema) l.
Proof.
  intros [Hlen Hcol]. apply Forall_lookup. intros i r Hr. apply list_eq_same_length with (length schema); [done|..].
  { rewrite length_fmap. by apply (Forall_lookup_1 _ _ _ _ Hlen Hr). }
  intros k x τ Hk Hx Hτ. destruct (Hcol k τ Hτ) as (v & _ & Hv & Hc). rewrite list_lookup_fmap in Hx. apply fmap_Some in Hx as (y & Hy & ->).
  apply (f_equal (lookup i)) in Hc. rewrite !list_lookup_fmap, Hr in Hc. simpl in Hc. rewrite Hy in Hc.
  destruct (values v !! i) as [z|] eqn:Hz; [|done]. simpl in Hc. injection Hc as ->. rewrite <- Hv.
  destruct v; simpl in Hz; rewrite list_lookup_fmap in Hz; apply fmap_Some in Hz as (? & _ & ->); done.
Qed.

(** [C7] A stage that fits the schema of a tuple set never fails on it: whatever was
    in its output before, it finishes or a lambda of it runs out of space, and in
    both cases the tuple set it was given is as before.  When it finishes its
    output has the rows that the stage makes of the rows of the input, and every
    one of them has values of the types of the schema of the output. *)
Theorem well_typed_stage (schema σ : list col_type) (q : stage (O:=O)) (us : list nat) (now : nat) (s : store O) input out l :
  typecheck schema q = Some σ → lambda_ok meaning q →
  store_ok s → owner_ok s out → apart s input out → ready q us s out → has_rows schema s input l →
  match process q us now input (Exec s out) with
  | (Ret t, Exec s' out') => t = out' ∧ has_rows schema s' input l ∧ has_rows σ s' t (stage_rows meaning q l) ∧
      Forall (λ r, type_of_value <$> r = σ) (stage_rows meaning q l) ∧ ready q us s' out' ∧ store_ok s' ∧ owner_ok s' out'
  | (NotEnoughSpace, Exec s' out') => has_rows schema s' input l ∧ ready q us s' out' ∧ store_ok s' ∧ owner_ok s' out'
  | _ => False
  end.
Proof.
  intros Ht Hlam Hs Ho Ha Hrdy Hr. assert (TCEq (typecheck schema q) (Some σ)) as Ht' by (by apply TCEq_eq).
  pose proof (stage_laws meaning schema q us σ Ht' Hlam) as Hlaws.
  pose proof (stage_process (StageLaws:=Hlaws) now s input out l Hs Ho Ha Hrdy Hr) as Hp.
  destruct (process q us now input (Exec s out)) as [[t| | |] [s' out']]; try done.
  - destruct Hp as (-> & [Hev _] & Hrdy' & _ & Hafter). split; [done|]. split.
    { eapply has_rows_kept; [done|]. intros i v. by eapply col_value_evolves. }
    split; [done|]. split; [by eapply has_rows_types|]. split; [done|]. split; [apply Hev|apply Hev].
  - destruct Hp as ([Hev _] & Hrdy'). split.
    { eapply has_rows_kept; [done|]. intros i v. by eapply col_value_evolves. }
    split; [done|]. split; apply Hev.
Qed.
End soundness.

(** ** Witness *)

(** A filter whose output still holds the column that it made for the tuple set before. *)
Definition demo_filter : stage (O:=Z) := Filter [0] 1.
Definition demo_store : store Z := Store {[0 := Objects [Some 1%Z; Some 2%Z; Some 3%Z]; 1 := Bools [true; false; true]; 2 := Objects [Some 9%Z]]} 3.
Definition demo_input : tuple_set := {[0 := Column 0 true; 1 := Column 1 true]}.
Definition demo_output : tuple_set := {[0 := Column 2 true]}.
Definition demo_lines : list (list (value Z)) := [[VObject (Some 1); VBool true]; [VObject (Some 2); VBool false]; [VObject (Some 3); VBool true]]%Z.

Lemma demo_store_ok : store_ok demo_store.
Proof. intros p [v Hv]. unfold demo_store in *. simpl in *. rewrite !lookup_insert_Some, lookup_singleton_Some in Hv. naive_solver lia. Qed.

Lemma demo_output_ok : owner_ok demo_store demo_output.
Proof.
  intros i c Hi. unfold demo_output in *. rewrite lookup_singleton_Some in Hi. destruct Hi as [<- <-].
  intros _. split; [by eexists|]. intros j d Hj. rewrite lookup_singleton_Some in Hj. naive_solver.
Qed.

Lemma demo_apart : apart demo_store demo_input demo_output.
Proof.
  intros i c Hi. unfold demo_input in Hi. rewrite lookup_insert_Some, lookup_singleton_Some in Hi.
  destruct Hi as [[<- <-]|[_ [<- <-]]]; (split; [by eexists|]); intros (j & d & Hj & _ & Hd);
    unfold demo_output in Hj; rewrite lookup_singleton_Some in Hj; destruct Hj as [_ <-]; done.
Qed.

Lemma demo_input_rows : has_rows [TObject; TBool] demo_store demo_input demo_lines.
Proof.
  split; [by repeat constructor|]. intros [|[|k]] τ Hk; simplify_eq/=.
  - exists (Objects [Some 1; Some 2; Some 3]%Z). split; [by exists (Column 0 true)|]. by split.
  - exists (Bools [true; false; true]). split; [by exists (Column 1 true)|]. by split.
Qed.

Lemma demo_output_ready : ready demo_filter [] demo_store demo_output.
Proof. intros k [c Hc]. unfold demo_output in Hc. rewrite lookup_singleton_Some in Hc. destruct Hc as [<- _]. simpl. lia. Qed.

Lemma well_typed_stage_witness :
  ∃ t e, process demo_filter [] 1 demo_input (Exec demo_store demo_output) = (Ret t, e) ∧
    has_rows [TObject] (heap e) t [[VObject (Some 1)]; [VObject (Some 3)]]%Z.
Proof.
  pose proof (well_typed_stage (λ _ _, VBool false) [TObject; TBool] [TObject] demo_filter [] 1 demo_store demo_input demo_output demo_lines
    eq_refl I demo_store_ok demo_output_ok demo_apart demo_output_ready demo_input_rows) as Hw.
  destruct (process demo_filter [] 1 demo_input (Exec demo_store demo_output)) as [[t| | |] [s' out']] eqn:Hp; [|by vm_compute in Hp..].
  exists t, (Exec s' out'). split; [done|]. by destruct Hw as (_ & _ & Hrows & _).
Defined.
