(* ===== verification/Scan.v ===== *)
(** * Scan: reading a stored set and writing one

    Models [lambdas/headers/VectorTupleSetIterator.h], which cuts the vectors on
    the pages of a set into tuple sets of one column, and [VectorSink.h], which
    pushes a column onto a vector on the output page.  The pages that the
    callback [getAnotherVector] will return are a list; those given back with
    [doneWithVector] are a log.  Chunk sizes are below 2^31. *)

From S2P Require Import Prelude.
From S2P Require Import PDBVector.
From S2P Require Import TupleSet.
From S2P Require Import Executor.

(** ** VectorTupleSetIterator *)

(** A page is its address and the objects of its root vector. *)
Record scan {O : Type} := Scan {
  sc_heap : store O;
  pagesLeft : list (Z * list (option O));
  pagesDone : list Z;
  iterateOverMe : option (list (option O));
  myRec : option Z;
  lastRec : option Z;
  chunkSize : nat;
  pos : nat;
  sc_output : option tuple_set
}.
Arguments scan : clear implicits.
Arguments Scan {O}.

Section scan.
Context {O : Type}.
Local Abbreviation M := (M (scan O)).

Definition sc_set_heap (s : store O) (c : scan O) : scan O :=
  Scan s (pagesLeft c) (pagesDone c) (iterateOverMe c) (myRec c) (lastRec c) (chunkSize c) (pos c) (sc_output c).
Definition set_lastRec (r : option Z) (c : scan O) : scan O :=
  Scan (sc_heap c) (pagesLeft c) (pagesDone c) (iterateOverMe c) (myRec c) r (chunkSize c) (pos c) (sc_output c).
Definition set_pos (n : nat) (c : scan O) : scan O :=
  Scan (sc_heap c) (pagesLeft c) (pagesDone c) (iterateOverMe c) (myRec c) (lastRec c) (chunkSize c) n (sc_output c).
Definition setChunkSize (n : nat) (c : scan O) : scan O :=
  Scan (sc_heap c) (pagesLeft c) (pagesDone c) (iterateOverMe c) (myRec c) (lastRec c) n (pos c) (sc_output c).

Definition sc_in_heap {A} (m : Prelude.M (store O) A) : M A := λ c,
  let '(r, s) := m (sc_heap c) in (r, sc_set_heap s c).

(** [if (lastRec != nullptr) doneWithVector(lastRec);] *)
Definition done_last : M unit := modify (λ c,
  Scan (sc_heap c) (pagesLeft c) (pagesDone c ++ option_list (lastRec c)) (iterateOverMe c) (myRec c) (lastRec c)
    (chunkSize c) (pos c) (sc_output c)).

(** [myRec = getAnotherVector();] and, unless that is null,
    [iterateOverMe = myRec->getRootObject();] *)
Definition next_rec : M bool := λ c,
  match pagesLeft c with
  | [] => (Ret false, Scan (sc_heap c) [] (pagesDone c) (iterateOverMe c) None (lastRec c) (chunkSize c) (pos c) (sc_output c))
  | (loc, l) :: rest =>
      (Ret true, Scan (sc_heap c) rest (pagesDone c) (Some l) (Some loc) (lastRec c) (chunkSize c) (pos c) (sc_output c))
  end.

(** [while (mySize == 0)]: false if there is no page left. *)
Fixpoint skip_empty (fuel : nat) : M bool :=
  match fuel with
  | 0 => lift Undefined
  | S fuel' =>
      c ← get;
      match iterateOverMe c with
      | None => lift Undefined
      | Some [] =>
          done_last ;; modify (set_lastRec (myRec c)) ;;
          b ← next_rec;
          if (b : bool) then skip_empty fuel' else mret false
      | Some _ => mret true
      end
  end.

(** The rest of [getNextTupleSet]: as many objects as there are, up to the chunk
    size, go to column 0.  The source counts them in an [int]: chunk sizes are
    below 2^31. *)
Definition fill_chunk : M (option tuple_set) :=
  c ← get;
  match iterateOverMe c, sc_output c with
  | Some l, Some output =>
      let numSlotsToIterate := if decide (length l < chunkSize c + pos c) then length l - pos c else chunkSize c in
      p ← sc_in_heap (getColumn 0 output);
      sc_in_heap (column_as objects 0 output) ;;
      sc_in_heap (write_vector p (Objects (take numSlotsToIterate (drop (pos c) l)))) ;;
      modify (set_pos (pos c + numSlotsToIterate)) ;;
      mret (Some output)
  | _, _ => lift Undefined
  end.

Definition getNextTupleSet : M (option tuple_set) :=
  c ← get;
  match iterateOverMe c with
  | None => mret None
  | Some _ =>
      done_last ;; modify (set_lastRec None) ;;
      b ← skip_empty (S (length (pagesLeft c)));
      if negb b then mret None else
      c ← get;
      if decide (Some (pos c) = length <$> iterateOverMe c) then
        modify (set_lastRec (myRec c)) ;;
        b ← next_rec;
        if negb b then mret None else
        c ← get;
        b ← skip_empty (S (length (pagesLeft c)));
        if negb b then mret None else
        modify (set_pos 0) ;; fill_chunk
      else fill_chunk
  end.

(** The constructor. *)
Definition scan_new (s : store O) (pages : list (Z * list (option O))) (chunk : nat) : outcome (scan O) :=
  match pages with
  | [] => Ret (Scan s [] [] None None None chunk 0 None)
  | (loc, l) :: rest =>
      match (p ← new_vector (Objects []); addColumn 0 p true ∅) s with
      | (Ret output, s') => Ret (Scan s' rest [] (Some l) (Some loc) None chunk 0 (Some output))
      | _ => Undefined
      end
  end.

(** The destructor, up to that of the output. *)
Definition scan_destroy : M unit := done_last ;; modify (set_lastRec None).
End scan.

(** ** VectorSink *)

Record vector_sink {O : Type} := VSink {
  vs_heap : store O;
  container : Array (option O)
}.
Arguments vector_sink : clear implicits.
Arguments VSink {O}.

Section sink.
Context {O : Type}.
Local Abbreviation M := (M (vector_sink O)).

Definition vs_in_heap {A} (m : Prelude.M (store O) A) : M A := λ k,
  let '(r, s) := m (vs_heap k) in (r, VSink s (container k)).
Definition in_container {A} (m : Prelude.M (Array (option O)) A) : M A := λ k,
  let '(r, a) := m (container k) in (r, VSink (vs_heap k) a).

Definition VectorSink_createNewOutputContainer : Array (option O) := Vector_default.

(** The loop of [writeOut] from row [i]; the handler erases the rows that have
    been pushed from the column, and throws again. *)
Fixpoint push_rows (sp : nat → vspace) (p : nat) (column : list (option O)) (i : nat) (todo : list (option O)) : M unit :=
  match todo with
  | [] => mret tt
  | o :: todo' =>
      catch (in_container (Vector_push_back None (sp i) o))
            (vs_in_heap (write_vector p (Objects (drop i column))) ;; lift NotEnoughSpace) ;;
      push_rows sp p column (S i) todo'
  end.

Definition VectorSink_writeOut (whichAttToStore : nat) (sp : nat → vspace) (input : tuple_set) : M unit :=
  p ← vs_in_heap (getColumn whichAttToStore input);
  column ← vs_in_heap (column_as objects whichAttToStore input);
  push_rows sp p column 0 column.
End sink.

(** ** What a scan returns *)

Section reference.
Context {A : Type} (n : nat).

(** A list in pieces of [n]. *)
Fixpoint chunks_of (fuel : nat) (l : list A) : list (list A) :=
  match fuel, l with
  | _, [] => []
  | 0, _ => []
  | S fuel', _ => take n l :: chunks_of fuel' (drop n l)
  end.

Definition chunks (l : list A) : list (list A) := chunks_of (length l) l.

Lemma chunks_of_fuel fuel fuel' l : 0 < n → length l ≤ fuel → length l ≤ fuel' → chunks_of fuel l = chunks_of fuel' l.
Proof.
  intros Hn. revert fuel' l. induction fuel as [|fuel IH]; intros [|fuel'] [|a l] H1 H2; try done; simpl in *; try lia.
  f_equal. apply IH; rewrite length_drop; simpl; lia.
Qed.

Lemma chunks_cons l : 0 < n → l ≠ [] → chunks l = take n l :: chunks (drop n l).
Proof.
  intros Hn Hl. unfold chunks. destruct l as [|a l]; [done|]. simpl length at 1. cbn [chunks_of]. f_equal.
  apply chunks_of_fuel; [done| |done]. rewrite length_drop. simpl. lia.
Qed.

Lemma chunks_concat l : 0 < n → concat (chunks l) = l.
Proof.
  intros Hn. induction l as [l IH] using (induction_ltof1 _ length). destruct l as [|a l]; [done|].
  rewrite chunks_cons by done. cbn [concat]. rewrite IH; [apply take_drop|]. unfold ltof. rewrite length_drop. simpl. lia.
Qed.

Lemma chunks_short l : 0 < n → Forall (λ c, 0 < length c ≤ n) (chunks l).
Proof.
  intros Hn. induction l as [l IH] using (induction_ltof1 _ length). destruct l as [|a l]; [constructor|].
  rewrite chunks_cons by done. constructor.
  - rewrite length_take. simpl. lia.
  - apply IH. unfold ltof. rewrite length_drop. simpl. lia.
Qed.
End reference.

Section facts.
Context {O : Type}.
Implicit Types (c : scan O) (l : list (option O)).

(** The chunks still to come. *)
Definition remaining c : list (list (option O)) :=
  match iterateOverMe c with
  | None => []
  | Some l => chunks (chunkSize c) (drop (pos c) l) ++ (pagesLeft c ≫= λ pg, chunks (chunkSize c) pg.2)
  end.

(** The pages in the order in which they are taken. *)
Definition taken_pages c : list Z :=
  pagesDone c ++ option_list (lastRec c) ++ option_list (myRec c) ++ (pagesLeft c).*1.

Record scan_ok c : Prop := {
  so_chunk : 0 < chunkSize c;
  so_none : iterateOverMe c = None → pagesLeft c = [] ∧ myRec c = None;
  so_output l : iterateOverMe c = Some l →
    ∃ p lo, sc_output c = Some {[0 := Column p true]} ∧ vectors (sc_heap c) !! p = Some (Objects lo);
  so_pos l : iterateOverMe c = Some l →
    match myRec c with Some _ => pos c ≤ length l | None => pagesLeft c = [] ∧ (l = [] ∨ pos c = length l) end
}.

(** What the loop over empty pages leaves alone. *)
Definition same_scan c c' : Prop :=
  sc_heap c' = sc_heap c ∧ chunkSize c' = chunkSize c ∧ pos c' = pos c ∧ sc_output c' = sc_output c ∧ taken_pages c' = taken_pages c.

Lemma same_scan_refl c : same_scan c c.
Proof. done. Qed.

Lemma same_scan_trans c c' c'' : same_scan c c' → same_scan c' c'' → same_scan c c''.
Proof. unfold same_scan. intuition congruence. Qed.

(** Giving back the last page, and going on to the next. *)
Definition shifted c (r : option Z) (rest : list (Z * list (option O))) (it : option (list (option O))) (done : list Z) (last : option Z) : scan O :=
  Scan (sc_heap c) rest done it r last (chunkSize c) (pos c) (sc_output c).

Lemma skip_empty_ok fuel : ∀ c l,
  iterateOverMe c = Some l → length (pagesLeft c) < fuel → (myRec c = None → pagesLeft c = []) →
  ∃ b c', skip_empty fuel c = (Ret b, c') ∧ same_scan c c' ∧
    if b then (l ≠ [] ∧ c' = c) ∨ (l = [] ∧ is_Some (myRec c') ∧ ∃ l', iterateOverMe c' = Some l' ∧ l' ≠ [] ∧ length (pagesLeft c') < length (pagesLeft c) ∧
        (pagesLeft c ≫= λ pg, chunks (chunkSize c) pg.2) = chunks (chunkSize c) l' ++ (pagesLeft c' ≫= λ pg, chunks (chunkSize c) pg.2))
    else l = [] ∧ myRec c' = None ∧ pagesLeft c' = [] ∧ iterateOverMe c' = Some [] ∧
      (pagesLeft c ≫= λ pg, chunks (chunkSize c) pg.2) = [].
Proof.
  induction fuel as [|fuel IH]; intros c l Hl Hf Hm; [lia|]. simpl. run. rewrite Hl. destruct l as [|o l].
  2:{ exists true, c. split; [done|]. split; [done|]. by left. }
  unfold done_last, next_rec. run. destruct c as [h left done it my last n pos out]. cbn in *. subst it.
  destruct left as [|[loc l'] left].
  - exists false. eexists. split; [done|]. unfold same_scan, taken_pages. cbn. split_and!; try done.
    by rewrite <- !app_assoc, !app_nil_r.
  - set (c1 := Scan _ _ _ _ _ _ _ _ _).
    destruct (IH c1 l' eq_refl) as (b & c' & Hrun & Hsame & Hb); [simpl; simpl in Hf; lia|done|]. rewrite Hrun.
    exists b, c'. split; [done|]. split.
    { eapply same_scan_trans; [|exact Hsame]. unfold same_scan, taken_pages. cbn. split_and!; try done. by rewrite <- !app_assoc. }
    destruct b.
    + right. split; [done|]. destruct Hb as [[Hne ->]|(-> & Hr & l'' & Hit & Hne & Hlen & Heq)]; cbn in *.
      * split; [by eexists|]. exists l'. split; [done|]. split; [done|]. split; [lia|done].
      * split; [done|]. exists l''. split; [done|]. split; [done|]. split; [lia|done].
    + destruct Hb as (-> & ? & ? & ? & Heq). cbn in *. split_and!; done.
Qed.

(** One chunk. *)
Lemma fill_chunk_ok c l p lo :
  let t := {[0 := Column p true]} in
  iterateOverMe c = Some l → sc_output c = Some t → vectors (sc_heap c) !! p = Some (Objects lo) →
  pos c ≤ length l → drop (pos c) l ≠ [] → scan_ok c →
  store_ok (sc_heap c) → owner_ok (sc_heap c) t → is_Some (myRec c) →
  ∃ c' k, fill_chunk c = (Ret (Some t), c') ∧ remaining c = k :: remaining c' ∧ col_value (sc_heap c') t 0 (Objects k) ∧
    scan_ok c' ∧ evolves (sc_heap c) t (sc_heap c') t ∧ sc_output c' = Some t ∧ taken_pages c' = taken_pages c ∧
    chunkSize c' = chunkSize c.
Proof.
  intros t Hl Hout Hp Hpos Hne Hok Hs Ho Hmy. set (k := take (chunkSize c) (drop (pos c) l)).
  assert (t !! 0 = Some (Column p true)) as Ht by apply lookup_singleton_eq.
  destruct (write_owned 0 t (sc_heap c) p (Objects k) Hs Ho Ht) as (Hw & Hev & Hv & _). set (s' := Store _ _) in *.
  set (m := if decide (length l < chunkSize c + pos c) then length l - pos c else chunkSize c).
  assert (length k = m ∧ take m (drop (pos c) l) = k) as [Hm Hk].
  { unfold k, m. rewrite length_take, length_drop. destruct (decide _); [|split; [lia|done]]. split; [lia|].
    rewrite !take_ge by (rewrite length_drop; lia). done. }
  exists (set_pos (pos c + m) (sc_set_heap s' c)), k. split; [|split; [|split; [|split; [|split_and!; try done]]]].
  - unfold fill_chunk. run. rewrite Hl, Hout. run. unfold sc_in_heap at 1, getColumn. rewrite Ht. run. unfold sc_in_heap at 1.
    cbn [sc_heap sc_set_heap]. rewrite (column_as_ok objects 0 t (sc_heap c) (Objects lo)) by by exists (Column p true).
    run. unfold sc_in_heap. cbn [sc_heap sc_set_heap contents]. fold m. rewrite Hk, Hw. done.
  - unfold remaining. cbn. rewrite Hl. rewrite chunks_cons by (apply Hok || done). cbn. unfold k at 1. f_equal. f_equal. f_equal.
    rewrite drop_drop. unfold m. destruct (decide _); [|done]. rewrite !drop_ge by lia. done.
  - by exists (Column p true).
  - destruct Hok as [H1 H2 H3 H4]. split; cbn; [done|done| |].
    + intros l' _. exists p, k. split; [exact Hout|]. apply lookup_insert_eq.
    + intros l' Hl'. rewrite Hl in Hl'. injection Hl' as <-. destruct Hmy as [r ->]. unfold m. destruct (decide _); lia.
Qed.

(** [getNextTupleSet] returns the next chunk, or null when all pages have been
    read. *)
Definition next_spec c (res : outcome (option tuple_set) * scan O) : Prop :=
  match res with
  | (Ret (Some t), c') => ∃ k, (∀ i d, t !! i = Some d → owns t (contents d)) ∧
      sc_output c = Some t ∧ sc_output c' = Some t ∧ remaining c = k :: remaining c' ∧
      col_value (sc_heap c') t 0 (Objects k) ∧ scan_ok c' ∧ evolves (sc_heap c) t (sc_heap c') t ∧
      taken_pages c' = taken_pages c ∧ chunkSize c' = chunkSize c
  | (Ret None, c') => remaining c = [] ∧ remaining c' = [] ∧ scan_ok c' ∧ sc_heap c' = sc_heap c ∧ sc_output c' = sc_output c ∧
      taken_pages c' = taken_pages c ∧ chunkSize c' = chunkSize c ∧ myRec c' = None ∧ pagesLeft c' = []
  | _ => False
  end.

Lemma next_spec_same c c1 res : same_scan c c1 → remaining c1 = remaining c → next_spec c1 res → next_spec c res.
Proof.
  intros (Hh & Hn & Hp & Ho & Ht) Hr Hs. unfold next_spec in *. rewrite <- Hh, <- Hn, <- Ho, <- Hr.
  destruct res as [[[t|]| | |] c']; try done; rewrite <- Ht; done.
Qed.

Lemma fill_chunk_spec c l :
  iterateOverMe c = Some l → pos c < length l → is_Some (myRec c) → scan_ok c →
  store_ok (sc_heap c) → (∀ t, sc_output c = Some t → owner_ok (sc_heap c) t) → next_spec c (fill_chunk c).
Proof.
  intros Hl Hpos Hmy Hok Hs Ho. destruct (so_output c Hok l Hl) as (p & lo & Hout & Hp).
  destruct (fill_chunk_ok c l p lo Hl Hout Hp) as (c' & k & Hrun & Hr & Hv & Hok' & Hev & Ho' & Ht & Hn); try done; [lia| |by apply Ho|].
  { intros Hd. apply (f_equal length) in Hd. rewrite length_drop in Hd. simpl in Hd. lia. }
  rewrite Hrun. exists k. split; [|done]. intros i d Hd. apply lookup_singleton_Some in Hd as [<- <-].
  exists 0, (Column p true). by rewrite lookup_singleton_eq.
Qed.

(** The scan is on a page that is not empty. *)
Lemma on_page_ok c c1 l' :
  same_scan c c1 → scan_ok c → store_ok (sc_heap c) → iterateOverMe c1 = Some l' → pos c1 ≤ length l' → is_Some (myRec c1) →
  is_Some (iterateOverMe c) → scan_ok c1.
Proof.
  intros (Hh & Hn & Hp & Ho & Ht) Hok Hs Hl Hpos [r Hr] [l Hl0]. destruct (so_output c Hok l Hl0) as (p & lo & Hout & Hpv).
  split; rewrite ?Hn, ?Hl, ?Ho, ?Hh, ?Hr; [apply Hok|done| |].
  - intros l1 _. by exists p, lo.
  - by intros l1 [= <-].
Qed.

Lemma done_scan_ok c c1 l :
  same_scan c c1 → scan_ok c → iterateOverMe c = Some l → iterateOverMe c1 = Some [] ∨ (iterateOverMe c1 = Some l ∧ pos c1 = length l) →
  myRec c1 = None → pagesLeft c1 = [] → scan_ok c1 ∧ remaining c1 = [].
Proof.
  intros (Hh & Hn & Hp & Ho & Ht) Hok Hl0 Hl Hr Hleft. destruct (so_output c Hok l Hl0) as (p & lo & Hout & Hpv). split.
  - split; rewrite ?Hn, ?Ho, ?Hh, ?Hr, ?Hleft; [apply Hok|by destruct Hl as [-> | [-> _]]| |].
    + intros l1 _. by exists p, lo.
    + intros l1 Hl1. split; [done|]. destruct Hl as [Hl|[Hl ?]]; rewrite Hl in Hl1; injection Hl1 as <-; auto.
  - unfold remaining. rewrite Hleft. destruct Hl as [-> |[-> Hpos]]; [by rewrite drop_nil|]. by rewrite drop_ge by lia.
Qed.

(** At the end of a page. *)
Lemma next_vector_ok c l :
  scan_ok c → store_ok (sc_heap c) → (∀ t, sc_output c = Some t → owner_ok (sc_heap c) t) →
  iterateOverMe c = Some l → pos c = length l → lastRec c = None →
  next_spec c ((modify (set_lastRec (myRec c)) ;;
    b ← next_rec;
    if negb b then mret None else
    c ← get;
    b ← skip_empty (S (length (pagesLeft c)));
    if negb b then mret None else
    modify (set_pos 0) ;; fill_chunk) c).
Proof.
  intros Hok Hs Ho Hl Hpos Hlast. run. unfold next_rec. cbn [set_lastRec pagesLeft].
  assert (remaining c = pagesLeft c ≫= λ pg, chunks (chunkSize c) pg.2) as Hrem.
  { unfold remaining. rewrite Hl, drop_ge by lia. done. }
  destruct (pagesLeft c) as [|[loc l3] rest] eqn:Hleft; cbn [negb]; run.
  - set (c1 := Scan _ _ _ _ _ _ _ _ _).
    assert (same_scan c c1) as Hsame.
    { unfold same_scan, taken_pages, c1. cbn. split_and!; try done. rewrite Hlast, Hleft. done. }
    destruct (done_scan_ok c c1 l Hsame Hok Hl (or_intror (conj Hl Hpos)) eq_refl eq_refl) as [Hok1 Hrem1].
    destruct Hsame as (? & ? & ? & ? & ?). by split_and!.
  - set (c1 := Scan _ _ _ _ _ _ _ _ _).
    assert (same_scan c c1) as Hsame.
    { unfold same_scan, taken_pages, c1. cbn. split_and!; try done. rewrite Hlast, Hleft. done. }
    destruct (skip_empty_ok (S (length rest)) c1 l3 eq_refl ltac:(simpl; lia) ltac:(done)) as (b & c2 & Hrun & Hsame2 & Hb).
    change (length (pagesLeft c1)) with (length rest). rewrite Hrun. run.
    pose proof (same_scan_trans _ _ _ Hsame Hsame2) as Hsame3. pose proof Hsame3 as (Hh & Hn & Hp & Hout & Ht).
    destruct b; cbn [negb]; run.
    2:{ destruct Hb as (-> & Hm2 & Hleft2 & Hit2 & Hrest).
        destruct (done_scan_ok c c2 l Hsame3 Hok Hl (or_introl Hit2) Hm2 Hleft2) as [Hok2 Hrem2]. by split_and!; rewrite ?Hrem. }
    assert (∃ l2, iterateOverMe c2 = Some l2 ∧ l2 ≠ [] ∧ is_Some (myRec c2) ∧
      remaining c = chunks (chunkSize c) l2 ++ (pagesLeft c2 ≫= λ pg, chunks (chunkSize c) pg.2)) as (l2 & Hl2 & Hne & Hmy2 & Hrem2).
    { rewrite Hrem. destruct Hb as [[Hne ->]|(-> & Hr & l' & Hit & Hne & _ & Heq)]; [by exists l3|]. exists l'. split_and!; try done. }
    set (c3 := set_pos 0 c2). assert (scan_ok c3) as Hok3.
    { destruct (so_output c Hok l Hl) as (p & lo & Hpo & Hpv). split; cbn; [rewrite Hn; apply Hok|by rewrite Hl2| |].
      - intros l' _. exists p, lo. by rewrite Hout, Hh.
      - intros l' Hl'. destruct Hmy2 as [r ->]. lia. }
    assert (next_spec c3 (fill_chunk c3)) as Hfill.
    { apply (fill_chunk_spec c3 l2); try done; cbn.
      - by destruct l2; [|simpl; lia].
      - by rewrite Hh.
      - rewrite Hout, Hh. done. }
    unfold next_spec in *. cbn [c3 set_pos sc_heap sc_output chunkSize] in Hfill.
    assert (remaining c3 = remaining c) as Hrem3 by (rewrite Hrem2; unfold remaining, c3; cbn; by rewrite Hl2, drop_0, Hn).
    change (taken_pages c3) with (taken_pages c2) in Hfill.
    rewrite Hrem3, Hh, Hn, Hout, Ht in Hfill. done.
Qed.

Lemma getNextTupleSet_ok c :
  scan_ok c → store_ok (sc_heap c) → (∀ t, sc_output c = Some t → owner_ok (sc_heap c) t) → next_spec c (getNextTupleSet c).
Proof.
  intros Hok Hs Ho. unfold getNextTupleSet. run. destruct (iterateOverMe c) as [l|] eqn:Hl; run.
  2:{ destruct (so_none c Hok Hl) as [Hleft Hmy]. assert (remaining c = []) by (unfold remaining; by rewrite Hl). by split_and!. }
  pose proof (so_pos c Hok l Hl) as Hpos.
  unfold done_last. run.
  set (c1 := set_lastRec None _).
  assert (same_scan c c1) as Hsame1.
  { unfold same_scan, taken_pages, c1. cbn. split_and!; try done. by rewrite <- !app_assoc. }
  destruct (skip_empty_ok (S (length (pagesLeft c))) c1 l Hl ltac:(simpl; lia)) as (b & c2 & Hrun & Hsame2 & Hb).
  { intros Hm. simpl in Hm. rewrite Hm in Hpos. by destruct Hpos. }
  rewrite Hrun. run. pose proof (same_scan_trans _ _ _ Hsame1 Hsame2) as Hsame3. pose proof Hsame3 as (Hh & Hn & Hp & Hout & Ht).
  destruct b; cbn [negb]; run.
  2:{ destruct Hb as (-> & Hm2 & Hleft2 & Hit2 & Hrest).
      destruct (done_scan_ok c c2 [] Hsame3 Hok Hl (or_introl Hit2) Hm2 Hleft2) as [Hok2 Hrem2]. split_and!; try done.
      unfold remaining. rewrite Hl, drop_nil. exact Hrest. }
  apply (next_spec_same c c2); [done| |].
  { destruct Hb as [[_ ->]|(-> & Hr & l' & Hit & Hne & Hlen & Heq)]; [done|].
    unfold remaining. rewrite Hit, Hn, Hp, Hl, drop_nil. simpl in Heq, Hlen. simpl. rewrite Heq. f_equal. f_equal.
    destruct (myRec c); [simpl in Hpos; replace (pos c) with 0 by lia; by rewrite drop_0|].
    destruct Hpos as [Hleft _]. rewrite Hleft in Hlen. simpl in Hlen. lia. }
  assert (scan_ok c2) as Hok2.
  { destruct Hb as [[Hne ->]|(-> & Hr & l' & Hit & Hne & Hlen & Heq)]; [by destruct Hok as [H1 H2 H3 H4]; split|].
    eapply on_page_ok; [exact Hsame3|done..|exact Hit| |done|by exists []]. rewrite Hp. simpl in Hlen.
    destruct (myRec c); [simpl in Hpos; lia|]. destruct Hpos as [Hleft _]. rewrite Hleft in Hlen. simpl in Hlen. lia. }
  assert (store_ok (sc_heap c2)) as Hs2 by by rewrite Hh.
  assert (∀ t, sc_output c2 = Some t → owner_ok (sc_heap c2) t) as Ho2 by (rewrite Hh, Hout; done).
  assert (∃ l2, iterateOverMe c2 = Some l2 ∧ l2 ≠ [] ∧ (pos c2 = length l2 → lastRec c2 = None) ∧ (pos c2 ≠ length l2 → is_Some (myRec c2)))
    as (l2 & Hl2 & Hne2 & Hlast2 & Hmy2).
  { destruct Hb as [[Hne ->]|(-> & Hr & l' & Hit & Hne & Hlen & Heq)].
    - exists l. split_and!; try done. simpl. intros Hn0. destruct (myRec c); [by eexists|]. destruct Hpos as [_ [->|?]]; done.
    - exists l'. split_and!; try done. intros Hpl. pose proof (so_pos c2 Hok2 l' Hit) as Hpos2. rewrite Hp in Hpl.
      destruct (myRec c); [simpl in Hpos; destruct l'; simpl in Hpl; [done|lia]|]. destruct Hpos as [Hleft _].
      simpl in Hlen. rewrite Hleft in Hlen. simpl in Hlen. lia. }
  rewrite Hl2. simpl. destruct (decide (Some (pos c2) = Some (length l2))) as [Heq|Hneq].
  - injection Heq as Heq. exact (next_vector_ok c2 l2 Hok2 Hs2 Ho2 Hl2 Heq (Hlast2 Heq)).
  - assert (pos c2 ≠ length l2) as Hneq' by congruence. specialize (Hmy2 Hneq'). apply (fill_chunk_spec c2 l2); try done.
    pose proof (so_pos c2 Hok2 l2 Hl2) as Hpos2. destruct Hmy2 as [r Hr]. rewrite Hr in Hpos2. lia.
Qed.

(** A scan that has just been made. *)
Lemma scan_new_ok (s : store O) (pages : list (Z * list (option O))) n :
  store_ok s → 0 < n →
  ∃ c, scan_new s pages n = Ret c ∧ scan_ok c ∧ remaining c = pages ≫= (λ pg, chunks n pg.2) ∧ taken_pages c = pages.*1 ∧
    evolves s ∅ (sc_heap c) (default ∅ (sc_output c)).
Proof.
  intros Hs Hn. destruct pages as [|[loc l] rest].
  { eexists. split; [done|]. split; [by split|]. split_and!; try done. simpl. apply evolves_refl; [done|apply owner_ok_empty]. }
  simpl. destruct (add_new_column 0 (Objects []) ∅ s Hs (owner_ok_empty s) (lookup_empty 0)) as (Hnew & Hadd & Hrep).
  run. rewrite Hnew. run. rewrite Hadd. eexists. split; [done|]. split; [|split_and!; [done|done|]].
  - split; cbn; [done|done| |].
    + intros l' _. exists (next_vector s), []. split; [by rewrite insert_empty|]. apply lookup_insert_eq.
    + intros l' [= <-]. lia.
  - simpl. apply replace_column; [done|apply owner_ok_empty|done].
Qed.

(** ** VectorSink *)

(** A vector that can take the rows of a column. *)
Definition vec_open (a : Array (option O)) l : Prop :=
  holds a l ∧ (1 ≤ a_numSlots a ≤ Z.max 1 (2 * Z.of_nat (length l)))%Z.

Lemma vec_open_new : vec_open VectorSink_createNewOutputContainer [].
Proof. split; [by apply Array_new_holds|]. simpl. lia. Qed.

Lemma push_rows_ok sp p column todo : ∀ i s a l0,
  vectors s !! p = Some (Objects column) → vec_open a l0 → todo = drop i column →
  (Z.of_nat (length l0 + length todo) ≤ 1073741824)%Z →
  match push_rows sp p column i todo (VSink s a) with
  | (Ret _, VSink s' a') => s' = s ∧ vec_open a' (l0 ++ todo)
  | (NotEnoughSpace, VSink s' a') => ∃ j, j ≤ length todo ∧
      s' = Store (<[p := Objects (drop j todo)]> (vectors s)) (next_vector s) ∧ holds a' (l0 ++ take j todo) ∧
      (sp i = vplenty → 0 < j)
  | _ => False
  end.
Proof.
  induction todo as [|o todo IH]; intros i s a l0 Hp [Ha Hn] Htodo Hlen; simpl.
  { rewrite app_nil_r. done. }
  pose proof (Vector_push_back_cases None (sp i) o a l0 Ha ltac:(simpl in Hlen; lia)) as Hpush.
  run. unfold catch, in_container. cbn [container vs_heap].
  destruct (Vector_push_back None (sp i) o a) as [[[]| | |] a1]; try done.
  - destruct Hpush as [Ha1 Hn1].
    assert (todo = drop (S i) column) as Htodo' by (rewrite <- Nat.add_1_r, <- drop_drop, <- Htodo; done).
    assert (vec_open a1 (l0 ++ [o])) as Ho1.
    { split; [done|]. rewrite length_app. simpl. lia. }
    pose proof (IH (S i) s a1 (l0 ++ [o]) Hp Ho1 Htodo' ltac:(rewrite length_app; simpl in *; lia)) as Hgo.
    destruct (push_rows _ _ _ _ _ _) as [[[]| | |] [s' a']]; try done.
    + destruct Hgo as [-> Hgo]. split; [done|]. by rewrite <- app_assoc in Hgo.
    + destruct Hgo as (j & Hj & -> & Hh & _). exists (S j). simpl. split; [lia|]. split; [done|]. rewrite <- app_assoc in Hh.
      split; [done|lia].
  - destruct Hpush as (Hne & Ha1 & _). unfold vs_in_heap. run. unfold write_vector. cbn [vs_heap]. rewrite Hp. run.
    exists 0. simpl. rewrite app_nil_r. split; [lia|]. rewrite <- Htodo. split; [done|]. split; [done|]. intros Hsp. by destruct (Hne Hsp).
Qed.

(** [writeOut]: all rows are pushed, or those that fit; then the rows pushed are
    gone from the column. *)
Lemma VectorSink_writeOut_ok att sp t s a l0 l :
  col_value s t att (Objects l) → vec_open a l0 → (Z.of_nat (length l0 + length l) ≤ 1073741824)%Z →
  match VectorSink_writeOut att sp t (VSink s a) with
  | (Ret _, VSink s' a') => s' = s ∧ vec_open a' (l0 ++ l)
  | (NotEnoughSpace, VSink s' a') => ∃ (d : column) j, t !! att = Some d ∧ j ≤ length l ∧
      s' = Store (<[contents d := Objects (drop j l)]> (vectors s)) (next_vector s) ∧ holds a' (l0 ++ take j l) ∧
      (sp 0 = vplenty → 0 < j)
  | _ => False
  end.
Proof.
  intros (c & Hc & Hv) Ha Hlen. unfold VectorSink_writeOut, vs_in_heap, getColumn. rewrite Hc. run. cbn [vs_heap container].
  rewrite (column_as_ok objects att t s (Objects l)) by by exists c. cbn [objects]. run.
  pose proof (push_rows_ok sp (contents c) l l 0 s a l0 Hv Ha eq_refl Hlen) as Hp.
  destruct (push_rows _ _ _ _ _ _) as [[[]| | |] [s' a']]; try done.
  destruct Hp as (j & Hj & Hp). exists c, j. done.
Qed.
End facts.

(** ** A whole scan *)

(** Reading the tuple sets of a scan until it returns null. *)
Fixpoint scan_all {O} (fuel : nat) : M (scan O) (list (list (option O))) :=
  match fuel with
  | 0 => lift Undefined
  | S fuel' =>
      t ← getNextTupleSet;
      match t with
      | None => mret []
      | Some t => l ← sc_in_heap (column_as objects 0 t); rest ← scan_all fuel'; mret (l :: rest)
      end
  end.

Lemma scan_all_ok {O} (fuel : nat) : ∀ (c : scan O),
  scan_ok c → store_ok (sc_heap c) → (∀ t, sc_output c = Some t → owner_ok (sc_heap c) t) → length (remaining c) < fuel →
  ∃ c', scan_all fuel c = (Ret (remaining c), c') ∧ taken_pages c' = taken_pages c ∧ myRec c' = None ∧ pagesLeft c' = [].
Proof.
  induction fuel as [|fuel IH]; intros c Hok Hs Ho Hf; [lia|]. simpl. run.
  pose proof (getNextTupleSet_ok c Hok Hs Ho) as Hn. unfold next_spec in Hn. destruct (getNextTupleSet c) as [[[t|]| | |] c1]; try done.
  - destruct Hn as (k & _ & Ht & Ht1 & Hr & Hv & Hok1 & Hev & Htk & _). run. unfold sc_in_heap. rewrite (column_as_ok _ _ _ _ _ Hv). run.
    assert (sc_set_heap (sc_heap c1) c1 = c1) as Heq by by destruct c1. cbn [objects]. run. rewrite Heq.
    rewrite Hr in Hf. simpl in Hf.
    destruct (IH c1 Hok1 (ev_store _ _ _ _ Hev)) as (c2 & -> & Htk2 & Hm & Hl); [|lia|].
    { intros t' Ht'. assert (t' = t) as -> by congruence. by apply Hev. }
    exists c2. rewrite Hr. split_and!; try done. congruence.
  - destruct Hn as (Hr & _ & _ & _ & _ & Htk & _ & Hm & Hl). exists c1. rewrite Hr. done.
Qed.


