(* ===== verification/TupleQuery.v ===== *)
(** * TupleQuery: a pipeline from a stored set to a sink

    The parts of a query put together: a scan of a stored set
    ([VectorTupleSetIterator.h]), any well-typed stages, and a sink, in a
    [Pipeline].  All of them share the vectors of one [store]: columns are passed
    on without copying, stages delete what they made for the tuple set before,
    and the sink erases the rows it has written from columns that may belong to
    any of them.  What the query relies on in its sink is the interface
    [SinkLaws]; a query over a sink that keeps it writes to its pages exactly the
    rows that the stages make of the objects of the set. *)

From S2P Require Import Prelude.
From S2P Require Import Pipeline.
From S2P Require Import TupleSet.
From S2P Require Import Executor.
From S2P Require Import Stages.
From S2P Require Import Scan.

(** The state of a query: the scan with the vectors, the outputs of the stages,
    and the number of pages taken. *)
Record query {O : Type} := Query {
  q_scan : scan O;
  q_outputs : list tuple_set;
  q_page : nat
}.
Arguments query : clear implicits.
Arguments Query {O}.

(** ** Sinks *)

(** A sink makes containers, and writes tuple sets to them; a container is given
    the number of its page. *)
Record sink_ops {O C : Type} := Sink {
  sk_create : nat → outcome C;
  sk_write : tuple_set → C → store O → outcome unit * C * store O
}.
Arguments sink_ops : clear implicits.
Arguments Sink {O C}.

(** The same vectors are there, with the same types. *)
Definition same_types {O} (s s' : store O) : Prop :=
  next_vector s' = next_vector s ∧
  ∀ p, match vectors s !! p, vectors s' !! p with
       | Some v, Some v' => type_of v' = type_of v
       | None, None => True
       | _, _ => False
       end.

(** What a query relies on in its sink.  [sees s t l]: the columns of [t] that the
    sink reads have the rows [l].  [holds o l]: the container has the rows [l];
    [opened o l]: it does, and can take more.  A sink that is [alone] needs the
    columns of its tuple sets to be different vectors.  When a tuple set does not
    fit, the rows that were written are erased from the columns, and a container that
    was empty has at least one row. *)
Class SinkLaws {O C} (k : sink_ops O C) (σ : list col_type) (alone : bool) (sees : store O → tuple_set → list (list (value O)) → Prop)
    (holds opened : C → list (list (value O)) → Prop) (bound : nat) : Prop := {
  sink_sees s t l : has_rows σ s t l → (alone = true → distinct t) → sees s t l;
  sink_create page : ∃ o, sk_create k page = Ret o ∧ opened o [];
  sink_holds o l : opened o l → holds o l;
  sink_write s t o l0 l : opened o l0 → sees s t l → length l0 + length l ≤ bound →
    match sk_write k t o s with
    | (Ret _, o', s') => s' = s ∧ opened o' (l0 ++ l)
    | (NotEnoughSpace, o', s') => ∃ p, p ≤ length l ∧ same_types s s' ∧ sees s' t (drop p l) ∧
        holds o' (l0 ++ take p l) ∧ (l0 = [] → 0 < p)
    | _ => False
    end
}.

Section query.
Context {O C : Type} (qs : list (stage (O:=O))) (cols : list (list nat)) (snk : sink_ops O C).
Local Abbreviation row := (list (value O)).
Implicit Types (e : query O) (t : tuple_set).

Definition q_heap e : store O := sc_heap (q_scan e).
Definition q_set_heap (s : store O) e : query O := Query (sc_set_heap s (q_scan e)) (q_outputs e) (q_page e).

Definition query_next : M (query O) (option tuple_set) := λ e,
  let '(r, c) := getNextTupleSet (q_scan e) in (r, Query c (q_outputs e) (q_page e)).

(** Stage [i], with the pointers that its constructor kept. *)
Definition stage_columns (i : nat) : list nat := default [] (cols !! i).

Definition query_stage (i : nat) (q : stage (O:=O)) t : M (query O) tuple_set := λ e,
  match q_outputs e !! i with
  | Some out =>
      let '(r, x) := process q (stage_columns i) (q_page e) t (Exec (q_heap e) out) in
      (r, Query (sc_set_heap (heap x) (q_scan e)) (<[i := output x]> (q_outputs e)) (q_page e))
  | None => (Undefined, e)
  end.

Definition query_create : M (query O) C := λ e, (sk_create snk (q_page e), e).

Definition query_write t (o : C) e : outcome unit * (tuple_set * C) * query O :=
  let '(r, o', s') := sk_write snk t o (q_heap e) in (r, (t, o'), q_set_heap s' e).

Definition query_new_page : M (query O) (Z * Z) := λ e,
  (Ret (Z.of_nat (q_page e) + 1, 0)%Z, Query (q_scan e) (q_outputs e) (S (q_page e))).

Definition query_ops : pipeline_ops (query O) tuple_set C :=
  Ops query_next (imap query_stage qs) query_create query_write query_new_page.

(** The query starts with the outputs that the constructors of the stages left. *)
Definition query_start (s : store O) (outs : list tuple_set) (c : scan O) : query O := Query (sc_set_heap s c) outs 0.

(** ** The meaning of a query *)

Context (meaning : (nat → list (option O) → outcome (value O)) → list (option O) → value O).

Definition query_rows (objs : list (option O)) : list row :=
  foldl (λ l q, stage_rows meaning q l) ((λ o, [VObject o]) <$> objs) qs.

(** ** Shared vectors *)

(** The tuple sets that own vectors: that of the scan, and those of the stages. *)
Definition sets e : list tuple_set := default ∅ (sc_output (q_scan e)) :: q_outputs e.

Record sets_ok (s : store O) (ss : list tuple_set) : Prop := {
  sets_store : store_ok s;
  sets_owner j a : ss !! j = Some a → owner_ok s a;
  sets_apart j k a b p : ss !! j = Some a → ss !! k = Some b → owns a p → owns b p → j = k
}.

(** A change of one tuple set leaves what the others own alone. *)
Lemma sets_evolve s ss k a s' a' :
  sets_ok s ss → ss !! k = Some a → evolves s a s' a' →
  sets_ok s' (<[k := a']> ss) ∧
  ∀ j b p, j ≠ k → ss !! j = Some b → owns b p → vectors s' !! p = vectors s !! p.
Proof.
  intros [Hs Ho Ha] Hk Hev.
  assert (∀ j b p, j ≠ k → ss !! j = Some b → owns b p → vectors s' !! p = vectors s !! p) as Hkeep.
  { intros j b p Hj Hb Hp. apply (ev_frame _ _ _ _ Hev); [|apply Hs; eapply owns_live; [by eapply Ho|done]].
    intros Hp'. destruct Hj. by eapply Ha. }
  assert (∀ j b p, j ≠ k → ss !! j = Some b → owns b p → ¬ owns a' p) as Hno.
  { intros j b p Hj Hb Hp Hp'. destruct (ev_owns _ _ _ _ Hev p Hp') as [Hpa|Hge].
    - destruct Hj. by eapply Ha.
    - pose proof (Hs p (owns_live s b p (Ho j b Hb) Hp)). lia. }
  split; [|done]. split; [by apply Hev|..].
  - intros j b Hb. apply list_lookup_insert_Some in Hb as [(<- & <- & _)|[Hj Hb]]; [by apply Hev|].
    intros i c Hi Hm. destruct (Ho j b Hb i c Hi Hm) as [[v Hv] Hu]. split; [|done].
    exists v. rewrite (Hkeep j b); [done|by intros ->|done|]. by exists i, c.
  - intros j l b d p Hb Hd Hbp Hdp. apply list_lookup_insert_Some in Hb as [(<- & <- & _)|[Hj Hb]];
      apply list_lookup_insert_Some in Hd as [(<- & <- & _)|[Hl Hd]]; [done| | |by eapply Ha].
    + by destruct (Hno l d p (λ H, Hl (eq_sym H)) Hd Hdp).
    + by destruct (Hno j b p (λ H, Hj (eq_sym H)) Hb Hbp).
Qed.

(** Every column refers to a vector of one of the first tuple sets. *)
Definition below (ss : list tuple_set) (n : nat) t : Prop :=
  ∀ i c, t !! i = Some c → ∃ j a, j < n ∧ ss !! j = Some a ∧ owns a (contents c).

Lemma below_apart s ss n t k b :
  sets_ok s ss → below ss n t → n ≤ k → ss !! k = Some b → apart s t b.
Proof.
  intros [Hs Ho Ha] Hb Hk Hkb i c Hc. destruct (Hb i c Hc) as (j & a & Hj & Hja & Hp). split.
  - by eapply owns_live; [eapply Ho|].
  - intros Hp'. pose proof (Ha j k a b _ Hja Hkb Hp Hp'). lia.
Qed.

(** ** The laws of the pipeline *)

Context (schemas : list (list col_type)).
Hypothesis typed : typecheck_all [TObject] qs = Some schemas.
Hypothesis lambdas_ok : Forall (lambda_ok meaning) qs.
Context (σ : list col_type) (alone : bool) (sees : store O → tuple_set → list row → Prop) (sk_holds sk_open : C → list row → Prop) (bound : nat).
Context `{Hsink : !SinkLaws snk σ alone sees sk_holds sk_open bound}.
Hypothesis output_typed : schemas !! length qs = Some σ.
Hypothesis output_alone : alone = true → Forall (λ q, NoDup (passes q)) qs.

Lemma typecheck_lookup (qs' : list (stage (O:=O))) : ∀ schema σs i q,
  typecheck_all schema qs' = Some σs → qs' !! i = Some q →
  ∃ σ σ', σs !! i = Some σ ∧ σs !! S i = Some σ' ∧ typecheck σ q = Some σ'.
Proof.
  induction qs' as [|q0 qs' IH]; intros schema σs i q Ht Hi; [done|]. simpl in Ht.
  apply bind_Some in Ht as (out & Hq & Ht). apply bind_Some in Ht as (rest & Hrest & [= <-]). destruct i as [|i].
  - injection Hi as ->. exists schema, out. split; [done|]. split; [|done]. destruct qs'; simpl in Hrest; [by injection Hrest as <-|].
    apply bind_Some in Hrest as (? & _ & Hrest). by apply bind_Some in Hrest as (? & _ & [= <-]).
  - by apply (IH out rest i q).
Qed.

Lemma typecheck_head schema (qs' : list (stage (O:=O))) σs : typecheck_all schema qs' = Some σs → σs !! 0 = Some schema.
Proof.
  destruct qs'; simpl; [by intros [= <-]|]. intros Ht. apply bind_Some in Ht as (out & _ & Ht).
  by apply bind_Some in Ht as (rest & _ & [= <-]).
Qed.

(** The rows of a tuple set that has been through [i] stages; after the last one
    only what the sink sees counts. *)
Definition shape (i : nat) (s : store O) t (l : list row) : Prop :=
  if decide (i < length qs) then (∃ σ, schemas !! i = Some σ ∧ has_rows σ s t l) ∧ (alone = true → distinct t)
  else sees s t l.

Lemma shape_intro i s t l τs : i ≤ length qs → schemas !! i = Some τs → has_rows τs s t l → (alone = true → distinct t) → shape i s t l.
Proof using output_typed Hsink.
  intros Hi Hσ Hr Hd. unfold shape. destruct (decide _); [split; [by exists τs|done]|]. assert (i = length qs) as -> by lia.
  simplify_eq. by apply sink_sees.
Qed.

Definition one_column (objs : list (option O)) : list row := (λ o, [VObject o]) <$> objs.

Definition query_running e (cur : option (nat * tuple_set * list row)) (ls : list (list row)) : Prop :=
  sets_ok (q_heap e) (sets e) ∧ scan_ok (q_scan e) ∧ length (q_outputs e) = length qs ∧
  (∀ i q out, qs !! i = Some q → q_outputs e !! i = Some out → ready q (stage_columns i) (q_heap e) out) ∧
  ls = one_column <$> remaining (q_scan e) ∧
  match cur with
  | None => True
  | Some (i, t, l) => i ≤ length qs ∧ shape i (q_heap e) t l ∧ below (sets e) (S i) t
  end.

Lemma one_column_rows s t objs : col_value s t 0 (Objects objs) → has_rows [TObject] s t (one_column objs).
Proof.
  intros Hv. split; [by apply Forall_fmap, Forall_true|]. intros [|k] τ Hk; [|done]. injection Hk as <-.
  exists (Objects objs). split; [done|]. split; [done|]. unfold one_column. simpl. by rewrite <- !list_fmap_compose.
Qed.

Lemma ready_kept (s s' : store O) (ss : list tuple_set) k (outs : list tuple_set) :
  (∀ i q out, qs !! i = Some q → outs !! i = Some out → ready q (stage_columns i) s out) →
  (∀ j b p, j ≠ k → ss !! j = Some b → owns b p → vectors s' !! p = vectors s !! p) →
  (∀ i out, outs !! i = Some out → ss !! S i = Some out) →
  ∀ i q out, S i ≠ k → qs !! i = Some q → outs !! i = Some out → ready q (stage_columns i) s' out.
Proof.
  intros Hr Hkeep Hss i q out Hik Hq Hout. eapply ready_frame; [by eapply Hr|]. intros p v Hp Hv. exists v. split; [|done].
  rewrite (Hkeep (S i) out); [done|done|by apply Hss|done].
Qed.

Lemma scanned_distinct (c c' : scan O) t : scan_ok c → getNextTupleSet c = (Ret (Some t), c') → sc_output c = Some t → distinct t.
Proof.
  intros Hok Hrun Ht. destruct (iterateOverMe c) as [l|] eqn:Hl.
  - destruct (so_output c Hok l Hl) as (p & lo & Ho & _). assert (t = {[0 := Column p true]}) as -> by congruence.
    intros i j d d' Hi Hj _. rewrite lookup_singleton_Some in Hi, Hj. lia.
  - unfold getNextTupleSet in Hrun. revert Hrun. run. by rewrite Hl.
Qed.

Lemma query_next_ok e ls :
  query_running e None ls →
  match query_next e with
  | (Ret (Some t), e') => ∃ l ls', ls = l :: ls' ∧ query_running e' (Some (0, t, l)) ls'
  | (Ret None, e') => ls = [] ∧ query_running e' None []
  | _ => False
  end.
Proof using output_typed typed Hsink.
  intros (Hsets & Hscan & Hlen & Hready & -> & _). unfold query_next.
  assert (∀ t, sc_output (q_scan e) = Some t → sets e !! 0 = Some t) as Hset0 by (intros t Ht; unfold sets; by rewrite Ht).
  pose proof (getNextTupleSet_ok (q_scan e) Hscan (sets_store _ _ Hsets)) as Hn.
  specialize (Hn ltac:(intros t Ht; by apply (sets_owner _ _ Hsets 0); apply Hset0)). unfold next_spec in Hn.
  destruct (getNextTupleSet (q_scan e)) as [[[t|]| | |] c] eqn:Hrun; try done.
  - destruct Hn as (k & Hown & Ht & Ht' & Hrem & Hv & Hok & Hev & _ & Hch). rewrite Hrem. exists (one_column k), (one_column <$> remaining c).
    split; [done|]. destruct (sets_evolve _ _ 0 t _ t Hsets (Hset0 t Ht) Hev) as [Hsets' Hkeep].
    assert (<[0 := t]> (sets e) = sets (Query c (q_outputs e) (q_page e))) as Heq by (unfold sets; simpl; by rewrite Ht').
    rewrite Heq in Hsets'. split; [exact Hsets'|]. split; [done|]. split; [done|]. split.
    { intros i q out Hq Hout. by apply (ready_kept _ _ _ 0 (q_outputs e) Hready Hkeep (λ i out H, H) i q out). }
    split; [done|]. split; [lia|]. split.
    { eapply shape_intro; [lia|by eapply typecheck_head|by apply one_column_rows|]. intros _. by apply (scanned_distinct (q_scan e) c). }
    intros i d Hd. exists 0, t. split; [lia|]. split; [unfold sets; simpl; by rewrite Ht'|]. by eapply Hown.
  - destruct Hn as (Hr0 & Hr1 & Hok & Hh & Ho & _ & _ & _ & _). rewrite Hr0. split; [done|].
    assert (sets (Query c (q_outputs e) (q_page e)) = sets e) as Heq by (unfold sets; simpl; by rewrite Ho).
    unfold query_running. rewrite Heq. unfold q_heap. cbn [q_scan q_outputs]. rewrite Hh, Hr1. split_and!; done.
Qed.

(** A tuple set under way keeps its rows. *)
Lemma shape_kept i s s' t l :
  i < length qs → shape i s t l → (∀ k v, col_value s t k v → col_value s' t k v) → shape i s' t l.
Proof.
  intros Hi Hsh Hk. unfold shape in *. rewrite decide_True in * by done. destruct Hsh as [(τs & Hσ & Hr) Hd]. split; [|done]. exists τs. split; [done|].
  by eapply has_rows_kept.
Qed.

Lemma query_stage_ok i q t l ls e :
  qs !! i = Some q → query_running e (Some (i, t, l)) ls →
  match query_stage i q t e with
  | (Ret t', e') => query_running e' (Some (S i, t', stage_rows meaning q l)) ls
  | (NotEnoughSpace, e') => query_running e' (Some (i, t, l)) ls ∧ runs_out (q_page e) q
  | _ => False
  end.
Proof using output_typed typed lambdas_ok output_alone Hsink.
  intros Hq (Hsets & Hscan & Hlen & Hready & Hls & Hi & Hsh & Hbelow). pose proof (lookup_lt_Some _ _ _ Hq) as Hlt.
  destruct (lookup_lt_is_Some_2 (q_outputs e) i ltac:(lia)) as [out Hout]. unfold query_stage. rewrite Hout.
  destruct (typecheck_lookup qs [TObject] schemas i q typed Hq) as (τs & τs' & Hσ & Hσ' & Hty).
  pose proof Hsh as Hsh0. unfold shape in Hsh0. rewrite decide_True in Hsh0 by done. destruct Hsh0 as [(σ0 & Hσ0 & Hrows) Hdist]. assert (σ0 = τs) as -> by congruence.
  assert (sets e !! S i = Some out) as Hset by done.
  pose proof (below_apart _ _ _ _ _ _ Hsets Hbelow (le_n _) Hset) as Hap.
  pose proof (process_ok meaning τs q (stage_columns i) τs' (q_page e) (q_heap e) t out l Hty (Forall_lookup_1 _ _ _ _ lambdas_ok Hq) (sets_store _ _ Hsets) (sets_owner _ _ Hsets _ _ Hset) Hap (Hready i q out Hq Hout) Hrows) as Hp.
  assert (∀ s' out', evolves (q_heap e) out s' out' → apart s' t out' → (∀ k v, col_value (q_heap e) t k v → col_value s' t k v) → ready q (stage_columns i) s' out' →
    let e' := Query (sc_set_heap s' (q_scan e)) (<[i := out']> (q_outputs e)) (q_page e) in
    sets_ok s' (<[S i := out']> (sets e)) ∧ scan_ok (q_scan e') ∧ length (q_outputs e') = length qs ∧
    (∀ j q' o, qs !! j = Some q' → q_outputs e' !! j = Some o → ready q' (stage_columns j) s' o) ∧ ls = one_column <$> remaining (q_scan e') ∧
    below (<[S i := out']> (sets e)) (S i) t) as Hgo.
  { intros s' out' Hev Hap' Hkv Hrdy e'. destruct (sets_evolve _ _ (S i) out s' out' Hsets Hset Hev) as [Hsets' Hkeep].
    split; [done|]. split.
    { destruct Hscan as [H1 H2 H3 H4]. split; [done|done| |done]. intros l' Hl'. destruct (H3 l' Hl') as (p & lo & Ho & Hpv).
      exists p, lo. split; [done|]. simpl. rewrite (Hkeep 0 {[0 := Column p true]}); [done|done|unfold sets; by rewrite Ho|].
      exists 0, (Column p true). by rewrite lookup_singleton_eq. }
    split; [simpl; by rewrite length_insert|]. split.
    { simpl. intros j q' o Hj Ho. apply list_lookup_insert_Some in Ho as [(<- & <- & _)|[Hne Ho]]; [by simplify_eq|].
      by apply (ready_kept _ _ _ (S i) (q_outputs e) Hready Hkeep (λ i out H, H) j q' o); [lia| |]. }
    split; [done|]. intros k c Hc. destruct (Hbelow k c Hc) as (j & a & Hj & Ha & Ho). exists j, a. split; [done|].
    rewrite list_lookup_insert_ne by lia. done. }
  destruct (process q (stage_columns i) (q_page e) t (Exec (q_heap e) out)) as [[t'| | |] [s' out']]; try done; simpl.
  - destruct Hp as (-> & (Hev & Hap' & Hkv) & Hrdy & Hsup & Hafter). destruct (Hgo s' out' Hev Hap' Hkv Hrdy) as (H1 & H2 & H3 & H4 & H5 & H6).
    split_and!; [exact H1|exact H2|exact H3|exact H4|exact H5|lia| |].
    { eapply shape_intro; [lia|done|done|]. intros Hal. eapply supported_distinct; [|by apply Hdist|done|by apply Hev|done].
      by apply (Forall_lookup_1 _ _ _ _ (output_alone Hal) Hq). }
    intros n c Hc. destruct (Hsup n c Hc) as [Hm|(m0 & d & _ & Hj & Hd)].
    + exists (S i), out'. split; [lia|]. split; [|by exists n, c]. unfold sets. simpl. apply list_lookup_insert_eq. lia.
    + destruct (H6 m0 d Hj) as (m & a & Hm & Ha & Ho). exists m, a. split; [lia|]. split; [exact Ha|]. by rewrite <- Hd.
  - destruct Hp as ((Hev & Hap' & Hkv) & Hrdy & Hout'). split; [|exact Hout']. destruct (Hgo s' out' Hev Hap' Hkv Hrdy) as (H1 & H2 & H3 & H4 & H5 & H6).
    split_and!; [exact H1|exact H2|exact H3|exact H4|exact H5|lia| |exact H6]. by apply (shape_kept i (q_heap e)).
Qed.

(** The sink may change the contents of vectors. *)
Lemma sets_same_types (s s' : store O) ss : same_types s s' → sets_ok s ss → sets_ok s' ss.
Proof.
  intros [Hn Ht] [Hs Ho Ha].
  assert (∀ p, live s' p ↔ live s p) as Hlive.
  { intros p. specialize (Ht p). unfold live. destruct (vectors s !! p), (vectors s' !! p); try done; split; intros [? ?]; by eexists. }
  split; [|intros j a Hj i c Hi Hm|done].
  - intros p Hp%Hlive. rewrite Hn. by apply Hs.
  - destruct (Ho j a Hj i c Hi Hm) as [Hl Hu]. split; [by apply Hlive|done].
Qed.

Lemma same_types_kept (s s' : store O) ts : same_types s s' → types_kept s s' ts.
Proof.
  intros [_ Ht] p v _ Hp. specialize (Ht p). rewrite Hp in Ht. destruct (vectors s' !! p) as [v'|]; [|done]. by exists v'.
Qed.

Lemma written_ok e t l ls s' l' :
  query_running e (Some (length qs, t, l)) ls → same_types (q_heap e) s' → sees s' t l' →
  query_running (q_set_heap s' e) (Some (length qs, t, l')) ls.
Proof.
  intros (Hsets & Hscan & Hlen & Hready & Hls & Hi & _ & Hbelow) Hst Hsees.
  split; [by apply (sets_same_types (q_heap e))|]. split.
  { destruct Hscan as [H1 H2 H3 H4]. split; [done|done| |done]. intros l0 Hl0. destruct (H3 l0 Hl0) as (p & lo & Ho & Hpv).
    destruct Hst as [_ Ht]. specialize (Ht p). unfold q_heap in Ht. rewrite Hpv in Ht. simpl.
    destruct (vectors s' !! p) as [v|] eqn:Hv; [|done]. destruct v as [lo'| | |]; try done. by exists p, lo'. }
  split; [done|]. split; [intros i q out Hq Hout; eapply ready_frame; [by eapply Hready|exact (same_types_kept (q_heap e) s' out Hst)]|].
  split; [done|]. split; [lia|]. split; [|exact Hbelow]. unfold shape. by rewrite decide_False by lia.
Qed.

Lemma query_write_cases t o e l0 l ls :
  sk_open o l0 → query_running e (Some (length qs, t, l)) ls → length l0 + length l ≤ bound →
  match query_write t o e with
  | (Ret _, (_, o'), e') => sk_open o' (l0 ++ l) ∧ query_running e' None ls
  | (NotEnoughSpace, (t', o'), e') => ∃ p, p ≤ length l ∧ query_running e' (Some (length qs, t', drop p l)) ls ∧
      sk_holds o' (l0 ++ take p l) ∧ (l0 = [] → 0 < p)
  | _ => False
  end.
Proof using Hsink.
  intros Ho Hrun Hb. pose proof Hrun as (Hsets & Hscan & Hlen & Hready & Hls & _ & Hsh & _).
  unfold shape in Hsh. rewrite decide_False in Hsh by lia. unfold query_write.
  pose proof (sink_write (q_heap e) t o l0 l Ho Hsh Hb) as Hw. destruct (sk_write snk t o (q_heap e)) as [[[[]| | |] o'] s']; try done.
  - destruct Hw as [-> Hw]. assert (q_set_heap (q_heap e) e = e) as -> by by destruct e as [[] ? ?]. split; [done|]. by split_and!.
  - destruct Hw as (p & Hp & Hst & Hsees & Hh & Hpos). exists p. split; [done|]. split; [by eapply written_ok|]. by split.
Qed.

#[export] Instance query_laws :
  PipelineLaws query_ops query_running sk_open sk_holds (stage_rows meaning <$> qs) bound.
Proof using output_typed typed lambdas_ok output_alone Hsink.
  split.
  - intros e ls Hr. pose proof (query_next_ok e ls Hr) as Hn. simpl. by destruct (query_next e) as [[[t|]| | |] e'].
  - simpl. by rewrite length_imap, length_fmap.
  - intros i q f t l ls e Hq Hf Hr. simpl in Hq. rewrite list_lookup_imap in Hq. rewrite list_lookup_fmap in Hf.
    destruct (qs !! i) as [q0|] eqn:Hq0; [|done]. simpl in Hq, Hf. simplify_eq. pose proof (query_stage_ok i q0 t l ls e Hq0 Hr) as Hp.
    destruct (query_stage i q0 t e) as [[t'| | |] e']; try done. apply Hp.
  - intros e cur ls Hr. simpl. unfold query_create. by destruct (sink_create (q_page e)) as (o & -> & Ho).
  - intros t o e l0 l ls Ho Hr Hb. rewrite length_fmap in Hr. pose proof (query_write_cases t o e l0 l ls Ho Hr Hb) as Hw. simpl.
    destruct (query_write t o e) as [[[[]| | |] [t' o']] e']; try done. destruct Hw as (p & ? & ? & ? & _). exists p. by rewrite length_fmap.
  - intros o l Ho. by apply sink_holds.
  - intros e cur ls Hr. simpl. split; [lia|]. exact Hr.
Qed.

(** A query exits only because the lambda of a stage, or a probe, runs out of
    space on a fresh page. *)
Lemma query_exits : no_room_when_fresh query_ops query_running → ∃ q page, q ∈ qs ∧ runs_out page q.
Proof using output_typed typed lambdas_ok output_alone Hsink.
  intros (e0 & loc & size & e1 & o & e & _ & _ & [(ls & e' & Hr & Hn)|(i & f & t & l & ls & e' & Hf & Hr & Hn)]).
  - pose proof (query_next_ok e ls Hr) as Hok. simpl in Hn. by rewrite Hn in Hok.
  - simpl in Hf. rewrite list_lookup_imap in Hf. destruct (qs !! i) as [q|] eqn:Hq; [|done]. simplify_eq/=.
    pose proof (query_stage_ok i q t l ls e Hq Hr) as Hok. rewrite Hn in Hok. exists q, (q_page e). split; [by eapply list_elem_of_lookup_2|apply Hok].
Qed.

#[export] Instance query_progress :
  PipelineProgress query_ops query_running sk_open sk_holds (stage_rows meaning <$> qs) bound.
Proof using Hsink.
  split.
  - intros e. simpl. unfold query_create. destruct (sink_create (q_page e)) as (o & -> & _). by eexists.
  - intros t o e l ls t' o' e' Ho Hr Hb Hw. rewrite length_fmap in Hr. pose proof (query_write_cases t o e [] l ls Ho Hr ltac:(simpl; lia)) as Hc.
    simpl in Hw. rewrite Hw in Hc. destruct Hc as (p & Hp & Hr' & Hh & Hpos). specialize (Hpos eq_refl).
    exists p. rewrite length_fmap. split; [lia|]. by split.
Qed.
End query.

(** ** Stages work chunk by chunk *)

Section linear.
Context {O : Type} (meaning : (nat → list (option O) → outcome (value O)) → list (option O) → value O).
Implicit Types (q : stage (O:=O)) (qs : list (stage (O:=O))) (l : list (list (value O))).

Lemma stage_rows_app q l l' : stage_rows meaning q (l ++ l') = stage_rows meaning q l ++ stage_rows meaning q l'.
Proof. destruct q; simpl; [by rewrite filter_app, fmap_app|by rewrite fmap_app|by rewrite bind_app|by rewrite fmap_app|by rewrite bind_app]. Qed.

Lemma stages_app qs l l' :
  foldl (λ l q, stage_rows meaning q l) (l ++ l') qs =
  foldl (λ l q, stage_rows meaning q l) l qs ++ foldl (λ l q, stage_rows meaning q l) l' qs.
Proof. revert l l'. induction qs as [|q qs IH]; intros l l'; [done|]. simpl. by rewrite stage_rows_app. Qed.

Lemma stages_nil qs : foldl (λ l q, stage_rows meaning q l) [] qs = [].
Proof. induction qs as [|q qs IH]; [done|]. simpl. assert (stage_rows meaning q [] = []) as -> by by destruct q. exact IH. Qed.

Lemma staged_foldl qs l : staged (stage_rows meaning <$> qs) l = foldl (λ l q, stage_rows meaning q l) l qs.
Proof. unfold staged. revert l. induction qs as [|q qs IH]; intros l; [done|]. apply IH. Qed.

Lemma staged_query_rows qs (ls : list (list (option O))) :
  staged_rows (stage_rows meaning <$> qs) (one_column <$> ls) = query_rows qs meaning (concat ls).
Proof.
  unfold staged_rows, query_rows. induction ls as [|l ls IH]; [by rewrite stages_nil|]. simpl.
  rewrite fmap_app, stages_app, <- IH, staged_foldl. done.
Qed.

Lemma staged_length qs (ls : list (list (option O))) :
  Forall (λ l, length (staged (stage_rows meaning <$> qs) l) ≤ length (query_rows qs meaning (concat ls))) (one_column <$> ls).
Proof.
  rewrite <- staged_query_rows. apply Forall_fmap, Forall_forall. intros l Hl. simpl. unfold staged_rows.
  induction Hl as [l ls|l l' ls _ IH]; rewrite !fmap_cons; cbn [concat]; rewrite length_app; [apply Nat.le_add_r|].
  etrans; [exact IH|]. apply Nat.le_add_l.
Qed.
End linear.

(** ** The start of a query *)

(** A constructor adds a tuple set to those there are. *)
Lemma sets_append {O} (s : store O) ss s' out :
  sets_ok s ss → evolves s ∅ s' out → sets_ok s' (ss ++ [out]) ∧ ∀ p, live s p → vectors s' !! p = vectors s !! p.
Proof.
  intros [Hs Ho Ha] Hev.
  assert (∀ p, live s p → vectors s' !! p = vectors s !! p) as Hkeep.
  { intros p Hp. apply (ev_frame _ _ _ _ Hev); [apply owns_empty|by apply Hs]. }
  assert (∀ j a p, ss !! j = Some a → owns a p → ¬ owns out p) as Hno.
  { intros j a p Hj Hp Hout. pose proof (Hs p (owns_live s a p (Ho j a Hj) Hp)).
    destruct (ev_owns _ _ _ _ Hev p Hout) as [He|He]; [by apply owns_empty in He|lia]. }
  split; [|done]. split; [by apply Hev|..].
  - intros j a Hj. apply lookup_snoc_Some in Hj as [[_ Hj]|[_ <-]]; [|by apply Hev].
    intros i c Hi Hm. destruct (Ho j a Hj i c Hi Hm) as [[v Hv] Hu]. split; [|done]. exists v. by rewrite Hkeep by by exists v.
  - intros j k a b p Hj Hk Hpa Hpb. apply lookup_snoc_Some in Hj as [[_ Hj]|[-> <-]]; apply lookup_snoc_Some in Hk as [[_ Hk]|[-> <-]]; try done.
    + by eapply Ha.
    + by destruct (Hno j a p Hj Hpa).
    + by destruct (Hno k b p Hk Hpb).
Qed.

Lemma construct_all_ok {O} (qs : list (stage (O:=O))) : ∀ schema schemas ss (s : store O),
  typecheck_all schema qs = Some schemas → sets_ok s ss →
  ∃ s' made, mapM construct qs s = (Ret made, s') ∧ length made = length qs ∧ sets_ok s' (ss ++ made.*1) ∧
    (∀ p, live s p → vectors s' !! p = vectors s !! p) ∧
    ∀ i q out us, qs !! i = Some q → made !! i = Some (out, us) → ready q us s' out.
Proof.
  induction qs as [|q qs IH]; intros schema schemas ss s Hty Hss.
  { exists s, []. rewrite app_nil_r. by split_and!. }
  simpl in Hty. apply bind_Some in Hty as (σ & Hq & Hty). apply bind_Some in Hty as (rest & Hrest & _).
  destruct (construct_ok schema q σ s Hq (sets_store _ _ Hss)) as (s1 & out & us & Hrun & Hev & Hrdy).
  destruct (sets_append s ss s1 out Hss Hev) as [Hss1 Hkeep1].
  destruct (IH σ rest (ss ++ [out]) s1 Hrest Hss1) as (s2 & made & Hrun2 & Hlen & Hss2 & Hkeep2 & Hrdy2).
  exists s2, ((out, us) :: made). split_and!.
  - cbn [mapM]. run. rewrite Hrun. run. by rewrite Hrun2.
  - simpl. by rewrite Hlen.
  - by rewrite <- app_assoc in Hss2.
  - intros p Hp. rewrite Hkeep2, (Hkeep1 p Hp); [done|]. destruct Hp as [v Hv]. exists v. by rewrite Hkeep1 by by exists v.
  - intros [|i] q' out' us' Hq' Hm; [|by apply (Hrdy2 i)]. simplify_eq/=. eapply ready_frame; [exact Hrdy|].
    intros p v _ Hp. exists v. split; [|done]. by rewrite Hkeep2 by by exists v.
Qed.

Lemma query_start_ok {O} (qs : list (stage (O:=O))) schemas alone sees (s : store O) c :
  store_ok s → evolves s ∅ (sc_heap c) (default ∅ (sc_output c)) → scan_ok c → typecheck_all [TObject] qs = Some schemas →
  ∃ s' made, mapM construct qs (sc_heap c) = (Ret made, s') ∧
    query_running qs made.*2 schemas alone sees (query_start s' made.*1 c) None (one_column <$> remaining c).
Proof.
  intros Hs Hev Hok Hty.
  assert (sets_ok (sc_heap c) [default ∅ (sc_output c)]) as Hss.
  { split; [by apply Hev|..].
    - intros [|j] a Ha; [|done]. injection Ha as <-. by apply Hev.
    - by intros [|j] [|k] a b p. }
  destruct (construct_all_ok qs _ _ _ _ Hty Hss) as (s1 & mk & Hrun & Hlen & Hss1 & Hkeep & Hrdy). exists s1, mk. split; [done|].
  split; [exact Hss1|]. split.
  { destruct Hok as [H1 H2 H3 H4]. split; [done|done| |done]. intros l Hl. destruct (H3 l Hl) as (p & lo & Ho & Hp).
    exists p, lo. split; [done|]. simpl. by rewrite Hkeep by by exists (Objects lo). }
  split; [simpl; by rewrite length_fmap|]. split; [|done]. intros i q out Hq Hout. simpl in Hout.
  rewrite list_lookup_fmap in Hout. apply fmap_Some in Hout as ([out' us] & Hm & ->). unfold stage_columns.
  rewrite list_lookup_fmap, Hm. by apply (Hrdy i).
Qed.

(** ** Running a query *)

Section run.
Context {O C : Type} (qs : list (stage (O:=O))) (snk : sink_ops O C)
  (meaning : (nat → list (option O) → outcome (value O)) → list (option O) → value O).
Context (schemas : list (list col_type)) (σ : list col_type) (alone : bool) (sees : store O → tuple_set → list (list (value O)) → Prop)
  (sk_holds sk_open : C → list (list (value O)) → Prop) (bound : nat).
Context `{Hsink : !SinkLaws snk σ alone sees sk_holds sk_open bound}.

Lemma typecheck_all_length (qs' : list (stage (O:=O))) : ∀ schema σs, typecheck_all schema qs' = Some σs → length σs = S (length qs').
Proof.
  induction qs' as [|q qs' IH]; intros schema σs Hty; simpl in Hty; [by simplify_eq|].
  apply bind_Some in Hty as (out & _ & Hty). apply bind_Some in Hty as (rest & Hrest & [= <-]). simpl. by rewrite (IH out rest).
Qed.

(** A query over any sink that keeps the laws. *)
Lemma run_query_ok (s : store O) (set_pages : list (Z * list (option O))) (chunk pages chunks : nat) :
  typecheck_all [TObject] qs = Some schemas → last schemas = Some σ → Forall (lambda_ok meaning) qs →
  (alone = true → Forall (λ q, NoDup (passes q)) qs) → store_ok s → 0 < chunk →
  let objs := concat set_pages.*2 in
  let result := query_rows qs meaning objs in
  length result ≤ bound → length objs < chunks → length result + 2 ≤ pages →
  ∃ c s' made, scan_new s set_pages chunk = Ret c ∧ mapM construct qs (sc_heap c) = (Ret made, s') ∧
  let ops := query_ops qs made.*2 snk in
  match run ops pages chunks (MkPipeline (query_start s' made.*1 c) [] []) with
  | (Ret _, p) =>
      (Z.of_nat (length (requested p)) + DELAY_VALUE ≤ ALL_ITERATIONS)%Z →
      match destroy ops p with
      | (Ret _, p') => unwrittenPages p' = [] ∧
          ∃ filled cs, released p' ≡ₚ filled ∧ requested p' = event_page <$> filled ∧
            Forall2 (event_holds sk_holds) filled cs ∧ concat cs = result
      | _ => False
      end
  | (Exit _, _) => ∃ q page, q ∈ qs ∧ runs_out page q
  | _ => False
  end.
Proof using Hsink.
  intros Hty Hlast Hlam Halone Hs Hchunk objs result Hsize Hchunks Hpages.
  destruct (scan_new_ok s set_pages chunk Hs Hchunk) as (c & Hnew & Hok & Hrem & _ & Hev).
  destruct (query_start_ok qs schemas alone sees s c Hs Hev Hok Hty) as (s' & made & Hmade & Hstart).
  exists c, s', made. split; [done|]. split; [done|]. intros ops.
  assert (schemas !! length qs = Some σ) as Hout by by rewrite last_lookup, (typecheck_all_length _ _ _ Hty) in Hlast.
  assert (concat (remaining c) = objs) as Hcat.
  { rewrite Hrem. unfold objs. clear -Hchunk. induction set_pages as [|[loc l] ps IH]; [done|]. simpl.
    rewrite concat_app, chunks_concat by done. f_equal. exact IH. }
  assert (length (remaining c) ≤ length objs) as Hle.
  { rewrite <- Hcat, Hrem. clear -Hchunk. induction set_pages as [|[loc l] ps IH]; [done|]. simpl. rewrite concat_app, !length_app.
    pose proof (chunks_short chunk l Hchunk) as Hsh. apply Nat.add_le_mono; [|exact IH]. clear IH. induction Hsh as [|ch chs Hch _ IH]; [done|]. simpl. rewrite length_app. lia. }
  assert (staged_rows (stage_rows meaning <$> qs) (one_column <$> remaining c) = result) as Hres by by rewrite staged_query_rows, Hcat.
  pose proof (query_laws qs made.*2 snk meaning schemas Hty Hlam σ alone sees sk_holds sk_open bound Hout Halone) as Hlaws.
  pose proof (query_progress qs made.*2 snk meaning schemas σ alone sees sk_holds sk_open bound) as Hprog.
  pose proof (run_destroy_ok ops _ _ _ _ _ pages chunks (query_start s' made.*1 c) (one_column <$> remaining c) Hstart
    ltac:(rewrite Hres; exact Hsize) ltac:(rewrite length_fmap; lia)) as Hrun.
  lapply Hrun; clear Hrun.
  2:{ eapply Forall_impl; [apply (staged_length meaning qs)|]. intros l Hl. cbn beta in *. rewrite Hcat in Hl. fold result in Hl. lia. }
  pose proof (query_exits qs made.*2 snk meaning schemas Hty Hlam σ alone sees sk_holds sk_open bound Hout Halone) as Hexit.
  intros Hrun. destruct (run ops pages chunks _) as [[[]| | |] p]; try done; [|by apply Hexit]. intros Hreq. specialize (Hrun Hreq).
  destruct (destroy ops p) as [[[]| | |] p']; try done. destruct Hrun as (Hun & filled & cs & Hrel & Hreq' & Hcs & Hrows).
  split; [done|]. exists filled, cs. split_and!; [done..|]. by rewrite <- Hres.
Qed.
End run.
