(* ===== verification/SetQuery.v ===== *)
(** * SetQuery: queries that write to a stored set

    [VectorSink] as the sink of a query ([TupleQuery]): its containers are the
    vectors on the output pages, and it writes one column of objects to them.  The
    theorem on [set_query_spec] says that the pages of such a query hold the
    objects that the stages make of the objects of the set it reads. *)

From S2P Require Import Prelude.
From S2P Require Import PDBVector.
From S2P Require Import Pipeline.
From S2P Require Import TupleSet.
From S2P Require Import Executor.
From S2P Require Import JoinProbe.
From S2P Require Import Stages.
From S2P Require Import Scan.
From S2P Require Import TupleQuery.

(** An output page: its vector, and the allocator's answers for its elements. *)
Record vector_page {O : Type} := MkVectorPage {
  vp_vec : Array (option O);
  vp_answers : nat → vspace
}.
Arguments vector_page : clear implicits.
Arguments MkVectorPage {O}.

Section sink.
Context {O : Type} (att : nat) (answers : nat → nat → vspace).
Local Abbreviation row := (list (value O)).
Implicit Types (s : store O) (t : tuple_set) (l : list row).

Definition vector_create (page : nat) : outcome (vector_page O) :=
  Ret (MkVectorPage VectorSink_createNewOutputContainer (answers page)).

Definition vector_write t (o : vector_page O) s : outcome unit * vector_page O * store O :=
  let used := Z.to_nat (Vector_size (vp_vec o)) in
  let '(r, k) := VectorSink_writeOut att (λ i, vp_answers o (used + i)) t (VSink s (vp_vec o)) in
  (r, MkVectorPage (container k) (vp_answers o), vs_heap k).

Definition vector_ops : sink_ops O (vector_page O) := Sink vector_create vector_write.

Definition object_at (r : row) : option O := match r !! att with Some (VObject o) => o | _ => None end.

(** The column that is written, and the vector that it is written to. *)
Definition vector_sees s t l : Prop := col_value s t att (Objects (object_at <$> l)).
Definition vector_holds (o : vector_page O) l : Prop := holds (vp_vec o) (object_at <$> l).
Definition vector_open (o : vector_page O) l : Prop := vec_open (vp_vec o) (object_at <$> l) ∧ vp_answers o 0 = vplenty.

Lemma has_rows_object σ s t l : has_rows σ s t l → σ !! att = Some TObject → vector_sees s t l.
Proof.
  intros Hr Hσ. destruct (typed_column _ _ _ _ _ _ Hr Hσ) as (v & Hv & _ & Hl & la & ->). unfold vector_sees.
  assert (object_at <$> l = la) as ->; [|done]. simpl in Hl. clear -Hl. revert la Hl.
  induction l as [|r l IH]; intros [|o la]; try done. simpl. intros [= Hr Hl]. unfold object_at at 1. rewrite Hr. f_equal. by apply IH.
Qed.

Lemma write_same_types s p v w :
  vectors s !! p = Some v → type_of w = type_of v → same_types s (Store (<[p := w]> (vectors s)) (next_vector s)).
Proof.
  intros Hv Ht. split; [done|]. intros q. simpl. destruct (decide (q = p)) as [->|Hne].
  - by rewrite Hv, lookup_insert_eq.
  - rewrite lookup_insert_ne by done. by destruct (vectors s !! q).
Qed.

#[export] Instance vector_laws σ bound :
  TCEq (σ !! att) (Some TObject) → (∀ page, answers page 0 = vplenty) → (Z.of_nat bound ≤ 1073741824)%Z →
  SinkLaws vector_ops σ false vector_sees vector_holds vector_open bound.
Proof.
  intros Hσ%TCEq_eq Hfirst Hbound. split.
  - intros s t l Hr _. by eapply has_rows_object.
  - intros page. eexists. split; [done|]. split; [apply vec_open_new|apply Hfirst].
  - by intros o l [[Hh _] _].
  - intros s t o l0 l [Hop Hone] Hs Hb. simpl. unfold vector_write.
    set (sp := λ i, vp_answers o (Z.to_nat (Vector_size (vp_vec o)) + i)).
    pose proof (VectorSink_writeOut_ok att sp t s (vp_vec o) (object_at <$> l0) (object_at <$> l) Hs Hop ltac:(rewrite !length_fmap; lia)) as Hw.
    destruct (VectorSink_writeOut _ _ _ _) as [[[]| | |] [s' a']]; try done.
    + destruct Hw as [-> Hw]. split; [done|]. split; [by rewrite fmap_app|done].
    + destruct Hw as (c & j & Hc & Hj & -> & Hh & Hpos). rewrite length_fmap in Hj. rewrite <- fmap_drop, <- fmap_take, <- fmap_app in *.
      destruct Hs as (c' & Hc' & Hv). assert (c' = c) as -> by congruence.
      simpl. exists j. split; [done|]. split; [by eapply write_same_types|]. split.
      { exists c. split; [done|]. apply lookup_insert_eq. }
      split; [exact Hh|]. intros ->. apply Hpos. unfold sp.
      destruct Hop as [Hop _]. pose proof (holds_used _ _ Hop) as Hu. unfold Vector_size, numUsedSlots. rewrite Hu. simpl. exact Hone.
Qed.
End sink.

(** ** Property *)

(** [C6] A query reads a stored set of objects, puts them through stages whose columns
    fit together and whose lambdas, unless they run out of space, give the same
    value for the same objects, and writes a column of objects.  When a fresh page has room for
    a first row (otherwise the sink takes page after page without end,
    [write_chunk_diverges]), whatever else runs out of space and when, and however
    the set is spread over its pages, the query finishes, or exits because the
    lambda of a stage, or a probe, runs out of space on a fresh page; and in the
    end the pages it took, each given back exactly once, hold vectors that put
    one after the other in the order of the pages are exactly the objects that the
    stages make of the objects of the set (at most 2^30 objects on fewer than about
    10^9 pages).  No vector that stages
    and sink share is used after it was deleted or deleted twice. *)
Theorem set_query_spec {O} (qs : list (stage (O:=O))) (att : nat) (answers : nat → nat → vspace)
    (meaning : (nat → list (option O) → outcome (value O)) → list (option O) → value O) (schemas : list (list col_type))
    (σ : list col_type) (s : store O) (set_pages : list (Z * list (option O))) (chunk pages chunks : nat) :
  typecheck_all [TObject] qs = Some schemas → last schemas = Some σ → σ !! att = Some TObject →
  Forall (lambda_ok meaning) qs → (∀ i, answers i 0 = vplenty) → store_ok s → 0 < chunk →
  let objs := concat set_pages.*2 in
  let result := query_rows qs meaning objs in
  (Z.of_nat (length result) ≤ 1073741824)%Z → length objs < chunks → length result + 2 ≤ pages →
  ∃ c s' made, scan_new s set_pages chunk = Ret c ∧ mapM construct qs (sc_heap c) = (Ret made, s') ∧
  let ops := query_ops qs made.*2 (vector_ops att answers) in
  match run ops pages chunks (MkPipeline (query_start s' made.*1 c) [] []) with
  | (Ret _, p) =>
      (Z.of_nat (length (requested p)) + DELAY_VALUE ≤ ALL_ITERATIONS)%Z →
      match destroy ops p with
      | (Ret _, p') => unwrittenPages p' = [] ∧
          ∃ filled vecs, released p' ≡ₚ filled ∧ requested p' = event_page <$> filled ∧
            Forall2 (event_holds (λ o, holds (vp_vec o))) filled vecs ∧ concat vecs = object_at att <$> result
      | _ => False
      end
  | (Exit _, _) => ∃ q page, q ∈ qs ∧ runs_out page q
  | _ => False
  end.
Proof.
  intros Hty Hlast Hatt Hlam Hans Hs Hchunk objs result Hsize Hchunks Hpages.
  pose proof (vector_laws (O:=O) att answers σ (length result) (proj2 (TCEq_eq _ _) Hatt) Hans Hsize) as Hlaws.
  destruct (run_query_ok qs (vector_ops att answers) meaning schemas σ false _ _ _ (length result) s set_pages chunk pages chunks
    Hty Hlast Hlam ltac:(done) Hs Hchunk (le_n _) Hchunks Hpages) as (c & s' & made & Hnew & Hmade & Hrun).
  exists c, s', made. split; [done|]. split; [done|]. intros ops. subst ops. cbv zeta in Hrun.
  destruct (run _ pages chunks _) as [[[]| | |] p]; try done. intros Hreq. specialize (Hrun Hreq).
  destruct (destroy _ p) as [[[]| | |] p']; try done. destruct Hrun as (Hun & filled & cs & Hrel & Hreq' & Hcs & Hrows).
  split; [done|]. exists filled, ((fmap (object_at att) : list (list (value O)) → list (option O)) <$> cs). split_and!; [done|done| |].
  - clear -Hcs. induction Hcs as [|ev l evs cs Hev _ IH]; [constructor|]. constructor; [|exact IH].
    destruct ev as [|loc o|loc]; simpl in *; [done|exact Hev|by subst].
  - transitivity (object_at att <$> concat cs); [|by f_equal]. clear. induction cs as [|l cs IH]; [done|]. simpl. rewrite fmap_app. f_equal. exact IH.
Qed.

(** ** Witness

    Five integers on three pages; the odd ones are kept, each is mapped to a
    vector of two, and the vectors are taken apart.  Three objects fit on a page,
    and the second lambda runs out of space once. *)

Definition demo_odd (now : nat) (args : list (option Z)) : outcome (value Z) :=
  Ret (VBool (match args with [Some z] => Z.odd z | _ => false end)).

Definition demo_twins (now : nat) (args : list (option Z)) : outcome (value Z) :=
  match args with
  | [Some z] => if (now =? 2) && (z =? 5)%Z then NotEnoughSpace else Ret (VVector [Some z; Some (z + 100)%Z])
  | _ => Ret (VVector [])
  end.

Definition demo_stages : list (stage (O:=Z)) :=
  [Apply [0] [0] TBool demo_odd; Filter [0] 1; Apply [] [0] TVector demo_twins; Flatten [] 0].

Definition demo_meaning (func : nat → list (option Z) → outcome (value Z)) (args : list (option Z)) : value Z :=
  match func 0 args with Ret x => x | _ => VBool false end.

Definition demo_set : list (Z * list (option Z)) :=
  [(100, [Some 1; Some 2; Some 3]); (101, []); (102, [Some 4; Some 5])]%Z.

Definition demo_answers (page i : nat) : vspace := if i <? 3 then vplenty else VSpace true (λ _, true) false.

Definition no_vectors : store Z := Store ∅ 0.

Lemma set_no_vectors_ok : store_ok no_vectors.
Proof. by intros p [v Hv]. Qed.

Lemma set_demo_lambdas_ok : Forall (lambda_ok demo_meaning) demo_stages.
Proof.
  unfold demo_stages. rewrite !Forall_cons. split; [intros now args; by left|]. split; [done|]. split; [|split; [done|constructor]].
  intros now args. unfold demo_meaning, demo_twins. destruct args as [|[z|] [|a args]]; simpl; try (by left).
  destruct ((now =? 2) && (z =? 5)%Z); [by right|by left].
Qed.

Local Abbreviation demo_ops := (query_ops demo_stages (replicate 4 []) (vector_ops 0 demo_answers)).
Local Abbreviation demo_scan := (match scan_new no_vectors demo_set 2 with Ret c => c | _ => Scan no_vectors [] [] None None None 0 0 None end).
Local Abbreviation demo_run := (run demo_ops 10 10 (MkPipeline (query_start (sc_heap demo_scan) (replicate 4 ∅) demo_scan) [] [])).

(** The pages taken, and the objects on the pages written back. *)
Lemma set_demo_pages :
  match demo_run with
  | (Ret _, p) =>
      match destroy demo_ops p with
      | (Ret _, p') => Some (length (requested p), length (released p'))
      | _ => None
      end
  | _ => None
  end = Some (3, 3).
Proof. vm_compute. reflexivity. Qed.

Lemma set_demo_run_ok :
  ∃ p p', demo_run = (Ret tt, p) ∧ destroy demo_ops p = (Ret tt, p') ∧ length (requested p) = 3 ∧ length (released p') = 3.
Proof.
  pose proof set_demo_pages as Hpages. destruct demo_run as [[[]| | |] p]; try discriminate Hpages.
  destruct (destroy demo_ops p) as [[[]| | |] p'] eqn:Hd; try discriminate Hpages. injection Hpages as Hreq Hlen.
  exists p, p'. split; [reflexivity|]. split; [exact Hd|]. by split.
Qed.

Lemma demo_typed : typecheck_all [TObject] demo_stages = Some [[TObject]; [TObject; TBool]; [TObject]; [TVector]; [TObject]].
Proof. reflexivity. Qed.

Lemma demo_result : object_at 0 <$> query_rows demo_stages demo_meaning (concat demo_set.*2) =
  [Some 1; Some 101; Some 3; Some 103; Some 5; Some 105]%Z.
Proof. vm_compute. reflexivity. Qed.

Lemma set_query_spec_witness :
  ∃ p p', demo_run = (Ret tt, p) ∧ destroy demo_ops p = (Ret tt, p') ∧
    ∃ filled vecs, released p' ≡ₚ filled ∧ Forall2 (event_holds (λ o, holds (vp_vec o))) filled vecs ∧
      concat vecs = [Some 1; Some 101; Some 3; Some 103; Some 5; Some 105]%Z.
Proof.
  destruct (set_query_spec demo_stages 0 demo_answers demo_meaning _ [TObject] no_vectors demo_set 2 10 10 demo_typed eq_refl eq_refl
    set_demo_lambdas_ok (λ _, eq_refl) set_no_vectors_ok) as (c & s' & made & Hc & Hm & Hw); [lia|vm_compute; discriminate|vm_compute; lia|vm_compute; lia|].
  destruct set_demo_run_ok as (p & p' & Hr & Hd & Hreq & _). exists p, p'. split; [exact Hr|]. split; [exact Hd|].
  rewrite Hc in Hr. injection Hm as <- <-. cbv zeta in Hw. cbn [fmap list_fmap fst snd] in Hw.
  change (replicate 4 ([] : list nat)) with [[] : list nat; []; []; []] in Hr, Hd. change (replicate 4 (∅ : tuple_set)) with [∅ : tuple_set; ∅; ∅; ∅] in Hr.
  rewrite Hr, Hd in Hw. rewrite demo_result in Hw.
  destruct Hw as (_ & filled & vecs & Hrel & _ & Hf & Hcat); [rewrite Hreq; vm_compute; discriminate|].
  exists filled, vecs. by split_and!.
Defined.

(** The second lambda on three tuple sets; it runs out of space on the second. *)
Definition demo_inputs : list (nat * tuple_set) := [(1, {[0 := Column 0 true]}); (2, {[0 := Column 1 true]}); (3, {[0 := Column 1 true]})].
Definition demo_vectors : store Z := Store {[0 := Objects [Some 7%Z; Some 8%Z]; 1 := Objects [Some 5%Z]]} 2.

Lemma demo_vectors_ok : store_ok demo_vectors.
Proof. intros p [v Hv]. unfold demo_vectors in *. simpl in *. rewrite lookup_insert_Some, lookup_singleton_Some in Hv. naive_solver lia. Qed.

Lemma demo_inputs_ok :
  Forall (λ '(_, input), (∀ i c, input !! i = Some c → live demo_vectors (contents c)) ∧ ∃ l, has_rows [TObject] demo_vectors input l) demo_inputs.
Proof.
  assert (∀ p l, vectors demo_vectors !! p = Some (Objects l) →
    (∀ i c, ({[0 := Column p true]} : tuple_set) !! i = Some c → live demo_vectors (contents c)) ∧ ∃ l, has_rows [TObject] demo_vectors {[0 := Column p true]} l) as Hin.
  { intros p l Hp. split.
    - intros i c Hc. apply lookup_singleton_Some in Hc as [<- <-]. by eexists.
    - exists (one_column l). apply one_column_rows. exists (Column p true). by rewrite lookup_singleton_eq. }
  repeat constructor; eapply Hin; reflexivity.
Qed.

Lemma stage_leaves_nothing_witness :
  ∃ s' out, (process_all (process (Apply [] [0] TVector demo_twins) []) demo_inputs ;; e ← get; in_heap (TupleSet_destroy (output e)))
    (Exec demo_vectors ∅) = (Ret tt, Exec s' out) ∧ vectors s' = vectors demo_vectors.
Proof.
  pose proof (stage_laws demo_meaning [TObject] (Apply [] [0] TVector demo_twins) [] [TVector] (TCEq_refl _)
    (Forall_lookup_1 _ _ 2 _ set_demo_lambdas_ok eq_refl)) as Hlaws.
  exact (stage_leaves_nothing _ _ _ _ _ _ demo_inputs demo_vectors demo_vectors ∅ demo_vectors_ok
    (evolves_refl _ _ demo_vectors_ok (owner_ok_empty _)) (appended_empty _ _ _) demo_inputs_ok).
Defined.
