(* ===== verification/JoinTables.v ===== *)
(** * JoinTables: join sinks as sinks of queries

    [JoinSink] of [lambdas/headers/JoinTuple.h] as the sink of a query
    ([TupleQuery]): what the table on a page says of the rows written to it
    ([join_holds]), and that [writeOut] keeps the laws of a sink. *)

From S2P Require Import Prelude.
From S2P Require Import HashProbe.
From S2P Require Import JoinPairArray.
From S2P Require Import JoinMapPush.
From S2P Require Import TupleSet.
From S2P Require Import Executor.
From S2P Require Import JoinProbe.
From S2P Require Import JoinSink.
From S2P Require Import Stages.
From S2P Require Import TupleQuery.

(** ** The sink *)

(** A page of a build: its table, the number of rows written, and the
    allocator's answers for each row. *)
Record join_page {O : Type} := MkJoinPage {
  jp_map : JoinPairArray (list O);
  jp_rows : nat;
  jp_answers : nat → row_space
}.
Arguments join_page : clear implicits.
Arguments MkJoinPage {O}.

Section sink.
Context {RS : RecordSize} {O : Type} (blank : list O) (keyAtt : nat) (useTheseAtts whereEveryoneGoes : list nat) (answers : nat → nat → row_space).
Local Abbreviation row := (list (value O)).
Implicit Types (s : store O) (t : tuple_set) (l : list row).

Definition join_create (page : nat) : outcome (join_page O) :=
  m ← JoinSink_createNewOutputContainer; Ret (MkJoinPage m 0 (answers page)).

Definition join_write t (o : join_page O) s : outcome unit * join_page O * store O :=
  let '(r, k) := JoinSink_writeOut blank keyAtt useTheseAtts whereEveryoneGoes (λ i, jp_answers o (jp_rows o + i)) t (JSink s (jp_map o)) in
  let length := match column_as numbers keyAtt t s with (Ret keys, _) => length keys | _ => 0 end in
  (r, MkJoinPage (jk_map k) (jp_rows o + length) (jp_answers o), jk_heap k).

Definition join_ops : sink_ops O (join_page O) := Sink join_create join_write.

(** The attributes of the components. *)
Context (atts : list nat).
Hypothesis components : mapM (λ a, useTheseAtts !! a) whereEveryoneGoes = Some atts.

(** The join tuple of a row; a null handle leaves the component as it was. *)
Definition tuple_of (r : row) : list O :=
  imap (λ k x, default x (a ← atts !! k; v ← r !! a; match v with VObject o => o | _ => None end)) blank.

Definition join_pair (r : row) : Z * list O := (hash_at keyAtt r, tuple_of r).

(** The columns [us] and [keyp] that the sink reads. *)
Record sink_columns s t (us : list nat) (cols : list (list (option O))) (keyp : nat) (keys : list Z) : Prop := {
  jc_columns : Forall2 (λ a p, ∃ m, t !! a = Some (Column p m)) atts us;
  jc_NoDup : NoDup us;
  jc_objects : cols_at s us cols;
  jc_key : ∃ m, t !! keyAtt = Some (Column keyp m);
  jc_hashes : vectors s !! keyp = Some (Numbers keys);
  jc_lengths : Forall (λ c, length c = length keys) cols
}.

Definition join_sees s t l : Prop :=
  ∃ (us : list nat) (cols : list (list (option O))) (keyp : nat) (keys : list Z), sink_columns s t us cols keyp keys ∧ rows_from blank cols 0 keys = join_pair <$> l.

Definition join_holds (o : join_page O) l : Prop :=
  jwf (jp_map o) ∧ to_multimap (jp_map o) = spec_pushes ∅ (join_pair <$> l).
Definition join_open (o : join_page O) l : Prop :=
  join_holds o l ∧ jtight (Z.of_nat (length l)) (jp_map o) ∧ jp_rows o = length l ∧
  roomy_row (jp_answers o 0) ∧ ∀ i, steady_push (rs_push (jp_answers o i)).

(** *** Rows *)

Lemma rows_from_drop (cols : list (list (option O))) keys p :
  p ≤ length keys → rows_from blank (drop p <$> cols) 0 (drop p keys) = drop p (rows_from blank cols 0 keys).
Proof.
  intros Hp. unfold rows_from. apply list_eq. intros i. rewrite lookup_drop, !list_lookup_imap, lookup_drop. simpl.
  destruct (keys !! (p + i)) as [key|]; [|done]. simpl. do 2 f_equal. unfold packed. apply imap_ext. intros k x _.
  unfold object_of. f_equal. rewrite list_lookup_fmap. destruct (cols !! k) as [c|]; [|done]. simpl. by rewrite lookup_drop.
Qed.

Lemma rows_from_length (cols : list (list (option O))) keys : length (rows_from blank cols 0 keys) = length keys.
Proof. apply length_imap. Qed.

(** The components of a row of the tuple set. *)
Lemma packed_row s t l (cols : list (list (option O))) σ i r :
  has_rows σ s t l → Forall (λ a, σ !! a = Some TObject) atts → length atts = length blank →
  Forall2 (λ a la, (λ r : row, r !! a) <$> l = Some <$> values (Objects la)) atts cols →
  l !! i = Some r → packed blank cols i = tuple_of r.
Proof.
  intros _ Hσ Hlen Hcols Hi. unfold packed, tuple_of. apply imap_ext. intros k x Hx. f_equal. unfold object_of.
  destruct (atts !! k) as [a|] eqn:Ha.
  - destruct (Forall2_lookup_l _ _ _ _ _ Hcols Ha) as (la & Hla & Hrow). rewrite Hla. simpl.
    apply (f_equal (lookup i)) in Hrow. rewrite !list_lookup_fmap, Hi in Hrow. simpl in Hrow. rewrite list_lookup_fmap in Hrow.
    destruct (la !! i) as [o|]; [|done]. simpl in *. injection Hrow as Hrow. by rewrite Hrow.
  - rewrite (proj2 (lookup_ge_None cols k)); [done|]. apply lookup_ge_None in Ha. by rewrite <- (Forall2_length _ _ _ Hcols).
Qed.

Lemma get_columns_ok s t (us : list nat) :
  Forall2 (λ a p, ∃ m, t !! a = Some (Column p m)) atts us → get_columns useTheseAtts whereEveryoneGoes t s = (Ret us, s).
Proof using components.
  revert us. unfold get_columns. clear answers. revert atts components.
  induction whereEveryoneGoes as [|w ws IH]; intros atts0 Hc us Hus; simpl in Hc.
  { injection Hc as <-. by inversion Hus. }
  apply bind_Some in Hc as (a & Ha & Hc). apply bind_Some in Hc as (rest & Hrest & [= <-]).
  inversion Hus as [|? p ? us' [m Hm] Hus']; subst. cbn [mapM].
  rewrite (M_bind_Ret _ _ s p s) by (rewrite Ha; unfold getColumn; by rewrite Hm).
  by rewrite (M_bind_Ret _ _ s us' s) by (by apply (IH rest)).
Qed.

Lemma has_rows_sees σ s t l :
  has_rows σ s t l → σ !! keyAtt = Some TNumber → Forall (λ a, σ !! a = Some TObject) atts → length atts = length blank →
  NoDup atts → distinct t → join_sees s t l.
Proof.
  intros Hr Hkey Hσ Hlen Hnd Hdist. destruct (typed_objects _ _ _ _ _ Hr Hσ) as (cols & Hcols & Hrows).
  destruct (typed_column _ _ _ _ _ _ Hr Hkey) as (v & (ck & Hck & Hv) & Hc & Hh & [h ->]). apply rows_of_numbers in Hh as ->.
  assert (∃ us, Forall2 (λ a p, ∃ m, t !! a = Some (Column p m)) atts us ∧ cols_at s us cols) as (us & Hus & Hcu).
  { clear -Hcols. induction Hcols as [|a la atts cols ([p m] & Hp & Hv) _ (us & IH1 & IH2)]; [exists []; split; constructor|]. exists (p :: us).
    split; constructor; try done. by exists m. }
  exists us, cols, (contents ck), (hash_at keyAtt <$> l). split; [split|].
  - done.
  - apply NoDup_alt. intros j k p Hj Hk. destruct (Forall2_lookup_r _ _ _ _ _ Hus Hj) as (a & Ha & m & Hm).
    destruct (Forall2_lookup_r _ _ _ _ _ Hus Hk) as (b & Hb & n & Hn).
    pose proof (Hdist a b _ _ Hm Hn eq_refl) as ->. by eapply NoDup_lookup.
  - done.
  - exists (mustDelete ck). by destruct ck.
  - exact Hv.
  - apply Forall_lookup. intros k la Hla. destruct (Forall2_lookup_r _ _ _ _ _ Hrows Hla) as (a & _ & Hrow).
    apply (f_equal length) in Hrow. rewrite !length_fmap, values_length in Hrow. rewrite length_fmap. by rewrite Hrow.
  - unfold rows_from. apply list_eq. intros i. rewrite list_lookup_imap, !list_lookup_fmap. destruct (l !! i) as [r|] eqn:Hi; [|done].
    simpl. unfold join_pair. do 2 f_equal. by eapply packed_row.
Qed.

(** The rows before row [p] were erased. *)
Lemma sees_erased s t us cols keyp keys l p s' :
  sink_columns s t us cols keyp keys → rows_from blank cols 0 keys = join_pair <$> l → p ≤ length keys →
  erased s us cols keyp keys p s' → join_sees s' t (drop p l) ∧ same_types s s'.
Proof.
  intros Hc Hrows Hp He. split.
  - exists us, (drop p <$> cols), keyp, (drop p keys). split; [split|].
    + apply Hc.
    + apply Hc.
    + apply He.
    + apply Hc.
    + apply He.
    + apply Forall_fmap. eapply Forall_impl; [apply Hc|]. intros c Hcl. simpl in *. by rewrite !length_drop, Hcl.
    + rewrite rows_from_drop by done. by rewrite Hrows, fmap_drop.
  - split; [apply He|]. intros q. destruct (decide (q = keyp)) as [->|Hk].
    { by rewrite (jc_hashes _ _ _ _ _ _ Hc), (er_keys _ _ _ _ _ _ _ He). }
    destruct (decide (q ∈ us)) as [[j Hj]%list_elem_of_lookup_1|Hno].
    + destruct (Forall2_lookup_l _ _ _ _ _ (jc_objects _ _ _ _ _ _ Hc) Hj) as (c & _ & Hq).
      destruct (Forall2_lookup_l _ _ _ _ _ (er_cols _ _ _ _ _ _ _ He) Hj) as (c' & _ & Hq'). by rewrite Hq, Hq'.
    + rewrite (er_rest _ _ _ _ _ _ _ He q Hno Hk). by destruct (vectors s !! q).
Qed.

(** *** The laws *)

Lemma JoinSink_writeOut_ok sp s t us cols keyp keys n m :
  sink_columns s t us cols keyp keys → length atts = length blank →
  jwf m → jtight n m → (n + Z.of_nat (length keys) ≤ max_entries)%Z → (∀ i, steady_push (rs_push (sp i))) →
  match JoinSink_writeOut blank keyAtt useTheseAtts whereEveryoneGoes sp t (JSink s m) with
  | (Ret _, JSink s' m') => s' = s ∧ jwf m' ∧ jtight (n + Z.of_nat (length keys)) m' ∧
      to_multimap m' = spec_pushes (to_multimap m) (rows_from blank cols 0 keys)
  | (NotEnoughSpace, JSink s' m') => ∃ j, j < length keys ∧ ¬ roomy_row (sp j) ∧ jwf m' ∧
      to_multimap m' = spec_pushes (to_multimap m) (take j (rows_from blank cols 0 keys)) ∧ erased s us cols keyp keys j s'
  | _ => False
  end.
Proof using components.
  intros Hc Hlen Hm Ht Hn Hsp. destruct Hc as [Hcol Hnd Hobj [mk Hkey] Hhash Hl]. unfold JoinSink_writeOut, jk_in_heap.
  assert (getColumn keyAtt t s = (Ret keyp, s)) as Hget by (unfold getColumn; by rewrite Hkey).
  assert (column_as numbers keyAtt t s = (Ret keys, s)) as Has by (apply (column_as_ok numbers _ _ _ (Numbers keys)); by exists (Column keyp mk)).
  rewrite (M_bind_Ret _ _ _ us (JSink s m)) by (cbn [jk_heap jk_map]; by rewrite (get_columns_ok _ _ _ Hcol)).
  rewrite (M_bind_Ret _ _ _ keyp (JSink s m)) by (cbn [jk_heap jk_map]; by rewrite Hget).
  rewrite (M_bind_Ret _ _ _ keys (JSink s m)) by (cbn [jk_heap jk_map]; by rewrite Has).
  apply (write_rows_ok blank us cols keyp keys s Hnd Hobj ltac:(by rewrite <- (Forall2_length _ _ _ Hcol)) Hhash Hl sp keys 0 n m); done.
Qed.

#[export] Instance join_laws σ bound :
  TCEq (σ !! keyAtt) (Some TNumber) → Forall (λ a, σ !! a = Some TObject) atts → length atts = length blank → NoDup atts →
  (∀ page i, steady_push (rs_push (answers page i))) → (∀ page, roomy_row (answers page 0)) → (Z.of_nat bound ≤ max_entries)%Z →
  SinkLaws join_ops σ true join_sees join_holds join_open bound.
Proof using components.
  intros Hkey%TCEq_eq Hσ Hlen Hnd Hsteady Hroomy Hbound. split.
  - intros s t l Hr Hd. by apply (has_rows_sees σ); [..|apply Hd].
  - intros page. destruct (JoinMap_default_spec (V:=list O)) as (m & Hm & Hwf & Ht & Hmm). exists (MkJoinPage m 0 (answers page)). split.
    + simpl. unfold join_create, JoinSink_createNewOutputContainer. by rewrite Hm.
    + split; [by split|]. split; [done|]. split; [done|]. split; [apply Hroomy|intros i; apply Hsteady].
  - by intros o l [Hh _].
  - intros s t o l0 l ((Hwf & Hmm) & Ht & Hrows & Hroom & Hst) (us & cols & keyp & keys & Hc & Hpairs) Hb. simpl. unfold join_write.
    assert (length keys = length l) as Hlk by (by rewrite <- (rows_from_length cols), Hpairs, length_fmap).
    pose proof (JoinSink_writeOut_ok (λ i, jp_answers o (jp_rows o + i)) s t us cols keyp keys _ (jp_map o) Hc Hlen Hwf Ht ltac:(lia)
      ltac:(intros i; apply Hst)) as Hw. rewrite Hmm, Hpairs in Hw.
    destruct (JoinSink_writeOut _ _ _ _ _ _ _) as [[[]| | |] [s' m']]; try done.
    + destruct Hw as (-> & Hwf' & Ht' & Hmm'). split; [done|].
      assert (column_as numbers keyAtt t s = (Ret keys, s)) as ->.
      { apply (column_as_ok numbers _ _ _ (Numbers keys)). destruct (jc_key _ _ _ _ _ _ Hc) as [mk Hk]. exists (Column keyp mk). split; [done|exact (jc_hashes _ _ _ _ _ _ Hc)]. }
      split; [|split; [|split; [|done]]]; simpl.
      * split; [done|]. simpl. rewrite Hmm', fmap_app. unfold spec_pushes. by rewrite foldl_app.
      * rewrite length_app. by replace (Z.of_nat (length l0 + length l)) with (Z.of_nat (length l0) + Z.of_nat (length keys))%Z by lia.
      * rewrite length_app. lia.
    + destruct Hw as (j & Hj & Hno & Hwf' & Hmm' & He). exists j.
      destruct (sees_erased s t us cols keyp keys l j s' Hc Hpairs ltac:(lia) He) as [Hsees Htypes]. split; [lia|]. split; [done|]. split; [done|]. split; [split|].
      * done.
      * simpl. rewrite Hmm', <- fmap_take, fmap_app. unfold spec_pushes. by rewrite foldl_app.
      * intros ->. simpl in Hrows. rewrite Hrows in Hno. destruct j; [|lia]. by destruct Hno.
Qed.
End sink.
