(* ===== verification/PartitionedJoin.v ===== *)
(** * PartitionedJoin: building the tables of a partitioned join

    Models [PartitionedJoinSink] of [lambdas/headers/JoinTuple.h]: its container
    is a vector of tables for every node, and the hash of a row says which of
    them the row goes to.  Rows are written and taken back as in [JoinSink]. *)

From S2P Require Import Prelude.
From S2P Require Import HashProbe.
From S2P Require Import JoinPairArray.
From S2P Require Import JoinMapPush.
From S2P Require Import TupleSet.
From S2P Require Import Executor.
From S2P Require Import JoinProbe.
From S2P Require Import JoinSink.
From S2P Require Import Stages.
From S2P Require Import TupleQuery.
From S2P Require Import JoinTables.

(** A [JoinMap] with the fields that only partitioned joins use. *)
Record partition_map {O : Type} := PartitionMap {
  pm_table : JoinPairArray (list O);
  partitionId : nat;
  numPartitions : nat
}.
Arguments partition_map : clear implicits.
Arguments PartitionMap {O}.

(** A sink at work: the vectors, and the tables of every node. *)
Record partition_sink {O : Type} := PSink {
  pk_heap : store O;
  pk_maps : list (list (partition_map O))
}.
Arguments partition_sink : clear implicits.
Arguments PSink {O}.

Section sink.
Context {RS : RecordSize} {O : Type} (blank : list O) (numPartitionsPerNode numNodes : nat).
Local Abbreviation M := (M (partition_sink O)).
Local Abbreviation grid := (list (list (partition_map O))).
Implicit Types (maps : grid).

(** [JoinMap(2, i * numPartitionsPerNode + j, numPartitionsPerNode)] *)
Definition partition_new (id : nat) : outcome (partition_map O) :=
  m ← JoinMap_new 2; Ret (PartitionMap m id numPartitionsPerNode).

Definition PartitionedJoinSink_createNewOutputContainer : outcome grid :=
  mapM (λ i, mapM (λ j, partition_new (i * numPartitionsPerNode + j)) (seq 0 numPartitionsPerNode)) (seq 0 numNodes).

(** The table of a row: [curPartitionId] counts the calls of [writeOut]; the
    remainder by zero is not defined. *)
Definition row_index (partitionedJoinType : JoinType) (curPartitionId : nat) (key : Z) : outcome nat :=
  if decide (numPartitionsPerNode * numNodes = 0) then Undefined
  else Ret (if decide (partitionedJoinType = CrossProduct) then curPartitionId mod (numPartitionsPerNode * numNodes)
            else Z.to_nat (key mod Z.of_nat (numPartitionsPerNode * numNodes))).

Definition map_at maps (nodeIndex partitionIndex : nat) : option (partition_map O) := row ← maps !! nodeIndex; row !! partitionIndex.

Definition set_map (nodeIndex partitionIndex : nat) (m : JoinPairArray (list O)) maps : grid :=
  alter (alter (λ pm, PartitionMap m (partitionId pm) (numPartitions pm)) partitionIndex) nodeIndex maps.

(** Works on the vectors and one of the tables. *)
Definition in_partition {A} (nodeIndex partitionIndex : nat) (m : Prelude.M (join_sink O) A) : M A := λ k,
  match map_at (pk_maps k) nodeIndex partitionIndex with
  | Some pm =>
      let '(r, k') := m (JSink (pk_heap k) (pm_table pm)) in
      (r, PSink (jk_heap k') (set_map nodeIndex partitionIndex (jk_map k') (pk_maps k)))
  | None => (Undefined, k)
  end.

Definition pk_in_heap {A} (m : Prelude.M (store O) A) : M A := λ k,
  let '(r, s) := m (pk_heap k) in (r, PSink s (pk_maps k)).

Fixpoint write_partitioned (partitionedJoinType : JoinType) (curPartitionId : nat) (sp : nat → row_space) (keyColumn : nat)
    (us : list nat) (i : nat) (keys : list Z) : M unit :=
  match keys with
  | [] => mret tt
  | key :: keys' =>
      index ← lift (row_index partitionedJoinType curPartitionId key);
      in_partition (index / numPartitionsPerNode) (index mod numPartitionsPerNode) (write_row blank (sp i) keyColumn us key i) ;;
      write_partitioned partitionedJoinType curPartitionId sp keyColumn us (S i) keys'
  end.

(** [curPartitionId] is the counter before the call. *)
Definition PartitionedJoinSink_writeOut (keyAtt : nat) (useTheseAtts whereEveryoneGoes : list nat) (partitionedJoinType : JoinType)
    (curPartitionId : nat) (sp : nat → row_space) (input : tuple_set) : M unit :=
  columns ← pk_in_heap (get_columns useTheseAtts whereEveryoneGoes input);
  keyColumn ← pk_in_heap (getColumn keyAtt input);
  keys ← pk_in_heap (column_as numbers keyAtt input);
  write_partitioned partitionedJoinType (S curPartitionId) sp keyColumn columns 0 keys.
End sink.

(** ** What the tables hold *)

Section facts.
Context {RS : RecordSize} {O : Type} (blank : list O) (numPartitionsPerNode numNodes : nat).
Local Abbreviation grid := (list (list (partition_map O))).
Implicit Types (maps : grid) (ps : list (Z * list O)).
Hypothesis some_partitions : 0 < numPartitionsPerNode * numNodes.

Definition partition_of (key : Z) : nat := Z.to_nat (key mod Z.of_nat (numPartitionsPerNode * numNodes)).

(** The pairs that go to a partition. *)
Definition pairs_of (id : nat) ps : list (Z * list O) := filter (λ kv, partition_of kv.1 = id) ps.

(** Every partition has its table at its place, with the pairs that go there. *)
Definition grid_shape maps : Prop := length maps = numNodes ∧ Forall (λ row, length row = numPartitionsPerNode) maps.

Record grid_holds maps ps : Prop := {
  gh_shape : grid_shape maps;
  gh_maps i j pm : map_at maps i j = Some pm →
    partitionId pm = i * numPartitionsPerNode + j ∧ numPartitions pm = numPartitionsPerNode ∧ jwf (pm_table pm) ∧
    to_multimap (pm_table pm) = spec_pushes ∅ (pairs_of (i * numPartitionsPerNode + j) ps)
}.

Definition grid_tight (n : Z) maps : Prop := ∀ i j pm, map_at maps i j = Some pm → jtight n (pm_table pm).

(** *** Tables and their places *)

Lemma map_at_Some maps i j : grid_shape maps → i < numNodes → j < numPartitionsPerNode → ∃ pm, map_at maps i j = Some pm.
Proof.
  intros [Hn Hp] Hi Hj. destruct (lookup_lt_is_Some_2 maps i ltac:(lia)) as [row Hrow].
  pose proof (Forall_lookup_1 _ _ _ _ Hp Hrow) as Hlen. destruct (lookup_lt_is_Some_2 row j ltac:(simpl in *; lia)) as [pm Hpm].
  exists pm. unfold map_at. by rewrite Hrow.
Qed.

Lemma map_at_set maps i j m i' j' :
  map_at (set_map i j m maps) i' j' =
  (if decide (i = i' ∧ j = j') then (λ pm, PartitionMap m (partitionId pm) (numPartitions pm)) <$> map_at maps i' j' else map_at maps i' j').
Proof.
  unfold map_at, set_map. destruct (decide (i = i')) as [->|Hi].
  - rewrite list_lookup_alter_eq. destruct (maps !! i') as [row|]; [|by destruct (decide _)]. simpl. destruct (decide (j = j')) as [->|Hj].
    + rewrite decide_True by done. apply list_lookup_alter_eq.
    + rewrite decide_False by naive_solver. by apply list_lookup_alter_ne.
  - rewrite decide_False by naive_solver. by rewrite list_lookup_alter_ne.
Qed.

Lemma set_map_shape maps i j m : grid_shape maps → grid_shape (set_map i j m maps).
Proof.
  intros [Hn Hp]. split; [unfold set_map; by rewrite length_alter|]. apply Forall_lookup. intros k row Hk. unfold set_map in Hk.
  rewrite list_lookup_alter in Hk. destruct (decide (i = k)) as [->|].
  - apply fmap_Some in Hk as (row' & Hrow & ->). rewrite length_alter. by apply (Forall_lookup_1 _ _ _ _ Hp Hrow).
  - by apply (Forall_lookup_1 _ _ _ _ Hp Hk).
Qed.

Lemma set_map_id maps i j pm : map_at maps i j = Some pm → set_map i j (pm_table pm) maps = maps.
Proof.
  intros Hm. unfold map_at in Hm. apply bind_Some in Hm as (row & Hrow & Hpm). unfold set_map.
  rewrite (list_alter_insert_lookup _ _ _ _ Hrow), (list_alter_insert_lookup _ _ _ _ Hpm). destruct pm. simpl.
  rewrite (list_insert_id row) by done. by apply list_insert_id.
Qed.

Lemma partition_place key :
  partition_of key / numPartitionsPerNode < numNodes ∧ partition_of key mod numPartitionsPerNode < numPartitionsPerNode ∧
  partition_of key / numPartitionsPerNode * numPartitionsPerNode + partition_of key mod numPartitionsPerNode = partition_of key.
Proof using some_partitions.
  pose proof (Z.mod_pos_bound key (Z.of_nat (numPartitionsPerNode * numNodes)) ltac:(lia)) as Hb.
  assert (partition_of key < numPartitionsPerNode * numNodes) as Hlt by (unfold partition_of; lia).
  split; [apply Nat.Div0.div_lt_upper_bound; lia|]. split; [apply Nat.mod_upper_bound; lia|].
  rewrite (Nat.div_mod_eq (partition_of key) numPartitionsPerNode) at 3. lia.
Qed.

Lemma place_unique i j i' j' :
  j < numPartitionsPerNode → j' < numPartitionsPerNode → i * numPartitionsPerNode + j = i' * numPartitionsPerNode + j' → i = i' ∧ j = j'.
Proof. intros Hj Hj' Heq. assert (i = i') as -> by nia. split; [done|lia]. Qed.

Lemma map_at_bounds maps i j pm : grid_shape maps → map_at maps i j = Some pm → i < numNodes ∧ j < numPartitionsPerNode.
Proof.
  intros [Hn Hp] Hm. unfold map_at in Hm. apply bind_Some in Hm as (row & Hrow & Hpm).
  pose proof (Forall_lookup_1 _ _ _ _ Hp Hrow) as Hlen. simpl in Hlen. apply lookup_lt_Some in Hrow, Hpm. lia.
Qed.

Lemma jtight_le n n' (m : JoinPairArray (list O)) : (n ≤ n')%Z → jtight n m → jtight n' m.
Proof. intros Hn (H1 & H2 & H3). unfold jtight. lia. Qed.

Lemma pairs_of_app id ps ps' : pairs_of id (ps ++ ps') = pairs_of id ps ++ pairs_of id ps'.
Proof. apply filter_app. Qed.

(** A row that went to its table. *)
Lemma grid_pushed maps ps n key t i j pm m :
  grid_holds maps ps → grid_tight n maps → partition_of key = i * numPartitionsPerNode + j → map_at maps i j = Some pm →
  jwf m → jtight (n + 1) m → to_multimap m = pushed (to_multimap (pm_table pm)) (jm_hash key) t →
  grid_holds (set_map i j m maps) (ps ++ [(key, t)]) ∧ grid_tight (n + 1) (set_map i j m maps).
Proof.
  intros [Hshape Hmaps] Htight Hkey Hpm Hm Ht Hmm. split; [split|].
  - by apply set_map_shape.
  - intros i' j' pm' Hpm'. rewrite map_at_set in Hpm'. rewrite pairs_of_app. unfold pairs_of at 2. rewrite filter_cons. simpl. destruct (decide (i = i' ∧ j = j')) as [[<- <-]|Hne].
    + rewrite Hpm in Hpm'. injection Hpm' as <-. destruct (Hmaps i j pm Hpm) as (? & ? & _ & Hold). simpl. split; [done|]. split; [done|]. split; [done|].
      rewrite decide_True by done. rewrite Hmm, Hold. unfold spec_pushes. by rewrite foldl_app.
    + rewrite decide_False; [rewrite app_nil_r; by apply Hmaps|]. rewrite Hkey. intros Heq.
      destruct (map_at_bounds _ _ _ _ Hshape Hpm), (map_at_bounds _ _ _ _ Hshape Hpm'). apply Hne. by apply place_unique.
  - intros i' j' pm' Hpm'. rewrite map_at_set in Hpm'. destruct (decide (i = i' ∧ j = j')) as [[<- <-]|Hne].
    + rewrite Hpm in Hpm'. by injection Hpm' as <-.
    + eapply jtight_le; [|by eapply Htight]. lia.
Qed.

(** A row that was taken back. *)
Lemma grid_same maps ps i j pm m :
  grid_holds maps ps → map_at maps i j = Some pm → jwf m → to_multimap m = to_multimap (pm_table pm) → grid_holds (set_map i j m maps) ps.
Proof.
  intros [Hshape Hmaps] Hpm Hm Hmm. split; [by apply set_map_shape|]. intros i' j' pm' Hpm'. rewrite map_at_set in Hpm'.
  destruct (decide (i = i' ∧ j = j')) as [[<- <-]|Hne]; [|by apply Hmaps]. rewrite Hpm in Hpm'. injection Hpm' as <-.
  destruct (Hmaps i j pm Hpm) as (? & ? & _ & Hold). simpl. by rewrite Hmm.
Qed.

(** ** Writing rows *)

Section rows.
Context (us : list nat) (cols : list (list (option O))) (keyp : nat) (keys : list Z) (s : store O) (partitionedJoinType : JoinType) (cur : nat).
Hypothesis by_hash : partitionedJoinType ≠ CrossProduct.
Hypothesis columns_NoDup : NoDup us.
Hypothesis columns_ok : cols_at s us cols.
Hypothesis columns_width : length us = length blank.
Hypothesis keys_ok : vectors s !! keyp = Some (Numbers keys).
Hypothesis columns_length : Forall (λ c, length c = length keys) cols.

Lemma write_partitioned_ok sp rest : ∀ i n maps ps,
  drop i keys = rest → grid_holds maps ps → grid_tight n maps → (n + Z.of_nat (length rest) ≤ max_entries)%Z → (∀ j, steady_push (rs_push (sp j))) →
  match write_partitioned blank numPartitionsPerNode numNodes partitionedJoinType cur sp keyp us i rest (PSink s maps) with
  | (Ret _, PSink s' maps') => s' = s ∧ grid_holds maps' (ps ++ rows_from blank cols i rest) ∧ grid_tight (n + Z.of_nat (length rest)) maps'
  | (NotEnoughSpace, PSink s' maps') => ∃ j, j < length rest ∧ ¬ roomy_row (sp (i + j)) ∧
      grid_holds maps' (ps ++ take j (rows_from blank cols i rest)) ∧ erased s us cols keyp keys (i + j) s'
  | _ => False
  end.
Proof using some_partitions by_hash columns_NoDup columns_ok columns_width keys_ok columns_length.
  induction rest as [|key rest IH]; intros i n maps ps Hi Hg Ht Hn Hsp.
  { simpl. rewrite Z.add_0_r, app_nil_r. by split_and!. }
  assert (keys !! i = Some key) as Hkey by (rewrite <- (Nat.add_0_r i), <- lookup_drop, Hi; done). simpl in Hn.
  destruct (partition_place key) as (Hnode & Hpart & Hplace). set (a := partition_of key / numPartitionsPerNode) in *. set (b := partition_of key mod numPartitionsPerNode) in *.
  destruct (map_at_Some maps a b (gh_shape _ _ Hg) Hnode Hpart) as [pm Hpm]. destruct (gh_maps _ _ Hg _ _ _ Hpm) as (_ & _ & Hwf & Hold).
  cbn [write_partitioned]. run. unfold row_index. rewrite decide_False by lia. rewrite decide_False by done. run. fold (partition_of key). fold a b.
  unfold in_partition at 1. cbn [pk_maps pk_heap]. rewrite Hpm.
  pose proof (write_row_ok (RS:=RS) blank us cols keyp keys s columns_NoDup columns_ok columns_width keys_ok columns_length (sp i) key i n (pm_table pm)
    Hkey Hwf (Ht _ _ _ Hpm) ltac:(slots_lia) (Hsp i)) as Hw.
  destruct (write_row _ _ _ _ _ _ _) as [[[]| | |] [s1 m1]]; try done; cbn [jk_heap jk_map].
  - destruct Hw as (-> & Hm1 & Ht1 & Hmm1). destruct (grid_pushed maps ps n key (packed blank cols i) a b pm m1 Hg Ht (eq_sym Hplace) Hpm Hm1 Ht1 Hmm1) as [Hg1 Htg1].
    specialize (IH (S i) (n + 1)%Z _ _ ltac:(rewrite <- (Nat.add_1_r i), <- drop_drop, Hi; done) Hg1 Htg1 ltac:(lia) Hsp).
    assert (rows_from blank cols i (key :: rest) = (key, packed blank cols i) :: rows_from blank cols (S i) rest) as ->.
    { unfold rows_from. simpl. rewrite Nat.add_0_r. f_equal. apply imap_ext. intros j x _. simpl. by rewrite Nat.add_succ_r. }
    destruct (write_partitioned _ _ _ _ _ _ _ _ _ _ _) as [[[]| | |] [s2 m2]]; try done.
    + destruct IH as (-> & Hg2 & Ht2). rewrite <- app_assoc in Hg2. split; [done|]. split; [done|].
      by replace (n + Z.of_nat (length (key :: rest)))%Z with (n + 1 + Z.of_nat (length rest))%Z by (simpl; lia).
    + destruct IH as (j & Hj & Hno & Hg2 & He). exists (S j). rewrite <- app_assoc in Hg2. rewrite Nat.add_succ_r in *. split; [simpl; lia|]. by split.
  - destruct Hw as (Hno & Hm1 & Hmm1 & He). exists 0. rewrite Nat.add_0_r, take_0, app_nil_r. split; [simpl; lia|]. split; [done|]. split; [|done].
    by apply grid_same with pm.
Qed.
End rows.

(** *** New tables *)

Lemma mapM_Ret {A B} (f : A → outcome B) (g : A → B) (l : list A) : (∀ x, f x = Ret (g x)) → mapM f l = Ret (g <$> l).
Proof. intros Hf. induction l as [|x l IH]; [done|]. simpl. rewrite Hf. simpl. by rewrite IH. Qed.

Lemma PartitionedJoinSink_create_ok :
  ∃ maps, PartitionedJoinSink_createNewOutputContainer numPartitionsPerNode numNodes = Ret maps ∧ grid_holds maps [] ∧ grid_tight 0 maps.
Proof using some_partitions.
  destruct (JoinMap_default_spec (V:=list O)) as (m0 & Hm0 & Hwf0 & Ht0 & Hmm0).
  set (g := λ i, (λ j, PartitionMap m0 (i * numPartitionsPerNode + j) numPartitionsPerNode) <$> seq 0 numPartitionsPerNode).
  exists (g <$> seq 0 numNodes). split; [|].
  { unfold PartitionedJoinSink_createNewOutputContainer. apply mapM_Ret. intros i. apply mapM_Ret. intros j. unfold partition_new.
    change (JoinMap_new 2) with (JoinMap_default (V:=list O)). by rewrite Hm0. }
  assert (∀ i j pm, map_at (g <$> seq 0 numNodes) i j = Some pm → pm = PartitionMap m0 (i * numPartitionsPerNode + j) numPartitionsPerNode) as Hall.
  { intros i j pm Hpm. unfold map_at in Hpm. apply bind_Some in Hpm as (row & Hrow & Hpm). apply list_lookup_fmap_Some in Hrow as (i' & -> & Hi).
    apply list_lookup_fmap_Some in Hpm as (j' & -> & Hj). apply lookup_seq in Hi, Hj. destruct Hi as [-> _], Hj as [-> _]. done. }
  split; [split|].
  - split; [by rewrite length_fmap, length_seq|]. apply Forall_fmap, Forall_true. intros i. simpl. unfold g. by rewrite length_fmap, length_seq.
  - by intros i j pm ->%Hall.
  - by intros i j pm ->%Hall.
Qed.

(** *** A tuple set *)

Context (keyAtt : nat) (useTheseAtts whereEveryoneGoes atts : list nat).
Hypothesis components : mapM (λ a, useTheseAtts !! a) whereEveryoneGoes = Some atts.

Lemma PartitionedJoinSink_writeOut_ok sp s t us cols keyp keys n maps ps partitionedJoinType cur :
  partitionedJoinType ≠ CrossProduct → sink_columns keyAtt atts s t us cols keyp keys → length atts = length blank →
  grid_holds maps ps → grid_tight n maps → (n + Z.of_nat (length keys) ≤ max_entries)%Z → (∀ i, steady_push (rs_push (sp i))) →
  match PartitionedJoinSink_writeOut blank numPartitionsPerNode numNodes keyAtt useTheseAtts whereEveryoneGoes partitionedJoinType cur sp t (PSink s maps) with
  | (Ret _, PSink s' maps') => s' = s ∧ grid_holds maps' (ps ++ rows_from blank cols 0 keys) ∧ grid_tight (n + Z.of_nat (length keys)) maps'
  | (NotEnoughSpace, PSink s' maps') => ∃ j, j < length keys ∧ ¬ roomy_row (sp j) ∧
      grid_holds maps' (ps ++ take j (rows_from blank cols 0 keys)) ∧ erased s us cols keyp keys j s'
  | _ => False
  end.
Proof using some_partitions components.
  intros Hty Hc Hlen Hg Ht Hn Hsp. destruct Hc as [Hcol Hnd Hobj [mk Hkey] Hhash Hl]. unfold PartitionedJoinSink_writeOut, pk_in_heap.
  assert (getColumn keyAtt t s = (Ret keyp, s)) as Hget by (unfold getColumn; by rewrite Hkey).
  assert (column_as numbers keyAtt t s = (Ret keys, s)) as Has by (apply (column_as_ok numbers _ _ _ (Numbers keys)); by exists (Column keyp mk)).
  rewrite (M_bind_Ret _ _ _ us (PSink s maps)) by (cbn [pk_heap pk_maps]; by rewrite (get_columns_ok useTheseAtts whereEveryoneGoes atts components _ _ _ Hcol)).
  rewrite (M_bind_Ret _ _ _ keyp (PSink s maps)) by (cbn [pk_heap pk_maps]; by rewrite Hget).
  rewrite (M_bind_Ret _ _ _ keys (PSink s maps)) by (cbn [pk_heap pk_maps]; by rewrite Has).
  apply (write_partitioned_ok us cols keyp keys s partitionedJoinType (S cur) Hty Hnd Hobj ltac:(by rewrite <- (Forall2_length _ _ _ Hcol)) Hhash Hl sp keys 0 n maps ps); done.
Qed.
End facts.

(** ** The sink of a query *)

Record partition_page {O : Type} := MkPartitionPage {
  pp_maps : list (list (partition_map O));
  pp_rows : nat;
  pp_answers : nat → row_space
}.
Arguments partition_page : clear implicits.
Arguments MkPartitionPage {O}.

Section query.
Context {RS : RecordSize} {O : Type} (blank : list O) (numPartitionsPerNode numNodes keyAtt : nat) (useTheseAtts whereEveryoneGoes : list nat)
  (partitionedJoinType : JoinType) (answers : nat → nat → row_space).
Implicit Types (s : store O) (t : tuple_set) (l : list (list (value O))).

Definition partition_create (page : nat) : outcome (partition_page O) :=
  maps ← PartitionedJoinSink_createNewOutputContainer numPartitionsPerNode numNodes; Ret (MkPartitionPage maps 0 (answers page)).

(** For joins by hash the counter of the sink has no effect. *)
Definition partition_write t (o : partition_page O) s : outcome unit * partition_page O * store O :=
  let '(r, k) := PartitionedJoinSink_writeOut blank numPartitionsPerNode numNodes keyAtt useTheseAtts whereEveryoneGoes partitionedJoinType 0
                   (λ i, pp_answers o (pp_rows o + i)) t (PSink s (pp_maps o)) in
  let length := match column_as numbers keyAtt t s with (Ret keys, _) => length keys | _ => 0 end in
  (r, MkPartitionPage (pk_maps k) (pp_rows o + length) (pp_answers o), pk_heap k).

Definition partition_ops : sink_ops O (partition_page O) := Sink partition_create partition_write.

Context (atts : list nat).
Hypothesis components : mapM (λ a, useTheseAtts !! a) whereEveryoneGoes = Some atts.

Definition partition_holds (o : partition_page O) l : Prop :=
  grid_holds numPartitionsPerNode numNodes (pp_maps o) (join_pair blank keyAtt atts <$> l).
Definition partition_open (o : partition_page O) l : Prop :=
  partition_holds o l ∧ grid_tight (Z.of_nat (length l)) (pp_maps o) ∧ pp_rows o = length l ∧
  roomy_row (pp_answers o 0) ∧ ∀ i, steady_push (rs_push (pp_answers o i)).

#[export] Instance partition_laws σ bound :
  0 < numPartitionsPerNode * numNodes → partitionedJoinType ≠ CrossProduct →
  TCEq (σ !! keyAtt) (Some TNumber) → Forall (λ a, σ !! a = Some TObject) atts → length atts = length blank → NoDup atts →
  (∀ page i, steady_push (rs_push (answers page i))) → (∀ page, roomy_row (answers page 0)) → (Z.of_nat bound ≤ max_entries)%Z →
  SinkLaws partition_ops σ true (join_sees blank keyAtt atts) partition_holds partition_open bound.
Proof using components.
  intros Hsome Hby Hkey%TCEq_eq Hσ Hlen Hnd Hsteady Hroomy Hbound. split.
  - intros s t l Hr Hd. by apply (has_rows_sees blank keyAtt atts σ); [..|apply Hd].
  - intros page. destruct (PartitionedJoinSink_create_ok (O:=O) numPartitionsPerNode numNodes Hsome) as (maps & Hm & Hg & Ht).
    exists (MkPartitionPage maps 0 (answers page)). split.
    + simpl. unfold partition_create. by rewrite Hm.
    + split; [done|]. split; [done|]. split; [done|]. split; [apply Hroomy|intros i; apply Hsteady].
  - by intros o l [Hh _].
  - intros s t o l0 l (Hg & Ht & Hrows & Hroom & Hst) (us & cols & keyp & keys & Hc & Hpairs) Hb. simpl. unfold partition_write.
    assert (length keys = length l) as Hlk by (by rewrite <- (rows_from_length blank cols), Hpairs, length_fmap).
    pose proof (PartitionedJoinSink_writeOut_ok (RS:=RS) blank numPartitionsPerNode numNodes Hsome keyAtt useTheseAtts whereEveryoneGoes atts components
      (λ i, pp_answers o (pp_rows o + i)) s t us cols keyp keys _ (pp_maps o) _ partitionedJoinType 0 Hby Hc Hlen Hg Ht ltac:(slots_lia)
      ltac:(intros i; apply Hst)) as Hw. rewrite Hpairs, <- ?fmap_app in Hw.
    destruct (PartitionedJoinSink_writeOut _ _ _ _ _ _ _ _ _ _ _) as [[[]| | |] [s' maps']]; try done.
    + destruct Hw as (-> & Hg' & Ht'). split; [done|].
      assert (column_as numbers keyAtt t s = (Ret keys, s)) as ->.
      { apply (column_as_ok numbers _ _ _ (Numbers keys)). destruct (jc_key _ _ _ _ _ _ _ _ Hc) as [mk Hk]. exists (Column keyp mk). split; [done|exact (jc_hashes _ _ _ _ _ _ _ _ Hc)]. }
      split; [exact Hg'|split; [|split; [|done]]]; simpl.
      * rewrite length_app. by replace (Z.of_nat (length l0 + length l)) with (Z.of_nat (length l0) + Z.of_nat (length keys))%Z by lia.
      * rewrite length_app. lia.
    + destruct Hw as (j & Hj & Hno & Hg' & He). exists j.
      destruct (sees_erased blank keyAtt atts s t us cols keyp keys l j s' Hc Hpairs ltac:(lia) He) as [Hsees Htypes].
      split; [lia|]. split; [done|]. split; [done|]. split.
      * by rewrite <- fmap_take, <- fmap_app in Hg'.
      * intros ->. simpl in Hrows. rewrite Hrows in Hno. destruct j; [|lia]. by destruct Hno.
Qed.
End query.
