(* ===== verification/JoinMerge.v ===== *)
(** * JoinMerge: merging hash-join tables

    Models [JoinSinkMerger] of [lambdas/headers/JoinTuple.h] and its callers in
    [serverFunctionalities/source/HermesExecutionServer.cc].  A table is read as
    the list of its [groups], the hashes in the order of [JoinMapIterator] with
    their tuples.  [writeOut], for broadcast joins, never throws: when a tuple
    does not fit it prints that the results are truncated and returns, and keeps
    the position at which it stopped; its next call, for another table, starts
    at that position.  [writeVectorOut], for partitioned joins, stops the process
    instead. *)

From stdpp Require Import sorting.
From S2P Require Import Prelude.
From S2P Require Import HashProbe.
From S2P Require Import PairArray.
From S2P Require Import JoinPairArray.
From S2P Require Import JoinMapPush.
From S2P Require Import JoinProbe.
From S2P Require Import JoinSink.

(** The fields of a merger. *)
Record merger := Merger {
  numHashKeys : Z;
  mapIndex : nat;
  listIndex : nat
}.

(** A merger at work: its fields, and the table [mergeToMe]. *)
Record merging {O : Type} := Merging {
  mg_state : merger;
  mg_map : JoinPairArray (list O)
}.
Arguments merging : clear implicits.
Arguments Merging {O}.

Section merge.
Context {RS : RecordSize} {O : Type} (blank : list O).
Local Abbreviation table := (JoinPairArray (list O)).
Local Abbreviation M := (M (merging O)).

Definition mg_in_map {A} (m : Prelude.M table A) : M A := λ g,
  let '(r, jp) := m (mg_map g) in (r, Merging (mg_state g) jp).
Definition mg_update (f : merger → merger) : M unit := modify (λ g, Merging (f (mg_state g)) (mg_map g)).

(** [packData]: component by component from [whichVec] on. *)
Fixpoint packData (fits : nat → bool) (r : jref) (whichVec : nat) (data : list O) : Prelude.M table unit :=
  match data with
  | [] => mret tt
  | myData :: myOtherData =>
      (if fits whichVec then set_component r whichVec myData else lift NotEnoughSpace) ;;
      packData fits r (S whichVec) myOtherData
  end.

Definition merge_value (sp : row_space) (myHash : Z) (data : list O) : Prelude.M table unit :=
  temp ← JoinMap_push blank (rs_push sp) myHash; packData (rs_pack sp) temp 0 data.

(** The values of one list from [i] on; the position of the first that does not
    fit, if there is one. *)
Fixpoint merge_list (sp : nat → row_space) (theOtherMap : table) (myList : nat) (myHash : Z) (i todo : nat) : Prelude.M table (option nat) :=
  match todo with
  | 0 => mret None
  | S todo' =>
      data ← lift (record_at theOtherMap myList i);
      ok ← catch (merge_value (sp i) myHash data ;; mret true) (mret false);
      if ok : bool then merge_list sp theOtherMap myList myHash (S i) todo' else mret (Some i)
  end.

(** The loop over a table, [counter] lists behind its beginning; false if it was
    left by [stop], the handler. *)
Fixpoint merge_map (stop : Z → nat → nat → M unit) (sp : nat → nat → row_space) (theOtherMap : table) (fuel : nat) (iter : jiterator) (counter : nat) : M bool :=
  match fuel with
  | 0 => lift Undefined
  | S fuel' =>
      if jiter_ne iter jiter_end then
        g ← get;
        if decide (counter < mapIndex (mg_state g)) then merge_map stop sp theOtherMap fuel' (jiter_next iter) (S counter)
        else
          let undefined {A} (o : option A) : M A := lift (match o with Some a => Ret a | None => Undefined end) in
          myList ← undefined (jiter_deref iter);
          mySize ← undefined (rl_size theOtherMap myList);
          myHash ← undefined (rl_getHash theOtherMap myList);
          if decide (0 < mySize) then
            mg_update (λ g, Merger (numHashKeys g + 1) (mapIndex g) (listIndex g)) ;;
            let i := listIndex (mg_state g) in
            stopped ← mg_in_map (merge_list (sp counter) theOtherMap myList myHash i (mySize - i));
            match stopped with
            | Some i => stop myHash counter i ;; mret false
            | None =>
                mg_update (λ g, Merger (numHashKeys g) (mapIndex g) 0) ;;
                merge_map stop sp theOtherMap fuel' (jiter_next iter) (S counter)
            end
          else merge_map stop sp theOtherMap fuel' (jiter_next iter) (S counter)
      else mret true
  end.

Definition merge_fuel (theOtherMap : table) : nat := S (length (j_data theOtherMap)).
Definition reset_mapIndex : M unit := mg_update (λ g, Merger (numHashKeys g) 0 (listIndex g)).

Definition stop_at (counter i : nat) : M unit := mg_update (λ g, Merger (numHashKeys g) counter i).

Definition JoinSinkMerger_writeOut (sp : nat → nat → row_space) (theOtherMap : table) : M unit :=
  finished ← merge_map (λ _, stop_at) sp theOtherMap (merge_fuel theOtherMap) (jiter_begin theOtherMap) 0;
  if finished : bool then reset_mapIndex else mret tt.

Definition stop_process (myHash : Z) (counter i : nat) : M unit :=
  mg_in_map (JoinMap_setUnused myHash) ;; stop_at counter i ;; lift (Exit 1).

(** The tables come with their partition ids; those of other partitions are
    passed over. *)
Fixpoint JoinSinkMerger_writeVectorOut (partitionId : nat) (sp : nat → nat → nat → row_space) (theOtherMaps : list (nat * table)) : M unit :=
  match theOtherMaps with
  | [] => mret tt
  | (id, theOtherMap) :: rest =>
      (if decide (id = partitionId) then
         merge_map stop_process (sp 0) theOtherMap (merge_fuel theOtherMap) (jiter_begin theOtherMap) 0 ;; reset_mapIndex
       else mret tt) ;;
      JoinSinkMerger_writeVectorOut partitionId (λ n, sp (S n)) rest
  end.

(** The loop of a job stage over the records of its pages. *)
Fixpoint merge_all (sp : nat → nat → nat → row_space) (maps : list table) : M unit :=
  match maps with
  | [] => mret tt
  | theOtherMap :: maps' => JoinSinkMerger_writeOut (sp 0) theOtherMap ;; merge_all (λ n, sp (S n)) maps'
  end.

Definition JoinSinkMerger_createNewOutputContainer : outcome table := JoinMap_default.
End merge.

(** ** What a merge adds *)

(** The lists of a table in the order of its iterator, with their hashes. *)
Definition order {O} (jp : JoinPairArray (list O)) : list (nat * Z) := merge_sort ji_le (used_slots 0 (j_data jp)).
Definition groups {O} (jp : JoinPairArray (list O)) : list (Z * list (list O)) :=
  (λ ih, (ih.2, default [] (to_multimap jp !! ih.2))) <$> order jp.

(** The groups from index [k] on, the first of them without its first [li] tuples. *)
Fixpoint skip {A} (k li : nat) (gs : list (Z * list A)) {struct gs} : list (Z * list A) :=
  match gs with
  | [] => []
  | g :: gs' => match k with S k' => skip k' li gs' | 0 => (g.1, drop li g.2) :: gs' end
  end.

Definition group_pairs {A} (g : Z * list A) : list (Z * A) := (g.1,.) <$> g.2.
Definition pairs {A} (gs : list (Z * list A)) : list (Z * A) := concat (group_pairs <$> gs).

Section facts.
Context {RS : RecordSize} {O : Type} (blank : list O).
Local Abbreviation table := (JoinPairArray (list O)).
Implicit Types (jp m p : table) (t : list O) (vs : list (list O)) (gs : list (Z * list (list O))).

Lemma skip_0 {A} (gs : list (Z * list A)) : skip 0 0 gs = gs.
Proof. by destruct gs as [|[h vs] gs]. Qed.

Lemma pairs_cons {A} h (l : list A) (gs : list (Z * list A)) : pairs ((h, l) :: gs) = ((h,.) <$> l) ++ pairs gs.
Proof. done. Qed.

Lemma jsetUnused_returns me jp : jwf jp → ∃ jp', JoinMap_setUnused me jp = (Ret tt, jp').
Proof.
  intros [Hwf Ho]. unfold JoinMap_setUnused, jsetUnused. destruct (jslot_dec jp (jm_hash me)) as [(i & s & Hs & Hh)|Hno].
  - assert (js_unused s = false) as Hu by (apply js_unused_false; rewrite Hh; apply jm_hash_used).
    rewrite (jfind_hit jp me i s Hwf Hs Hh), Hs. destruct (Z.eqb_spec (js_next s) UINT32_MAX) as [|Hn]; [by eexists|].
    pose proof (jwo_next _ _ Ho _ _ Hs Hu Hn). destruct (lookup_lt_is_Some_2 (j_overflows jp) (Z.to_nat (js_next s)) ltac:(lia)) as [l Hl].
    rewrite Hl. destruct l; by eexists.
  - destruct (jfind_miss jp me Hwf Hno) as (i & s & Hf & _). rewrite Hf. by eexists.
Qed.

(** A list that the iterator comes to. *)
Lemma order_group jp i h :
  jwf jp → (i, h) ∈ order jp →
  let vs := default [] (to_multimap jp !! h) in
  rl_getHash jp i = Some h ∧ rl_size jp i = Some (length vs) ∧ (∀ k t, vs !! k = Some t → rl_at jp i k = Some t) ∧ vs ≠ [].
Proof.
  intros Hjp (s & Hs & Hu & ->)%jiter_begin_order vs. pose proof (jm_hash_slot s Hu) as Hh.
  destruct (jlookup_spec jp (js_hash s) Hjp) as (i' & Hi & Hsz & Hat & _). unfold jlookup in Hi.
  rewrite (jfind_hit jp (js_hash s) i s (proj1 Hjp) Hs ltac:(by rewrite Hh)) in Hi. injection Hi as <-. rewrite Hh in Hsz, Hat.
  unfold rl_getHash. rewrite Hs. split_and!; try done. unfold vs.
  destruct (to_multimap jp !! js_hash s) as [l|] eqn:Hl; [simpl; by eapply to_multimap_nonempty|].
  destruct (proj2 (jmap_keys jp (js_hash s) Hjp)) as [l' Hl']; [by exists i, s|congruence].
Qed.

Lemma spec_pushes_app mm (l l' : list (Z * list O)) : spec_pushes mm (l ++ l') = spec_pushes (spec_pushes mm l) l'.
Proof. apply foldl_app. Qed.

Lemma packData_ok fits r m data : ∀ k t,
  jref_ok m r → k + length data = length t →
  match packData fits r k data (jwrite r t m).2 with
  | (Ret _, p) => p = (jwrite r (take k t ++ data) m).2
  | (NotEnoughSpace, p) => (∃ j, fits j = false) ∧ ∃ t', p = (jwrite r t' m).2
  | _ => False
  end.
Proof.
  induction data as [|x data IH]; intros k t Hr Hk.
  { simpl in *. rewrite app_nil_r, take_ge by lia. done. }
  simpl in Hk. cbn [packData]. run. destruct (fits k) eqn:Hf; run; [|split; [by exists k|by exists t]].
  rewrite set_component_ok by done. specialize (IH (S k) (<[k := x]> t) Hr ltac:(rewrite length_insert; lia)).
  replace (take k t ++ x :: data) with (take (S k) (<[k:=x]> t) ++ data); [done|].
  rewrite (take_S_r _ _ x) by (apply list_lookup_insert_eq; lia). by rewrite take_insert_ge, <- app_assoc.
Qed.

Definition unfinished (h : Z) (mm mm' : gmap Z (list (list O))) : Prop :=
  mm' = mm ∨ ∃ t, mm' = pushed mm (jm_hash h) t.

Lemma merge_value_ok sp h data m n :
  jwf m → jtight n m → (n < max_entries)%Z → length data = length blank →
  match merge_value blank sp h data m with
  | (Ret _, p) => jwf p ∧ jtight (n + 1) p ∧ to_multimap p = pushed (to_multimap m) (jm_hash h) data
  | (NotEnoughSpace, p) => ¬ roomy_row sp ∧ jwf p ∧ unfinished h (to_multimap m) (to_multimap p)
  | _ => False
  end.
Proof.
  intros Hm Ht Hn Hlen. unfold merge_value. run. pose proof (JoinMap_push_facts blank (rs_push sp) h m n Hm Ht Hn) as Hp.
  destruct (JoinMap_push _ _ _ _) as [[r| | |] p]; try done.
  - destruct Hp as [Hr Hall]. pose proof (packData_ok (rs_pack sp) r p data 0 blank ltac:(unfold jref_ok; by rewrite Hr) ltac:(simpl; lia)) as Hk.
    rewrite (jwrite_same p r blank Hr) in Hk. destruct (packData _ _ _ _ _) as [[[]| | |] p']; try done.
    + simpl in Hk. subst p'. by destruct (Hall data) as (? & ? & ? & _).
    + destruct Hk as [[j Hj] [t ->]]. destruct (Hall t) as (? & _ & ? & _). split; [intros [_ Hf]; by rewrite Hf in Hj|].
      split; [done|]. right. by exists t.
  - destruct Hp as (Hno & ? & ? & _). split; [intros [Hf _]; by apply Hno|]. split; [done|]. by left.
Qed.

(** One list: all of its tuples, or up to the first that does not fit. *)
Lemma merge_list_ok sp other a h vs todo : ∀ i m n,
  (∀ k t, vs !! k = Some t → rl_at other a k = Some t) → Forall (λ t, length t = length blank) vs →
  todo = length vs - i → jwf m → jtight n m → (n + Z.of_nat todo ≤ max_entries)%Z →
  match merge_list blank sp other a h i todo m with
  | (Ret None, p) => jwf p ∧ jtight (n + Z.of_nat todo) p ∧ to_multimap p = spec_pushes (to_multimap m) ((h,.) <$> drop i vs)
  | (Ret (Some j), p) => i ≤ j < length vs ∧ ¬ roomy_row (sp j) ∧ jwf p ∧
      unfinished h (spec_pushes (to_multimap m) ((h,.) <$> take (j - i) (drop i vs))) (to_multimap p)
  | _ => False
  end.
Proof.
  induction todo as [|todo IH]; intros i m n Hat Hlen Htodo Hm Ht Hn.
  { simpl. rewrite drop_ge by lia. by rewrite Z.add_0_r. }
  destruct (lookup_lt_is_Some_2 vs i ltac:(lia)) as [t Hi]. cbn [merge_list]. run. unfold record_at. rewrite (Hat i t Hi). run.
  pose proof (merge_value_ok (sp i) h t m n Hm Ht ltac:(lia) (Forall_lookup_1 _ _ _ _ Hlen Hi)) as Hv.
  unfold catch. run. destruct (merge_value blank (sp i) h t m) as [[[]| | |] p]; try done; run.
  - destruct Hv as (Hp & Htp & Hmm). specialize (IH (S i) p (n + 1)%Z Hat Hlen ltac:(lia) Hp Htp ltac:(lia)).
    rewrite (drop_S _ _ _ Hi). simpl. destruct (merge_list _ _ _ _ _ _ _ _) as [[[j|]| | |] q]; try done.
    + destruct IH as (Hj & Hno & Hq & Hu). split; [lia|]. split; [done|]. split; [done|]. rewrite Hmm in Hu.
      replace (j - i) with (S (j - S i)) by lia. done.
    + destruct IH as (Hq & Htq & Hmq). split; [done|]. split; [by replace (n + Z.of_nat (S todo))%Z with (n + 1 + Z.of_nat todo)%Z by lia|].
      by rewrite Hmq, Hmm.
  - destruct Hv as (Hno & Hp & Hu). split; [lia|]. split; [done|]. split; [done|]. by rewrite Nat.sub_diag.
Qed.

(** The iterator at a position. *)
Definition iterator_at jp (pos : nat) : jiterator := JIterator (order jp) pos (bool_decide (pos = length (order jp))).

Lemma begin_at jp : jiter_begin jp = iterator_at jp 0.
Proof. unfold jiter_begin, iterator_at. fold (order jp). f_equal. apply bool_decide_ext. by destruct (order jp). Qed.

Lemma next_at jp pos : pos < length (order jp) → jiter_ne (iterator_at jp pos) jiter_end = true ∧ jiter_next (iterator_at jp pos) = iterator_at jp (S pos).
Proof.
  intros Hpos. unfold iterator_at, jiter_ne, jiter_next. simpl. rewrite bool_decide_false by lia. done.
Qed.

Lemma deref_at jp pos : jiter_deref (iterator_at jp pos) = fst <$> order jp !! pos.
Proof. done. Qed.

Lemma mg_update_bind {A} f (k : unit → Prelude.M (merging O) A) st m : (mg_update f ≫= k) (Merging st m) = k tt (Merging (f st) m).
Proof. done. Qed.

Lemma mg_in_map_bind {A B} (m : Prelude.M table A) (k : A → Prelude.M (merging O) B) st p :
  (mg_in_map m ≫= k) (Merging st p) =
  match m p with
  | (Ret a, p') => k a (Merging st p')
  | (NotEnoughSpace, p') => (NotEnoughSpace, Merging st p')
  | (Exit c, p') => (Exit c, Merging st p')
  | (Undefined, p') => (Undefined, Merging st p')
  end.
Proof. rewrite M_bind_unfold. unfold mg_in_map. simpl. by destruct (m p) as [[a| | |] p']. Qed.

Lemma groups_length jp : length (groups jp) = length (order jp).
Proof. apply length_fmap. Qed.

Definition widths jp : Prop := ∀ h t, t ∈ default [] (to_multimap jp !! h) → length t = length blank.

Section loop.
Context (stop : Z → nat → nat → Prelude.M (merging O) unit) (sp : nat → nat → row_space) (other : table).
Hypothesis other_ok : jwf other.
Hypothesis other_widths : widths other.

(** The handler was called for the tuple that the rest begins with. *)
Definition stopped_at (pos : nat) (st : merger) gs m (res : outcome bool * merging O) : Prop :=
  ∃ c j h nk li finished p, res = (stop h c j ;; mret false) (Merging (Merger nk (mapIndex st) li) p) ∧
    pos ≤ c ∧ ¬ roomy_row (sp c j) ∧ pairs gs = finished ++ pairs (skip (c - pos) j (drop pos (groups other))) ∧
    length finished < length (pairs gs) ∧ jwf p ∧ unfinished h (spec_pushes (to_multimap m) finished) (to_multimap p).

Definition finished_map n (st : merger) gs m (res : outcome bool * merging O) : Prop :=
  ∃ p, res = (Ret true, Merging (Merger (numHashKeys st + Z.of_nat (length gs)) (mapIndex st) (if gs is [] then listIndex st else 0)) p) ∧
    jwf p ∧ jtight (n + Z.of_nat (length (pairs gs))) p ∧ to_multimap p = spec_pushes (to_multimap m) (pairs gs).

Lemma merge_map_ok fuel : ∀ pos st m n,
  pos ≤ length (order other) → length (order other) - pos < fuel →
  let gs := skip (mapIndex st - pos) (listIndex st) (drop pos (groups other)) in
  jwf m → jtight n m → (n + Z.of_nat (length (pairs gs)) ≤ max_entries)%Z →
  let res := merge_map blank stop sp other fuel (iterator_at other pos) pos (Merging st m) in
  finished_map n st gs m res ∨ stopped_at pos st gs m res.
Proof using other_ok other_widths.
  induction fuel as [|fuel IH]; intros pos st m n Hpos Hfuel gs Hm Ht Hn res; [lia|]. subst res gs. cbn [merge_map].
  destruct (decide (pos = length (order other))) as [->|Hne].
  { left. unfold jiter_ne, iterator_at. simpl. rewrite bool_decide_true by done. simpl. rewrite drop_ge by by rewrite groups_length.
    destruct (mapIndex st - _); simpl; (exists m; rewrite !Z.add_0_r; split; [by destruct st|]; by split_and!). }
  destruct (next_at other pos ltac:(lia)) as [-> Hnext]. run. rewrite Hnext.
  destruct (lookup_lt_is_Some_2 (order other) pos ltac:(lia)) as [[i h] Hi].
  set (vs := default [] (to_multimap other !! h)).
  assert (drop pos (groups other) = (h, vs) :: drop (S pos) (groups other)) as Hdrop.
  { apply drop_S. unfold groups. rewrite list_lookup_fmap, Hi. done. }
  rewrite Hdrop in *. cbn [mg_state]. destruct (decide (pos < mapIndex st)) as [Hlt|Hge].
  - replace (mapIndex st - pos) with (S (mapIndex st - S pos)) in * by lia. cbn [skip] in *.
    destruct (IH (S pos) st m n ltac:(lia) ltac:(lia) Hm Ht Hn) as [Hf|Hs]; [by left|right].
    destruct Hs as (c & j & h' & nk & li & fin & p & Hres & Hc & Hrest). exists c, j, h', nk, li, fin, p. split; [done|]. split; [lia|].
    replace (c - pos) with (S (c - S pos)) by lia. rewrite Hdrop. exact Hrest.
  - replace (mapIndex st - pos) with 0 in * by lia. cbn [skip] in *.
    destruct (order_group other i h other_ok ltac:(by eapply list_elem_of_lookup_2)) as (Hhash & Hsize & Hat & Hvs). fold vs in Hsize, Hat, Hvs.
    rewrite deref_at, Hi. cbn [fmap option_fmap option_map fst]. run. rewrite Hsize. run. rewrite Hhash. run.
    rewrite decide_True by (destruct vs; [done|simpl; lia]). rewrite mg_update_bind. cbn [mg_state mg_map].
    cbn [fst snd] in *. rewrite pairs_cons, length_app, length_fmap, length_drop in Hn.
    pose proof (merge_list_ok (sp pos) other i h vs (length vs - listIndex st) (listIndex st) m n Hat) as Hl.
    lapply Hl; clear Hl; [intros Hl|by apply Forall_forall, other_widths].
    specialize (Hl eq_refl Hm Ht ltac:(lia)). rewrite mg_in_map_bind.
    destruct (merge_list _ _ _ _ _ _ _ _) as [[[j|]| | |] p]; try done.
    + right. destruct Hl as (Hj & Hno & Hp & Hu). exists pos, j, h, (numHashKeys st + 1)%Z, (listIndex st), ((h,.) <$> take (j - listIndex st) (drop (listIndex st) vs)), p.
      split; [done|]. split; [lia|]. split; [done|]. rewrite Nat.sub_diag, Hdrop. cbn [skip fst snd]. rewrite !pairs_cons.
      split; [|split; [|by split]].
      * rewrite app_assoc. f_equal. rewrite <- fmap_app. f_equal.
        replace (drop j vs) with (drop (j - listIndex st) (drop (listIndex st) vs)); [by rewrite take_drop|]. rewrite drop_drop. f_equal. lia.
      * rewrite length_app, !length_fmap, length_take, length_drop. lia.
    + destruct Hl as (Hp & Htp & Hmm). rewrite mg_update_bind. cbn [numHashKeys mapIndex].
      set (st' := Merger (numHashKeys st + 1) (mapIndex st) 0).
      specialize (IH (S pos) st' p (n + Z.of_nat (length vs - listIndex st))%Z ltac:(lia) ltac:(lia)). cbn [mapIndex listIndex st'] in IH.
      replace (mapIndex st - S pos) with 0 in IH by lia. rewrite skip_0 in IH. specialize (IH Hp Htp).
      destruct (IH ltac:(lia)) as [Hf|Hs].
      * left. destruct Hf as (q & Hq & Hwf & Htq & Hmq). exists q. split.
        { rewrite Hq. cbn [numHashKeys mapIndex listIndex st' length]. do 3 f_equal; [lia|]. by destruct (drop (S pos) (groups other)). }
        split; [done|]. rewrite pairs_cons. split.
        { rewrite length_app, length_fmap, length_drop, Nat2Z.inj_add, Z.add_assoc. exact Htq. }
        rewrite spec_pushes_app. by rewrite Hmq, Hmm.
      * right. destruct Hs as (c & j & h' & nk & li & fin & q & Hres & Hc & Hno & Hsplit & Hlt & Hq & Hu).
        exists c, j, h', nk, li, (((h,.) <$> drop (listIndex st) vs) ++ fin), q. split; [done|]. split; [lia|]. split; [done|].
        replace (c - pos) with (S (c - S pos)) by lia. rewrite Hdrop. cbn [skip]. rewrite pairs_cons.
        split; [by rewrite <- app_assoc, <- Hsplit|]. split; [rewrite !length_app; lia|]. split; [done|]. by rewrite spec_pushes_app, <- Hmm.
Qed.
End loop.

(** ** The lists of a table *)

Lemma order_keys jp : jwf jp → NoDup (order jp).*2 ∧ (∀ h, h ∈ (order jp).*2 ↔ is_Some (to_multimap jp !! h)) ∧ ∀ h, h ∈ (order jp).*2 → jm_hash h = h.
Proof.
  intros Hjp. pose proof (merge_sort_Permutation ji_le (used_slots 0 (j_data jp))) as Hperm. fold (order jp) in Hperm.
  assert (∀ h, h ∈ (order jp).*2 ↔ ∃ i s, j_data jp !! i = Some s ∧ js_unused s = false ∧ h = js_hash s) as Hin.
  { intros h. rewrite Hperm. split.
    - intros ([i h'] & -> & (j & s & Hs & Hu & _ & ->)%elem_of_used_slots)%list_elem_of_fmap. eauto.
    - intros (i & s & Hs & Hu & ->). apply list_elem_of_fmap. exists (i, js_hash s). split; [done|]. apply elem_of_used_slots. by exists i, s. }
  split; [rewrite Hperm; by apply jused_slots_NoDup, Hjp|]. split.
  - intros h. rewrite Hin. by rewrite jmap_keys.
  - intros h (i & s & _ & Hu & ->)%Hin. by apply jm_hash_slot.
Qed.

Lemma concat_at {A} (f : Z → list A) (ks : list Z) (x : Z) :
  NoDup ks → (x ∉ ks → f x = []) → concat ((λ k, if decide (k = x) then f k else []) <$> ks) = f x.
Proof.
  induction 1 as [|k ks Hk _ IH]; intros Hno; [symmetry; apply Hno; by intros ?%elem_of_nil|]. simpl. destruct (decide (k = x)) as [->|Hne].
  - rewrite (proj2 (concat_nil_Forall _)); [apply app_nil_r|]. apply Forall_fmap, Forall_forall. intros k' Hk'. simpl.
    rewrite decide_False; [done|]. by intros ->.
  - apply IH. intros Hx. apply Hno. intros [->|]%elem_of_cons; done.
Qed.

Lemma values_under_concat h (ls : list (list (Z * list O))) : values_under h (concat ls) = concat (values_under h <$> ls).
Proof. unfold values_under. induction ls as [|l ls IH]; [done|]. simpl. rewrite filter_app, fmap_app. f_equal. exact IH. Qed.

(** Under every hash the pairs of a table have the tuples of the table. *)
Lemma values_under_table h jp : jwf jp → values_under h (pairs (groups jp)) = matches_in jp h.
Proof.
  intros Hjp. destruct (order_keys jp Hjp) as (Hnd & Hkeys & Hhash). unfold pairs. rewrite values_under_concat.
  set (f := λ k, default [] (to_multimap jp !! k)).
  assert ((values_under h <$> (group_pairs <$> groups jp)) = (λ k, if decide (k = jm_hash h) then f k else []) <$> (order jp).*2) as ->.
  { unfold groups. rewrite <- !list_fmap_compose. apply list_fmap_ext. intros i [j k] Hi. simpl. unfold values_under, group_pairs. simpl.
    assert (jm_hash k = k) as Hk by (apply Hhash, list_elem_of_fmap; exists (j, k); split; [done|by eapply list_elem_of_lookup_2]).
    change (default [] (to_multimap jp !! k)) with (f k). induction (f k) as [|t l IHl]; simpl.
    { by destruct (decide _). }
    rewrite filter_cons. simpl. rewrite Hk in *. destruct (decide (k = jm_hash h)); [simpl; by f_equal|done]. }
  rewrite concat_at; [done|done|]. intros Hno. unfold f. destruct (to_multimap jp !! jm_hash h) as [l|] eqn:Hl; [|done].
  destruct Hno. apply Hkeys. by eexists.
Qed.

(** ** The number of tuples *)

Definition msize (mm : gmap Z (list (list O))) : nat := sum_list ((λ hl, length hl.2) <$> map_to_list mm).

Lemma sum_list_Permutation (l l' : list nat) : l ≡ₚ l' → sum_list l = sum_list l'.
Proof. induction 1; simpl in *; lia. Qed.

Lemma msize_insert mm h l : mm !! h = None → msize (<[h := l]> mm) = length l + msize mm.
Proof.
  intros Hh. unfold msize. by rewrite (sum_list_Permutation _ _ (fmap_Permutation _ _ _ (map_to_list_insert mm h l Hh))).
Qed.

Lemma msize_pushed mm h t : msize (pushed mm h t) = S (msize mm).
Proof.
  unfold pushed. destruct (mm !! h) as [l|] eqn:Hl; simpl.
  - rewrite <- (insert_id mm h l Hl) at 2. rewrite <- !(insert_delete_eq mm).
    rewrite !msize_insert by apply lookup_delete_eq. rewrite length_app. simpl. lia.
  - by rewrite msize_insert.
Qed.

Lemma msize_spec_pushes ps : ∀ mm, msize (spec_pushes mm ps) = length ps + msize mm.
Proof.
  induction ps as [|[h t] ps IH]; intros mm; [done|]. unfold spec_pushes in *. simpl. rewrite IH, msize_pushed. lia.
Qed.

Lemma groups_size jp : jwf jp → length (pairs (groups jp)) = msize (to_multimap jp).
Proof.
  intros Hjp. destruct (order_keys jp Hjp) as (Hnd & Hkeys & _).
  assert (groups jp ≡ₚ map_to_list (to_multimap jp)) as Hperm.
  { apply NoDup_Permutation.
    - unfold groups. apply (NoDup_fmap_1 fst). rewrite <- list_fmap_compose. exact Hnd.
    - apply NoDup_map_to_list.
    - intros [h l]. rewrite elem_of_map_to_list. unfold groups. rewrite list_elem_of_fmap. split.
      + intros ([i h'] & [= -> ->] & Hin). simpl. assert (h' ∈ (order jp).*2) as Hk by (apply list_elem_of_fmap; by exists (i, h')).
        by destruct (proj1 (Hkeys h') Hk) as [l ->].
      + intros Hl. destruct (proj1 (list_elem_of_fmap _ _ _) (proj2 (Hkeys h) ltac:(by eexists))) as ([i h'] & -> & Hin).
        exists (i, h'). simpl in *. by rewrite Hl. }
  unfold msize. rewrite <- (sum_list_Permutation _ _ (fmap_Permutation _ _ _ Hperm)).
  clear. induction (groups jp) as [|[h vs] gs IH]; [done|]. rewrite pairs_cons, length_app, length_fmap, IH. done.
Qed.

Lemma held_size jp ps : jwf jp → to_multimap jp = spec_pushes ∅ ps → length (pairs (groups jp)) = length ps.
Proof. intros Hjp Hm. rewrite groups_size, Hm, msize_spec_pushes by done. unfold msize. rewrite map_to_list_empty. simpl. lia. Qed.

(** ** Whole tables *)

Lemma fuel_enough jp : jwf jp → length (order jp) - 0 < merge_fuel jp.
Proof.
  intros _. unfold merge_fuel, order. rewrite merge_sort_Permutation. pose proof (length_used_slots 0 (j_data jp)). lia.
Qed.

Lemma merge_map_all stop sp other st m n :
  jwf other → widths other → jwf m → jtight n m →
  let gs := skip (mapIndex st) (listIndex st) (groups other) in
  (n + Z.of_nat (length (pairs gs)) ≤ max_entries)%Z →
  let res := merge_map blank stop sp other (merge_fuel other) (jiter_begin other) 0 (Merging st m) in
  finished_map n st gs m res ∨ stopped_at stop sp other 0 st gs m res.
Proof.
  intros Ho Hw Hm Ht gs Hn res. subst res gs. rewrite begin_at.
  pose proof (merge_map_ok stop sp other Ho Hw (merge_fuel other) 0 st m n ltac:(lia) (fuel_enough _ Ho)) as H.
  rewrite Nat.sub_0_r, drop_0 in H. by apply H.
Qed.

(** One [writeOut], from the position that the merger has kept. *)
Lemma writeOut_ok sp other st m n :
  jwf other → widths other → jwf m → jtight n m →
  let gs := skip (mapIndex st) (listIndex st) (groups other) in
  (n + Z.of_nat (length (pairs gs)) ≤ max_entries)%Z →
  ∃ st' m', JoinSinkMerger_writeOut blank sp other (Merging st m) = (Ret tt, Merging st' m') ∧ jwf m' ∧
    ((mapIndex st' = 0 ∧ listIndex st' = (if gs is [] then listIndex st else 0) ∧
      jtight (n + Z.of_nat (length (pairs gs))) m' ∧ to_multimap m' = spec_pushes (to_multimap m) (pairs gs)) ∨
     (¬ roomy_row (sp (mapIndex st') (listIndex st')) ∧ ∃ h finished,
      pairs gs = finished ++ pairs (skip (mapIndex st') (listIndex st') (groups other)) ∧ length finished < length (pairs gs) ∧
      unfinished h (spec_pushes (to_multimap m) finished) (to_multimap m'))).
Proof.
  intros Ho Hw Hm Ht gs Hn. unfold JoinSinkMerger_writeOut.
  destruct (merge_map_all (λ _, stop_at) sp other st m n Ho Hw Hm Ht Hn) as [(p & Hres & Hp & Htp & Hmm)|Hs].
  - rewrite (M_bind_Ret _ _ _ _ _ Hres). eexists _, p. split; [done|]. split; [done|]. left. by split_and!.
  - destruct Hs as (c & j & h & nk & li & fin & p & Hres & _ & Hno & Hsplit & Hlt & Hp & Hu). rewrite Nat.sub_0_r, drop_0 in Hsplit.
    rewrite (M_bind_Ret _ _ _ _ _ Hres). eexists _, p. split; [done|]. split; [done|]. right. simpl. split; [done|]. by exists h, fin.
Qed.

Definition tuples_in (maps : list table) : list (Z * list O) := concat ((λ jp, pairs (groups jp)) <$> maps).

(** With room for every tuple the merged table has all of them. *)
Lemma merge_all_ok maps : ∀ sp nk m n,
  Forall jwf maps → Forall widths maps → jwf m → jtight n m → (∀ i c j, roomy_row (sp i c j)) →
  (n + Z.of_nat (length (tuples_in maps)) ≤ max_entries)%Z →
  ∃ nk' m', merge_all blank sp maps (Merging (Merger nk 0 0) m) = (Ret tt, Merging (Merger nk' 0 0) m') ∧ jwf m' ∧
    to_multimap m' = spec_pushes (to_multimap m) (tuples_in maps).
Proof.
  induction maps as [|other maps IH]; intros sp nk m n Ho Hw Hm Ht Hroom Hn.
  { exists nk, m. by split_and!. }
  apply Forall_cons in Ho as [Ho Hos]. apply Forall_cons in Hw as [Hw Hws]. unfold tuples_in in *. rewrite fmap_cons in *. cbn [concat] in *. rewrite length_app in Hn.
  cbn [merge_all]. destruct (writeOut_ok (sp 0) other (Merger nk 0 0) m n Ho Hw Hm Ht) as (st' & m1 & Hrun & Hm1 & Hor).
  { cbn [mapIndex listIndex]. rewrite skip_0. lia. }
  cbn [mapIndex listIndex] in Hor. rewrite skip_0 in Hor. rewrite (M_bind_Ret _ _ _ _ _ Hrun).
  destruct Hor as [(Hmi & Hli & Htp & Hmm)|[Hno _]]; [|by destruct Hno].
  destruct st' as [nk1 mi li]. simpl in Hmi, Hli. subst mi. assert (li = 0) as -> by (by destruct (groups other)).
  destruct (IH (λ n, sp (S n)) nk1 m1 _ Hos Hws Hm1 Htp (λ i c j, Hroom (S i) c j) ltac:(lia)) as (nk' & m' & Hrun' & Hm' & Hmm').
  exists nk', m'. split; [exact Hrun'|]. split; [done|]. by rewrite Hmm', Hmm, spec_pushes_app.
Qed.

(** Partitioned joins: all tuples of the partition, or the process stops. *)
Definition of_partition (partitionId : nat) (maps : list (nat * table)) : list table := (filter (λ im, im.1 = partitionId) maps).*2.

Lemma writeVectorOut_ok partitionId maps : ∀ sp nk m n,
  Forall (λ im, jwf im.2 ∧ widths im.2) maps → jwf m → jtight n m →
  (n + Z.of_nat (length (tuples_in (of_partition partitionId maps))) ≤ max_entries)%Z →
  match JoinSinkMerger_writeVectorOut blank partitionId sp maps (Merging (Merger nk 0 0) m) with
  | (Ret _, Merging st m') => mapIndex st = 0 ∧ listIndex st = 0 ∧ jwf m' ∧ jtight (n + Z.of_nat (length (tuples_in (of_partition partitionId maps)))) m' ∧
      to_multimap m' = spec_pushes (to_multimap m) (tuples_in (of_partition partitionId maps))
  | (Exit 1, _) => ∃ i c j, ¬ roomy_row (sp i c j)
  | _ => False
  end.
Proof.
  unfold of_partition, tuples_in. induction maps as [|[id other] maps IH]; intros sp nk m n Hmaps Hm Ht Hn.
  { simpl. rewrite Z.add_0_r. by split_and!. }
  apply Forall_cons in Hmaps as [[Ho Hw] Hmaps]. simpl in Ho, Hw. cbn [JoinSinkMerger_writeVectorOut]. rewrite filter_cons in *. cbn [fst] in *.
  destruct (decide (id = partitionId)) as [Hid|Hid].
  2:{ specialize (IH (λ n, sp (S n)) nk m n Hmaps Hm Ht Hn). run.
      destruct (JoinSinkMerger_writeVectorOut _ _ _ _ _) as [[[]| |[| [] |]|] [st m']]; try done. destruct IH as (i & c & j & Hno). by exists (S i), c, j. }
  rewrite !fmap_cons in *. cbn [concat snd] in *. rewrite length_app in Hn.
  destruct (merge_map_all stop_process (sp 0) other (Merger nk 0 0) m n Ho Hw Hm Ht) as [(p & Hres & Hp & Htp & Hmm)|Hs].
  { cbn [mapIndex listIndex]. rewrite skip_0. lia. }
  - cbn [mapIndex listIndex numHashKeys] in *. rewrite skip_0 in *. rewrite M_bind_unfold.
    rewrite (M_bind_Ret _ _ _ _ _ Hres). unfold reset_mapIndex at 1, mg_update at 1. run. cbn [mg_state mg_map numHashKeys listIndex].
    assert ((if groups other is [] then 0 else 0) = 0) as -> by (by destruct (groups other)).
    specialize (IH (λ n, sp (S n)) (nk + Z.of_nat (length (groups other)))%Z p _ Hmaps Hp Htp ltac:(lia)).
    destruct (JoinSinkMerger_writeVectorOut _ _ _ _ _) as [[[]| |[| [] |]|] [st m']]; try done.
    + destruct IH as (? & ? & Hm' & Ht' & Hmm'). split_and!; try done.
      * by rewrite length_app, Nat2Z.inj_add, Z.add_assoc.
      * by rewrite Hmm', Hmm, spec_pushes_app.
    + destruct IH as (i & c & j & Hno). by exists (S i), c, j.
  - destruct Hs as (c & j & h & nk' & li & fin & p & Hres & _ & Hno & _ & _ & Hp & _). cbn [mapIndex] in Hres.
    rewrite M_bind_unfold. rewrite (M_bind_unfold _ (λ _, reset_mapIndex)). rewrite Hres. unfold stop_process.
    destruct (jsetUnused_returns h p Hp) as [p' Hun]. rewrite M_bind_unfold. rewrite mg_in_map_bind, Hun. simpl. by exists 0, c, j.
Qed.

(** What is found in a merged table. *)
Lemma merged_matches maps m h :
  Forall jwf maps → to_multimap m = spec_pushes ∅ (tuples_in maps) → matches_in m h = concat ((λ jp, matches_in jp h) <$> maps).
Proof.
  intros Hmaps Hm. unfold matches_in at 1. rewrite Hm, spec_pushes_lookup, lookup_empty. simpl. unfold tuples_in.
  rewrite values_under_concat, <- list_fmap_compose. f_equal. apply list_fmap_ext. intros i t Ht. simpl.
  by apply values_under_table, (Forall_lookup_1 _ _ _ _ Hmaps Ht).
Qed.
End facts.

(** ** Properties *)

(** [C37] [writeOut] of the merger of a broadcast join never throws and never
    stops the process.  It adds the tuples of the table from the position that
    the merger has kept, all of them, and is at the beginning again; or up to
    one that does not fit, and keeps the position of that tuple.  In that case
    the rest of the table is left out, there may be one unfinished tuple in the
    merged table, and since the position is kept for the next call, the lists
    of the next table before that position are left out as well. *)
Theorem JoinSinkMerger_writeOut_spec {RS : RecordSize} {O} (blank : list O) (sp : nat → nat → row_space) (other : JoinPairArray (list O)) (st : merger) m n :
  jwf other → widths blank other → jwf m → jtight n m →
  let todo := pairs (skip (mapIndex st) (listIndex st) (groups other)) in
  (n + Z.of_nat (length todo) ≤ max_entries)%Z →
  ∃ st' m', JoinSinkMerger_writeOut blank sp other (Merging st m) = (Ret tt, Merging st' m') ∧ jwf m' ∧
    ((mapIndex st' = 0 ∧ to_multimap m' = spec_pushes (to_multimap m) todo) ∨
     (¬ roomy_row (sp (mapIndex st') (listIndex st')) ∧ ∃ h finished,
      todo = finished ++ pairs (skip (mapIndex st') (listIndex st') (groups other)) ∧ length finished < length todo ∧
      (to_multimap m' = spec_pushes (to_multimap m) finished ∨ ∃ t, to_multimap m' = pushed (spec_pushes (to_multimap m) finished) (jm_hash h) t))).
Proof.
  intros Ho Hw Hm Ht todo Hn. destruct (writeOut_ok blank sp other st m n Ho Hw Hm Ht Hn) as (st' & m' & Hrun & Hm' & Hor).
  exists st', m'. split; [done|]. split; [done|]. destruct Hor as [(? & _ & _ & ?)|Hs]; [by left|by right].
Qed.

Local Existing Instance small_slots.

(** A table with two lists, and the position behind the first of them. *)
Definition demo_other : JoinPairArray (list Z) :=
  match JoinMap_default with
  | Ret m => (JoinMap_store_all [0]%Z [(7, [1]); (9, [2])]%Z m).2
  | _ => MkJoinPairArray 0 0 0 [] []
  end.

Lemma demo_other_ok : jwf demo_other ∧ widths [0%Z] demo_other.
Proof.
  destruct (JoinMap_default_spec (V:=list Z)) as (m0 & Hm0 & Hwf0 & Ht0 & Hmm0).
  destruct (JoinMap_store_all_spec [0]%Z 0 [(7, [1]); (9, [2])]%Z m0 Hwf0 Ht0 ltac:(simpl; slots_lia)) as (m & Hm & Hwf & Ht & Hmm).
  assert (demo_other = m) as -> by (unfold demo_other; by rewrite Hm0, Hm). split; [done|]. intros h t Ht'. rewrite Hmm, Hmm0 in Ht'.
  unfold spec_pushes, pushed in Ht'. simpl in Ht'. rewrite !lookup_insert in Ht'. destruct (decide _); simpl in Ht'.
  - by apply list_elem_of_singleton in Ht' as ->.
  - destruct (decide _); simpl in Ht'; [by apply list_elem_of_singleton in Ht' as ->|]. by apply elem_of_nil in Ht'.
Qed.

Lemma JoinSinkMerger_writeOut_spec_witness :
  ∃ m0 st' m', JoinMap_default = Ret m0 ∧
    JoinSinkMerger_writeOut [0%Z] (λ _ _, rplenty) demo_other (Merging (Merger 1 1 0) m0) = (Ret tt, Merging st' m') ∧
    to_multimap m' !! 7%Z = None ∧ to_multimap m' !! 9%Z = Some [[2%Z]].
Proof.
  destruct (JoinMap_default_spec (V:=list Z)) as (m0 & Hm0 & Hwf0 & Ht0 & Hmm0). destruct demo_other_ok as [Ho Hw].
  assert (pairs (skip 1 0 (groups demo_other)) = [(9, [2])]%Z) as Hpairs by (vm_compute; reflexivity).
  revert Ho Hw Hpairs. generalize demo_other as other. intros other Ho Hw Hpairs.
  destruct (JoinSinkMerger_writeOut_spec [0%Z] (λ _ _, rplenty) other (Merger 1 1 0) m0 0 Ho Hw Hwf0 Ht0) as (st' & m' & Hrun & _ & Hor).
  { cbn [mapIndex listIndex]. rewrite Hpairs. simpl. slots_lia. }
  exists m0, st', m'. split; [exact Hm0|]. split; [exact Hrun|]. destruct Hor as [[_ Hm']|[Hno _]]; [|by destruct Hno].
  cbn [mapIndex listIndex] in Hm'. rewrite Hpairs, Hmm0 in Hm'. rewrite Hm'. split; vm_compute; reflexivity.
Defined.
