(* ===== verification/JoinShuffle.v ===== *)
(** * JoinShuffle: sending hash-join tables to their nodes

    Models [JoinSinkShuffler] of [lambdas/headers/JoinTuple.h] and the loop of
    [HashPartitionWork] that calls it: every table for a node is copied to
    tables on the pages that are sent to the node.  A table that does not fit on
    a page is continued on the next one, from the position ([curMapIndex],
    [curListIndex]) at which the shuffler stopped. *)

From stdpp Require Import sorting.
From S2P Require Import Prelude.
From S2P Require Import HashProbe.
From S2P Require Import PairArray.
From S2P Require Import JoinPairArray.
From S2P Require Import JoinMapPush.
From S2P Require Import JoinProbe.
From S2P Require Import JoinSink.
From S2P Require Import PartitionedJoin.
From S2P Require Import JoinMerge.

(** The allocator's answers for one call: for the new table, for its tuples in
    their order, and for the [push_back] of the table, at the end and in a
    handler. *)
Record shuffle_space := ShuffleSpace {
  ss_new : bool;
  ss_row : nat → row_space;
  ss_last : bool;
  ss_stop : bool
}.

Record shuffler := Shuffler {
  curListIndex : nat;
  curMapIndex : nat
}.

(** A shuffler at work: its position, and the tables of the page. *)
Record shuffling {O : Type} := Shuffling {
  sh_state : shuffler;
  sh_maps : list (partition_map O)
}.
Arguments shuffling : clear implicits.
Arguments Shuffling {O}.

Section shuffle.
Context {RS : RecordSize} {O : Type} (blank : list O).
Local Abbreviation table := (JoinPairArray (list O)).
Local Abbreviation M := (M (shuffling O)).

(** One tuple; false if a handler was run.  All of them take the newest tuple of
    the hash away. *)
Definition shuffle_value (sp : row_space) (myHash : Z) (data : list O) : Prelude.M table bool :=
  n ← (jp ← get; lift (JoinMap_count jp myHash));
  if (n =? 0)%Z then
    catch (temp ← JoinMap_push blank (rs_push sp) myHash; packData (rs_pack sp) temp 0 data ;; mret true)
      (JoinMap_setUnused myHash ;; mret false)
  else
    temp ← catch (temp ← JoinMap_push blank (rs_push sp) myHash; mret (Some temp)) (JoinMap_setUnused myHash ;; mret None);
    match temp with
    | Some temp => catch (packData (rs_pack sp) temp 0 data ;; mret true) (JoinMap_setUnused myHash ;; mret false)
    | None => mret false
    end.

(** The tuples of one list from [i] on; [numPacked] were copied before.  The
    position of the first that does not fit, if there is one, and [numPacked]. *)
Fixpoint shuffle_list (sp : nat → row_space) (mapToShuffle : table) (myList : nat) (myHash : Z) (i todo numPacked : nat) :
    Prelude.M table (option nat * nat) :=
  match todo with
  | 0 => mret (None, numPacked)
  | S todo' =>
      data ← lift (record_at mapToShuffle myList i);
      ok ← shuffle_value (sp numPacked) myHash data;
      if ok : bool then shuffle_list sp mapToShuffle myList myHash (S i) todo' (S numPacked) else mret (Some i, numPacked)
  end.

(** The loop over the table, with [getListIndex()]: the position at which it was
    left, if it was, and the list index. *)
Fixpoint shuffle_lists (sp : nat → row_space) (mapToShuffle : table) (mapIndex fuel : nat) (iter : jiterator) (counter listIndex numPacked : nat) :
    Prelude.M table (option (nat * nat) * nat) :=
  match fuel with
  | 0 => lift Undefined
  | S fuel' =>
      if jiter_ne iter jiter_end then
        if decide (counter < mapIndex) then
          shuffle_lists sp mapToShuffle mapIndex fuel' (jiter_next iter) (S counter) listIndex numPacked
        else
          let undefined {A} (o : option A) : Prelude.M table A := lift (match o with Some a => Ret a | None => Undefined end) in
          myList ← undefined (jiter_deref iter);
          mySize ← undefined (rl_size mapToShuffle myList);
          myHash ← undefined (rl_getHash mapToShuffle myList);
          if decide (0 < mySize) then
            '(stopped, numPacked) ← shuffle_list sp mapToShuffle myList myHash listIndex (mySize - listIndex) numPacked;
            match stopped with
            | Some i => mret (Some (counter, i), i)
            | None => shuffle_lists sp mapToShuffle mapIndex fuel' (jiter_next iter) (S counter) 0 numPacked
            end
          else shuffle_lists sp mapToShuffle mapIndex fuel' (jiter_next iter) (S counter) listIndex numPacked
      else mret (None, listIndex)
  end.

(** [writeOut]; false means that the page is to be sent and the call repeated. *)
Definition JoinSinkShuffler_writeOut (sp : shuffle_space) (shuffleMe : option (partition_map O)) : M bool := λ s,
  match shuffleMe with
  | None => (Ret true, s)
  | Some theOtherMap =>
      let mapToShuffle := pm_table theOtherMap in
      let 'Shuffler listIndex mapIndex := sh_state s in
      let size := JoinMap_size mapToShuffle in
      if ss_new sp then
        match JoinMap_new (u32 (size - Z.of_nat mapIndex)) with
        | Ret myMap =>
            match shuffle_lists (ss_row sp) mapToShuffle mapIndex (merge_fuel mapToShuffle) (jiter_begin mapToShuffle) 0 listIndex 0 myMap with
            | (Ret (stopped, listIndex), myMap) =>
                let thisMap := PartitionMap myMap (partitionId theOtherMap) (numPartitions theOtherMap) in
                match stopped with
                | Some (counter, i) =>
                    let s' := Shuffling (Shuffler i counter) in
                    if (JoinMap_size myMap =? 0)%Z then (Ret false, s' (sh_maps s))
                    else if ss_stop sp then (Ret false, s' (sh_maps s ++ [thisMap]))
                    else (NotEnoughSpace, s' (sh_maps s))
                | None =>
                    if ss_last sp then (Ret true, Shuffling (Shuffler listIndex 0) (sh_maps s ++ [thisMap]))
                    else (Ret false, Shuffling (Shuffler listIndex mapIndex) (sh_maps s))
                end
            | (NotEnoughSpace, _) => (NotEnoughSpace, s)
            | (Exit c, _) => (Exit c, s)
            | (Undefined, _) => (Undefined, s)
            end
        | NotEnoughSpace => (NotEnoughSpace, s)
        | Exit c => (Exit c, s)
        | Undefined => (Undefined, s)
        end
      else if (1000000000 <? size)%Z then (Exit 1, s) else (Ret false, s)
  end.

(** The loop of [HashPartitionWork]: a full page is sent and replaced by a new
    one.  Returns the pages sent; [n] calls were made before. *)
Fixpoint shuffle_pages (sp : nat → shuffle_space) (theOtherMap : partition_map O) (fuel n : nat) : M (list (list (partition_map O))) :=
  match fuel with
  | 0 => lift Undefined
  | S fuel' =>
      success ← JoinSinkShuffler_writeOut (sp n) (Some theOtherMap);
      if success : bool then mret []
      else
        s ← get;
        put (Shuffling (sh_state s) []) ;;
        pages ← shuffle_pages sp theOtherMap fuel' (S n);
        mret (sh_maps s :: pages)
  end.

(** The tables for a node, one after the other; the last page is sent at the end. *)
Fixpoint shuffle_maps (sp : nat → nat → shuffle_space) (fuel : nat) (theOtherMaps : list (partition_map O)) : M (list (list (partition_map O))) :=
  match theOtherMaps with
  | [] => mret []
  | theOtherMap :: rest =>
      pages ← shuffle_pages (sp 0) theOtherMap fuel 0;
      more ← shuffle_maps (λ n, sp (S n)) fuel rest;
      mret (pages ++ more)
  end.

(** Every page that arrives has tables for the node; when none arrives there is
    no output page, and nothing is sent. *)
Definition HashPartitionWork_execute (sp : nat → nat → shuffle_space) (fuel : nat) (theOtherMaps : list (partition_map O)) : M (list (list (partition_map O))) :=
  match theOtherMaps with
  | [] => mret []
  | _ => pages ← shuffle_maps sp fuel theOtherMaps; s ← get; mret (pages ++ [sh_maps s])
  end.
End shuffle.

(** ** What a call copies *)

Section facts.
Context {RS : RecordSize} {O : Type} (blank : list O).
Local Abbreviation table := (JoinPairArray (list O)).
Implicit Types (jp m p : table) (t : list O) (vs : list (list O)) (gs : list (Z * list (list O))).

Lemma shuffle_value_ok sp h data m n :
  jwf m → jtight n m → (n < max_entries)%Z → length data = length blank → steady_push (rs_push sp) →
  match shuffle_value blank sp h data m with
  | (Ret true, p) => jwf p ∧ jtight (n + 1) p ∧ to_multimap p = pushed (to_multimap m) (jm_hash h) data
  | (Ret false, p) => ¬ roomy_row sp ∧ jwf p ∧ to_multimap p = to_multimap m
  | _ => False
  end.
Proof.
  intros Hm Ht Hn Hlen Hsp. destruct (jlookup_spec m h Hm) as (_ & _ & _ & _ & Hcount).
  unfold shuffle_value. run. unfold JoinMap_count. rewrite Hcount. run.
  pose proof (JoinMap_push_facts blank (rs_push sp) h m n Hm Ht Hn) as Hp.
  (* after a push *)
  assert (∀ r p, JoinMap_push blank (rs_push sp) h m = (Ret r, p) →
    match catch (packData (rs_pack sp) r 0 data ;; mret true) (JoinMap_setUnused h ;; mret false) p with
    | (Ret true, p) => jwf p ∧ jtight (n + 1) p ∧ to_multimap p = pushed (to_multimap m) (jm_hash h) data
    | (Ret false, p) => ¬ roomy_row sp ∧ jwf p ∧ to_multimap p = to_multimap m
    | _ => False
    end) as Hdone.
  { intros r p Hrun. rewrite Hrun in Hp. destruct Hp as [Hr Hall].
    pose proof (packData_ok (rs_pack sp) r p data 0 blank ltac:(unfold jref_ok; by rewrite Hr) ltac:(simpl; lia)) as Hk.
    rewrite (jwrite_same p r blank Hr) in Hk. unfold catch. rewrite M_bind_unfold.
    destruct (packData _ _ _ _ _) as [[[]| | |] p']; try done; run.
    - simpl in Hk. subst p'. by destruct (Hall data) as (? & ? & ? & _).
    - destruct Hk as [[j Hj] [t ->]]. destruct (Hall t) as (_ & _ & _ & p' & Hun & Hwf & Hmm). unfold JoinMap_setUnused in *. rewrite Hun.
      split; [intros [_ Hf]; by rewrite Hf in Hj|by split]. }
  destruct (Z.eqb_spec (Z.of_nat (length (default [] (to_multimap m !! jm_hash h)))) 0) as [Hz|Hnz].
  - assert (to_multimap m !! jm_hash h = None) as Hnone.
    { destruct (to_multimap m !! jm_hash h) as [l|] eqn:Hl; [|done]. pose proof (to_multimap_nonempty m _ l Hm Hl). destruct l; [done|]. simpl in Hz. lia. }
    unfold catch in *. rewrite M_bind_unfold. destruct (JoinMap_push blank (rs_push sp) h m) as [[r| | |] p]; try done; [by apply Hdone|].
    destruct Hp as (Hno & Hwf & Hmm & _). run. unfold JoinMap_setUnused. rewrite (jsetUnused_absent p h Hwf ltac:(by rewrite Hmm)).
    split; [|by split]. by intros [Hpl _].
  - unfold catch in *. run. destruct (JoinMap_push blank (rs_push sp) h m) as [[r| | |] p]; try done; [by apply Hdone|].
    destruct Hp as (_ & _ & _ & Hpres). specialize (Hpres Hsp). by rewrite Hpres in Hnz.
Qed.

Lemma shuffle_list_ok sp other a h vs todo : ∀ i k m n,
  (∀ k t, vs !! k = Some t → rl_at other a k = Some t) → Forall (λ t, length t = length blank) vs → (∀ k, steady_push (rs_push (sp k))) →
  todo = length vs - i → jwf m → jtight n m → (n + Z.of_nat todo ≤ max_entries)%Z →
  match shuffle_list blank sp other a h i todo k m with
  | (Ret (None, k'), p) => k' = k + todo ∧ jwf p ∧ jtight (n + Z.of_nat todo) p ∧ to_multimap p = spec_pushes (to_multimap m) ((h,.) <$> drop i vs)
  | (Ret (Some j, _), p) => i ≤ j < length vs ∧ ¬ roomy_row (sp (k + (j - i))) ∧ jwf p ∧
      to_multimap p = spec_pushes (to_multimap m) ((h,.) <$> take (j - i) (drop i vs))
  | _ => False
  end.
Proof.
  induction todo as [|todo IH]; intros i k m n Hat Hlen Hsp Htodo Hm Ht Hn.
  { simpl. rewrite drop_ge by lia. by rewrite Z.add_0_r, Nat.add_0_r. }
  destruct (lookup_lt_is_Some_2 vs i ltac:(lia)) as [t Hi]. cbn [shuffle_list]. run. unfold record_at. rewrite (Hat i t Hi). run.
  pose proof (shuffle_value_ok (sp k) h t m n Hm Ht ltac:(lia) (Forall_lookup_1 _ _ _ _ Hlen Hi) (Hsp k)) as Hv.
  destruct (shuffle_value blank (sp k) h t m) as [[[]| | |] p]; try done.
  - destruct Hv as (Hp & Htp & Hmm). specialize (IH (S i) (S k) p (n + 1)%Z Hat Hlen Hsp ltac:(lia) Hp Htp ltac:(lia)).
    rewrite (drop_S _ _ _ Hi). simpl. destruct (shuffle_list _ _ _ _ _ _ _ _ _) as [[[[j|] k']| | |] q]; try done.
    + destruct IH as (Hj & Hno & Hq & Hmq). split; [lia|]. replace (j - i) with (S (j - S i)) by lia. rewrite Nat.add_succ_r. split; [done|].
      split; [done|]. rewrite Hmq, Hmm. done.
    + destruct IH as (-> & Hq & Htq & Hmq). split; [lia|]. split; [done|]. split; [by replace (n + Z.of_nat (S todo))%Z with (n + 1 + Z.of_nat todo)%Z by lia|].
      by rewrite Hmq, Hmm.
  - destruct Hv as (Hno & Hp & Hmm). split; [lia|]. rewrite Nat.sub_diag, Nat.add_0_r. by split_and!.
Qed.

Section loop.
Context (sp : nat → row_space) (other : table) (mapIndex : nat).
Hypothesis other_ok : jwf other.
Hypothesis other_widths : widths blank other.
Hypothesis steady : ∀ k, steady_push (rs_push (sp k)).

Lemma shuffle_lists_ok fuel : ∀ pos li k m n,
  pos ≤ length (order other) → length (order other) - pos < fuel →
  let gs := skip (mapIndex - pos) li (drop pos (groups other)) in
  jwf m → jtight n m → (n + Z.of_nat (length (pairs gs)) ≤ max_entries)%Z →
  match shuffle_lists blank sp other mapIndex fuel (iterator_at other pos) pos li k m with
  | (Ret (None, li'), p) => li' = (if gs is [] then li else 0) ∧ jwf p ∧ to_multimap p = spec_pushes (to_multimap m) (pairs gs)
  | (Ret (Some (c, j), li'), p) => li' = j ∧ pos ≤ c ∧ ∃ finished, ¬ roomy_row (sp (k + length finished)) ∧ jwf p ∧
      pairs gs = finished ++ pairs (skip (c - pos) j (drop pos (groups other))) ∧ length finished < length (pairs gs) ∧
      to_multimap p = spec_pushes (to_multimap m) finished
  | _ => False
  end.
Proof using other_ok other_widths steady.
  induction fuel as [|fuel IH]; intros pos li k m n Hpos Hfuel gs Hm Ht Hn; [lia|]. subst gs. cbn [shuffle_lists].
  destruct (decide (pos = length (order other))) as [->|Hne].
  { unfold jiter_ne, iterator_at. simpl. rewrite bool_decide_true by done. simpl. rewrite drop_ge by by rewrite groups_length.
    by destruct (mapIndex - _). }
  destruct (next_at other pos ltac:(lia)) as [-> Hnext]. rewrite Hnext.
  destruct (lookup_lt_is_Some_2 (order other) pos ltac:(lia)) as [[i h] Hi].
  set (vs := default [] (to_multimap other !! h)).
  assert (drop pos (groups other) = (h, vs) :: drop (S pos) (groups other)) as Hdrop.
  { apply drop_S. unfold groups. rewrite list_lookup_fmap, Hi. done. }
  rewrite Hdrop in *. destruct (decide (pos < mapIndex)) as [Hlt|Hge].
  - replace (mapIndex - pos) with (S (mapIndex - S pos)) in * by lia. cbn [skip] in *.
    specialize (IH (S pos) li k m n ltac:(lia) ltac:(lia) Hm Ht Hn). destruct (shuffle_lists _ _ _ _ _ _ _ _ _ _) as [[[[[c j]|] li']| | |] p]; try done.
    destruct IH as (-> & Hc & fin & Hrest). split; [done|]. split; [lia|]. exists fin.
    replace (c - pos) with (S (c - S pos)) by lia. exact Hrest.
  - replace (mapIndex - pos) with 0 in * by lia. cbn [skip] in *.
    destruct (order_group other i h other_ok ltac:(by eapply list_elem_of_lookup_2)) as (Hhash & Hsize & Hat & Hvs). fold vs in Hsize, Hat, Hvs.
    rewrite deref_at, Hi. cbn [fmap option_fmap option_map fst]. run. rewrite Hsize. run. rewrite Hhash. run.
    rewrite decide_True by (destruct vs; [done|simpl; lia]).
    cbn [fst snd] in *. rewrite pairs_cons, length_app, length_fmap, length_drop in Hn.
    pose proof (shuffle_list_ok sp other i h vs (length vs - li) li k m n Hat) as Hl.
    lapply Hl; clear Hl; [intros Hl|by apply Forall_forall, other_widths].
    specialize (Hl steady eq_refl Hm Ht ltac:(lia)). rewrite M_bind_unfold.
    destruct (shuffle_list _ _ _ _ _ _ _ _ _) as [[[[j|] k']| | |] p]; try done.
    + destruct Hl as (Hj & Hno & Hp & Hmm). cbn [mret M_ret]. split; [done|]. split; [lia|]. exists ((h,.) <$> take (j - li) (drop li vs)).
      rewrite length_fmap, length_take, length_drop, (Nat.min_l (j - li)) by lia. split; [done|]. split; [done|].
      rewrite Nat.sub_diag. cbn [skip fst snd]. rewrite !pairs_cons. split; [|split; [|done]].
      * rewrite app_assoc. f_equal. rewrite <- fmap_app. f_equal.
        replace (drop j vs) with (drop (j - li) (drop li vs)); [by rewrite take_drop|]. rewrite drop_drop. f_equal. lia.
      * rewrite length_app, !length_fmap, length_drop. lia.
    + destruct Hl as (-> & Hp & Htp & Hmm).
      specialize (IH (S pos) 0 (k + (length vs - li)) p (n + Z.of_nat (length vs - li))%Z ltac:(lia) ltac:(lia)).
      replace (mapIndex - S pos) with 0 in IH by lia. rewrite skip_0 in IH. specialize (IH Hp Htp ltac:(lia)).
      destruct (shuffle_lists _ _ _ _ _ _ _ _ _ _) as [[[[[c j]|] li']| | |] q]; try done.
      * destruct IH as (-> & Hc & fin & Hno & Hq & Hsplit & Hlt & Hmq). split; [done|]. split; [lia|]. exists (((h,.) <$> drop li vs) ++ fin).
        rewrite length_app, length_fmap, length_drop, Nat.add_assoc. split; [done|]. split; [done|].
        replace (c - pos) with (S (c - S pos)) by lia. cbn [skip]. rewrite pairs_cons.
        split; [by rewrite <- app_assoc, <- Hsplit|]. split; [rewrite length_app, length_fmap, length_drop; lia|]. by rewrite spec_pushes_app, <- Hmm.
      * destruct IH as (-> & Hq & Hmq). split; [by destruct (drop (S pos) (groups other))|]. split; [done|]. by rewrite pairs_cons, spec_pushes_app, <- Hmm.
Qed.
End loop.

(** *** New tables *)

Lemma JoinMap_new_ok n :
  (0 ≤ n ≤ max_entries)%Z → ∃ m, JoinMap_new n = Ret m ∧ jwf m ∧ jtight n m ∧ to_multimap m = (∅ : gmap Z (list (list O))).
Proof.
  intros Hn. unfold JoinMap_new. set (k := (if (n <? 2)%Z then 2%Z else n)).
  pose proof max_slots_bounds. pose proof record_size_ok.
  assert (2 ≤ k ≤ max_slots ∧ k ≤ Z.max 2 (4 * n))%Z as [Hk Hk'] by (unfold k; destruct (Z.ltb_spec n 2); lia).
  assert (0 ≤ record_size * (2 * k) < u32_modulus)%Z by (apply max_slots_bytes; lia).
  destruct (JoinPairArray_new_wf (V:=list O) k) as (m & Hm & Hwf & Hu & _ & Hs & Hd); [lia|lia|]. exists m. split; [done|]. split; [done|].
  assert (length (j_overflows m) = 0) as Ho.
  { unfold JoinPairArray_new in Hm. destruct (got_power _ _ _); [|done]. destruct (record_size * _ <? _)%Z; [|done]. injection Hm as <-. done. }
  split; [unfold jtight; rewrite Hu, Hs, Ho; lia|]. apply map_eq. intros h. rewrite lookup_empty.
  apply slots_map_lookup_None; [by apply jentries_unique, Hwf|]. by intros i x w ->%Hd.
Qed.

Lemma length_used (d : list (jslot (list O))) i : length (used_slots i d) = length (filter (λ s, js_unused s = false) d).
Proof.
  revert i. induction d as [|s d IH]; intros i; [done|]. simpl. rewrite filter_cons. destruct (js_unused s) eqn:Hu.
  - rewrite decide_False by done. apply IH.
  - rewrite decide_True by done. simpl. by rewrite IH.
Qed.

Lemma order_used jp : jwf jp → (Z.of_nat (length (order jp)) ≤ JoinMap_size jp)%Z.
Proof.
  intros [Hwf _]. unfold order. rewrite merge_sort_Permutation, length_used. pose proof (jwf_used _ Hwf). unfold JoinMap_size, jused_count in *. lia.
Qed.

Lemma empty_table m ps : jwf m → JoinMap_size m = 0%Z → to_multimap m = spec_pushes ∅ ps → ps = [].
Proof.
  intros Hm Hs Hp. pose proof (order_used m Hm) as Ho. destruct ps as [|[h t] ps]; [done|exfalso].
  pose proof (spec_pushes_lookup h ((h, t) :: ps) ∅) as Hl. rewrite <- Hp in Hl. unfold values_under in Hl. rewrite filter_cons in Hl. simpl in Hl.
  rewrite decide_True in Hl by done. destruct (order_keys m Hm) as (_ & Hkeys & _). destruct (to_multimap m !! jm_hash h) as [l|] eqn:Hlk.
  - pose proof (proj2 (Hkeys (jm_hash h)) ltac:(by eexists)) as Hin. destruct (order m); simpl in *; [by apply elem_of_nil in Hin|lia].
  - rewrite lookup_empty in Hl. done.
Qed.

(** ** Calls *)

(** A copy of some of the tuples. *)
Definition copy_of (pm : partition_map O) (pm' : partition_map O) (ps : list (Z * list O)) : Prop :=
  partitionId pm' = partitionId pm ∧ numPartitions pm' = numPartitions pm ∧ jwf (pm_table pm') ∧ to_multimap (pm_table pm') = spec_pushes ∅ ps.

Section calls.
Context (pm : partition_map O).
Local Abbreviation other := (pm_table pm).
Hypothesis other_ok : jwf other.
Hypothesis other_widths : widths blank other.
Hypothesis other_size : (JoinMap_size other + Z.of_nat (length (pairs (groups other))) ≤ max_entries)%Z.

Lemma skip_length k li gs : length (pairs (skip k li gs)) ≤ length (pairs gs).
Proof using.
  clear other_size. revert k. induction gs as [|[h vs] gs IH]; intros k; [done|]. destruct k as [|k]; simpl.
  - rewrite !pairs_cons, !length_app, !length_fmap, length_drop. lia.
  - rewrite pairs_cons, length_app. specialize (IH k). lia.
Qed.

Lemma skip_ge k li gs : length gs ≤ k → skip k li gs = [].
Proof using. clear. revert k. induction gs as [|g gs IH]; intros [|k] Hk; simpl in *; [done|done|lia|]. apply IH. lia. Qed.

Lemma skip_nil k li gs : skip k li gs = [] → length gs ≤ k.
Proof using. clear. revert k. induction gs as [|g gs IH]; intros [|k] Hk; simpl in *; [lia|lia|done|]. specialize (IH k Hk). lia. Qed.

Lemma JoinSinkShuffler_writeOut_ok sp li mi maps :
  (∀ k, steady_push (rs_push (ss_row sp k))) → mi ≤ length (groups other) →
  let gs := skip mi li (groups other) in
  match JoinSinkShuffler_writeOut blank sp (Some pm) (Shuffling (Shuffler li mi) maps) with
  | (Ret true, Shuffling st' maps') => st' = Shuffler (if gs is [] then li else 0) 0 ∧
      ∃ pm', maps' = maps ++ [pm'] ∧ copy_of pm pm' (pairs gs)
  | (Ret false, Shuffling st' maps') =>
      (ss_new sp = false ∧ st' = Shuffler li mi ∧ maps' = maps) ∨
      (ss_last sp = false ∧ st' = Shuffler (if gs is [] then li else 0) mi ∧ maps' = maps) ∨
      (∃ c j ts finished, st' = Shuffler j c ∧ c < length (groups other) ∧ ¬ roomy_row (ss_row sp (length (concat finished))) ∧
        pairs gs = concat finished ++ pairs (skip c j (groups other)) ∧ length (concat finished) < length (pairs gs) ∧
        maps' = maps ++ ts ∧ Forall2 (copy_of pm) ts finished)
  | (NotEnoughSpace, _) => ss_stop sp = false ∧ ¬ (∀ k, roomy_row (ss_row sp k))
  | _ => False
  end.
Proof using other_ok other_widths other_size.
  intros Hsp Hmi gs. unfold JoinSinkShuffler_writeOut. cbn [sh_state sh_maps].
  pose proof (order_used other other_ok) as Hused. rewrite <- groups_length in Hused.
  pose proof (skip_length mi li (groups other)) as Hskip. fold gs in Hskip.
  destruct (ss_new sp) eqn:Hnew.
  2:{ destruct (Z.ltb_spec 1000000000 (JoinMap_size other)); [slots_lia|]. left. by split_and!. }
  rewrite u32_small by (pose proof max_slots_bounds; word_lia). destruct (JoinMap_new_ok (JoinMap_size other - Z.of_nat mi)) as (m & -> & Hm & Ht & Hmm); [lia|].
  rewrite begin_at.
  pose proof (shuffle_lists_ok (ss_row sp) other mi other_ok other_widths Hsp (merge_fuel other) 0 li 0 m (JoinMap_size other - Z.of_nat mi)%Z ltac:(lia) (fuel_enough _ other_ok)) as Hs.
  rewrite Nat.sub_0_r, drop_0 in Hs. fold gs in Hs. specialize (Hs Hm Ht ltac:(lia)). rewrite Hmm in Hs.
  destruct (shuffle_lists _ _ _ _ _ _ _ _ _ _) as [[[[[c j]|] li']| | |] p]; try done.
  - destruct Hs as (-> & _ & fin & Hno & Hp & Hsplit & Hlt & Hmp). rewrite Nat.sub_0_r in Hsplit. cbn [Nat.add] in Hno.
    assert (c < length (groups other)) as Hc.
    { destruct (decide (c < length (groups other))); [done|]. rewrite skip_ge in Hsplit by lia. rewrite app_nil_r in Hsplit. subst. lia. }
    destruct (Z.eqb_spec (JoinMap_size p) 0) as [Hz|_].
    + right. right. exists c, j, [], []. pose proof (empty_table p fin Hp Hz Hmp) as ->. rewrite app_nil_r. by split_and!.
    + destruct (ss_stop sp) eqn:Hstop; [|split; [done|intros Hall; by apply Hno]]. right. right. exists c, j, [PartitionMap p (partitionId pm) (numPartitions pm)], [fin].
      cbn [concat]. rewrite app_nil_r. split_and!; try done. constructor; [|constructor]. by split_and!.
  - destruct Hs as (-> & Hp & Hmp). destruct (ss_last sp) eqn:Hlast.
    + split; [done|]. eexists. split; [done|]. by split_and!.
    + right. left. by split_and!.
Qed.

(** ** Whole tables

    Every new page has room for its new table and a first tuple. *)
Context (sp : nat → shuffle_space).
Hypothesis steady : ∀ n k, steady_push (rs_push (ss_row (sp n) k)).
Hypothesis pushed_back : ∀ n, ss_last (sp n) = true ∧ ss_stop (sp n) = true.
Hypothesis fresh_pages : ∀ n, ss_new (sp (S n)) = true ∧ roomy_row (ss_row (sp (S n)) 0).

Lemma shuffle_pages_ok fuel : ∀ n li mi maps,
  mi ≤ length (groups other) → (mi = length (groups other) → li = 0) →
  let gs := skip mi li (groups other) in
  length (pairs gs) + (if n is 0 then 1 else 0) < fuel →
  ∃ pages rest ts fins, shuffle_pages blank sp pm fuel n (Shuffling (Shuffler li mi) maps) = (Ret pages, Shuffling (Shuffler 0 0) rest) ∧
    concat pages ++ rest = maps ++ ts ∧ Forall2 (copy_of pm) ts fins ∧ concat fins = pairs gs.
Proof using other_ok other_widths other_size steady pushed_back fresh_pages.
  induction fuel as [|fuel IH]; intros n li mi maps Hmi Hli gs Hfuel; [destruct n; lia|]. cbn [shuffle_pages].
  pose proof (JoinSinkShuffler_writeOut_ok (sp n) li mi maps (steady n) Hmi) as Hw. cbv zeta in Hw. fold gs in Hw. rewrite M_bind_unfold.
  destruct (pushed_back n) as [Hlast Hstop].
  destruct (JoinSinkShuffler_writeOut _ _ _ _) as [[[|]| | |] [st maps']]; try done; [| |destruct Hw; congruence].
  - destruct Hw as (-> & pm' & -> & Hcopy). exists [], (maps ++ [pm']), [pm'], [pairs gs]. split; [|split; [done|split]].
    + do 3 f_equal. destruct gs as [|g gs'] eqn:Hgs; [|done]. apply Hli. apply skip_nil in Hgs. lia.
    + by constructor; [|constructor].
    + cbn [concat]. by rewrite app_nil_r.
  - assert (∃ li' mi' ts fin, st = Shuffler li' mi' ∧ mi' < length (groups other) + (if n is 0 then 1 else 0) ∧ (mi' = length (groups other) → li' = 0) ∧
      maps' = maps ++ ts ∧ Forall2 (copy_of pm) ts fin ∧ pairs gs = concat fin ++ pairs (skip mi' li' (groups other)) ∧
      (n = 0 ∨ 0 < length (concat fin))) as (li' & mi' & ts & fin & -> & Hmi' & Hli' & -> & Hts & Hsplit & Hpos).
    { destruct Hw as [(Hnew & -> & ->)|[(Hl & _)|(c & j & ts & fin & -> & Hc & Hno & Hsplit & Hlt & -> & Hts)]]; [|congruence|].
      - destruct n as [|n]; [|by rewrite (proj1 (fresh_pages n)) in Hnew]. exists li, mi, [], []. rewrite app_nil_r. split_and!; try done; [lia|by left].
      - exists j, c, ts, fin. split_and!; try done; [lia|lia|]. destruct n as [|n]; [by left|right]. destruct (concat fin); [|simpl; lia].
        by destruct Hno; apply fresh_pages. }
    run. destruct (IH (S n) li' mi' [] ltac:(destruct n; lia) Hli') as (pages & rest & ts' & fins & Hrun & Hcat & Hts' & Hfins).
    { apply (f_equal length) in Hsplit. rewrite length_app in Hsplit. destruct n; [lia|]. destruct Hpos; [done|lia]. }
    cbn [sh_state sh_maps]. rewrite Hrun. run. exists ((maps ++ ts) :: pages), rest, (ts ++ ts'), (fin ++ fins). split; [done|]. split.
    { cbn [concat]. rewrite <- !app_assoc, Hcat. done. }
    split; [by apply Forall2_app|]. by rewrite concat_app, Hfins.
Qed.
End calls.

(** *** All tables for a node *)

(** The copies [ts] of a table: they have all of its tuples. *)
Definition copies_of (pm : partition_map O) (ts : list (partition_map O)) : Prop :=
  ∃ fins, Forall2 (copy_of pm) ts fins ∧ concat fins = pairs (groups (pm_table pm)).

Definition shuffle_fits (sp : nat → nat → shuffle_space) : Prop :=
  ∀ i n, (∀ k, steady_push (rs_push (ss_row (sp i n) k))) ∧ ss_last (sp i n) = true ∧ ss_stop (sp i n) = true ∧
    ss_new (sp i (S n)) = true ∧ roomy_row (ss_row (sp i (S n)) 0).

Definition small_table (pm : partition_map O) : Prop :=
  jwf (pm_table pm) ∧ widths blank (pm_table pm) ∧
  (JoinMap_size (pm_table pm) + Z.of_nat (length (pairs (groups (pm_table pm)))) ≤ max_entries)%Z.

Lemma shuffle_maps_ok fuel pms : ∀ sp maps,
  Forall small_table pms → shuffle_fits sp → Forall (λ pm, S (length (pairs (groups (pm_table pm)))) < fuel) pms →
  ∃ pages rest tss, shuffle_maps blank sp fuel pms (Shuffling (Shuffler 0 0) maps) = (Ret pages, Shuffling (Shuffler 0 0) rest) ∧
    concat pages ++ rest = maps ++ concat tss ∧ Forall2 copies_of pms tss.
Proof.
  induction pms as [|pm pms IH]; intros sp maps Hsmall Hfits Hfuel.
  { exists [], maps, []. by rewrite app_nil_r. }
  apply Forall_cons in Hsmall as [(Hwf & Hw & Hs) Hsmall]. apply Forall_cons in Hfuel as [Hf Hfuel]. cbn [shuffle_maps].
  destruct (shuffle_pages_ok pm Hwf Hw Hs (sp 0) ltac:(intros n k; apply Hfits) ltac:(intros n; split; apply Hfits) ltac:(intros n; split; apply Hfits)
    fuel 0 0 0 maps ltac:(lia) ltac:(done)) as (pages & rest & ts & fins & Hrun & Hcat & Hts & Hfins); [rewrite skip_0; lia|]. rewrite skip_0 in Hfins.
  destruct (IH (λ n, sp (S n)) rest Hsmall ltac:(intros i n; apply (Hfits (S i) n)) Hfuel) as (pages' & rest' & tss & Hrun' & Hcat' & Htss).
  exists (pages ++ pages'), rest', (ts :: tss). split_and!.
  - run. rewrite Hrun. run. by rewrite Hrun'.
  - cbn [concat]. by rewrite concat_app, <- app_assoc, Hcat', !app_assoc, Hcat.
  - constructor; [|done]. by exists fins.
Qed.

(** Everything is sent. *)
Lemma HashPartitionWork_ok sp fuel pms :
  Forall small_table pms → shuffle_fits sp → Forall (λ pm, S (length (pairs (groups (pm_table pm)))) < fuel) pms →
  ∃ pages s tss, HashPartitionWork_execute blank sp fuel pms (Shuffling (Shuffler 0 0) []) = (Ret pages, s) ∧
    concat pages = concat tss ∧ Forall2 copies_of pms tss.
Proof.
  intros Hsmall Hfits Hfuel. destruct pms as [|pm0 pms0] eqn:Epms; [by eexists [], _, []|]. rewrite <- Epms in *.
  destruct (shuffle_maps_ok fuel pms sp [] Hsmall Hfits Hfuel) as (pages & rest & tss & Hrun & Hcat & Htss).
  exists (pages ++ [rest]), (Shuffling (Shuffler 0 0) rest), tss. split; [|split; [|done]].
  - rewrite Epms in *. unfold HashPartitionWork_execute. run. by rewrite Hrun.
  - rewrite concat_app. cbn [concat]. by rewrite app_nil_r.
Qed.
End facts.

(** ** Properties *)

(** A call that was to continue list [mi] at position [li] copies all that is
    left, but finds no room for the [push_back] of the new table, and asks to be
    called again.  By then it has set the list index to 0 and not the map index,
    so the next call starts at the beginning of list [mi], and the first [li]
    tuples of the list, which are on an earlier page already, are sent again. *)
Theorem JoinSinkShuffler_forgets_position {RS : RecordSize} {O} (blank : list O) pm sp li mi maps :
  small_table blank pm → mi < length (groups (pm_table pm)) → ss_new sp = true → ss_last sp = false → (∀ k, roomy_row (ss_row sp k)) →
  JoinSinkShuffler_writeOut blank sp (Some pm) (Shuffling (Shuffler li mi) maps) = (Ret false, Shuffling (Shuffler 0 mi) maps).
Proof.
  intros (Hwf & Hw & Hs) Hmi Hnew Hlast Hroom.
  pose proof (JoinSinkShuffler_writeOut_ok blank pm Hwf Hw Hs sp li mi maps ltac:(intros k; by rewrite (proj1 (Hroom k))) ltac:(lia)) as H.
  destruct (skip mi li (groups (pm_table pm))) as [|g gs] eqn:Hgs; [apply skip_nil in Hgs; lia|].
  destruct (JoinSinkShuffler_writeOut _ _ _ _) as [[[|]| | |] [st maps']] eqn:Hrun.
  - exfalso. unfold JoinSinkShuffler_writeOut in Hrun. cbn [sh_state] in Hrun. rewrite Hnew, Hlast in Hrun. revert Hrun.
    destruct (JoinMap_new _); try discriminate. destruct (shuffle_lists _ _ _ _ _ _ _ _ _ _) as [[[[[c j]|] li']| | |] p]; try discriminate.
    destruct (_ =? _)%Z; [discriminate|]. by destruct (ss_stop sp).
  - destruct H as [(Hn & _)|[(_ & -> & ->)|(c & j & ts & fin & _ & _ & Hno & _)]]; [congruence|done|by destruct Hno].
  - by destruct H as [_ []].
  - done.
  - done.
Qed.

Local Existing Instance small_slots.

Lemma demo_small : small_table [0%Z] (PartitionMap demo_table 0 1).
Proof.
  destruct demo_table_ok as (Hwf & _ & _ & _). split; [exact Hwf|]. split.
  - assert (to_multimap demo_table = {[7%Z := [[1%Z]; [2%Z]]]}) as Hm by (vm_compute; reflexivity).
    intros h t Ht. cbn [pm_table] in Ht. rewrite Hm in Ht. destruct (decide (h = 7%Z)) as [->|Hne].
    + rewrite lookup_singleton_eq in Ht. simpl in Ht. by apply elem_of_cons in Ht as [-> | ->%list_elem_of_singleton].
    + rewrite lookup_singleton_ne in Ht by done. by apply elem_of_nil in Ht.
  - assert (JoinMap_size demo_table = 1%Z) as Hs by (vm_compute; reflexivity).
    assert (length (pairs (groups demo_table)) = 2) as Hl by (vm_compute; reflexivity).
    cbn [pm_table]. rewrite Hs, Hl. slots_lia.
Qed.

Lemma JoinSinkShuffler_forgets_position_witness :
  JoinSinkShuffler_writeOut [0%Z] (ShuffleSpace true (λ _, rplenty) false true) (Some (PartitionMap demo_table 0 1)) (Shuffling (Shuffler 1 0) []) =
    (Ret false, Shuffling (Shuffler 0 0) []).
Proof.
  apply (JoinSinkShuffler_forgets_position [0%Z] (PartitionMap demo_table 0 1) (ShuffleSpace true (λ _, rplenty) false true) 1 0 []); [exact demo_small| |done|done|by split].
  assert (length (groups demo_table) = 1) as Hl by (vm_compute; reflexivity). cbn [pm_table]. rewrite Hl. lia.
Defined.
