(* ===== verification/JoinQuery.v ===== *)
(** * JoinQuery: hash joins from the scan of one set to the scan of the other

    The three steps of a broadcast join put together.  A query with a [JoinSink]
    builds tables on its pages ([join_build_spec]), a [JoinSinkMerger] merges
    them, and a [JoinProbe] that is given the merged table joins the rows it is
    fed with the rows of the build ([broadcast_join_spec]). *)

From S2P Require Import Prelude.
From S2P Require Import HashProbe.
From S2P Require Import PairArray.
From S2P Require Import JoinPairArray.
From S2P Require Import JoinMapPush.
From S2P Require Import Pipeline.
From S2P Require Import TupleSet.
From S2P Require Import Executor.
From S2P Require Import JoinProbe.
From S2P Require Import JoinSink.
From S2P Require Import Stages.
From S2P Require Import Scan.
From S2P Require Import TupleQuery.
From S2P Require Import JoinTables.
From S2P Require Import JoinMerge.

Section facts.
Context {RS : RecordSize} {O : Type} (blank : list O) (keyAtt : nat) (atts : list nat).
Local Abbreviation row := (list (value O)).
Implicit Types (o : join_page O) (l : list row).

Lemma tuple_of_length (r : row) : length (tuple_of blank atts r) = length blank.
Proof. apply length_imap. Qed.

Lemma held_matches o l h : join_holds blank keyAtt atts o l → matches_in (jp_map o) h = values_under h (join_pair blank keyAtt atts <$> l).
Proof. intros [_ Hm]. unfold matches_in. by rewrite Hm, spec_pushes_lookup, lookup_empty. Qed.

Lemma held_widths o l : join_holds blank keyAtt atts o l → widths blank (jp_map o).
Proof.
  intros Hh h t Ht. destruct (to_multimap (jp_map o) !! h) as [ts|] eqn:Hl; [|by apply elem_of_nil in Ht].
  assert (jm_hash h = h) as Hhash.
  { destruct (proj1 (jmap_keys (jp_map o) h (proj1 Hh)) ltac:(by eexists)) as (i & s & _ & Hu & ->). by apply jm_hash_slot. }
  pose proof (held_matches o l h Hh) as Hm. unfold matches_in in Hm. rewrite Hhash, Hl in Hm. simpl in *. subst ts.
  unfold values_under in Ht. apply list_elem_of_fmap in Ht as ([k t'] & -> & Ht). apply list_elem_of_filter in Ht as [_ Ht].
  apply list_elem_of_fmap in Ht as (r & [= -> ->] & _). simpl. apply tuple_of_length.
Qed.

(** The rows of the build that have the hash of a row. *)
Definition same_hash (h : Z) l : list row := filter (λ b, jm_hash (hash_at keyAtt b) = jm_hash h) l.

Lemma values_under_rows h l : values_under h (join_pair blank keyAtt atts <$> l) = tuple_of blank atts <$> same_hash h l.
Proof.
  unfold values_under, same_hash. induction l as [|b l IH]; [done|]. rewrite fmap_cons, !filter_cons. simpl.
  destruct (decide _); [simpl; by f_equal|done].
Qed.

Lemma merged_tables (tables : list (join_page O)) (ls : list (list row)) m h :
  Forall2 (join_holds blank keyAtt atts) tables ls → to_multimap m = spec_pushes ∅ (tuples_in (jp_map <$> tables)) →
  matches_in m h = tuple_of blank atts <$> same_hash h (concat ls).
Proof.
  intros Hh Hm. rewrite (merged_matches (jp_map <$> tables) m h); [|apply Forall_fmap; clear -Hh; induction Hh as [|o l os ls Ho _ IH]; constructor; [apply Ho|done]|done].
  clear Hm. induction Hh as [|o l os ls Ho _ IH]; [done|]. simpl. unfold same_hash. rewrite filter_app, fmap_app.
  rewrite (held_matches o l h Ho), values_under_rows. f_equal. exact IH.
Qed.
Lemma tables_size (tables : list (join_page O)) (ls : list (list row)) :
  Forall2 (join_holds blank keyAtt atts) tables ls → length (tuples_in (jp_map <$> tables)) = length (concat ls).
Proof.
  induction 1 as [|o l os ls [Hwf Hm] _ IH]; [done|]. unfold tuples_in in *. rewrite !fmap_cons. cbn [concat]. rewrite !length_app, IH.
  by rewrite (held_size _ _ Hwf Hm), length_fmap.
Qed.
End facts.

(** ** Properties *)

(** [C4] A query whose sink is a [JoinSink] writes hash-join tables.  While the
    tables and their overflow lists can grow and a fresh page has room for its
    first row, whatever else runs out of space and when, the query finishes, or
    exits because the lambda of a stage, or a probe, runs out of space on a fresh
    page; and in the end the tables on the pages it took, each given back exactly
    once, hold the join tuples of the rows that the stages make (at most
    [max_entries]), each under the hash of its row and each exactly once, page
    after page in the order of the rows.  The stages are as in [set_query_spec]
    and pass no attribute on twice, the columns of the sink have the types it
    reads, and fewer than about 10^9 pages are taken. *)
Theorem join_build_spec {RS : RecordSize} {O} (qs : list (stage (O:=O))) (blank : list O) (keyAtt : nat) (useTheseAtts whereEveryoneGoes atts : list nat)
    (answers : nat → nat → row_space) (meaning : (nat → list (option O) → outcome (value O)) → list (option O) → value O)
    (schemas : list (list col_type)) (σ : list col_type) (s : store O) (set_pages : list (Z * list (option O))) (chunk pages chunks : nat) :
  typecheck_all [TObject] qs = Some schemas → last schemas = Some σ →
  Forall (lambda_ok meaning) qs → Forall (λ q, NoDup (passes q)) qs →
  mapM (λ a, useTheseAtts !! a) whereEveryoneGoes = Some atts → NoDup atts → length atts = length blank →
  σ !! keyAtt = Some TNumber → Forall (λ a, σ !! a = Some TObject) atts →
  (∀ page i, steady_push (rs_push (answers page i))) → (∀ page, roomy_row (answers page 0)) → store_ok s → 0 < chunk →
  let objs := concat set_pages.*2 in
  let result := query_rows qs meaning objs in
  (Z.of_nat (length result) ≤ max_entries)%Z → length objs < chunks → length result + 2 ≤ pages →
  ∃ c s' made, scan_new s set_pages chunk = Ret c ∧ mapM construct qs (sc_heap c) = (Ret made, s') ∧
  let ops := query_ops qs made.*2 (join_ops blank keyAtt useTheseAtts whereEveryoneGoes answers) in
  match run ops pages chunks (MkPipeline (query_start s' made.*1 c) [] []) with
  | (Ret _, p) =>
      (Z.of_nat (length (requested p)) + DELAY_VALUE ≤ ALL_ITERATIONS)%Z →
      match destroy ops p with
      | (Ret _, p') => unwrittenPages p' = [] ∧
          ∃ filled ls, released p' ≡ₚ filled ∧ requested p' = event_page <$> filled ∧
            Forall2 (event_holds (join_holds blank keyAtt atts)) filled ls ∧ concat ls = result
      | _ => False
      end
  | (Exit _, _) => ∃ q page, q ∈ qs ∧ runs_out page q
  | _ => False
  end.
Proof.
  intros Hty Hlast Hlam Hpass Hatts Hnd Hlen Hkey Hobj Hsteady Hroomy Hs Hchunk objs result Hsize Hchunks Hpages.
  pose proof (join_laws blank keyAtt useTheseAtts whereEveryoneGoes answers atts Hatts σ (length result) (proj2 (TCEq_eq _ _) Hkey) Hobj Hlen Hnd
    Hsteady Hroomy Hsize) as Hlaws.
  exact (run_query_ok qs (join_ops blank keyAtt useTheseAtts whereEveryoneGoes answers) meaning schemas σ true _ _ _ (length result) s set_pages chunk pages chunks
    Hty Hlast Hlam (λ _, Hpass) Hs Hchunk (le_n _) Hchunks Hpages).
Qed.

(** [C3] A broadcast join, when the merged table has room for every tuple ([roomy_row]
    for all of them; without room the merger leaves the rest of a table out,
    [JoinSinkMerger_writeOut_spec]) and there are at most [max_entries] tuples.
    The tables of a build are merged, in any order; a probe that is given the
    merged table is a lawful stage, and it makes of the rows it is fed exactly
    the rows of the nested-loop join: every row with the components of every row
    of the build that has the same hash, in the order of the build, on the side
    that [needToSwapLHSAndRhs] says. *)
Theorem broadcast_join_spec {RS : RecordSize} {O} (blank : list O) (keyAtt : nat) (atts : list nat) (tables : list (join_page O)) (ls : list (list (list (value O))))
    (sp : nat → nat → nat → row_space) (m0 : JoinPairArray (list O))
    (meaning : (nat → list (option O) → outcome (value O)) → list (option O) → value O)
    (matches : list nat) (whichAtt : nat) (positions : list nat) (needToSwapLHSAndRhs : bool) (fits : nat → nat → nat → bool) :
  Forall2 (join_holds blank keyAtt atts) tables ls → JoinSinkMerger_createNewOutputContainer = Ret m0 →
  (∀ i c j, roomy_row (sp i c j)) → (Z.of_nat (length (concat ls)) ≤ max_entries)%Z → length positions = length blank →
  ∃ st m, merge_all blank sp (jp_map <$> tables) (Merging (Merger 0 0 0) m0) = (Ret tt, Merging st m) ∧
    let q := Probe matches whichAtt positions needToSwapLHSAndRhs (Broadcast (Some m)) fits in
    lambda_ok meaning q ∧
    ∀ rows, stage_rows meaning q rows = rows ≫= λ r, (λ b,
      let table := placed positions (tuple_of blank atts b) in
      if needToSwapLHSAndRhs then table ++ project matches r else project matches r ++ table) <$>
        same_hash keyAtt (hash_at whichAtt r) (concat ls).
Proof.
  intros Hh Hm0 Hroom Hsize Hpos. rewrite <- (tables_size _ _ _ _ _ Hh) in Hsize. destruct (JoinMap_default_spec (V:=list O)) as (m0' & Hm0' & Hwf0 & Ht0 & Hmm0).
  assert (m0' = m0) as -> by (unfold JoinSinkMerger_createNewOutputContainer in Hm0; congruence).
  assert (Forall jwf (jp_map <$> tables) ∧ Forall (widths blank) (jp_map <$> tables)) as [Hwf Hwd].
  { clear -Hh. induction Hh as [|o l os ls Ho _ [IH1 IH2]]; [by split; constructor|]. rewrite fmap_cons. split; constructor; try done; [apply Ho|by eapply held_widths]. }
  destruct (merge_all_ok blank (jp_map <$> tables) sp 0 m0 0 Hwf Hwd Hwf0 Ht0 Hroom Hsize) as (nk & m & Hrun & Hwfm & Hmm).
  exists (Merger nk 0 0), m. split; [done|]. rewrite Hmm0 in Hmm.
  assert (∀ h, matches_in m h = tuple_of blank atts <$> same_hash keyAtt h (concat ls)) as Hmatch by (intros h; by apply merged_tables with tables).
  split.
  - intros h. exists m. split; [done|]. split; [done|]. intros h' t Ht. rewrite Hmatch in Ht. apply list_elem_of_fmap in Ht as (b & -> & _).
    by rewrite tuple_of_length.
  - intros rows. cbn [stage_rows]. apply list_bind_ext; [|done]. intros r. unfold matches_of. simpl. rewrite Hmatch, <- list_fmap_compose. done.
Qed.

(** ** Witnesses

    Numbers are hashed by their last digit.  The build reads five numbers in
    three chunks; two rows fit on a page. *)

Local Existing Instance small_slots.

Definition demo_hash (now : nat) (args : list (option Z)) : outcome (value Z) :=
  Ret (VNumber (match args with [Some z] => z mod 10 | _ => 0 end)).

Definition demo_stages : list (stage (O:=Z)) := [Apply [0] [0] TNumber demo_hash].

Definition demo_meaning (func : nat → list (option Z) → outcome (value Z)) (args : list (option Z)) : value Z :=
  match func 0 args with Ret x => x | _ => VBool false end.

Definition demo_set : list (Z * list (option Z)) := [(100, [Some 11; Some 12; Some 21]); (101, [Some 31; Some 42])]%Z.

Definition demo_answers (page i : nat) : row_space := if i <? 2 then rplenty else RowSpace jplenty (λ _, false).

Definition no_vectors : store Z := Store ∅ 0.

Lemma join_no_vectors_ok : store_ok no_vectors.
Proof. by intros p [v Hv]. Qed.

Lemma join_demo_lambdas_ok : Forall (lambda_ok demo_meaning) demo_stages.
Proof. unfold demo_stages. rewrite Forall_singleton. intros now args. by left. Qed.

Lemma demo_passes : Forall (λ q : stage (O:=Z), NoDup (passes q)) demo_stages.
Proof. apply Forall_singleton, NoDup_singleton. Qed.

Lemma demo_steady page i : steady_push (rs_push (demo_answers page i)).
Proof. unfold demo_answers. by destruct (i <? 2). Qed.

Local Abbreviation demo_ops := (query_ops demo_stages [[]] (join_ops [0%Z] 1 [0] [0] demo_answers)).
Local Abbreviation demo_scan := (match scan_new no_vectors demo_set 2 with Ret c => c | _ => Scan no_vectors [] [] None None None 0 0 None end).
Local Abbreviation demo_run := (run demo_ops 10 10 (MkPipeline (query_start (sc_heap demo_scan) [∅] demo_scan) [] [])).

Lemma join_demo_pages :
  match demo_run with
  | (Ret _, p) =>
      match destroy demo_ops p with
      | (Ret _, p') => Some (length (requested p), length (released p'))
      | _ => None
      end
  | _ => None
  end = Some (3, 3).
Proof. vm_compute. reflexivity. Qed.

Lemma join_demo_run_ok :
  ∃ p p', demo_run = (Ret tt, p) ∧ destroy demo_ops p = (Ret tt, p') ∧ length (requested p) = 3.
Proof.
  pose proof join_demo_pages as Hpages. destruct demo_run as [[[]| | |] p]; try discriminate Hpages.
  destruct (destroy demo_ops p) as [[[]| | |] p'] eqn:Hd; try discriminate Hpages. injection Hpages as Hreq _.
  exists p, p'. split; [reflexivity|]. by split.
Qed.

Lemma join_build_spec_witness :
  ∃ p p', demo_run = (Ret tt, p) ∧ destroy demo_ops p = (Ret tt, p') ∧
    ∃ filled ls, released p' ≡ₚ filled ∧ Forall2 (event_holds (join_holds [0%Z] 1 [0])) filled ls ∧
      concat ls = [[VObject (Some 11); VNumber 1]; [VObject (Some 12); VNumber 2]; [VObject (Some 21); VNumber 1];
                   [VObject (Some 31); VNumber 1]; [VObject (Some 42); VNumber 2]]%Z.
Proof.
  destruct (join_build_spec demo_stages [0%Z] 1 [0] [0] [0] demo_answers demo_meaning [[TObject]; [TObject; TNumber]] [TObject; TNumber] no_vectors demo_set 2 10 10
    eq_refl eq_refl join_demo_lambdas_ok demo_passes eq_refl (NoDup_singleton 0) eq_refl eq_refl ltac:(by repeat constructor) demo_steady
    ltac:(by split) join_no_vectors_ok)
    as (c & s' & made & Hc & Hm & Hw); [lia|vm_compute; discriminate|vm_compute; lia|vm_compute; lia|].
  destruct join_demo_run_ok as (p & p' & Hr & Hd & Hreq). exists p, p'. split; [exact Hr|]. split; [exact Hd|].
  rewrite Hc in Hr. injection Hm as <- <-. cbv zeta in Hw. cbn [fmap list_fmap fst snd] in Hw. rewrite Hr, Hd in Hw.
  destruct Hw as (_ & filled & ls & Hrel & _ & Hf & Hcat); [rewrite Hreq; vm_compute; discriminate|].
  exists filled, ls. by split_and!.
Defined.

(** A table with the rows of a page. *)
Definition table_with (ps : list (Z * list Z)) : JoinPairArray (list Z) :=
  match JoinMap_default with
  | Ret m => (JoinMap_store_all [0]%Z ps m).2
  | _ => MkJoinPairArray 0 0 0 [] []
  end.

Lemma table_with_ok ps : (Z.of_nat (length ps) ≤ max_entries)%Z → jwf (table_with ps) ∧ to_multimap (table_with ps) = spec_pushes ∅ ps.
Proof.
  intros Hn. destruct (JoinMap_default_spec (V:=list Z)) as (m0 & Hm0 & Hwf0 & Ht0 & Hmm0).
  destruct (JoinMap_store_all_spec [0]%Z 0 ps m0 Hwf0 Ht0 Hn) as (m & Hm & Hwf & _ & Hmm). unfold table_with. rewrite Hm0, Hm. by rewrite <- Hmm0.
Qed.

Definition demo_page (l : list (list (value Z))) : join_page Z := MkJoinPage (table_with (join_pair [0%Z] 1 [0] <$> l)) (length l) (λ _, rplenty).

Definition demo_left : list (list (list (value Z))) :=
  [[[VObject (Some 11); VNumber 1]; [VObject (Some 12); VNumber 2]]; [[VObject (Some 21); VNumber 1]]]%Z.

Lemma demo_pages_hold : Forall2 (join_holds [0%Z] 1 [0]) (demo_page <$> demo_left) demo_left.
Proof.
  assert (∀ l, (Z.of_nat (length l) ≤ max_entries)%Z → join_holds [0%Z] 1 [0] (demo_page l) l) as Hpage.
  { intros l Hl. apply table_with_ok. by rewrite length_fmap. }
  apply Forall2_fmap_l, Forall_Forall2_diag. unfold demo_left. rewrite !Forall_cons. split; [apply Hpage; simpl; slots_lia|].
  split; [apply Hpage; simpl; slots_lia|constructor].
Qed.

Lemma broadcast_join_spec_witness :
  ∃ m0 st m, JoinSinkMerger_createNewOutputContainer = Ret m0 ∧
    merge_all [0%Z] (λ _ _ _, rplenty) (jp_map <$> (demo_page <$> demo_left)) (Merging (Merger 0 0 0) m0) = (Ret tt, Merging st m) ∧
    stage_rows demo_meaning (Probe [0] 1 [0] false (Broadcast (Some m)) (λ _ _ _, true)) [[VObject (Some 5); VNumber 1]; [VObject (Some 6); VNumber 3]]%Z =
      [[VObject (Some 5); VObject (Some 11)]; [VObject (Some 5); VObject (Some 21)]]%Z.
Proof.
  destruct (JoinMap_default_spec (V:=list Z)) as (m0 & Hm0 & _).
  destruct (broadcast_join_spec [0%Z] 1 [0] (demo_page <$> demo_left) demo_left (λ _ _ _, rplenty) m0 demo_meaning [0] 1 [0] false (λ _ _ _, true)
    demo_pages_hold Hm0 ltac:(by split) ltac:(vm_compute; discriminate) eq_refl) as (st & m & Hrun & _ & Hrows).
  exists m0, st, m. split; [exact Hm0|]. split; [exact Hrun|]. rewrite Hrows. vm_compute. reflexivity.
Defined.
