(* ===== verification/PartitionedQuery.v ===== *)
(** * PartitionedQuery: hash-partitioned joins

    The steps of a partitioned join put together.  A query with a
    [PartitionedJoinSink] builds the tables of every partition on its pages
    ([partitioned_build_spec]); the tables for a node are sent there by a
    [JoinSinkShuffler] and merged, partition by partition, with a
    [JoinSinkMerger]; and a [PartitionedJoinProbe] over the merged tables joins
    the rows of the node with the rows of the build ([partitioned_join_spec]). *)

From S2P Require Import Prelude.
From S2P Require Import HashProbe.
From S2P Require Import PairArray.
From S2P Require Import JoinPairArray.
From S2P Require Import JoinMapPush.
From S2P Require Import Pipeline.
From S2P Require Import TupleSet.
From S2P Require Import Executor.
From S2P Require Import JoinProbe.
From S2P Require Import JoinSink.
From S2P Require Import Stages.
From S2P Require Import Scan.
From S2P Require Import TupleQuery.
From S2P Require Import JoinTables.
From S2P Require Import PartitionedJoin.
From S2P Require Import JoinMerge.
From S2P Require Import JoinShuffle.
From S2P Require Import JoinQuery.

(** The merge of one partition, from the vectors of tables that arrive. *)
Definition with_ids {O} (pms : list (partition_map O)) : list (nat * JoinPairArray (list O)) := (λ pm, (partitionId pm, pm_table pm)) <$> pms.

Section facts.
Context {RS : RecordSize} {O : Type} (blank : list O) (numPartitionsPerNode numNodes keyAtt : nat) (atts : list nat).
Local Abbreviation row := (list (value O)).
Local Abbreviation table := (JoinPairArray (list O)).
Local Abbreviation holds := (partition_holds blank numPartitionsPerNode numNodes keyAtt atts).
Implicit Types (o : partition_page O) (l : list row) (pm : partition_map O) (ts pms : list (partition_map O)).
Hypothesis some_partitions : 0 < numPartitionsPerNode * numNodes.

(** The tables for a node, page after page. *)
Definition node_maps (node : nat) (pages : list (partition_page O)) : list (partition_map O) :=
  concat ((λ o, default [] (pp_maps o !! node)) <$> pages).

(** *** Copies have the matches of the originals *)

Definition matches_at (id : nat) (h : Z) pms : list (list O) :=
  concat ((λ jp, matches_in jp h) <$> of_partition id (with_ids pms)).

Lemma matches_at_app id h pms pms' : matches_at id h (pms ++ pms') = matches_at id h pms ++ matches_at id h pms'.
Proof using. clear. unfold matches_at, of_partition, with_ids. by rewrite fmap_app, filter_app, !fmap_app, concat_app. Qed.

Lemma matches_at_cons id h pm pms : matches_at id h (pm :: pms) = (if decide (partitionId pm = id) then matches_in (pm_table pm) h else []) ++ matches_at id h pms.
Proof using. clear. unfold matches_at, of_partition, with_ids. rewrite fmap_cons, filter_cons. simpl. by destruct (decide _). Qed.

Lemma copy_matches pm pm' ps h : copy_of pm pm' ps → matches_in (pm_table pm') h = values_under h ps.
Proof using. clear. intros (_ & _ & _ & Hm). unfold matches_in. by rewrite Hm, spec_pushes_lookup, lookup_empty. Qed.

Lemma copies_matches id h pm ts : jwf (pm_table pm) → copies_of pm ts → matches_at id h ts = matches_at id h [pm].
Proof using.
  clear. intros Hwf (fins & Hts & Hfins). rewrite matches_at_cons. unfold matches_at at 2. simpl. rewrite app_nil_r.
  assert (matches_at id h ts = if decide (partitionId pm = id) then values_under h (concat fins) else []) as ->.
  { clear Hfins. induction Hts as [|pm' fin ts fins Hcopy _ IH]; [by destruct (decide _)|]. rewrite matches_at_cons, IH.
    rewrite (copy_matches _ _ _ h Hcopy). destruct Hcopy as [-> _]. destruct (decide _); [|done]. cbn [concat]. unfold values_under. by rewrite filter_app, fmap_app. }
  rewrite Hfins. destruct (decide _); [|done]. by apply values_under_table.
Qed.

Lemma all_copies_matches id h pms tss : Forall (λ pm, jwf (pm_table pm)) pms → Forall2 copies_of pms tss → matches_at id h (concat tss) = matches_at id h pms.
Proof using.
  clear. intros Hwf Hc. induction Hc as [|pm ts pms tss Hpm _ IH]; [done|]. apply Forall_cons in Hwf as [Hw Hwf]. cbn [concat].
  rewrite matches_at_app, (IH Hwf), (copies_matches id h pm ts Hw Hpm). by rewrite <- matches_at_app.
Qed.

Lemma tuples_in_app (ms ms' : list table) : tuples_in (ms ++ ms') = tuples_in ms ++ tuples_in ms'.
Proof using. clear. unfold tuples_in. by rewrite fmap_app, concat_app. Qed.

Definition size_at (id : nat) pms : nat := length (tuples_in (of_partition id (with_ids pms))).

Lemma size_at_app id pms pms' : size_at id (pms ++ pms') = size_at id pms + size_at id pms'.
Proof using. clear. unfold size_at, of_partition, with_ids. by rewrite fmap_app, filter_app, fmap_app, tuples_in_app, length_app. Qed.

Lemma size_at_cons id pm pms : size_at id (pm :: pms) = (if decide (partitionId pm = id) then length (pairs (groups (pm_table pm))) else 0) + size_at id pms.
Proof using.
  clear. unfold size_at, of_partition, with_ids. rewrite fmap_cons, filter_cons. simpl. destruct (decide _); [|done].
  unfold tuples_in. rewrite !fmap_cons. cbn [concat]. by rewrite length_app.
Qed.

Lemma copies_size id pm ts : jwf (pm_table pm) → copies_of pm ts → size_at id ts = size_at id [pm].
Proof using.
  clear. intros Hwf (fins & Hts & Hfins). rewrite size_at_cons. unfold size_at at 2. simpl. rewrite Nat.add_0_r, <- Hfins. clear Hfins.
  induction Hts as [|pm' fin ts fins Hcopy _ IH]; [by destruct (decide _)|]. rewrite size_at_cons, IH.
  destruct Hcopy as (-> & _ & Hw & Hm). destruct (decide _); [|done]. cbn [concat]. by rewrite length_app, (held_size _ _ Hw Hm).
Qed.

Lemma all_copies_size id pms tss : Forall (λ pm, jwf (pm_table pm)) pms → Forall2 copies_of pms tss → size_at id (concat tss) = size_at id pms.
Proof using.
  clear. intros Hwf Hc. induction Hc as [|pm ts pms tss Hpm _ IH]; [done|]. apply Forall_cons in Hwf as [Hw Hwf]. cbn [concat].
  rewrite size_at_app, (IH Hwf), (copies_size id pm ts Hw Hpm). by rewrite <- size_at_app.
Qed.

(** *** The tables of a build *)

(** The rows of a partition with the hash of a row. *)
Definition same_place (id : nat) (h : Z) l : list row :=
  filter (λ b, partition_of numPartitionsPerNode numNodes (hash_at keyAtt b) = id ∧ jm_hash (hash_at keyAtt b) = jm_hash h) l.

Lemma values_under_place id h l :
  values_under h (pairs_of numPartitionsPerNode numNodes id (join_pair blank keyAtt atts <$> l)) = tuple_of blank atts <$> same_place id h l.
Proof using.
  clear. unfold values_under, pairs_of, same_place. induction l as [|b l IH]; [done|]. rewrite fmap_cons, !filter_cons. simpl.
  destruct (decide (partition_of _ _ (hash_at keyAtt b) = id)) as [Hp|Hp].
  - rewrite filter_cons. simpl. destruct (decide (jm_hash (hash_at keyAtt b) = jm_hash h)); [rewrite decide_True by done; simpl; by f_equal|by rewrite decide_False by naive_solver].
  - by rewrite decide_False by naive_solver.
Qed.

(** The tables of one node on one page. *)
Lemma row_matches o l node j h (ts : list (partition_map O)) : 
  holds o l → pp_maps o !! node = Some ts → j < numPartitionsPerNode →
  matches_at (node * numPartitionsPerNode + j) h ts = tuple_of blank atts <$> same_place (node * numPartitionsPerNode + j) h l ∧
  size_at (node * numPartitionsPerNode + j) ts = length (pairs_of numPartitionsPerNode numNodes (node * numPartitionsPerNode + j) (join_pair blank keyAtt atts <$> l)).
Proof using.
  clear some_partitions. intros [[Hn Hp] Hmaps] Hts Hj. pose proof (Forall_lookup_1 _ _ _ _ Hp Hts) as Hlen. simpl in Hlen.
  assert (∀ k pm, ts !! k = Some pm → partitionId pm = node * numPartitionsPerNode + k ∧ jwf (pm_table pm) ∧
    to_multimap (pm_table pm) = spec_pushes ∅ (pairs_of numPartitionsPerNode numNodes (node * numPartitionsPerNode + k) (join_pair blank keyAtt atts <$> l))) as Hall.
  { intros k pm Hk. destruct (Hmaps node k pm) as (? & _ & ? & ?); [unfold map_at; by rewrite Hts|]. done. }
  destruct (lookup_lt_is_Some_2 ts j ltac:(lia)) as [pm Hpm]. destruct (Hall j pm Hpm) as (Hid & Hwf & Hm).
  assert (∀ k pm', ts !! k = Some pm' → partitionId pm' = node * numPartitionsPerNode + j → k = j) as Huniq.
  { intros k pm' Hk Hid'. destruct (Hall k pm' Hk) as (Hid'' & _). lia. }
  rewrite <- (take_drop_middle ts j pm Hpm), matches_at_app, matches_at_cons, size_at_app, size_at_cons. rewrite !decide_True by done.
  assert (∀ us, (∀ pm', pm' ∈ us → partitionId pm' ≠ node * numPartitionsPerNode + j) →
    matches_at (node * numPartitionsPerNode + j) h us = [] ∧ size_at (node * numPartitionsPerNode + j) us = 0) as Hno.
  { intros us Hus. induction us as [|pm' us IH]; [done|]. rewrite matches_at_cons, size_at_cons, !decide_False by (apply Hus; by left).
    apply IH. intros pm'' Hin. apply Hus. by right. }
  destruct (Hno (take j ts)) as [-> ->].
  { intros pm' [k Hk]%list_elem_of_lookup_1 Hid'. apply lookup_take_Some in Hk as [Hk ?]. pose proof (Huniq k pm' Hk Hid'). lia. }
  destruct (Hno (drop (S j) ts)) as [-> ->].
  { intros pm' [k Hk]%list_elem_of_lookup_1 Hid'. rewrite lookup_drop in Hk. pose proof (Huniq _ pm' Hk Hid'). lia. }
  rewrite app_nil_r, Nat.add_0_r. split.
  - rewrite <- values_under_place. simpl. unfold matches_in. by rewrite Hm, spec_pushes_lookup, lookup_empty.
  - by apply held_size.
Qed.

Lemma node_matches (pages : list (partition_page O)) (ls : list (list row)) node j h :
  Forall2 holds pages ls → node < numNodes → j < numPartitionsPerNode →
  matches_at (node * numPartitionsPerNode + j) h (node_maps node pages) = tuple_of blank atts <$> same_place (node * numPartitionsPerNode + j) h (concat ls) ∧
  size_at (node * numPartitionsPerNode + j) (node_maps node pages) ≤ length (concat ls).
Proof using.
  clear some_partitions. intros Hh Hnode Hj. induction Hh as [|o l pages ls Ho _ [IH1 IH2]]; [done|]. unfold node_maps in *. rewrite fmap_cons. cbn [concat].
  destruct (lookup_lt_is_Some_2 (pp_maps o) node) as [ts Hts]; [destruct Ho as [[Hn _] _]; lia|]. rewrite Hts.
  destruct (row_matches o l node j h ts Ho Hts Hj) as [Hm Hs]. change (default [] (Some ts)) with ts. rewrite matches_at_app, size_at_app, IH1, Hs, Hm. split.
  - unfold same_place. by rewrite filter_app, fmap_app.
  - rewrite length_app. pose proof (length_filter (λ kv : Z * list O, partition_of numPartitionsPerNode numNodes kv.1 = node * numPartitionsPerNode + j) (join_pair blank keyAtt atts <$> l)) as Hf.
    unfold pairs_of. rewrite length_fmap in Hf. lia.
Qed.

Lemma node_maps_ok (pages : list (partition_page O)) (ls : list (list row)) node :
  Forall2 holds pages ls → node < numNodes → Forall (λ pm, jwf (pm_table pm) ∧ widths blank (pm_table pm) ∧ length (pairs (groups (pm_table pm))) ≤ length (concat ls)) (node_maps node pages).
Proof using.
  clear some_partitions. intros Hh Hnode. induction Hh as [|o l pages ls Ho _ IH]; [constructor|]. unfold node_maps in *. rewrite fmap_cons. cbn [concat].
  apply Forall_app. split.
  2:{ eapply Forall_impl; [exact IH|]. intros pm (? & ? & ?). split_and!; try done. rewrite length_app. lia. }
  apply Forall_lookup. intros k pm Hk. destruct (pp_maps o !! node) as [ts|] eqn:Hts; [|done]. simpl in Hk.
  destruct (gh_maps _ _ _ _ Ho node k pm) as (_ & _ & Hwf & Hm); [unfold map_at; by rewrite Hts|]. split; [done|]. split.
  - intros h t Ht. rewrite Hm in Ht. destruct (spec_pushes _ _ !! h) as [ts'|] eqn:Hl; [|by apply elem_of_nil in Ht].
    rewrite <- Hm in Hl. assert (jm_hash h = h) as Hhash by (apply (proj2 (proj2 (order_keys _ Hwf))), (proj1 (proj2 (order_keys _ Hwf))); by eexists).
    pose proof (values_under_place (node * numPartitionsPerNode + k) h l) as Hv.
    pose proof (spec_pushes_lookup h (pairs_of numPartitionsPerNode numNodes (node * numPartitionsPerNode + k) (join_pair blank keyAtt atts <$> l)) ∅) as Hsp.
    rewrite <- Hm, Hhash, Hl, lookup_empty, Hv in Hsp. simpl in Hsp, Ht. rewrite Hsp in Ht. apply list_elem_of_fmap in Ht as (r & -> & _). apply tuple_of_length.
  - rewrite (held_size _ _ Hwf Hm), length_app.
    pose proof (length_filter (λ kv : Z * list O, partition_of numPartitionsPerNode numNodes kv.1 = node * numPartitionsPerNode + k) (join_pair blank keyAtt atts <$> l)) as Hf.
    unfold pairs_of. rewrite length_fmap in Hf. lia.
Qed.
End facts.

(** ** The tables of a node *)

(** The thread of a partition, over the vectors on the pages that arrive. *)
Fixpoint merge_vectors {RS : RecordSize} {O} (blank : list O) (id : nat) (sp : nat → nat → nat → nat → row_space) (vectors : list (list (partition_map O))) : M (merging O) unit :=
  match vectors with
  | [] => mret tt
  | mapsToMerge :: rest => JoinSinkMerger_writeVectorOut blank id (sp 0) (with_ids mapsToMerge) ;; merge_vectors blank id (λ n, sp (S n)) rest
  end.

Section node.
Context {RS : RecordSize} {O : Type} (blank : list O).
Implicit Types (m : JoinPairArray (list O)) (vectors : list (list (partition_map O))).

Lemma merge_vectors_ok id vectors : ∀ sp nk m n,
  Forall (λ pm, jwf (pm_table pm) ∧ widths blank (pm_table pm)) (concat vectors) → jwf m → jtight n m → (∀ v i c j, roomy_row (sp v i c j)) →
  (n + Z.of_nat (size_at id (concat vectors)) ≤ max_entries)%Z →
  ∃ st m', merge_vectors blank id sp vectors (Merging (Merger nk 0 0) m) = (Ret tt, Merging st m') ∧ jwf m' ∧
    to_multimap m' = spec_pushes (to_multimap m) (tuples_in (of_partition id (with_ids (concat vectors)))).
Proof.
  induction vectors as [|v vectors IH]; intros sp nk m n Hall Hm Ht Hroom Hn.
  { exists (Merger nk 0 0), m. by split_and!. }
  cbn [concat] in *. apply Forall_app in Hall as [Hv Hall]. rewrite size_at_app in Hn. cbn [merge_vectors].
  pose proof (writeVectorOut_ok blank id (with_ids v) (sp 0) nk m n) as Hw. fold (size_at id v) in Hw.
  rewrite M_bind_unfold. specialize (Hw ltac:(apply Forall_fmap; exact Hv) Hm Ht ltac:(lia)).
  destruct (JoinSinkMerger_writeVectorOut _ _ _ _ _) as [[[]| |[| [] |]|] [st m1]]; try done.
  2:{ destruct Hw as (i & c & j & Hno). by destruct Hno. }
  destruct st as [nk1 mi li]. simpl in Hw. destruct Hw as (-> & -> & Hm1 & Ht1 & Hmm1).
  destruct (IH (λ n, sp (S n)) nk1 m1 _ Hall Hm1 Ht1 (λ v i c j, Hroom (S v) i c j) ltac:(lia)) as (st & m' & Hrun & Hm' & Hmm').
  exists st, m'. split; [done|]. split; [done|]. rewrite Hmm', Hmm1.
  unfold of_partition, with_ids. rewrite fmap_app, filter_app, fmap_app, tuples_in_app, spec_pushes_app. done.
Qed.

Lemma of_partition_jwf id (pms : list (partition_map O)) : Forall (λ pm, jwf (pm_table pm)) pms → Forall jwf (of_partition id (with_ids pms)).
Proof.
  intros Hall. unfold of_partition, with_ids. induction Hall as [|pm pms Hpm _ IH]; [constructor|]. rewrite fmap_cons, filter_cons. simpl.
  destruct (decide _); [by constructor|done].
Qed.

Lemma copies_ok pm ts : widths blank (pm_table pm) → copies_of pm ts → jwf (pm_table pm) → Forall (λ pm, jwf (pm_table pm) ∧ widths blank (pm_table pm)) ts.
Proof.
  intros Hw (fins & Hts & Hfins) Hwf. apply Forall_lookup. intros k pm' Hk. destruct (Forall2_lookup_l _ _ _ _ _ Hts Hk) as (fin & Hfin & _ & _ & Hwf' & Hm).
  split; [done|]. intros h t Ht. rewrite Hm in Ht. destruct (spec_pushes _ _ !! h) as [l|] eqn:Hl; [|by apply elem_of_nil in Ht]. simpl in Ht.
  rewrite <- Hm in Hl. assert (jm_hash h = h) as Hhash by (apply (proj2 (proj2 (order_keys _ Hwf'))), (proj1 (proj2 (order_keys _ Hwf'))); by eexists).
  pose proof (spec_pushes_lookup h fin ∅) as Hsp. rewrite <- Hm, Hhash, Hl, lookup_empty in Hsp. simpl in Hsp. subst l.
  (* the tuple is one of the original *)
  assert (t ∈ matches_in (pm_table pm) h) as Hin.
  { rewrite <- (values_under_table h _ Hwf), <- Hfins, values_under_concat. apply list_elem_of_In, in_concat.
    exists (values_under h fin). split; [|by apply list_elem_of_In]. apply list_elem_of_In, list_elem_of_fmap. exists fin. split; [done|by eapply list_elem_of_lookup_2]. }
  by apply (Hw (jm_hash h)).
Qed.

(** The tables that the threads of a node end with. *)
Lemma partition_tables numPartitionsPerNode numNodes keyAtt atts (pages : list (partition_page O)) (ls : list (list (list (value O)))) node fuel
    (sendspace : nat → nat → shuffle_space) (space : nat → nat → nat → nat → nat → row_space) m0 :
  node < numNodes → Forall2 (partition_holds blank numPartitionsPerNode numNodes keyAtt atts) pages ls →
  Forall (λ pm, (2 * JoinMap_size (pm_table pm) ≤ max_entries)%Z) (node_maps node pages) → (2 * Z.of_nat (length (concat ls)) ≤ max_entries)%Z →
  S (length (concat ls)) < fuel → shuffle_fits sendspace → (∀ i v k c j, roomy_row (space i v k c j)) →
  JoinSinkMerger_createNewOutputContainer = Ret m0 →
  ∃ sent s tables, HashPartitionWork_execute blank sendspace fuel (node_maps node pages) (Shuffling (Shuffler 0 0) []) = (Ret sent, s) ∧
    length tables = numPartitionsPerNode ∧
    ∀ i t, tables !! i = Some t → (∃ st,
      merge_vectors blank (node * numPartitionsPerNode + i) (space i) sent (Merging (Merger 0 0 0) m0) = (Ret tt, Merging st t)) ∧ jwf t ∧
      ∀ h, matches_in t h = tuple_of blank atts <$> same_place numPartitionsPerNode numNodes keyAtt (node * numPartitionsPerNode + i) h (concat ls).
Proof.
  intros Hnode Hh Hsizes Hsize Hfuel Hfits Hroom Hm0. destruct (JoinMap_default_spec (V:=list O)) as (m0' & Hm0' & Hwf0 & Ht0 & Hmm0).
  assert (m0' = m0) as -> by (unfold JoinSinkMerger_createNewOutputContainer in Hm0; congruence).
  pose proof (node_maps_ok blank numPartitionsPerNode numNodes keyAtt atts pages ls node Hh Hnode) as Hok.
  assert (Forall (λ pm, jwf (pm_table pm)) (node_maps node pages)) as Hwf by (eapply Forall_impl; [exact Hok|]; by intros ? [? _]).
  destruct (HashPartitionWork_ok blank sendspace fuel (node_maps node pages)) as (sent & s & tss & Hrun & Hsent & Htss).
  { apply Forall_lookup. intros k pm Hk. destruct (Forall_lookup_1 _ _ _ _ Hok Hk) as (? & ? & ?). pose proof (Forall_lookup_1 _ _ _ _ Hsizes Hk).
    simpl in *. split; [done|]. split; [done|]. slots_lia. }
  { done. }
  { eapply Forall_impl; [exact Hok|]. intros pm (_ & _ & ?). lia. }
  exists sent, s. assert (Forall (λ pm, jwf (pm_table pm) ∧ widths blank (pm_table pm)) (concat sent)) as Hcopies.
  { rewrite Hsent. clear -Hok Htss. induction Htss as [|pm ts pms tss Hts _ IH]; [constructor|]. apply Forall_cons in Hok as [(? & ? & _) Hok].
    cbn [concat]. apply Forall_app. split; [by eapply copies_ok|by apply IH]. }
  set (run i := merge_vectors blank (node * numPartitionsPerNode + i) (space i) sent (Merging (Merger 0 0 0) m0)).
  exists ((λ i, mg_map (run i).2) <$> seq 0 numPartitionsPerNode). split; [done|]. split; [by rewrite length_fmap, length_seq|].
  intros i t Ht. apply list_lookup_fmap_Some in Ht as (i' & -> & Hi). apply lookup_seq in Hi as [-> Hi]. simpl in *.
  destruct (node_matches blank numPartitionsPerNode numNodes keyAtt atts pages ls node i 0 Hh Hnode Hi) as [_ Hs].
  assert (size_at (node * numPartitionsPerNode + i) (concat sent) ≤ length (concat ls)) as Hs' by by rewrite Hsent, (all_copies_size _ _ _ Hwf Htss).
  destruct (merge_vectors_ok (node * numPartitionsPerNode + i) sent (space i) 0 m0 0 Hcopies Hwf0 Ht0 (Hroom i) ltac:(lia)) as (st & m & Hm & Hwfm & Hmm).
  assert (mg_map (run i).2 = m) as -> by (unfold run; by rewrite Hm). split; [by exists st|]. split; [done|]. intros h.
  rewrite Hmm0 in Hmm. rewrite (merged_matches _ m h (of_partition_jwf _ _ (Forall_impl _ _ _ Hcopies (λ _ H, proj1 H))) Hmm).
  fold (matches_at (node * numPartitionsPerNode + i) h (concat sent)). rewrite Hsent, (all_copies_matches _ h _ _ Hwf Htss).
  by apply (node_matches blank numPartitionsPerNode numNodes keyAtt atts pages ls node i h Hh Hnode Hi).
Qed.
End node.

(** ** Properties *)

(** [C5] The build side of a partitioned join that is not a cross product.  While the
    tables and their overflow lists can grow ([steady_push]: only a new hash, or
    a component of a tuple, may find no room; otherwise a row is lost,
    [JoinSink_loses_tuple]) and a fresh page has room for its first row, the query
    finishes, or exits because the lambda of a stage, or a probe, runs out of space
    on a fresh page; and in the end the pages hold, node by node and partition by
    partition, the join tuples of the rows that the stages make (at most
    [max_entries]), each in the table of its partition and under its hash, and
    each exactly once, page after page in the order of the rows.  The stages are
    as in [set_query_spec] and pass no attribute on twice, the columns of the sink
    have the types it reads, and fewer than about 10^9 pages are taken. *)
Theorem partitioned_build_spec {RS : RecordSize} {O} (qs : list (stage (O:=O))) (blank : list O) (numPartitionsPerNode numNodes keyAtt : nat)
    (useTheseAtts whereEveryoneGoes atts : list nat) (partitionedJoinType : JoinType)
    (answers : nat → nat → row_space) (meaning : (nat → list (option O) → outcome (value O)) → list (option O) → value O)
    (schemas : list (list col_type)) (σ : list col_type) (s : store O) (set_pages : list (Z * list (option O))) (chunk pages chunks : nat) :
  0 < numPartitionsPerNode * numNodes → partitionedJoinType ≠ CrossProduct →
  typecheck_all [TObject] qs = Some schemas → last schemas = Some σ →
  Forall (lambda_ok meaning) qs → Forall (λ q, NoDup (passes q)) qs →
  mapM (λ a, useTheseAtts !! a) whereEveryoneGoes = Some atts → NoDup atts → length atts = length blank →
  σ !! keyAtt = Some TNumber → Forall (λ a, σ !! a = Some TObject) atts →
  (∀ page i, steady_push (rs_push (answers page i))) → (∀ page, roomy_row (answers page 0)) → store_ok s → 0 < chunk →
  let objs := concat set_pages.*2 in
  let result := query_rows qs meaning objs in
  (Z.of_nat (length result) ≤ max_entries)%Z → length objs < chunks → length result + 2 ≤ pages →
  ∃ c s' made, scan_new s set_pages chunk = Ret c ∧ mapM construct qs (sc_heap c) = (Ret made, s') ∧
  let ops := query_ops qs made.*2 (partition_ops blank numPartitionsPerNode numNodes keyAtt useTheseAtts whereEveryoneGoes partitionedJoinType answers) in
  match run ops pages chunks (MkPipeline (query_start s' made.*1 c) [] []) with
  | (Ret _, p) =>
      (Z.of_nat (length (requested p)) + DELAY_VALUE ≤ ALL_ITERATIONS)%Z →
      match destroy ops p with
      | (Ret _, p') => unwrittenPages p' = [] ∧
          ∃ filled ls, released p' ≡ₚ filled ∧ requested p' = event_page <$> filled ∧
            Forall2 (event_holds (partition_holds blank numPartitionsPerNode numNodes keyAtt atts)) filled ls ∧ concat ls = result
      | _ => False
      end
  | (Exit _, _) => ∃ q page, q ∈ qs ∧ runs_out page q
  | _ => False
  end.
Proof.
  intros Hsome Hby Hty Hlast Hlam Hpass Hatts Hnd Hlen Hkey Hobj Hsteady Hroomy Hs Hchunk objs result Hsize Hchunks Hpages.
  pose proof (partition_laws blank numPartitionsPerNode numNodes keyAtt useTheseAtts whereEveryoneGoes partitionedJoinType answers atts Hatts σ (length result)
    Hsome Hby (proj2 (TCEq_eq _ _) Hkey) Hobj Hlen Hnd Hsteady Hroomy Hsize) as Hlaws.
  exact (run_query_ok qs (partition_ops blank numPartitionsPerNode numNodes keyAtt useTheseAtts whereEveryoneGoes partitionedJoinType answers) meaning schemas σ true
    _ _ _ (length result) s set_pages chunk pages chunks Hty Hlast Hlam (λ _, Hpass) Hs Hchunk (le_n _) Hchunks Hpages).
Qed.

(** [C2] A partitioned join on one node, when nothing runs out of space but the pages
    that tables are copied to.  The tables for the node, from the pages of a
    build, are sent there and merged by the threads of its partitions; a probe
    that is given the merged tables is a lawful stage, and it makes of the rows
    that belong to the node exactly the rows of the nested-loop join: every row
    with the components of every row of the build that is in its partition and
    has the same hash, in the order of the build.  Assumed: while tables are sent
    a copy can grow, the tables on a page are always pushed, and a new table
    after the first has room for itself and its first tuple ([shuffle_fits];
    otherwise tuples are sent twice, [JoinSinkShuffler_forgets_position]); a
    merged table has room for every tuple ([roomy_row]; otherwise the rest of a
    table is left out); the join is not a cross product; twice the tuples of a
    table, and of all tables, are at most [max_entries]. *)
Theorem partitioned_join_spec {RS : RecordSize} {O} (blank : list O) (numPartitionsPerNode numNodes keyAtt : nat) (atts : list nat)
    (pages : list (partition_page O)) (ls : list (list (list (value O)))) (node fuel : nat) (sendspace : nat → nat → shuffle_space)
    (space : nat → nat → nat → nat → nat → row_space) (m0 : JoinPairArray (list O))
    (meaning : (nat → list (option O) → outcome (value O)) → list (option O) → value O)
    (matches : list nat) (whichAtt : nat) (positions : list nat) (needToSwapLHSAndRhs : bool) (partitionedJoinType : JoinType) (threadId : nat)
    (fits : nat → nat → nat → bool) :
  0 < numPartitionsPerNode * numNodes → partitionedJoinType ≠ CrossProduct → node < numNodes →
  Forall2 (partition_holds blank numPartitionsPerNode numNodes keyAtt atts) pages ls →
  Forall (λ pm, (2 * JoinMap_size (pm_table pm) ≤ max_entries)%Z) (node_maps node pages) → (2 * Z.of_nat (length (concat ls)) ≤ max_entries)%Z →
  S (length (concat ls)) < fuel → shuffle_fits sendspace → (∀ i v k c j, roomy_row (space i v k c j)) →
  JoinSinkMerger_createNewOutputContainer = Ret m0 → length positions = length blank →
  ∃ sent s tables, HashPartitionWork_execute blank sendspace fuel (node_maps node pages) (Shuffling (Shuffler 0 0) []) = (Ret sent, s) ∧
    length tables = numPartitionsPerNode ∧
    (∀ i t, tables !! i = Some t → ∃ st,
      merge_vectors blank (node * numPartitionsPerNode + i) (space i) sent (Merging (Merger 0 0 0) m0) = (Ret tt, Merging st t)) ∧
    let q := Probe matches whichAtt positions needToSwapLHSAndRhs (Partitioned numPartitionsPerNode numNodes tables partitionedJoinType threadId) fits in
    lambda_ok meaning q ∧
    ∀ rows, Forall (λ r, partition_of numPartitionsPerNode numNodes (hash_at whichAtt r) / numPartitionsPerNode = node) rows →
      stage_rows meaning q rows = rows ≫= λ r, (λ b,
        let table := placed positions (tuple_of blank atts b) in
        if needToSwapLHSAndRhs then table ++ project matches r else project matches r ++ table) <$>
          same_place numPartitionsPerNode numNodes keyAtt (partition_of numPartitionsPerNode numNodes (hash_at whichAtt r)) (hash_at whichAtt r) (concat ls).
Proof.
  intros Hsome Hby Hnode Hh Hsizes Hsize Hfuel Hfits Hroom Hm0 Hpos.
  destruct (partition_tables blank numPartitionsPerNode numNodes keyAtt atts pages ls node fuel sendspace space m0 Hnode Hh Hsizes Hsize Hfuel Hfits Hroom Hm0)
    as (sent & s & tables & Hsent & Hlen & Htables). exists sent, s, tables. split; [done|]. split; [done|]. split; [intros i t Ht; by apply Htables|].
  set (pr := Partitioned numPartitionsPerNode numNodes tables partitionedJoinType threadId).
  (* the table of a hash *)
  assert (∀ h, ∃ t, table_of pr h = Ret t ∧ tables !! (partition_of numPartitionsPerNode numNodes h mod numPartitionsPerNode) = Some t) as Htable.
  { intros h. destruct (partition_place numPartitionsPerNode numNodes Hsome h) as (_ & Hlt & _).
    destruct (lookup_lt_is_Some_2 tables (partition_of numPartitionsPerNode numNodes h mod numPartitionsPerNode) ltac:(lia)) as [t Ht]. exists t. split; [|done].
    simpl. rewrite decide_False by done. unfold probe_index. rewrite decide_False by lia. simpl.
    unfold partition_of in Ht. rewrite Z2Nat.inj_mod, Nat2Z.id; [by rewrite Ht|apply Z.mod_pos_bound; lia|lia]. }
  split.
  - intros h. destruct (Htable h) as (t & Ht & Hi). exists t. split; [done|]. destruct (Htables _ _ Hi) as (_ & Hwf & Hm). split; [done|].
    intros h' x Hx. rewrite Hm in Hx. apply list_elem_of_fmap in Hx as (b & -> & _). by rewrite tuple_of_length.
  - intros rows Hrows. cbn [stage_rows]. apply Forall_bind_ext. eapply Forall_impl; [exact Hrows|]. intros r Hr. simpl in Hr.
    unfold matches_of. destruct (Htable (hash_at whichAtt r)) as (t & -> & Hi). destruct (Htables _ _ Hi) as (_ & _ & Hm). rewrite Hm, <- list_fmap_compose.
    destruct (partition_place numPartitionsPerNode numNodes Hsome (hash_at whichAtt r)) as (_ & _ & Hplace). rewrite Hr in Hplace. by rewrite Hplace.
Qed.

(** ** Witnesses

    Two nodes with two partitions each; the build of [JoinQuery], and the tables of
    its pages for node 0, which has the hashes 0 and 1 modulo 4. *)

Local Abbreviation demo_ops := (query_ops demo_stages [[]] (partition_ops [0%Z] 2 2 1 [0] [0] HashPartitionedJoin demo_answers)).
Local Abbreviation demo_scan := (match scan_new no_vectors demo_set 2 with Ret c => c | _ => Scan no_vectors [] [] None None None 0 0 None end).
Local Abbreviation demo_run := (run demo_ops 10 10 (MkPipeline (query_start (sc_heap demo_scan) [∅] demo_scan) [] [])).

Local Existing Instance small_slots.

Lemma demo_partition_pages :
  match demo_run with
  | (Ret _, p) =>
      match destroy demo_ops p with
      | (Ret _, p') => Some (length (requested p), length (released p'))
      | _ => None
      end
  | _ => None
  end = Some (3, 3).
Proof. vm_compute. reflexivity. Qed.

Lemma demo_partition_run_ok :
  ∃ p p', demo_run = (Ret tt, p) ∧ destroy demo_ops p = (Ret tt, p') ∧ length (requested p) = 3.
Proof.
  pose proof demo_partition_pages as Hpages. destruct demo_run as [[[]| | |] p]; try discriminate Hpages.
  destruct (destroy demo_ops p) as [[[]| | |] p'] eqn:Hd; try discriminate Hpages. injection Hpages as Hreq _.
  exists p, p'. split; [reflexivity|]. by split.
Qed.

Lemma partitioned_build_spec_witness :
  ∃ p p', demo_run = (Ret tt, p) ∧ destroy demo_ops p = (Ret tt, p') ∧
    ∃ filled ls, released p' ≡ₚ filled ∧ Forall2 (event_holds (partition_holds [0%Z] 2 2 1 [0])) filled ls ∧
      concat ls = [[VObject (Some 11); VNumber 1]; [VObject (Some 12); VNumber 2]; [VObject (Some 21); VNumber 1];
                   [VObject (Some 31); VNumber 1]; [VObject (Some 42); VNumber 2]]%Z.
Proof.
  destruct (partitioned_build_spec demo_stages [0%Z] 2 2 1 [0] [0] [0] HashPartitionedJoin demo_answers demo_meaning [[TObject]; [TObject; TNumber]] [TObject; TNumber]
    no_vectors demo_set 2 10 10 ltac:(lia) ltac:(done)
    eq_refl eq_refl join_demo_lambdas_ok demo_passes eq_refl (NoDup_singleton 0) eq_refl eq_refl ltac:(by repeat constructor) demo_steady
    ltac:(by split) join_no_vectors_ok)
    as (c & s' & made & Hc & Hm & Hw); [lia|vm_compute; discriminate|vm_compute; lia|vm_compute; lia|].
  destruct demo_partition_run_ok as (p & p' & Hr & Hd & Hreq). exists p, p'. split; [exact Hr|]. split; [exact Hd|].
  rewrite Hc in Hr. injection Hm as <- <-. cbv zeta in Hw. cbn [fmap list_fmap fst snd] in Hw. rewrite Hr, Hd in Hw.
  destruct Hw as (_ & filled & ls & Hrel & _ & Hf & Hcat); [rewrite Hreq; vm_compute; discriminate|].
  exists filled, ls. by split_and!.
Defined.

Definition demo_grid (l : list (list (value Z))) : partition_page Z :=
  MkPartitionPage ((λ i, (λ j, PartitionMap (table_with (pairs_of 2 2 (i * 2 + j) (join_pair [0%Z] 1 [0] <$> l))) (i * 2 + j) 2) <$> seq 0 2) <$> seq 0 2)
    (length l) (λ _, rplenty).

Lemma demo_grid_holds l : (Z.of_nat (length l) ≤ max_entries)%Z → partition_holds [0%Z] 2 2 1 [0] (demo_grid l) l.
Proof.
  intros Hl. split; [split; [done|by repeat constructor]|]. intros i j pm Hpm. unfold map_at in Hpm. apply bind_Some in Hpm as (ts & Hts & Hpm).
  apply list_lookup_fmap_Some in Hts as (i' & -> & Hi). apply list_lookup_fmap_Some in Hpm as (j' & -> & Hj). apply lookup_seq in Hi as [-> _], Hj as [-> _].
  split; [done|]. split; [done|]. apply table_with_ok. unfold pairs_of.
  pose proof (length_filter (λ kv : Z * list Z, partition_of 2 2 kv.1 = i * 2 + j) (join_pair [0%Z] 1 [0] <$> l)) as Hf. rewrite length_fmap in Hf. simpl in *. lia.
Qed.

Lemma demo_grids_hold : Forall2 (partition_holds [0%Z] 2 2 1 [0]) (demo_grid <$> demo_left) demo_left.
Proof.
  apply Forall2_fmap_l, Forall_Forall2_diag. unfold demo_left. rewrite !Forall_cons. split; [apply demo_grid_holds; simpl; slots_lia|].
  split; [apply demo_grid_holds; simpl; slots_lia|constructor].
Qed.

Lemma demo_sizes : Forall (λ pm, (2 * JoinMap_size (pm_table pm) ≤ max_entries)%Z) (node_maps 0 (demo_grid <$> demo_left)).
Proof.
  assert (Forall (λ z, (2 * z ≤ max_entries)%Z) ((λ pm, JoinMap_size (pm_table pm)) <$> node_maps 0 (demo_grid <$> demo_left))) as Hf.
  { assert (((λ pm, JoinMap_size (pm_table pm)) <$> node_maps 0 (demo_grid <$> demo_left)) = [0; 1; 0; 1]%Z) as -> by (vm_compute; reflexivity).
    rewrite !Forall_cons. split_and!; [slots_lia..|constructor]. }
  exact (proj1 (Forall_fmap _ _ _) Hf).
Qed.

Definition demo_send : nat → nat → shuffle_space := λ _ _, ShuffleSpace true (λ i, if i <? 1 then rplenty else RowSpace jplenty (λ _, false)) true true.

Lemma demo_send_fits : shuffle_fits demo_send.
Proof. intros i n. split; [intros k; simpl; by destruct (k <? 1)|]. by split_and!. Qed.

(** Every page that is sent has room for one tuple only. *)
Lemma partitioned_join_spec_witness :
  ∃ m0 sent s tables, JoinSinkMerger_createNewOutputContainer = Ret m0 ∧
    HashPartitionWork_execute [0%Z] demo_send 20 (node_maps 0 (demo_grid <$> demo_left)) (Shuffling (Shuffler 0 0) []) = (Ret sent, s) ∧
    (∀ i t, tables !! i = Some t → ∃ st, merge_vectors [0%Z] i (λ _ _ _ _, rplenty) sent (Merging (Merger 0 0 0) m0) = (Ret tt, Merging st t)) ∧
    stage_rows demo_meaning (Probe [0] 1 [0] false (Partitioned 2 2 tables HashPartitionedJoin 0) (λ _ _ _, true))
      [[VObject (Some 5); VNumber 1]; [VObject (Some 6); VNumber 5]]%Z =
      [[VObject (Some 5); VObject (Some 11)]; [VObject (Some 5); VObject (Some 21)]]%Z.
Proof.
  destruct (JoinMap_default_spec (V:=list Z)) as (m0 & Hm0 & _).
  destruct (partitioned_join_spec [0%Z] 2 2 1 [0] (demo_grid <$> demo_left) demo_left 0 20 demo_send (λ _ _ _ _ _, rplenty) m0 demo_meaning [0] 1 [0] false
    HashPartitionedJoin 0 (λ _ _ _, true)) as (sent & s & tables & Hsent & _ & Htables & _ & Hrows).
  - lia.
  - done.
  - lia.
  - exact demo_grids_hold.
  - exact demo_sizes.
  - vm_compute. discriminate.
  - vm_compute. lia.
  - exact demo_send_fits.
  - by split.
  - exact Hm0.
  - reflexivity.
  - exists m0, sent, s, tables. split; [exact Hm0|]. split; [exact Hsent|]. split; [exact Htables|].
    refine (eq_trans (Hrows _ _) _); [repeat constructor|vm_compute; reflexivity].
Defined.
