(* ===== verification/Allocator.v ===== *)
(** * Allocator: the block allocator of the object model

    Models [objectModel/headers/Allocator.cc] and [Allocator.h].  An allocation
    block starts with the header | LAST_USED | OFFSET_TO_OBJECT | reference
    count | and is carved, from the end of the header on, into chunks; a chunk
    starts with its 32-bit size.  Freed chunks are kept in 32 lists by the
    logarithm of their size.

    Addresses are integers; [mem] maps the address of each word the allocator
    itself writes (block headers and chunk sizes) to its value; [heap] records
    the live results of [malloc], so that freeing twice is undefined.  The
    result of [malloc] is an argument, 0 being the null pointer. *)

From S2P Require Import Prelude.
From stdpp Require Import sorting.

Inductive AllocatorPolicy := defaultAllocator | noReuseAllocator | noReferenceCountAllocator.

#[export] Instance AllocatorPolicy_eq_dec : EqDecision AllocatorPolicy.
Proof. solve_decision. Defined.

Record AllocatorState := MkAllocatorState {
  activeRAM : Z;
  numBytes : Z;
  throwException : bool;
  curBlockUserSupplied : bool;
  chunks : list (list Z)
}.

(** [InactiveAllocationBlock]: start and end address. *)
Definition inactive : Type := Z * Z.

Record Allocator := MkAllocator {
  myPolicies : list (AllocatorPolicy * bool);
  myState : AllocatorState;
  allInactives : list inactive;
  mem : gmap Z Z;
  heap : gmap Z Z
}.

Implicit Types (A : Allocator) (s : AllocatorState) (m : gmap Z Z).

Definition set_chunks s c : AllocatorState :=
  MkAllocatorState (activeRAM s) (numBytes s) (throwException s) (curBlockUserSupplied s) c.
Definition set_userSupplied s b : AllocatorState :=
  MkAllocatorState (activeRAM s) (numBytes s) (throwException s) b (chunks s).
Definition set_state A s : Allocator := MkAllocator (myPolicies A) s (allInactives A) (mem A) (heap A).
Definition set_inactives A l : Allocator := MkAllocator (myPolicies A) (myState A) l (mem A) (heap A).
Definition set_mem A m : Allocator := MkAllocator (myPolicies A) (myState A) (allInactives A) m (heap A).
Definition set_heap A h : Allocator := MkAllocator (myPolicies A) (myState A) (allInactives A) (mem A) h.
Definition set_policies A p : Allocator := MkAllocator p (myState A) (allInactives A) (mem A) (heap A).

(** ** Words of a block *)

Definition word m (p : Z) : Z := default 0%Z (m !! p).

(** [sizeof(unsigned) + 2 * sizeof(size_t)] *)
Definition HEADER_SIZE : Z := 20.
Definition CHUNK_HEADER_SIZE : Z := 4.

Definition LAST_USED A : Z := word (mem A) (activeRAM (myState A)).
Definition ref_addr (start : Z) : Z := start + 16.
Definition offset_addr (start : Z) : Z := start + 8.
Definition ALLOCATOR_REF_COUNT A : Z := word (mem A) (ref_addr (activeRAM (myState A))).
Definition GET_CHUNK_SIZE A (p : Z) : Z := word (mem A) p.

Definition store (p v : Z) : M Allocator unit := modify (λ A, set_mem A (<[p := v]> (mem A))).
Definition set_LAST_USED (v : Z) : M Allocator unit := λ A, store (activeRAM (myState A)) v A.
Definition incRef (start : Z) : M Allocator unit := λ A,
  store (ref_addr start) (u32 (word (mem A) (ref_addr start) + 1)) A.
Definition decRef (start : Z) : M Allocator unit := λ A,
  store (ref_addr start) (u32 (word (mem A) (ref_addr start) - 1)) A.

(** [free] of a [malloc]ed block. *)
Definition c_free (start : Z) : M Allocator unit := λ A,
  match heap A !! start with
  | Some _ => (Ret tt, set_heap A (delete start (heap A)))
  | None => (Undefined, A)
  end.

(** [malloc(n)] returning [p]. *)
Definition c_malloc (p n : Z) : M Allocator Z := λ A,
  (Ret p, if (p =? 0)%Z then A else set_heap A (<[p := n]> (heap A))).

(** ** Inactive blocks *)

(** [std::lower_bound(begin, end, here)] with [in.end < here]. *)
Definition lower_bound (l : list inactive) (here : Z) : option (nat * inactive) :=
  list_find (λ b : inactive, ¬ (b.2 < here)%Z) l.

(** [i != allInactives.end() && !( *i > here)] *)
Definition find_inactive (l : list inactive) (here : Z) : option (nat * inactive) :=
  match lower_bound l here with
  | Some (i, b) => if (here <? b.1)%Z then None else Some (i, b)
  | None => None
  end.

(** [std::sort] by block end. *)
Definition block_le (a b : inactive) : Prop := (a.2 ≤ b.2)%Z.

#[export] Instance block_le_dec : RelDecision block_le.
Proof. intros a b. unfold block_le. apply _. Defined.

Definition add_inactive (start bytes : Z) (l : list inactive) : list inactive :=
  merge_sort block_le (l ++ [(start, start + bytes)%Z]).

(** ** getRAM *)

(** [bytesNeeded]: 32 bits, rounded up to a multiple of four. *)
Definition bytes_needed (howMuch : Z) : Z :=
  let b := u32 (u64 (CHUNK_HEADER_SIZE + howMuch)) in
  if (b mod 4 =? 0)%Z then b else u32 (b + (4 - b mod 4)).

(** [31 - __builtin_clz(x)], undefined at 0. *)
Definition chunk_index (x : Z) : outcome nat :=
  if (x =? 0)%Z then Undefined else Ret (Z.to_nat (Z.log2 x)).

(** [for (int j = len - 1; j >= 0; j--)]: the last chunk of [l] below index
    [j] with at least [need] bytes. *)
Fixpoint scan_list m (need : Z) (l : list Z) (j : nat) : option nat :=
  match j with
  | 0 => None
  | S j' =>
      match l !! j' with
      | Some p => if (need <=? word m p)%Z then Some j' else scan_list m need l j'
      | None => scan_list m need l j'
      end
  end.

(** [for (unsigned int i = ...; i < 32; i++)]: list index and position of the
    chunk to reuse. *)
Fixpoint scan_chunks m (need : Z) (i : nat) (ls : list (list Z)) : option (nat * nat) :=
  match ls with
  | [] => None
  | l :: ls' =>
      match scan_list m need l (length l) with
      | Some j => Some (i, j)
      | None => scan_chunks m need (S i) ls'
      end
  end.

(** Carving a chunk at the end of the used part. *)
Definition carve (bytesNeeded : Z) : M Allocator Z := λ A,
  if (numBytes (myState A) <? u64 (LAST_USED A + bytesNeeded))%Z then
    if throwException (myState A) then (NotEnoughSpace, A) else (Ret 0%Z, A)
  else
    let res := u64 (LAST_USED A + activeRAM (myState A)) in
    (set_LAST_USED (u64 (LAST_USED A + bytesNeeded)) ;;
     store res bytesNeeded ;;
     incRef (activeRAM (myState A)) ;;
     mret (u64 (res + CHUNK_HEADER_SIZE))) A.

Definition defaultGetRAM (howMuch : Z) : M Allocator Z := λ A,
  let bytesNeeded := bytes_needed howMuch in
  match chunk_index bytesNeeded with
  | Ret i0 =>
      match scan_chunks (mem A) bytesNeeded i0 (drop i0 (chunks (myState A))) with
      | Some (i, j) =>
          match chunks (myState A) !! i ≫= lookup j with
          | Some returnVal =>
              (modify (λ A, set_state A (set_chunks (myState A) (alter (delete j) i (chunks (myState A))))) ;;
               incRef (activeRAM (myState A)) ;;
               mret (u64 (returnVal + CHUNK_HEADER_SIZE))) A
          | None => (Undefined, A)
          end
      | None => carve bytesNeeded A
      end
  | _ => (Undefined, A)
  end.

Definition fastGetRAM (howMuch : Z) : M Allocator Z := carve (bytes_needed howMuch).

(** ** freeRAM *)

Definition defaultFreeRAM (isContained : bool) (here : Z) : M Allocator unit := λ A,
  if isContained then
    let p := u64 (here - CHUNK_HEADER_SIZE) in
    match chunk_index (u32 (GET_CHUNK_SIZE A p)) with
    | Ret i =>
        (modify (λ A, set_state A (set_chunks (myState A)
           (alter (λ l, l ++ [p]) i (chunks (myState A))))) ;;
         decRef (activeRAM (myState A))) A
    | _ => (Undefined, A)
    end
  else
    match find_inactive (allInactives A) here with
    | Some (i, b) =>
        (decRef b.1 ;;
         A' ← get;
         if (word (mem A') (ref_addr b.1) =? 0)%Z then
           c_free b.1 ;; modify (λ A, set_inactives A (delete i (allInactives A)))
         else mret tt) A
    | None => (Ret tt, A)
    end.

(** ** Policies *)

Definition policy_getRAM (p : AllocatorPolicy) (howMuch : Z) : M Allocator Z :=
  match p with
  | defaultAllocator => defaultGetRAM howMuch
  | noReuseAllocator => fastGetRAM howMuch
  | noReferenceCountAllocator => defaultGetRAM howMuch
  end.

Definition policy_freeRAM (p : AllocatorPolicy) (isContained : bool) (here : Z) : M Allocator unit :=
  match p with
  | defaultAllocator | noReuseAllocator => defaultFreeRAM isContained here
  | noReferenceCountAllocator => mret tt
  end.

(** [PolicyList]: each policy with its [useMe] flag; the list ends with
    [DummyPolicy]. *)
Fixpoint unsetPolicy (l : list (AllocatorPolicy * bool)) : list (AllocatorPolicy * bool) :=
  match l with [] => [] | (p, _) :: l' => (p, false) :: unsetPolicy l' end.

Fixpoint list_setPolicy (toMe : AllocatorPolicy) (l : list (AllocatorPolicy * bool)) :
    list (AllocatorPolicy * bool) :=
  match l with
  | [] => []
  | (p, _) :: l' =>
      if decide (p = toMe) then (p, true) :: unsetPolicy l' else (p, false) :: list_setPolicy toMe l'
  end.

Fixpoint list_getRAM (l : list (AllocatorPolicy * bool)) (howMuch : Z) : M Allocator Z :=
  match l with
  | [] => mret 0%Z
  | (p, useMe) :: l' => if useMe then policy_getRAM p howMuch else list_getRAM l' howMuch
  end.

Fixpoint list_freeRAM (l : list (AllocatorPolicy * bool)) (isContained : bool) (here : Z) : M Allocator unit :=
  match l with
  | [] => mret tt
  | (p, useMe) :: l' => if useMe then policy_freeRAM p isContained here else list_freeRAM l' isContained here
  end.

Definition setPolicy (policy : AllocatorPolicy) : M Allocator unit :=
  modify (λ A, set_policies A (list_setPolicy policy (myPolicies A))).

(** The policy list of [Allocator]. *)
Definition all_policies : list (AllocatorPolicy * bool) :=
  [(defaultAllocator, false); (noReuseAllocator, false); (noReferenceCountAllocator, false)].

(** ** Allocator operations *)

Definition contains A (where_ : Z) : bool :=
  (activeRAM (myState A) <=? where_)%Z && (where_ <? activeRAM (myState A) + numBytes (myState A))%Z.

Definition getRAM (howMuch : Z) : M Allocator Z := λ A, list_getRAM (myPolicies A) howMuch A.

Definition freeRAM (here : Z) : M Allocator unit := λ A,
  list_freeRAM (myPolicies A) (contains A here) here A.

Definition doNotFail A : bool := negb (throwException (myState A)).

Definition isManaged A (here : Z) : bool :=
  contains A here || bool_decide (is_Some (find_inactive (allInactives A) here)).

Definition clear_chunks s : AllocatorState := set_chunks s ((λ _, []) <$> chunks s).

Definition emptyOutBlock (here : Z) : M Allocator unit := λ A,
  if contains A here then
    (modify (λ A, set_state A (clear_chunks (myState A))) ;;
     store (ref_addr (activeRAM (myState A))) 0) A
  else
    match find_inactive (allInactives A) here with
    | Some (i, _) => (Ret tt, set_inactives A (delete i (allInactives A)))
    | None => (Ret tt, A)
    end.

(** The sum is 32 bits wide, the result 64. *)
Definition getBytesAvailableInCurrentAllocatorBlock A : Z :=
  let amtUnused := foldl (λ acc v, u32 (acc + GET_CHUNK_SIZE A v)) 0%Z (concat (chunks (myState A))) in
  u64 (numBytes (myState A) - LAST_USED A + amtUnused).

Definition getNumObjectsInCurrentAllocatorBlock A : Z := ALLOCATOR_REF_COUNT A.

Definition getNumObjectsInAllocatorBlock A (here : Z) : Z :=
  if contains A here then ALLOCATOR_REF_COUNT A
  else match find_inactive (allInactives A) here with
    | Some (_, b) => word (mem A) (ref_addr b.1)
    | None => 0%Z
    end.

(** What becomes of a self-allocated current block: remembered while it has
    objects, else freed. *)
Definition retire_block : M Allocator unit := λ A,
  if (ALLOCATOR_REF_COUNT A =? 0)%Z then c_free (activeRAM (myState A)) A
  else (Ret tt, set_inactives A
          (add_inactive (activeRAM (myState A)) (numBytes (myState A)) (allInactives A))).

Definition setupBlock (where_ numBytesIn : Z) (throwExceptionOnFail : bool) : M Allocator unit := λ A,
  if (numBytesIn <? HEADER_SIZE)%Z then (Exit 1, A)
  else if (where_ =? 0)%Z then (Exit 1, A)
  else
    let cur := myState A in
    ((if negb (activeRAM cur =? 0)%Z && negb (curBlockUserSupplied cur)
      then retire_block else mret tt) ;;
     modify (λ A, set_state A (MkAllocatorState where_ numBytesIn throwExceptionOnFail false
                                 ((λ _, []) <$> chunks cur))) ;;
     set_LAST_USED HEADER_SIZE ;;
     store (ref_addr where_) 0) A.

Definition setupUserSuppliedBlock (where_ numBytesIn : Z) (throwExceptionOnFail : bool) : M Allocator unit :=
  setupBlock where_ numBytesIn throwExceptionOnFail ;;
  modify (λ A, set_state A (set_userSupplied (myState A) true)).

(** [MultiPolicyAllocator(numBytesIn)]; the default constructor passes
    1024. *)
Definition Allocator_new (p numBytesIn : Z) (m : gmap Z Z) : outcome unit * Allocator :=
  let A := MkAllocator all_policies (MkAllocatorState 0 0 true false (replicate 32 [])) [] m ∅ in
  (putMeHere ← c_malloc p numBytesIn;
   if (putMeHere =? 0)%Z then lift (Exit (-1))
   else setupBlock putMeHere numBytesIn true ;; setPolicy defaultAllocator) A.

(** [getAllocationBlock] of the object at [here]: the block's address, or
    null. *)
Definition getAllocationBlock (here : Z) : M Allocator Z := λ A,
  if contains A here then
    (store (offset_addr (activeRAM (myState A))) (u64 (here - activeRAM (myState A))) ;;
     mret (activeRAM (myState A))) A
  else
    match find_inactive (allInactives A) here with
    | Some (_, b) => (store (offset_addr b.1) (u64 (here - b.1)) ;; mret b.1) A
    | None => (Ret 0%Z, A)
    end.

(** [Record::getRootObject]: where the root object of the record at [start]
    is. *)
Definition rootObject A (start : Z) : Z := u64 (start + word (mem A) (offset_addr start)).

(** [temporarilyUseBlockForAllocations(putMeHere, numBytesAvailable)] *)
Definition temporarilyUseBlock (putMeHere numBytesAvailable : Z) : M Allocator AllocatorState := λ A,
  let returnVal := myState A in
  (modify (λ A, set_state A (set_userSupplied (myState A) false)) ;;
   incRef (activeRAM (myState A)) ;;
   setupUserSuppliedBlock putMeHere numBytesAvailable true ;;
   mret returnVal) A.

(** [temporarilyUseBlockForAllocations(numBytesAvailable)] *)
Definition temporarilyUseBytes (p numBytesAvailable : Z) : M Allocator AllocatorState := λ A,
  let returnVal := myState A in
  (modify (λ A, set_state A (set_userSupplied (myState A) false)) ;;
   incRef (activeRAM (myState A)) ;;
   putMeHere ← c_malloc p numBytesAvailable;
   if (putMeHere =? 0)%Z then lift (Exit (-1))
   else setupBlock putMeHere numBytesAvailable true ;; mret returnVal) A.

(** Erasing the first inactive block that starts at [start]. *)
Fixpoint erase_start (start : Z) (l : list inactive) : list inactive :=
  match l with
  | [] => []
  | b :: l' => if (b.1 =? start)%Z then l' else b :: erase_start start l'
  end.

Definition restoreAllocationBlock (useMe : AllocatorState) : M Allocator unit := λ A,
  ((if curBlockUserSupplied (myState A) then mret tt else retire_block) ;;
   modify (λ A, set_state A useMe) ;;
   modify (λ A, set_inactives A (erase_start (activeRAM useMe) (allInactives A))) ;;
   decRef (activeRAM useMe)) A.

(** [cleanInactiveBlocks()] frees every inactive block, referenced or not;
    [cleanInactiveBlocks(size)] those of one size. *)
Fixpoint clean_blocks (keep : inactive → bool) (l : list inactive) : M Allocator (list inactive) :=
  match l with
  | [] => mret []
  | b :: l' =>
      if keep b then r ← clean_blocks keep l'; mret (b :: r)
      else c_free b.1 ;; clean_blocks keep l'
  end.

Definition cleanInactiveBlocks : M Allocator unit := λ A,
  (l ← clean_blocks (λ _, false) (allInactives A); modify (λ A, set_inactives A l)) A.

Definition cleanInactiveBlocks_size (size : Z) : M Allocator unit := λ A,
  (l ← clean_blocks (λ b, negb (b.2 - b.1 =? size)%Z) (allInactives A); modify (λ A, set_inactives A l)) A.

(** The destructor frees a self-allocated current block and only reports the
    inactive ones. *)
Definition Allocator_destroy : M Allocator unit := λ A,
  if negb (activeRAM (myState A) =? 0)%Z && negb (curBlockUserSupplied (myState A))
  then c_free (activeRAM (myState A)) A else (Ret tt, A).

(** ** Invariant of the current block *)

(** The chunks [cs] tile the addresses from [p] to [q]. *)
Fixpoint tiles m (p q : Z) (cs : list Z) : Prop :=
  match cs with
  | [] => p = q
  | c :: cs' => c = p ∧ (4 ≤ word m c < u32_modulus)%Z ∧ (word m c mod 4 = 0)%Z ∧ tiles m (p + word m c)%Z q cs'
  end.

Definition free_chunks s : list Z := concat (chunks s).

(** User addresses on x86-64 are below 2^63. *)
Definition address_limit : Z := 9223372036854775808.

(** The current block is well formed, [live] being the chunks of the objects
    in it. *)
Record wf_block A (live : gset Z) : Prop := {
  wb_active : (0 < activeRAM (myState A))%Z;
  wb_end : (activeRAM (myState A) + numBytes (myState A) < address_limit)%Z;
  wb_used : (HEADER_SIZE ≤ LAST_USED A ≤ numBytes (myState A))%Z;
  wb_tiles : ∃ cs, tiles (mem A) (activeRAM (myState A) + HEADER_SIZE)
    (activeRAM (myState A) + LAST_USED A) cs ∧
    (∀ c, c ∈ free_chunks (myState A) ∨ c ∈ live → c ∈ cs);
  wb_bins : length (chunks (myState A)) = 32;
  wb_index i l c : chunks (myState A) !! i = Some l → c ∈ l → Z.to_nat (Z.log2 (word (mem A) c)) = i;
  wb_nodup : NoDup (free_chunks (myState A));
  wb_live c : c ∈ live → c ∉ free_chunks (myState A);
  wb_refs : ALLOCATOR_REF_COUNT A = Z.of_nat (size live);
  wb_small : (Z.of_nat (size live) < u32_modulus)%Z
}.

(** ** Generic facts *)

Lemma word_insert m p v q : word (<[p := v]> m) q = if decide (p = q) then v else word m q.
Proof.
  unfold word. destruct (decide (p = q)) as [->|Hne].
  - by rewrite lookup_insert_eq.
  - by rewrite lookup_insert_ne.
Qed.

Lemma word_insert_eq m p v : word (<[p := v]> m) p = v.
Proof. rewrite word_insert. by rewrite decide_True. Qed.

Lemma word_insert_ne m p v q : p ≠ q → word (<[p := v]> m) q = word m q.
Proof. intros. rewrite word_insert. by rewrite decide_False. Qed.

Lemma concat_alter_delete {B} (ls : list (list B)) i l j x :
  ls !! i = Some l → l !! j = Some x → x :: concat (alter (delete j) i ls) ≡ₚ concat ls.
Proof.
  revert i. induction ls as [|l0 ls IH]; intros [|i] Hi Hj; simplify_eq/=.
  - rewrite (delete_Permutation l j x Hj) at 2. done.
  - rewrite <- (IH i Hi Hj). by rewrite Permutation_middle.
Qed.

Lemma concat_alter_snoc {B} (ls : list (list B)) i x :
  i < length ls → concat (alter (λ l, l ++ [x]) i ls) ≡ₚ x :: concat ls.
Proof.
  revert i. induction ls as [|l0 ls IH]; intros [|i] Hi; simpl in *; [lia|lia| |].
  - rewrite <- app_assoc. simpl. by rewrite Permutation_middle.
  - etrans; [apply (Permutation_app_head l0), (IH i); lia|]. by rewrite Permutation_middle.
Qed.

Lemma alter_snoc_delete {B} (ls : list (list B)) i l x :
  ls !! i = Some l → alter (delete (length l)) i (alter (λ l, l ++ [x]) i ls) = ls.
Proof.
  intros Hl. apply list_eq. intros j. destruct (decide (i = j)) as [<-|Hne].
  - rewrite !list_lookup_alter_eq, Hl. simpl. f_equal. by rewrite delete_middle, app_nil_r.
  - by rewrite !list_lookup_alter_ne.
Qed.

(** ** Tilings *)

Section tiles.
Context (m : gmap Z Z).

Lemma tiles_bounds p q cs c :
  tiles m p q cs → c ∈ cs →
  (p ≤ c ∧ c + word m c ≤ q ∧ 4 ≤ word m c < u32_modulus ∧ word m c mod 4 = 0)%Z.
Proof.
  revert p. induction cs as [|d cs IH]; intros p; simpl; [by intros _ ?%elem_of_nil|].
  intros (-> & Hs & Hd & Ht) Hc.
  assert (p + word m p ≤ q)%Z as Hq.
  { clear -Ht Hs. revert Ht. generalize (p + word m p)%Z as r. induction cs as [|e cs IH]; intros r; simpl.
    - intros ->. done.
    - intros (-> & ? & _ & Ht). specialize (IH _ Ht). lia. }
  apply elem_of_cons in Hc as [->|Hc]; [lia|]. specialize (IH _ Ht Hc). lia.
Qed.

Lemma tiles_disjoint p q cs c d :
  tiles m p q cs → c ∈ cs → d ∈ cs → c ≠ d → (c + word m c ≤ d ∨ d + word m d ≤ c)%Z.
Proof.
  revert p. induction cs as [|e cs IH]; intros p; simpl; [by intros _ ?%elem_of_nil|].
  intros (-> & Hs & _ & Ht) [->|Hc]%elem_of_cons [->|Hd]%elem_of_cons Hne; [done|..].
  - left. by destruct (tiles_bounds _ _ _ _ Ht Hd).
  - right. by destruct (tiles_bounds _ _ _ _ Ht Hc).
  - by eapply IH.
Qed.

Lemma tiles_ext m' p q cs :
  (∀ c, c ∈ cs → word m' c = word m c) → tiles m p q cs → tiles m' p q cs.
Proof.
  revert p. induction cs as [|c cs IH]; intros p Hw; simpl; [done|].
  intros (-> & ? & ? & Ht). rewrite Hw by constructor. do 3 (split; [done|]).
  apply IH; [|done]. intros c Hc. apply Hw. by constructor.
Qed.

Lemma tiles_snoc p q cs :
  tiles m p q cs → (4 ≤ word m q < u32_modulus)%Z → (word m q mod 4 = 0)%Z →
  tiles m p (q + word m q) (cs ++ [q]).
Proof.
  revert p. induction cs as [|c cs IH]; intros p; simpl; [by intros ->|].
  intros (-> & ? & ? & Ht) ??. do 3 (split; [done|]). by apply IH.
Qed.
End tiles.

(** ** Sizes and searches *)

Lemma bytes_needed_spec n :
  (0 ≤ n ≤ 4294967288)%Z →
  (n + 4 ≤ bytes_needed n < n + 8 ∧ 4 ≤ bytes_needed n < u32_modulus ∧ bytes_needed n mod 4 = 0)%Z.
Proof.
  intros Hn. unfold bytes_needed, CHUNK_HEADER_SIZE.
  rewrite u64_small by word_lia. rewrite (u32_small (4 + n)) by word_lia.
  destruct (Z.eqb_spec ((4 + n) mod 4) 0) as [H0|H0]; [word_lia|].
  pose proof (Z.div_mod (4 + n) 4 ltac:(lia)). pose proof (Z.mod_pos_bound (4 + n) 4 ltac:(lia)).
  set (q := ((4 + n) / 4)%Z) in *. set (r := ((4 + n) mod 4)%Z) in *.
  replace (4 + n + (4 - r))%Z with ((q + 1) * 4)%Z by lia.
  rewrite u32_small by word_lia. rewrite Z_mod_mult. word_lia.
Qed.

Lemma chunk_index_spec x :
  (0 < x < u32_modulus)%Z → chunk_index x = Ret (Z.to_nat (Z.log2 x)) ∧ Z.to_nat (Z.log2 x) < 32.
Proof.
  intros Hx. unfold chunk_index. destruct (Z.eqb_spec x 0); [lia|]. split; [done|].
  assert (Z.log2 x < 32)%Z; [|lia]. apply Z.log2_lt_pow2; [lia|]. exact (proj2 Hx).
Qed.

Lemma scan_list_Some m need l j k :
  scan_list m need l j = Some k → ∃ p, l !! k = Some p ∧ (need ≤ word m p)%Z.
Proof.
  induction j as [|j IH]; simpl; [done|]. destruct (l !! j) as [p|] eqn:Hp; [|done].
  destruct (Z.leb_spec need (word m p)); [|done]. intros [= <-]. by exists p.
Qed.

Lemma scan_list_None m need l j :
  scan_list m need l j = None → ∀ k p, k < j → l !! k = Some p → (word m p < need)%Z.
Proof.
  induction j as [|j IH]; simpl; [lia|]. intros Hs k p Hk Hp.
  destruct (decide (k = j)) as [->|].
  - rewrite Hp in Hs. by destruct (Z.leb_spec need (word m p)).
  - apply (IH ltac:(destruct (l !! j); [by destruct (_ <=? _)%Z|done]) k p); [lia|done].
Qed.

Lemma scan_chunks_Some m need i ls i' j :
  scan_chunks m need i ls = Some (i', j) →
  ∃ k l p, i' = i + k ∧ ls !! k = Some l ∧ l !! j = Some p ∧ (need ≤ word m p)%Z.
Proof.
  revert i. induction ls as [|l ls IH]; intros i; simpl; [done|].
  destruct (scan_list _ _ _ _) as [j'|] eqn:Hs.
  - intros [= <- <-]. apply scan_list_Some in Hs as (p & ? & ?). exists 0, l, p. by rewrite Nat.add_0_r.
  - intros (k & l' & p & -> & ? & ?)%IH. exists (S k), l', p. split; [lia|done].
Qed.

Lemma scan_chunks_None m need i ls :
  scan_chunks m need i ls = None → ∀ k l p, ls !! k = Some l → p ∈ l → (word m p < need)%Z.
Proof.
  revert i. induction ls as [|l ls IH]; intros i; simpl; [done|].
  destruct (scan_list _ _ _ _) eqn:Hs; [done|]. intros Hr [|k] l' p Hk Hp; simplify_eq/=; [|by eapply IH].
  apply list_elem_of_lookup in Hp as [j Hj]. eapply scan_list_None; eauto using lookup_lt_Some.
Qed.

(** No list from the first candidate on fits: no free chunk does. *)
Lemma scan_fails A live need i0 :
  wf_block A live → (0 < need)%Z → i0 = Z.to_nat (Z.log2 need) →
  scan_chunks (mem A) need i0 (drop i0 (chunks (myState A))) = None →
  ∀ c, c ∈ free_chunks (myState A) → (word (mem A) c < need)%Z.
Proof.
  intros Hwf Hn -> Hs c (i & l & Hi & Hc)%elem_of_concat.
  pose proof (wb_index _ _ Hwf i l c Hi Hc) as Hlog.
  destruct (decide (Z.to_nat (Z.log2 need) ≤ i)) as [Hge|Hlt].
  - eapply (scan_chunks_None _ _ _ _ Hs (i - Z.to_nat (Z.log2 need)) l c); [|done].
    rewrite lookup_drop, <- Hi. f_equal. lia.
  - assert (Z.log2 (word (mem A) c) < Z.log2 need)%Z as Hl.
    { pose proof (Z.log2_nonneg (word (mem A) c)). pose proof (Z.log2_nonneg need). lia. }
    by apply Z.log2_lt_cancel.
Qed.

(** ** The current block *)

Section block.
Context (A : Allocator) (live : gset Z) (Hwf : wf_block A live).

#[local] Abbreviation base := (activeRAM (myState A)).
#[local] Abbreviation free := (free_chunks (myState A)).

Lemma block_chunk c :
  c ∈ free ∨ c ∈ live →
  (base + 20 ≤ c ∧ c + word (mem A) c ≤ base + LAST_USED A ∧
   4 ≤ word (mem A) c < u32_modulus ∧ word (mem A) c mod 4 = 0)%Z.
Proof.
  destruct (wb_tiles _ _ Hwf) as (cs & Ht & Hcs). intros Hc%Hcs.
  exact (tiles_bounds _ _ _ _ _ Ht Hc).
Qed.

Lemma block_disjoint c d :
  c ∈ free ∨ c ∈ live → d ∈ free ∨ d ∈ live → c ≠ d →
  (c + word (mem A) c ≤ d ∨ d + word (mem A) d ≤ c)%Z.
Proof.
  destruct (wb_tiles _ _ Hwf) as (cs & Ht & Hcs). intros Hc%Hcs Hd%Hcs.
  exact (tiles_disjoint _ _ _ _ _ _ Ht Hc Hd).
Qed.

(** Changing the free lists and the live set within the same chunks. *)
Lemma wf_block_change A' live' :
  activeRAM (myState A') = base → numBytes (myState A') = numBytes (myState A) →
  (∀ p, (p = base ∨ base + 20 ≤ p < base + numBytes (myState A))%Z → word (mem A') p = word (mem A) p) →
  length (chunks (myState A')) = 32 →
  (∀ i l c, chunks (myState A') !! i = Some l → c ∈ l → Z.to_nat (Z.log2 (word (mem A) c)) = i) →
  NoDup (free_chunks (myState A')) →
  (∀ c, c ∈ free_chunks (myState A') ∨ c ∈ live' → c ∈ free ∨ c ∈ live) →
  (∀ c, c ∈ live' → c ∉ free_chunks (myState A')) →
  ALLOCATOR_REF_COUNT A' = Z.of_nat (size live') → (Z.of_nat (size live') < u32_modulus)%Z →
  wf_block A' live'.
Proof.
  intros Hb Hn Hw Hl Hi Hnd Hsub Hlive Hr Hsm.
  assert (LAST_USED A' = LAST_USED A) as Hu by (unfold LAST_USED; rewrite Hb; apply Hw; by left).
  split; rewrite ?Hb, ?Hn, ?Hu; try apply Hwf; try done.
  - destruct (wb_tiles _ _ Hwf) as (cs & Ht & Hcs). exists cs. split.
    + eapply tiles_ext; [|exact Ht]. intros c Hc. apply Hw. right.
      pose proof (tiles_bounds _ _ _ _ _ Ht Hc). pose proof (wb_used _ _ Hwf). unfold HEADER_SIZE in *. lia.
    + intros c Hc. by apply Hcs, Hsub.
  - intros i l c Hil Hc. rewrite <- (Hi i l c Hil Hc). f_equal. f_equal. apply Hw. right.
    assert (c ∈ free ∨ c ∈ live) as Hcf.
    { apply Hsub. left. apply elem_of_concat. eauto. }
    pose proof (block_chunk _ Hcf). pose proof (wb_used _ _ Hwf). lia.
Qed.

(** Taking the chunk [c] out of its free list. *)
Lemma reuse_spec i l j c :
  chunks (myState A) !! i = Some l → l !! j = Some c → (Z.of_nat (size live) + 1 < u32_modulus)%Z →
  let A' := set_mem (set_state A (set_chunks (myState A) (alter (delete j) i (chunks (myState A)))))
    (<[ref_addr base := u32 (ALLOCATOR_REF_COUNT A + 1)]> (mem A)) in
  (c ∉ live) ∧ c ∈ free ∧ wf_block A' ({[c]} ∪ live).
Proof.
  intros Hi Hj Hsz A'. pose proof (concat_alter_delete _ _ _ _ _ Hi Hj) as Hp.
  assert (free_chunks (myState A') = concat (alter (delete j) i (chunks (myState A)))) as Hf' by done.
  assert (c ∈ free) as Hcf by (unfold free_chunks; rewrite <- Hp; constructor).
  assert (c ∉ live) as Hcl by (intros Hc; by apply (wb_live _ _ Hwf) in Hc).
  pose proof (wb_nodup _ _ Hwf) as Hnd. unfold free_chunks in Hnd. rewrite <- Hp in Hnd.
  apply NoDup_cons in Hnd as [Hcn Hnd].
  split_and!; [done|done|]. apply wf_block_change; try done.
  - intros p Hpb. simpl. apply word_insert_ne. unfold ref_addr. lia.
  - simpl. rewrite length_alter. apply Hwf.
  - intros k l' d Hk Hd. simpl in Hk. destruct (decide (i = k)) as [->|Hne].
    + rewrite list_lookup_alter_eq, Hi in Hk. simplify_eq/=.
      eapply (wb_index _ _ Hwf); [done|]. by eapply list_elem_of_delete_inv.
    + rewrite list_lookup_alter_ne in Hk by done. by eapply (wb_index _ _ Hwf).
  - rewrite Hf'. intros d [Hd|Hd].
    + left. unfold free_chunks. rewrite <- Hp. by constructor.
    + apply elem_of_union in Hd as [->%elem_of_singleton|Hd]; [by left|by right].
  - rewrite Hf'. intros d [->%elem_of_singleton|Hd]%elem_of_union; [done|].
    intros Hdf. apply (wb_live _ _ Hwf d Hd). unfold free_chunks. rewrite <- Hp. by constructor.
  - unfold ALLOCATOR_REF_COUNT at 1. simpl. rewrite word_insert_eq, (wb_refs _ _ Hwf).
    rewrite size_union by set_solver. rewrite size_singleton. rewrite u32_small; lia.
  - rewrite size_union by set_solver. rewrite size_singleton. lia.
Qed.
End block.

(** The state after carving a chunk of [need] bytes. *)
Definition carved A (need : Z) : Allocator :=
  set_mem A (<[ref_addr (activeRAM (myState A)) := u32 (ALLOCATOR_REF_COUNT A + 1)]>
    (<[(activeRAM (myState A) + LAST_USED A)%Z := need]>
    (<[activeRAM (myState A) := (LAST_USED A + need)%Z]> (mem A)))).

Lemma carved_wf A live need :
  wf_block A live → (4 ≤ need < u32_modulus)%Z → (need mod 4 = 0)%Z →
  (LAST_USED A + need ≤ numBytes (myState A))%Z → (Z.of_nat (size live) + 1 < u32_modulus)%Z →
  let c := (activeRAM (myState A) + LAST_USED A)%Z in
  (c ∉ live) ∧ wf_block (carved A need) ({[c]} ∪ live) ∧ word (mem (carved A need)) c = need ∧
  ∀ p, p ≠ c → (activeRAM (myState A) + HEADER_SIZE ≤ p)%Z →
    word (mem (carved A need)) p = word (mem A) p.
Proof.
  intros Hwf Hneed Hmod Hfit Hsz c. pose proof (wb_used _ _ Hwf) as Hu. unfold HEADER_SIZE in *.
  set (b := activeRAM (myState A)) in *.
  assert (∀ d, d ∈ free_chunks (myState A) ∨ d ∈ live → (b + 20 ≤ d ∧ d < c)%Z) as Hchunk.
  { intros d Hd. pose proof (block_chunk A live Hwf d Hd). fold b in H. lia. }
  assert (c ∉ live) as Hcl by (intros Hc; destruct (Hchunk c); [by right|lia]).
  assert (∀ p, p ≠ c → (b + 20 ≤ p)%Z → word (mem (carved A need)) p = word (mem A) p) as Hw.
  { intros p Hpc Hp. unfold carved. simpl. fold b. unfold ref_addr. rewrite !word_insert_ne by lia. done. }
  assert (word (mem (carved A need)) c = need) as Hwc.
  { unfold carved. simpl. fold b. unfold ref_addr. rewrite word_insert_ne by lia. apply word_insert_eq. }
  assert (LAST_USED (carved A need) = (LAST_USED A + need)%Z) as HL.
  { unfold LAST_USED at 1, carved. simpl. fold b. unfold ref_addr.
    rewrite !word_insert_ne by lia. apply word_insert_eq. }
  split_and!; [done| |done|done].
  split; rewrite ?HL; unfold HEADER_SIZE; try (simpl; apply Hwf); [simpl; lia| | | | |].
  - destruct (wb_tiles _ _ Hwf) as (cs & Ht & Hcs). exists (cs ++ [c]). simpl. fold b. split.
    + replace (b + (LAST_USED A + need))%Z with (c + word (mem (carved A need)) c)%Z by lia.
      apply tiles_snoc; [|by rewrite Hwc|by rewrite Hwc].
      eapply tiles_ext; [|exact Ht]. intros d Hd. apply tiles_bounds with (c:=d) in Ht; [|done].
      apply Hw; unfold HEADER_SIZE in *; fold b in Ht; lia.
    + intros d [Hd|[->%elem_of_singleton|Hd]%elem_of_union]; apply elem_of_app; [left|right|left]; auto.
      constructor.
  - intros i l d Hi Hd. rewrite <- (wb_index _ _ Hwf i l d Hi Hd). f_equal. f_equal.
    destruct (Hchunk d); [|apply Hw; lia]. left. apply elem_of_concat. eauto.
  - intros d [->%elem_of_singleton|Hd]%elem_of_union; [|by apply (wb_live _ _ Hwf)].
    intros Hd. destruct (Hchunk c); [by left|lia].
  - unfold ALLOCATOR_REF_COUNT at 1, carved. simpl. rewrite word_insert_eq, (wb_refs _ _ Hwf).
    rewrite size_union by set_solver. rewrite size_singleton. rewrite u32_small; lia.
  - rewrite size_union by set_solver. rewrite size_singleton. lia.
Qed.

Lemma carve_spec A live need :
  wf_block A live → (4 ≤ need < u32_modulus)%Z →
  carve need A =
    if (numBytes (myState A) <? LAST_USED A + need)%Z then
      (if throwException (myState A) then NotEnoughSpace else Ret 0%Z, A)
    else (Ret (activeRAM (myState A) + LAST_USED A + 4)%Z, carved A need).
Proof.
  intros Hwf Hneed. pose proof (wb_used _ _ Hwf) as Hu. pose proof (wb_active _ _ Hwf).
  pose proof (wb_end _ _ Hwf). unfold HEADER_SIZE in *. unfold carve.
  unfold address_limit in *. rewrite u64_small by word_lia. destruct (Z.ltb_spec (numBytes (myState A)) (LAST_USED A + need)) as [Ho|Hf].
  { by destruct (throwException _). }
  rewrite (u64_small (LAST_USED A + activeRAM (myState A))) by word_lia.
  run. unfold set_LAST_USED, store, incRef. run. 
  rewrite (u64_small (_ + CHUNK_HEADER_SIZE)) by (unfold CHUNK_HEADER_SIZE; word_lia).
  unfold CHUNK_HEADER_SIZE, mret, M_ret, carved, ALLOCATOR_REF_COUNT, ref_addr.
  rewrite (Z.add_comm (LAST_USED A) (activeRAM (myState A))). cbn [mem set_mem].
  rewrite !(word_insert_ne _ _ _ (_ + 16)%Z) by lia. done.
Qed.

(** [A'] differs from [A] at most inside the current block: its free lists,
    its header and its chunks. *)
Record block_frame A A' : Prop := {
  bf_policies : myPolicies A' = myPolicies A;
  bf_inactives : allInactives A' = allInactives A;
  bf_heap : heap A' = heap A;
  bf_state : myState A' = set_chunks (myState A) (chunks (myState A'));
  bf_mem p : (p < activeRAM (myState A) ∨ activeRAM (myState A) + numBytes (myState A) ≤ p)%Z →
    word (mem A') p = word (mem A) p
}.

Lemma block_frame_refl A : block_frame A A.
Proof. split; try done. by destruct A as [? []]. Qed.

Lemma block_frame_trans A A' A'' : block_frame A A' → block_frame A' A'' → block_frame A A''.
Proof.
  intros [P1 I1 H1 S1 M1] [P2 I2 H2 S2 M2]. split; try congruence.
  - by rewrite S2, S1.
  - intros p Hp. rewrite M2; [by apply M1|]. by rewrite S1.
Qed.

(** What an allocation of [n] bytes may do. *)
Definition alloc_post A (live : gset Z) (n : Z) (r : outcome Z) A' : Prop :=
  match r with
  | Ret p =>
      if (p =? 0)%Z then A' = A ∧ throwException (myState A) = false
      else ((p - 4)%Z ∉ live) ∧ wf_block A' ({[ (p - 4)%Z ]} ∪ live) ∧ (n + 4 ≤ word (mem A') (p - 4))%Z ∧
        (∀ c, c ∈ live → word (mem A') c = word (mem A) c) ∧ block_frame A A'
  | NotEnoughSpace => A' = A ∧ throwException (myState A) = true
  | _ => False
  end.

(** No room: no free chunk is large enough, nor is the unused end. *)
Definition no_room A (n : Z) : Prop :=
  (∀ c, c ∈ free_chunks (myState A) → (word (mem A) c < bytes_needed n)%Z) ∧
  (numBytes (myState A) < LAST_USED A + bytes_needed n)%Z.

Lemma carve_post A live n :
  wf_block A live → (0 ≤ n ≤ 4294967288)%Z → (Z.of_nat (size live) + 1 < u32_modulus)%Z →
  let '(r, A') := carve (bytes_needed n) A in
  alloc_post A live n r A' ∧
  ((numBytes (myState A) < LAST_USED A + bytes_needed n)%Z ∨
   r = Ret (activeRAM (myState A) + LAST_USED A + 4)%Z ∧ A' = carved A (bytes_needed n)).
Proof.
  intros Hwf Hn Hsz. destruct (bytes_needed_spec n Hn) as (Hb1 & Hb2 & Hb3).
  rewrite (carve_spec A live _ Hwf Hb2). pose proof (wb_used _ _ Hwf) as Hu.
  pose proof (wb_active _ _ Hwf). unfold HEADER_SIZE in *.
  destruct (Z.ltb_spec (numBytes (myState A)) (LAST_USED A + bytes_needed n)) as [Ho|Hf].
  { split; [|by left]. by destruct (throwException _) eqn:E. }
  split; [|by right]. destruct (carved_wf A live _ Hwf Hb2 Hb3 Hf Hsz) as (Hc & Hwf' & Hwc & Hw).
  unfold alloc_post. destruct (Z.eqb_spec (activeRAM (myState A) + LAST_USED A + 4) 0); [lia|].
  replace (activeRAM (myState A) + LAST_USED A + 4 - 4)%Z with (activeRAM (myState A) + LAST_USED A)%Z by lia.
  split_and!; [done|done|lia| |].
  - intros c Hcl. apply Hw; [by intros ->|]. unfold HEADER_SIZE.
    by destruct (block_chunk A live Hwf c (or_intror Hcl)).
  - split; try done; [by destruct A as [? []]|]. intros p Hp. unfold carved, ref_addr. simpl.
    rewrite !word_insert_ne by lia. done.
Qed.

Lemma reuse_eq A live n i j c :
  wf_block A live → (chunks (myState A) !! i ≫= lookup j) = Some c →
  chunk_index (bytes_needed n) = Ret (Z.to_nat (Z.log2 (bytes_needed n))) →
  scan_chunks (mem A) (bytes_needed n) (Z.to_nat (Z.log2 (bytes_needed n)))
    (drop (Z.to_nat (Z.log2 (bytes_needed n))) (chunks (myState A))) = Some (i, j) →
  defaultGetRAM n A = (Ret (c + 4)%Z,
    set_mem (set_state A (set_chunks (myState A) (alter (delete j) i (chunks (myState A)))))
    (<[ref_addr (activeRAM (myState A)) := u32 (ALLOCATOR_REF_COUNT A + 1)]> (mem A))).
Proof.
  intros Hwf Hc Hi Hs. unfold defaultGetRAM. rewrite Hi, Hs, Hc. run. unfold incRef, store, CHUNK_HEADER_SIZE. run.
  apply bind_Some in Hc as (l & Hl & Hj).
  assert (c ∈ free_chunks (myState A)) as Hcf.
  { apply elem_of_concat. eauto using list_elem_of_lookup_2. }
  pose proof (block_chunk A live Hwf c (or_introl Hcf)). pose proof (wb_used _ _ Hwf).
  pose proof (wb_end _ _ Hwf). pose proof (wb_active _ _ Hwf). unfold address_limit in *.
  by rewrite u64_small by word_lia.
Qed.

Lemma defaultGetRAM_cases A live n :
  wf_block A live → (0 ≤ n ≤ 4294967288)%Z → (Z.of_nat (size live) + 1 < u32_modulus)%Z →
  let '(r, A') := defaultGetRAM n A in
  alloc_post A live n r A' ∧
  (no_room A n ∨ ∃ p, r = Ret p ∧ p ≠ 0%Z).
Proof.
  intros Hwf Hn Hsz. destruct (bytes_needed_spec n Hn) as (Hb1 & Hb2 & Hb3).
  destruct (chunk_index_spec (bytes_needed n)) as [Hci Hi32]; [lia|].
  destruct (scan_chunks (mem A) (bytes_needed n) (Z.to_nat (Z.log2 (bytes_needed n)))
    (drop (Z.to_nat (Z.log2 (bytes_needed n))) (chunks (myState A)))) as [[i j]|] eqn:Hs.
  - pose proof Hs as (k & l & c & Hik & Hl & Hj & Hfit)%scan_chunks_Some. rewrite lookup_drop, <- Hik in Hl.
    rewrite (reuse_eq A live n i j c Hwf); [|by rewrite Hl|done|done].
    destruct (reuse_spec A live Hwf i l j c Hl Hj Hsz) as (Hcl & Hcf & Hwf').
    pose proof (block_chunk A live Hwf c (or_introl Hcf)) as Hcb. pose proof (wb_active _ _ Hwf).
    split; [|right; exists (c + 4)%Z; split; [done|lia]].
    unfold alloc_post. destruct (Z.eqb_spec (c + 4) 0); [lia|].
    replace (c + 4 - 4)%Z with c by lia.
    split_and!; [done|done| | |].
    + simpl. unfold ref_addr. rewrite word_insert_ne by lia. lia.
    + intros d Hd. pose proof (block_chunk A live Hwf d (or_intror Hd)). simpl. unfold ref_addr.
      by rewrite word_insert_ne by lia.
    + pose proof (wb_used _ _ Hwf). unfold HEADER_SIZE in *. split; try done.
      intros p Hp. simpl. unfold ref_addr. by rewrite word_insert_ne by lia.
  - pose proof (scan_fails A live (bytes_needed n) _ Hwf ltac:(lia) eq_refl Hs) as Hsc.
    unfold defaultGetRAM. rewrite Hci, Hs. pose proof (carve_post A live n Hwf Hn Hsz) as Hc.
    destruct (carve _ A) as [r A']. destruct Hc as [Hp Hc]. split; [done|].
    destruct Hc as [?|[-> _]]; [by left|right]. eexists. split; [done|].
    pose proof (wb_active _ _ Hwf). pose proof (wb_used _ _ Hwf). unfold HEADER_SIZE in *. lia.
Qed.

Lemma defaultFreeRAM_block A live p :
  wf_block A live → (p - 4)%Z ∈ live →
  defaultFreeRAM true p A = (Ret tt,
    set_mem (set_state A (set_chunks (myState A)
      (alter (λ l, l ++ [(p - 4)%Z]) (Z.to_nat (Z.log2 (word (mem A) (p - 4)))) (chunks (myState A)))))
    (<[ref_addr (activeRAM (myState A)) := u32 (ALLOCATOR_REF_COUNT A - 1)]> (mem A))).
Proof.
  intros Hwf Hp. pose proof (block_chunk A live Hwf _ (or_intror Hp)) as Hc. 
  pose proof (wb_used _ _ Hwf). pose proof (wb_end _ _ Hwf). pose proof (wb_active _ _ Hwf).
  unfold address_limit in *. unfold defaultFreeRAM, CHUNK_HEADER_SIZE. rewrite u64_small by word_lia.
  unfold GET_CHUNK_SIZE. rewrite u32_small by word_lia.
  by rewrite (proj1 (chunk_index_spec (word (mem A) (p - 4)) ltac:(word_lia))).
Qed.

Lemma freed_wf A live c :
  wf_block A live → c ∈ live →
  let A' := set_mem (set_state A (set_chunks (myState A)
      (alter (λ l, l ++ [c]) (Z.to_nat (Z.log2 (word (mem A) c))) (chunks (myState A)))))
    (<[ref_addr (activeRAM (myState A)) := u32 (ALLOCATOR_REF_COUNT A - 1)]> (mem A)) in
  wf_block A' (live ∖ {[c]}) ∧ block_frame A A' ∧ ∀ d, d ∈ live → word (mem A') d = word (mem A) d.
Proof.
  intros Hwf Hc A'. pose proof (block_chunk A live Hwf _ (or_intror Hc)) as Hcb.
  destruct (chunk_index_spec (word (mem A) c)) as [_ Hi]; [lia|].
  pose proof (concat_alter_snoc (chunks (myState A)) (Z.to_nat (Z.log2 (word (mem A) c))) c) as Hp.
  rewrite (wb_bins _ _ Hwf) in Hp. specialize (Hp Hi).
  assert (∀ d, d ∈ free_chunks (myState A') ↔ d = c ∨ d ∈ free_chunks (myState A)) as Hf'.
  { intros d. unfold free_chunks. simpl. rewrite Hp. apply elem_of_cons. }
  split_and!.
  2:{ pose proof (wb_used _ _ Hwf). unfold HEADER_SIZE in *. split; try done.
      intros p Hpp. simpl. unfold ref_addr. by rewrite word_insert_ne by lia. }
  2:{ intros d Hd. pose proof (block_chunk A live Hwf d (or_intror Hd)). simpl. unfold ref_addr.
      by rewrite word_insert_ne by lia. }
  apply (wf_block_change A live Hwf); try done.
  - intros p Hpb. simpl. apply word_insert_ne. unfold ref_addr. lia.
  - simpl. rewrite length_alter. apply Hwf.
  - intros k l' d Hk Hd. simpl in Hk. 
    destruct (decide (Z.to_nat (Z.log2 (word (mem A) c)) = k)) as [<-|Hne].
    + rewrite list_lookup_alter_eq in Hk. destruct (chunks (myState A) !! _) as [l|] eqn:Hl; simplify_eq/=.
      apply elem_of_app in Hd as [Hd| ->%list_elem_of_singleton]; [by eapply (wb_index _ _ Hwf)|done].
    + rewrite list_lookup_alter_ne in Hk by done. by eapply (wb_index _ _ Hwf).
  - unfold free_chunks. simpl. rewrite Hp. constructor; [by apply (wb_live _ _ Hwf)|apply Hwf].
  - intros d [[->|Hd]%Hf'|Hd]; set_solver.
  - intros d Hd. rewrite Hf'. intros [->|Hdf]; [set_solver|].
    apply (wb_live _ _ Hwf d); set_solver.
  - unfold ALLOCATOR_REF_COUNT at 1. simpl. rewrite word_insert_eq, (wb_refs _ _ Hwf).
    pose proof (wb_small _ _ Hwf). rewrite size_difference by set_solver. rewrite size_singleton.
    assert (size live ≠ 0) by (intros E%size_empty_inv; set_solver).
    rewrite u32_small; word_lia.
  - pose proof (wb_small _ _ Hwf). rewrite size_difference by set_solver. word_lia.
Qed.

(** ** Steps of a client of the current block *)

(** The first policy in use. *)
Fixpoint policy_in_use (l : list (AllocatorPolicy * bool)) : option AllocatorPolicy :=
  match l with
  | [] => None
  | (p, true) :: _ => Some p
  | (_, false) :: l' => policy_in_use l'
  end.

Lemma list_getRAM_policy l p n A : policy_in_use l = Some p → list_getRAM l n A = policy_getRAM p n A.
Proof. induction l as [|[q []] l IH]; simpl; naive_solver. Qed.

Lemma list_freeRAM_policy l p c n A :
  policy_in_use l = Some p → list_freeRAM l c n A = policy_freeRAM p c n A.
Proof. induction l as [|[q []] l IH]; simpl; naive_solver. Qed.

Lemma policy_getRAM_post pol A live n :
  wf_block A live → (0 ≤ n ≤ 4294967288)%Z → (Z.of_nat (size live) + 1 < u32_modulus)%Z →
  let '(r, A') := policy_getRAM pol n A in alloc_post A live n r A'.
Proof.
  intros Hwf Hn Hsz. pose proof (defaultGetRAM_cases A live n Hwf Hn Hsz) as Hd.
  pose proof (carve_post A live n Hwf Hn Hsz) as Hc. unfold policy_getRAM, fastGetRAM.
  destruct pol; [destruct (defaultGetRAM n A)|destruct (carve _ A)|destruct (defaultGetRAM n A)];
    (apply Hd || apply Hc).
Qed.

(** The live chunks after an allocation with outcome [r]. *)
Definition live_after (live : gset Z) (r : outcome Z) : gset Z :=
  match r with Ret p => if (p =? 0)%Z then live else {[ (p - 4)%Z ]} ∪ live | _ => live end.

(** A well-formed block whose objects are not empty, as [makeObject] ensures
    by asking for four bytes more than the object. *)
Definition block_inv A (live : gset Z) : Prop :=
  wf_block A live ∧ (∀ c, c ∈ live → (8 ≤ word (mem A) c)%Z) ∧ is_Some (policy_in_use (myPolicies A)).

(** One [getRAM], or one [freeRAM] of an object of the block, by a client of
    the current block with the live chunks [live]. *)
Inductive block_step : Allocator * gset Z → Allocator * gset Z → Prop :=
| step_get A A' live n r :
    (1 ≤ n ≤ 4294967288)%Z → (Z.of_nat (size live) + 1 < u32_modulus)%Z →
    getRAM n A = (r, A') → block_step (A, live) (A', live_after live r)
| step_free A A' live p :
    (p - 4)%Z ∈ live → freeRAM p A = (Ret tt, A') →
    block_step (A, live)
      (A', if decide (policy_in_use (myPolicies A) = Some noReferenceCountAllocator) then live
           else live ∖ {[ (p - 4)%Z ]}).

Lemma contains_live A live p :
  wf_block A live → (p - 4)%Z ∈ live → contains A p = bool_decide (p < activeRAM (myState A) + numBytes (myState A))%Z.
Proof.
  intros Hwf Hp. pose proof (block_chunk A live Hwf _ (or_intror Hp)) as Hb. unfold contains.
  rewrite (proj2 (Z.leb_le _ _)) by lia. simpl. case_bool_decide; [apply Z.ltb_lt|apply Z.ltb_ge]; lia.
Qed.

Lemma block_step_inv A live A' live' :
  block_step (A, live) (A', live') → block_inv A live → block_inv A' live' ∧ block_frame A A'.
Proof.
  intros Hst (Hwf & Hbig & [pol Hpol]). inversion Hst as [? ? ? n r Hn Hsz Hg|? ? ? p Hp Hg]; subst; clear Hst.
  - unfold getRAM in Hg. rewrite (list_getRAM_policy _ pol) in Hg by done.
    pose proof (policy_getRAM_post pol A live n Hwf ltac:(lia) Hsz) as Hp. rewrite Hg in Hp.
    assert (block_inv A live ∧ block_frame A A) as Hid.
    { split; [split_and!; [done|done|by eexists]|apply block_frame_refl]. }
    destruct r as [p| | |]; simpl in *; [|by destruct Hp as [-> _]|done..].
    destruct (p =? 0)%Z; [by destruct Hp as [-> _]|].
    destruct Hp as (Hfresh & Hwf' & Hfit & Hw & Hfr). split; [split_and!; [done| |]|done].
    + intros c [->%elem_of_singleton|Hc]%elem_of_union; [|rewrite Hw by done; by apply Hbig].
      destruct (block_chunk A' _ Hwf' (p - 4)) as (_ & _ & _ & Hmod); [set_solver|].
      apply Z.mod_divide in Hmod as [k Hk]; lia.
    + rewrite (bf_policies _ _ Hfr). by eexists.
  - unfold freeRAM in Hg. rewrite (list_freeRAM_policy _ pol) in Hg by done.
    rewrite (contains_live A live p Hwf Hp) in Hg.
    pose proof (block_chunk A live Hwf _ (or_intror Hp)) as Hb. pose proof (Hbig _ Hp).
    pose proof (wb_used _ _ Hwf). rewrite bool_decide_true in Hg by lia. rewrite Hpol.
    assert (defaultFreeRAM true p A = (Ret tt, A') →
      block_inv A' (live ∖ {[(p - 4)%Z]}) ∧ block_frame A A') as Hd.
    { intros Hf. rewrite (defaultFreeRAM_block A live p Hwf Hp) in Hf. injection Hf as <-.
      destruct (freed_wf A live _ Hwf Hp) as (Hwf' & Hfr & Hw).
      split; [|done]. split_and!; [done| |by eexists].
      intros c Hc. rewrite Hw by set_solver. apply Hbig. set_solver. }
    destruct pol; simpl in Hg; [rewrite decide_False by done; by apply Hd..|].
    rewrite decide_True by done. injection Hg as <-. split; [|apply block_frame_refl].
    split_and!; [done|done|by eexists].
Qed.

Lemma block_steps_inv x y :
  rtc block_step x y → block_inv x.1 x.2 → block_inv y.1 y.2 ∧ block_frame x.1 y.1.
Proof.
  induction 1 as [x|[A live] [A' live'] [A'' live''] Hst _ IH]; simpl in *.
  - intros ?. split; [done|apply block_frame_refl].
  - intros Hinv. destruct (block_step_inv _ _ _ _ Hst Hinv) as [Hinv' Hfr].
    destruct (IH Hinv') as [? ?]. split; [done|]. by eapply block_frame_trans.
Qed.

(** Writes into the payload of live chunks, or outside the block, keep it
    well formed. *)
Lemma wf_block_payload A live m :
  wf_block A live →
  (∀ p, word m p ≠ word (mem A) p →
    (∃ c, c ∈ live ∧ (c + 4 ≤ p < c + word (mem A) c)%Z) ∨
    (p < activeRAM (myState A) ∨ activeRAM (myState A) + numBytes (myState A) ≤ p)%Z) →
  wf_block (set_mem A m) live.
Proof.
  intros Hwf Hch. destruct (wb_tiles _ _ Hwf) as (cs & Ht & Hcs).
  pose proof (wb_used _ _ Hwf) as Hu. unfold HEADER_SIZE in *.
  assert (∀ p, (∀ c, c ∈ live → ¬ (c + 4 ≤ p < c + word (mem A) c)%Z) →
    (activeRAM (myState A) ≤ p < activeRAM (myState A) + numBytes (myState A))%Z →
    word m p = word (mem A) p) as Hsame.
  { intros p Hp Hb. destruct (decide (word m p = word (mem A) p)) as [|Hne]; [done|].
    destruct (Hch p Hne) as [(c & Hc & ?)|?]; [by destruct (Hp c Hc)|lia]. }
  assert (∀ d, d ∈ cs → word m d = word (mem A) d) as Hd.
  { intros d Hdc. pose proof (tiles_bounds _ _ _ _ _ Ht Hdc). apply Hsame; [|lia].
    intros c Hc. destruct (decide (c = d)) as [->|Hne]; [lia|].
    pose proof (tiles_disjoint _ _ _ _ _ _ Ht (Hcs c (or_intror Hc)) Hdc Hne). lia. }
  assert (∀ p, (activeRAM (myState A) ≤ p < activeRAM (myState A) + 20)%Z → word m p = word (mem A) p) as Hh.
  { intros p Hp. apply Hsame; [|lia]. intros c Hc. pose proof (block_chunk A live Hwf c (or_intror Hc)). lia. }
  assert (LAST_USED (set_mem A m) = LAST_USED A) as HL by (unfold LAST_USED; simpl; apply Hh; lia).
  split; rewrite ?HL; try (simpl; apply Hwf).
  - exists cs. split; [|done]. by eapply tiles_ext.
  - intros i l c Hi Hc. simpl in *. rewrite <- (wb_index _ _ Hwf i l c Hi Hc). f_equal. f_equal.
    apply Hd, Hcs. left. apply elem_of_concat. eauto.
  - unfold ALLOCATOR_REF_COUNT. simpl. rewrite Hh by (unfold ref_addr; lia). apply Hwf.
Qed.

(** The chunks of a block are at most a quarter of its bytes. *)
Lemma tiles_length m p q cs : tiles m p q cs → (p + 4 * Z.of_nat (length cs) ≤ q)%Z.
Proof.
  revert p. induction cs as [|c cs IH]; intros p; simpl; [lia|].
  intros (-> & ? & _ & Ht%IH). lia.
Qed.

Lemma live_capacity A live : wf_block A live → (4 * Z.of_nat (size live) ≤ numBytes (myState A))%Z.
Proof.
  intros Hwf. destruct (wb_tiles _ _ Hwf) as (cs & Ht & Hcs).
  pose proof (tiles_length _ _ _ _ Ht). pose proof (wb_used _ _ Hwf). unfold HEADER_SIZE in *.
  assert (size live ≤ length cs); [|lia].
  apply submseteq_length, NoDup_submseteq; [apply NoDup_elements|].
  intros c Hc%elem_of_elements. auto.
Qed.

(** An allocation writes only the header of the block and the size of its
    chunk. *)
Lemma policy_getRAM_words pol A live n p A' :
  wf_block A live → (0 ≤ n ≤ 4294967288)%Z → policy_getRAM pol n A = (Ret p, A') →
  ∀ q, q ≠ activeRAM (myState A) → q ≠ ref_addr (activeRAM (myState A)) → q ≠ (p - 4)%Z →
    word (mem A') q = word (mem A) q.
Proof.
  intros Hwf Hn Hg q Hq1 Hq2 Hq3. destruct (bytes_needed_spec n Hn) as (_ & Hb & _).
  assert (carve (bytes_needed n) A = (Ret p, A') → word (mem A') q = word (mem A) q) as Hcarve.
  { rewrite (carve_spec A live _ Hwf Hb). destruct (_ <? _)%Z; [by destruct (throwException _); intros; simplify_eq|].
    intros [= <- <-]. unfold carved. simpl. rewrite !word_insert_ne; [done|done|lia|done]. }
  assert (defaultGetRAM n A = (Ret p, A') → word (mem A') q = word (mem A) q) as Hdef.
  { intros Hd. destruct (chunk_index_spec (bytes_needed n)) as [Hci _]; [lia|].
    destruct (scan_chunks (mem A) (bytes_needed n) (Z.to_nat (Z.log2 (bytes_needed n)))
      (drop (Z.to_nat (Z.log2 (bytes_needed n))) (chunks (myState A)))) as [[i j]|] eqn:Hs.
    - pose proof Hs as (k & l & c & Hik & Hl & Hj & _)%scan_chunks_Some. rewrite lookup_drop, <- Hik in Hl.
      rewrite (reuse_eq A live n i j c Hwf) in Hd; [|by rewrite Hl|done|done].
      injection Hd as <- <-. simpl. by rewrite word_insert_ne.
    - apply Hcarve. unfold defaultGetRAM in Hd. by rewrite Hci, Hs in Hd. }
  destruct pol; auto.
Qed.

(** ** Temporary blocks *)

Lemma erase_start_Permutation start l x :
  x ∈ l → x.1 = start → (∀ b, b ∈ l → b.1 = start → b = x) → x :: erase_start start l ≡ₚ l.
Proof.
  intros Hx Hs Hu. induction l as [|b l IH]; [by apply elem_of_nil in Hx|]. simpl.
  destruct (Z.eqb_spec b.1 start) as [E|E].
  - by rewrite (Hu b) by (done || constructor).
  - apply elem_of_cons in Hx as [->|Hx]; [done|]. rewrite <- IH at 2; [apply Permutation_swap|done|].
    intros b' Hb' E'. apply Hu; [by constructor|done].
Qed.

Lemma erase_start_sublist start l : erase_start start l `sublist_of` l.
Proof. induction l as [|b l IH]; simpl; [done|]. destruct (_ =? _)%Z; by constructor. Qed.

#[local] Instance block_le_trans : Transitive block_le.
Proof. intros a b c. unfold block_le. lia. Qed.

#[local] Instance block_le_total : Total block_le.
Proof. intros a b. unfold block_le. lia. Qed.

Lemma add_inactive_Permutation start n l : add_inactive start n l ≡ₚ (start, (start + n)%Z) :: l.
Proof. unfold add_inactive. rewrite merge_sort_Permutation. symmetry. apply Permutation_cons_append. Qed.

Lemma add_inactive_sorted start n l : StronglySorted block_le (add_inactive start n l).
Proof. apply StronglySorted_merge_sort; apply _. Qed.

Lemma StronglySorted_sublist_of {B} (R : B → B → Prop) (l l' : list B) :
  l `sublist_of` l' → StronglySorted R l' → StronglySorted R l.
Proof.
  induction 1 as [|x l l' Hs IH|x l l' Hs IH]; intros Hl'; [done| |].
  - apply StronglySorted_inv in Hl' as [Hl' Hf]. constructor; [by apply IH|].
    rewrite Forall_forall in *. intros y Hy. apply Hf. eapply sublist_subseteq in Hs; auto.
  - apply StronglySorted_inv in Hl' as [Hl' _]. by apply IH.
Qed.

(** The block [p], [n] can be used while the current one waits. *)
Record temp_ok A (p n : Z) : Prop := {
  to_size : (HEADER_SIZE ≤ n)%Z;
  to_addr : (0 < p)%Z ∧ (p + n < address_limit)%Z;
  to_disjoint : (p + n ≤ activeRAM (myState A) ∨ activeRAM (myState A) + numBytes (myState A) ≤ p)%Z;
  to_unknown b : b ∈ allInactives A → b.1 ≠ activeRAM (myState A)
}.

(** The allocator after switching to the temporary block; [user] tells a
    supplied block from an allocated one. *)
Definition switched (user : bool) (p n : Z) A : Allocator :=
  MkAllocator (myPolicies A)
    (MkAllocatorState p n true user ((λ _, []) <$> chunks (myState A)))
    (add_inactive (activeRAM (myState A)) (numBytes (myState A)) (allInactives A))
    (<[ref_addr p := 0%Z]> (<[p := HEADER_SIZE]>
      (<[ref_addr (activeRAM (myState A)) := u32 (ALLOCATOR_REF_COUNT A + 1)]> (mem A))))
    (if user then heap A else <[p := n]> (heap A)).

Lemma concat_empty {B C} (l : list B) : concat ((λ _, [] : list C) <$> l) = [].
Proof. induction l; simpl; [done|]. done. Qed.

Lemma switched_inv user p n A live :
  block_inv A live → temp_ok A p n → block_inv (switched user p n A) ∅.
Proof.
  intros (Hwf & _ & Hpol) Hok. destruct Hok as [Hn [Hp Hpn] _ _].
  split_and!; [|intros c Hc; by apply not_elem_of_empty in Hc|done].
  assert (LAST_USED (switched user p n A) = HEADER_SIZE) as HL.
  { unfold LAST_USED. simpl. rewrite word_insert_ne by (unfold ref_addr; lia). apply word_insert_eq. }
  split; rewrite ?HL; try done; simpl.
  - exists []. split; [done|]. unfold free_chunks. simpl. rewrite concat_empty.
    intros c [Hc|Hc]; [by apply elem_of_nil in Hc|by apply not_elem_of_empty in Hc].
  - rewrite length_fmap. apply Hwf.
  - intros i l c Hi Hc. rewrite list_lookup_fmap in Hi. destruct (chunks _ !! i); simplify_eq/=.
    by apply elem_of_nil in Hc.
  - unfold free_chunks. simpl. rewrite concat_empty. constructor.
  - unfold ALLOCATOR_REF_COUNT. simpl. rewrite word_insert_eq. done.
Qed.

(** The reference count of the waiting block is not zero, so that it is kept. *)
Lemma retire_referenced A live :
  wf_block A live → (Z.of_nat (size live) + 1 < u32_modulus)%Z →
  let A0 := set_mem (set_state A (set_userSupplied (myState A) false))
    (<[ref_addr (activeRAM (myState A)) := u32 (ALLOCATOR_REF_COUNT A + 1)]> (mem A)) in
  retire_block A0 = (Ret tt, set_inactives A0
    (add_inactive (activeRAM (myState A)) (numBytes (myState A)) (allInactives A))).
Proof.
  intros Hwf Hsz A0. unfold retire_block, ALLOCATOR_REF_COUNT at 1. simpl. rewrite word_insert_eq.
  rewrite (wb_refs _ _ Hwf), u32_small by lia. destruct (Z.eqb_spec (Z.of_nat (size live) + 1) 0); [lia|done].
Qed.

Lemma temporarilyUseBlock_eq A live p n :
  wf_block A live → (Z.of_nat (size live) + 1 < u32_modulus)%Z → temp_ok A p n →
  temporarilyUseBlock p n A = (Ret (myState A), switched true p n A).
Proof.
  intros Hwf Hsz Hok. pose proof (wb_active _ _ Hwf). destruct Hok as [Hn [Hp _] _ _].
  unfold temporarilyUseBlock, setupUserSuppliedBlock, setupBlock, incRef. run. unfold store at 1. run.
  rewrite (proj2 (Z.ltb_ge n HEADER_SIZE)), (proj2 (Z.eqb_neq p 0)) by lia. run.
  cbn [myState set_mem set_state activeRAM set_userSupplied curBlockUserSupplied].
  rewrite (proj2 (Z.eqb_neq (activeRAM (myState A)) 0)) by lia. cbn [negb andb].
  pose proof (retire_referenced A live Hwf Hsz) as Hr. unfold ALLOCATOR_REF_COUNT in Hr.
  cbn beta zeta in Hr. cbn [mem set_mem set_state]. rewrite Hr. run. done.
Qed.

Lemma restore_eq A2 st :
  curBlockUserSupplied (myState A2) = true →
  restoreAllocationBlock st A2 = (Ret tt,
    MkAllocator (myPolicies A2) st (erase_start (activeRAM st) (allInactives A2))
      (<[ref_addr (activeRAM st) := u32 (word (mem A2) (ref_addr (activeRAM st)) - 1)]> (mem A2)) (heap A2)).
Proof. intros Hu. unfold restoreAllocationBlock. rewrite Hu. run. unfold decRef, store. run. done. Qed.

(** ** Objects of inactive blocks *)

(** The inactive blocks in order, without overlap. *)
Definition blocks_ordered (l : list inactive) : Prop :=
  ∀ i j a b, l !! i = Some a → l !! j = Some b → i < j → (a.2 ≤ b.1)%Z.

Lemma find_inactive_spec l i b here :
  blocks_ordered l → l !! i = Some b → (b.1 < here < b.2)%Z → find_inactive l here = Some (i, b).
Proof.
  intros Ho Hb Hh. unfold find_inactive, lower_bound.
  rewrite (proj2 (list_find_Some (λ b : inactive, ¬ (b.2 < here)%Z) l i b)).
  - rewrite (proj2 (Z.ltb_ge _ _)) by lia. done.
  - split_and!; [done|lia|]. intros j a Ha Hj. pose proof (Ho j i a b Ha Hb Hj). lia.
Qed.

(** ** Properties *)

(** [C28] Allocation under every policy: the returned object lies in a chunk
    of the current block, after its header, that is large enough and overlaps
    the chunk of no live object; the block stays well formed with one more
    object counted; when the request does not fit, it throws, or returns null
    if the block does not throw, and nothing changes. *)
Theorem policy_getRAM_spec (pol : AllocatorPolicy) (A : Allocator) (live : gset Z) (n : Z) :
  wf_block A live → (0 ≤ n ≤ 4294967288)%Z → (Z.of_nat (size live) + 1 < u32_modulus)%Z →
  let '(r, A') := policy_getRAM pol n A in
  match r with
  | Ret p =>
      if (p =? 0)%Z then A' = A ∧ throwException (myState A) = false
      else
        let c := (p - 4)%Z in
        (activeRAM (myState A) + HEADER_SIZE ≤ c)%Z ∧ (n + 4 ≤ word (mem A') c)%Z ∧
        (c + word (mem A') c ≤ activeRAM (myState A) + numBytes (myState A))%Z ∧
        (∀ d, d ∈ live → word (mem A') d = word (mem A) d ∧
          (d + word (mem A') d ≤ c ∨ c + word (mem A') c ≤ d)%Z) ∧
        wf_block A' ({[c]} ∪ live) ∧ block_frame A A'
  | NotEnoughSpace => A' = A ∧ throwException (myState A) = true
  | _ => False
  end.
Proof.
  intros Hwf Hn Hsz. pose proof (policy_getRAM_post pol A live n Hwf Hn Hsz) as Hp.
  destruct (policy_getRAM pol n A) as [[p| | |] A']; simpl in Hp; try done.
  destruct (p =? 0)%Z; [done|]. destruct Hp as (Hfresh & Hwf' & Hfit & Hw & Hfr).
  assert ((p - 4)%Z ∈ {[(p - 4)%Z]} ∪ live) as Hc by set_solver.
  pose proof (block_chunk A' _ Hwf' _ (or_intror Hc)) as (Hb1 & Hb2 & Hb3 & Hb4).
  pose proof (wb_used _ _ Hwf') as Hu. rewrite (bf_state _ _ Hfr) in Hb1, Hb2, Hu. simpl in *.
  unfold HEADER_SIZE. split_and!; [lia|lia|lia| |done|done].
  intros d Hd. split; [by apply Hw|].
  apply (block_disjoint A' _ Hwf'); [right; set_solver|by right|intros ->; done].
Qed.

(** The default policy reports lack of room only when no free chunk and
    not the unused end of the block can take the request. *)
Theorem defaultGetRAM_complete (A : Allocator) (live : gset Z) (n : Z) :
  wf_block A live → (0 ≤ n ≤ 4294967288)%Z → (Z.of_nat (size live) + 1 < u32_modulus)%Z →
  ¬ no_room A n → ∃ p A', defaultGetRAM n A = (Ret p, A') ∧ p ≠ 0%Z.
Proof.
  intros Hwf Hn Hsz Hroom. pose proof (defaultGetRAM_cases A live n Hwf Hn Hsz) as Hd.
  destruct (defaultGetRAM n A) as [r A']. destruct Hd as [_ [?|(p & -> & ?)]]; [done|eauto].
Qed.

(** A freed chunk is reused: freeing an object and asking for as many
    bytes again returns the same address and restores the free lists, the
    reference count and every other word of the block. *)
Theorem free_then_get_reuses (A : Allocator) (live : gset Z) (p n : Z) :
  wf_block A live → (p - 4)%Z ∈ live → (0 ≤ n ≤ 4294967288)%Z →
  bytes_needed n = word (mem A) (p - 4) →
  ∃ A1 A2, defaultFreeRAM true p A = (Ret tt, A1) ∧ defaultGetRAM n A1 = (Ret p, A2) ∧
    chunks (myState A2) = chunks (myState A) ∧ ∀ q, word (mem A2) q = word (mem A) q.
Proof.
  intros Hwf Hp Hn Hneed. rewrite (defaultFreeRAM_block A live p Hwf Hp).
  set (A1 := set_mem _ _). destruct (freed_wf A live _ Hwf Hp) as (Hwf1 & _ & Hw). fold A1 in Hwf1, Hw.
  pose proof (block_chunk A live Hwf _ (or_intror Hp)) as Hb.
  destruct (chunk_index_spec (bytes_needed n)) as [Hci Hi]; [lia|].
  set (i := Z.to_nat (Z.log2 (bytes_needed n))) in *.
  destruct (lookup_lt_is_Some_2 (chunks (myState A)) i) as [l Hl]; [rewrite (wb_bins _ _ Hwf); lia|].
  assert (chunks (myState A1) = alter (λ l, l ++ [(p - 4)%Z]) i (chunks (myState A))) as Hch.
  { unfold A1, i. simpl. by rewrite Hneed. }
  assert (chunks (myState A1) !! i = Some (l ++ [(p - 4)%Z])) as Hl1.
  { by rewrite Hch, list_lookup_alter_eq, Hl. }
  exists A1. eexists. split; [done|].
  assert (drop i (chunks (myState A1)) = (l ++ [(p - 4)%Z]) :: drop (S i) (chunks (myState A1))) as Hdrop
    by by apply drop_S.
  rewrite (reuse_eq A1 (live ∖ {[(p - 4)%Z]}) n i (length l) (p - 4)%Z Hwf1); [|..|done|].
  - replace (p - 4 + 4)%Z with p by lia. split; [done|]. simpl. split.
    + rewrite <- Hneed. fold i. by apply alter_snoc_delete.
    + intros q. rewrite word_insert. unfold ALLOCATOR_REF_COUNT. destruct (decide _) as [<-|Hq].
      * simpl. rewrite word_insert_eq. pose proof (wb_refs _ _ Hwf) as Hr. pose proof (wb_small _ _ Hwf).
        assert (size live ≠ 0) by (intros E%size_empty_inv; set_solver).
        unfold ALLOCATOR_REF_COUNT in Hr. rewrite Hr. rewrite (wb_refs _ _ Hwf). rewrite (u32_small (Z.of_nat (size live) - 1)) by word_lia.
        rewrite u32_small by word_lia. lia.
      * by rewrite word_insert_ne.
  - rewrite Hl1. simpl. by rewrite lookup_app_r, Nat.sub_diag by lia.
  - fold i. rewrite Hdrop. simpl. rewrite length_app, Nat.add_1_r. simpl.
    rewrite lookup_app_r, Nat.sub_diag by lia. simpl. rewrite Hw by done.
    by rewrite (proj2 (Z.leb_le _ _)) by lia.
Qed.

(** Selecting a policy makes it the one that serves every request,
    whichever was in use before. *)
Theorem setPolicy_dispatch (pol : AllocatorPolicy) (A : Allocator) (n p : Z) :
  (myPolicies A).*1 = all_policies.*1 →
  let A' := (setPolicy pol A).2 in
  getRAM n A' = policy_getRAM pol n A' ∧ freeRAM p A' = policy_freeRAM pol (contains A' p) p A' ∧
  (myPolicies A').*1 = all_policies.*1.
Proof.
  intros Hl A'. unfold A', getRAM, freeRAM. simpl.
  destruct (myPolicies A) as [|[p1 b1] [|[p2 b2] [|[p3 b3] [|]]]]; try done.
  simpl in Hl. injection Hl as -> -> ->. by destruct pol.
Qed.

(** A temporary block is transparent: after switching to a user-supplied
    block, any allocations and frees in it, and restoring, the allocator works
    on the original block in its original state, every word outside the
    temporary block is what it was, the same inactive blocks are known and no
    [malloc]ed block was freed or leaked. *)
Theorem temporary_block_transparent (A A2 : Allocator) (live live2 : gset Z) (p n : Z) :
  block_inv A live → (Z.of_nat (size live) + 1 < u32_modulus)%Z → temp_ok A p n →
  rtc block_step ((temporarilyUseBlock p n A).2, ∅) (A2, live2) →
  (temporarilyUseBlock p n A).1 = Ret (myState A) ∧
  ∃ A3, restoreAllocationBlock (myState A) A2 = (Ret tt, A3) ∧
    myState A3 = myState A ∧ wf_block A3 live ∧ myPolicies A3 = myPolicies A ∧ heap A3 = heap A ∧
    allInactives A3 ≡ₚ allInactives A ∧ StronglySorted block_le (allInactives A3) ∧
    (∀ q, (q < p ∨ p + n ≤ q)%Z → word (mem A3) q = word (mem A) q).
Proof.
  intros Hinv Hsz Hok. pose proof Hinv as (Hwf & _ & _).
  rewrite (temporarilyUseBlock_eq A live p n Hwf Hsz Hok). intros Hsteps. split; [done|].
  destruct (block_steps_inv _ _ Hsteps (switched_inv true p n A live Hinv Hok)) as [_ Hfr].
  destruct Hfr as [Hpol Hin Hheap Hst Hmem]. simpl in *.
  pose proof Hok as [Hn [Hp Hpn] Hdis Hun]. pose proof (wb_used _ _ Hwf) as Hu. unfold HEADER_SIZE in *.
  rewrite restore_eq by by rewrite Hst. eexists. split; [done|]. simpl.
  assert (∀ q, (q < p ∨ p + n ≤ q)%Z → word (<[ref_addr (activeRAM (myState A)) :=
    u32 (word (mem A2) (ref_addr (activeRAM (myState A))) - 1)]> (mem A2)) q = word (mem A) q) as Hw.
  { intros q Hq. rewrite word_insert. destruct (decide _) as [<-|Hne].
    - rewrite Hmem by done. rewrite !word_insert_ne by (unfold ref_addr in *; lia). rewrite word_insert_eq.
      pose proof (wb_refs _ _ Hwf) as Hr. rewrite Hr, (u32_small (Z.of_nat (size live) + 1)) by lia.
      rewrite u32_small by lia. unfold ALLOCATOR_REF_COUNT in Hr. lia.
    - rewrite Hmem by done. by rewrite !word_insert_ne by (unfold ref_addr in *; lia). }
  split_and!; [done| |done|done| | |done].
  - apply (wf_block_change A live Hwf); simpl; try done; try apply Hwf.
    + intros q Hq. apply Hw. lia.
    + unfold ALLOCATOR_REF_COUNT. simpl. rewrite Hw by (unfold ref_addr; lia). apply Hwf.
  - rewrite Hin. pose proof (add_inactive_Permutation (activeRAM (myState A)) (numBytes (myState A)) (allInactives A)) as Hperm.
    eapply (Permutation_cons_inv (a := (activeRAM (myState A), (activeRAM (myState A) + numBytes (myState A))%Z))).
    rewrite <- Hperm. apply erase_start_Permutation; [|done|].
    + rewrite Hperm. constructor.
    + intros b Hb Hbs. rewrite Hperm in Hb. apply elem_of_cons in Hb as [->|Hb]; [done|].
      by apply Hun in Hb.
  - rewrite Hin. eapply StronglySorted_sublist_of; [apply erase_start_sublist|apply add_inactive_sorted].
Qed.

(** Freeing an object of an inactive block: the count of that block goes
    down by one and, exactly when it reaches zero, the block is given back to
    [malloc] and forgotten; no other block is touched. *)
Theorem freeRAM_inactive_spec (pol : AllocatorPolicy) (A : Allocator) (i : nat) (b : inactive) (here r : Z) :
  policy_in_use (myPolicies A) = Some pol → pol ≠ noReferenceCountAllocator →
  contains A here = false → blocks_ordered (allInactives A) → allInactives A !! i = Some b →
  (b.1 < here < b.2)%Z → is_Some (heap A !! b.1) →
  word (mem A) (ref_addr b.1) = r → (1 ≤ r < u32_modulus)%Z →
  ∃ A', freeRAM here A = (Ret tt, A') ∧ myState A' = myState A ∧
    mem A' = <[ref_addr b.1 := (r - 1)%Z]> (mem A) ∧
    (if decide (r = 1)%Z
     then allInactives A' = delete i (allInactives A) ∧ heap A' = delete b.1 (heap A)
     else allInactives A' = allInactives A ∧ heap A' = heap A).
Proof.
  intros Hpol Hnr Hc Ho Hi Hb [sz Hheap] Hr Hr1. unfold freeRAM.
  rewrite (list_freeRAM_policy _ pol) by done. rewrite Hc.
  assert (policy_freeRAM pol false here = defaultFreeRAM false here) as -> by by destruct pol.
  unfold defaultFreeRAM. rewrite (find_inactive_spec _ i b here Ho Hi Hb). run.
  unfold decRef, store. run. cbn [mem set_mem]. rewrite word_insert_eq, Hr, u32_small by lia.
  destruct (Z.eqb_spec (r - 1) 0) as [Hz|Hz].
  - run. unfold c_free. cbn [heap set_mem]. rewrite Hheap. eexists. split; [done|].
    rewrite decide_True by lia. done.
  - eexists. split; [done|]. rewrite decide_False by lia. done.
Qed.

(** A record finds its root object: [getAllocationBlock] returns the
    block of the object and stores the object's offset in its header, from
    which [getRootObject] computes the object's address; the sizes and counts
    of the block are untouched. *)
Theorem getAllocationBlock_root (A : Allocator) (live : gset Z) (here : Z) :
  wf_block A live → contains A here = true →
  ∃ A', getAllocationBlock here A = (Ret (activeRAM (myState A)), A') ∧
    rootObject A' (activeRAM (myState A)) = here ∧ wf_block A' live ∧ block_frame A A'.
Proof.
  intros Hwf Hc. unfold getAllocationBlock. rewrite Hc. run. unfold store. run. eexists. split; [done|].
  pose proof (wb_active _ _ Hwf). pose proof (wb_end _ _ Hwf). pose proof (wb_used _ _ Hwf).
  unfold HEADER_SIZE, address_limit in *.
  unfold contains in Hc. apply andb_true_iff in Hc as [Hc1%Z.leb_le Hc2%Z.ltb_lt].
  split_and!.
  - unfold rootObject. cbn [mem set_mem]. rewrite word_insert_eq, (u64_small (here - _)) by word_lia.
    rewrite u64_small by word_lia. lia.
  - apply (wf_block_change A live Hwf); simpl; try done; try apply Hwf.
    + intros q Hq. apply word_insert_ne. unfold offset_addr. lia.
    + unfold ALLOCATOR_REF_COUNT. simpl. rewrite word_insert_ne by (unfold offset_addr, ref_addr; lia).
      apply Hwf.
  - split; try done; simpl; [by destruct (myState A)|].
    intros q Hq. apply word_insert_ne. unfold offset_addr. lia.
Qed.

(** ** Witnesses and counterexamples *)

(** An allocator on a block of 1024 bytes at address 4096 with two objects. *)
Definition alloc0 : Allocator := (Allocator_new 4096 1024 ∅).2.
Definition alloc1 : Allocator := (getRAM 20 alloc0).2.
Definition alloc2 : Allocator := (getRAM 50 alloc1).2.
Definition live2 : gset Z := live_after (live_after ∅ (Ret 4120%Z)) (Ret 4144%Z).

Lemma alloc0_inv : block_inv alloc0 ∅.
Proof.
  split_and!; [|intros c Hc; by apply not_elem_of_empty in Hc|by eexists].
  assert (chunks (myState alloc0) = replicate 32 []) as E by (vm_compute; reflexivity).
  assert (free_chunks (myState alloc0) = []) as Ef by (vm_compute; reflexivity).
  split.
  - vm_compute. reflexivity.
  - vm_compute. reflexivity.
  - vm_compute. by split.
  - exists []. split; [vm_compute; reflexivity|]. rewrite Ef.
    intros c [Hc|Hc]; [by apply elem_of_nil in Hc|by apply not_elem_of_empty in Hc].
  - by rewrite E.
  - intros i l c Hi Hc. rewrite E in Hi. apply lookup_replicate in Hi as [-> _]. by apply elem_of_nil in Hc.
  - rewrite Ef. constructor.
  - intros c Hc. by apply not_elem_of_empty in Hc.
  - vm_compute. reflexivity.
  - vm_compute. reflexivity.
Qed.

Lemma alloc2_inv : block_inv alloc2 live2.
Proof.
  apply (block_steps_inv (alloc0, ∅) (alloc2, live2)); [|apply alloc0_inv].
  eapply rtc_l; [apply (step_get _ alloc1 _ 20 (Ret 4120%Z)); [lia|vm_compute; reflexivity|vm_compute; reflexivity]|].
  eapply rtc_l; [apply (step_get _ alloc2 _ 50 (Ret 4144%Z)); [lia|vm_compute; reflexivity|vm_compute; reflexivity]|].
  apply rtc_refl.
Qed.

Lemma policy_getRAM_spec_witness :
  ∃ A', policy_getRAM defaultAllocator 100 alloc2 = (Ret 4200%Z, A') ∧ wf_block A' ({[4196%Z]} ∪ live2).
Proof.
  pose proof (policy_getRAM_spec defaultAllocator alloc2 live2 100 (proj1 alloc2_inv) ltac:(lia)
    ltac:(vm_compute; reflexivity)) as H.
  exists (policy_getRAM defaultAllocator 100 alloc2).2.
  assert (policy_getRAM defaultAllocator 100 alloc2 =
    (Ret 4200%Z, (policy_getRAM defaultAllocator 100 alloc2).2)) as E by (vm_compute; reflexivity).
  split; [exact E|]. rewrite E in H. destruct H as (_ & _ & _ & _ & Hwf & _). exact Hwf.
Defined.

Lemma defaultGetRAM_complete_witness :
  ∃ p A', defaultGetRAM 100 alloc2 = (Ret p, A') ∧ p ≠ 0%Z.
Proof.
  apply (defaultGetRAM_complete alloc2 live2 100 (proj1 alloc2_inv)); [lia|by vm_compute|].
  intros [_ H]. vm_compute in H. discriminate.
Defined.

Lemma free_then_get_reuses_witness :
  ∃ A1 A2, defaultFreeRAM true 4120 alloc2 = (Ret tt, A1) ∧ defaultGetRAM 18 A1 = (Ret 4120%Z, A2) ∧
    chunks (myState A2) = chunks (myState alloc2) ∧ ∀ q, word (mem A2) q = word (mem alloc2) q.
Proof.
  apply (free_then_get_reuses alloc2 live2 4120 18 (proj1 alloc2_inv)); [|lia|by vm_compute].
  change (4120 - 4)%Z with 4116%Z. unfold live2. simpl. set_solver.
Defined.

Lemma setPolicy_dispatch_witness :
  let A' := (setPolicy noReuseAllocator alloc2).2 in
  getRAM 8 A' = policy_getRAM noReuseAllocator 8 A' ∧
  freeRAM 4120 A' = policy_freeRAM noReuseAllocator (contains A' 4120) 4120 A' ∧
  (myPolicies A').*1 = all_policies.*1.
Proof. apply (setPolicy_dispatch noReuseAllocator alloc2 8 4120). reflexivity. Defined.

Lemma alloc2_temp_ok : temp_ok alloc2 8192 512.
Proof.
  split; [by vm_compute|by vm_compute|right; by vm_compute|].
  intros b Hb. assert (allInactives alloc2 = []) as E by by vm_compute. rewrite E in Hb.
  by apply elem_of_nil in Hb.
Qed.

(** The temporary block after one allocation. *)
Definition alloc3 : Allocator := (getRAM 40 (temporarilyUseBlock 8192 512 alloc2).2).2.

Lemma temporary_block_transparent_witness :
  ∃ A3, restoreAllocationBlock (myState alloc2) alloc3 = (Ret tt, A3) ∧ myState A3 = myState alloc2.
Proof.
  destruct (temporary_block_transparent alloc2 alloc3 live2 (live_after ∅ (Ret 8216%Z)) 8192 512
    alloc2_inv ltac:(vm_compute; reflexivity) alloc2_temp_ok) as (_ & A3 & H3 & Hs & _).
  - apply rtc_once. apply (step_get _ alloc3 _ 40 (Ret 8216%Z)); [lia|vm_compute; reflexivity|vm_compute; reflexivity].
  - exists A3. split; [exact H3|exact Hs].
Defined.

(** [alloc2] after its block was replaced: both objects are in an inactive
    block. *)
Definition alloc4 : Allocator := (setupBlock 16384 256 true alloc2).2.

Lemma freeRAM_inactive_spec_witness :
  ∃ A', freeRAM 4120 alloc4 = (Ret tt, A') ∧ myState A' = myState alloc4 ∧
    mem A' = <[ref_addr 4096 := 1%Z]> (mem alloc4) ∧
    allInactives A' = allInactives alloc4 ∧ heap A' = heap alloc4.
Proof.
  apply (freeRAM_inactive_spec defaultAllocator alloc4 0 (4096, 5120)%Z 4120 2); try done; try (by vm_compute).
  - intros i j a b Hi Hj Hij. assert (allInactives alloc4 = [(4096, 5120)%Z]) as E by by vm_compute.
    rewrite E in Hi, Hj. apply lookup_lt_Some in Hj. simpl in Hj. lia.
Defined.

Lemma getAllocationBlock_root_witness :
  ∃ A', getAllocationBlock 4124 alloc2 = (Ret 4096%Z, A') ∧ rootObject A' 4096 = 4124%Z.
Proof.
  destruct (getAllocationBlock_root alloc2 live2 4124 (proj1 alloc2_inv) eq_refl) as (A' & H & Hr & _).
  exists A'. split; [exact H|exact Hr].
Defined.

(** The size of a request is truncated to 32 bits: a request of
    4 GiB and four bytes is served with a chunk of eight bytes. *)
Theorem getRAM_truncates_size :
  let '(r, A') := getRAM 4294967300 alloc0 in
  r = Ret 4120%Z ∧ word (mem A') 4116 = 8%Z ∧ (numBytes (myState alloc0) = 1024)%Z.
Proof. by vm_compute. Qed.

(** [emptyOutBlock] gives no memory back: on the current block the used
    part stays used although the count is zero and the free lists are empty;
    an inactive block is forgotten without being freed. *)
Theorem emptyOutBlock_keeps_memory :
  (let A := (emptyOutBlock 4120 alloc2).2 in
   ALLOCATOR_REF_COUNT A = 0%Z ∧ free_chunks (myState A) = [] ∧ LAST_USED A = LAST_USED alloc2 ∧
   (getRAM 1000 A).1 = NotEnoughSpace ∧ (getRAM 1000 alloc0).1 = Ret 4120%Z) ∧
  (let A := (emptyOutBlock 4120 alloc4).2 in
   allInactives A = [] ∧ heap A !! 4096%Z = Some 1024%Z).
Proof. by vm_compute. Qed.
