(* ===== verification/Handle.v ===== *)
(** * Handle: reference-counted handles and deep copies

    Models [objectModel/headers/Handle.cc], [Handle.h], [RefCountedObject.cc],
    [PDBTemplateBase.cc], [DeepCopy.h], the object makers of
    [InterfaceFunctions.cc], and [PDBString.cc] as far as handles and copies
    meet strings.

    A handle at address [h] is its offset at [h] and its type information at
    [h + 8]; the offset -1 is null, any other leads to the counted object at
    [h + offset].  A counted object at [t] is the count [NUM_COPIES] at [t] and
    the object itself at [t + 4].  All cells are words of the allocator's
    memory ([Allocator.mem]).

    A class with [ENABLE_DEEP_COPY] is constructed, assigned and destroyed
    member by member, as C++ does it; a class table gives the members and the
    size of the classes of the program.  [String] and [Handle] have type codes
    of their own. *)

From S2P Require Import Prelude Allocator.

(** ** Classes *)

(** A member at offset [o]: plain data in one cell, a handle declared with the
    type of code [static], or a string. *)
Inductive member :=
| Scalar (o : Z)
| HandleAt (o static : Z)
| StringAt (o : Z).

(** The classes of the program by type code, String and Handle apart. *)
Record Classes := MkClasses {
  class_members : Z → list member;
  class_size : Z → Z
}.

(** [BuiltInObjectTypeIDs.h] *)
Definition String_TYPEID : Z := 1.
Definition Handle_TYPEID : Z := 2.
Definition Nothing_TYPEID : Z := 90.

Definition REF_COUNT_PREAMBLE_SIZE : Z := 4.

(** [sizeof] of [Handle] and of [String], which stores one. *)
Definition HANDLE_SIZE : Z := 16.

Implicit Types (C : Classes) (A : Allocator).

(** What the type information [info] says is in an object: a string, a handle,
    the members of a class, or bytes without structure. *)
Definition members C (info : Z) : list member :=
  if (info =? String_TYPEID)%Z then [StringAt 0]
  else if (info =? Handle_TYPEID)%Z then [HandleAt 0 Nothing_TYPEID]
  else if (0 <? info)%Z then class_members C info
  else [].

(** [getSizeOfConstituentObject] *)
Definition size_of C (info : Z) : Z :=
  if (info =? String_TYPEID)%Z then HANDLE_SIZE
  else if (info =? Handle_TYPEID)%Z then HANDLE_SIZE
  else if (0 <? info)%Z then class_size C info
  else - info.

(** ** Words of handles *)

Definition handle_offset A (h : Z) : Z := word (mem A) h.
Definition typeInfo A (h : Z) : Z := word (mem A) (h + 8).
Definition isNullPtr A (h : Z) : bool := (handle_offset A h =? -1)%Z.
Definition getTarget A (h : Z) : Z := h + handle_offset A h.
Definition getObject (t : Z) : Z := t + REF_COUNT_PREAMBLE_SIZE.

Definition setOffset (h v : Z) : M Allocator unit := store h v.
Definition setTypeInfo (h info : Z) : M Allocator unit := store (h + 8) info.

(** ** Counted objects *)

Definition NUM_COPIES A (t : Z) : Z := word (mem A) t.

Definition setRefCount (t toMe : Z) : M Allocator unit := λ A,
  if isManaged A t then store t toMe A else (Ret tt, A).

(** [UINT_MAX] for an object that is not managed. *)
Definition getRefCount A (t : Z) : Z := if isManaged A t then NUM_COPIES A t else UINT32_MAX.

Definition incRefCount (t : Z) : M Allocator unit := λ A,
  if isManaged A t then store t (u32 (NUM_COPIES A t + 1)) A else (Ret tt, A).

(** One call per member, in order. *)
Fixpoint each (f : member → M Allocator unit) (ms : list member) : M Allocator unit :=
  match ms with
  | [] => mret tt
  | m :: ms' => f m ;; each f ms'
  end.

(** [~Handle], [~String], and the destructor of a member; [dec] is
    [decRefCount]. *)
Definition Handle_destroy (dec : Z → Z → M Allocator unit) (h : Z) : M Allocator unit := λ A,
  if negb (isNullPtr A h) && isManaged A (getTarget A h) then dec (getTarget A h) (typeInfo A h) A
  else (Ret tt, A).

Definition String_destroy (dec : Z → Z → M Allocator unit) (h : Z) : M Allocator unit := λ A,
  if (typeInfo A h <? -1)%Z then Handle_destroy dec h A else (Ret tt, A).

Definition destroy_member (dec : Z → Z → M Allocator unit) (a : Z) (m : member) : M Allocator unit :=
  match m with
  | Scalar _ => mret tt
  | HandleAt o _ => Handle_destroy dec (a + o)
  | StringAt o => String_destroy dec (a + o)
  end.

(** [deleteConstituentObject]: the members are destroyed in reverse order. *)
Definition deleteConstituentObject C (dec : Z → Z → M Allocator unit) (info a : Z) : M Allocator unit :=
  each (destroy_member dec a) (reverse (members C info)).

(** [decRefCount]; [n] bounds the depth of nested deletions. *)
Fixpoint decRefCount C (n : nat) (t info : Z) : M Allocator unit :=
  match n with
  | 0 => lift Undefined
  | S n' => λ A,
      if isManaged A t then
        (store t (u32 (NUM_COPIES A t - 1)) ;;
         A' ← get;
         if (NUM_COPIES A' t =? 0)%Z then
           deleteConstituentObject C (decRefCount C n') info (getObject t) ;; freeRAM t
         else mret tt) A
      else (Ret tt, A)
  end.

(** ** Construction *)

(** [Handle()] *)
Definition Handle_new (h static : Z) : M Allocator unit :=
  setTypeInfo h static ;; setOffset h (-1).

(** [String()]: an empty short string, the characters of which are stored in
    the offset; its first byte is cleared. *)
Definition String_new (h : Z) : M Allocator unit :=
  setTypeInfo h 1 ;; setOffset h (-1) ;;
  A ← get;
  setOffset h (Z.land (handle_offset A h) (Z.lnot 255)).

Definition construct_member (a : Z) (m : member) : M Allocator unit :=
  match m with
  | Scalar _ => mret tt
  | HandleAt o static => Handle_new (a + o) static
  | StringAt o => String_new (a + o)
  end.

(** The default constructor of a class. *)
Definition construct C (info a : Z) : M Allocator unit := each (construct_member a) (members C info).

(** [memmove(target, source, n)] *)
Definition memmove (target source n : Z) : M Allocator unit := λ A,
  (Ret tt, set_mem A (foldl (λ m d, <[target + d := word (mem A) (source + d)]> m)%Z (mem A) (seqZ 0 n))).

(** ** Assignment *)

(** [GET_OLD_TARGET] *)
Definition old_target A (h : Z) : option Z := if isNullPtr A h then None else Some (getTarget A h).

(** [DEC_OLD_REF_COUNT] *)
Definition dec_old (dec : Z → Z → M Allocator unit) (oldTarget : option Z) (oldTypeInfo : Z) : M Allocator unit :=
  match oldTarget with
  | Some t => dec t oldTypeInfo
  | None => mret tt
  end.

Section assignment.
Context (C : Classes).
(** [decRefCount], and [setUpAndCopyFromConstituentObject] of a type, a target
    and a source. *)
Context (dec : Z → Z → M Allocator unit) (copy : Z → Z → Z → M Allocator unit).

(** [operator=(nullptr)] *)
Definition Handle_assign_nullptr (h : Z) : M Allocator unit := λ A,
  (dec_old dec (old_target A h) (typeInfo A h) ;; setOffset h (-1)) A.

(** [operator=(const Handle&)]; both overloads are the same but for messages. *)
Definition Handle_assign (h fromMe : Z) : M Allocator unit := λ A,
  let oldTarget := old_target A h in
  let oldTypeInfo := typeInfo A h in
  if isNullPtr A fromMe then (dec_old dec oldTarget oldTypeInfo ;; setOffset h (-1)) A
  else
    (setTypeInfo h (typeInfo A fromMe) ;;
     A1 ← get;
     if negb (contains A1 (getTarget A1 fromMe)) && contains A1 h then
       space ← getRAM (REF_COUNT_PREAMBLE_SIZE + size_of C (typeInfo A1 h));
       if (space =? 0)%Z then
         dec_old dec oldTarget oldTypeInfo ;; setOffset h (-1) ;; lift NotEnoughSpace
       else
         setOffset h (space - h) ;;
         A2 ← get;
         setRefCount (getTarget A2 h) 1 ;;
         catch (copy (typeInfo A2 h) (getObject (getTarget A2 h)) (getObject (getTarget A2 fromMe)))
           (A3 ← get;
            dec (getTarget A3 h) (typeInfo A3 h) ;; dec_old dec oldTarget oldTypeInfo ;;
            setOffset h (-1) ;; lift NotEnoughSpace) ;;
         dec_old dec oldTarget oldTypeInfo
     else
       setOffset h (getTarget A1 fromMe - h) ;;
       A2 ← get;
       incRefCount (getTarget A2 h) ;;
       dec_old dec oldTarget oldTypeInfo) A.

(** [operator=] from a [RefCountedObject] of an object of type [static], 0 being
    the null pointer.  When the copy fails, the overload for the handle's own
    type ([same]) drops the old target first, the other one the new object. *)
Definition Handle_assign_object (same : bool) (h static fromMe : Z) : M Allocator unit := λ A,
  let oldTarget := old_target A h in
  let oldTypeInfo := typeInfo A h in
  (setTypeInfo h static ;;
   A1 ← get;
   if (fromMe =? 0)%Z then dec_old dec oldTarget oldTypeInfo ;; setOffset h (-1)
   else if negb (contains A1 fromMe) && contains A1 h then
     space ← getRAM (REF_COUNT_PREAMBLE_SIZE + size_of C static);
     if (space =? 0)%Z then
       dec_old dec oldTarget oldTypeInfo ;; setOffset h (-1) ;; lift NotEnoughSpace
     else
       setOffset h (space - h) ;;
       A2 ← get;
       setRefCount (getTarget A2 h) 1 ;;
       catch (copy static (getObject (getTarget A2 h)) (getObject fromMe))
         (A3 ← get;
          (if same then dec_old dec oldTarget oldTypeInfo ;; dec (getTarget A3 h) (typeInfo A3 h)
           else dec (getTarget A3 h) (typeInfo A3 h) ;; dec_old dec oldTarget oldTypeInfo) ;;
          setOffset h (-1) ;; lift NotEnoughSpace) ;;
       dec_old dec oldTarget oldTypeInfo
   else
     setOffset h (fromMe - h) ;;
     A2 ← get;
     incRefCount (getTarget A2 h) ;;
     dec_old dec oldTarget oldTypeInfo) A.

(** [Handle(const Handle&)]; the type information of a new handle is 0. *)
Definition Handle_copy (h fromMe : Z) : M Allocator unit := λ A,
  if isNullPtr A fromMe then (setTypeInfo h 0 ;; setOffset h (-1)) A
  else
    (setTypeInfo h (typeInfo A fromMe) ;;
     A1 ← get;
     if negb (contains A1 (getTarget A1 fromMe)) && contains A1 h then
       space ← getRAM (REF_COUNT_PREAMBLE_SIZE + size_of C (typeInfo A1 h));
       if (space =? 0)%Z then setOffset h (-1) ;; lift NotEnoughSpace
       else
         setOffset h (space - h) ;;
         setRefCount space 1 ;;
         catch (copy (typeInfo A1 h) (getObject space) (getObject (getTarget A1 fromMe)))
           (dec space (typeInfo A1 h) ;; setOffset h (-1) ;; lift NotEnoughSpace)
     else
       setOffset h (getTarget A1 fromMe - h) ;;
       incRefCount (getTarget A1 fromMe)) A.

(** [Handle] from a [RefCountedObject] of type [static]. *)
Definition Handle_of_object (h static fromMe : Z) : M Allocator unit := λ A,
  (setTypeInfo h static ;;
   if (fromMe =? 0)%Z then setOffset h (-1)
   else if negb (contains A fromMe) && contains A h then
     space ← getRAM (REF_COUNT_PREAMBLE_SIZE + size_of C static);
     if (space =? 0)%Z then setOffset h (-1) ;; lift NotEnoughSpace
     else
       setOffset h (space - h) ;;
       setRefCount space 1 ;;
       catch (copy static (getObject space) (getObject fromMe))
         (dec space static ;; setOffset h (-1) ;; lift NotEnoughSpace)
   else
     setOffset h (fromMe - h) ;;
     incRefCount fromMe) A.

(** [shallowCopyToCurrentAllocationBlock] *)
Definition shallowCopyToCurrentAllocationBlock (h copyMe : Z) : M Allocator unit := λ A,
  let oldTarget := old_target A h in
  let oldTypeInfo := typeInfo A h in
  if isNullPtr A copyMe then (dec_old dec oldTarget oldTypeInfo ;; setOffset h (-1)) A
  else
    (setTypeInfo h (typeInfo A copyMe) ;;
     A1 ← get;
     setOffset h (getTarget A1 copyMe - h) ;;
     A2 ← get;
     incRefCount (getTarget A2 h) ;;
     dec_old dec oldTarget oldTypeInfo) A.

(** ** Strings *)

(** The type code of [char] and the bytes of a string, its length in its type
    information: not negative for a short one, negative for a long one, whose
    characters are a counted object. *)
Definition CHAR_INFO : Z := -1.
Definition is_short A (h : Z) : bool := (0 <=? typeInfo A h)%Z.
Definition String_size A (h : Z) : Z := if is_short A h then typeInfo A h else - typeInfo A h.
Definition c_str A (h : Z) : Z := if is_short A h then h else getObject (getTarget A h).

(** [makeObjectWithExtraStorage<char>(extra)]: the count is set to zero. *)
Definition makeObjectWithExtraStorage_char (extra : Z) : M Allocator Z :=
  returnVal ← getRAM (extra + 1 + REF_COUNT_PREAMBLE_SIZE);
  if (returnVal =? 0)%Z then mret 0%Z
  else store (getObject returnVal) 0 ;; setRefCount returnVal 0 ;; mret returnVal.

(** [String::operator=(const String&)].  With no space in a block that returns
    null, the characters would be written through a null handle. *)
Definition String_assign (h s : Z) : M Allocator unit := λ A,
  if (h =? s)%Z then (Exit 1, A)
  else
    ((if is_short A s then
        (if is_short A h then mret tt else Handle_assign_nullptr h) ;;
        A1 ← get;
        setOffset h (handle_offset A1 s)
      else
        (if is_short A h then setOffset h (-1) else mret tt) ;;
        A1 ← get;
        let len := String_size A1 s in
        p ← makeObjectWithExtraStorage_char (len - 1);
        Handle_assign_object true h CHAR_INFO p ;;
        A2 ← get;
        if isNullPtr A2 h then lift Undefined
        else memmove (c_str A2 h) (c_str A2 s) len) ;;
     A3 ← get;
     setTypeInfo h (typeInfo A3 s)) A.

(** The implicit copy assignment of a class. *)
Definition assign_member (a s : Z) (m : member) : M Allocator unit :=
  match m with
  | Scalar o => λ A, store (a + o) (word (mem A) (s + o)) A
  | HandleAt o _ => Handle_assign (a + o) (s + o)
  | StringAt o => String_assign (a + o) (s + o)
  end.
End assignment.

(** [setUpAndCopyFromConstituentObject]: a default object at [target], assigned
    from [source]; [k] bounds the depth of deletions, [n] that of copies. *)
Fixpoint setUpAndCopy C (k n : nat) (info target source : Z) : M Allocator unit :=
  match n with
  | 0 => lift Undefined
  | S n' =>
      if (0 <? info)%Z then
        construct C info target ;;
        each (assign_member C (decRefCount C k) (setUpAndCopy C k n') target source) (members C info)
      else memmove target source (- info)
  end.

(** ** The operations of a program *)

Section program.
Context (C : Classes) (k n : nat).

#[local] Abbreviation dec := (decRefCount C k).
#[local] Abbreviation copy := (setUpAndCopy C k n).

Definition Handle_set (h fromMe : Z) : M Allocator unit := Handle_assign C dec copy h fromMe.
Definition Handle_set_nullptr (h : Z) : M Allocator unit := Handle_assign_nullptr dec h.
Definition Handle_set_object (same : bool) (h static t : Z) : M Allocator unit :=
  Handle_assign_object C dec copy same h static t.
Definition Handle_init (h fromMe : Z) : M Allocator unit := Handle_copy C dec copy h fromMe.
Definition Handle_init_object (h static t : Z) : M Allocator unit := Handle_of_object C dec copy h static t.
Definition Handle_drop (h : Z) : M Allocator unit := Handle_destroy dec h.

(** [Handle::getRefCount] *)
Definition Handle_getRefCount A (h : Z) : Z :=
  if negb (isNullPtr A h) && isManaged A (getTarget A h) then getRefCount A (getTarget A h) else 9999999.

(** [Handle::emptyOutContainingBlock] *)
Definition emptyOutContainingBlock (h : Z) : M Allocator unit := λ A,
  if isNullPtr A h then (Ret tt, A) else (emptyOutBlock (getTarget A h) ;; setOffset h (-1)) A.

(** [copyTargetToCurrentAllocationBlock] of a handle declared with type
    [static], [returnVal] being its local handle and [result] the handle
    returned.  The space has the size of the declared type, the copy that of
    the object. *)
Definition copyTargetToCurrentAllocationBlock (h static returnVal result : Z) : M Allocator unit := λ A,
  if contains A (getTarget A h) then Handle_init result h A
  else
    (Handle_new returnVal static ;;
     space ← getRAM (REF_COUNT_PREAMBLE_SIZE + size_of C static);
     if (space =? 0)%Z then setOffset returnVal (-1) ;; lift NotEnoughSpace
     else
       setOffset returnVal (space - returnVal) ;;
       setRefCount space 1 ;;
       setTypeInfo returnVal (typeInfo A h) ;;
       catch (copy (typeInfo A h) (getObject space) (getObject (getTarget A h)))
         (dec space (typeInfo A h) ;; setOffset returnVal (-1) ;; lift NotEnoughSpace) ;;
       Handle_init result returnVal ;;
       Handle_drop returnVal) A.

(** [makeObject<ObjType>(args...)] for the type [info]: [ctor a] is the
    constructor call at [a], [temp] the local handle of the exception
    handler, null pointers are 0. *)
Definition makeObject (info temp : Z) (ctor : Z → M Allocator unit) : M Allocator Z :=
  returnVal ← getRAM (size_of C info + REF_COUNT_PREAMBLE_SIZE);
  if (returnVal =? 0)%Z then mret 0%Z
  else
    catch (ctor (getObject returnVal))
      (Handle_init_object temp info returnVal ;;
       freeRAM returnVal ;;
       Handle_drop temp ;;
       lift NotEnoughSpace) ;;
    setRefCount returnVal 0 ;;
    mret returnVal.

(** [makeObjectWithExtraStorage<ObjType>(extra, args...)] *)
Definition makeObjectWithExtraStorage (extra info : Z) (ctor : Z → M Allocator unit) : M Allocator Z :=
  returnVal ← getRAM (extra + size_of C info + REF_COUNT_PREAMBLE_SIZE);
  if (returnVal =? 0)%Z then mret 0%Z
  else
    catch (ctor (getObject returnVal)) (freeRAM returnVal ;; lift NotEnoughSpace) ;;
    setRefCount returnVal 0 ;;
    mret returnVal.

(** [getHandle(forMe)] of an object of type [info] at [forMe]. *)
Definition getHandle (info forMe : Z) : M Allocator Z := λ A,
  if contains A forMe then (Ret (forMe - REF_COUNT_PREAMBLE_SIZE)%Z, A)
  else
    (space ← getRAM (size_of C info + REF_COUNT_PREAMBLE_SIZE);
     if (space =? 0)%Z then lift NotEnoughSpace
     else
       setRefCount space 0 ;;
       catch (copy info (getObject space) forMe) (freeRAM space ;; lift NotEnoughSpace) ;;
       mret space) A.

(** [unsafeCast(castMe)] into the handle [result]. *)
Definition unsafeCast (castMe static result : Z) : M Allocator unit :=
  Handle_new result static ;;
  A ← get;
  setOffset result (handle_offset A castMe + (castMe - result)) ;;
  setTypeInfo result (typeInfo A castMe) ;;
  A1 ← get;
  incRefCount (getTarget A1 result).

(** [deepCopyToCurrentAllocationBlock(copyMe)] into the handle [result]:
    [holder] is the type code of [Holder<TargetType>], whose only member, the
    handle [child], is at offset [child]; [temp] is the local handle. *)
Definition deepCopyToCurrentAllocationBlock (holder child temp copyMe result : Z) : M Allocator unit :=
  t ← makeObject holder temp (construct C holder);
  Handle_init_object temp holder t ;;
  A ← get;
  if isNullPtr A temp then lift Undefined
  else
    let dest := (getObject (getTarget A temp) + child)%Z in
    catch (Handle_set dest copyMe ;; Handle_init result dest)
      (Handle_drop temp ;; lift NotEnoughSpace) ;;
    Handle_drop temp.
End program.
