(* ===== verification/HandleHeap.v ===== *)
(** * HandleHeap: what reference counting guarantees

    The heap of handles in the current block as a graph of counted objects,
    the invariant of its counts, and the proof that dropping a reference
    deletes exactly the objects that lose their last one
    ([objectModel/headers/RefCountedObject.cc], [Handle.cc]). *)

From S2P Require Import Prelude Allocator Handle.

Implicit Types (A : Allocator) (m : gmap Z Z) (C : Classes) (objs : gmap Z Z) (pend : gset Z)
  (rs : list (Z * Z)).

(** ** Well-formed classes *)

(** The cells of a member. *)
Definition cells (mem : member) : list Z :=
  match mem with
  | Scalar o => [o]
  | HandleAt o _ | StringAt o => [o; o + 8]%Z
  end.

(** The members of a class lie within its objects and share no cell. *)
Class ClassesOk C : Prop := {
  co_size i : (0 < i → 0 ≤ class_size C i)%Z;
  co_bounds i mem x : (0 < i)%Z → mem ∈ class_members C i → x ∈ cells mem → (0 ≤ x < class_size C i)%Z;
  co_disjoint i : (0 < i)%Z → NoDup (mjoin (cells <$> class_members C i))
}.

(** ** References *)

(** A reference is the address of its target and the type it is deleted with. *)
Definition handle_refs m (h : Z) : list (Z * Z) :=
  if (word m h =? -1)%Z then [] else [(h + word m h, word m (h + 8))%Z].

Definition member_refs m (a : Z) (mem : member) : list (Z * Z) :=
  match mem with
  | Scalar _ => []
  | HandleAt o _ => handle_refs m (a + o)
  | StringAt o => if (word m (a + o + 8) <? -1)%Z then handle_refs m (a + o) else []
  end.

Definition refs_of m (a : Z) (ms : list member) : list (Z * Z) := mjoin (member_refs m a <$> ms).

(** [objs] maps the chunk of each object to its type: the object in the chunk
    [c] is counted at [c + 4] and starts at [c + 8]. *)
Definition object_refs C m (ci : Z * Z) : list (Z * Z) := refs_of m (ci.1 + 8) (members C ci.2).
Definition heap_refs C m objs : list (Z * Z) := mjoin (object_refs C m <$> map_to_list objs).

(** How many of the references lead to [t]. *)
Definition references (rs : list (Z * Z)) (t : Z) : nat := length (filter (λ r, r.1 = t) rs).

(** Every one of the references [R] leads to an object of its type, and every
    object counts the references to it. *)
Record counted m objs (R : list (Z * Z)) : Prop := {
  g_typed t i : (t, i) ∈ R → objs !! (t - 4)%Z = Some i;
  g_count c i : objs !! c = Some i →
    word m (c + 4) = Z.of_nat (references R (c + 4)) ∧ (word m (c + 4) < u32_modulus)%Z
}.

(** The references are those in the objects and those from outside, [rs]. *)
Definition graph C m objs rs : Prop := counted m objs (heap_refs C m objs ++ rs).

(** The heap of the current block: the chunks are those of the objects and of
    objects under construction or deletion ([pend]). *)
Record heap_inv C A objs pend rs : Prop := {
  hi_block : wf_block A (dom objs ∪ pend);
  hi_disjoint : dom objs ## pend;
  hi_policy : ∃ pol, policy_in_use (myPolicies A) = Some pol ∧ pol ≠ noReferenceCountAllocator;
  hi_fits c i : objs !! c = Some i → (8 + size_of C i ≤ word (mem A) c)%Z;
  hi_chunk c : c ∈ dom objs ∪ pend → (8 ≤ word (mem A) c)%Z;
  hi_graph : graph C (mem A) objs rs
}.

(** ** References as lists up to order *)

#[export] Instance references_Proper : Proper ((≡ₚ) ==> (=) ==> (=)) references.
Proof. intros rs rs' Hp t ? <-. unfold references. by rewrite Hp. Qed.

Lemma references_app rs rs' t : references (rs ++ rs') t = references rs t + references rs' t.
Proof. unfold references. by rewrite filter_app, length_app. Qed.

Lemma references_cons r rs t :
  references (r :: rs) t = (if decide (r.1 = t) then 1 else 0) + references rs t.
Proof. unfold references. rewrite filter_cons. by case_decide. Qed.

Lemma references_zero rs t : references rs t = 0 ↔ ∀ i, (t, i) ∉ rs.
Proof.
  induction rs as [|[u j] rs IH]; [split; [intros _ i ?%elem_of_nil; done|done]|].
  rewrite references_cons. simpl. split.
  - case_decide; [lia|]. intros H0 i [?|?]%elem_of_cons; [naive_solver|]. by eapply IH.
  - intros H0. case_decide as Hd; [subst; by destruct (H0 j); constructor|].
    apply IH. intros i Hi. apply (H0 i). by constructor.
Qed.

Lemma counted_perm m objs R R' : R ≡ₚ R' → counted m objs R → counted m objs R'.
Proof.
  intros Hp [Ht Hc]. split.
  - intros t i Hti. apply Ht. by rewrite Hp.
  - intros c i Hci. rewrite <- Hp. by apply (Hc c i).
Qed.

Lemma graph_perm C m objs rs rs' : rs ≡ₚ rs' → graph C m objs rs → graph C m objs rs'.
Proof.
  intros Hp. unfold graph. apply counted_perm. by rewrite Hp.
Qed.

Lemma heap_inv_perm C A objs pend rs rs' :
  rs ≡ₚ rs' → heap_inv C A objs pend rs → heap_inv C A objs pend rs'.
Proof. intros Hp []. split; try done. by eapply graph_perm. Qed.

Lemma heap_refs_delete C m objs c i :
  objs !! c = Some i → heap_refs C m objs ≡ₚ object_refs C m (c, i) ++ heap_refs C m (delete c objs).
Proof. intros Hc. unfold heap_refs. by rewrite <- (map_to_list_delete objs c i Hc). Qed.

Lemma heap_refs_insert C m objs c i :
  objs !! c = None → heap_refs C m (<[c := i]> objs) ≡ₚ object_refs C m (c, i) ++ heap_refs C m objs.
Proof. intros Hc. unfold heap_refs. by rewrite map_to_list_insert. Qed.

(** ** Reading references *)

Section reading.
Context `{!ClassesOk C}.

Lemma members_bounds i mem x :
  mem ∈ members C i → x ∈ cells mem → (0 ≤ x < size_of C i)%Z.
Proof.
  unfold members, size_of, HANDLE_SIZE.
  destruct (Z.eqb_spec i String_TYPEID); [|destruct (Z.eqb_spec i Handle_TYPEID)].
  - intros ->%list_elem_of_singleton. simpl. rewrite !elem_of_cons, elem_of_nil. lia.
  - intros ->%list_elem_of_singleton. simpl. rewrite !elem_of_cons, elem_of_nil. lia.
  - destruct (Z.ltb_spec 0 i); [by apply co_bounds|]. by intros ?%elem_of_nil.
Qed.

Lemma members_disjoint i : NoDup (mjoin (cells <$> members C i)).
Proof.
  unfold members. destruct (i =? String_TYPEID)%Z; [|destruct (i =? Handle_TYPEID)%Z].
  - simpl. repeat constructor; rewrite ?elem_of_cons, ?elem_of_nil; lia.
  - simpl. repeat constructor; rewrite ?elem_of_cons, ?elem_of_nil; lia.
  - destruct (Z.ltb_spec 0 i); [by apply co_disjoint|constructor].
Qed.

Lemma size_of_nonneg i : (0 ≤ size_of C i)%Z.
Proof.
  unfold size_of, HANDLE_SIZE. destruct (_ =? _)%Z; [lia|]. destruct (_ =? _)%Z; [lia|].
  destruct (Z.ltb_spec 0 i); [by apply co_size|lia].
Qed.

Lemma member_refs_ext m m' a mem :
  (∀ x, x ∈ cells mem → word m' (a + x) = word m (a + x)) → member_refs m' a mem = member_refs m a mem.
Proof.
  intros Hw. destruct mem as [o|o st|o]; simpl in *; [done|..]; unfold handle_refs;
    rewrite <- !(Z.add_assoc a o 8), !Hw by (repeat constructor); done.
Qed.

Lemma refs_of_ext m m' a ms :
  (∀ mem x, mem ∈ ms → x ∈ cells mem → word m' (a + x) = word m (a + x)) →
  refs_of m' a ms = refs_of m a ms.
Proof.
  intros Hw. unfold refs_of. f_equal. apply list_fmap_ext. intros k mem Hk.
  apply member_refs_ext. intros x Hx. eapply Hw; [|done]. by eapply list_elem_of_lookup_2.
Qed.

Lemma heap_refs_ext m m' objs :
  (∀ c i x, objs !! c = Some i → (0 ≤ x < size_of C i)%Z → word m' (c + 8 + x) = word m (c + 8 + x)) →
  heap_refs C m' objs = heap_refs C m objs.
Proof.
  intros Hw. unfold heap_refs. f_equal. apply list_fmap_ext. intros k [c i] Hk.
  apply refs_of_ext. simpl. intros mem x Hm Hx. apply (Hw c i).
  - apply elem_of_map_to_list. by eapply list_elem_of_lookup_2.
  - by eapply members_bounds.
Qed.

Lemma graph_ext m m' objs rs :
  (∀ c i x, objs !! c = Some i → (0 ≤ x < size_of C i)%Z → word m' (c + 8 + x) = word m (c + 8 + x)) →
  (∀ c, c ∈ dom objs → word m' (c + 4) = word m (c + 4)) →
  graph C m objs rs → graph C m' objs rs.
Proof.
  intros Hw Hn [Ht Hc]. unfold graph. rewrite (heap_refs_ext m m' objs Hw). split; [done|].
  intros c i Hci. rewrite Hn; [by eapply Hc|]. by apply elem_of_dom.
Qed.
End reading.

(** ** Where things are *)

Section heap.
Context `{!ClassesOk C}.

Section places.
Context {A objs pend rs} (Hinv : heap_inv C A objs pend rs).

#[local] Abbreviation base := (activeRAM (myState A)).

Lemma chunk_bounds c :
  c ∈ dom objs ∪ pend →
  (0 < base ∧ base + 20 ≤ c ∧ c + word (mem A) c ≤ base + numBytes (myState A) ∧ 8 ≤ word (mem A) c)%Z.
Proof.
  intros Hc. pose proof (hi_block _ _ _ _ _ Hinv) as Hwf.
  pose proof (block_chunk A _ Hwf c (or_intror Hc)). pose proof (wb_used _ _ Hwf).
  pose proof (wb_active _ _ Hwf). pose proof (hi_chunk _ _ _ _ _ Hinv c Hc). lia.
Qed.

Lemma chunk_unique c d p :
  c ∈ dom objs ∪ pend → d ∈ dom objs ∪ pend →
  (c ≤ p < c + word (mem A) c)%Z → (d ≤ p < d + word (mem A) d)%Z → c = d.
Proof.
  intros Hc Hd Hpc Hpd. destruct (decide (c = d)) as [|Hne]; [done|].
  pose proof (block_disjoint A _ (hi_block _ _ _ _ _ Hinv) c d (or_intror Hc) (or_intror Hd) Hne). lia.
Qed.

Lemma object_live c i : objs !! c = Some i → c ∈ dom objs ∪ pend.
Proof. intros Hc. apply elem_of_union_l, elem_of_dom. by eexists. Qed.

(** A cell of an object is in its chunk, behind the count. *)
Lemma cell_place c i x :
  objs !! c = Some i → (0 ≤ x < size_of C i)%Z → (c + 8 ≤ c + 8 + x < c + word (mem A) c)%Z.
Proof. intros Hc Hx. pose proof (hi_fits _ _ _ _ _ Hinv c i Hc). lia. Qed.

Lemma cell_not_count c i x d :
  objs !! c = Some i → (0 ≤ x < size_of C i)%Z → d ∈ dom objs ∪ pend → (c + 8 + x ≠ d + 4)%Z.
Proof.
  intros Hc Hx Hd He. pose proof (cell_place c i x Hc Hx). pose proof (chunk_bounds d Hd).
  assert (c = d); [|lia]. apply (chunk_unique c d (d + 4)); [by eapply object_live|done|lia|lia].
Qed.

Lemma count_not_chunk c d : c ∈ dom objs ∪ pend → d ∈ dom objs ∪ pend → (c + 4 ≠ d)%Z.
Proof.
  intros Hc Hd He. pose proof (chunk_bounds c Hc). pose proof (chunk_bounds d Hd).
  assert (c = d); [|lia]. apply (chunk_unique c d d); [done|done|lia|lia].
Qed.

Lemma object_contained c : c ∈ dom objs ∪ pend → contains A (c + 4) = true.
Proof.
  intros Hc. pose proof (chunk_bounds c Hc). unfold contains.
  rewrite (proj2 (Z.leb_le _ _)), (proj2 (Z.ltb_lt _ _)) by lia. done.
Qed.

Lemma object_managed c : c ∈ dom objs ∪ pend → isManaged A (c + 4) = true.
Proof. intros Hc. unfold isManaged. by rewrite object_contained. Qed.

Lemma root_object t i : (t, i) ∈ rs → objs !! (t - 4)%Z = Some i.
Proof. intros Hr. apply (g_typed _ _ _ (hi_graph _ _ _ _ _ Hinv)). apply elem_of_app. by right. Qed.
End places.

(** ** Changing one count *)

Lemma heap_inv_count A objs pend rs rs' c i v :
  heap_inv C A objs pend rs → objs !! c = Some i →
  (∀ t j, (t, j) ∈ rs' → objs !! (t - 4)%Z = Some j) →
  (∀ t, t ≠ (c + 4)%Z → references rs' t = references rs t) →
  v = Z.of_nat (references (heap_refs C (mem A) objs ++ rs') (c + 4)) → (v < u32_modulus)%Z →
  heap_inv C (set_mem A (<[(c + 4)%Z := v]> (mem A))) objs pend rs'.
Proof.
  intros Hinv Hc Htyped Hsame -> Hv. pose proof (object_live (pend:=pend) c i Hc) as Hlive.
  pose proof (chunk_bounds Hinv c Hlive) as Hb.
  assert (∀ d, d ∈ dom objs ∪ pend → word (<[(c + 4)%Z := Z.of_nat (references (heap_refs C (mem A) objs ++ rs') (c + 4))]> (mem A)) d = word (mem A) d) as Hch.
  { intros d Hd. apply word_insert_ne. by apply (count_not_chunk Hinv). }
  assert (heap_refs C (<[(c + 4)%Z := Z.of_nat (references (heap_refs C (mem A) objs ++ rs') (c + 4))]> (mem A)) objs =
    heap_refs C (mem A) objs) as Hrefs.
  { apply heap_refs_ext. intros d j x Hd Hx. apply word_insert_ne. intros He. symmetry in He.
    by eapply (cell_not_count Hinv). }
  destruct Hinv as [Hwf Hdis Hpol Hfits Hchk [Ht Hn]]. split; try done.
  - apply wf_block_payload; [done|]. intros p Hp. rewrite word_insert in Hp. case_decide; [|done]. subst p.
    left. exists c. split; [done|]. lia.
  - intros d j Hd. simpl. rewrite Hch; [by apply Hfits|]. by eapply object_live.
  - intros d Hd. simpl. rewrite Hch by done. by apply Hchk.
  - simpl. unfold graph. rewrite Hrefs. split.
    + intros t j [Htj|Htj]%elem_of_app; [|by apply Htyped]. apply Ht. apply elem_of_app. by left.
    + intros d j Hd. rewrite word_insert. destruct (decide (c + 4 = d + 4)%Z) as [He|He].
      * assert (c = d) as -> by lia. done.
      * rewrite references_app, Hsame by done. rewrite <- references_app. by eapply Hn.
Qed.

(** ** Dropping references *)

(** Deleting objects of [A], with objects [objs], leaves [A'] with [objs'] and
    the references [rs] from outside.  Only counts of objects and the count of
    the block change, no object is left without reference that had one. *)
Record dropped A objs pend rs A' objs' : Prop := {
  dr_objs : objs' ⊆ objs;
  dr_inv : heap_inv C A' objs' pend rs;
  dr_frame : block_frame A A';
  dr_words p : p ≠ ref_addr (activeRAM (myState A)) → (∀ c, c ∈ dom objs → p ≠ (c + 4)%Z) →
    word (mem A') p = word (mem A) p;
  dr_zero c : c ∈ dom objs' → word (mem A') (c + 4) = 0%Z → word (mem A) (c + 4) = 0%Z
}.

Lemma dropped_refl A objs pend rs : heap_inv C A objs pend rs → dropped A objs pend rs A objs.
Proof. intros. split; try done. apply block_frame_refl. Qed.

Lemma frame_base A A' : block_frame A A' → activeRAM (myState A') = activeRAM (myState A).
Proof. intros Hf. by rewrite (bf_state _ _ Hf). Qed.

Lemma dropped_trans A objs pend rs A1 objs1 rs1 A' objs' :
  dropped A objs pend rs1 A1 objs1 → dropped A1 objs1 pend rs A' objs' → dropped A objs pend rs A' objs'.
Proof.
  intros [O1 I1 F1 W1 Z1] [O2 I2 F2 W2 Z2]. split.
  - by etrans.
  - done.
  - by eapply block_frame_trans.
  - intros p Hp Hc. rewrite W2; [by apply W1|by rewrite (frame_base _ _ F1)|].
    intros c Hc1. apply Hc. by eapply (subseteq_dom objs1 objs).
  - intros c Hc Hz. apply Z1; [by eapply (subseteq_dom objs' objs1)|]. by apply Z2.
Qed.

(** The cells from which the references of [ms] at [a] are read survive the
    deletions of [objs]. *)
Definition stable A objs (a : Z) (ms : list member) : Prop :=
  ∀ mem x, mem ∈ ms → x ∈ cells mem →
    (a + x ≠ ref_addr (activeRAM (myState A)))%Z ∧ ∀ c, c ∈ dom objs → (a + x ≠ c + 4)%Z.

(** What [decRefCount] does with fuel for [n] objects. *)
Definition dec_ok (n : nat) (dec : Z → Z → M Allocator unit) : Prop :=
  ∀ A objs pend rs t i, size objs ≤ n → heap_inv C A objs pend ((t, i) :: rs) →
    ∃ A' objs', dec t i A = (Ret tt, A') ∧ dropped A objs pend rs A' objs'.

Lemma Handle_destroy_ok n dec A objs pend rs h :
  dec_ok n dec → size objs ≤ n → heap_inv C A objs pend (handle_refs (mem A) h ++ rs) →
  ∃ A' objs', Handle_destroy dec h A = (Ret tt, A') ∧ dropped A objs pend rs A' objs'.
Proof.
  intros Hdec Hn Hinv. unfold Handle_destroy, isNullPtr, handle_offset, handle_refs in *.
  destruct (word (mem A) h =? -1)%Z; simpl in *.
  - exists A, objs. split; [done|]. by apply dropped_refl.
  - assert (isManaged A (getTarget A h) = true) as ->.
    { pose proof (root_object Hinv _ _ (list_elem_of_here _ _)) as Ho.
      pose proof (object_managed Hinv _ (object_live _ _ Ho)) as Hm.
      by rewrite Z.sub_add in Hm. }
    by eapply Hdec.
Qed.

Lemma destroy_member_ok n dec A objs pend rs a mem :
  dec_ok n dec → size objs ≤ n → heap_inv C A objs pend (member_refs (Allocator.mem A) a mem ++ rs) →
  ∃ A' objs', destroy_member dec a mem A = (Ret tt, A') ∧ dropped A objs pend rs A' objs'.
Proof.
  intros Hdec Hn Hinv. destruct mem as [o|o st|o]; simpl in *.
  - exists A, objs. split; [done|]. by apply dropped_refl.
  - by eapply Handle_destroy_ok.
  - unfold String_destroy, typeInfo. destruct (_ <? -1)%Z.
    + by eapply Handle_destroy_ok.
    + exists A, objs. split; [done|]. by apply dropped_refl.
Qed.

Lemma destroy_each_ok n dec ms A objs pend rs a :
  dec_ok n dec → size objs ≤ n → stable A objs a ms →
  heap_inv C A objs pend (refs_of (mem A) a ms ++ rs) →
  ∃ A' objs', each (destroy_member dec a) ms A = (Ret tt, A') ∧ dropped A objs pend rs A' objs'.
Proof.
  intros Hdec. revert A objs. induction ms as [|mem ms IH]; intros A objs Hn Hst Hinv.
  - exists A, objs. split; [done|]. by apply dropped_refl.
  - unfold refs_of in Hinv. simpl in Hinv. rewrite <- app_assoc in Hinv.
    destruct (destroy_member_ok n dec A objs pend _ a mem Hdec Hn Hinv) as (A1 & objs1 & He & Hd).
    pose proof (dr_frame _ _ _ _ _ _ Hd) as Hf.
    assert (refs_of (Allocator.mem A1) a ms = refs_of (Allocator.mem A) a ms) as Hrefs.
    { apply refs_of_ext. intros mem' x Hm Hx. destruct (Hst mem' x) as [H1 H2]; [by constructor|done|].
      by apply (dr_words _ _ _ _ _ _ Hd). }
    destruct (IH A1 objs1) as (A' & objs' & He' & Hd').
    + etrans; [|exact Hn]. apply map_subseteq_size. by apply (dr_objs _ _ _ _ _ _ Hd).
    + intros mem' x Hm Hx. rewrite (frame_base _ _ Hf). destruct (Hst mem' x) as [H1 H2]; [by constructor|done|].
      split; [done|]. intros c Hc. apply H2. by eapply (subseteq_dom objs1 objs), Hc; apply (dr_objs _ _ _ _ _ _ Hd).
    + rewrite Hrefs. apply (dr_inv _ _ _ _ _ _ Hd).
    + exists A', objs'. split; [|by eapply dropped_trans]. simpl. run. by rewrite He.
Qed.

(** Freeing the chunk of an object under deletion. *)
Lemma free_pending A objs pend rs c :
  heap_inv C A objs ({[c]} ∪ pend) rs → c ∉ pend →
  ∃ A', freeRAM (c + 4) A = (Ret tt, A') ∧ heap_inv C A' objs pend rs ∧ block_frame A A' ∧
    ∀ p, p ≠ ref_addr (activeRAM (myState A)) → word (mem A') p = word (mem A) p.
Proof.
  intros Hinv Hcp. assert (c ∈ dom objs ∪ ({[c]} ∪ pend)) as Hc by set_solver.
  destruct (hi_policy _ _ _ _ _ Hinv) as (pol & Hpol & Hnr).
  pose proof (hi_block _ _ _ _ _ Hinv) as Hwf. unfold freeRAM.
  rewrite (list_freeRAM_policy _ pol), (object_contained Hinv c Hc) by done.
  assert (policy_freeRAM pol true (c + 4) = defaultFreeRAM true (c + 4)) as -> by by destruct pol.
  rewrite (defaultFreeRAM_block A _ (c + 4) Hwf) by by rewrite Z.add_simpl_r.
  rewrite Z.add_simpl_r. eexists. split; [done|].
  destruct (freed_wf A _ c Hwf Hc) as (Hwf' & Hfr & Hch).
  assert (∀ p, p ≠ ref_addr (activeRAM (myState A)) →
    word (<[ref_addr (activeRAM (myState A)) := u32 (ALLOCATOR_REF_COUNT A - 1)]> (mem A)) p = word (mem A) p) as Hw.
  { intros p Hp. by apply word_insert_ne. }
  split_and!; [|exact Hfr|exact Hw].
  assert (∀ d x, d ∈ dom objs ∪ ({[c]} ∪ pend) → (0 ≤ x)%Z → (d + x ≠ ref_addr (activeRAM (myState A)))%Z) as Hne.
  { intros d x Hd Hx. pose proof (chunk_bounds Hinv d Hd). unfold ref_addr. lia. }
  destruct Hinv as [_ Hdis _ Hfits Hchk Hg]. split.
  - replace (dom objs ∪ pend) with ((dom objs ∪ ({[c]} ∪ pend)) ∖ {[c]}); [exact Hwf'|].
    apply set_eq. intros d. destruct (decide (d = c)) as [->|]; set_solver.
  - set_solver.
  - exists pol. split; [|done]. by rewrite (bf_policies _ _ Hfr).
  - intros d j Hd. simpl. rewrite Hch; [by apply Hfits|]. apply elem_of_union_l, elem_of_dom. by eexists.
  - intros d Hd. simpl. rewrite Hch by set_solver. apply Hchk. set_solver.
  - eapply graph_ext; [| |exact Hg]; simpl.
    + intros d j x Hd Hx. apply Hw. rewrite <- Z.add_assoc. apply Hne; [|lia].
      apply elem_of_union_l, elem_of_dom. by eexists.
    + intros d Hd. apply Hw. apply Hne; [set_solver|lia].
Qed.

(** An object without references becomes one under deletion; its references
    are held by its destructor. *)
Lemma heap_inv_retire A objs pend rs c i :
  heap_inv C A objs pend rs → objs !! c = Some i → word (mem A) (c + 4) = 0%Z →
  heap_inv C A (delete c objs) ({[c]} ∪ pend) (object_refs C (mem A) (c, i) ++ rs).
Proof.
  intros Hinv Hc Hz. destruct Hinv as [Hwf Hdis Hpol Hfits Hchk [Ht Hn]].
  assert (c ∈ dom objs) as Hcd by (apply elem_of_dom; by eexists).
  assert (dom (delete c objs) ∪ ({[c]} ∪ pend) = dom objs ∪ pend) as Hdom.
  { rewrite dom_delete_L. apply set_eq. intros d. destruct (decide (d = c)) as [->|]; set_solver. }
  assert (heap_refs C (mem A) (delete c objs) ++ object_refs C (mem A) (c, i) ++ rs ≡ₚ
    heap_refs C (mem A) objs ++ rs) as Hp.
  { rewrite (heap_refs_delete C (mem A) objs c i Hc), <- app_assoc. rewrite !app_assoc.
    by rewrite (Permutation_app_comm (heap_refs _ _ _)). }
  split; rewrite ?Hdom; try done.
  - rewrite dom_delete_L. set_solver.
  - intros d j [_ Hd]%lookup_delete_Some. by apply Hfits.
  - split.
    + intros t j Htj. rewrite Hp in Htj. pose proof (Ht t j Htj) as Ho.
      apply lookup_delete_Some. split; [|done]. intros ->.
      destruct (Hn _ _ Hc) as [Hcount _]. rewrite Hz in Hcount.
      assert (references (heap_refs C (mem A) objs ++ rs) (t - 4 + 4) = 0) as H0 by lia.
      rewrite Z.sub_add in H0. by apply (proj1 (references_zero _ _) H0 j).
    + intros d j [_ Hd]%lookup_delete_Some. rewrite Hp. by apply (Hn d j).
Qed.

Lemma stable_object A objs pend rs c i :
  heap_inv C A objs pend rs → c ∈ pend → (8 + size_of C i ≤ word (mem A) c)%Z →
  stable A objs (c + 8) (members C i).
Proof.
  intros Hinv Hc Hfit mem x Hm Hx. pose proof (members_bounds i mem x Hm Hx) as Hb.
  assert (c ∈ dom objs ∪ pend) as Hlive by set_solver. pose proof (chunk_bounds Hinv c Hlive).
  split; [unfold ref_addr; lia|]. intros d Hd He. pose proof (chunk_bounds Hinv d ltac:(set_solver)).
  assert (c = d) as ->; [|by apply (hi_disjoint _ _ _ _ _ Hinv d)].
  apply (chunk_unique Hinv c d (d + 4)); [done|set_solver|lia|lia].
Qed.

Lemma stable_reverse A objs a ms : stable A objs a ms → stable A objs a (reverse ms).
Proof. intros Hs mem x Hm. apply Hs. by apply elem_of_reverse. Qed.

Lemma refs_of_reverse m a ms : refs_of m a (reverse ms) ≡ₚ refs_of m a ms.
Proof. unfold refs_of. by rewrite reverse_Permutation. Qed.

(** The count after losing one reference. *)
Lemma heap_inv_dec A objs pend rs t i :
  heap_inv C A objs pend ((t, i) :: rs) →
  let v := u32 (NUM_COPIES A t - 1) in
  objs !! (t - 4)%Z = Some i ∧ (v = NUM_COPIES A t - 1)%Z ∧ (0 < NUM_COPIES A t)%Z ∧
  heap_inv C (set_mem A (<[t := v]> (mem A))) objs pend rs.
Proof.
  intros Hinv v. pose proof (root_object Hinv _ _ (list_elem_of_here _ _)) as Hc.
  destruct (g_count _ _ _ (hi_graph _ _ _ _ _ Hinv) _ _ Hc) as [Hn Hm]. rewrite Z.sub_add in Hn, Hm.
  rewrite references_app, references_cons in Hn. simpl in Hn. rewrite decide_True in Hn by done.
  unfold NUM_COPIES in *. assert (v = word (mem A) t - 1)%Z as Hv by (unfold v, NUM_COPIES; apply u32_small; lia).
  split_and!; [done|done|lia|].
  pose proof (heap_inv_count A objs pend ((t, i) :: rs) rs (t - 4) i v Hinv Hc) as Hk.
  rewrite Z.sub_add in Hk. apply Hk; clear Hk.
  - intros u j Hu. apply (root_object Hinv). by constructor.
  - intros u Hu. rewrite references_cons. simpl. by rewrite decide_False by done.
  - rewrite references_app. lia.
  - lia.
Qed.

Lemma dropped_count A objs pend rs c i v :
  objs !! c = Some i → v ≠ 0%Z → c ∈ dom objs ∪ pend →
  (activeRAM (myState A) ≤ c + 4 < activeRAM (myState A) + numBytes (myState A))%Z →
  heap_inv C (set_mem A (<[(c + 4)%Z := v]> (mem A))) objs pend rs →
  dropped A objs pend rs (set_mem A (<[(c + 4)%Z := v]> (mem A))) objs.
Proof.
  intros Hc Hv Hl Hb Hinv. split; try done.
  - split; try done; [by destruct A as [? []]|]. intros p Hp. simpl. rewrite word_insert_ne; [done|lia].
  - intros p _ Hp. simpl. apply word_insert_ne. intros <-. apply (Hp c); [apply elem_of_dom; by eexists|done].
  - intros d Hd. simpl. rewrite word_insert. case_decide; [done|done].
Qed.

(** A count drops to zero, the references of the object are dropped, its
    chunk is freed. *)
Lemma dropped_delete A objs pend rs c v A2 objs2 A3 :
  c ∈ dom objs →
  (activeRAM (myState A) ≤ c + 4 < activeRAM (myState A) + numBytes (myState A))%Z →
  dropped (set_mem A (<[(c + 4)%Z := v]> (mem A))) (delete c objs) ({[c]} ∪ pend) rs A2 objs2 →
  heap_inv C A3 objs2 pend rs → block_frame A2 A3 →
  (∀ p, p ≠ ref_addr (activeRAM (myState A2)) → word (mem A3) p = word (mem A2) p) →
  dropped A objs pend rs A3 objs2.
Proof.
  intros Hc Hb [O2 I2 F2 W2 Z2] Hinv3 Hfr3 Hw3.
  assert (delete c objs ⊆ objs) as Hsub by apply delete_subseteq.
  split.
  - by etrans.
  - done.
  - eapply block_frame_trans; [|exact (block_frame_trans _ _ _ F2 Hfr3)].
    split; try done; [by destruct A as [? []]|]. intros p Hp. simpl. rewrite word_insert_ne; [done|lia].
  - intros p Hp Hcs. rewrite Hw3, W2.
    + simpl. apply word_insert_ne. intros He. symmetry in He. by apply (Hcs c).
    + done.
    + intros d Hd. apply Hcs. by eapply (subseteq_dom (delete c objs) objs).
    + by rewrite (frame_base _ _ F2).
  - intros d Hd. assert (d ∈ dom (delete c objs)) as Hd1 by by eapply (subseteq_dom objs2).
    pose proof (chunk_bounds I2 d ltac:(set_solver)) as Hdb.
    rewrite Hw3 by (unfold ref_addr; lia). intros Hz'. specialize (Z2 d Hd Hz').
    simpl in Z2. rewrite word_insert_ne in Z2; [done|].
    intros He. assert (d = c) as -> by lia. rewrite dom_delete_L in Hd1. set_solver.
Qed.

(** With fuel for the objects there are, [decRefCount] succeeds and keeps the
    invariant. *)
Lemma decRefCount_ok n : dec_ok n (decRefCount C n).
Proof.
  induction n as [|n IH]; intros A objs pend rs t i Hsz Hinv;
    destruct (heap_inv_dec A objs pend rs t i Hinv) as (Hc & Hv & Hpos & Hinv1).
  { assert (objs = ∅) as -> by (apply map_size_empty_inv; lia). by rewrite lookup_empty in Hc. }
  pose proof (object_live (pend := pend) _ _ Hc) as Hlive. pose proof (chunk_bounds Hinv _ Hlive) as Hb.
  pose proof (object_managed Hinv _ Hlive) as Hman. rewrite Z.sub_add in Hman.
  cbn [decRefCount]. rewrite Hman. unfold store. run. rewrite Hv in *. unfold NUM_COPIES at 1.
  cbn [mem set_mem]. rewrite word_insert_eq.
  assert (t = t - 4 + 4)%Z as Ht by lia. set (c := (t - 4)%Z) in *.
  destruct (Z.eqb_spec (NUM_COPIES A t - 1) 0) as [Hz|Hz].
  2:{ eexists _, objs. split; [done|]. rewrite Ht in Hz, Hinv1 |- *. eapply dropped_count; try done. lia. }
  set (A1 := set_mem A _) in *.
  assert (word (mem A1) (c + 4) = 0%Z) as Hz1 by (unfold A1; simpl; rewrite <- Ht, word_insert_eq; lia).
  pose proof (heap_inv_retire A1 objs pend rs c i Hinv1 Hc Hz1) as Hinv2.
  assert (c ∉ pend) as Hcp by (intros Hcp; apply (hi_disjoint _ _ _ _ _ Hinv c); [apply elem_of_dom; by eexists|done]).
  unfold deleteConstituentObject, getObject, REF_COUNT_PREAMBLE_SIZE.
  replace (t + 4)%Z with (c + 8)%Z by lia.
  destruct (destroy_each_ok n (decRefCount C n) (reverse (members C i)) A1 (delete c objs) ({[c]} ∪ pend) rs (c + 8))
    as (A2 & objs2 & He & Hd); [done| | | |].
  - rewrite map_size_delete_Some by (by eexists). lia.
  - apply stable_reverse. eapply stable_object; [exact Hinv2|set_solver|].
    by apply (hi_fits _ _ _ _ _ Hinv1).
  - eapply heap_inv_perm; [|exact Hinv2]. by rewrite refs_of_reverse.
  - rewrite M_bind_unfold, He. destruct (free_pending A2 objs2 pend rs c (dr_inv _ _ _ _ _ _ Hd) Hcp)
      as (A3 & Hfree & Hinv3 & Hfr3 & Hw3). rewrite <- Ht in Hfree. rewrite Hfree.
    exists A3, objs2. split; [done|]. unfold A1 in Hd. rewrite Ht in Hd.
    eapply (dropped_delete A objs pend rs c); [|lia|exact Hd|done..]. apply elem_of_dom. by eexists.
Qed.

(** ** Reachability *)

(** The counted objects that the references [rs] lead to, directly or through
    other objects. *)
Inductive reachable m objs rs : Z → Prop :=
| reach_root t i : (t, i) ∈ rs → reachable m objs rs t
| reach_step t i t' i' :
    reachable m objs rs t → objs !! (t - 4)%Z = Some i → (t', i') ∈ object_refs C m (t - 4, i)%Z →
    reachable m objs rs t'.

Lemma object_refs_heap m objs c i r :
  objs !! c = Some i → r ∈ object_refs C m (c, i) → r ∈ heap_refs C m objs.
Proof. intros Hc Hr. rewrite (heap_refs_delete C m objs c i Hc). apply elem_of_app. by left. Qed.

Lemma object_refs_dropped A objs pend rs rs0 A' objs' c i :
  heap_inv C A objs pend rs0 → dropped A objs pend rs A' objs' → objs !! c = Some i →
  object_refs C (mem A') (c, i) = object_refs C (mem A) (c, i).
Proof.
  intros Hinv Hd Hc. apply refs_of_ext. simpl. intros mem0 x Hm Hx.
  pose proof (members_bounds i mem0 x Hm Hx) as Hb. pose proof (object_live (pend := pend) c i Hc) as Hl.
  apply (dr_words _ _ _ _ _ _ Hd).
  - pose proof (chunk_bounds Hinv c Hl). unfold ref_addr. lia.
  - intros d Hdd. apply (cell_not_count Hinv c i x d Hc Hb). set_solver.
Qed.

Lemma reachable_kept A objs rs rs0 A' objs' t :
  heap_inv C A objs ∅ rs0 → dropped A objs ∅ rs A' objs' → reachable (mem A) objs rs t →
  ∃ i, objs' !! (t - 4)%Z = Some i.
Proof.
  intros Hinv Hd. induction 1 as [t i Hr|t i t' i' _ [j Hj] Hi Hr].
  - exists i. by apply (root_object (dr_inv _ _ _ _ _ _ Hd)).
  - exists i'. pose proof (lookup_weaken _ _ _ _ Hj (dr_objs _ _ _ _ _ _ Hd)) as Hj'. simplify_eq.
    apply (g_typed _ _ _ (hi_graph _ _ _ _ _ (dr_inv _ _ _ _ _ _ Hd))). apply elem_of_app. left.
    eapply object_refs_heap; [exact Hj|]. by erewrite object_refs_dropped.
Qed.
End heap.

(** ** Properties *)

(** [C12] Dropping a reference deletes the right objects: with fuel for the
    objects of the block, [decRefCount] returns, keeps the heap consistent
    (every reference leads to an object of its type, every count is the number
    of references, the chunks of deleted objects are free), keeps every object
    that the remaining references reach, with its contents, and leaves no
    object without reference if there was none. *)
Theorem decRefCount_reclaims C `{!ClassesOk C} (n : nat) (A : Allocator) (objs : gmap Z Z) (rs : list (Z * Z))
    (t i : Z) :
  size objs ≤ n → heap_inv C A objs ∅ ((t, i) :: rs) →
  (∀ c, c ∈ dom objs → word (mem A) (c + 4) ≠ 0%Z) →
  ∃ A' objs', decRefCount C n t i A = (Ret tt, A') ∧ heap_inv C A' objs' ∅ rs ∧ objs' ⊆ objs ∧
    (∀ u, reachable (C:=C) (mem A) objs rs u → (u - 4)%Z ∈ dom objs') ∧
    (∀ c, c ∈ dom objs' → ∃ j, (c + 4, j)%Z ∈ heap_refs C (mem A') objs' ++ rs) ∧
    (∀ c j x, objs' !! c = Some j → (0 ≤ x < size_of C j)%Z →
      word (mem A') (c + 8 + x) = word (mem A) (c + 8 + x)).
Proof.
  intros Hn Hinv Hng. destruct (decRefCount_ok n A objs ∅ rs t i Hn Hinv) as (A' & objs' & He & Hd).
  pose proof (dr_inv _ _ _ _ _ _ Hd) as Hinv'.
  exists A', objs'. split_and!; [done|done|apply (dr_objs _ _ _ _ _ _ Hd)| | |].
  - intros u Hu. destruct (reachable_kept A objs rs _ A' objs' u Hinv Hd Hu) as [j Hj].
    apply elem_of_dom. by eexists.
  - intros c Hc. pose proof Hc as [j Hj]%elem_of_dom. destruct (g_count _ _ _ (hi_graph _ _ _ _ _ Hinv') c j Hj) as [Hk _].
    destruct (decide (references (heap_refs C (mem A') objs' ++ rs) (c + 4) = 0)) as [Hz|Hz].
    + exfalso. apply (Hng c); [by eapply (subseteq_dom objs'), Hc; apply (dr_objs _ _ _ _ _ _ Hd)|].
      apply (dr_zero _ _ _ _ _ _ Hd); [done|]. lia.
    + unfold references in Hz. destruct (filter _ _) as [|[u k] l] eqn:Hf; [done|].
      assert ((u, k) ∈ filter (λ r : Z * Z, r.1 = c + 4)%Z (heap_refs C (mem A') objs' ++ rs)) as Hin
        by (rewrite Hf; constructor).
      apply list_elem_of_filter in Hin as [Hu Hin]. simpl in Hu. subst u. by exists k.
  - intros c j x Hj Hx. pose proof (lookup_weaken _ _ _ _ Hj (dr_objs _ _ _ _ _ _ Hd)) as Hj'.
    apply (dr_words _ _ _ _ _ _ Hd).
    + pose proof (chunk_bounds Hinv c (object_live c j Hj')). unfold ref_addr. lia.
    + intros d Hdd. apply (cell_not_count Hinv c j x d Hj' Hx). set_solver.
Qed.
