(* ===== verification/HandleCopy.v ===== *)
(** * HandleCopy: assignment of handles and deep copies

    What the assignment operators of [objectModel/headers/Handle.cc] do to the
    heap: sharing and releasing objects within the current block, and the deep
    copy into it of objects that lie elsewhere ([PDBTemplateBase.cc],
    [DeepCopy.h], [PDBString.cc]). *)

From S2P Require Import Prelude Allocator Handle HandleHeap.

Implicit Types (A : Allocator) (m : gmap Z Z) (C : Classes) (objs news : gmap Z Z) (pend : gset Z)
  (rs R : list (Z * Z)).

(** ** Parts of a heap *)

Lemma app_swap_ends {B} (l k x : list B) : l ++ x ++ k ≡ₚ k ++ x ++ l.
Proof.
  rewrite (Permutation_app_comm x k), (Permutation_app_comm x l), !app_assoc.
  by rewrite (Permutation_app_comm l k).
Qed.

Lemma counted_ext m m' objs R :
  (∀ c, c ∈ dom objs → word m' (c + 4) = word m (c + 4)) → counted m objs R → counted m' objs R.
Proof.
  intros Hw [Ht Hc]. split; [done|]. intros c i Hci. rewrite Hw; [by eapply Hc|].
  apply elem_of_dom. by eexists.
Qed.

Lemma references_elsewhere m objs R c : counted m objs R → objs !! c = None → references R (c + 4) = 0.
Proof.
  intros [Ht _] Hc. apply references_zero. intros i Hi. specialize (Ht _ _ Hi).
  rewrite Z.add_simpl_r in Ht. congruence.
Qed.

(** Two heaps without references between them. *)
Lemma counted_union m objs1 objs2 R1 R2 :
  objs1 ##ₘ objs2 → counted m objs1 R1 → counted m objs2 R2 → counted m (objs1 ∪ objs2) (R1 ++ R2).
Proof.
  intros Hd H1 H2. split.
  - intros t i [Hr|Hr]%elem_of_app.
    + by apply lookup_union_Some_l, (g_typed _ _ _ H1).
    + by apply lookup_union_Some_r, (g_typed _ _ _ H2).
  - intros c i [Hc|[Hn Hc]]%lookup_union_Some_raw.
    + rewrite references_app, (references_elsewhere m objs2 R2 c H2).
      * rewrite Nat.add_0_r. by eapply g_count.
      * by eapply map_disjoint_Some_r; [exact (map_disjoint_sym _ _ Hd)|].
    + rewrite references_app, (references_elsewhere m objs1 R1 c H1) by done. by eapply g_count.
Qed.

Lemma map_to_list_disjoint_union objs1 objs2 :
  objs1 ##ₘ objs2 → map_to_list (objs1 ∪ objs2) ≡ₚ map_to_list objs1 ++ map_to_list objs2.
Proof.
  induction objs1 as [|c i objs1 Hc IH] using map_ind; intros Hd.
  - by rewrite map_empty_union, map_to_list_empty.
  - apply map_disjoint_insert_l in Hd as [Hc2 Hd].
    rewrite <- insert_union_l, !map_to_list_insert; [by rewrite IH|done|].
    by apply lookup_union_None.
Qed.

Lemma heap_refs_union C m objs1 objs2 :
  objs1 ##ₘ objs2 → heap_refs C m (objs1 ∪ objs2) ≡ₚ heap_refs C m objs1 ++ heap_refs C m objs2.
Proof.
  intros Hd. unfold heap_refs. rewrite map_to_list_disjoint_union by done. rewrite fmap_app. by rewrite join_app.
Qed.

Section heap.
Context `{!ClassesOk C}.

(** ** Rewriting one member *)

Lemma members_split i mem0 :
  mem0 ∈ members C i → ∃ ms1 ms2, members C i = ms1 ++ mem0 :: ms2 ∧
    ∀ mem x, mem ∈ ms1 ++ ms2 → x ∈ cells mem → x ∉ cells mem0.
Proof.
  intros Hm. apply list_elem_of_split in Hm as (ms1 & ms2 & Hsp). exists ms1, ms2. split; [done|].
  pose proof (members_disjoint i) as Hnd. rewrite Hsp, fmap_app, fmap_cons, join_app in Hnd. simpl in Hnd.
  rewrite (Permutation_app_comm (mjoin _)), <- app_assoc in Hnd.
  apply NoDup_app in Hnd as (_ & Hnd & _). intros mem x Hmem Hx Hx0. apply (Hnd x Hx0).
  apply elem_of_app in Hmem as [Hm|Hm]; apply elem_of_app; [right|left];
    apply list_elem_of_join; exists (cells mem); (split; [done|]); by apply list_elem_of_fmap_2.
Qed.

Lemma refs_of_split m a ms1 mem0 ms2 :
  refs_of m a (ms1 ++ mem0 :: ms2) ≡ₚ member_refs m a mem0 ++ refs_of m a (ms1 ++ ms2).
Proof.
  unfold refs_of. rewrite !fmap_app, fmap_cons, !join_app. simpl.
  by rewrite !app_assoc, (Permutation_app_comm (mjoin _)).
Qed.

(** Only the cells of the member [mem0] of the object at [c] change. *)
Definition member_changed m m' (c i : Z) (mem0 : member) : Prop :=
  ∀ p, word m' p ≠ word m p → ∃ x, x ∈ cells mem0 ∧ p = (c + 8 + x)%Z.

Lemma heap_refs_member m m' objs c i mem0 :
  objs !! c = Some i → mem0 ∈ members C i →
  (∀ d j x, objs !! d = Some j → (0 ≤ x < size_of C j)%Z → (d ≠ c ∨ x ∉ cells mem0) →
    word m' (d + 8 + x) = word m (d + 8 + x)) →
  heap_refs C m' objs ++ member_refs m (c + 8) mem0 ≡ₚ
  heap_refs C m objs ++ member_refs m' (c + 8) mem0.
Proof.
  intros Hc Hm Hw. rewrite !(heap_refs_delete C _ objs c i Hc).
  assert (heap_refs C m' (delete c objs) = heap_refs C m (delete c objs)) as ->.
  { apply heap_refs_ext. intros d j x [Hne Hd]%lookup_delete_Some Hx. apply Hw with j; auto. }
  unfold object_refs. simpl. destruct (members_split i mem0 Hm) as (ms1 & ms2 & Hsp & Hx0).
  rewrite Hsp, !refs_of_split.
  assert (refs_of m' (c + 8) (ms1 ++ ms2) = refs_of m (c + 8) (ms1 ++ ms2)) as ->.
  { apply refs_of_ext. intros mem1 x Hm1 Hx. apply Hw with i; [done| |right; by eapply Hx0].
    apply (members_bounds i mem1); [|done]. rewrite Hsp. set_solver. }
  rewrite <- !(app_assoc (member_refs _ _ _)). apply app_swap_ends.
Qed.

(** ** Chunks that are left alone *)

(** From [A] to [A'] the chunks of [pend] keep their words, apart from those at
    the addresses [X]; nothing outside the block changes. *)
Record kept (X : Z → Prop) A A' pend : Prop := {
  kp_frame : block_frame A A';
  kp_words d p : d ∈ pend → (d ≤ p < d + word (mem A) d)%Z → ¬ X p → word (mem A') p = word (mem A) p
}.

Lemma kept_refl X A pend : kept X A A pend.
Proof. split; [apply block_frame_refl|done]. Qed.

Lemma kept_trans (X : Z → Prop) A A1 A' pend :
  (∀ d, d ∈ pend → ¬ X d) → kept X A A1 pend → kept X A1 A' pend → kept X A A' pend.
Proof.
  intros HX [F1 W1] [F2 W2]. split; [by eapply block_frame_trans|]. intros d p Hd Hp Hx.
  rewrite (W2 d p Hd); [by apply (W1 d p)| |done].
  rewrite (W1 d d Hd); [done|lia|by apply HX].
Qed.

Lemma kept_weaken (X Y : Z → Prop) A A' pend pend' :
  pend' ⊆ pend → (∀ p, X p → Y p) → kept X A A' pend → kept Y A A' pend'.
Proof. intros Hp HX [F W]. split; [done|]. intros d p Hd Hpp HY. apply (W d); auto. Qed.

(** A heap of which only the chunks matter. *)
Lemma heap_inv_forget A objs pend rs :
  heap_inv C A objs pend rs → heap_inv C A ∅ (dom objs ∪ pend) [].
Proof.
  intros [Hwf _ Hpol _ Hchk _]. split; rewrite ?dom_empty_L, ?(left_id_L ∅ _); try done.
  all: split; [by intros t i Hti%elem_of_nil|by intros c i Hc; rewrite lookup_empty in Hc].
Qed.

(** Joining objects to those of a heap in which they were left alone. *)
Lemma heap_inv_join A objs news pend rs rs' :
  heap_inv C A news (dom objs ∪ pend) rs' → dom objs ## pend →
  (∀ c i, objs !! c = Some i → (8 + size_of C i ≤ word (mem A) c)%Z) →
  graph C (mem A) (objs ∪ news) rs → heap_inv C A (objs ∪ news) pend rs.
Proof.
  intros [Hwf Hdis Hpol Hfits Hchk _] Hd Hf Hg.
  assert (dom (objs ∪ news) ∪ pend = dom news ∪ (dom objs ∪ pend)) as Hdom.
  { rewrite dom_union_L. set_solver. }
  split; rewrite ?Hdom; try done.
  - rewrite dom_union_L. set_solver.
  - intros c i [Hc|[_ Hc]]%lookup_union_Some_raw; [by apply Hf|by apply Hfits].
Qed.

Lemma heap_inv_payload A pend m' :
  heap_inv C A ∅ pend [] →
  (∀ p, word m' p ≠ word (mem A) p → ∃ c, c ∈ pend ∧ (c + 4 ≤ p < c + word (mem A) c)%Z) →
  heap_inv C (set_mem A m') ∅ pend [].
Proof.
  intros Hinv Hch. pose proof Hinv as [Hwf Hdis Hpol _ Hchk _].
  rewrite dom_empty_L, (left_id_L ∅ _) in Hwf, Hchk.
  assert (∀ d, d ∈ pend → word m' d = word (mem A) d) as Hd.
  { intros d Hd. destruct (decide (word m' d = word (mem A) d)) as [|Hne]; [done|].
    destruct (Hch d Hne) as (c & Hc & Hp). pose proof (Hchk d Hd).
    assert (c = d); [|lia]. apply (chunk_unique Hinv c d d); [set_solver|set_solver|lia|lia]. }
  split; rewrite ?dom_empty_L, ?(left_id_L ∅ _); try done.
  - apply wf_block_payload; [done|]. intros p Hp. left. by apply Hch.
  - intros c Hc. simpl. rewrite Hd by done. by apply Hchk.
  - split; [by intros t i Hti%elem_of_nil|by intros c i Hc; rewrite lookup_empty in Hc].
Qed.

(** A chunk becomes an object. *)
Lemma heap_inv_singleton A pend c i :
  heap_inv C A ∅ ({[c]} ∪ pend) [] → c ∉ pend → word (mem A) (c + 4) = 1%Z →
  (8 + size_of C i ≤ word (mem A) c)%Z → object_refs C (mem A) (c, i) = [] →
  heap_inv C A {[c := i]} pend [(c + 4, i)%Z].
Proof.
  intros [Hwf _ Hpol _ Hchk _] Hc Hone Hfit Hrefs. rewrite dom_empty_L, (left_id_L ∅ _) in Hwf, Hchk.
  split; rewrite ?dom_singleton_L; try done.
  - set_solver.
  - by intros d j [<- <-]%lookup_singleton_Some.
  - unfold graph, heap_refs. rewrite map_to_list_singleton. simpl. rewrite Hrefs. simpl. split.
    + intros t j [= -> ->]%list_elem_of_singleton. rewrite Z.add_simpl_r. apply lookup_singleton_eq.
    + intros d j [<- <-]%lookup_singleton_Some. rewrite references_cons. simpl.
      rewrite decide_True by done. simpl. by rewrite Hone.
Qed.

(** ** Allocation *)

Lemma getRAM_ok A pend n :
  heap_inv C A ∅ pend [] → (numBytes (myState A) < u32_modulus)%Z → (4 ≤ n ≤ 4294967288)%Z →
  throwException (myState A) = true →
  let '(r, A') := getRAM n A in
  match r with
  | Ret p => (0 < p)%Z ∧ heap_inv C A' ∅ ({[ (p - 4)%Z ]} ∪ pend) [] ∧ ((p - 4)%Z ∉ pend) ∧
      (n + 4 ≤ word (mem A') (p - 4))%Z ∧ kept (λ _, False) A A' pend
  | NotEnoughSpace => A' = A
  | _ => False
  end.
Proof.
  intros Hinv Hlen Hn Hthrow. pose proof Hinv as [Hwf _ (pol & Hpol & Hnr) _ Hchk _].
  rewrite dom_empty_L, (left_id_L ∅ _) in Hwf, Hchk.
  pose proof (live_capacity A pend Hwf) as Hcap.
  assert (Z.of_nat (size pend) + 1 < u32_modulus)%Z as Hsz by word_lia.
  unfold getRAM. rewrite (list_getRAM_policy _ pol) by done.
  pose proof (policy_getRAM_post pol A pend n Hwf ltac:(lia) Hsz) as Hp.
  pose proof (policy_getRAM_words pol A pend n) as Hw.
  destruct (policy_getRAM pol n A) as [[p| | |] A'] eqn:Hg; simpl in Hp; [|by destruct Hp|done..].
  destruct (Z.eqb_spec p 0) as [->|Hp0]; [by destruct Hp; congruence|].
  destruct Hp as (Hfresh & Hwf' & Hfit & Hlive & Hfr).
  specialize (Hw p A' Hwf ltac:(lia) eq_refl).
  assert (kept (λ _, False) A A' pend) as Hk.
  { split; [done|]. intros d q Hd Hq _. pose proof (block_chunk A pend Hwf d (or_intror Hd)) as Hb.
    apply Hw; [lia|unfold ref_addr; lia|]. intros ->.
    pose proof (block_disjoint A' _ Hwf' d (p - 4)) as Hdj. pose proof (block_chunk A' _ Hwf' (p - 4)) as Hb'.
    rewrite (Hlive d Hd) in Hdj. destruct Hdj; [set_solver|set_solver|by intros ->| |]; 
    destruct Hb'; [set_solver|lia|set_solver|lia]. }
  pose proof (block_chunk A' _ Hwf' (p - 4) ltac:(set_solver)) as Hb. pose proof (wb_active _ _ Hwf').
  split_and!; [lia| |done|lia|done].
  split; rewrite ?dom_empty_L, ?(left_id_L ∅ _); try done.
  - exists pol. split; [|done]. by rewrite (bf_policies _ _ Hfr).
  - intros c [->%elem_of_singleton|Hc]%elem_of_union; [lia|]. rewrite Hlive by done. by apply Hchk.
  - split; [by intros t i Hti%elem_of_nil|by intros c i Hc; rewrite lookup_empty in Hc].
Qed.

(** ** Construction and copies of bytes *)

(** A member as its constructor leaves it: handles null, strings short. *)
Definition fresh m (a : Z) (mem0 : member) : Prop :=
  match mem0 with
  | Scalar _ => True
  | HandleAt o _ => word m (a + o) = (-1)%Z
  | StringAt o => word m (a + o + 8) = 1%Z
  end.

Lemma fresh_refs m a mem0 : fresh m a mem0 → member_refs m a mem0 = [].
Proof.
  destruct mem0 as [o|o st|o]; simpl; [done|..]; unfold handle_refs; intros ->; done.
Qed.

Lemma fresh_ext m m' a mem0 :
  (∀ x, x ∈ cells mem0 → word m' (a + x) = word m (a + x)) → fresh m a mem0 → fresh m' a mem0.
Proof.
  intros Hw. destruct mem0 as [o|o st|o]; simpl in *; [done|..];
    rewrite <- ?(Z.add_assoc a o 8), Hw by (repeat constructor); done.
Qed.

Lemma construct_member_ok a mem0 A :
  ∃ m', construct_member a mem0 A = (Ret tt, set_mem A m') ∧ fresh m' a mem0 ∧
    ∀ p, word m' p ≠ word (mem A) p → ∃ x, x ∈ cells mem0 ∧ p = (a + x)%Z.
Proof.
  destruct mem0 as [o|o st|o]; simpl.
  - exists (mem A). split_and!; [by destruct A|done|done].
  - unfold Handle_new, setTypeInfo, setOffset, store. run. eexists. split; [done|]. split.
    + apply word_insert_eq.
    + intros p. cbn [mem set_mem]. rewrite !word_insert. intros Hp.
      case_decide; [exists o|case_decide; [exists (o + 8)%Z|done]]; (split; [repeat constructor|lia]).
  - unfold String_new, setTypeInfo, setOffset, store. run. eexists. split; [done|]. split.
    + cbn [mem set_mem]. rewrite !word_insert_ne by lia. apply word_insert_eq.
    + intros p. cbn [mem set_mem]. rewrite !word_insert. intros Hp.
      repeat case_decide; try done; [exists o|exists (o + 8)%Z]; (split; [repeat constructor|lia]).
Qed.

Lemma construct_each_ok a ms A :
  NoDup (mjoin (cells <$> ms)) →
  ∃ m', each (construct_member a) ms A = (Ret tt, set_mem A m') ∧
    (∀ mem0, mem0 ∈ ms → fresh m' a mem0) ∧
    ∀ p, word m' p ≠ word (mem A) p → ∃ mem0 x, mem0 ∈ ms ∧ x ∈ cells mem0 ∧ p = (a + x)%Z.
Proof.
  revert A. induction ms as [|mem0 ms IH]; intros A Hnd.
  { exists (mem A). split_and!; [by destruct A|by intros mem0 ?%elem_of_nil|done]. }
  simpl in Hnd. apply NoDup_app in Hnd as (_ & Hsep & Hnd).
  destruct (construct_member_ok a mem0 A) as (m1 & He1 & Hf1 & Hw1).
  destruct (IH (set_mem A m1) Hnd) as (m2 & He2 & Hf2 & Hw2). simpl in Hw2.
  exists m2. split; [|split].
  - cbn [each]. run. rewrite He1. exact He2.
  - intros mem1 [->|Hm]%elem_of_cons; [|by apply Hf2]. eapply fresh_ext; [|exact Hf1].
    intros x Hx. destruct (decide (word m2 (a + x) = word m1 (a + x)))%Z as [|Hne]; [done|].
    destruct (Hw2 _ Hne) as (mem1 & y & Hm1 & Hy & He). assert (x = y) as <- by lia.
    exfalso. apply (Hsep x Hx). apply list_elem_of_join. exists (cells mem1).
    split; [done|]. by apply list_elem_of_fmap_2.
  - intros p Hp. destruct (decide (word m2 p = word m1 p)) as [He|Hne].
    + rewrite He in Hp. destruct (Hw1 p Hp) as (x & Hx & ->). exists mem0, x. split; [constructor|done].
    + destruct (Hw2 p Hne) as (mem1 & x & Hm & Hx & ->). exists mem1, x. split; [by constructor|done].
Qed.

Lemma foldl_insert_word (f : Z → Z) (t : Z) ds m p :
  word (foldl (λ m d, <[(t + d)%Z := f d]> m) m ds) p =
    if decide (p - t ∈ ds)%Z then f (p - t)%Z else word m p.
Proof.
  revert m. induction ds as [|d ds IH]; intros m; simpl.
  - done.
  - rewrite IH. destruct (decide (p - t ∈ ds)%Z) as [Hin|Hin].
    { by rewrite decide_True by by constructor. }
    rewrite word_insert. destruct (decide (t + d = p)%Z) as [<-|Hd].
    + replace (t + d - t)%Z with d by lia. rewrite decide_True by constructor. done.
    + rewrite decide_False; [done|]. intros [He|?]%elem_of_cons; [lia|done].
Qed.

Lemma memmove_word t s n A p :
  (0 ≤ n)%Z →
  ∃ m', memmove t s n A = (Ret tt, set_mem A m') ∧
    word m' p = if decide (0 ≤ p - t < n)%Z then word (mem A) (s + (p - t)) else word (mem A) p.
Proof.
  intros Hn. unfold memmove. eexists. split; [done|].
  rewrite (foldl_insert_word (λ d, word (mem A) (s + d))%Z).
  destruct (decide (0 ≤ p - t < n)%Z); [rewrite decide_True|rewrite decide_False]; try done; rewrite elem_of_seqZ; lia.
Qed.

(** ** Copies *)

(** [P j a s]: the object of type [j] at [a] is a copy of the one at [s]. *)
Section copied.
Context (m m0 : gmap Z Z).

Definition handle_copied (P : Z → Z → Z → Prop) (h s : Z) : Prop :=
  if (word m0 s =? -1)%Z then word m h = (-1)%Z
  else word m h ≠ (-1)%Z ∧ word m (h + 8) = word m0 (s + 8) ∧
    P (word m0 (s + 8)) (h + word m h + 4)%Z (s + word m0 s + 4)%Z.

Definition member_copied (P : Z → Z → Z → Prop) (a s : Z) (mem0 : member) : Prop :=
  match mem0 with
  | Scalar o => word m (a + o) = word m0 (s + o)
  | HandleAt o _ => handle_copied P (a + o) (s + o)
  | StringAt o =>
      word m (a + o + 8) = word m0 (s + o + 8) ∧
      if (word m0 (s + o + 8) <? -1)%Z then handle_copied P (a + o) (s + o)
      else word m (a + o) = word m0 (s + o)
  end%Z.

(** The object of type [i] at [a] in [m] and the one at [s] in [m0] look the
    same along every path of at most [n] handles. *)
Fixpoint copied (n : nat) (i a s : Z) : Prop :=
  match n with
  | 0 => True
  | S n' =>
      if (0 <? i)%Z then ∀ mem0, mem0 ∈ members C i → member_copied (copied n') a s mem0
      else ∀ x, (0 ≤ x < - i)%Z → word m (a + x) = word m0 (s + x)
  end.
End copied.

(** ** New objects *)

(** The objects [news] of one copy: those reachable from the root [c], each
    referenced, by objects of lower rank only, so that there is no cycle. *)
Record grown A news pend (c i : Z) : Prop := {
  gr_inv : heap_inv C A news pend [(c + 4, i)%Z];
  gr_root : news !! c = Some i;
  gr_count d : d ∈ dom news → word (mem A) (d + 4) ≠ 0%Z;
  gr_rank : ∃ rank : Z → nat, rank c = 0 ∧ ∀ d j, news !! d = Some j →
    (d = c ∨ rank d ≠ 0) ∧ ∀ t k, (t, k) ∈ object_refs C (mem A) (d, j) → rank d < rank (t - 4)%Z
}.

Lemma object_refs_typed A objs pend rs d j t k :
  heap_inv C A objs pend rs → objs !! d = Some j → (t, k) ∈ object_refs C (mem A) (d, j) →
  objs !! (t - 4)%Z = Some k.
Proof.
  intros Hinv Hd Hr. apply (g_typed _ _ _ (hi_graph _ _ _ _ _ Hinv)). apply elem_of_app. left.
  by eapply object_refs_heap.
Qed.

(** Without outside references a referenced object of lowest rank cannot
    exist. *)
Lemma no_cycle A objs pend (rank : Z → nat) :
  heap_inv C A objs pend [] → (∀ d, d ∈ dom objs → word (mem A) (d + 4) ≠ 0%Z) →
  (∀ d j t k, objs !! d = Some j → (t, k) ∈ object_refs C (mem A) (d, j) → rank d < rank (t - 4)%Z) →
  objs = ∅.
Proof.
  intros Hinv Hcount Hrank. apply map_empty. intros c. apply eq_None_not_Some. intros [i Hc].
  revert c i Hc. assert (∀ n c i, rank c = n → ¬ objs !! c = Some i) as Hn; [|by intros c i Hc; eapply Hn].
  intros n. induction (lt_wf n) as [n _ IH]. intros c i Hr Hc.
  destruct (g_count _ _ _ (hi_graph _ _ _ _ _ Hinv) c i Hc) as [Hw _].
  assert (references (heap_refs C (mem A) objs ++ []) (c + 4) ≠ 0) as Hne.
  { intros Hz. apply (Hcount c); [apply elem_of_dom; by eexists|]. by rewrite Hw, Hz. }
  apply Hne. apply references_zero. intros k. rewrite app_nil_r. intros Hk.
  unfold heap_refs in Hk. apply list_elem_of_join in Hk as (l & Hl & Hk).
  apply list_elem_of_fmap in Hk as ([d j] & -> & Hd%elem_of_map_to_list).
  specialize (Hrank d j _ _ Hd Hl). rewrite Z.add_simpl_r in Hrank. eapply (IH (rank d)); [lia|done|done].
Qed.

(** Dropping the only reference to a failed copy frees all of it. *)
Lemma grown_drop k A news pend c i :
  grown A news pend c i → (numBytes (myState A) < 4 * (Z.of_nat k + 1))%Z →
  ∃ A', decRefCount C k (c + 4) i A = (Ret tt, A') ∧ heap_inv C A' ∅ pend [] ∧
    kept (λ _, False) A A' pend.
Proof.
  intros [Hinv Hroot Hcount (rank & Hr0 & Hrank)] Hk.
  assert (size news ≤ k) as Hsz.
  { pose proof (live_capacity A _ (hi_block _ _ _ _ _ Hinv)) as Hcap.
    assert (size news ≤ size (dom news ∪ pend)); [|lia]. rewrite <- (size_dom news). apply subseteq_size. set_solver. }
  destruct (decRefCount_ok k A news pend [] _ _ Hsz Hinv) as (A' & news' & He & Hd).
  exists A'. split; [done|]. pose proof (dr_inv _ _ _ _ _ _ Hd) as Hinv'.
  assert (news' = ∅) as ->.
  { apply (no_cycle A' news' pend rank Hinv').
    - intros d Hdd Hz. apply (Hcount d); [|by apply (dr_zero _ _ _ _ _ _ Hd)].
      by eapply (subseteq_dom news'), Hdd; apply (dr_objs _ _ _ _ _ _ Hd).
    - intros d j t l Hdj Hr. pose proof (lookup_weaken _ _ _ _ Hdj (dr_objs _ _ _ _ _ _ Hd)) as Hdj'.
      rewrite (object_refs_dropped A news pend [] _ A' news' d j Hinv Hd Hdj') in Hr.
      by apply (proj2 (Hrank d j Hdj') t l). }
  split; [done|]. split; [apply (dr_frame _ _ _ _ _ _ Hd)|].
  intros d p Hdp Hp _. pose proof (chunk_bounds Hinv d ltac:(set_solver)) as Hb.
  apply (dr_words _ _ _ _ _ _ Hd); [unfold ref_addr; lia|].
  intros e He' ->. pose proof (chunk_bounds Hinv e ltac:(set_solver)).
  assert (d = e) as ->; [|by apply (hi_disjoint _ _ _ _ _ Hinv e)].
  apply (chunk_unique Hinv d e (e + 4)); [set_solver|set_solver|lia|lia].
Qed.

(** The addresses of a member of the object at [c]. *)
Definition member_at (c : Z) (mem0 : member) (p : Z) : Prop := ∃ x, x ∈ cells mem0 ∧ p = (c + 8 + x)%Z.

(** A heap with an object at [c]. *)
Record hosted A news pend rs (c i : Z) : Prop := {
  ho_inv : heap_inv C A news pend rs;
  ho_root : news !! c = Some i
}.

Lemma grown_hosted A news pend c i : grown A news pend c i → hosted A news pend [(c + 4, i)%Z] c i.
Proof. intros [Hinv Hc _ _]. by split. Qed.

#[local] Coercion grown_hosted : grown >-> hosted.

(** The objects of [news2], reached through a member of the object at [c] that
    was empty, join the heap. *)
Section extend.
Context {A news pend rs c i mem0 A' news2} (Hg : hosted A news pend rs c i) (Hm : mem0 ∈ members C i)
  (Hnone : member_refs (mem A) (c + 8) mem0 = [])
  (Hk : kept (member_at c mem0) A A' (dom news ∪ pend))
  (Hinv2 : heap_inv C A' news2 (dom news ∪ pend) (member_refs (mem A') (c + 8) mem0)).

#[local] Abbreviation Hinv := (ho_inv _ _ _ _ _ _ Hg).

Lemma extend_disjoint : news ##ₘ news2.
Proof. clear -Hinv2. apply map_disjoint_dom_2. pose proof (hi_disjoint _ _ _ _ _ Hinv2). set_solver. Qed.

Lemma extend_not_member d : d ∈ dom news ∪ pend → ¬ member_at c mem0 d ∧ ¬ member_at c mem0 (d + 4).
Proof.
  intros Hd. split; intros (x & Hx & He).
  - pose proof (members_bounds i mem0 x Hm Hx) as Hb. pose proof (ho_root _ _ _ _ _ _ Hg) as Hc.
    pose proof (cell_place Hinv c i x Hc Hb). pose proof (chunk_bounds Hinv d Hd).
    assert (c = d); [|lia]. apply (chunk_unique Hinv c d d); [by eapply object_live|done|lia|lia].
  - pose proof (members_bounds i mem0 x Hm Hx) as Hb.
    by apply (cell_not_count Hinv c i x d (ho_root _ _ _ _ _ _ Hg) Hb Hd).
Qed.

Lemma extend_chunk d : d ∈ dom news ∪ pend →
  word (mem A') d = word (mem A) d ∧ word (mem A') (d + 4) = word (mem A) (d + 4).
Proof.
  intros Hd. pose proof (chunk_bounds Hinv d Hd) as Hb. destruct (extend_not_member d Hd) as [H1 H2].
  split; apply (kp_words _ _ _ _ Hk d); try done; lia.
Qed.

Lemma extend_cell d j x :
  news !! d = Some j → (0 ≤ x < size_of C j)%Z → (d ≠ c ∨ x ∉ cells mem0) →
  word (mem A') (d + 8 + x) = word (mem A) (d + 8 + x).
Proof.
  intros Hd Hx Hne. pose proof (cell_place Hinv d j x Hd Hx) as Hp.
  apply (kp_words _ _ _ _ Hk d); [by eapply object_live|lia|]. intros (y & Hy & He).
  pose proof (members_bounds i mem0 y Hm Hy) as Hb. pose proof (ho_root _ _ _ _ _ _ Hg) as Hc.
  pose proof (cell_place Hinv c i y Hc Hb).
  assert (d = c) as -> by (apply (chunk_unique Hinv d c (d + 8 + x)); [by eapply object_live..|lia|lia]).
  assert (x = y) as -> by lia. by destruct Hne.
Qed.

Lemma extend_refs :
  heap_refs C (mem A') news ≡ₚ heap_refs C (mem A) news ++ member_refs (mem A') (c + 8) mem0.
Proof.
  pose proof (heap_refs_member (mem A) (mem A') news c i mem0 (ho_root _ _ _ _ _ _ Hg) Hm extend_cell) as Hp.
  by rewrite Hnone, app_nil_r in Hp.
Qed.

Lemma extend_inv : heap_inv C A' (news ∪ news2) pend rs.
Proof.
  apply heap_inv_join with (member_refs (mem A') (c + 8) mem0); [done|by apply Hinv| |].
  - intros d j Hd. rewrite (proj1 (extend_chunk d (object_live d j Hd))). by apply (hi_fits _ _ _ _ _ Hinv).
  - unfold graph.
    eapply counted_perm, (counted_union (mem A') news news2 (heap_refs C (mem A) news ++ rs));
      [|exact extend_disjoint| |exact (hi_graph _ _ _ _ _ Hinv2)].
    + rewrite (heap_refs_union C _ _ _ extend_disjoint), extend_refs.
      rewrite <- !app_assoc. apply Permutation_app_head, app_swap_ends.
    + eapply counted_ext; [|exact (hi_graph _ _ _ _ _ Hinv)].
      intros d Hd. apply extend_chunk. set_solver.
Qed.

(** References out of an old object: those it had, and those of the member. *)
Lemma extend_object_refs d j r :
  news !! d = Some j → r ∈ object_refs C (mem A') (d, j) →
  r ∈ object_refs C (mem A) (d, j) ∨ d = c ∧ r ∈ member_refs (mem A') (c + 8) mem0.
Proof.
  intros Hd Hr. unfold object_refs in *. simpl in *. destruct (decide (d = c)) as [->|Hne].
  - pose proof (ho_root _ _ _ _ _ _ Hg) as Hc. assert (i = j) as <- by congruence.
    destruct (members_split i mem0 Hm) as (ms1 & ms2 & Hsp & Hx0).
    rewrite Hsp in Hr |- *. rewrite refs_of_split in Hr |- *. apply elem_of_app in Hr as [Hr|Hr]; [by right|left].
    rewrite elem_of_app. right. erewrite <- refs_of_ext; [exact Hr|].
    intros mem1 x Hm1 Hx. eapply extend_cell; [done| |right; by eapply Hx0].
    apply (members_bounds i mem1); [|done]. rewrite Hsp. set_solver.
  - left. erewrite <- refs_of_ext; [exact Hr|]. intros mem1 x Hm1 Hx.
    eapply extend_cell; [done| |by left]. by eapply members_bounds.
Qed.

End extend.

Lemma grown_extend {A news pend c i mem0 A' news2} :
  grown A news pend c i → mem0 ∈ members C i → member_refs (mem A) (c + 8) mem0 = [] →
  kept (member_at c mem0) A A' (dom news ∪ pend) →
  heap_inv C A' news2 (dom news ∪ pend) (member_refs (mem A') (c + 8) mem0) →
  (∀ d, d ∈ dom news2 → word (mem A') (d + 4) ≠ 0%Z) →
  (∃ rank2 : Z → nat, ∀ d j t k, news2 !! d = Some j → (t, k) ∈ object_refs C (mem A') (d, j) →
    rank2 d < rank2 (t - 4)%Z) →
  grown A' (news ∪ news2) pend c i.
Proof.
  intros Hg Hm Hnone Hk Hinv2 Hcount2 (rank2 & Hrank2). pose proof (gr_inv _ _ _ _ _ Hg) as Hinv.
  pose proof (extend_disjoint Hinv2) as Hdisj. pose proof (gr_rank _ _ _ _ _ Hg) as (rank & Hr0 & Hrank).
  split.
  - exact (extend_inv Hg Hm Hnone Hk Hinv2).
  - by apply lookup_union_Some_l, Hg.
  - intros d Hd. rewrite dom_union_L in Hd. apply elem_of_union in Hd as [Hd|Hd]; [|by apply Hcount2].
    rewrite (proj2 (extend_chunk Hg Hm Hk d ltac:(set_solver))). by apply (gr_count _ _ _ _ _ Hg).
  - exists (λ d, if news !! d is Some _ then rank d else S (rank2 d)).
    split; [by rewrite (gr_root _ _ _ _ _ Hg)|].
    intros d j [Hd|[Hn Hd]]%lookup_union_Some_raw.
    + rewrite Hd. split; [by eapply Hrank|]. intros t k Hr.
      destruct (extend_object_refs Hg Hm Hnone Hk Hinv2 d j _ Hd Hr) as [Hr'|[-> Hr']].
      * rewrite (object_refs_typed A news _ _ d j t k Hinv Hd Hr'). by eapply Hrank.
      * pose proof (root_object Hinv2 t k Hr') as Ht.
        rewrite (map_disjoint_Some_r news news2 _ k Hdisj Ht). rewrite Hr0. lia.
    + rewrite Hn. split; [by right|]. intros t k Hr.
      pose proof (object_refs_typed A' news2 _ _ d j t k Hinv2 Hd Hr) as Ht.
      rewrite (map_disjoint_Some_r news news2 _ k Hdisj Ht).
      pose proof (Hrank2 d j t k Hd Hr). lia.
Qed.
(** The member changes, but still leads nowhere. *)
Lemma grown_member A news pend c i mem0 A' :
  grown A news pend c i → mem0 ∈ members C i → member_refs (mem A) (c + 8) mem0 = [] →
  kept (member_at c mem0) A A' (dom news ∪ pend) → heap_inv C A' ∅ (dom news ∪ pend) [] →
  member_refs (mem A') (c + 8) mem0 = [] →
  grown A' news pend c i.
Proof.
  intros Hg Hm Hn Hk Hinv2 Hn'. rewrite <- (map_union_empty news). rewrite <- Hn' in Hinv2.
  apply (grown_extend Hg Hm Hn Hk Hinv2).
  - rewrite dom_empty_L. set_solver.
  - exists (λ _, 0). intros d j t k Hd. by rewrite lookup_empty in Hd.
Qed.

(** ** Stores into chunks *)

Lemma kept_chunk X A A' pend d :
  kept X A A' pend → d ∈ pend → (0 < word (mem A) d)%Z → ¬ X d → word (mem A') d = word (mem A) d.
Proof. intros Hk Hd Hw Hx. apply (kp_words _ _ _ _ Hk d); [done|lia|done]. Qed.

Lemma store_pend A pend c p v :
  heap_inv C A ∅ pend [] → c ∈ pend → (c + 4 ≤ p < c + word (mem A) c)%Z →
  heap_inv C (set_mem A (<[p := v]> (mem A))) ∅ pend [].
Proof.
  intros Hinv Hc Hp. apply heap_inv_payload; [done|]. intros q Hq. rewrite word_insert in Hq.
  case_decide; [subst q; by exists c|done].
Qed.

Lemma kept_store (X : Z → Prop) A pend pend' c p v :
  heap_inv C A ∅ pend [] → c ∈ pend → (c ≤ p < c + word (mem A) c)%Z → pend' ⊆ pend →
  (c ∉ pend' ∨ X p) → kept X A (set_mem A (<[p := v]> (mem A))) pend'.
Proof.
  intros Hinv Hc Hp Hsub HX. pose proof (chunk_bounds Hinv c ltac:(set_solver)) as Hb. split.
  - split; try done; [by destruct A as [? []]|]. intros q Hq. simpl. apply word_insert_ne. lia.
  - intros d q Hd Hq Hxq. simpl. apply word_insert_ne. intros <-.
    assert (c = d) as ->; [|by destruct HX].
    apply (chunk_unique Hinv c d p); [set_solver|set_solver|lia|lia].
Qed.

(** Where the cells of a member are. *)
Lemma heap_inv_cells A news pend {rs} c i mem0 x :
  hosted A news pend rs c i → mem0 ∈ members C i → x ∈ cells mem0 →
  (c + 8 ≤ c + 8 + x < c + word (mem A) c)%Z ∧ c ∈ dom news.
Proof.
  intros Hg Hm Hx. pose proof (ho_root _ _ _ _ _ _ Hg) as Hc. split; [|apply elem_of_dom; by eexists].
  apply (cell_place (ho_inv _ _ _ _ _ _ Hg) c i); [done|]. by eapply members_bounds.
Qed.

Lemma payload_change (X : Z → Prop) A pend pend' m' :
  heap_inv C A ∅ pend [] → pend' ⊆ pend →
  (∀ q, word m' q ≠ word (mem A) q →
    ∃ d, d ∈ pend ∧ (d + 4 ≤ q < d + word (mem A) d)%Z ∧ (d ∉ pend' ∨ X q)) →
  heap_inv C (set_mem A m') ∅ pend [] ∧ kept X A (set_mem A m') pend'.
Proof.
  intros Hinv Hsub Hch. split.
  - apply heap_inv_payload; [done|]. intros q Hq. destruct (Hch q Hq) as (d & Hd & Hdq & _). by exists d.
  - split.
    + split; try done; [by destruct A as [? []]|]. intros q Hq.
      destruct (decide (word m' q = word (mem A) q)) as [|Hne]; [done|].
      destruct (Hch q Hne) as (d & Hd & Hdq & _). pose proof (chunk_bounds Hinv d ltac:(set_solver)). lia.
    + intros d q Hd Hq Hx. destruct (decide (word m' q = word (mem A) q)) as [|Hne]; [done|].
      destruct (Hch q Hne) as (e & He & Heq & HX). assert (e = d) as ->; [|by destruct HX].
      apply (chunk_unique Hinv e d q); [set_solver|set_solver|lia|lia].
Qed.

Section copying.
Context (lo len : Z) (m0 : gmap Z Z) (Src : Z → Z → Prop).

(** Addresses outside the current block. *)
Definition away (p : Z) : Prop := (p < lo ∨ lo + len ≤ p)%Z.

(** Objects of [m0] to copy from, [Src i s] for one of type [i] at [s]: they
    lie outside the block, and so do the objects their handles lead to. *)
Record source_ok : Prop := {
  so_size i s : Src i s → (size_of C i ≤ 2147483648)%Z;
  so_away i s x : Src i s → (0 ≤ x < size_of C i)%Z → away (s + x);
  so_handle i s o st : Src i s → HandleAt o st ∈ members C i → word m0 (s + o) ≠ (-1)%Z →
    away (s + o + word m0 (s + o)) ∧ Src (word m0 (s + o + 8)) (s + o + word m0 (s + o) + 4);
  so_string i s o : Src i s → StringAt o ∈ members C i → (word m0 (s + o + 8) < 0)%Z →
    (word m0 (s + o + 8) < -1)%Z ∧ word m0 (s + o) ≠ (-1)%Z ∧
    away (s + o + word m0 (s + o)) ∧ Src (word m0 (s + o + 8)) (s + o + word m0 (s + o) + 4)
}.

(** The state of the allocator in which [m0] is what lies outside its block. *)
Record here A : Prop := {
  he_base : activeRAM (myState A) = lo;
  he_bytes : numBytes (myState A) = len;
  he_throw : throwException (myState A) = true;
  he_words p : away p → word (mem A) p = word m0 p
}.

Lemma here_frame A A' : here A → block_frame A A' → here A'.
Proof.
  intros [Hb Hn Ht Hw] Hf. pose proof (bf_mem _ _ Hf) as Hm. pose proof (bf_state _ _ Hf) as Hs.
  split; try (rewrite Hs; done). intros p Hp. rewrite Hm; [by apply Hw|]. rewrite Hb, Hn. exact Hp.
Qed.

Lemma away_contains A p : here A → away p → contains A p = false.
Proof.
  intros [Hb Hn _ _] Hp. unfold contains. rewrite Hb, Hn. apply andb_false_iff. unfold away in Hp.
  destruct Hp; [left; apply Z.leb_gt; lia|right; apply Z.ltb_ge; lia].
Qed.

(** What copying the source at [s] into the fresh chunk [c] does, with fuel
    [n] for the levels of the copy: it returns a copy, or it throws and leaves
    a partial one. *)
Definition copy_ok (n : nat) (copy : Z → Z → Z → M Allocator unit) : Prop :=
  ∀ A pend c i s,
    heap_inv C A ∅ ({[c]} ∪ pend) [] → c ∉ pend → word (mem A) (c + 4) = 1%Z →
    (8 + size_of C i ≤ word (mem A) c)%Z → Src i s → here A →
    (len < 4 * (Z.of_nat (size ({[c]} ∪ pend)) + Z.of_nat n))%Z →
    ∃ r A' news, copy i (c + 8)%Z s A = (r, A') ∧ grown A' news pend c i ∧ kept (λ _, False) A A' pend ∧
      (r = Ret tt ∧ (∀ d, copied (mem A') m0 d i (c + 8) s) ∨ r = NotEnoughSpace).

(** What assigning one member of the copy does. *)
Definition assigned A news pend (c i s : Z) (mem0 : member) (r : outcome unit) A' : Prop :=
  ∃ news', grown A' news' pend c i ∧ dom news ⊆ dom news' ∧
    kept (member_at c mem0) A A' (dom news ∪ pend) ∧
    (r = Ret tt ∧ (∀ d, member_copied (mem A') m0 (copied (mem A') m0 d) (c + 8) s mem0) ∨
     r = NotEnoughSpace).

Context (Hsrc : source_ok) (Hlen : (len < u32_modulus)%Z) (k : nat) (Hk : (len < 4 * (Z.of_nat k + 1))%Z).

(** A store into the member keeps the copy, when the member leads nowhere. *)
Lemma assigned_store A news pend {rs} c i mem0 p v :
  hosted A news pend rs c i → mem0 ∈ members C i → member_at c mem0 p →
  heap_inv C (set_mem A (<[p := v]> (mem A))) ∅ (dom news ∪ pend) [] ∧
  kept (member_at c mem0) A (set_mem A (<[p := v]> (mem A))) (dom news ∪ pend).
Proof.
  intros Hg Hm (x & Hx & ->). pose proof (heap_inv_cells A news pend c i mem0 x Hg Hm Hx) as [Hp Hc].
  pose proof (heap_inv_forget A news pend _ (ho_inv _ _ _ _ _ _ Hg)) as Hinv.
  split; [apply (store_pend A _ c); [done|set_solver|lia]|].
  apply (kept_store _ A (dom news ∪ pend) _ c); [done|set_solver|lia|done|right; by exists x].
Qed.

(** The part of a deep copy after the space for it was found: the new chunk is
    linked from the handle [h], counted and filled. *)
Lemma deep_copy_ok n copy A1 A2 news pend {rs} c i o st s j p :
  copy_ok n copy → here A1 → hosted A1 news pend rs c i → HandleAt o st ∈ members C i →
  kept (λ _, False) A1 A2 (dom news ∪ pend) → heap_inv C A2 ∅ ({[(p - 4)%Z]} ∪ (dom news ∪ pend)) [] →
  (p - 4)%Z ∉ dom news ∪ pend → (8 + size_of C j ≤ word (mem A2) (p - 4))%Z →
  Src j s → (len < 4 * (Z.of_nat (size (dom news ∪ pend)) + Z.of_nat (S n)))%Z →
  word (mem A1) (c + 8 + o + 8) = j →
  let h := (c + 8 + o)%Z in
  let A4 := set_mem A2 (<[p := 1%Z]> (<[h := (p - h)%Z]> (mem A2))) in
  ∃ r A5 news2, copy j (p + 4)%Z s A4 = (r, A5) ∧ grown A5 news2 (dom news ∪ pend) (p - 4) j ∧
    kept (member_at c (HandleAt o st)) A1 A5 (dom news ∪ pend) ∧
    word (mem A5) h = (p - h)%Z ∧ (p - h ≠ -1)%Z ∧ word (mem A5) (h + 8) = j ∧
    (r = Ret tt ∧ (∀ d, copied (mem A5) m0 d j (p + 4) s) ∨ r = NotEnoughSpace).
Proof.
  intros Hcopy Hhere Hg Hm Hk12 Hinv2 Hfresh Hfit HS Hcap Hj h A4.
  set (pend2 := dom news ∪ pend) in *. set (c2 := (p - 4)%Z) in *.
  assert (o ∈ cells (HandleAt o st) ∧ (o + 8)%Z ∈ cells (HandleAt o st)) as [Ho Ho8] by (split; repeat constructor).
  pose proof (heap_inv_cells A1 news pend c i _ o Hg Hm Ho) as [Hh Hc]. fold h in Hh.
  pose proof (heap_inv_cells A1 news pend c i _ (o + 8) Hg Hm Ho8) as [Hh8 _].
  replace (c + 8 + (o + 8))%Z with (h + 8)%Z in Hh8 by lia. fold h in Hj.
  assert (c ∈ pend2) as Hcp by (unfold pend2; set_solver).
  assert (word (mem A2) c = word (mem A1) c) as Hwc by (apply (kept_chunk _ _ _ _ _ Hk12); [done|lia|tauto]).
  pose proof (chunk_bounds Hinv2 c2 ltac:(set_solver)) as Hb2.
  set (A3 := set_mem A2 (<[h := (p - h)%Z]> (mem A2))).
  assert (heap_inv C A3 ∅ ({[c2]} ∪ pend2) []) as Hinv3 by (apply (store_pend A2 _ c); [done|set_solver|lia]).
  assert (kept (member_at c (HandleAt o st)) A2 A3 pend2) as Hk23.
  { apply (kept_store _ A2 ({[c2]} ∪ pend2) _ c); [done|set_solver|lia|set_solver|right; by exists o]. }
  assert (word (mem A3) c2 = word (mem A2) c2) as Hwc2.
  { unfold A3. simpl. apply word_insert_ne. intros He. assert (c = c2) as ->; [|done].
    apply (chunk_unique Hinv2 c c2 c2); [set_solver|set_solver|lia|lia]. }
  assert (heap_inv C A4 ∅ ({[c2]} ∪ pend2) []) as Hinv4.
  { apply (store_pend A3 _ c2); [done|set_solver|unfold c2 in *; lia]. }
  assert (kept (λ _, False) A3 A4 pend2) as Hk34.
  { apply (kept_store _ A3 ({[c2]} ∪ pend2) _ c2); [done|set_solver|unfold c2 in *; lia|set_solver|by left]. }
  assert (h ≠ p ∧ h + 8 ≠ p ∧ p - h ≠ -1)%Z as (Hne & Hne8 & Hnn).
  { assert (∀ q, (c ≤ q < c + word (mem A1) c)%Z → q ≠ p) as Hq.
    { intros q Hq ->. assert (c = c2) as ->; [|done].
      apply (chunk_unique Hinv2 c c2 p); [set_solver|set_solver|lia|unfold c2 in *; lia]. }
    split_and!; [apply Hq; lia|apply Hq; lia|]. intros He. apply (Hq (h - 1)%Z); lia. }
  assert (kept (member_at c (HandleAt o st)) A1 A4 pend2) as Hk14.
  { pose proof (extend_not_member Hg Hm) as Hnm.
    eapply kept_trans; [intros d Hd; by apply Hnm| |eapply kept_weaken; [reflexivity| |exact Hk34]; tauto].
    eapply kept_trans; [intros d Hd; by apply Hnm| |exact Hk23].
    eapply kept_weaken; [reflexivity| |exact Hk12]. tauto. }
  destruct (Hcopy A4 pend2 c2 j s) as (r & A5 & news2 & He & Hg2 & Hk45 & Hr); try done.
  - unfold A4, c2. simpl. rewrite Z.sub_add. apply word_insert_eq.
  - unfold A4. simpl. rewrite word_insert_ne by (unfold c2; lia). fold (mem A3). simpl in Hwc2. by rewrite Hwc2.
  - eapply here_frame; [exact Hhere|]. apply (kp_frame _ _ _ _ Hk14).
  - rewrite size_union, size_singleton by set_solver. lia.
  - replace (c2 + 8)%Z with (p + 4)%Z in * by (unfold c2; lia).
    exists r, A5, news2. split; [done|]. split; [done|].
    assert (∀ q, (c ≤ q < c + word (mem A1) c)%Z → word (mem A5) q = word (mem A4) q) as Hq.
    { intros q Hq. apply (kp_words _ _ _ _ Hk45 c); [done| |tauto].
      rewrite (kept_chunk _ _ _ _ c Hk14); [done|done|lia|]. by apply (extend_not_member Hg Hm). }
    split_and!.
    + eapply kept_trans; [intros d Hd; by apply (extend_not_member Hg Hm)|exact Hk14|].
      eapply kept_weaken; [reflexivity| |exact Hk45]. tauto.
    + rewrite Hq by lia. unfold A4. simpl. rewrite word_insert_ne by done. apply word_insert_eq.
    + done.
    + rewrite Hq by lia. unfold A4. simpl. rewrite !word_insert_ne by lia.
      rewrite (kp_words _ _ _ _ Hk12 c); [done|done|lia|tauto].
    + done.
Qed.

Lemma set_mem_twice A m1 m2 : set_mem (set_mem A m1) m2 = set_mem A m2.
Proof. done. Qed.

Lemma assigned_intro A news pend c i s mem0 r A' :
  grown A news pend c i → mem0 ∈ members C i → member_refs (mem A) (c + 8) mem0 = [] →
  kept (member_at c mem0) A A' (dom news ∪ pend) → heap_inv C A' ∅ (dom news ∪ pend) [] →
  member_refs (mem A') (c + 8) mem0 = [] →
  (r = Ret tt ∧ (∀ d, member_copied (mem A') m0 (copied (mem A') m0 d) (c + 8) s mem0) ∨ r = NotEnoughSpace) →
  assigned A news pend c i s mem0 r A'.
Proof.
  intros Hg Hm Hn Hk' Hinv Hn' Hr. exists news. split_and!; try done. by eapply grown_member.
Qed.

(** The deep-copy branch of [Handle_assign] once the space [p] is there. *)
Definition fill (copy : Z → Z → Z → M Allocator unit) (h fromMe p : Z) : M Allocator unit :=
  setOffset h (p - h) ;;
  A2 ← get;
  setRefCount (getTarget A2 h) 1 ;;
  catch (copy (typeInfo A2 h) (getObject (getTarget A2 h)) (getObject (getTarget A2 fromMe)))
    (A3 ← get;
     decRefCount C k (getTarget A3 h) (typeInfo A3 h) ;; mret tt ;;
     setOffset h (-1) ;; lift NotEnoughSpace) ;;
  mret tt.

(** The handle [f] is outside the block and null or leads to a source. *)
Definition handle_source (f : Z) : Prop :=
  away f ∧ away (f + 8) ∧ (word m0 f ≠ (-1)%Z →
    away (f + word m0 f) ∧ Src (word m0 (f + 8)) (f + word m0 f + 4)).

(** The member handle of the object at [c], assigned from [f]: it leads to the
    new objects [news2], a copy, or there was no room and nothing is left. *)
Definition handle_filled A news pend (c o st f : Z) (r : outcome unit) A' : Prop :=
  kept (member_at c (HandleAt o st)) A A' (dom news ∪ pend) ∧
  (r = Ret tt ∧ (∃ news2, heap_inv C A' news2 (dom news ∪ pend) (handle_refs (mem A') (c + 8 + o)) ∧
     (∀ d, d ∈ dom news2 → word (mem A') (d + 4) ≠ 0%Z) ∧
     (∃ rank2 : Z → nat, ∀ d j t l, news2 !! d = Some j → (t, l) ∈ object_refs C (mem A') (d, j) →
        rank2 d < rank2 (t - 4)%Z) ∧
     ∀ d, handle_copied (mem A') m0 (copied (mem A') m0 d) (c + 8 + o) f) ∨
   r = NotEnoughSpace ∧ heap_inv C A' ∅ (dom news ∪ pend) [] ∧ word (mem A') (c + 8 + o) = (-1)%Z).

Lemma filled_ok n copy A1 A2 news pend rs c i o st f j p :
  copy_ok n copy → here A1 → hosted A1 news pend rs c i → HandleAt o st ∈ members C i →
  kept (λ _, False) A1 A2 (dom news ∪ pend) → heap_inv C A2 ∅ ({[(p - 4)%Z]} ∪ (dom news ∪ pend)) [] →
  ((p - 4)%Z ∉ dom news ∪ pend) → (8 + size_of C j ≤ word (mem A2) (p - 4))%Z →
  handle_source f → word m0 f ≠ (-1)%Z → word m0 (f + 8) = j →
  (len < 4 * (Z.of_nat (size (dom news ∪ pend)) + Z.of_nat (S n)))%Z →
  word (mem A1) (c + 8 + o + 8) = j →
  ∃ r A', fill copy (c + 8 + o) f p A2 = (r, A') ∧ handle_filled A1 news pend c o st f r A'.
Proof.
  intros Hcopy Hhere Hg Hm Hk12 Hinv2 Hfresh Hfit (Hao & _ & HS) Hnz Hsj Hcap Hj.
  destruct (HS Hnz) as [_ HSj]. rewrite Hsj in HSj.
  pose proof (deep_copy_ok n copy A1 A2 news pend c i o st _ j p Hcopy Hhere Hg Hm Hk12 Hinv2 Hfresh Hfit HSj Hcap Hj) as Hd.
  set (h := (c + 8 + o)%Z) in *. set (t := (f + word m0 f)%Z) in *. simpl in Hd.
  assert (o ∈ cells (HandleAt o st) ∧ (o + 8)%Z ∈ cells (HandleAt o st)) as [Ho Ho8] by (split; repeat constructor).
  pose proof (heap_inv_cells A1 news pend c i _ o Hg Hm Ho) as [Hh Hc]. fold h in Hh.
  pose proof (heap_inv_cells A1 news pend c i _ (o + 8) Hg Hm Ho8) as [Hh8 _].
  pose proof (here_frame _ _ Hhere (kp_frame _ _ _ _ Hk12)) as Hhere2.
  pose proof (heap_inv_forget _ _ _ _ (ho_inv _ _ _ _ _ _ Hg)) as Hinv1.
  pose proof (chunk_bounds Hinv1 c ltac:(set_solver)) as Hb.
  unfold fill, setOffset, store. run.
  set (A3 := set_mem A2 (<[h := (p - h)%Z]> (mem A2))) in *.
  assert (getTarget A3 h = p) as -> by (unfold getTarget, handle_offset, A3; simpl; rewrite word_insert_eq; lia).
  assert (typeInfo A3 h = j) as ->.
  { unfold typeInfo, A3. simpl. rewrite word_insert_ne by lia. rewrite (kp_words _ _ _ _ Hk12 c); [done|set_solver|lia|tauto]. }
  assert (getTarget A3 f = t) as ->.
  { unfold getTarget, handle_offset, A3. simpl. rewrite word_insert_ne, (he_words _ Hhere2); [done|done|].
    intros He. rewrite <- He in Hao. unfold away in Hao. rewrite <- (he_base _ Hhere), <- (he_bytes _ Hhere) in Hao. lia. }
  unfold setRefCount. pose proof (object_managed Hinv2 (p - 4) ltac:(set_solver)) as Hman. rewrite Z.sub_add in Hman.
  assert (isManaged A3 p = true) as -> by exact Hman. unfold store. run. unfold A3 at 1 2. rewrite set_mem_twice.
  cbn [mem set_mem]. unfold getObject, REF_COUNT_PREAMBLE_SIZE. set (A4 := set_mem A2 (<[p := 1%Z]> _)) in *.
  destruct Hd as (r & A5 & news2 & He & Hg2 & Hk15 & Hoff & Hnn & Hinfo & Hr). unfold catch. rewrite He.
  destruct Hr as [[-> Hcop]| ->].
  - eexists _, _. split; [done|]. split; [done|]. left. split; [done|]. exists news2. split_and!.
    + fold h. unfold handle_refs. rewrite Hoff, (proj2 (Z.eqb_neq _ _) Hnn), Hinfo.
      replace (h + (p - h))%Z with (p - 4 + 4)%Z by lia. apply Hg2.
    + apply Hg2.
    + destruct (gr_rank _ _ _ _ _ Hg2) as (rank & _ & Hrank). exists rank. intros d l u v Hd. by eapply Hrank.
    + intros d. fold h. unfold handle_copied. rewrite (proj2 (Z.eqb_neq _ _) Hnz), Hoff, Hinfo, Hsj.
      split_and!; [done|done|]. replace (h + (p - h) + 4)%Z with (p + 4)%Z by lia. apply Hcop.
  - run. unfold getTarget, handle_offset, typeInfo. rewrite Hoff, Hinfo.
    replace (h + (p - h))%Z with (p - 4 + 4)%Z by lia.
    destruct (grown_drop k A5 news2 (dom news ∪ pend) (p - 4) j Hg2) as (A6 & He6 & Hinv6 & Hk56).
    { rewrite (he_bytes A5); [lia|]. eapply here_frame; [exact Hhere|apply (kp_frame _ _ _ _ Hk15)]. }
    rewrite He6. eexists _, _. split; [done|].
    assert (kept (member_at c (HandleAt o st)) A1 A6 (dom news ∪ pend)) as Hk16.
    { eapply kept_trans; [intros d Hd; by apply (extend_not_member Hg Hm)|exact Hk15|].
      eapply kept_weaken; [reflexivity| |exact Hk56]. tauto. }
    assert (word (mem A6) c = word (mem A1) c) as Hwc.
    { apply (kept_chunk _ _ _ _ c Hk16); [set_solver|lia|]. apply (extend_not_member Hg Hm). set_solver. }
    split; [|right; split_and!; [done| |apply word_insert_eq]].
    + eapply kept_trans; [intros d Hd; by apply (extend_not_member Hg Hm)|exact Hk16|].
      apply (kept_store _ A6 (dom news ∪ pend) _ c); [done|set_solver|lia|done|right; by exists o].
    + apply (store_pend A6 _ c); [done|set_solver|lia].
Qed.

Lemma handle_filled_trans A A1 news pend rs c i o st f r A' :
  hosted A news pend rs c i → HandleAt o st ∈ members C i →
  kept (member_at c (HandleAt o st)) A A1 (dom news ∪ pend) →
  handle_filled A1 news pend c o st f r A' → handle_filled A news pend c o st f r A'.
Proof.
  intros Hg Hm Hk1 [Hk2 Hr]. split; [|done]. eapply kept_trans; [|exact Hk1|exact Hk2].
  intros d Hd. by apply (extend_not_member Hg Hm).
Qed.

(** Assigning a null member handle from a handle outside the block: a deep
    copy. *)
Lemma Handle_assign_filled n copy A news pend rs c i o st f :
  copy_ok n copy → here A → hosted A news pend rs c i → HandleAt o st ∈ members C i →
  word (mem A) (c + 8 + o) = (-1)%Z → handle_source f →
  (len < 4 * (Z.of_nat (size (dom news ∪ pend)) + Z.of_nat (S n)))%Z →
  ∃ r A', Handle_assign C (decRefCount C k) copy (c + 8 + o) f A = (r, A') ∧
    handle_filled A news pend c o st f r A'.
Proof.
  intros Hcopy Hhere Hg Hm Hf Hsf Hcap. pose proof Hsf as (Hao & Hao8 & HS).
  assert (o ∈ cells (HandleAt o st) ∧ (o + 8)%Z ∈ cells (HandleAt o st)) as [Ho Ho8] by (split; repeat constructor).
  pose proof (he_words _ Hhere _ Hao) as Hso. pose proof (he_words _ Hhere _ Hao8) as Hso8.
  pose proof (heap_inv_cells A news pend c i _ o Hg Hm Ho) as [Hhb Hc].
  set (h := (c + 8 + o)%Z) in *.
  unfold Handle_assign, old_target, isNullPtr, handle_offset, typeInfo. rewrite Hf, Hso, Hso8. simpl.
  assert (member_at c (HandleAt o st) h ∧ member_at c (HandleAt o st) (h + 8)%Z) as [Hat Hat8].
  { split; [by exists o|exists (o + 8)%Z; split; [done|unfold h; lia]]. }
  destruct (Z.eqb_spec (word m0 f) (-1)) as [Hz|Hz].
  - unfold setOffset, store. run. eexists _, _. split; [done|].
    destruct (assigned_store A news pend c i _ h (-1)%Z Hg Hm Hat) as [Hinv' Hk']. split; [done|].
    left. split; [done|]. exists ∅. unfold handle_refs, handle_copied. cbn [mem set_mem]. fold h.
    rewrite (proj2 (Z.eqb_eq _ _) Hz), word_insert_eq. split_and!; [done|set_solver| |done].
    exists (λ _, 0). intros d j t l Hd. by rewrite lookup_empty in Hd.
  - destruct (HS Hz) as [Hta HSj].
    set (j := word m0 (f + 8)) in *. set (t := (f + word m0 f)%Z) in *.
    destruct (assigned_store A news pend c i _ (h + 8)%Z j Hg Hm Hat8) as [Hinv1 Hk1].
    unfold setTypeInfo, store. run. set (A1 := set_mem A (<[(h + 8)%Z := j]> (mem A))) in *.
    pose proof (here_frame A A1 Hhere (kp_frame _ _ _ _ Hk1)) as Hhere1.
    assert (word (mem A1) h = (-1)%Z) as Hf1 by (unfold A1; simpl; rewrite word_insert_ne by lia; exact Hf).
    assert (hosted A1 news pend rs c i) as Hg1.
    { split; [|apply Hg]. rewrite <- (map_union_empty news).
      assert (member_refs (mem A) (c + 8) (HandleAt o st) = []) as Hn by by apply (fresh_refs _ _ (HandleAt o st)).
      assert (member_refs (mem A1) (c + 8) (HandleAt o st) = []) as Hn1 by by apply (fresh_refs _ _ (HandleAt o st)).
      apply (extend_inv Hg Hm Hn Hk1). by rewrite Hn1. }
    assert (getTarget A1 f = t) as Ht1.
    { unfold getTarget, handle_offset. rewrite (he_words _ Hhere1) by done. done. }
    rewrite Ht1, (away_contains A1 t Hhere1 Hta).
    assert (contains A1 h = true) as ->.
    { pose proof (chunk_bounds Hinv1 c ltac:(set_solver)) as Hb.
      assert (word (mem A1) c = word (mem A) c) as Hwc by (unfold A1; simpl; apply word_insert_ne; lia).
      unfold contains. rewrite (proj2 (Z.leb_le _ _)), (proj2 (Z.ltb_lt _ _)) by lia. done. }
    cbn [negb andb].
    assert (word (mem A1) (h + 8) = j) as Hj by apply word_insert_eq. rewrite Hj.
    pose proof (getRAM_ok A1 (dom news ∪ pend) (REF_COUNT_PREAMBLE_SIZE + size_of C j) Hinv1) as Halloc.
    pose proof (so_size Hsrc _ _ HSj). pose proof (size_of_nonneg j). rewrite M_bind_unfold.
    destruct (getRAM _ A1) as [rr A2].
    assert (numBytes (myState A1) < u32_modulus)%Z as Hn1 by (rewrite (he_bytes _ Hhere1); done).
    specialize (Halloc Hn1 ltac:(unfold REF_COUNT_PREAMBLE_SIZE; lia) (he_throw _ Hhere1)).
    destruct rr as [p| | |]; [|subst A2|done..].
    2:{ eexists _, _. split; [done|]. split; [done|by right]. }
    destruct Halloc as (Hp & Hinv2 & Hfresh & Hfit & Hk12). rewrite (proj2 (Z.eqb_neq p 0)) by lia.
    destruct (filled_ok n copy A1 A2 news pend rs c i o st f j p) as (r & A' & He & Hr); try done.
    { unfold REF_COUNT_PREAMBLE_SIZE in Hfit. lia. }
    exists r, A'. split; [exact He|]. by eapply handle_filled_trans.
Qed.

Lemma Handle_assign_ok n copy A news pend c i o st s :
  copy_ok n copy → here A → grown A news pend c i → HandleAt o st ∈ members C i →
  fresh (mem A) (c + 8) (HandleAt o st) → Src i s →
  (len < 4 * (Z.of_nat (size (dom news ∪ pend)) + Z.of_nat (S n)))%Z →
  ∃ r A', Handle_assign C (decRefCount C k) copy (c + 8 + o) (s + o) A = (r, A') ∧
    assigned A news pend c i s (HandleAt o st) r A'.
Proof.
  intros Hcopy Hhere Hg Hm Hf HS Hcap. pose proof (fresh_refs _ _ _ Hf) as Hnone.
  assert (∀ x, x ∈ cells (HandleAt o st) → away (s + x)) as Hs.
  { intros x Hx. eapply (so_away Hsrc); [done|]. by eapply members_bounds. }
  destruct (Handle_assign_filled n copy A news pend _ c i o st (s + o) Hcopy Hhere Hg Hm Hf) as (r & A' & He & Hk' & Hr); [|done|].
  { split_and!; [apply Hs; constructor|rewrite <- Z.add_assoc; apply Hs; repeat constructor|].
    intros Hz. by apply (so_handle Hsrc i s o st HS Hm). }
  exists r, A'. split; [done|]. destruct Hr as [(-> & news2 & Hinv2 & Hcount & Hrank & Hcop)|(-> & Hinv' & Hf')].
  - exists (news ∪ news2). split_and!; [|rewrite dom_union_L; set_solver|done|by left].
    by eapply grown_extend.
  - eapply assigned_intro; try done; [|by right]. by apply (fresh_refs _ _ (HandleAt o st)).
Qed.

(** ** Strings *)

Lemma negative_info i : (i < 0)%Z → members C i = [] ∧ size_of C i = (- i)%Z.
Proof.
  intros Hi. unfold members, size_of, String_TYPEID, Handle_TYPEID.
  rewrite (proj2 (Z.eqb_neq i 1)), (proj2 (Z.eqb_neq i 2)), (proj2 (Z.ltb_ge 0 i)) by lia. done.
Qed.

(** The characters of a long string in a chunk of their own. *)
Lemma string_filled A1 A2 news pend c i o s p info m' :
  here A1 → grown A1 news pend c i → StringAt o ∈ members C i →
  member_refs (mem A1) (c + 8) (StringAt o) = [] →
  kept (member_at c (StringAt o)) A1 A2 (dom news ∪ pend) →
  heap_inv C A2 ∅ ({[(p - 4)%Z]} ∪ (dom news ∪ pend)) [] →
  ((p - 4)%Z ∉ dom news ∪ pend) → (8 - info ≤ word (mem A2) (p - 4))%Z →
  (info < -1)%Z → word m0 (s + o + 8) = info → word m0 (s + o) ≠ (-1)%Z →
  let h := (c + 8 + o)%Z in
  let t := (s + o + word m0 (s + o))%Z in
  (∀ q, word m' q =
    if decide (q = h + 8)%Z then info else if decide (0 ≤ q - (p + 4) < - info)%Z then word m0 (t + 4 + (q - (p + 4)))%Z
    else if decide (q = p) then 1 else if decide (q = h) then p - h else word (mem A2) q)%Z →
  assigned A1 news pend c i s (StringAt o) (Ret tt) (set_mem A2 m').
Proof.
  intros Hhere Hg Hm Hnone Hk12 Hinv2 Hfresh Hfit Hinfo Hs8 Hs h t Hm'.
  set (pend2 := dom news ∪ pend) in *. set (c2 := (p - 4)%Z) in *.
  assert (o ∈ cells (StringAt o) ∧ (o + 8)%Z ∈ cells (StringAt o)) as [Ho Ho8] by (split; repeat constructor).
  pose proof (heap_inv_cells A1 news pend c i _ o Hg Hm Ho) as [Hh Hc]. fold h in Hh.
  pose proof (heap_inv_cells A1 news pend c i _ (o + 8) Hg Hm Ho8) as [Hh8 _].
  replace (c + 8 + (o + 8))%Z with (h + 8)%Z in Hh8 by lia.
  assert (c ∈ pend2) as Hcp by (unfold pend2; set_solver).
  assert (word (mem A2) c = word (mem A1) c) as Hwc.
  { apply (kept_chunk _ _ _ _ c Hk12); [done|lia|]. by apply (extend_not_member Hg Hm). }
  assert (∀ q, (c ≤ q < c + word (mem A1) c)%Z → ¬ (c2 ≤ q < c2 + word (mem A2) c2)%Z) as Hsep.
  { intros q Hq1 Hq2. assert (c = c2) as ->; [|done]. apply (chunk_unique Hinv2 c c2 q); [set_solver|set_solver|lia|lia]. }
  pose proof (Hsep h ltac:(lia)) as Hsh. pose proof (Hsep (h + 8)%Z ltac:(lia)) as Hsh8.
  pose proof (Hsep (h - 1)%Z ltac:(lia)) as Hshm.
  assert (p = c2 + 4)%Z as Hp by (unfold c2; lia).
  destruct (payload_change (member_at c (StringAt o)) A2 ({[c2]} ∪ pend2) pend2 m' Hinv2 ltac:(set_solver)) as [Hinv' Hk'].
  { intros q Hq. rewrite Hm' in Hq. repeat case_decide; try done.
    - exists c. split_and!; [set_solver|lia|lia|right; exists (o + 8)%Z; split; [done|unfold h in *; lia]].
    - exists c2. split_and!; [set_solver|lia|lia|by left].
    - exists c2. split_and!; [set_solver|lia|lia|by left].
    - exists c. split_and!; [set_solver|lia|lia|right; exists o; split; [done|unfold h in *; lia]]. }
  assert (word m' h = p - h ∧ word m' (h + 8) = info ∧ word m' p = 1)%Z as (Hwh & Hwh8 & Hwp).
  { rewrite !Hm'. repeat case_decide; try done; lia. }
  assert (handle_refs m' h = [(c2 + 4, info)%Z]) as Hrefs.
  { unfold handle_refs. rewrite Hwh, Hwh8, (proj2 (Z.eqb_neq _ _)) by lia. do 2 f_equal. lia. }
  destruct (negative_info info) as [Hmem Hsz]; [lia|].
  exists (news ∪ {[c2 := info]}). split_and!.
  - apply (grown_extend Hg Hm Hnone); [|cbn [mem set_mem member_refs]; fold h|..].
    + eapply kept_trans; [intros d Hd; by apply (extend_not_member Hg Hm)|exact Hk12|exact Hk'].
    + rewrite Hwh8, (proj2 (Z.ltb_lt _ _)), Hrefs by done.
      apply heap_inv_singleton; [done|done|by rewrite <- Hp| |by unfold object_refs; simpl; rewrite Hmem].
      simpl. rewrite Hsz, Hm'. repeat case_decide; lia.
    + intros d Hd. rewrite dom_singleton_L in Hd. apply elem_of_singleton in Hd as ->. simpl. rewrite <- Hp. lia.
    + exists (λ _, 0). intros d j u v [<- <-]%lookup_singleton_Some Hr. unfold object_refs in Hr. simpl in Hr.
      rewrite Hmem in Hr. by apply elem_of_nil in Hr.
  - rewrite dom_union_L. set_solver.
  - eapply kept_trans; [intros d Hd; by apply (extend_not_member Hg Hm)|exact Hk12|exact Hk'].
  - left. split; [done|]. intros d. cbn [mem set_mem member_copied]. fold h. rewrite Hwh8, Hs8. split; [done|].
    rewrite (proj2 (Z.ltb_lt info (-1))) by lia. unfold handle_copied. fold h.
    rewrite (proj2 (Z.eqb_neq _ _) Hs), Hwh, Hwh8, Hs8. split_and!; [lia|done|].
    fold t. replace (h + (p - h) + 4)%Z with (p + 4)%Z by lia. destruct d as [|d]; [done|]. simpl.
    rewrite (proj2 (Z.ltb_ge 0 info)) by lia. intros x Hx. rewrite Hm'.
    replace (p + 4 + x - (p + 4))%Z with x by lia. repeat case_decide; try done; lia.
Qed.

Lemma memmove_eq t s n A :
  memmove t s n A = (Ret tt, set_mem A (foldl (λ m d, <[(t + d)%Z := word (mem A) (s + d)]> m) (mem A) (seqZ 0 n))).
Proof. done. Qed.

Lemma elem_of_seqZ_0 n d : d ∈ seqZ 0 n ↔ (0 ≤ d < n)%Z.
Proof. rewrite elem_of_seqZ. lia. Qed.

(** What the long branch of [String_assign] does once the space [p] is
    there. *)
Definition fill_string (copy : Z → Z → Z → M Allocator unit) (h s len p : Z) : M Allocator unit :=
  (q ← (store (getObject p) 0 ;; setRefCount p 0 ;; mret p);
   Handle_assign_object C (decRefCount C k) copy true h CHAR_INFO q ;;
   A2 ← get;
   if isNullPtr A2 h then lift Undefined
   else memmove (c_str A2 h) (c_str A2 s) len) ;;
  A3 ← get;
  setTypeInfo h (typeInfo A3 s).

Lemma fill_string_eq copy A h s info p t :
  (0 < p)%Z → isManaged A p = true → contains A p = true → (1 < - info)%Z →
  handle_offset A h = (-1)%Z → (p - h ≠ -1)%Z → typeInfo A s = info → getTarget A s = t →
  (∀ q x, q = s ∨ q = (s + 8)%Z ∨ q = (t + 4 + x)%Z ∧ (0 ≤ x < - info)%Z →
    q ≠ h ∧ q ≠ (h + 8)%Z ∧ ¬ (p ≤ q < p + 4 - info)%Z) →
  ¬ (p ≤ h < p + 4 - info)%Z → ¬ (p ≤ h + 8 < p + 4 - info)%Z →
  ∃ m', fill_string copy h s (- info) p A = (Ret tt, set_mem A m') ∧
    ∀ q, word m' q =
      if decide (q = h + 8)%Z then info else if decide (0 ≤ q - (p + 4) < - info)%Z then word (mem A) (t + 4 + (q - (p + 4)))%Z
      else if decide (q = p) then 1%Z else if decide (q = h) then (p - h)%Z else word (mem A) q.
Proof.
  intros Hp Hman Hcont Hinfo Hoff Hnn Hs8 Hst Hsep Hh Hh8.
  assert (s ≠ h ∧ s ≠ h + 8 ∧ ¬ (p ≤ s < p + 4 - info))%Z as (Hs1 & Hs2 & Hs3).
  { destruct (Hsep s 0%Z) as (? & ? & ?); [by left|done]. }
  assert (s + 8 ≠ h ∧ s + 8 ≠ h + 8 ∧ ¬ (p ≤ s + 8 < p + 4 - info))%Z as (Hs4 & Hs5 & Hs6).
  { destruct (Hsep (s + 8)%Z 0%Z) as (? & ? & ?); [by right; left|done]. }
  unfold fill_string, getObject, REF_COUNT_PREAMBLE_SIZE, store. run.
  unfold setRefCount. set (B1 := set_mem A _).
  assert (isManaged B1 p = true) as -> by exact Hman. unfold store. run. set (B2 := set_mem B1 _).
  unfold Handle_assign_object, old_target, isNullPtr.
  assert (handle_offset B2 h = (-1)%Z) as ->.
  { unfold handle_offset, B2, B1. simpl. rewrite !word_insert_ne by lia. exact Hoff. }
  unfold setTypeInfo, store. run. set (B3 := set_mem B2 _). rewrite (proj2 (Z.eqb_neq p 0)) by lia.
  assert (contains B3 p = true) as -> by exact Hcont. cbn [negb andb]. unfold setOffset, store. run.
  set (B4 := set_mem B3 _).
  assert (getTarget B4 h = p) as -> by (unfold getTarget, handle_offset, B4; simpl; rewrite word_insert_eq; lia).
  unfold incRefCount. assert (isManaged B4 p = true) as -> by exact Hman. unfold store. run.
  assert (NUM_COPIES B4 p = 0%Z) as ->.
  { unfold NUM_COPIES, B4, B3, B2. simpl. rewrite !word_insert_ne by lia. apply word_insert_eq. }
  change (u32 (0 + 1)) with 1%Z. set (B5 := set_mem B4 _).
  assert (handle_offset B5 h = (p - h)%Z) as Ho5.
  { unfold handle_offset, B5, B4. simpl. rewrite word_insert_ne by lia. apply word_insert_eq. }
  change (-1 =? -1)%Z with true. cbn [dec_old]. run.
  rewrite Ho5, (proj2 (Z.eqb_neq (p - h) (-1))) by lia.
  assert (∀ q, q ≠ h → q ≠ (h + 8)%Z → ¬ (p ≤ q < p + 4 - info)%Z → word (mem B5) q = word (mem A) q) as Hq.
  { intros q H1 H2 H3. unfold B5, B4, B3, B2, B1. simpl. rewrite !word_insert_ne by lia. done. }
  assert (c_str B5 h = p + 4)%Z as ->.
  { unfold c_str, is_short, typeInfo, getTarget. rewrite Ho5. unfold B5, B4, B3. simpl.
    rewrite !word_insert_ne by lia. rewrite word_insert_eq. simpl. unfold getObject, REF_COUNT_PREAMBLE_SIZE. lia. }
  assert (c_str B5 s = t + 4)%Z as ->.
  { unfold c_str, is_short, typeInfo, getTarget, handle_offset. rewrite !Hq by done.
    unfold typeInfo, getTarget, handle_offset in Hs8, Hst. rewrite Hs8, Hst.
    rewrite (proj2 (Z.leb_gt 0 info)) by lia. done. }
  rewrite memmove_eq. run. eexists. split; [done|]. intros q. cbn [mem set_mem].
  unfold typeInfo. cbn [mem set_mem]. rewrite word_insert, !(foldl_insert_word (λ d, word (mem B5) (t + 4 + d))%Z).
  destruct (decide (q = h + 8)%Z) as [->|Hne].
  - rewrite decide_True, decide_False by (done || rewrite elem_of_seqZ_0; lia). rewrite Hq by done. exact Hs8.
  - rewrite decide_False by lia. destruct (decide (0 ≤ q - (p + 4) < - info)%Z) as [Hin|Hin].
    + rewrite decide_True by by apply elem_of_seqZ_0. apply Hq; by apply (Hsep _ (q - (p + 4))%Z); right; right.
    + rewrite decide_False by by rewrite elem_of_seqZ_0.
      unfold B5, B4, B3, B2, B1. simpl. rewrite !word_insert. repeat case_decide; try done; lia.
Qed.

Lemma string_long_ok copy A1 news pend c i o s :
  here A1 → grown A1 news pend c i → StringAt o ∈ members C i →
  word (mem A1) (c + 8 + o) = (-1)%Z → member_refs (mem A1) (c + 8) (StringAt o) = [] →
  Src i s → (word m0 (s + o + 8) < 0)%Z →
  ∃ r A', ((p ← makeObjectWithExtraStorage_char (- word m0 (s + o + 8) - 1);
      Handle_assign_object C (decRefCount C k) copy true (c + 8 + o) CHAR_INFO p ;;
      A2 ← get;
      if isNullPtr A2 (c + 8 + o) then lift Undefined
      else memmove (c_str A2 (c + 8 + o)) (c_str A2 (s + o)) (- word m0 (s + o + 8))) ;;
     A3 ← get;
     setTypeInfo (c + 8 + o) (typeInfo A3 (s + o))) A1 = (r, A') ∧
    assigned A1 news pend c i s (StringAt o) r A'.
Proof.
  intros Hhere Hg Hm Hoff Hnone HS Hneg. set (info := word m0 (s + o + 8)) in *.
  destruct (so_string Hsrc i s o HS Hm Hneg) as (Hinfo & Hnn & Hta & HSj). fold info in Hinfo, HSj.
  set (t := (s + o + word m0 (s + o))%Z) in *. destruct (negative_info info) as [_ Hsz]; [lia|].
  pose proof (so_size Hsrc _ _ HSj) as Hmax. rewrite Hsz in Hmax.
  pose proof (heap_inv_forget _ _ _ _ (gr_inv _ _ _ _ _ Hg)) as Hinv1.
  assert (o ∈ cells (StringAt o) ∧ (o + 8)%Z ∈ cells (StringAt o)) as [Ho Ho8] by (split; repeat constructor).
  pose proof (heap_inv_cells A1 news pend c i _ o Hg Hm Ho) as [Hhb Hc].
  pose proof (heap_inv_cells A1 news pend c i _ (o + 8) Hg Hm Ho8) as [Hhb8 _].
  set (h := (c + 8 + o)%Z) in *. rewrite M_bind_unfold. rewrite M_bind_unfold. unfold makeObjectWithExtraStorage_char at 1. rewrite M_bind_unfold.
  pose proof (getRAM_ok A1 (dom news ∪ pend) (- info - 1 + 1 + REF_COUNT_PREAMBLE_SIZE) Hinv1) as Halloc.
  destruct (getRAM _ A1) as [rr A2].
  assert (numBytes (myState A1) < u32_modulus)%Z as Hn1 by (rewrite (he_bytes _ Hhere); done).
  specialize (Halloc Hn1 ltac:(unfold REF_COUNT_PREAMBLE_SIZE; lia) (he_throw _ Hhere)).
  destruct rr as [p| | |]; [|subst A2|done..].
  2:{ eexists _, _. split; [done|]. eapply assigned_intro; try done; [apply kept_refl|by right]. }
  destruct Halloc as (Hp & Hinv2 & Hfresh & Hfit & Hk12). rewrite (proj2 (Z.eqb_neq p 0)) by lia.
  pose proof (here_frame _ _ Hhere (kp_frame _ _ _ _ Hk12)) as Hhere2.
  pose proof (object_managed Hinv2 (p - 4) ltac:(set_solver)) as Hman.
  pose proof (object_contained Hinv2 (p - 4) ltac:(set_solver)) as Hcont. rewrite Z.sub_add in Hman, Hcont.
  pose proof (chunk_bounds Hinv2 (p - 4) ltac:(set_solver)) as Hb2. pose proof (chunk_bounds Hinv2 c ltac:(set_solver)) as Hbc.
  assert (word (mem A2) c = word (mem A1) c) as Hwc by (apply (kept_chunk _ _ _ _ c Hk12); [set_solver|lia|tauto]).
  assert (∀ q, (c ≤ q < c + word (mem A1) c)%Z → ¬ (p - 4 ≤ q < p - 4 + word (mem A2) (p - 4))%Z) as Hsep.
  { intros q Hq1 Hq2. assert (c = p - 4)%Z as ->; [|set_solver].
    apply (chunk_unique Hinv2 c (p - 4) q); [set_solver|set_solver|lia|lia]. }
  assert (∀ x, x ∈ cells (StringAt o) → away (s + x)) as Hs by (intros x Hx; eapply (so_away Hsrc); [done|by eapply members_bounds]).
  pose proof (Hs o Ho) as Hao. pose proof (Hs _ Ho8) as Hao8. rewrite Z.add_assoc in Hao8.
  destruct Hhere2 as [Hlo2 Hlen2 _ Hw2]. unfold REF_COUNT_PREAMBLE_SIZE in Hfit.
  pose proof (Hsep (h - 1)%Z ltac:(lia)). pose proof (Hsep h ltac:(lia)). pose proof (Hsep (h + 8)%Z ltac:(lia)).
  destruct (fill_string_eq copy A2 h (s + o) info p t) as (m' & He & Hm'); try done; try lia.
  - unfold handle_offset. rewrite (kp_words _ _ _ _ Hk12 c); [done|set_solver|lia|tauto].
  - unfold typeInfo. by rewrite Hw2.
  - unfold getTarget, handle_offset. by rewrite Hw2.
  - intros q x Hq. assert (away q) as Ha.
    { destruct Hq as [->|[->|[-> Hx]]]; [done|done|]. eapply (so_away Hsrc); [exact HSj|]. by rewrite Hsz. }
    unfold away in Ha. rewrite <- Hlo2, <- Hlen2 in Ha. lia.
  - exists (Ret tt), (set_mem A2 m'). split; [exact He|].
    apply (string_filled A1 A2 news pend c i o s p info m'); try done; [|lia|].
    + eapply kept_weaken; [reflexivity| |exact Hk12]. tauto.
    + intros q. rewrite Hm'. destruct (decide (q = h + 8)%Z) as [->|]; [by rewrite decide_True by done|].
      rewrite (decide_False (P := (q = c + 8 + o + 8)%Z)) by done.
      destruct (decide (0 ≤ q - (p + 4) < - info)%Z); [|done]. apply Hw2. eapply (so_away Hsrc); [exact HSj|]. by rewrite Hsz.
Qed.

Lemma String_assign_ok copy A news pend c i o s :
  here A → grown A news pend c i → StringAt o ∈ members C i → fresh (mem A) (c + 8) (StringAt o) → Src i s →
  ∃ r A', String_assign C (decRefCount C k) copy (c + 8 + o) (s + o) A = (r, A') ∧
    assigned A news pend c i s (StringAt o) r A'.
Proof.
  intros Hhere Hg Hm Hf HS. pose proof (fresh_refs _ _ _ Hf) as Hnone. simpl in Hf.
  assert (o ∈ cells (StringAt o) ∧ (o + 8)%Z ∈ cells (StringAt o)) as [Ho Ho8] by (split; repeat constructor).
  assert (∀ x, x ∈ cells (StringAt o) → away (s + x) ∧ word (mem A) (s + x) = word m0 (s + x)) as Hs.
  { intros x Hx. assert (away (s + x)) as Ha by (eapply (so_away Hsrc); [done|by eapply members_bounds]).
    split; [done|]. by apply (he_words _ Hhere). }
  destruct (Hs o Ho) as [Hao Hso]. destruct (Hs _ Ho8) as [Hao8 Hso8]. rewrite Z.add_assoc in Hao8, Hso8.
  pose proof (heap_inv_cells A news pend c i _ o Hg Hm Ho) as [Hhb Hc].
  pose proof (heap_inv_cells A news pend c i _ (o + 8) Hg Hm Ho8) as [Hhb8 _].
  pose proof (chunk_bounds (gr_inv _ _ _ _ _ Hg) c ltac:(set_solver)) as Hb.
  assert (∀ q, away q → q ≠ c + 8 + o ∧ q ≠ c + 8 + o + 8)%Z as Hdis.
  { intros q Hq. unfold away in Hq. rewrite <- (he_base _ Hhere), <- (he_bytes _ Hhere) in Hq. lia. }
  destruct (Hdis _ Hao) as [Hne1 Hne2]. destruct (Hdis _ Hao8) as [Hne3 Hne4].
  assert (member_at c (StringAt o) (c + 8 + o)%Z) as Hat by by exists o.
  destruct (assigned_store A news pend c i _ _ (-1)%Z Hg Hm Hat) as [Hinv1 Hk1].
  unfold String_assign. rewrite (proj2 (Z.eqb_neq (c + 8 + o) (s + o))) by lia.
  assert (is_short A (s + o) = (0 <=? word m0 (s + o + 8))%Z) as Hshort by (unfold is_short, typeInfo; by rewrite Hso8).
  assert (is_short A (c + 8 + o) = true) as Hsh by (unfold is_short, typeInfo; by rewrite Hf).
  rewrite Hshort, Hsh. destruct (Z.leb_spec 0 (word m0 (s + o + 8))) as [Hpos|Hneg].
  - unfold setOffset, setTypeInfo, store. run. unfold handle_offset, typeInfo. cbn [mem set_mem].
    rewrite word_insert_ne, Hso, Hso8 by lia. eexists _, _. split; [done|]. rewrite set_mem_twice.
    destruct (payload_change (member_at c (StringAt o)) A (dom news ∪ pend) (dom news ∪ pend)
      (<[(c + 8 + o + 8)%Z := word m0 (s + o + 8)]> (<[(c + 8 + o)%Z := word m0 (s + o)]> (mem A)))
      (heap_inv_forget _ _ _ _ (gr_inv _ _ _ _ _ Hg)) ltac:(done)) as [Hinv' Hk'].
    { intros q. rewrite !word_insert. intros Hq. exists c. split; [set_solver|].
      repeat case_decide; try done; (split; [lia|right]); [exists (o + 8)%Z|exists o]; (split; [done|lia]). }
    eapply assigned_intro; try done; simpl.
    + rewrite word_insert_eq, (proj2 (Z.ltb_ge _ _)) by lia. done.
    + left. split; [done|]. intros d. rewrite word_insert_eq. split; [done|].
      rewrite (proj2 (Z.ltb_ge _ _)) by lia. rewrite word_insert_ne by lia. apply word_insert_eq.
  - set (A1 := set_mem A (<[(c + 8 + o)%Z := (-1)%Z]> (mem A))) in *.
    assert (word (mem A1) (c + 8 + o + 8) = 1%Z) as Hf1 by (unfold A1; simpl; rewrite word_insert_ne by lia; exact Hf).
    pose proof (fresh_refs (mem A1) (c + 8) (StringAt o) Hf1) as Hnone1.
    assert (grown A1 news pend c i) as Hg1 by by eapply grown_member.
    pose proof (here_frame A A1 Hhere (kp_frame _ _ _ _ Hk1)) as Hhere1.
    destruct (string_long_ok copy A1 news pend c i o s) as (r & A' & He & Hr); try done; [apply word_insert_eq|].
    exists r, A'. split.
    + rewrite <- He. unfold setOffset, store. run. fold A1. unfold String_size, is_short, typeInfo. 
      rewrite (he_words _ Hhere1), (proj2 (Z.leb_gt 0 _)) by (done || lia). done.
    + destruct Hr as (news' & Hg' & Hsub & Hk' & Hr). exists news'. split_and!; try done.
      eapply kept_trans; [intros d Hd; by apply (extend_not_member Hg Hm)|exact Hk1|exact Hk'].
Qed.

(** ** Members in order *)

Lemma assign_member_ok n copy A news pend c i mem0 s :
  copy_ok n copy → here A → grown A news pend c i → mem0 ∈ members C i →
  fresh (mem A) (c + 8) mem0 → Src i s →
  (len < 4 * (Z.of_nat (size (dom news ∪ pend)) + Z.of_nat (S n)))%Z →
  ∃ r A', assign_member C (decRefCount C k) copy (c + 8) s mem0 A = (r, A') ∧
    assigned A news pend c i s mem0 r A'.
Proof.
  intros Hcopy Hhere Hg Hm Hf HS Hcap. destruct mem0 as [o|o st|o].
  - simpl. unfold store. run. eexists _, _. split; [done|].
    destruct (assigned_store A news pend c i (Scalar o) (c + 8 + o)%Z (word (mem A) (s + o)) Hg Hm) as [Hinv' Hk'].
    { exists o. split; [constructor|done]. }
    eapply assigned_intro; try done. left. split; [done|]. intros d. simpl. rewrite word_insert_eq.
    apply (he_words _ Hhere). eapply (so_away Hsrc); [done|]. eapply members_bounds; [exact Hm|constructor].
  - by eapply Handle_assign_ok.
  - by eapply String_assign_ok.
Qed.

(** A member stays a copy while its cells and what it leads to do. *)
Lemma member_copied_ext (Q Q' : Z → Z → Z → Prop) m m' a s mem0 :
  (∀ x, x ∈ cells mem0 → word m' (a + x) = word m (a + x)) →
  (∀ t l s', (t, l) ∈ member_refs m a mem0 → Q l (t + 4)%Z s' → Q' l (t + 4)%Z s') →
  member_copied m m0 Q a s mem0 → member_copied m' m0 Q' a s mem0.
Proof.
  intros Hx HQ.
  assert (∀ o h', (∀ r, r ∈ handle_refs m (a + o) → r ∈ member_refs m a mem0) →
    word m' (a + o) = word m (a + o) → word m' (a + o + 8) = word m (a + o + 8) →
    handle_copied m m0 Q (a + o) h' → handle_copied m' m0 Q' (a + o) h') as Hh.
  { intros o h' Hr H1 H2. unfold handle_copied, handle_refs in *. destruct (word m0 h' =? -1)%Z; [congruence|].
    intros (Hn & Hi & Hcp). rewrite H1, H2. split_and!; [done|done|].
    rewrite (proj2 (Z.eqb_neq _ _) Hn) in Hr. rewrite <- Hi in Hcp |- *.
    apply HQ; [|done]. apply Hr. constructor. }
  destruct mem0 as [o|o st|o]; simpl in *.
  - by rewrite Hx by constructor.
  - apply Hh; [done|apply Hx; constructor|]. rewrite <- Z.add_assoc. apply Hx. repeat constructor.
  - assert (word m' (a + o + 8) = word m (a + o + 8)) as H8 by (rewrite <- Z.add_assoc; apply Hx; repeat constructor).
    rewrite H8. intros [Hc8 Hcp]. split; [done|]. rewrite Hc8 in Hh, HQ.
    destruct (_ <? -1)%Z; [apply Hh; [done|apply Hx; constructor|done|done]|]. by rewrite Hx by constructor.
Qed.

Lemma member_object_refs m d j mem0 r :
  mem0 ∈ members C j → r ∈ member_refs m (d + 8) mem0 → r ∈ object_refs C m (d, j).
Proof.
  intros Hm Hr. unfold object_refs, refs_of. apply list_elem_of_join. exists (member_refs m (d + 8) mem0).
  split; [done|]. by apply list_elem_of_fmap_2.
Qed.

Lemma size_of_bytes j : (j ≤ 0)%Z → size_of C j = (- j)%Z.
Proof.
  intros Hj. unfold size_of, String_TYPEID, Handle_TYPEID.
  by rewrite (proj2 (Z.eqb_neq j 1)), (proj2 (Z.eqb_neq j 2)), (proj2 (Z.ltb_ge 0 j)) by lia.
Qed.

(** A copied object stays one while the objects it leads to, [P], are left
    alone. *)
Lemma copied_ext (P : gmap Z Z) m m' n d j s :
  (∀ d j t l, P !! d = Some j → (t, l) ∈ object_refs C m (d, j) → P !! (t - 4)%Z = Some l) →
  (∀ d j x, P !! d = Some j → (0 ≤ x < size_of C j)%Z → word m' (d + 8 + x) = word m (d + 8 + x)) →
  P !! d = Some j → copied m m0 n j (d + 8) s → copied m' m0 n j (d + 8) s.
Proof.
  intros Hclosed Hw. revert d j s. induction n as [|n IH]; intros d j s Hd; [done|]. simpl.
  destruct (Z.ltb_spec 0 j) as [Hj|Hj]; intros Hc.
  - intros mem0 Hm. eapply member_copied_ext, Hc; [| |done].
    + intros x Hx. apply Hw with j; [done|]. by eapply members_bounds.
    + intros t l s' Hr. replace (t + 4)%Z with (t - 4 + 8)%Z by lia. apply IH. eapply Hclosed; [done|].
      by eapply member_object_refs.
  - intros x Hx. rewrite (Hw d j) by (rewrite ?size_of_bytes; done). by apply Hc.
Qed.

Lemma member_copied_kept A A' news pend c i s mem0 mem1 d :
  grown A news pend c i → mem0 ∈ members C i → mem1 ∈ members C i →
  (∀ x, x ∈ cells mem1 → x ∉ cells mem0) → kept (member_at c mem0) A A' (dom news ∪ pend) →
  member_copied (mem A) m0 (copied (mem A) m0 d) (c + 8) s mem1 →
  member_copied (mem A') m0 (copied (mem A') m0 d) (c + 8) s mem1.
Proof.
  intros Hg Hm0 Hm1 Hsep Hk'. pose proof (gr_root _ _ _ _ _ Hg) as Hc. pose proof (gr_inv _ _ _ _ _ Hg) as Hinv.
  pose proof (gr_rank _ _ _ _ _ Hg) as (rank & Hr0 & Hrank).
  assert (∀ e j x, news !! e = Some j → (0 ≤ x < size_of C j)%Z → (e ≠ c ∨ x ∉ cells mem0) →
    word (mem A') (e + 8 + x) = word (mem A) (e + 8 + x)) as Hcell.
  { intros e j x He Hx Hne. pose proof (cell_place Hinv e j x He Hx) as Hp.
    apply (kp_words _ _ _ _ Hk' e); [by eapply object_live|lia|]. intros (y & Hy & Hey).
    pose proof (cell_place Hinv c i y Hc (members_bounds i mem0 y Hm0 Hy)).
    assert (e = c) as -> by (apply (chunk_unique Hinv e c (e + 8 + x)); [by eapply object_live..|lia|lia]).
    assert (x = y) as -> by lia. by destruct Hne. }
  assert (∀ e j t l, news !! e = Some j → (t, l) ∈ object_refs C (mem A) (e, j) → delete c news !! (t - 4)%Z = Some l) as Hin.
  { intros e j t l He Hr. apply lookup_delete_Some. split; [|by eapply object_refs_typed]. intros ->.
    pose proof (proj2 (Hrank _ _ He) t l Hr). rewrite Hr0 in *. lia. }
  apply member_copied_ext.
  - intros x Hx. apply Hcell with i; [done|by eapply members_bounds|right; by apply Hsep].
  - intros t l s' Hr. replace (t + 4)%Z with (t - 4 + 8)%Z by lia. apply (copied_ext (delete c news)).
    + intros e j u v [_ He]%lookup_delete_Some. by apply Hin.
    + intros e j x [Hne He]%lookup_delete_Some Hxb. apply Hcell with j; auto.
    + apply (Hin c i); [done|]. by eapply member_object_refs.
Qed.

Lemma assign_each_ok n copy c i s pend ms2 :
  copy_ok n copy → Src i s → ∀ ms1 A news,
  members C i = ms1 ++ ms2 → grown A news pend c i → here A →
  (∀ mem0, mem0 ∈ ms2 → fresh (mem A) (c + 8) mem0) →
  (∀ mem0 d, mem0 ∈ ms1 → member_copied (mem A) m0 (copied (mem A) m0 d) (c + 8) s mem0) →
  (len < 4 * (Z.of_nat (size (dom news ∪ pend)) + Z.of_nat (S n)))%Z →
  ∃ r A' news', each (assign_member C (decRefCount C k) copy (c + 8) s) ms2 A = (r, A') ∧
    grown A' news' pend c i ∧ kept (λ _, False) A A' pend ∧
    (r = Ret tt ∧ (∀ mem0 d, mem0 ∈ members C i → member_copied (mem A') m0 (copied (mem A') m0 d) (c + 8) s mem0) ∨
     r = NotEnoughSpace).
Proof.
  intros Hcopy HS. induction ms2 as [|mem0 ms2 IH]; intros ms1 A news Hms Hg Hhere Hfresh Hdone Hcap.
  { exists (Ret tt), A, news. split_and!; [done|done|apply kept_refl|]. left. split; [done|].
    intros mem0 d. rewrite Hms, app_nil_r. apply Hdone. }
  assert (mem0 ∈ members C i) as Hm by (rewrite Hms; set_solver).
  destruct (assign_member_ok n copy A news pend c i mem0 s Hcopy Hhere Hg Hm) as (r & A1 & He & news1 & Hg1 & Hsub & Hk1 & Hr);
    [by apply Hfresh; constructor|done|done|].
  pose proof (members_disjoint i) as Hnd. rewrite Hms, fmap_app, fmap_cons, join_app in Hnd. simpl in Hnd.
  apply NoDup_app in Hnd as (_ & Hsep1 & Hnd). apply NoDup_app in Hnd as (_ & Hsep2 & _).
  assert (∀ ms mem1 x, mem1 ∈ ms → x ∈ cells mem1 → x ∈ mjoin (cells <$> ms)) as Hjoin.
  { intros ms mem1 x Hm1 Hx. apply list_elem_of_join. exists (cells mem1). split; [done|]. by apply list_elem_of_fmap_2. }
  pose proof (chunk_bounds (gr_inv _ _ _ _ _ Hg)) as Hcb.
  assert (c ∉ pend) as Hcp.
  { intros Hcp. apply (hi_disjoint _ _ _ _ _ (gr_inv _ _ _ _ _ Hg) c); [|done].
    apply elem_of_dom. exists i. apply Hg. }
  assert (kept (λ _, False) A A1 pend) as Hk1'.
  { split; [apply (kp_frame _ _ _ _ Hk1)|]. intros d p Hd Hp _. apply (kp_words _ _ _ _ Hk1 d); [set_solver|done|].
    intros (x & Hx & ->). pose proof (heap_inv_cells A news pend c i mem0 x Hg Hm Hx) as [Hpl Hc].
    assert (c = d) as ->; [|done]. apply (chunk_unique (gr_inv _ _ _ _ _ Hg) c d (c + 8 + x)); [set_solver|set_solver|lia|lia]. }
  cbn [each]. rewrite M_bind_unfold, He. destruct Hr as [[-> Hcop]| ->].
  2:{ exists NotEnoughSpace, A1, news1. split_and!; [done|done|done|by right]. }
  destruct (IH (ms1 ++ [mem0]) A1 news1) as (r & A' & news' & He' & Hg' & Hk' & Hr).
  - by rewrite Hms, <- app_assoc.
  - done.
  - eapply here_frame; [exact Hhere|apply (kp_frame _ _ _ _ Hk1)].
  - intros mem1 Hm1. eapply fresh_ext; [|apply Hfresh; by constructor]. intros x Hx.
    pose proof (members_bounds i mem1 x ltac:(rewrite Hms; set_solver) Hx) as Hb.
    pose proof (gr_root _ _ _ _ _ Hg) as Hc. pose proof (cell_place (gr_inv _ _ _ _ _ Hg) c i x Hc Hb).
    apply (kp_words _ _ _ _ Hk1 c); [by eapply object_live|lia|]. intros (y & Hy & Hxy). assert (x = y) as -> by lia.
    apply (Hsep2 y Hy). by eapply Hjoin.
  - intros mem1 d [Hm1| ->%list_elem_of_singleton]%elem_of_app; [|by apply Hcop].
    eapply member_copied_kept; [exact Hg|exact Hm|rewrite Hms; set_solver| |exact Hk1|by apply Hdone].
    intros x Hx Hx0. apply (Hsep1 x); [by eapply Hjoin|]. apply elem_of_app. by left.
  - assert (size (dom news ∪ pend) ≤ size (dom news1 ∪ pend)); [apply subseteq_size; set_solver|lia].
  - exists r, A', news'. split_and!; [done|done| |done]. eapply kept_trans; [by intros d _ []|exact Hk1'|exact Hk'].
Qed.

(** ** The copy *)

Lemma copy_started A A1 pend c i m1 :
  heap_inv C A ∅ ({[c]} ∪ pend) [] → c ∉ pend → word (mem A) (c + 4) = 1%Z →
  (8 + size_of C i ≤ word (mem A) c)%Z → A1 = set_mem A m1 →
  (∀ p, word m1 p ≠ word (mem A) p → ∃ x, (0 ≤ x < size_of C i)%Z ∧ p = (c + 8 + x)%Z) →
  (∀ mem0, mem0 ∈ members C i → fresh m1 (c + 8) mem0) →
  grown A1 {[c := i]} pend c i ∧ kept (λ _, False) A A1 pend.
Proof.
  clear Hsrc Hlen Hk Src m0 lo len.
  intros Hinv Hcp Hone Hfit -> Hch Hfresh.
  destruct (payload_change (λ _, False) A ({[c]} ∪ pend) pend m1 Hinv ltac:(set_solver)) as [Hinv1 Hk1].
  { intros q Hq. destruct (Hch q Hq) as (x & Hx & ->). exists c. split_and!; [set_solver|lia|lia|by left]. }
  assert (word m1 (c + 4) = 1%Z ∧ word m1 c = word (mem A) c) as [Hone1 Hwc].
  { split; [rewrite <- Hone|]; match goal with |- word m1 ?p = _ => destruct (decide (word m1 p = word (mem A) p)) as [|Hne] end;
      try done; destruct (Hch _ Hne) as (x & Hx & He); lia. }
  assert (object_refs C m1 (c, i) = []) as Hrefs.
  { unfold object_refs, refs_of. simpl. revert Hfresh. generalize (members C i). intros ms Hfresh.
    induction ms as [|mem0 ms IH]; [done|]. simpl. rewrite (fresh_refs m1 (c + 8) mem0) by (apply Hfresh; constructor).
    apply IH. intros mem1 Hm1. apply Hfresh. by constructor. }
  split; [|done]. split.
  - apply heap_inv_singleton; [done|done|done|simpl; lia|done].
  - apply lookup_singleton_eq.
  - intros d Hd. rewrite dom_singleton_L in Hd. apply elem_of_singleton in Hd as ->. simpl. lia.
  - exists (λ _, 0). split; [done|]. intros d j [<- <-]%lookup_singleton_Some. split; [by left|].
    intros t l Hr. simpl in Hr. rewrite Hrefs in Hr. by apply elem_of_nil in Hr.
Qed.

Lemma setUpAndCopy_ok n : copy_ok n (setUpAndCopy C k n).
Proof.
  induction n as [|n IH]; intros A pend c i s Hinv Hcp Hone Hfit HS Hhere Hcap.
  { pose proof (live_capacity A _ (hi_block _ _ _ _ _ Hinv)) as Hl. rewrite (he_bytes _ Hhere), dom_empty_L, (left_id_L ∅ _) in Hl. lia. }
  cbn [setUpAndCopy]. destruct (Z.ltb_spec 0 i) as [Hi|Hi].
  - destruct (construct_each_ok (c + 8) (members C i) A (members_disjoint i)) as (m1 & He & Hfresh & Hch).
    destruct (copy_started A (set_mem A m1) pend c i m1) as [Hg1 Hk1]; try done.
    { intros p Hp. destruct (Hch p Hp) as (mem0 & x & Hm & Hx & ->). exists x. split; [by eapply members_bounds|done]. }
    destruct (assign_each_ok n (setUpAndCopy C k n) c i s pend (members C i) IH HS [] (set_mem A m1) {[c := i]})
      as (r & A' & news' & He' & Hg' & Hk' & Hr); try done.
    { eapply here_frame; [exact Hhere|apply (kp_frame _ _ _ _ Hk1)]. }
    { by intros mem0 d ?%elem_of_nil. }
    { by rewrite dom_singleton_L. }
    exists r, A', news'. split_and!; [|done|eapply kept_trans; [by intros d _ []|exact Hk1|exact Hk']|].
    + rewrite M_bind_unfold. unfold construct. rewrite He. exact He'.
    + destruct Hr as [[-> Hcop]| ->]; [left|by right]. split; [done|]. intros [|d]; [done|]. simpl.
      rewrite (proj2 (Z.ltb_lt 0 i)) by done. intros mem0 Hm. by apply Hcop.
  - rewrite memmove_eq. set (m1 := foldl _ _ _).
    assert (∀ q, word m1 q = if decide (0 ≤ q - (c + 8) < - i)%Z then word (mem A) (s + (q - (c + 8))) else word (mem A) q) as Hm1.
    { intros q. unfold m1. rewrite (foldl_insert_word (λ d, word (mem A) (s + d))%Z).
      destruct (decide (0 ≤ q - (c + 8) < - i)%Z); [rewrite decide_True|rewrite decide_False]; rewrite ?elem_of_seqZ_0; done. }
    destruct (copy_started A (set_mem A m1) pend c i m1) as [Hg1 Hk1]; try done.
    { intros p Hp. rewrite Hm1 in Hp. case_decide; [|done]. exists (p - (c + 8))%Z. rewrite size_of_bytes by lia. lia. }
    { intros mem0 Hm. exfalso. revert Hm. unfold members, String_TYPEID, Handle_TYPEID.
      rewrite (proj2 (Z.eqb_neq i 1)), (proj2 (Z.eqb_neq i 2)), (proj2 (Z.ltb_ge 0 i)) by lia. by intros ?%elem_of_nil. }
    eexists _, _, _. split_and!; [done|exact Hg1|exact Hk1|]. left. split; [done|]. intros [|d]; [done|]. simpl.
    rewrite (proj2 (Z.ltb_ge 0 i)) by done. intros x Hx. rewrite Hm1, decide_True by lia.
    replace (c + 8 + x - (c + 8))%Z with x by lia. apply (he_words _ Hhere). eapply (so_away Hsrc); [exact HS|].
    rewrite size_of_bytes by lia. done.
Qed.
End copying.
End heap.
