(* ===== verification/HandleAssign.v ===== *)
(** * HandleAssign: the promises of handles

    Theorems on the operations of [objectModel/headers/Handle.cc] and
    [InterfaceFunctions.cc] as a program uses them, after the three promises in
    the comment at the top of [Handle.h]: what a handle in a block points to
    lies in the block, handles are smart pointers, and a block can be moved. *)

From S2P Require Import Prelude Allocator Handle HandleHeap HandleCopy.

Implicit Types (A : Allocator) (m : gmap Z Z) (C : Classes) (objs news : gmap Z Z) (pend : gset Z)
  (rs : list (Z * Z)).

Section heap.
Context `{!ClassesOk C}.

(** ** Handles outside the block *)

(** The words of a handle outside the block. *)
Definition handle_outside A (h : Z) : Prop :=
  ∀ p, p = h ∨ p = (h + 8)%Z →
    (p < activeRAM (myState A) ∨ activeRAM (myState A) + numBytes (myState A) ≤ p)%Z.

Lemma heap_inv_outside A objs pend rs m' :
  heap_inv C A objs pend rs →
  (∀ p, word m' p ≠ word (mem A) p →
    (p < activeRAM (myState A) ∨ activeRAM (myState A) + numBytes (myState A) ≤ p)%Z) →
  heap_inv C (set_mem A m') objs pend rs.
Proof.
  intros Hinv Hch.
  assert (∀ d x, d ∈ dom objs ∪ pend → (0 ≤ x < word (mem A) d)%Z → word m' (d + x) = word (mem A) (d + x)) as Hw.
  { intros d x Hd Hx. destruct (decide (word m' (d + x) = word (mem A) (d + x)))%Z as [|Hne]; [done|].
    pose proof (Hch _ Hne). pose proof (chunk_bounds Hinv d Hd). lia. }
  assert (∀ d, d ∈ dom objs ∪ pend → word m' d = word (mem A) d ∧ word m' (d + 4) = word (mem A) (d + 4)) as Hd.
  { intros d Hd. pose proof (chunk_bounds Hinv d Hd). split; [|apply Hw; [done|lia]].
    rewrite <- (Z.add_0_r d). apply Hw; [done|lia]. }
  pose proof (hi_fits _ _ _ _ _ Hinv) as Hfit. destruct Hinv as [Hwf Hdis Hpol Hfits Hchk Hg].
  split; try done.
  - apply wf_block_payload; [done|]. intros p Hp. right. by apply Hch.
  - intros c i Hc. simpl. rewrite (proj1 (Hd c (object_live c i Hc))). by apply Hfits.
  - intros c Hc. simpl. rewrite (proj1 (Hd c Hc)). by apply Hchk.
  - eapply graph_ext; [| |exact Hg]; simpl.
    + intros c i x Hc Hx. rewrite <- Z.add_assoc. pose proof (Hfits c i Hc). apply Hw; [by eapply object_live|lia].
    + intros c Hc. apply Hd. set_solver.
Qed.

Lemma heap_inv_inc A objs pend rs t i :
  heap_inv C A objs pend rs → objs !! (t - 4)%Z = Some i → (NUM_COPIES A t + 1 < u32_modulus)%Z →
  isManaged A t = true ∧ contains A t = true ∧
  heap_inv C (set_mem A (<[t := u32 (NUM_COPIES A t + 1)]> (mem A))) objs pend ((t, i) :: rs).
Proof.
  intros Hinv Hc Hmax. pose proof (object_live (pend := pend) _ _ Hc) as Hl.
  pose proof (object_managed Hinv _ Hl) as Hman. pose proof (object_contained Hinv _ Hl) as Hcont.
  rewrite Z.sub_add in Hman, Hcont. split_and!; [done|done|].
  destruct (g_count _ _ _ (hi_graph _ _ _ _ _ Hinv) _ _ Hc) as [Hn _]. rewrite Z.sub_add in Hn.
  unfold NUM_COPIES in *. rewrite u32_small by lia.
  pose proof (heap_inv_count A objs pend rs ((t, i) :: rs) (t - 4) i (word (mem A) t + 1) Hinv Hc) as Hk.
  rewrite Z.sub_add in Hk. apply Hk; [| | |lia].
  - intros u j [[= -> ->]|Hu]%elem_of_cons; [done|]. by apply (root_object Hinv).
  - intros u Hu. rewrite references_cons. simpl. by rewrite decide_False by done.
  - rewrite references_app, references_cons. simpl. rewrite decide_True by done. rewrite references_app in Hn. lia.
Qed.

Lemma handle_refs_frame A A' h :
  handle_outside A h → block_frame A A' → handle_refs (mem A') h = handle_refs (mem A) h.
Proof. intros Ho Hf. unfold handle_refs. rewrite !(bf_mem _ _ Hf) by (apply Ho; auto). done. Qed.

(** [DEC_OLD_REF_COUNT] for the references of a handle. *)
Lemma dec_old_ok k A A0 objs rs h :
  size objs ≤ k → heap_inv C A objs ∅ (handle_refs (mem A0) h ++ rs) →
  ∃ A' objs', dec_old (decRefCount C k) (old_target A0 h) (typeInfo A0 h) A = (Ret tt, A') ∧
    dropped (C:=C) A objs ∅ rs A' objs'.
Proof.
  intros Hk Hinv. unfold old_target, isNullPtr, handle_offset, handle_refs in *.
  destruct (word (mem A0) h =? -1)%Z; simpl in *.
  - exists A, objs. split; [done|]. by apply dropped_refl.
  - by apply decRefCount_ok.
Qed.

(** Storing into a handle outside the block. *)
Lemma store_outside A objs rs h p v :
  heap_inv C A objs ∅ rs → handle_outside A h → (p = h ∨ p = (h + 8)%Z) →
  heap_inv C (set_mem A (<[p := v]> (mem A))) objs ∅ rs.
Proof.
  intros Hinv Ho Hp. apply heap_inv_outside; [done|]. intros q Hq. rewrite word_insert in Hq.
  case_decide; [subst q|done]. by apply Ho.
Qed.

Lemma reachable_objects_ext m m' objs rs u :
  (∀ c i, objs !! c = Some i → object_refs C m' (c, i) = object_refs C m (c, i)) →
  reachable (C:=C) m objs rs u → reachable (C:=C) m' objs rs u.
Proof.
  intros He. induction 1 as [t i Hr|t i t' i' _ IH Hi Hr]; [by eapply reach_root|].
  eapply reach_step; [exact IH|exact Hi|]. by rewrite He.
Qed.

(** What is left of the heap after an assignment to a handle outside. *)
Definition heap_kept A objs rs A' objs' : Prop :=
  objs' ⊆ objs ∧ (∀ u, reachable (C:=C) (mem A) objs rs u → (u - 4)%Z ∈ dom objs') ∧
  ∀ c j x, objs' !! c = Some j → (0 ≤ x < size_of C j)%Z → word (mem A') (c + 8 + x) = word (mem A) (c + 8 + x).

Lemma dropped_heap_kept A A3 objs rs rs0 A' objs' :
  heap_inv C A3 objs ∅ rs0 → dropped (C:=C) A3 objs ∅ rs A' objs' →
  (∀ c j x, objs !! c = Some j → (0 ≤ x < size_of C j)%Z → word (mem A3) (c + 8 + x) = word (mem A) (c + 8 + x)) →
  heap_kept A objs rs A' objs'.
Proof.
  intros Hinv Hd Hw. split; [apply (dr_objs _ _ _ _ _ _ Hd)|]. split.
  - intros u Hu. apply (reachable_objects_ext (mem A) (mem A3)) in Hu.
    + destruct (reachable_kept A3 objs rs _ A' objs' u Hinv Hd Hu) as [j Hj]. apply elem_of_dom. by eexists.
    + intros c i Hc. apply refs_of_ext. simpl. intros mem0 x Hm Hx. apply (Hw c i); [done|]. by eapply members_bounds.
  - intros c j x Hj Hx. pose proof (lookup_weaken _ _ _ _ Hj (dr_objs _ _ _ _ _ _ Hd)) as Hj'.
    rewrite <- (Hw c j x) by done. apply (dr_words _ _ _ _ _ _ Hd).
    + pose proof (chunk_bounds Hinv c (object_live c j Hj')). unfold ref_addr. lia.
    + intros d Hdd. apply (cell_not_count Hinv c j x d Hj' Hx). set_solver.
Qed.

(** The right-hand side [f] of an assignment to [h] is null, or leads to an
    object of the block whose count can grow; the two handles are the same or
    apart. *)
Definition handle_shareable A objs (h f : Z) : Prop :=
  (∀ t i, (t, i) ∈ handle_refs (mem A) f → objs !! (t - 4)%Z = Some i ∧ (NUM_COPIES A t + 1 < u32_modulus)%Z) ∧
  (f = h ∨ f ≠ h ∧ f ≠ h + 8 ∧ f + 8 ≠ h)%Z.

Lemma assign_null_ok k copy A objs rs h f :
  size objs ≤ k → handle_outside A h → heap_inv C A objs ∅ (handle_refs (mem A) h ++ rs) →
  isNullPtr A f = true →
  ∃ A' objs', Handle_assign C (decRefCount C k) copy h f A = (Ret tt, A') ∧
    handle_refs (mem A') h = [] ∧ heap_inv C A' objs' ∅ rs ∧ heap_kept A objs rs A' objs'.
Proof.
  intros Hk Ho Hinv Hf. unfold Handle_assign. rewrite Hf.
  destruct (dec_old_ok k A A objs rs h Hk Hinv) as (A1 & objs' & He & Hd). run. rewrite He.
  unfold setOffset, store. run. eexists _, objs'. split; [done|]. pose proof (dr_frame _ _ _ _ _ _ Hd) as Hfr.
  assert (handle_outside A1 h) as Ho1 by (intros p Hp; rewrite (bf_state _ _ Hfr); by apply Ho).
  split_and!.
  - unfold handle_refs. cbn [mem set_mem]. by rewrite word_insert_eq.
  - apply (store_outside _ _ _ h); [|done|by left]. apply (dr_inv _ _ _ _ _ _ Hd).
  - destruct (dropped_heap_kept A A objs rs _ A1 objs' Hinv Hd ltac:(done)) as (Hs & Hr & Hw).
    split; [done|]. split; [done|]. intros c j x Hj Hx. simpl. rewrite word_insert_ne; [by eapply Hw|]. intros He'.
    pose proof (cell_place (dr_inv _ _ _ _ _ _ Hd) c j x Hj Hx). pose proof (Ho1 h ltac:(by left)).
    pose proof (chunk_bounds (dr_inv _ _ _ _ _ _ Hd) c (object_live c j Hj)). lia.
Qed.

Lemma assign_shared_ok k copy A objs rs h f t i :
  size objs ≤ k → handle_outside A h → heap_inv C A objs ∅ (handle_refs (mem A) h ++ rs) →
  handle_refs (mem A) f = [(t, i)] → handle_shareable A objs h f →
  ∃ A' objs', Handle_assign C (decRefCount C k) copy h f A = (Ret tt, A') ∧
    handle_refs (mem A') h = [(t, i)] ∧ heap_inv C A' objs' ∅ ((t, i) :: rs) ∧
    heap_kept A objs ((t, i) :: rs) A' objs'.
Proof.
  intros Hk Ho Hinv Hf [Ht Hne]. destruct (Ht t i) as [Hc Hmax]; [rewrite Hf; constructor|].
  assert (isNullPtr A f = false ∧ getTarget A f = t ∧ typeInfo A f = i) as (Hnull & Htf & Hif).
  { unfold isNullPtr, getTarget, typeInfo, handle_offset. unfold handle_refs in Hf.
    destruct (word (mem A) f =? -1)%Z; [done|]. by injection Hf as -> ->. }
  unfold Handle_assign. rewrite Hnull, Hif. unfold setTypeInfo, store. run.
  pose proof (store_outside A objs _ h (h + 8)%Z i Hinv Ho (or_intror eq_refl)) as Hinv1. set (A1 := set_mem A _) in *.
  assert (getTarget A1 f = t) as ->.
  { unfold getTarget, handle_offset, A1 in *. simpl. rewrite word_insert_ne by lia. done. }
  destruct (heap_inv_inc A objs _ _ t i Hinv Hc Hmax) as (Hman & Hcont & _).
  assert (contains A1 t = true) as -> by exact Hcont. cbn [negb andb]. unfold setOffset, store. run.
  pose proof (store_outside A1 objs _ h h (t - h)%Z Hinv1 Ho (or_introl eq_refl)) as Hinv2. set (A2 := set_mem A1 _) in *.
  assert (getTarget A2 h = t) as -> by (unfold getTarget, handle_offset, A2; simpl; rewrite word_insert_eq; lia).
  pose proof (object_live (pend := ∅) _ _ Hc) as Hl. pose proof (chunk_bounds Hinv _ Hl) as Hb.
  assert (t ≠ h ∧ t ≠ h + 8 ∧ t - h ≠ -1)%Z as (Hth & Hth8 & Hnn).
  { pose proof (Ho h ltac:(by left)). pose proof (Ho (h + 8)%Z ltac:(by right)). lia. }
  assert (NUM_COPIES A2 t = NUM_COPIES A t) as Hnum by (unfold NUM_COPIES, A2, A1; simpl; by rewrite !word_insert_ne by lia).
  destruct (heap_inv_inc A2 objs _ _ t i Hinv2 Hc ltac:(by rewrite Hnum)) as (Hman2 & _ & Hinv3).
  unfold incRefCount. rewrite Hman2. unfold store. run. set (A3 := set_mem A2 _) in *.
  destruct (dec_old_ok k A3 A objs ((t, i) :: rs) h Hk) as (A' & objs' & He & Hd).
  { eapply heap_inv_perm; [|exact Hinv3]. apply Permutation_middle. }
  rewrite He. exists A', objs'. split; [done|].
  assert (handle_outside A3 h) as Ho3 by done. split_and!.
  - rewrite (handle_refs_frame A3 A' h Ho3 (dr_frame _ _ _ _ _ _ Hd)). unfold handle_refs, A3, A2, A1. simpl.
    rewrite !(word_insert_ne _ t) by done. rewrite word_insert_eq, (proj2 (Z.eqb_neq _ _) Hnn).
    rewrite word_insert_ne by lia. rewrite word_insert_eq. do 2 f_equal. lia.
  - apply (dr_inv _ _ _ _ _ _ Hd).
  - eapply dropped_heap_kept; [exact Hinv3|exact Hd|]. intros c j x Hj Hx. unfold A3, A2, A1. simpl.
    pose proof (cell_place Hinv c j x Hj Hx). pose proof (chunk_bounds Hinv c (object_live c j Hj)).
    pose proof (Ho h ltac:(by left)). pose proof (Ho (h + 8)%Z ltac:(by right)).
    rewrite !word_insert_ne; [done|lia|lia|]. intros Hx'.
    apply (cell_not_count Hinv c j x (t - 4) Hj Hx Hl). lia.
Qed.
End heap.

(** ** Properties *)

(** [C13] Assigning to a handle outside the block shares: the handle then leads
    where the right-hand side led, the count of that object has grown, the old
    target has lost a reference, and what no longer has any is deleted; every
    object that the assigned handle and the other references reach is kept with
    its contents.  Self-assignment and null are included. *)
Theorem Handle_set_shares C `{!ClassesOk C} (k n : nat) (A : Allocator) (objs : gmap Z Z)
    (rs : list (Z * Z)) (h f : Z) :
  size objs ≤ k → handle_outside A h → heap_inv C A objs ∅ (handle_refs (mem A) h ++ rs) →
  handle_shareable A objs h f →
  ∃ A' objs', Handle_set C k n h f A = (Ret tt, A') ∧
    handle_refs (mem A') h = handle_refs (mem A) f ∧
    heap_inv C A' objs' ∅ (handle_refs (mem A') h ++ rs) ∧
    heap_kept (C:=C) A objs (handle_refs (mem A) f ++ rs) A' objs'.
Proof.
  intros Hk Ho Hinv Hs. destruct (handle_refs (mem A) f) as [|[t i] l] eqn:Hf.
  - destruct (assign_null_ok k (setUpAndCopy C k n) A objs rs h f Hk Ho Hinv) as (A' & objs' & He & Hr & Hinv' & Hkept).
    { unfold handle_refs in Hf. unfold isNullPtr, handle_offset. by destruct (_ =? _)%Z. }
    exists A', objs'. by rewrite Hr.
  - assert (l = []) as -> by (unfold handle_refs in Hf; destruct (_ =? _)%Z; congruence).
    destruct (assign_shared_ok k (setUpAndCopy C k n) A objs rs h f t i Hk Ho Hinv Hf Hs) as (A' & objs' & He & Hr & Hinv' & Hkept).
    exists A', objs'. by rewrite Hr.
Qed.

(** [C11] What a handle in a block points to is copied into the block:
    assigning a null member handle of an object of the current block from a
    handle to an object elsewhere either throws for lack of space, and then the
    handle is null and every chunk the copy had used is free again, or returns
    with the handle leading to new objects of the block that look the same as
    the source along every path of handles; in both cases the heap is
    consistent and no other cell of it has changed.  The assignment returns
    for every source, also for cyclic ones (which never fit). *)
Theorem Handle_set_deep_copies C `{!ClassesOk C} (k n : nat) (A : Allocator) (objs : gmap Z Z)
    (rs : list (Z * Z)) (c i o st f : Z) (Src : Z → Z → Prop) :
  heap_inv C A objs ∅ rs → objs !! c = Some i → HandleAt o st ∈ members C i →
  isNullPtr A (c + 8 + o) = true →
  source_ok (C:=C) (activeRAM (myState A)) (numBytes (myState A)) (mem A) Src →
  handle_source (activeRAM (myState A)) (numBytes (myState A)) (mem A) Src f →
  (numBytes (myState A) < u32_modulus)%Z → throwException (myState A) = true →
  (numBytes (myState A) < 4 * (Z.of_nat k + 1))%Z → (numBytes (myState A) < 4 * (Z.of_nat n + 1))%Z →
  let h := (c + 8 + o)%Z in
  ∃ r A', Handle_set C k n h f A = (r, A') ∧ block_frame A A' ∧
    (∀ d j x, objs !! d = Some j → (0 ≤ x < size_of C j)%Z → d ≠ c ∨ x ∉ cells (HandleAt o st) →
      word (mem A') (d + 8 + x) = word (mem A) (d + 8 + x)) ∧
    match r with
    | Ret _ => ∃ news, objs ##ₘ news ∧ heap_inv C A' (objs ∪ news) ∅ rs ∧
        (∀ t j, (t, j) ∈ handle_refs (mem A') h → news !! (t - 4)%Z = Some j) ∧
        (∀ d, handle_copied (mem A') (mem A) (copied (C:=C) (mem A') (mem A) d) h f)
    | NotEnoughSpace => isNullPtr A' h = true ∧ heap_inv C A' objs ∅ rs
    | _ => False
    end.
Proof.
  intros Hinv Hc Hm Hnull Hsrc Hf Hlen Hthrow Hk Hn h.
  assert (hosted (C:=C) A objs ∅ rs c i) as Hg by by split.
  assert (here (activeRAM (myState A)) (numBytes (myState A)) (mem A) A) as Hhere by done.
  assert (word (mem A) (c + 8 + o) = (-1)%Z) as Hoff by by apply Z.eqb_eq.
  assert (member_refs (mem A) (c + 8) (HandleAt o st) = []) as Hnone by by apply (fresh_refs _ _ (HandleAt o st)).
  destruct (Handle_assign_filled (activeRAM (myState A)) (numBytes (myState A)) (mem A) Src Hsrc Hlen k Hk n
    (setUpAndCopy C k n) A objs ∅ rs c i o st f) as (r & A' & He & Hkept & Hr); try done.
  { by apply setUpAndCopy_ok. }
  { lia. }
  exists r, A'. split; [exact He|]. split; [apply (kp_frame _ _ _ _ Hkept)|]. split.
  { destruct Hr as [(_ & news2 & Hinv2 & _)|(_ & Hinv2 & Hf')].
    - exact (extend_cell Hg Hm Hkept).
    - exact (extend_cell Hg Hm Hkept). }
  destruct Hr as [(-> & news2 & Hinv2 & _ & _ & Hcop)|(-> & Hinv2 & Hf')].
  - change (heap_inv C A' news2 (dom objs ∪ ∅) (member_refs (mem A') (c + 8) (HandleAt o st))) in Hinv2.
    exists news2. pose proof (extend_disjoint Hinv2) as Hd. split_and!; [done| | |done].
    + exact (extend_inv Hg Hm Hnone Hkept Hinv2).
    + intros t j Ht. by apply (root_object Hinv2).
  - split; [by apply Z.eqb_eq|]. rewrite <- (map_union_empty objs).
    apply (extend_inv Hg Hm Hnone Hkept). 
    assert (member_refs (mem A') (c + 8) (HandleAt o st) = []) as -> by by apply (fresh_refs _ _ (HandleAt o st)).
    done.
Qed.

(** Going from the object of type [i] at [a] along handles: at each step the
    [k]-th member, if it is a handle and not null, is dereferenced. *)
Fixpoint follow C A (i a : Z) (path : list nat) : option (Z * Z) :=
  match path with
  | [] => Some (i, a)
  | k :: path' =>
      match members C i !! k with
      | Some (HandleAt o _) =>
          if isNullPtr A (a + o) then None
          else follow C A (typeInfo A (a + o)) (getObject (getTarget A (a + o))) path'
      | _ => None
      end
  end.

Section relocated.
Context C `{!ClassesOk C} (A A' : Allocator) (objs : gmap Z Z) (rs : list (Z * Z)) (delta : Z).
Hypothesis heap_ok : heap_inv C A objs ∅ rs.
Hypothesis image : ∀ c i x, objs !! c = Some i → (0 ≤ x < size_of C i)%Z →
  word (mem A') (delta + (c + 8 + x)) = word (mem A) (c + 8 + x).

(** The cells of a member are those of its image. *)
Lemma image_member c i mem0 x : objs !! c = Some i → mem0 ∈ members C i → x ∈ cells mem0 →
  word (mem A') (delta + (c + 8) + x) = word (mem A) (c + 8 + x).
Proof. intros Hc Hm Hx. rewrite <- Z.add_assoc. apply image with i; [done|]. by eapply members_bounds. Qed.

(** The target of a handle in an object is an object of its type. *)
Lemma target_object c i mem0 o : objs !! c = Some i → mem0 ∈ members C i → isNullPtr A (c + 8 + o) = false →
  (∀ r, r ∈ handle_refs (mem A) (c + 8 + o) → r ∈ member_refs (mem A) (c + 8) mem0) →
  objs !! (getTarget A (c + 8 + o) - 4)%Z = Some (typeInfo A (c + 8 + o)).
Proof.
  intros Hc Hm Hnull Hr. apply (object_refs_typed A objs ∅ rs c i _ _ heap_ok Hc), (member_object_refs _ _ _ _ _ Hm), Hr.
  unfold handle_refs, isNullPtr, handle_offset in *. rewrite Hnull. constructor.
Qed.

(** Handles and strings of the image lead where the handles and strings of the
    block lead, [delta] bytes further. *)
Lemma image_handle c i o st : objs !! c = Some i → HandleAt o st ∈ members C i →
  isNullPtr A' (delta + (c + 8) + o) = isNullPtr A (c + 8 + o) ∧ typeInfo A' (delta + (c + 8) + o) = typeInfo A (c + 8 + o) ∧
  getTarget A' (delta + (c + 8) + o) = (delta + getTarget A (c + 8 + o))%Z.
Proof.
  intros Hc Hm. unfold isNullPtr, typeInfo, getTarget, handle_offset. rewrite <- !(Z.add_assoc _ o 8).
  rewrite !(image_member c i _ _ Hc Hm) by (simpl; set_solver). split_and!; [done|done|lia].
Qed.

Lemma image_string c i o : objs !! c = Some i → StringAt o ∈ members C i →
  String_size A' (delta + (c + 8) + o) = String_size A (c + 8 + o) ∧
  c_str A' (delta + (c + 8) + o) = (delta + c_str A (c + 8 + o))%Z ∧
  ((typeInfo A (c + 8 + o) < -1)%Z → isNullPtr A (c + 8 + o) = false → ∀ x, (0 ≤ x < String_size A (c + 8 + o))%Z →
     word (mem A') (c_str A' (delta + (c + 8) + o) + x) = word (mem A) (c_str A (c + 8 + o) + x)).
Proof.
  intros Hc Hm. assert (typeInfo A' (delta + (c + 8) + o) = typeInfo A (c + 8 + o)) as Hi.
  { unfold typeInfo. rewrite <- !(Z.add_assoc _ o 8). apply (image_member c i _ _ Hc Hm). simpl. set_solver. }
  assert (getTarget A' (delta + (c + 8) + o) = delta + getTarget A (c + 8 + o))%Z as Ht.
  { unfold getTarget, handle_offset. rewrite (image_member c i _ _ Hc Hm) by (simpl; set_solver). lia. }
  unfold String_size, c_str, is_short. rewrite Hi, Ht. split; [done|]. split; [destruct (_ <=? _)%Z; unfold getObject; lia|].
  intros Hlong Hnull x. destruct (Z.leb_spec 0 (typeInfo A (c + 8 + o))) as [|_]; [lia|]. intros Hx.
  assert (objs !! (getTarget A (c + 8 + o) - 4)%Z = Some (typeInfo A (c + 8 + o))) as Hobj.
  { apply (target_object c i (StringAt o)); [done..|]. intros r Hr. simpl.
    unfold typeInfo in Hlong. by rewrite (proj2 (Z.ltb_lt _ _) Hlong). }
  pose proof (image _ _ x Hobj) as Hw.
  assert (size_of C (typeInfo A (c + 8 + o)) = - typeInfo A (c + 8 + o))%Z as Hsize by (apply (size_of_bytes 0); lia).
  rewrite Hsize in Hw. specialize (Hw Hx). unfold getObject, REF_COUNT_PREAMBLE_SIZE.
  replace (delta + getTarget A (c + 8 + o) + 4 + x)%Z with (delta + (getTarget A (c + 8 + o) - 4 + 8 + x))%Z by lia.
  rewrite Hw. f_equal. lia.
Qed.

Lemma follow_image path : ∀ c i, objs !! c = Some i →
  match follow C A i (c + 8) path with
  | None => follow C A' i (delta + (c + 8)) path = None
  | Some (j, b) => follow C A' i (delta + (c + 8)) path = Some (j, delta + b)%Z ∧ objs !! (b - 8)%Z = Some j
  end.
Proof.
  induction path as [|k path IH]; intros c i Hc; simpl; [split; [done|]; by replace (c + 8 - 8)%Z with c by lia|].
  destruct (members C i !! k) as [[o|o st|o]|] eqn:Hk; try done. apply list_elem_of_lookup_2 in Hk as Hm.
  destruct (image_handle c i o st Hc Hm) as (-> & -> & ->). destruct (isNullPtr A (c + 8 + o)) eqn:Hnull; [done|].
  pose proof (target_object c i _ o Hc Hm Hnull (λ r H, H)) as Hobj. specialize (IH _ _ Hobj). unfold getObject, REF_COUNT_PREAMBLE_SIZE.
  replace (delta + getTarget A (c + 8 + o) + 4)%Z with (delta + (getTarget A (c + 8 + o) - 4 + 8))%Z by lia.
  by replace (getTarget A (c + 8 + o) + 4)%Z with (getTarget A (c + 8 + o) - 4 + 8)%Z by lia.
Qed.
(** The block and its image look the same. *)
Lemma copied_image n : ∀ c i, objs !! c = Some i → copied (C:=C) (mem A') (mem A) n i (delta + (c + 8)) (c + 8).
Proof.
  induction n as [|n IH]; intros c i Hc; [done|]. simpl. destruct (Z.ltb_spec 0 i) as [Hi|Hi].
  2:{ intros x Hx. rewrite <- Z.add_assoc. apply image with i; [done|]. by rewrite size_of_bytes. }
  intros mem0 Hm. pose proof (λ x, image_member c i mem0 x Hc Hm) as Hx.
  assert (∀ o, (∀ r, r ∈ handle_refs (mem A) (c + 8 + o) → r ∈ member_refs (mem A) (c + 8) mem0) →
    word (mem A') (delta + (c + 8) + o) = word (mem A) (c + 8 + o) →
    word (mem A') (delta + (c + 8) + o + 8) = word (mem A) (c + 8 + o + 8) →
    handle_copied (mem A') (mem A) (copied (C:=C) (mem A') (mem A) n) (delta + (c + 8) + o) (c + 8 + o)) as Hh.
  { intros o Hr H1 H2. unfold handle_copied. rewrite H1, H2.
    destruct (Z.eqb_spec (word (mem A) (c + 8 + o)) (-1)) as [|Hne]; [done|]. split_and!; [done|done|].
    assert (isNullPtr A (c + 8 + o) = false) as Hnull by by apply Z.eqb_neq.
    specialize (IH _ _ (target_object c i mem0 o Hc Hm Hnull Hr)). unfold getTarget, handle_offset, typeInfo in IH.
    replace (delta + (c + 8) + o + word (mem A) (c + 8 + o) + 4)%Z with
      (delta + (c + 8 + o + word (mem A) (c + 8 + o) - 4 + 8))%Z by lia.
    by replace (c + 8 + o + word (mem A) (c + 8 + o) + 4)%Z with
      (c + 8 + o + word (mem A) (c + 8 + o) - 4 + 8)%Z by lia. }
  destruct mem0 as [o|o st|o]; simpl in *.
  - apply Hx. constructor.
  - apply Hh; [done|apply Hx; constructor|]. rewrite <- !(Z.add_assoc _ o 8). apply Hx. repeat constructor.
  - assert (word (mem A') (delta + (c + 8) + o + 8) = word (mem A) (c + 8 + o + 8)) as H8
      by (rewrite <- !(Z.add_assoc _ o 8); apply Hx; repeat constructor).
    split; [done|]. destruct (_ <? -1)%Z; [|apply Hx; constructor].
    apply Hh; [done|apply Hx; constructor|done].
Qed.
End relocated.

(** [C14] Handles are offsets.  Let the memory of [A'] have, [delta] bytes further,
    the bytes of the objects of a block of [A] with a consistent heap, whatever
    else it holds.  Then following handles from an object leads to null in [A']
    exactly where it does in [A], and otherwise to the image of the object that it leads to in [A],
    with the same type and bytes; the strings of that object have the same
    length, and their characters are the image of the characters.  In short, the
    objects look the same along every path of handles. *)
Theorem heap_relocatable C `{!ClassesOk C} (A A' : Allocator) (objs : gmap Z Z) (rs : list (Z * Z)) (delta : Z) :
  heap_inv C A objs ∅ rs →
  (∀ c i x, objs !! c = Some i → (0 ≤ x < size_of C i)%Z →
    word (mem A') (delta + (c + 8 + x)) = word (mem A) (c + 8 + x)) →
  ∀ c i, objs !! c = Some i →
    (∀ path, match follow C A i (c + 8) path with
     | None => follow C A' i (delta + (c + 8)) path = None
     | Some (j, b) =>
         follow C A' i (delta + (c + 8)) path = Some (j, delta + b)%Z ∧ objs !! (b - 8)%Z = Some j ∧
         (∀ x, (0 ≤ x < size_of C j)%Z → word (mem A') (delta + b + x) = word (mem A) (b + x)) ∧
         ∀ o, StringAt o ∈ members C j →
           String_size A' (delta + b + o) = String_size A (b + o) ∧ c_str A' (delta + b + o) = (delta + c_str A (b + o))%Z ∧
           ((typeInfo A (b + o) < -1)%Z → isNullPtr A (b + o) = false → ∀ x, (0 ≤ x < String_size A (b + o))%Z →
              word (mem A') (c_str A' (delta + b + o) + x) = word (mem A) (c_str A (b + o) + x))
     end) ∧
    ∀ n, copied (C:=C) (mem A') (mem A) n i (delta + (c + 8)) (c + 8).
Proof.
  intros Hinv Hw c i Hc. split.
  - intros path. pose proof (follow_image C A A' objs rs delta Hinv Hw path c i Hc) as Hf.
    destruct (follow C A i (c + 8) path) as [[j b]|]; [|done]. destruct Hf as [Hf Hb]. split; [done|]. split; [done|].
    assert (b = b - 8 + 8)%Z as Heq by lia. split.
    + intros x Hx. rewrite <- Z.add_assoc. rewrite Heq at 1 2. by apply Hw with j.
    + intros o Ho. rewrite Heq. by apply (image_string C A A' objs rs delta Hinv Hw (b - 8) j o).
  - intros n. by apply (copied_image C A A' objs rs delta Hinv Hw n c i).
Qed.

(** An assignment that finds no room leaves a handle that was not null with
    its old target and the type of the new one: the type information is set
    before the space is asked for, and the exception passes no handler.  The
    old object will be copied and deleted as if it were of the other type. *)
Theorem Handle_set_throw_retypes C (k n : nat) (A : Allocator) (h f : Z) :
  isNullPtr A f = false → contains A h = true →
  let A1 := set_mem A (<[(h + 8)%Z := typeInfo A f]> (mem A)) in
  contains A (getTarget A1 f) = false →
  getRAM (REF_COUNT_PREAMBLE_SIZE + size_of C (typeInfo A f)) A1 = (NotEnoughSpace, A1) →
  Handle_set C k n h f A = (NotEnoughSpace, A1) ∧
  getTarget A1 h = getTarget A h ∧ typeInfo A1 h = typeInfo A f.
Proof.
  intros Hf Hh A1 Ht Hg. unfold Handle_set, Handle_assign. rewrite Hf. unfold setTypeInfo, store. run. fold A1.
  assert (typeInfo A1 h = typeInfo A f) as Hi by apply word_insert_eq.
  assert (contains A1 (getTarget A1 f) = false) as -> by exact Ht.
  assert (contains A1 h = true) as -> by exact Hh. cbn [negb andb]. rewrite M_bind_unfold, Hi, Hg.
  split_and!; [done| |done]. unfold getTarget, handle_offset, A1. simpl. by rewrite word_insert_ne by lia.
Qed.

(** ** A small program *)

(** A list node (100) with a value and the next node, a wider class (102), and
    one too large for the block below (103). *)
Definition demo : Classes := MkClasses
  (λ i, if (i =? 100)%Z then [Scalar 8; HandleAt 16 100]
        else if (i =? 102)%Z then [Scalar 8; Scalar 16; Scalar 24; Scalar 32]
        else if (i =? 104)%Z then [StringAt 8] else [])%Z
  (λ i, if (i =? 100)%Z then 32 else if (i =? 102)%Z then 40 else if (i =? 103)%Z then 2000 else 24)%Z.

#[export] Instance demo_ok : ClassesOk demo.
Proof.
  split; simpl; intros i; repeat case_match; intros; try lia;
    repeat match goal with
    | H : _ ∈ _ :: _ |- _ => apply elem_of_cons in H as [->|H]
    | H : _ ∈ [] |- _ => by apply elem_of_nil in H
    | H : _ ∈ cells _ |- _ => unfold cells in H
    end; simpl in *; try lia; repeat constructor; rewrite ?elem_of_cons, ?elem_of_nil; lia.
Qed.

(** The block of [alloc0]; outside it a node at 904 with the value 7, a handle
    to it at 800, a null handle at 600 and a handle at 700 to the object that
    the block will have at 4120. *)
Definition demo0 : Allocator := set_mem alloc0
  (<[800 := 100]> (<[808 := 100]> (<[912 := 7]> (<[920 := (-1)]> (<[928 := 100]>
   (<[600 := (-1)]> (<[608 := 100]> (<[700 := 3420]> (<[708 := 100]> (mem alloc0))))))))))%Z.
Definition demo1 : Allocator := (getRAM 36 demo0).2.
Definition demo2 : Allocator := set_mem demo1 (<[4120%Z := 1%Z]> (mem demo1)).
Definition demo3 : Allocator := (construct demo 100 4124 demo2).2.

Lemma demo0_inv : heap_inv demo demo0 ∅ ∅ [].
Proof.
  destruct alloc0_inv as (Hwf & _ & Hpol).
  unfold demo0. apply heap_inv_outside.
  - split; try done.
    + exists defaultAllocator. by split.
    + split; [by intros t i Hti%elem_of_nil|by intros c i Hc; rewrite lookup_empty in Hc].
  - intros p. rewrite !word_insert. change (activeRAM (myState alloc0)) with 4096%Z.
    repeat case_decide; intros Hp; try done; lia.
Qed.

Lemma demo3_grown : grown (C:=demo) demo3 {[4116%Z := 100%Z]} ∅ 4116 100.
Proof.
  pose proof (getRAM_ok (C:=demo) demo0 ∅ 36 demo0_inv ltac:(by vm_compute) ltac:(lia) eq_refl) as Hg.
  assert (getRAM 36 demo0 = (Ret 4120%Z, demo1)) as E by (vm_compute; reflexivity). rewrite E in Hg.
  destruct Hg as (_ & Hinv1 & _). change (4120 - 4)%Z with 4116%Z in Hinv1.
  assert (word (mem demo1) 4116 = 40%Z) as Hw by by vm_compute.
  pose proof (store_pend (C:=demo) demo1 ({[4116%Z]} ∪ ∅) 4116 4120 1 Hinv1 ltac:(set_solver) ltac:(rewrite Hw; lia)) as Hinv2.
  fold demo2 in Hinv2.
  refine (proj1 (copy_started (C:=demo) demo2 demo3 ∅ 4116 100 (mem demo3) Hinv2 _ _ _ _ _ _)).
  - set_solver.
  - by vm_compute.
  - by vm_compute.
  - vm_compute. reflexivity.
  - intros p. change (mem demo3) with (<[4140 := (-1)]> (<[4148 := 100]> (mem demo2)))%Z.
    rewrite !word_insert. repeat case_decide; [intros _; exists 16%Z|intros _; exists 24%Z|done];
      (split; [by vm_compute|lia]).
  - intros mem0 Hm. simpl in Hm. repeat (apply elem_of_cons in Hm as [->|Hm]; [by vm_compute|]). by apply elem_of_nil in Hm.
Qed.

Lemma demo3_inv : heap_inv demo demo3 {[4116%Z := 100%Z]} ∅ [(4120, 100)%Z].
Proof. apply demo3_grown. Qed.

Lemma decRefCount_reclaims_witness :
  ∃ A' objs', decRefCount demo 1 4120 100 demo3 = (Ret tt, A') ∧ heap_inv demo A' objs' ∅ [] ∧
    ∀ c, c ∈ dom objs' → ∃ j, (c + 4, j)%Z ∈ heap_refs demo (mem A') objs' ++ [].
Proof.
  destruct (decRefCount_reclaims demo 1 demo3 {[4116%Z := 100%Z]} [] 4120 100) as (A' & objs' & He & Hi & _ & _ & Hr & _).
  - vm_compute. lia.
  - exact demo3_inv.
  - intros c Hc. rewrite dom_singleton_L in Hc. apply elem_of_singleton in Hc as ->. by vm_compute.
  - exists A', objs'. split; [exact He|split; [exact Hi|exact Hr]].
Defined.

Lemma Handle_set_shares_witness :
  ∃ A' objs', Handle_set demo 1 0 600 700 demo3 = (Ret tt, A') ∧
    handle_refs (mem A') 600 = handle_refs (mem demo3) 700 ∧
    heap_inv demo A' objs' ∅ (handle_refs (mem A') 600 ++ [(4120, 100)%Z]).
Proof.
  destruct (Handle_set_shares demo 1 0 demo3 {[4116%Z := 100%Z]} [(4120, 100)%Z] 600 700)
    as (A' & objs' & He & Hr & Hi & _).
  - vm_compute. lia.
  - intros p Hp. change (activeRAM (myState demo3)) with 4096%Z. lia.
  - exact demo3_inv.
  - split; [|right; lia]. intros t i Hti. change (handle_refs (mem demo3) 700) with [(4120, 100)%Z] in Hti.
    apply list_elem_of_singleton in Hti as [= -> ->]. split; by vm_compute.
  - exists A', objs'. split; [exact He|split; [exact Hr|exact Hi]].
Defined.

(** The node at 904 is the only source. *)
Definition demo_src (i s : Z) : Prop := i = 100%Z ∧ s = 904%Z.

Lemma demo_source_ok : source_ok (C:=demo) 4096 1024 (mem demo3) demo_src.
Proof.
  split.
  - intros i s [-> ->]. by vm_compute.
  - intros i s x [-> ->] Hx. change (size_of demo 100) with 32%Z in Hx. left. lia.
  - intros i s o st [-> ->] Hm Hne. exfalso. apply Hne. change (members demo 100) with [Scalar 8; HandleAt 16 100] in Hm.
    apply elem_of_cons in Hm as [|Hm]; [done|]. apply list_elem_of_singleton in Hm. injection Hm as -> ->. by vm_compute.
  - intros i s o [-> ->] Hm. change (members demo 100) with [Scalar 8; HandleAt 16 100] in Hm.
    apply elem_of_cons in Hm as [|Hm]; [done|]. by apply list_elem_of_singleton in Hm.
Qed.

Lemma Handle_set_deep_copies_witness :
  ∃ A' news, Handle_set demo 256 256 4140 800 demo3 = (Ret tt, A') ∧
    heap_inv demo A' ({[4116%Z := 100%Z]} ∪ news) ∅ [(4120, 100)%Z] ∧
    ∀ d, handle_copied (mem A') (mem demo3) (copied (C:=demo) (mem A') (mem demo3) d) 4140 800.
Proof.
  destruct (Handle_set_deep_copies demo 256 256 demo3 {[4116%Z := 100%Z]} [(4120, 100)%Z] 4116 100 16 100 800 demo_src)
    as (r & A' & He & _ & _ & Hr).
  - exact demo3_inv.
  - reflexivity.
  - right. left.
  - vm_compute. reflexivity.
  - exact demo_source_ok.
  - split; [left; vm_compute; reflexivity|split; [left; vm_compute; reflexivity|]]. intros _.
    split; [left; vm_compute; reflexivity|split; vm_compute; reflexivity].
  - vm_compute. reflexivity.
  - reflexivity.
  - vm_compute. reflexivity.
  - vm_compute. reflexivity.
  - change (4116 + 8 + 16)%Z with 4140%Z in *.
    assert ((Handle_set demo 256 256 4140 800 demo3).1 = Ret tt) as Hret by (vm_compute; reflexivity).
    rewrite He in Hret. simpl in Hret. subst r. destruct Hr as (news & _ & Hi & _ & Hc).
    exists A', news. split; [exact He|split; [exact Hi|exact Hc]].
Defined.

#[local] Instance Z_add_inj z : Inj (=) (=) (Z.add z).
Proof. intros x y. lia. Qed.

(** [demo3] moved by 100000 bytes, in a server with its own block. *)
Definition demo_moved : Allocator := set_mem demo3 (kmap (Z.add 100000) (mem demo3)).

Lemma heap_relocatable_witness :
  follow demo demo3 100 (4116 + 8) [] = Some (100, 4124)%Z ∧
  follow demo demo_moved 100 (100000 + (4116 + 8)) [] = Some (100, 100000 + 4124)%Z ∧
  (∀ x, (0 ≤ x < 32)%Z → word (mem demo_moved) (100000 + 4124 + x) = word (mem demo3) (4124 + x)) ∧
  follow demo demo_moved 100 (100000 + (4116 + 8)) [1] = None ∧
  copied (C:=demo) (mem demo_moved) (mem demo3) 5 100 (100000 + (4116 + 8)) (4116 + 8).
Proof.
  destruct (heap_relocatable demo demo3 demo_moved {[4116%Z := 100%Z]} [(4120, 100)%Z] 100000 demo3_inv) with (c := 4116%Z) (i := 100%Z)
    as [Hpath Hcopied].
  - intros c i x _ _. unfold word, demo_moved. cbn [mem set_mem]. by rewrite (lookup_kmap (Z.add 100000)).
  - reflexivity.
  - split; [reflexivity|]. pose proof (Hpath []) as H0. pose proof (Hpath [1]) as H1.
    change (follow demo demo3 100 (4116 + 8) []) with (Some (100, 4124)%Z) in H0. destruct H0 as (Hf & _ & Hw & _).
    assert (follow demo demo3 100 (4116 + 8) [1] = None) as Hn by (vm_compute; reflexivity). rewrite Hn in H1.
    split; [exact Hf|]. split; [exact Hw|]. split; [exact H1|exact (Hcopied 5)].
Defined.

(** [demo3] with a node linked at 4140, and a handle at 700 to an object too
    large for the block. *)
Definition demo4 : Allocator :=
  let A := (Handle_set demo 256 256 4140 800 demo3).2 in
  set_mem A (<[700 := 200]> (<[708 := 103]> (mem A)))%Z.

Lemma Handle_set_throw_retypes_witness :
  ∃ A', Handle_set demo 256 256 4140 700 demo4 = (NotEnoughSpace, A') ∧
    getTarget A' 4140 = 4160%Z ∧ typeInfo demo4 4140 = 100%Z ∧ typeInfo A' 4140 = 103%Z.
Proof.
  destruct (Handle_set_throw_retypes demo 256 256 demo4 4140 700) as (He & Ht & Hi).
  - vm_compute. reflexivity.
  - vm_compute. reflexivity.
  - vm_compute. reflexivity.
  - vm_compute. reflexivity.
  - eexists. split; [exact He|]. split; [rewrite Ht; vm_compute; reflexivity|].
    split; [vm_compute; reflexivity|rewrite Hi; vm_compute; reflexivity].
Defined.

(** ** Defects on concrete states *)

(** [demo3] after its only object was dropped: its chunk is free, with a count
    of zero. *)
Definition demo5 : Allocator := (decRefCount demo 1 4120 100 demo3).2.

(** When a constructor throws in a reused chunk, [makeObject] frees the chunk
    twice: once itself, and once more when the handle it made for the sake of
    the count is destroyed.  The block then counts -1 objects and hands the
    same chunk to two objects. *)
Theorem makeObject_frees_twice :
  let '(r, A) := makeObject demo 1 0 100 1000 (λ _, lift NotEnoughSpace) demo5 in
  r = NotEnoughSpace ∧ free_chunks (myState demo5) = [4116%Z] ∧ free_chunks (myState A) = [4116; 4116]%Z ∧
  ALLOCATOR_REF_COUNT A = UINT32_MAX ∧
  let '(r1, A1) := makeObject demo 1 0 100 1000 (construct demo 100) A in
  r1 = Ret 4120%Z ∧ (makeObject demo 1 0 100 1000 (construct demo 100) A1).1 = Ret 4120%Z.
Proof. by vm_compute. Qed.

(** Two nodes in the block, the first dropped again: the chunk at 4116 is free,
    the one at 4156 in use.  Outside, a handle at 700 to an object of the wider
    class at 904, the last member of which is 5. *)
Definition demo6 : Allocator :=
  let A := demo4 in
  let A := (decRefCount demo 2 4120 100 (set_mem A (<[4140 := (-1)]> (mem A)))%Z).2 in
  set_mem A (<[700 := 200]> (<[708 := 102]> (<[936 := 5]> (mem A))))%Z.

(** [copyTargetToCurrentAllocationBlock] asks for the size of the declared type
    and copies the object's own type: the copy of a derived object overwrites
    the size of the next chunk. *)
Theorem copyTarget_overruns_chunk :
  GET_CHUNK_SIZE demo6 4156 = 40%Z ∧
  let '(r, A) := copyTargetToCurrentAllocationBlock demo 10 10 700 100 1000 1100 demo6 in
  r = Ret tt ∧ getTarget A 1100 = 4120%Z ∧ GET_CHUNK_SIZE A 4116 = 40%Z ∧ GET_CHUNK_SIZE A 4156 = 5%Z.
Proof. by vm_compute. Qed.

(** A block without exceptions that is full, with a short string at 4136, and a
    long one of 20 bytes at 912. *)
Definition demo7 : Allocator :=
  let A := (setupBlock 4096 40 false alloc0).2 in
  set_mem A (<[4128 := (-256)]> (<[4136 := 1]> (<[912 := 88]> (<[920 := (-20)]> (mem A)))))%Z.

(** Copying a long string in a full block that returns null instead of
    throwing writes the characters through a null handle:
    [makeObjectWithExtraStorage] is not checked. *)
Theorem String_assign_null_undefined :
  (String_assign demo (decRefCount demo 1) (setUpAndCopy demo 1 1) 4128 912 demo7).1 = Undefined.
Proof. by vm_compute. Qed.
