(* ===== verification/PageCircularBuffer.v ===== *)
(** * PageCircularBuffer: the bounded queue between page scanners and workers

    Models [storage/source/PageCircularBuffer.cc].  One array slot stays empty
    to tell a full buffer from an empty one.  The calls, run one at a time,
    refine a bounded first-in first-out queue; a second model splits the calls
    at their memory accesses, because a producer and a consumer hold different
    mutexes. *)

From S2P Require Import Prelude.

Record buffer {P : Type} := MkBuffer {
  pageArray : list (option P);
  maxArraySize : Z;
  pageArrayHead : Z;
  pageArrayTail : Z;
  closed : bool
}.
Arguments buffer : clear implicits.
Arguments MkBuffer {P}.

(** What a call returns: [addPageToTail] returns 0 ([RDone]) or keeps spinning
    on a full buffer ([RBlocked]); [popPageFromHead] returns a page, returns
    null, or waits on the condition variable ([RBlocked]). *)
Inductive result {P : Type} := RDone | RPage (p : option P) | RBlocked | RInvalid.
Arguments result : clear implicits.

Inductive call {P : Type} := CallAdd (p : P) | CallPop | CallClose | CallOpen.
Arguments call : clear implicits.

Section buffer.
Context {P : Type}.
Implicit Types (b : buffer P) (l : list P).

Definition set_array b a : buffer P :=
  MkBuffer a (maxArraySize b) (pageArrayHead b) (pageArrayTail b) (closed b).
Definition set_head b h : buffer P :=
  MkBuffer (pageArray b) (maxArraySize b) h (pageArrayTail b) (closed b).
Definition set_tail b t : buffer P :=
  MkBuffer (pageArray b) (maxArraySize b) (pageArrayHead b) t (closed b).
Definition set_closed b c : buffer P :=
  MkBuffer (pageArray b) (maxArraySize b) (pageArrayHead b) (pageArrayTail b) c.

(** The constructor, with [initArray]. *)
Definition PageCircularBuffer_new (bufferSize : Z) : buffer P :=
  let m := u32 (bufferSize + 1) in MkBuffer (replicate (Z.to_nat m) None) m 0 0 false.

(** [(i + 1) % maxArraySize] *)
Definition next_index b (i : Z) : Z := u32 (i + 1) mod maxArraySize b.

Definition isFull b : bool := (pageArrayHead b =? next_index b (pageArrayTail b))%Z.
Definition isEmpty b : bool := (pageArrayHead b =? pageArrayTail b)%Z.
Definition getSize b : Z := u32 (pageArrayTail b - pageArrayHead b + maxArraySize b) mod maxArraySize b.

(** [addPageToTail] up to the notification; it spins while full. *)
Definition addPageToTail (page : P) b : result P * buffer P :=
  if isFull b then (RBlocked, b)
  else
    let t := next_index b (pageArrayTail b) in
    if decide (Z.to_nat t < length (pageArray b)) then
      (RDone, set_array (set_tail b t) (<[Z.to_nat t := Some page]> (pageArray b)))
    else (RInvalid, b).

(** [popPageFromHead] from the point where it holds the mutex and no longer
    waits: after [pthread_cond_wait] the buffer is tested once more. *)
Definition pop_awake b : result P * buffer P :=
  if isEmpty b then (RPage None, b)
  else
    let h := next_index b (pageArrayHead b) in
    match pageArray b !! Z.to_nat h with
    | Some ret => (RPage ret, set_array (set_head b h) (<[Z.to_nat h := None]> (pageArray b)))
    | None => (RInvalid, b)
    end.

(** [popPageFromHead]: waits when empty and not closed. *)
Definition popPageFromHead b : result P * buffer P :=
  if isEmpty b && negb (closed b) then (RBlocked, b) else pop_awake b.

Definition close b : buffer P := set_closed b true.
Definition open b : buffer P := set_closed b false.
Definition isClosed b : bool := closed b.

Definition exec_call (c : call P) b : result P * buffer P :=
  match c with
  | CallAdd p => addPageToTail p b
  | CallPop => popPageFromHead b
  | CallClose => (RDone, close b)
  | CallOpen => (RDone, open b)
  end.

(** The results of a sequence of calls. *)
Fixpoint exec_calls (cs : list (call P)) b : list (result P) :=
  match cs with
  | [] => []
  | c :: cs' => let '(r, b') := exec_call c b in r :: exec_calls cs' b'
  end.

(** ** Specification: a queue of at most [capacity] pages *)

Definition spec_call (capacity : nat) (c : call P) (s : list P * bool) : result P * (list P * bool) :=
  let '(l, cl) := s in
  match c with
  | CallAdd p => if decide (length l < capacity) then (RDone, (l ++ [p], cl)) else (RBlocked, s)
  | CallPop =>
      match l with
      | p :: l' => (RPage (Some p), (l', cl))
      | [] => if cl then (RPage None, s) else (RBlocked, s)
      end
  | CallClose => (RDone, (l, true))
  | CallOpen => (RDone, (l, false))
  end.

Fixpoint spec_calls (capacity : nat) (cs : list (call P)) (s : list P * bool) : list (result P) :=
  match cs with
  | [] => []
  | c :: cs' => let '(r, s') := spec_call capacity c s in r :: spec_calls capacity cs' s'
  end.

(** Slot [i] places behind the head. *)
Definition slot_of b (i : nat) : Z := (pageArrayHead b + 1 + Z.of_nat i) mod maxArraySize b.

(** Buffer [b] holds the pages [l], oldest first. *)
Record stores b l : Prop := {
  st_len : Z.of_nat (length (pageArray b)) = maxArraySize b;
  st_size : (1 ≤ maxArraySize b ≤ 2147483648)%Z;
  st_head : (0 ≤ pageArrayHead b < maxArraySize b)%Z;
  st_tail : pageArrayTail b = ((pageArrayHead b + Z.of_nat (length l)) mod maxArraySize b)%Z;
  st_room : (Z.of_nat (length l) < maxArraySize b)%Z;
  st_pages i p : l !! i = Some p → pageArray b !! Z.to_nat (slot_of b i) = Some (Some p)
}.

(** ** Proofs *)

Lemma mod_shift_ne (m a d : Z) : (0 < d < m)%Z → ((a + d) mod m ≠ a mod m)%Z.
Proof.
  intros Hd He. pose proof (Z.div_mod (a + d) m ltac:(lia)). pose proof (Z.div_mod a m ltac:(lia)).
  assert (d = m * ((a + d) / m - a / m))%Z as Hk by lia.
  set (k := ((a + d) / m - a / m)%Z) in *. assert (k ≤ 0 ∨ 1 ≤ k)%Z as [?|?] by lia; nia.
Qed.

Lemma slot_bounds b l i : stores b l → (0 ≤ slot_of b i < maxArraySize b)%Z.
Proof. intros Hb. pose proof (st_size _ _ Hb). apply Z.mod_pos_bound. lia. Qed.

Lemma slot_ne b l i j : stores b l → i < j → (Z.of_nat j < maxArraySize b)%Z →
  Z.to_nat (slot_of b j) ≠ Z.to_nat (slot_of b i).
Proof.
  intros Hb Hij Hj. pose proof (slot_bounds b l i Hb). pose proof (slot_bounds b l j Hb).
  intros He. apply Z2Nat.inj in He; [|lia|lia]. revert He. unfold slot_of.
  replace (pageArrayHead b + 1 + Z.of_nat j)%Z with
    (pageArrayHead b + 1 + Z.of_nat i + Z.of_nat (j - i))%Z by lia.
  apply mod_shift_ne. lia.
Qed.

Lemma next_index_spec b l i :
  stores b l → (0 ≤ i < maxArraySize b)%Z → next_index b i = ((i + 1) mod maxArraySize b)%Z.
Proof. intros Hb Hi. pose proof (st_size _ _ Hb). unfold next_index. rewrite u32_small; [done|word_lia]. Qed.

Lemma next_tail b l : stores b l → next_index b (pageArrayTail b) = slot_of b (length l).
Proof.
  intros Hb. pose proof (st_size _ _ Hb). rewrite (next_index_spec b l); [|done|].
  - rewrite (st_tail _ _ Hb). unfold slot_of. rewrite Zplus_mod_idemp_l. f_equal. lia.
  - rewrite (st_tail _ _ Hb). apply Z.mod_pos_bound. lia.
Qed.

Lemma isFull_spec b l :
  stores b l → isFull b = bool_decide (Z.of_nat (length l) = maxArraySize b - 1)%Z.
Proof.
  intros Hb. unfold isFull. rewrite (next_tail b l Hb). pose proof (st_room _ _ Hb).
  pose proof (st_head _ _ Hb) as Hh. unfold slot_of. case_bool_decide as Hc.
  - apply Z.eqb_eq. rewrite Hc.
    replace (pageArrayHead b + 1 + (maxArraySize b - 1))%Z with (pageArrayHead b + 1 * maxArraySize b)%Z by lia.
    by rewrite Z_mod_plus_full, Z.mod_small.
  - apply Z.eqb_neq. intros He. rewrite <- (Z.mod_small _ _ Hh) in He at 1. symmetry in He. revert He.
    rewrite <- Z.add_assoc. apply mod_shift_ne. lia.
Qed.

Lemma isEmpty_spec b l : stores b l → isEmpty b = bool_decide (l = []).
Proof.
  intros Hb. unfold isEmpty. rewrite (st_tail _ _ Hb). pose proof (st_head _ _ Hb) as Hh.
  pose proof (st_room _ _ Hb). case_bool_decide as Hc.
  - subst l. simpl. apply Z.eqb_eq. by rewrite Z.add_0_r, Z.mod_small.
  - apply Z.eqb_neq. intros He. rewrite <- (Z.mod_small _ _ Hh) in He at 1. symmetry in He. revert He.
    apply mod_shift_ne. destruct l; [done|simpl in *; lia].
Qed.

Lemma getSize_spec b l : stores b l → getSize b = Z.of_nat (length l).
Proof.
  intros Hb. unfold getSize. pose proof (st_size _ _ Hb). pose proof (st_head _ _ Hb).
  pose proof (st_room _ _ Hb). rewrite (st_tail _ _ Hb).
  pose proof (Z.mod_pos_bound (pageArrayHead b + Z.of_nat (length l)) (maxArraySize b) ltac:(lia)).
  rewrite u32_small by word_lia.
  replace (_ - _ + _)%Z with ((pageArrayHead b + Z.of_nat (length l)) mod maxArraySize b
    + (maxArraySize b - pageArrayHead b))%Z by lia.
  rewrite Zplus_mod_idemp_l.
  replace (_ + _ + _)%Z with (Z.of_nat (length l) + 1 * maxArraySize b)%Z by lia.
  rewrite Z_mod_plus_full. apply Z.mod_small. lia.
Qed.

Lemma new_stores n : (0 ≤ n ≤ 2147483647)%Z →
  stores (PageCircularBuffer_new n) [] ∧ maxArraySize (PageCircularBuffer_new n) = (n + 1)%Z.
Proof.
  intros Hn. unfold PageCircularBuffer_new. rewrite u32_small by word_lia.
  split; [|done]. split; simpl; rewrite ?length_replicate; try lia.
  - rewrite Z.mod_small by lia. done.
  - intros i p Hi. by rewrite lookup_nil in Hi.
Qed.

Lemma add_stores b l p :
  stores b l →
  if decide (Z.of_nat (length l) < maxArraySize b - 1)%Z then
    ∃ b', addPageToTail p b = (RDone, b') ∧ stores b' (l ++ [p]) ∧ closed b' = closed b ∧
      maxArraySize b' = maxArraySize b
  else addPageToTail p b = (RBlocked, b).
Proof.
  intros Hb. unfold addPageToTail. rewrite (isFull_spec b l Hb). pose proof (st_room _ _ Hb).
  pose proof (st_len _ _ Hb). pose proof (slot_bounds b l (length l) Hb).
  destruct (decide _) as [Hr|Hr]; [|by rewrite bool_decide_true by lia].
  rewrite bool_decide_false by lia. rewrite (next_tail b l Hb), decide_True by lia.
  eexists. split; [done|]. split; [|done]. pose proof Hb as [Hl Hs Hh Ht Hroom Hp].
  split; simpl; rewrite ?length_insert, ?length_app; simpl; try done; [| lia|].
  - unfold slot_of. f_equal. lia.
  - intros i q Hi. change (slot_of (set_array _ _) i) with (slot_of b i).
    destruct (decide (i = length l)) as [->|Hne].
    + rewrite lookup_app_r, Nat.sub_diag in Hi by lia. simplify_eq/=. apply list_lookup_insert_eq. lia.
    + pose proof (lookup_lt_Some _ _ _ Hi) as Hlt. rewrite length_app in Hlt. simpl in Hlt.
      rewrite lookup_app_l in Hi by lia. rewrite list_lookup_insert_ne; [by apply Hp|].
      apply (slot_ne b l); [done|lia|lia].
Qed.

Lemma pop_awake_stores b p l :
  stores b (p :: l) →
  ∃ b', pop_awake b = (RPage (Some p), b') ∧ stores b' l ∧ closed b' = closed b ∧
    maxArraySize b' = maxArraySize b.
Proof.
  intros Hb. unfold pop_awake. rewrite (isEmpty_spec b _ Hb), bool_decide_false by done.
  pose proof (st_head _ _ Hb) as Hh. rewrite (next_index_spec b _ _ Hb Hh).
  assert ((pageArrayHead b + 1) mod maxArraySize b = slot_of b 0)%Z as Hs0.
  { unfold slot_of. f_equal. simpl. lia. }
  rewrite Hs0, (st_pages _ _ Hb 0 p eq_refl). eexists. split; [done|]. split; [|done].
  pose proof (slot_bounds b _ 0 Hb). pose proof Hb as [Hl Hs _ Ht Hroom Hp]. simpl in Hroom.
  assert (∀ i, slot_of (set_array (set_head b (slot_of b 0)) (<[Z.to_nat (slot_of b 0):=None]> (pageArray b))) i
    = slot_of b (S i)) as Hsl.
  { intros i. unfold slot_of at 1. simpl. rewrite <- Hs0, <- Z.add_assoc, Zplus_mod_idemp_l.
    unfold slot_of. f_equal. lia. }
  split; simpl; rewrite ?length_insert; try done; [|lia|].
  - rewrite Ht, <- Hs0. simpl. rewrite Zplus_mod_idemp_l. f_equal. lia.
  - intros i q Hi. rewrite Hsl. rewrite list_lookup_insert_ne; [by apply Hp|].
    pose proof (lookup_lt_Some _ _ _ Hi). apply not_eq_sym, (slot_ne b _ 0 (S i) Hb); lia.
Qed.

(** One call does what the queue does. *)
Lemma exec_call_refines n c b l :
  stores b l → maxArraySize b = (Z.of_nat n + 1)%Z →
  let '(r, b') := exec_call c b in
  ∃ l', spec_call n c (l, closed b) = (r, (l', closed b')) ∧ stores b' l' ∧
    maxArraySize b' = maxArraySize b.
Proof.
  intros Hb Hn. destruct c as [p| | |]; simpl.
  - pose proof (add_stores b l p Hb) as Ha. rewrite Hn in Ha.
    destruct (decide (Z.of_nat (length l) < Z.of_nat n + 1 - 1)%Z).
    + destruct Ha as (b' & -> & Hb' & Hc & Hm). rewrite decide_True by lia. exists (l ++ [p]).
      split_and!; [congruence|done|congruence].
    + rewrite Ha, decide_False by lia. by exists l.
  - unfold popPageFromHead. rewrite (isEmpty_spec b l Hb). destruct l as [|p l].
    + simpl. unfold pop_awake. rewrite (isEmpty_spec b [] Hb). simpl.
      destruct (closed b) eqn:E; simpl; exists []; rewrite ?E; done.
    + rewrite bool_decide_false by done. simpl. destruct (pop_awake_stores b p l Hb) as (b' & -> & Hb' & Hc & Hm).
      exists l. split_and!; [congruence|done|done].
  - exists l. split; [done|]. split; [|done]. by destruct Hb as [? ? ? ? ? Hp]; split.
  - exists l. split; [done|]. split; [|done]. by destruct Hb as [? ? ? ? ? Hp]; split.
Qed.

(** ** Properties *)

(** [C32] The circular buffer implements a bounded queue: any sequence of
    calls, each run to its end, returns on a buffer of size [n] what a queue
    of capacity [n] returns: pages come out in the order they went in, none is
    lost or duplicated, a producer blocks exactly when [n] pages wait, and a
    consumer exactly when none waits and the buffer is open. *)
Theorem exec_calls_refine (n : Z) (cs : list (call P)) :
  (0 ≤ n ≤ 2147483647)%Z →
  exec_calls cs (PageCircularBuffer_new n) = spec_calls (Z.to_nat n) cs ([], false).
Proof.
  intros Hn. destruct (new_stores n Hn) as [Hb Hm].
  assert (∀ b l, stores b l → maxArraySize b = (n + 1)%Z →
    exec_calls cs b = spec_calls (Z.to_nat n) cs (l, closed b)) as H; [|by apply (H (PageCircularBuffer_new n) [])].
  clear Hb Hm. induction cs as [|c cs IH]; intros b l Hb Hm; [done|]. cbn [exec_calls spec_calls].
  pose proof (exec_call_refines (Z.to_nat n) c b l Hb ltac:(lia)) as Hc.
  destruct (exec_call c b) as [r b']. destruct Hc as (l' & -> & Hb' & Hm'). f_equal.
  apply IH; [done|congruence].
Qed.

(** [getSize] is the number of pages in the buffer, and the tests for
    full and empty agree with it. *)
Theorem getSize_counts (b : buffer P) (l : list P) :
  stores b l →
  getSize b = Z.of_nat (length l) ∧ (isEmpty b = true ↔ getSize b = 0%Z) ∧
  (isFull b = true ↔ getSize b = (maxArraySize b - 1)%Z).
Proof.
  intros Hb. rewrite (getSize_spec b l Hb), (isEmpty_spec b l Hb), (isFull_spec b l Hb).
  rewrite !bool_decide_eq_true. split; [done|]. split; [|done]. destruct l; simpl; split; done || lia.
Qed.
End buffer.

Lemma exec_calls_refine_witness :
  exec_calls [CallAdd 1; CallAdd 2; CallAdd 3; CallPop; CallClose; CallPop; CallPop] (PageCircularBuffer_new 2) =
  spec_calls 2 [CallAdd 1; CallAdd 2; CallAdd 3; CallPop; CallClose; CallPop; CallPop] ([], false).
Proof. apply (exec_calls_refine 2). lia. Defined.

Lemma getSize_counts_witness :
  getSize (PageCircularBuffer_new (P:=nat) 2) = 0%Z ∧
  (isEmpty (PageCircularBuffer_new (P:=nat) 2) = true ↔ getSize (PageCircularBuffer_new (P:=nat) 2) = 0%Z) ∧
  (isFull (PageCircularBuffer_new (P:=nat) 2) = true ↔ getSize (PageCircularBuffer_new (P:=nat) 2) = 2%Z).
Proof. exact (getSize_counts (PageCircularBuffer_new (P:=nat) 2) [] (proj1 (new_stores 2 ltac:(lia)))). Defined.

(** ** Interleaved calls

    A producer holds [addPageMutex] and a consumer [mutex], so one producer
    and one consumer run at the same time.  Each makes its accesses to the
    shared fields one by one: the producer tests for full, moves the tail and
    stores the page; the consumer tests for empty, moves the head, takes the
    page and clears the slot. *)

Inductive producer {P : Type} := PIdle | PTested (p : P) | PMoved (p : P).
Arguments producer : clear implicits.

Inductive consumer {P : Type} := CIdle | CTested | CMoved | CGot (p : option P).
Arguments consumer : clear implicits.

Definition shared (P : Type) : Type := buffer P * producer P * consumer P.

Inductive thread_step {P : Type} : shared P → shared P → Prop :=
| ts_start b c p : isFull b = false → thread_step (b, PIdle, c) (b, PTested p, c)
| ts_tail b c p :
    thread_step (b, PTested p, c) (set_tail b (next_index b (pageArrayTail b)), PMoved p, c)
| ts_store b c p :
    thread_step (b, PMoved p, c)
      (set_array b (<[Z.to_nat (pageArrayTail b) := Some p]> (pageArray b)), PIdle, c)
| ts_test b q : isEmpty b = false → thread_step (b, q, CIdle) (b, q, CTested)
| ts_head b q : thread_step (b, q, CTested) (set_head b (next_index b (pageArrayHead b)), q, CMoved)
| ts_take b q r :
    pageArray b !! Z.to_nat (pageArrayHead b) = Some r →
    thread_step (b, q, CMoved)
      (set_array b (<[Z.to_nat (pageArrayHead b) := None]> (pageArray b)), q, CGot r)
| ts_return b q r : thread_step (b, q, CGot r) (b, q, CIdle).

(** The producer publishes the new tail before it stores the page, under
    a mutex the consumer does not take: from an empty buffer there is a run in
    which the consumer is handed null, the producer then stores its page and
    finishes, and the buffer is empty: the next consumer waits and the page is
    lost. *)
Theorem interleaving_loses_page :
  let b := PageCircularBuffer_new (P:=Z) 2 in
  ∃ b1 b2,
    rtc thread_step (b, PIdle, CIdle) (b1, PMoved 7%Z, CGot None) ∧
    rtc thread_step (b1, PMoved 7%Z, CGot None) (b2, PIdle, CIdle) ∧
    isEmpty b2 = true ∧ getSize b2 = 0%Z ∧ (popPageFromHead b2).1 = RBlocked.
Proof.
  simpl. eexists _, _. split; [|split].
  - eapply rtc_l; [by apply ts_start|]. eapply rtc_l; [apply ts_tail|].
    eapply rtc_l; [by apply ts_test|]. eapply rtc_l; [apply ts_head|].
    eapply rtc_l; [by apply (ts_take _ _ None)|]. apply rtc_refl.
  - eapply rtc_l; [apply ts_store|]. eapply rtc_l; [apply ts_return|]. apply rtc_refl.
  - vm_compute. done.
Qed.
