(* ===== verification/PDBPage.v ===== *)
(** * PDBPage: a page of the storage server

    Models [storage/source/PDBPage.cc] and [storage/headers/PDBPage.h]: the
    page header in the page's bytes, the allocation of objects at the append
    position, and the reference count.  The memory of a page is the list of
    its bytes; [rawBytes] is its address, 0 being null. *)

From S2P Require Import Prelude.

(** ** Little-endian words in bytes *)

Fixpoint le_bytes (n : nat) (v : Z) : list Z :=
  match n with
  | 0 => []
  | S n' => (v mod 256)%Z :: le_bytes n' (v / 256)
  end.

Fixpoint le_value (l : list Z) : Z :=
  match l with
  | [] => 0
  | b :: l' => b + 256 * le_value l'
  end.

(** The value of a 32-bit word read as [int]. *)
Definition s32 (v : Z) : Z := if (v <? 2147483648)%Z then v else (v - 4294967296)%Z.

(** [sizeof]s of the header fields add up to these offsets. *)
Definition OFF_NODE : nat := 0.
Definition OFF_DB : nat := 4.
Definition OFF_TYPE : nat := 8.
Definition OFF_SET : nat := 12.
Definition OFF_PAGE : nat := 16.
Definition OFF_NUM_OBJECTS : nat := 20.
Definition OFF_SIZE : nat := 24.
Definition OFF_OWNERS : nat := 32.
Definition PAGE_HEADER : nat := 36.

Record PDBPage := MkPDBPage {
  rawBytes : Z;
  nodeID : Z;
  dbID : Z;
  typeID : Z;
  setID : Z;
  pageID : Z;
  psize : Z;
  offset : Z;
  numObjects : Z;
  refCount : Z;
  numOwners : Z;
  pinned : bool;
  dirty : bool;
  inFlush : bool;
  inEviction : bool;
  accessSequenceId : Z;
  partitionId : Z;
  pageSeqInPartition : Z;
  curAppendOffset : Z;
  internalOffset : Z
}.

(** A page object and the bytes it points to. *)
Definition page_state : Type := PDBPage * list Z.

Implicit Types (p : PDBPage) (mem : list Z).

Definition set_refCount p r : PDBPage :=
  MkPDBPage (rawBytes p) (nodeID p) (dbID p) (typeID p) (setID p) (pageID p) (psize p) (offset p)
    (numObjects p) r (numOwners p) (pinned p) (dirty p) (inFlush p) (inEviction p) (accessSequenceId p)
    (partitionId p) (pageSeqInPartition p) (curAppendOffset p) (internalOffset p).
Definition setPinned p b : PDBPage :=
  MkPDBPage (rawBytes p) (nodeID p) (dbID p) (typeID p) (setID p) (pageID p) (psize p) (offset p)
    (numObjects p) (refCount p) (numOwners p) b (dirty p) (inFlush p) (inEviction p) (accessSequenceId p)
    (partitionId p) (pageSeqInPartition p) (curAppendOffset p) (internalOffset p).
Definition setDirty p b : PDBPage :=
  MkPDBPage (rawBytes p) (nodeID p) (dbID p) (typeID p) (setID p) (pageID p) (psize p) (offset p)
    (numObjects p) (refCount p) (numOwners p) (pinned p) b (inFlush p) (inEviction p) (accessSequenceId p)
    (partitionId p) (pageSeqInPartition p) (curAppendOffset p) (internalOffset p).
Definition setInFlush p b : PDBPage :=
  MkPDBPage (rawBytes p) (nodeID p) (dbID p) (typeID p) (setID p) (pageID p) (psize p) (offset p)
    (numObjects p) (refCount p) (numOwners p) (pinned p) (dirty p) b (inEviction p) (accessSequenceId p)
    (partitionId p) (pageSeqInPartition p) (curAppendOffset p) (internalOffset p).
Definition setInEviction p b : PDBPage :=
  MkPDBPage (rawBytes p) (nodeID p) (dbID p) (typeID p) (setID p) (pageID p) (psize p) (offset p)
    (numObjects p) (refCount p) (numOwners p) (pinned p) (dirty p) (inFlush p) b (accessSequenceId p)
    (partitionId p) (pageSeqInPartition p) (curAppendOffset p) (internalOffset p).
Definition setAccessSequenceId p n : PDBPage :=
  MkPDBPage (rawBytes p) (nodeID p) (dbID p) (typeID p) (setID p) (pageID p) (psize p) (offset p)
    (numObjects p) (refCount p) (numOwners p) (pinned p) (dirty p) (inFlush p) (inEviction p) n
    (partitionId p) (pageSeqInPartition p) (curAppendOffset p) (internalOffset p).
Definition setRawBytes p a : PDBPage :=
  MkPDBPage a (nodeID p) (dbID p) (typeID p) (setID p) (pageID p) (psize p) (offset p)
    (numObjects p) (refCount p) (numOwners p) (pinned p) (dirty p) (inFlush p) (inEviction p) (accessSequenceId p)
    (partitionId p) (pageSeqInPartition p) (curAppendOffset p) (internalOffset p).
Definition setOffset p o : PDBPage :=
  MkPDBPage (rawBytes p) (nodeID p) (dbID p) (typeID p) (setID p) (pageID p) (psize p) o
    (numObjects p) (refCount p) (numOwners p) (pinned p) (dirty p) (inFlush p) (inEviction p) (accessSequenceId p)
    (partitionId p) (pageSeqInPartition p) (curAppendOffset p) (internalOffset p).
Definition setCurAppendOffset p o : PDBPage :=
  MkPDBPage (rawBytes p) (nodeID p) (dbID p) (typeID p) (setID p) (pageID p) (psize p) (offset p)
    (numObjects p) (refCount p) (numOwners p) (pinned p) (dirty p) (inFlush p) (inEviction p) (accessSequenceId p)
    (partitionId p) (pageSeqInPartition p) o (internalOffset p).
Definition setPartition p pid seq : PDBPage :=
  MkPDBPage (rawBytes p) (nodeID p) (dbID p) (typeID p) (setID p) (pageID p) (psize p) (offset p)
    (numObjects p) (refCount p) (numOwners p) (pinned p) (dirty p) (inFlush p) (inEviction p) (accessSequenceId p)
    pid seq (curAppendOffset p) (internalOffset p).

(** ** Access to the page's bytes *)

(** Writing the low [n] bytes of [v]; outside the page it is undefined. *)
Definition write_le (off n : nat) (v : Z) : M page_state unit := λ '(p, mem),
  if decide (off + n ≤ length mem) then (Ret tt, (p, list_inserts off (le_bytes n v) mem))
  else (Undefined, (p, mem)).

Definition read_le (off n : nat) mem : Z := le_value (take n (drop off mem)).

Definition read_field (off n : nat) : M page_state Z := λ '(p, mem),
  if decide (off + n ≤ length mem) then (Ret (read_le off n mem), (p, mem)) else (Undefined, (p, mem)).

Definition on_page (f : PDBPage → PDBPage) : M page_state unit := modify (λ '(p, mem), (f p, mem)).

(** ** Constructors and header *)

(** The constructor for an empty page.  [inEviction] and [accessSequenceId]
    are not initialised by the code: [garbage] and [seq]. *)
Definition PDBPage_new (dataIn dataNodeID dataDbID dataTypeID dataSetID dataPageID dataSize shmOffset
    internalOff numObjectsIn sharedCounts : Z) (garbage : bool) (seq : Z) : PDBPage :=
  MkPDBPage dataIn dataNodeID dataDbID dataTypeID dataSetID dataPageID dataSize shmOffset numObjectsIn
    0 sharedCounts true false false garbage seq UINT32_MAX UINT32_MAX (Z.of_nat PAGE_HEADER) internalOff.

(** Its writes to the page: object count, size and owner count. *)
Definition init_header : M page_state unit := λ st,
  (write_le OFF_NUM_OBJECTS 4 (u32 (numObjects st.1)) ;;
   write_le OFF_SIZE 8 (psize st.1) ;;
   write_le OFF_OWNERS 4 (numOwners st.1)) st.

(** The constructor for a non-empty page.  The owner count is read
    [sizeof(unsigned int)] bytes behind the start of the size field. *)
Definition PDBPage_load (dataIn off internalOff : Z) (garbage : bool) (seq : Z) mem : outcome PDBPage :=
  if decide (PAGE_HEADER ≤ length mem) then
    Ret (MkPDBPage dataIn (read_le OFF_NODE 4 mem) (read_le OFF_DB 4 mem) (read_le OFF_TYPE 4 mem)
      (read_le OFF_SET 4 mem) (read_le OFF_PAGE 4 mem) (read_le OFF_SIZE 8 mem) off
      (s32 (read_le OFF_NUM_OBJECTS 4 mem)) 0 (read_le (OFF_SIZE + 4) 4 mem) true false false garbage seq
      UINT32_MAX UINT32_MAX (Z.of_nat PAGE_HEADER) internalOff)
  else Undefined.

(** [preparePage] *)
Definition preparePage : M page_state unit := λ st,
  (write_le OFF_NODE 4 (nodeID st.1) ;; write_le OFF_DB 4 (dbID st.1) ;;
   write_le OFF_TYPE 4 (typeID st.1) ;; write_le OFF_SET 4 (setID st.1) ;;
   write_le OFF_PAGE 4 (pageID st.1) ;; write_le OFF_NUM_OBJECTS 4 0 ;;
   write_le OFF_SIZE 8 (psize st.1) ;; write_le OFF_OWNERS 4 (numOwners st.1) ;;
   on_page (λ p, setCurAppendOffset p (Z.of_nat PAGE_HEADER))) st.

(** [freePage], as the destructor runs it. *)
Definition freePage p : PDBPage :=
  MkPDBPage 0 UINT32_MAX UINT32_MAX UINT32_MAX UINT32_MAX UINT32_MAX 0 0 0 (refCount p) 0 (pinned p)
    (dirty p) (inFlush p) (inEviction p) (accessSequenceId p) (partitionId p) (pageSeqInPartition p)
    (curAppendOffset p) 0.

(** [getBytes], [getSize]: the page body. *)
Definition getBytes p : Z := rawBytes p + Z.of_nat PAGE_HEADER.
Definition getSize p : Z := u64 (psize p - Z.of_nat PAGE_HEADER).
Definition getRawSize p : Z := psize p.

(** ** Reference count *)

Definition incRefCount p : PDBPage := setPinned (set_refCount p (refCount p + 1)) true.

Definition decRefCount p : PDBPage :=
  let p1 := set_refCount p (refCount p - 1) in
  if (refCount p1 <? 0)%Z then set_refCount (setPinned p1 false) 0
  else if (refCount p1 =? 0)%Z then setPinned p1 false else p1.

Definition decAndGetRefCount p : Z * PDBPage :=
  let p1 := set_refCount p (refCount p - 1) in
  let ret := refCount p1 in
  let p2 := if (ret <? 0)%Z then set_refCount p1 0 else p1 in
  (ret, if (refCount p2 =? 0)%Z then setPinned p2 false else p2).

Definition unpin p : PDBPage := decRefCount p.
Definition resetRefCount p : PDBPage := set_refCount p 0.

(** ** Objects *)

(** [incEmbeddedNumObjects] *)
Definition incEmbeddedNumObjects : M page_state Z :=
  n ← read_field OFF_NUM_OBJECTS 4;
  write_le OFF_NUM_OBJECTS 4 (u32 (n + 1)) ;;
  n' ← read_field OFF_NUM_OBJECTS 4; mret (s32 n').

Definition getEmbeddedNumObjects : M page_state Z := n ← read_field OFF_NUM_OBJECTS 4; mret (s32 n).
Definition getEmbeddedNumOwners : M page_state Z := read_field OFF_OWNERS 4.

(** [addFixedBytes]: the offset of the new area in the page, [None] when there
    is no room. *)
Definition addFixedBytes (size : Z) : M page_state (option Z) := λ st,
  let p := st.1 in
  if (u64 (psize p - curAppendOffset p) <? size)%Z then (Ret None, st)
  else
    (on_page (λ p, setCurAppendOffset p (u64 (curAppendOffset p + size))) ;;
     _ ← incEmbeddedNumObjects;
     mret (Some (curAppendOffset p))) st.

(** [addRemainBytes]: also returns the size. *)
Definition addRemainBytes : M page_state (option Z * Z) := λ st,
  let p := st.1 in
  let size := u64 (psize p - curAppendOffset p) in
  if (size =? 0)%Z then (Ret (None, size), st)
  else
    (on_page (λ p, setCurAppendOffset p (u64 (curAppendOffset p + size))) ;;
     _ ← incEmbeddedNumObjects;
     mret (Some (curAppendOffset p), size)) st.

(** [addVariableBytes]: the area is preceded by its size. *)
Definition addVariableBytes (size : Z) : M page_state (option Z) := λ st,
  let p := st.1 in
  if (u64 (psize p - curAppendOffset p) <? u64 (size + 8))%Z then (Ret None, st)
  else
    (write_le (Z.to_nat (curAppendOffset p)) 8 size ;;
     let retPos := (curAppendOffset p + 8)%Z in
     on_page (λ p, setCurAppendOffset p (retPos + size)%Z) ;;
     _ ← incEmbeddedNumObjects;
     mret (Some retPos)) st.

(** ** Invariants *)

(** The page object and its bytes agree: the append position is in the page,
    behind the header. *)
Definition page_ok (st : page_state) : Prop :=
  (psize st.1 = Z.of_nat (length st.2) ∧ Z.of_nat PAGE_HEADER ≤ curAppendOffset st.1 ≤ psize st.1 ∧
   psize st.1 < 9223372036854775808)%Z.

(** [n] objects laid out from [off] to the append position, each behind its
    size: the sizes in order. *)
Fixpoint walk (n : nat) (off : Z) mem : list (Z * Z) :=
  match n with
  | 0 => []
  | S n' =>
      let size := read_le (Z.to_nat off) 8 mem in
      (off + 8, size)%Z :: walk n' (off + 8 + size)%Z mem
  end.

(** ** Bytes *)

Lemma length_le_bytes n v : length (le_bytes n v) = n.
Proof. revert v. induction n as [|n IH]; intros v; simpl; [done|]. by rewrite IH. Qed.

Lemma le_value_bytes n v : (0 ≤ v < 256 ^ Z.of_nat n)%Z → le_value (le_bytes n v) = v.
Proof.
  revert v. induction n as [|n IH]; intros v Hv; simpl; [simpl in Hv; lia|].
  rewrite Nat2Z.inj_succ, Z.pow_succ_r in Hv by lia.
  pose proof (Z.div_mod v 256 ltac:(lia)). pose proof (Z.mod_pos_bound v 256 ltac:(lia)).
  rewrite IH; [lia|]. split; [apply Z.div_pos; lia|]. apply Z.div_lt_upper_bound; lia.
Qed.

Lemma read_inserts_eq off n bs mem :
  length bs = n → off + n ≤ length mem → read_le off n (list_inserts off bs mem) = le_value bs.
Proof.
  intros <- Hl. unfold read_le. f_equal. apply list_eq. intros i.
  destruct (decide (i < length bs)) as [Hi|Hi].
  - rewrite lookup_take_lt, lookup_drop by done. rewrite list_lookup_inserts by lia. f_equal. lia.
  - rewrite lookup_take_ge by lia. symmetry. apply lookup_ge_None. lia.
Qed.

Lemma read_inserts_ne off n off' bs mem :
  off' + n ≤ off ∨ off + length bs ≤ off' → read_le off' n (list_inserts off bs mem) = read_le off' n mem.
Proof.
  intros Hd. unfold read_le. f_equal. apply list_eq. intros i.
  destruct (decide (i < n)) as [Hi|Hi].
  - rewrite !lookup_take_lt, !lookup_drop by done.
    destruct Hd; [apply list_lookup_inserts_lt|apply list_lookup_inserts_ge]; lia.
  - by rewrite !lookup_take_ge by lia.
Qed.

Lemma write_le_ok off n v p mem :
  off + n ≤ length mem → write_le off n v (p, mem) = (Ret tt, (p, list_inserts off (le_bytes n v) mem)).
Proof. intros H. unfold write_le. by rewrite decide_True. Qed.

Lemma read_field_ok off n p mem :
  off + n ≤ length mem → read_field off n (p, mem) = (Ret (read_le off n mem), (p, mem)).
Proof. intros H. unfold read_field. by rewrite decide_True. Qed.

Create Rewrite HintDb page.

Lemma read_write_eq off n v mem :
  (0 ≤ v < 256 ^ Z.of_nat n)%Z → off + n ≤ length mem →
  read_le off n (list_inserts off (le_bytes n v) mem) = v.
Proof. intros Hv Hl. by rewrite read_inserts_eq, le_value_bytes by (done || apply length_le_bytes). Qed.

Lemma read_write_ne off n off' n' v mem :
  off' + n' ≤ off ∨ off + n ≤ off' →
  read_le off' n' (list_inserts off (le_bytes n v) mem) = read_le off' n' mem.
Proof. intros Hd. apply read_inserts_ne. rewrite length_le_bytes. lia. Qed.

(** Reading the upper half of eight bytes that were written. *)
Lemma read_write_upper off v mem :
  (0 ≤ v < u64_modulus)%Z → off + 8 ≤ length mem →
  read_le (off + 4) 4 (list_inserts off (le_bytes 8 v) mem) = (v / u32_modulus)%Z.
Proof.
  intros Hv Hl. rewrite <- (le_value_bytes 4 (v / u32_modulus)).
  2:{ split; [apply Z.div_pos; word_lia|]. apply Z.div_lt_upper_bound; word_lia. }
  unfold read_le. f_equal. apply list_eq. intros i.
  destruct (decide (i < 4)) as [Hi|Hi]; [|rewrite lookup_take_ge by lia; symmetry; by apply lookup_ge_None; rewrite length_le_bytes; lia].
  rewrite lookup_take_lt, lookup_drop by done. rewrite list_lookup_inserts by (rewrite ?length_le_bytes; lia).
  replace (off + 4 + i - off) with (4 + i) by lia. simpl. unfold u32_modulus. rewrite !Z.div_div by lia.
  destruct i as [|[|[|[|i]]]]; [done..|lia].
Qed.

#[export] Hint Rewrite (@length_inserts Z) : page.

(** Evaluates a run of header writes and the reads behind them. *)
Ltac header :=
  unfold OFF_NODE, OFF_DB, OFF_TYPE, OFF_SET, OFF_PAGE, OFF_NUM_OBJECTS, OFF_SIZE, OFF_OWNERS, PAGE_HEADER in *;
  repeat (run; rewrite write_le_ok by (autorewrite with page; lia)).

Ltac header_reads :=
  unfold OFF_NODE, OFF_DB, OFF_TYPE, OFF_SET, OFF_PAGE, OFF_NUM_OBJECTS, OFF_SIZE, OFF_OWNERS, PAGE_HEADER in *;
  repeat first [ rewrite read_write_eq by (autorewrite with page; (lia || (simpl; word_lia)))
               | rewrite read_write_ne by lia ].

(** The header fields of [mem] are those of [p], with [n] objects. *)
Record header_of p (n : Z) mem : Prop := {
  ho_node : read_le OFF_NODE 4 mem = nodeID p;
  ho_db : read_le OFF_DB 4 mem = dbID p;
  ho_type : read_le OFF_TYPE 4 mem = typeID p;
  ho_set : read_le OFF_SET 4 mem = setID p;
  ho_page : read_le OFF_PAGE 4 mem = pageID p;
  ho_objects : read_le OFF_NUM_OBJECTS 4 mem = n;
  ho_size : read_le OFF_SIZE 8 mem = psize p;
  ho_owners : read_le OFF_OWNERS 4 mem = numOwners p
}.

(** The fields of a page object fit their types. *)
Definition fields_ok p : Prop :=
  (0 ≤ nodeID p < u32_modulus ∧ 0 ≤ dbID p < u32_modulus ∧ 0 ≤ typeID p < u32_modulus ∧
   0 ≤ setID p < u32_modulus ∧ 0 ≤ pageID p < u32_modulus ∧ 0 ≤ psize p < u64_modulus ∧
   0 ≤ numOwners p < u32_modulus)%Z.

Lemma preparePage_spec p mem :
  fields_ok p → psize p = Z.of_nat (length mem) → PAGE_HEADER ≤ length mem →
  ∃ p' mem', preparePage (p, mem) = (Ret tt, (p', mem')) ∧ header_of p 0 mem' ∧
    length mem' = length mem ∧ p' = setCurAppendOffset p (Z.of_nat PAGE_HEADER) ∧
    (∀ off n, PAGE_HEADER ≤ off → read_le off n mem' = read_le off n mem) ∧
    read_le (OFF_SIZE + 4) 4 mem' = (psize p / u32_modulus)%Z.
Proof.
  intros (? & ? & ? & ? & ? & ? & ?) Hs Hl. unfold preparePage. header. run.
  eexists _, _. split; [done|]. split_and!; [|by autorewrite with page|done| |].
  - split; header_reads; done.
  - intros off n Hoff. header_reads. done.
  - rewrite read_write_ne by lia. apply read_write_upper; [done|autorewrite with page; lia].
Qed.

(** ** Appending *)

Lemma incEmbedded_spec p mem n :
  PAGE_HEADER ≤ length mem → read_le OFF_NUM_OBJECTS 4 mem = n → (0 ≤ n < 2147483647)%Z →
  incEmbeddedNumObjects (p, mem) =
    (Ret (n + 1)%Z, (p, list_inserts OFF_NUM_OBJECTS (le_bytes 4 (n + 1)) mem)).
Proof.
  intros Hl Hn Hb. unfold incEmbeddedNumObjects. run.
  unfold OFF_NUM_OBJECTS, PAGE_HEADER in *. rewrite read_field_ok by lia. run.
  rewrite Hn, u32_small by word_lia. rewrite write_le_ok by lia. run.
  rewrite read_field_ok by (autorewrite with page; lia). run.
  rewrite read_write_eq by (try (simpl; lia); lia). unfold s32.
  by rewrite (proj2 (Z.ltb_lt _ _)) by lia.
Qed.

(** The page [st'] after appending an object of [size] bytes, with its size
    word, to [st] holding [n] objects. *)
Record appended (st st' : page_state) (n size : Z) : Prop := {
  ap_page : st'.1 = setCurAppendOffset st.1 (curAppendOffset st.1 + 8 + size)%Z;
  ap_ok : page_ok st';
  ap_size : read_le (Z.to_nat (curAppendOffset st.1)) 8 st'.2 = size;
  ap_count : read_le OFF_NUM_OBJECTS 4 st'.2 = (n + 1)%Z;
  ap_header off k : off + k ≤ OFF_NUM_OBJECTS ∨ OFF_SIZE ≤ off →
    off + k ≤ Z.to_nat (curAppendOffset st.1) ∨ Z.to_nat (curAppendOffset st.1) + 8 ≤ off →
    read_le off k st'.2 = read_le off k st.2
}.

Lemma addVariableBytes_cases st n size :
  page_ok st → read_le OFF_NUM_OBJECTS 4 st.2 = n → (0 ≤ n < 2147483647)%Z →
  (0 ≤ size < 9223372036854775808)%Z →
  if decide (psize st.1 - curAppendOffset st.1 < size + 8)%Z
  then addVariableBytes size st = (Ret None, st)
  else ∃ st', addVariableBytes size st = (Ret (Some (curAppendOffset st.1 + 8)%Z), st') ∧
    appended st st' n size.
Proof.
  destruct st as [p mem]. intros (Hsz & Hcur & Hlim) Hn Hnb Hb. simpl in *.
  unfold addVariableBytes. cbn [fst]. unfold PAGE_HEADER in *.
  rewrite (u64_small (_ - _)), (u64_small (size + 8)) by word_lia.
  destruct (decide _) as [Hfull|Hroom].
  { by rewrite (proj2 (Z.ltb_lt _ _)) by lia. }
  rewrite (proj2 (Z.ltb_ge _ _)) by lia. run. rewrite write_le_ok by lia. unfold on_page. run.
  rewrite (incEmbedded_spec _ _ n); [run| | |lia].
  2:{ unfold PAGE_HEADER. autorewrite with page. lia. }
  2:{ rewrite read_write_ne; [done|]. left. unfold OFF_NUM_OBJECTS. lia. }
  eexists. split; [done|]. split; cbn [fst snd]; [done| | | |].
  - unfold page_ok, PAGE_HEADER. cbn [fst snd psize curAppendOffset setCurAppendOffset].
    autorewrite with page. lia.
  - unfold OFF_NUM_OBJECTS. rewrite read_write_ne by lia. rewrite read_write_eq; [done| |lia].
    simpl. lia.
  - apply read_write_eq; [simpl; lia|]. unfold OFF_NUM_OBJECTS. autorewrite with page. lia.
  - unfold OFF_NUM_OBJECTS, OFF_SIZE. intros off k H1 H2. rewrite !read_write_ne by lia. done.
Qed.

(** The objects [l], given by position and size, fill [off] to [q]. *)
Fixpoint laid (off q : Z) (l : list (Z * Z)) mem : Prop :=
  match l with
  | [] => off = q
  | (a, s) :: l' => a = (off + 8)%Z ∧ read_le (Z.to_nat off) 8 mem = s ∧ (0 ≤ s)%Z ∧
      laid (off + 8 + s)%Z q l' mem
  end.

Lemma laid_walk off q l mem : laid off q l mem → walk (length l) off mem = l.
Proof.
  revert off. induction l as [|[a s] l IH]; intros off; simpl; [done|].
  intros (-> & -> & _ & Hl). by rewrite IH.
Qed.

Lemma laid_le off q l mem : laid off q l mem → (off ≤ q)%Z.
Proof.
  revert off. induction l as [|[a s] l IH]; intros off; simpl; [intros ->; lia|].
  intros (_ & _ & ? & Hl). apply IH in Hl. lia.
Qed.

Lemma laid_ext off q l mem mem' :
  (0 ≤ off)%Z → laid off q l mem →
  (∀ o, Z.to_nat off ≤ o → o + 8 ≤ Z.to_nat q → read_le o 8 mem' = read_le o 8 mem) →
  laid off q l mem'.
Proof.
  revert off. induction l as [|[a s] l IH]; intros off Hoff; simpl; [done|].
  intros (-> & Hs & Hs0 & Hl) Hm. pose proof (laid_le _ _ _ _ Hl). split; [done|].
  rewrite Hm by lia. split; [done|]. split; [done|]. apply IH; [lia|done|]. intros o Ho Hq. apply Hm; lia.
Qed.

Lemma laid_snoc off q l mem s :
  laid off q l mem → read_le (Z.to_nat q) 8 mem = s → (0 ≤ s)%Z →
  laid off (q + 8 + s)%Z (l ++ [((q + 8)%Z, s)]) mem.
Proof.
  revert off. induction l as [|[a s'] l IH]; intros off; simpl; [by intros -> ? ?|].
  intros (? & ? & ? & Hl) ??. split_and!; [done|done|done|by apply IH].
Qed.

(** Appending a list of objects, as [UserSet::addObject] does one by one. *)
Fixpoint add_all (sizes : list Z) : M page_state (list (option Z)) :=
  match sizes with
  | [] => mret []
  | s :: sizes' => r ← addVariableBytes s; rs ← add_all sizes'; mret (r :: rs)
  end.

(** The positions the objects get, one behind the other from [off]. *)
Fixpoint positions (off : Z) (sizes : list Z) : list (Z * Z) :=
  match sizes with
  | [] => []
  | s :: sizes' => (off + 8, s)%Z :: positions (off + 8 + s)%Z sizes'
  end.

Definition total (sizes : list Z) : Z := foldr (λ s acc, s + 8 + acc)%Z 0%Z sizes.

Lemma total_nonneg sizes : Forall (λ s, 0 ≤ s)%Z sizes → (0 ≤ total sizes)%Z.
Proof. induction 1; simpl; [done|]. unfold total in *. lia. Qed.

Lemma add_all_spec sizes st n l :
  page_ok st → read_le OFF_NUM_OBJECTS 4 st.2 = n → (0 ≤ n)%Z →
  (n + Z.of_nat (length sizes) ≤ 2147483647)%Z → Forall (λ s, 0 ≤ s)%Z sizes →
  (curAppendOffset st.1 + total sizes ≤ psize st.1)%Z →
  laid (Z.of_nat PAGE_HEADER) (curAppendOffset st.1) l st.2 →
  ∃ st', add_all sizes st = (Ret (Some ∘ fst <$> positions (curAppendOffset st.1) sizes), st') ∧
    page_ok st' ∧ read_le OFF_NUM_OBJECTS 4 st'.2 = (n + Z.of_nat (length sizes))%Z ∧
    laid (Z.of_nat PAGE_HEADER) (curAppendOffset st'.1) (l ++ positions (curAppendOffset st.1) sizes) st'.2.
Proof.
  revert st n l. induction sizes as [|s sizes IH]; intros st n l Hok Hn Hn0 Hlen Hpos Hfit Hl; simpl.
  { exists st. rewrite app_nil_r, Z.add_0_r. done. }
  apply Forall_cons in Hpos as [Hs Hpos]. pose proof (total_nonneg sizes Hpos).
  unfold total in Hfit. simpl in Hfit, Hlen. fold (total sizes) in Hfit.
  destruct Hok as (Hsz & Hcur & Hlim).
  pose proof (addVariableBytes_cases st n s (conj Hsz (conj Hcur Hlim)) Hn ltac:(lia) ltac:(lia)) as Ha.
  rewrite decide_False in Ha by lia. destruct Ha as (st1 & E & Hap). run. rewrite E. run.
  pose proof (ap_page _ _ _ _ Hap) as Hp1.
  assert (curAppendOffset st1.1 = curAppendOffset st.1 + 8 + s)%Z as Hc1 by (by rewrite Hp1).
  assert (psize st1.1 = psize st.1) as Hs1 by (by rewrite Hp1).
  assert (laid (Z.of_nat PAGE_HEADER) (curAppendOffset st1.1) (l ++ [((curAppendOffset st.1 + 8)%Z, s)]) st1.2) as Hl1.
  { rewrite Hc1. apply laid_snoc; [|apply Hap|done].
    eapply laid_ext; [|exact Hl|]; [unfold PAGE_HEADER; lia|]. intros o Ho Hq.
    unfold PAGE_HEADER in *. apply (ap_header _ _ _ _ Hap); [right; unfold OFF_SIZE; lia|left; lia]. }
  destruct (IH st1 (n + 1)%Z _ (ap_ok _ _ _ _ Hap) (ap_count _ _ _ _ Hap) ltac:(lia) ltac:(lia) Hpos
    ltac:(lia) Hl1) as (st' & E' & Hok' & Hn' & Hl').
  rewrite Hc1 in E', Hl'. exists st'. rewrite E'. run. split; [done|]. split; [done|]. split; [rewrite Hn'; lia|].
  by rewrite <- app_assoc in Hl'.
Qed.

(** ** Properties *)

(** [C36] The header round trip: a page object built from the bytes that
    [preparePage] wrote, for a page whose fields fit their types and whose size is
    that of its memory, has the identifiers and the size of the page that
    wrote them, no objects, no references, and an empty body.  The count of
    owners does not come back: the object has the upper half of the size
    instead, although the bytes hold the count of the page that wrote them. *)
Theorem load_prepared_page (p : PDBPage) (mem : list Z) (dataIn off io : Z) (g : bool) (seq : Z) :
  fields_ok p → psize p = Z.of_nat (length mem) → PAGE_HEADER ≤ length mem →
  ∃ mem' p' q, preparePage (p, mem) = (Ret tt, (p', mem')) ∧
    PDBPage_load dataIn off io g seq mem' = Ret q ∧
    nodeID q = nodeID p ∧ dbID q = dbID p ∧ typeID q = typeID p ∧ setID q = setID p ∧
    pageID q = pageID p ∧ psize q = psize p ∧ numObjects q = 0%Z ∧
    curAppendOffset q = curAppendOffset p' ∧ getSize q = (psize p - 36)%Z ∧ refCount q = 0%Z ∧
    numOwners q = (psize p / u32_modulus)%Z ∧ getEmbeddedNumOwners (q, mem') = (Ret (numOwners p), (q, mem')).
Proof.
  intros Hf Hs Hl. pose proof Hf as (_ & _ & _ & _ & _ & Hsz & _).
  destruct (preparePage_spec p mem Hf Hs Hl) as (p' & mem' & E & Hh & Hlm & Hp & _ & Hup).
  exists mem', p'. eexists. split; [done|]. unfold PDBPage_load. rewrite decide_True by lia.
  split; [done|]. destruct Hh. simpl. split_and!; try done.
  - by rewrite ho_objects0.
  - by rewrite Hp.
  - unfold getSize. simpl. rewrite ho_size0. unfold PAGE_HEADER in *. rewrite u64_small by word_lia. lia.
  - rewrite decide_True by (unfold OFF_OWNERS, PAGE_HEADER in *; lia). by rewrite ho_owners0.
Qed.

(** Appending objects to a fresh page: as long as the sizes fit, each
    [addVariableBytes] returns the next position, the embedded object count is
    the number of objects, and walking the body by the recorded sizes finds
    exactly the objects appended, in order and without overlap. *)
Theorem add_all_walk (p : PDBPage) (mem : list Z) (sizes : list Z) :
  fields_ok p → psize p = Z.of_nat (length mem) → Forall (λ s, 0 ≤ s)%Z sizes →
  (36 + total sizes ≤ psize p < 9223372036854775808)%Z → (Z.of_nat (length sizes) ≤ 2147483647)%Z →
  ∃ st', (preparePage ;; add_all sizes) (p, mem) = (Ret (Some ∘ fst <$> positions 36 sizes), st') ∧
    read_le OFF_NUM_OBJECTS 4 st'.2 = Z.of_nat (length sizes) ∧
    walk (length sizes) 36 st'.2 = positions 36 sizes ∧
    curAppendOffset st'.1 = (36 + total sizes)%Z.
Proof.
  intros Hf Hs Hpos Hfit Hlen. pose proof (total_nonneg sizes Hpos).
  destruct (preparePage_spec p mem Hf Hs) as (p' & mem' & E & Hh & Hlm & Hp & _); [unfold PAGE_HEADER; lia|].
  assert (curAppendOffset p' = 36 ∧ psize p' = psize p)%Z as [Hc1 Hs1] by by rewrite Hp.
  destruct (add_all_spec sizes (p', mem') 0 []) as (st' & E' & Hok & Hn & Hl).
  - unfold page_ok. simpl. rewrite Hc1, Hs1. unfold PAGE_HEADER. lia.
  - apply Hh.
  - lia.
  - lia.
  - done.
  - simpl. rewrite Hc1, Hs1. lia.
  - simpl. by rewrite Hc1.
  - simpl in E', Hl, Hn. rewrite Hc1 in E', Hl. exists st'. run. rewrite E. split_and!; [done|done| |].
    + pose proof (laid_walk _ _ _ _ Hl) as Hw.
      assert (∀ o, length (positions o sizes) = length sizes) as Hlp.
      { clear. induction sizes as [|s sizes IH]; intros o; simpl; [done|by rewrite IH]. }
      rewrite Hlp in Hw. exact Hw.
    + revert Hl. assert (∀ o q, laid o q (positions o sizes) st'.2 → q = o + total sizes)%Z as Hq.
      { clear. induction sizes as [|s sizes IH]; intros o q; simpl; [intros ->; unfold total; simpl; lia|].
        intros (_ & _ & _ & Hl). apply IH in Hl. unfold total in *. simpl. lia. }
      apply Hq.
Qed.

(** A sequence of pins ([true]) and unpins ([false]). *)
Definition pin_unpin p (b : bool) : PDBPage := if b then incRefCount p else decRefCount p.

(** The reference count under any sequence of pins and unpins is the
    number of pins not undone, an unpin at zero being ignored; once a page was
    pinned, it is marked pinned exactly while the count is positive. *)
Theorem refCount_pinned (p : PDBPage) (ops : list bool) :
  (0 ≤ refCount p)%Z → pinned p = bool_decide (0 < refCount p)%Z →
  let p' := foldl pin_unpin p ops in
  refCount p' = foldl (λ (r : Z) (b : bool), if b then r + 1 else Z.max 0 (r - 1))%Z (refCount p) ops ∧
  pinned p' = bool_decide (0 < refCount p')%Z.
Proof.
  revert p. induction ops as [|b ops IH]; intros p Hr Hp; [done|]. simpl.
  assert (refCount (pin_unpin p b) = (if b then refCount p + 1 else Z.max 0 (refCount p - 1))%Z ∧
    pinned (pin_unpin p b) = bool_decide (0 < refCount (pin_unpin p b))%Z) as [Hr' Hp'].
  { destruct b; simpl.
    - split; [done|]. by rewrite bool_decide_true by lia.
    - unfold decRefCount. simpl. destruct (Z.ltb_spec (refCount p - 1) 0); simpl; [split; [lia|done]|].
      destruct (Z.eqb_spec (refCount p - 1) 0) as [E|E]; simpl.
      + rewrite E. by split.
      + split; [lia|]. rewrite Hp. apply bool_decide_ext. lia. }
  rewrite <- Hr'. apply IH; [|done]. rewrite Hr'. destruct b; lia.
Qed.

(** ** Witnesses and counterexamples *)

(** A page of 128 bytes with three owners. *)
Definition page0 : PDBPage := PDBPage_new 4096 1 2 3 4 5 128 0 0 0 3 false 0.
Definition mem0 : list Z := replicate 128 0%Z.

Lemma page0_ok : fields_ok page0 ∧ psize page0 = Z.of_nat (length mem0).
Proof. unfold fields_ok. simpl. unfold u32_modulus, u64_modulus. split; [lia|done]. Qed.

Lemma load_prepared_page_witness :
  ∃ mem' p' q, preparePage (page0, mem0) = (Ret tt, (p', mem')) ∧
    PDBPage_load 8192 0 0 false 0 mem' = Ret q ∧ pageID q = 5%Z ∧ psize q = 128%Z ∧
    numOwners q = 0%Z ∧ getEmbeddedNumOwners (q, mem') = (Ret 3%Z, (q, mem')).
Proof.
  destruct (load_prepared_page page0 mem0 8192 0 0 false 0 (proj1 page0_ok) (proj2 page0_ok))
    as (mem' & p' & q & H1 & H2 & _ & _ & _ & _ & H3 & H4 & _ & _ & _ & _ & H5 & H6).
  { vm_compute. lia. }
  exists mem', p', q. split; [exact H1|]. split; [exact H2|]. split; [exact H3|]. split; [exact H4|]. split; [exact H5|exact H6].
Defined.

Lemma add_all_walk_witness :
  ∃ st', (preparePage ;; add_all [16; 0; 40]%Z) (page0, mem0) =
      (Ret [Some 44; Some 68; Some 76]%Z, st') ∧
    walk 3 36 st'.2 = [(44, 16); (68, 0); (76, 40)]%Z.
Proof.
  destruct (add_all_walk page0 mem0 [16; 0; 40]%Z (proj1 page0_ok) (proj2 page0_ok))
    as (st' & H1 & _ & H2 & _).
  - repeat constructor; discriminate.
  - simpl. split; [lia|reflexivity].
  - simpl. lia.
  - exists st'. split; [exact H1|exact H2].
Defined.

Lemma refCount_pinned_witness :
  let p' := foldl pin_unpin (incRefCount page0) [true; false; false; false] in
  refCount p' = 0%Z ∧ pinned p' = bool_decide (0 < refCount p')%Z.
Proof. apply (refCount_pinned (incRefCount page0) [true; false; false; false]); [simpl; lia|reflexivity]. Defined.

(** The owner count is lost in the round trip: the constructor for a
    non-empty page reads it four bytes too early, in the upper half of the
    page size, although the page's bytes hold it. *)
Theorem load_loses_owners :
  let '(r, (p', mem')) := preparePage (page0, mem0) in
  (getEmbeddedNumOwners (p', mem')).1 = Ret 3%Z ∧
  numOwners <$> PDBPage_load 8192 0 0 false 0 mem' = Ret 0%Z.
Proof. by vm_compute. Qed.
