(* ===== verification/Files.v ===== *)
(** * Files: the file operations of the storage server

    What [storage/source/PartitionedFile.cc] uses of the C and POSIX libraries:
    streams that are opened with [fopen] in the modes "w", "r+" and "a+",
    descriptors that are opened with [O_RDWR | O_APPEND], their reads, writes
    and seeks, and [remove].  A file is the list of its bytes, a disk a map from
    paths to files.  Every write of the code is followed by [fflush], so buffers
    are left out.  How many bytes the disk accepts of a write, and which paths
    can be opened, are arguments. *)

From Stdlib Require Import Ascii String.
From S2P Require Import Prelude.
From S2P Require Import PDBPage.

Abbreviation disk := (gmap string (list Z)).

Implicit Types (d : disk) (data : list Z).

(** ** Streams and descriptors *)

Record stream := Stream { s_path : string; s_pos : nat; s_reads : bool; s_append : bool }.

(** A member that holds a stream or a descriptor: null or -1; one that was
    closed and not reset; or an open one. *)
Inductive handle :=
| NoHandle
| Dangling
| Open (s : stream).

Definition contents d (path : string) : list Z := default [] (d !! path).

(** [fopen(path, "w")] cuts the file to nothing, "r+" keeps it, "a+" makes it
    if it is not there, as [open] with [O_CREAT] does. *)
Definition fopen_w (path : string) d : stream * disk := (Stream path 0 false false, <[path := []]> d).
Definition fopen_r (path : string) d : stream * disk := (Stream path 0 true false, d).
Definition fopen_a (path : string) d : stream * disk := (Stream path 0 true true, <[path := contents d path]> d).

(** Bytes written at a position replace those that are there; a gap behind the
    end is filled with zeros. *)
Definition overwrite (pos : nat) data l : list Z :=
  take pos l ++ replicate (pos - length l) 0%Z ++ data ++ drop (pos + length data) l.

(** [fwrite] and [write]: of [data] the disk takes the first [accepted] bytes. *)
Definition fwrite (accepted : nat) data (s : stream) d : nat * (stream * disk) :=
  let written := take accepted data in
  let l := contents d (s_path s) in
  let pos := if s_append s then length l else s_pos s in
  (length written,
   (Stream (s_path s) (pos + length written) (s_reads s) (s_append s), <[s_path s := overwrite pos written l]> d)).

(** [fread] and [read] of at most [n] bytes. *)
Definition fread (n : nat) (s : stream) d : list Z * stream :=
  let got := if s_reads s then take n (drop (s_pos s) (contents d (s_path s))) else [] in
  (got, Stream (s_path s) (s_pos s + length got) (s_reads s) (s_append s)).

(** [fseek] and [lseek] from the beginning; an offset that is negative as a
    [long] is refused. *)
Definition fseek (offset : Z) (s : stream) : bool * stream :=
  if (offset <? 9223372036854775808)%Z then (true, Stream (s_path s) (Z.to_nat offset) (s_reads s) (s_append s))
  else (false, s).

(** ** Strings in memory *)

Definition string_bytes (s : string) : list Z := (λ c, Z.of_N (N_of_ascii c)) <$> list_ascii_of_string s.
Definition bytes_string (l : list Z) : string := string_of_list_ascii ((λ b, ascii_of_N (Z.to_N b)) <$> l).

(** A string as [c_str] gives it, with the zero that ends it. *)
Definition c_str (s : string) : list Z := string_bytes s ++ [0%Z].

(** Strings that C functions read whole. *)
Definition no_zero (s : string) : Prop := Forall (λ b, b ≠ 0%Z) (string_bytes s).

(** ** Reading from a buffer

    [cur] is the rest of the buffer; reading past its end is undefined. *)

Definition parser : Type → Type := M (list Z).

Definition get_le (n : nat) : parser Z := λ cur,
  if decide (n ≤ length cur) then (Ret (le_value (take n cur)), drop n cur) else (Undefined, cur).

(** Moving on without reading. *)
Definition advance (n : nat) : parser unit := λ cur, (Ret tt, drop n cur).

(** [string(cur)] reads up to a zero and does not move. *)
Fixpoint until_zero (cur : list Z) : option (list Z) :=
  match cur with
  | [] => None
  | b :: rest => if (b =? 0)%Z then Some [] else (b ::.) <$> until_zero rest
  end.

Definition peek_string : parser string := λ cur,
  match until_zero cur with
  | Some l => (Ret (bytes_string l), cur)
  | None => (Undefined, cur)
  end.

(** ** What is written can be read *)

(** A parser reads a value from the bytes that stand for it and leaves the rest.
    Instances follow the structure of the parser. *)
Class Parses {A} (p : parser A) (bytes : list Z) (a : A) : Prop :=
  parses rest : p (bytes ++ rest) = (Ret a, rest).

#[export] Instance Parses_ret {A} (a : A) : Parses (mret a) [] a.
Proof. intros rest. reflexivity. Qed.

#[export] Instance Parses_bind {A B} (p : parser A) (f : A → parser B) l1 l2 a b :
  Parses p l1 a → Parses (f a) l2 b → Parses (p ≫= f) (l1 ++ l2) b.
Proof.
  intros Hp Hf rest. unfold mbind, M_bind. rewrite <- app_assoc, (parses (p:=p)). apply Hf.
Qed.

Lemma Parses_get n v : (0 ≤ v < 256 ^ Z.of_nat n)%Z → Parses (get_le n) (le_bytes n v) v.
Proof.
  intros Hv rest. unfold get_le. rewrite decide_True by (rewrite length_app, length_le_bytes; lia).
  rewrite take_app_length', drop_app_length' by (by rewrite length_le_bytes). by rewrite le_value_bytes.
Qed.

Lemma Parses_skip n l : length l = n → Parses (advance n) l tt.
Proof. intros <- rest. unfold advance. by rewrite drop_app_length. Qed.

Lemma Parses_bind_ret {A B} (p : parser A) (f : A → parser B) l a b :
  Parses p l a → Parses (f a) [] b → Parses (p ≫= f) l b.
Proof. intros Hp Hf. rewrite <- (app_nil_r l). by apply Parses_bind with a. Qed.

(** Reading a given number of records that follow one another. *)
Lemma Parses_repeat {A} (p : parser A) (bytes : A → list Z) (xs : list A) : ∀ k,
  Forall (λ x, Parses p (bytes x) x) xs → Parses (mapM (λ _ : nat, p) (seq k (length xs))) (concat (bytes <$> xs)) xs.
Proof.
  induction xs as [|x xs IH]; intros k Hp; [apply _|]. apply Forall_cons in Hp as [Hx Hp].
  cbn [fmap list_fmap concat length seq mapM]. apply Parses_bind with (a := x); [done|].
  apply Parses_bind_ret with (a := xs); [by apply IH|apply _].
Qed.

(** ** Lemmas *)

Lemma sum_list_first n l : sum_list (n :: l) = n + sum_list l.
Proof. done. Qed.

Lemma ascii_byte c : ascii_of_N (Z.to_N (Z.of_N (N_of_ascii c))) = c.
Proof. by rewrite N2Z.id, ascii_N_embedding. Qed.

Lemma bytes_string_bytes s : bytes_string (string_bytes s) = s.
Proof.
  unfold bytes_string, string_bytes. rewrite <- list_fmap_compose.
  rewrite (list_fmap_ext _ id); [by rewrite list_fmap_id, string_of_list_ascii_of_string|].
  intros i c _. apply ascii_byte.
Qed.

Lemma length_string_bytes s : length (string_bytes s) = String.length s.
Proof. unfold string_bytes. rewrite length_fmap. induction s; cbn; [done|]. by rewrite IHs. Qed.

Lemma until_zero_app l rest : Forall (λ b, b ≠ 0%Z) l → until_zero (l ++ 0%Z :: rest) = Some l.
Proof.
  induction 1 as [|b l Hb _ IH]; [done|]. cbn [app until_zero].
  rewrite (proj2 (Z.eqb_neq b 0)) by done. by rewrite IH.
Qed.

Lemma peek_c_str s rest : no_zero s → peek_string (c_str s ++ rest) = (Ret s, c_str s ++ rest).
Proof.
  intros Hs. unfold peek_string, c_str. rewrite <- app_assoc. cbn [app].
  rewrite until_zero_app by done. by rewrite bytes_string_bytes.
Qed.

Lemma contents_insert d path l : contents (<[path := l]> d) path = l.
Proof. unfold contents. by rewrite lookup_insert_eq. Qed.

Lemma contents_insert_ne d path path' l : path ≠ path' → contents (<[path := l]> d) path' = contents d path'.
Proof. intros Hne. unfold contents. by rewrite lookup_insert_ne. Qed.

Lemma overwrite_start data l : overwrite 0 data l = data ++ drop (length data) l.
Proof. done. Qed.

Lemma overwrite_end data l : overwrite (length l) data l = l ++ data.
Proof.
  unfold overwrite. rewrite firstn_all, Nat.sub_diag, drop_ge by lia. cbn [replicate app]. by rewrite app_nil_r.
Qed.

(** Two writes after one another at the start of a file. *)
Lemma overwrite_next (data1 data2 l : list Z) :
  take (length data1 + length data2) (overwrite (length data1) data2 (overwrite 0 data1 l)) = data1 ++ data2.
Proof.
  unfold overwrite at 1. rewrite overwrite_start, take_app_length, length_app.
  replace (length data1 - _) with 0 by lia. cbn [replicate app]. rewrite app_assoc.
  by rewrite take_app_length' by (by rewrite length_app).
Qed.
