(* ===== verification/FileMetaData.v ===== *)
(** * FileMetaData: the metadata of a partitioned file

    Models [storage/headers/PartitionedFileMetaData.h]: which page of which
    partition has which id, in both directions, the counts, and the pages that a
    file shares with another set.  The mutexes are taken and given back within
    one method each and left out; numbers of shared pages are below 2^31. *)

From S2P Require Import Prelude.
From S2P Require Import PDBPage.
From S2P Require Import Files.

Record PageIndex := MkPageIndex { pi_partitionId : Z; pi_pageSeqInPartition : Z }.

#[export] Instance PageIndex_eq_dec : EqDecision PageIndex.
Proof. solve_decision. Defined.

#[export] Program Instance PageIndex_countable : Countable PageIndex :=
  inj_countable' (λ i, (pi_partitionId i, pi_pageSeqInPartition i)) (λ p, MkPageIndex p.1 p.2) _.
Next Obligation. by intros []. Qed.

Record SetKey := MkSetKey { sk_dbId : Z; sk_typeId : Z; sk_setId : Z }.

(** The metadata of one partition. *)
Record PartitionMetaData := MkPartition { pm_partitionId : Z; pm_numPages : Z; pm_path : string }.

Definition PartitionMetaData_new (path : string) (partitionId : Z) : PartitionMetaData := MkPartition partitionId 0 path.
Definition set_numPages (n : Z) (m : PartitionMetaData) : PartitionMetaData := MkPartition (pm_partitionId m) n (pm_path m).
Definition incNumPages (m : PartitionMetaData) : PartitionMetaData := set_numPages (u32 (pm_numPages m + 1)) m.

Record PartitionedFileMetaData := MkMetaData {
  version : Z;
  partitions : option (list PartitionMetaData);
  md_pageSize : Z;
  numFlushedPages : Z;
  latestPageId : Z;
  pageIndexes : gmap Z PageIndex;
  pageIds : gmap PageIndex Z;
  numSharedPages : Z;
  sharedSetKey : SetKey;
  sharedPageIndexes : option (list PageIndex);
  sharedPageMaps : option (gmap Z (gmap Z PageIndex))
}.

Implicit Types (m : PartitionedFileMetaData).

(** The constructor leaves the latest page id and the key of the shared set as
    they are in memory: [latest] and [key]. *)
Definition MetaData_new (latest : Z) (key : SetKey) : PartitionedFileMetaData :=
  MkMetaData 0 None 0 0 latest ∅ ∅ 0 key None None.

Definition setVersion v m := MkMetaData v (partitions m) (md_pageSize m) (numFlushedPages m) (latestPageId m)
  (pageIndexes m) (pageIds m) (numSharedPages m) (sharedSetKey m) (sharedPageIndexes m) (sharedPageMaps m).
Definition setPartitions ps m := MkMetaData (version m) ps (md_pageSize m) (numFlushedPages m) (latestPageId m)
  (pageIndexes m) (pageIds m) (numSharedPages m) (sharedSetKey m) (sharedPageIndexes m) (sharedPageMaps m).
Definition setPageSize s m := MkMetaData (version m) (partitions m) s (numFlushedPages m) (latestPageId m)
  (pageIndexes m) (pageIds m) (numSharedPages m) (sharedSetKey m) (sharedPageIndexes m) (sharedPageMaps m).
Definition setNumFlushedPages n m := MkMetaData (version m) (partitions m) (md_pageSize m) n (latestPageId m)
  (pageIndexes m) (pageIds m) (numSharedPages m) (sharedSetKey m) (sharedPageIndexes m) (sharedPageMaps m).
Definition setLatestPageId i m := MkMetaData (version m) (partitions m) (md_pageSize m) (numFlushedPages m) i
  (pageIndexes m) (pageIds m) (numSharedPages m) (sharedSetKey m) (sharedPageIndexes m) (sharedPageMaps m).
Definition set_indexes idx ids m := MkMetaData (version m) (partitions m) (md_pageSize m) (numFlushedPages m) (latestPageId m)
  idx ids (numSharedPages m) (sharedSetKey m) (sharedPageIndexes m) (sharedPageMaps m).
Definition setNumSharedPages n m := MkMetaData (version m) (partitions m) (md_pageSize m) (numFlushedPages m) (latestPageId m)
  (pageIndexes m) (pageIds m) n (sharedSetKey m) (sharedPageIndexes m) (sharedPageMaps m).
Definition setSharedSetKey db ty set m := MkMetaData (version m) (partitions m) (md_pageSize m) (numFlushedPages m) (latestPageId m)
  (pageIndexes m) (pageIds m) (numSharedPages m) (MkSetKey db ty set) (sharedPageIndexes m) (sharedPageMaps m).
Definition set_shared list maps m := MkMetaData (version m) (partitions m) (md_pageSize m) (numFlushedPages m) (latestPageId m)
  (pageIndexes m) (pageIds m) (numSharedPages m) (sharedSetKey m) list maps.

Definition incNumFlushedPages m := setNumFlushedPages (u32 (numFlushedPages m + 1)) m.

(** [unordered_map::insert] leaves a key that is there alone. *)
Definition insert_new {K A} `{Countable K} (k : K) (a : A) (t : gmap K A) : gmap K A :=
  match t !! k with Some _ => t | None => <[k := a]> t end.

Definition addPageIndex (pageId partitionId pageSeqInPartition : Z) m : PartitionedFileMetaData :=
  let pageIndex := MkPageIndex partitionId pageSeqInPartition in
  set_indexes (insert_new pageId pageIndex (pageIndexes m)) (insert_new pageIndex pageId (pageIds m)) m.

Definition getPageIndex (pageId : Z) m : PageIndex :=
  match pageIndexes m !! pageId with
  | None => MkPageIndex UINT32_MAX UINT32_MAX
  | Some pageIndex => pageIndex
  end.

Definition getPageId (partitionId pageSeqInPartition : Z) m : Z :=
  match pageIds m !! MkPageIndex partitionId pageSeqInPartition with
  | None => UINT32_MAX
  | Some pageId => pageId
  end.

(** [partitions->at(partitionId)]; an exception that nothing catches ends the
    process. *)
Definition getPartition (partitionId : nat) m : outcome PartitionMetaData :=
  match partitions m with
  | None => Undefined
  | Some ps => match ps !! partitionId with Some p => Ret p | None => Exit 134 end
  end.

(** [getPartition(partitionId)->incNumPages()]: the partition is shared. *)
Definition incPartition (partitionId : nat) m : PartitionedFileMetaData :=
  setPartitions ((λ ps, alter incNumPages partitionId ps) <$> partitions m) m.

Definition addPartition (p : PartitionMetaData) m : PartitionedFileMetaData :=
  setPartitions (Some (default [] (partitions m) ++ [p])) m.

(** ** Shared pages *)

Definition addSharedPageIndex (pageId partitionId pageSeqInPartition : Z) m : PartitionedFileMetaData :=
  let pageIndex := MkPageIndex partitionId pageSeqInPartition in
  let maps := default ∅ (sharedPageMaps m) in
  setNumSharedPages (numSharedPages m + 1)
    (set_shared (Some (default [] (sharedPageIndexes m) ++ [pageIndex]))
       (Some (<[partitionId := <[pageId := pageIndex]> (default ∅ (maps !! partitionId))]> maps)) m).

(** The loop over the list: [erase] returns the iterator behind the element,
    and the loop moves it once more, past the end if that was the last one. *)
Fixpoint remove_indexes (i : PageIndex) (l : list PageIndex) : outcome (list PageIndex) :=
  match l with
  | [] => Ret []
  | r :: rest =>
      if decide (r = i) then
        match rest with
        | [] => Undefined
        | skipped :: rest' => cons skipped <$> remove_indexes i rest'
        end
      else cons r <$> remove_indexes i rest
  end.

(** [sharedPageMaps[partitionId]] indexes the pointer and not the map, so for
    partition 0 [erase(pageId)] takes the map of a partition away, and for any
    other it is undefined. *)
Definition removeSharedPageIndex (pageId partitionId pageSeqInPartition : Z) m : outcome PartitionedFileMetaData :=
  match sharedPageIndexes m, sharedPageMaps m with
  | Some l, Some maps =>
      l' ← remove_indexes (MkPageIndex partitionId pageSeqInPartition) l;
      if (partitionId =? 0)%Z then Ret (set_shared (Some l') (Some (delete pageId maps)) m) else Undefined
  | _, _ => Ret m
  end.

(** ** Lemmas *)

(** The two maps are inverse to each other. *)
Definition inverse_maps (idx : gmap Z PageIndex) (ids : gmap PageIndex Z) : Prop :=
  ∀ pageId i, idx !! pageId = Some i ↔ ids !! i = Some pageId.

Lemma insert_new_fresh {K A} `{Countable K} (k : K) (a : A) (t : gmap K A) : t !! k = None → insert_new k a t = <[k := a]> t.
Proof. intros Hk. unfold insert_new. by rewrite Hk. Qed.

Lemma inverse_maps_insert idx ids pageId i :
  inverse_maps idx ids → idx !! pageId = None → ids !! i = None →
  inverse_maps (<[pageId := i]> idx) (<[i := pageId]> ids).
Proof.
  intros Hinv H1 H2 pageId' i'. specialize (Hinv pageId' i').
  rewrite !lookup_insert_Some. split.
  - intros [[<- <-] | [Hne Hi]]; [by left|]. right. split; [|tauto]. intros <-. apply Hinv in Hi. congruence.
  - intros [[<- <-] | [Hne Hi]]; [by left|]. right. split; [|tauto]. intros <-. apply Hinv in Hi. congruence.
Qed.

(** Entries that are added one after the other to empty maps. *)
Definition add_entries (l : list (Z * PageIndex)) m : PartitionedFileMetaData :=
  foldl (λ m e, addPageIndex e.1 (pi_partitionId e.2) (pi_pageSeqInPartition e.2) m) m l.

Lemma add_entries_spec l : ∀ m idx ids,
  pageIndexes m = idx → pageIds m = ids → NoDup l.*1 → NoDup l.*2 →
  (∀ e, e ∈ l → idx !! e.1 = None ∧ ids !! e.2 = None) →
  add_entries l m = set_indexes (list_to_map l ∪ idx) (list_to_map (prod_swap <$> l) ∪ ids) m.
Proof.
  induction l as [|[k i] l IH]; intros m idx ids <- <- Hk Hi Hfresh.
  - destruct m. unfold set_indexes. cbn. by rewrite !(left_id_L ∅ (∪)).
  - cbn [fmap list_fmap fst snd] in Hk, Hi. apply NoDup_cons in Hk as [Hk Hks], Hi as [Hi His].
    destruct (Hfresh (k, i)) as [F1 F2]; [left|]. cbn [fst snd] in F1, F2.
    cbn [add_entries foldl fst snd]. unfold addPageIndex at 2. destruct i as [p s]. cbn [pi_partitionId pi_pageSeqInPartition].
    rewrite !insert_new_fresh by done.
    fold (add_entries l (set_indexes (<[k := MkPageIndex p s]> (pageIndexes m)) (<[MkPageIndex p s := k]> (pageIds m)) m)).
    rewrite (IH _ (<[k := MkPageIndex p s]> (pageIndexes m)) (<[MkPageIndex p s := k]> (pageIds m))); try done.
    + unfold set_indexes. cbn. f_equal.
      * rewrite <- insert_union_l, <- insert_union_r; [done|].
        apply not_elem_of_list_to_map_1. done.
      * rewrite <- insert_union_l, <- insert_union_r; [done|].
        apply not_elem_of_list_to_map_1. rewrite <- list_fmap_compose. done.
    + intros [k' i'] He. destruct (Hfresh (k', i')) as [G1 G2]; [by right|]. cbn [fst snd] in *.
      rewrite !lookup_insert_ne; [done| |].
      * intros <-. apply Hi. apply list_elem_of_fmap. by exists (k', MkPageIndex p s).
      * intros <-. apply Hk. apply list_elem_of_fmap. by exists (k, i').
Qed.
