(* ===== verification/PartitionedFile.v ===== *)
(** * PartitionedFile: the pages of a set in files

    Models [storage/source/PartitionedFile.cc]: a file for the metadata and a
    file for each data partition, appending and loading pages by number, writing
    the metadata and building it again from its file.  Which paths can be opened,
    how many bytes of a write the disk accepts and whether [calloc] finds memory
    are arguments; so is the order in which an [unordered_map] is iterated
    ([MapOrder]).  A page is its object and its bytes as in [PDBPage]; its memory
    holds at least its raw size.  Descriptors opened with [O_DIRECT] read and
    write like others. *)

From S2P Require Import Prelude.
From S2P Require Import PDBPage.
From S2P Require Import Files.
From S2P Require Import FileMetaData.

(** ** State *)

Record PartitionedFile := MkFile {
  pf_nodeId : Z;
  pf_dbId : Z;
  pf_typeId : Z;
  pf_setId : Z;
  metaPartitionPath : string;
  dataPartitionPaths : list string;
  pf_pageSize : Z;
  usingDirect : bool;
  cleared : bool;
  metaFile : handle;
  dataFiles : list handle;
  dataHandles : list handle;
  metaData : option PartitionedFileMetaData;
  fileMutex : bool
}.

Implicit Types (f : PartitionedFile) (d : disk) (m : PartitionedFileMetaData).

Definition set_dataPartitionPaths ps f := MkFile (pf_nodeId f) (pf_dbId f) (pf_typeId f) (pf_setId f) (metaPartitionPath f)
  ps (pf_pageSize f) (usingDirect f) (cleared f) (metaFile f) (dataFiles f) (dataHandles f) (metaData f) (fileMutex f).
Definition set_pageSize s f := MkFile (pf_nodeId f) (pf_dbId f) (pf_typeId f) (pf_setId f) (metaPartitionPath f)
  (dataPartitionPaths f) s (usingDirect f) (cleared f) (metaFile f) (dataFiles f) (dataHandles f) (metaData f) (fileMutex f).
Definition set_cleared b f := MkFile (pf_nodeId f) (pf_dbId f) (pf_typeId f) (pf_setId f) (metaPartitionPath f)
  (dataPartitionPaths f) (pf_pageSize f) (usingDirect f) b (metaFile f) (dataFiles f) (dataHandles f) (metaData f) (fileMutex f).
Definition set_metaFile h f := MkFile (pf_nodeId f) (pf_dbId f) (pf_typeId f) (pf_setId f) (metaPartitionPath f)
  (dataPartitionPaths f) (pf_pageSize f) (usingDirect f) (cleared f) h (dataFiles f) (dataHandles f) (metaData f) (fileMutex f).
Definition set_dataFiles hs f := MkFile (pf_nodeId f) (pf_dbId f) (pf_typeId f) (pf_setId f) (metaPartitionPath f)
  (dataPartitionPaths f) (pf_pageSize f) (usingDirect f) (cleared f) (metaFile f) hs (dataHandles f) (metaData f) (fileMutex f).
Definition set_dataHandles hs f := MkFile (pf_nodeId f) (pf_dbId f) (pf_typeId f) (pf_setId f) (metaPartitionPath f)
  (dataPartitionPaths f) (pf_pageSize f) (usingDirect f) (cleared f) (metaFile f) (dataFiles f) hs (metaData f) (fileMutex f).
Definition set_metaData o f := MkFile (pf_nodeId f) (pf_dbId f) (pf_typeId f) (pf_setId f) (metaPartitionPath f)
  (dataPartitionPaths f) (pf_pageSize f) (usingDirect f) (cleared f) (metaFile f) (dataFiles f) (dataHandles f) o (fileMutex f).
Definition set_fileMutex b f := MkFile (pf_nodeId f) (pf_dbId f) (pf_typeId f) (pf_setId f) (metaPartitionPath f)
  (dataPartitionPaths f) (pf_pageSize f) (usingDirect f) (cleared f) (metaFile f) (dataFiles f) (dataHandles f) (metaData f) b.

(** A file object and the disk. *)
Definition fstate : Type := PartitionedFile * disk.

Definition on_file (g : PartitionedFile → PartitionedFile) : M fstate unit := modify (λ '(f, d), (g f, d)).
Definition file_gets {A} (g : PartitionedFile → A) : M fstate A := gets (λ s, g s.1).

(** [this->metaData->...] *)
Definition metadata : M fstate PartitionedFileMetaData := λ s,
  (match metaData s.1 with Some m => Ret m | None => Undefined end, s).
Definition on_metadata (g : PartitionedFileMetaData → PartitionedFileMetaData) : M fstate unit :=
  m ← metadata; on_file (set_metaData (Some (g m))).

(** Taking a mutex that one holds never returns. *)
Definition lock : M fstate unit :=
  b ← file_gets fileMutex; if (b : bool) then lift Undefined else on_file (set_fileMutex true).
Definition unlock : M fstate unit := on_file (set_fileMutex false).

(** ** Handles *)

Definition hs_of (direct : bool) f : list handle := if direct then dataHandles f else dataFiles f.
Definition set_hs (direct : bool) hs f : PartitionedFile := if direct then set_dataHandles hs f else set_dataFiles hs f.

(** [dataHandles.at(i)] or [dataFiles.at(i)], read and assigned. *)
Definition handle_at (direct : bool) (i : nat) : M fstate handle := λ s,
  (match hs_of direct s.1 !! i with Some h => Ret h | None => Exit 134 end, s).
Definition set_handle (direct : bool) (i : nat) (h : handle) : M fstate unit :=
  handle_at direct i ;; on_file (λ f, set_hs direct (<[i := h]> (hs_of direct f)) f).

(** [writeData] and [writeDataDirect], at the position of a stream; the stream
    after it is returned with the result. *)
Definition writeData (accepted : nat) (h : handle) (data : option (list Z)) : M fstate (Z * handle) := λ '(f, d),
  match h, data with
  | NoHandle, _ | _, None => (Ret ((-1)%Z, h), (f, d))
  | Dangling, _ => (Undefined, (f, d))
  | Open s, Some bytes =>
      let '(retSize, (s', d')) := fwrite accepted bytes s d in
      (Ret (if retSize =? length bytes then 0%Z else (-1)%Z, Open s'), (f, d'))
  end.

(** The same on the stream of the metadata. *)
Definition write_metaFile (accepted : nat) (data : list Z) : M fstate Z :=
  h ← file_gets metaFile; '(ret, h') ← writeData accepted h (Some data); on_file (set_metaFile h') ;; mret ret.
Definition seek_metaFile (offset : Z) : M fstate bool := λ '(f, d),
  match metaFile f with
  | Open s => let '(ok, s') := fseek offset s in (Ret ok, (set_metaFile (Open s') f, d))
  | _ => (Undefined, (f, d))
  end.
Definition read_metaFile (n : nat) : M fstate (list Z) := λ '(f, d),
  match metaFile f with
  | Open s => let '(got, s') := fread n s d in (Ret got, (set_metaFile (Open s') f, d))
  | _ => (Undefined, (f, d))
  end.

(** ** Opening and closing *)

Definition openMeta (openable : string → bool) : M fstate bool := λ '(f, d),
  match metaFile f with
  | NoHandle =>
      let path := metaPartitionPath f in
      if openable path then
        let '(s, d') := match d !! path with None => fopen_w path d | Some _ => fopen_r path d end in
        (Ret true, (set_metaFile (Open s) f, d'))
      else (Ret false, (f, d))
  | _ => (Ret false, (f, d))
  end.

(** The loops of [openDataDirect] and of [openData]. *)
Fixpoint open_files (direct : bool) (openable : string → bool) (i : nat) (paths : list string) : M fstate bool :=
  match paths with
  | [] => mret true
  | path :: rest =>
      if openable path then
        '(f, d) ← get;
        let '(s, d') := fopen_a path d in
        put (f, d') ;;
        set_handle direct i (Open s) ;;
        open_files direct openable (S i) rest
      else mret false
  end.

Definition openData (openable : string → bool) : M fstate bool :=
  direct ← file_gets usingDirect; paths ← file_gets dataPartitionPaths; open_files direct openable 0 paths.

Definition openAll (openable : string → bool) : M fstate bool :=
  b ← openMeta openable; if (b : bool) then openData openable else mret false.

(** [fclose] of an open stream; of a null or closed one it is undefined. *)
Definition fclose (h : handle) : outcome unit := match h with Open _ => Ret tt | _ => Undefined end.

(** [close] of a descriptor; [close(-1)] is refused, and a descriptor that was
    closed may belong to another file. *)
Definition close (h : handle) : outcome unit := match h with Dangling => Undefined | _ => Ret tt end.

Fixpoint close_files (direct : bool) (i n : nat) : M fstate unit :=
  match n with
  | 0 => mret tt
  | S n' =>
      h ← handle_at direct i;
      lift (if direct then close h else fclose h) ;;
      set_handle direct i (if direct then (match h with NoHandle => NoHandle | _ => Dangling end) else NoHandle) ;;
      close_files direct (S i) n'
  end.

(** [closeAll], and [closeDirect], which leaves the members as they are. *)
Definition closeAll : M fstate bool :=
  f ← file_gets id;
  lift (fclose (metaFile f)) ;;
  on_file (set_metaFile (if usingDirect f then Dangling else NoHandle)) ;;
  close_files (usingDirect f) 0 (length (dataPartitionPaths f)) ;;
  mret true.

Definition remove (path : string) : M fstate unit := modify (λ '(f, d), (f, delete path d)).

Fixpoint remove_all (paths : list string) : M fstate unit :=
  match paths with [] => mret tt | path :: rest => remove path ;; remove_all rest end.

Definition clear : M fstate unit :=
  lock ;;
  f ← file_gets id;
  if cleared f then unlock else
    closeAll ;;
    remove (metaPartitionPath f) ;;
    remove_all (dataPartitionPaths f) ;;
    on_file (set_cleared true) ;;
    unlock.

Definition PartitionedFile_destroy : M fstate unit :=
  b ← file_gets cleared;
  if (b : bool) then mret tt else lock ;; closeAll ;; unlock.

(** ** Pages *)

(** [page->getRawBytes()] with [page->getRawSize()]. *)
Definition raw_bytes (page : page_state) : option (list Z) :=
  if (rawBytes page.1 =? 0)%Z then None else Some (take (Z.to_nat (getRawSize page.1)) page.2).

(** What [appendPage] and [appendPageDirect] do to the metadata after the page
    is written. *)
Definition record_page (partitionId : nat) (pageId : Z) : M fstate Z :=
  on_metadata incNumFlushedPages ;;
  m ← metadata;
  (if bool_decide (latestPageId m < pageId ∨ latestPageId m = UINT32_MAX)%Z
   then on_metadata (setLatestPageId pageId) else mret tt) ;;
  p ← lift (getPartition partitionId m);
  let ret := s32 (pm_numPages p) in
  on_metadata (addPageIndex pageId (Z.of_nat partitionId) (u32 ret)) ;;
  on_metadata (incPartition partitionId) ;;
  mret ret.

(** [appendPage], and [appendPageDirect] when direct I/O is used.  [None] is a
    null page. *)
Definition appendPage (accepted : nat) (partitionId : nat) (page : option page_state) : M fstate Z :=
  direct ← file_gets usingDirect;
  h ← handle_at direct partitionId;
  match h, page with
  | NoHandle, _ | _, None => mret (-1)%Z
  | _, Some page =>
      let pageId := pageID page.1 in
      lock ;;
      c ← file_gets cleared;
      if (c : bool) then unlock ;; mret (-1)%Z else
        '(w, h') ← writeData accepted h (raw_bytes page);
        set_handle direct partitionId h' ;;
        if (w <? 0)%Z then unlock ;; mret (-1)%Z else
          ret ← record_page partitionId pageId;
          unlock ;;
          mret ret
  end.

(** The number of pages of a partition, as [loadPage] reads it. *)
Definition num_pages (partitionId : nat) : M fstate Z :=
  m ← metadata; p ← lift (getPartition partitionId m); mret (pm_numPages p).

(** [seekPage] or [seekPageDirect], on a copy of the handle. *)
Definition seek_page (pageSeqInPartition : Z) (s : stream) : M fstate stream :=
  m ← metadata; mret (fseek (u64 (pageSeqInPartition * md_pageSize m)) s).2.

(** Reading from the position of a handle into the cache. *)
Definition read_file (direct : bool) (partitionId n : nat) (s : stream) : M fstate (Z * list Z) :=
  '(f, d) ← get;
  let '(got, s') := fread n s d in
  set_handle direct partitionId (Open s') ;;
  mret (Z.of_nat (length got), got).

Definition SIZE_MAX : Z := u64 (-1).

(** [loadPage] and [loadPageDirect]: what they return, and the bytes that are
    put in the cache. *)
Definition loadPage (partitionId : nat) (pageSeqInPartition : Z) (length : nat) : M fstate (Z * list Z) :=
  direct ← file_gets usingDirect;
  h ← handle_at direct partitionId;
  match h with
  | NoHandle => mret (if (direct : bool) then SIZE_MAX else 0%Z, [])
  | Dangling => lift Undefined
  | Open s =>
      n ← num_pages partitionId;
      if (pageSeqInPartition <? n)%Z then
        s' ← seek_page pageSeqInPartition s; read_file direct partitionId length s'
      else mret (SIZE_MAX, [])
  end.

Definition loadPageId (partitionId : nat) (pageSeqInPartition : Z) : M fstate Z :=
  m ← metadata; mret (getPageId (Z.of_nat partitionId) pageSeqInPartition m).

Definition loadPageFromCurPos (partitionId : nat) (pageSeqInPartition : Z) (length : nat) : M fstate (Z * list Z) :=
  h ← handle_at false partitionId;
  match h with
  | NoHandle => mret (0%Z, [])
  | Dangling => lift Undefined
  | Open s =>
      n ← num_pages partitionId;
      if (pageSeqInPartition <? n)%Z then read_file false partitionId length s else mret (SIZE_MAX, [])
  end.

(** [garbage] is what the variable holds when fewer than four bytes are read. *)
Definition loadPageIdFromCurPos (garbage : list Z) (partitionId : nat) (pageSeqInPartition : Z) : M fstate Z :=
  h ← handle_at false partitionId;
  match h with
  | NoHandle => mret 0%Z
  | Dangling => lift Undefined
  | Open s =>
      n ← num_pages partitionId;
      if (pageSeqInPartition <? n)%Z then
        '(size, got) ← read_file false partitionId 4 s;
        mret (if (size =? 0)%Z then UINT32_MAX else le_value (got ++ drop (length got) garbage))
      else mret UINT32_MAX
  end.

(** ** Metadata *)

(** The orders in which the maps of the metadata are iterated. *)
Class MapOrder := {
  page_order : gmap Z PageIndex → list (Z * PageIndex);
  page_order_ok t : page_order t ≡ₚ map_to_list t;
  map_order : gmap Z (gmap Z PageIndex) → list (Z * gmap Z PageIndex);
  map_order_ok t : map_order t ≡ₚ map_to_list t
}.

(** One such order: by key in the order of the trie. *)
#[export] Instance list_order : MapOrder := {|
  page_order := map_to_list;
  page_order_ok t := Permutation_refl _;
  map_order := map_to_list;
  map_order_ok t := Permutation_refl _
|}.

(** The size that is computed for the metadata: a shared page counts for a partition id and
    a number. *)
Definition meta_size (paths : list string) m : nat :=
  4 + 2 + 8 + 4 + 4 + 4 + sum_list ((λ path, 4 + 4 + 8 + S (String.length path)) <$> paths)
  + 12 * Z.to_nat (numFlushedPages m) + (4 + 4 + 4 + 4) + (4 + 4) * Z.to_nat (u32 (numSharedPages m)).

Definition partition_bytes (i : nat) (path : string) (p : PartitionMetaData) : list Z :=
  le_bytes 4 (Z.of_nat i) ++ le_bytes 4 (pm_numPages p) ++ le_bytes 8 (Z.of_nat (S (String.length path))) ++ c_str path.

(** A page of the set, or a shared page: id, partition and number. *)
Definition entry_bytes (e : Z * PageIndex) : list Z :=
  le_bytes 4 e.1 ++ le_bytes 4 (pi_partitionId e.2) ++ le_bytes 4 (pi_pageSeqInPartition e.2).

(** [FileType::PartitionedFileType] *)
Definition PartitionedFileType : Z := 1.

(** The loop over the partitions: [getPartition(i)] for the path [i]. *)
Fixpoint partitions_bytes (i : nat) (paths : list string) m : outcome (list Z) :=
  match paths with
  | [] => Ret []
  | path :: rest =>
      p ← getPartition i m; more ← partitions_bytes (S i) rest m; Ret (partition_bytes i path p ++ more)
  end.

(** What [writeMeta] puts in its buffer. *)
Definition meta_bytes `{MapOrder} (paths : list string) m : outcome (list Z) :=
  ps ← partitions_bytes 0 paths m;
  let shared := sharedSetKey m in
  Ret (le_bytes 4 PartitionedFileType ++ le_bytes 2 (version m) ++ le_bytes 8 (md_pageSize m)
    ++ le_bytes 4 (numFlushedPages m) ++ le_bytes 4 (latestPageId m) ++ le_bytes 4 (Z.of_nat (length paths))
    ++ ps ++ concat (entry_bytes <$> page_order (pageIndexes m))
    ++ le_bytes 4 (sk_dbId shared) ++ le_bytes 4 (sk_typeId shared) ++ le_bytes 4 (sk_setId shared)
    ++ le_bytes 4 (numSharedPages m)
    ++ concat (entry_bytes <$> (map_order (default ∅ (sharedPageMaps m)) ≫= λ t, page_order t.2))).

(** The buffer has [metaSize] bytes, all zero at first; writing behind it is
    undefined. *)
Definition fill_buffer (metaSize : nat) (bytes : list Z) : outcome (list Z) :=
  if decide (length bytes ≤ metaSize) then Ret (bytes ++ replicate (metaSize - length bytes) 0%Z) else Undefined.

(** The answers that [writeMeta] gets: for [calloc], and for its two writes. *)
Record meta_space := MetaSpace { ms_calloc : bool; ms_size : nat; ms_data : nat }.

Definition writeMeta `{MapOrder} (sp : meta_space) : M fstate Z :=
  lock ;;
  f ← file_gets id;
  match metaFile f with
  | NoHandle => unlock ;; mret (-1)%Z
  | _ =>
      if cleared f then unlock ;; mret (-1)%Z else
        m ← metadata;
        let metaSize := meta_size (dataPartitionPaths f) m in
        seek_metaFile 0 ;;
        write_metaFile (ms_size sp) (le_bytes 8 (Z.of_nat metaSize)) ;;
        if ms_calloc sp then
          bytes ← lift (meta_bytes (dataPartitionPaths f) m);
          buffer ← lift (fill_buffer metaSize bytes);
          seek_metaFile 8 ;;
          ret ← write_metaFile (ms_data sp) buffer;
          unlock ;;
          mret ret
        else lift (Exit 1)
  end.

Definition parse_partition : parser PartitionMetaData :=
  partitionId ← get_le 4;
  numFlushedPagesInPartition ← get_le 4;
  pathLen ← get_le 8;
  path ← peek_string;
  advance (Z.to_nat pathLen) ;;
  mret (MkPartition partitionId numFlushedPagesInPartition path).

Definition parse_entry : parser (Z * PageIndex) :=
  pageId ← get_le 4;
  partitionId ← get_le 4;
  pageSeqInPartition ← get_le 4;
  mret (pageId, MkPageIndex partitionId pageSeqInPartition).

Definition add_shared_entries (l : list (Z * PageIndex)) m : PartitionedFileMetaData :=
  foldl (λ m e, addSharedPageIndex e.1 (pi_partitionId e.2) (pi_pageSeqInPartition e.2) m) m l.

(** What [buildMetaDataFromMetaPartition] makes of its buffer. *)
Definition parse_meta (latest : Z) (key : SetKey) : parser PartitionedFileMetaData :=
  advance 4 ;;
  version ← get_le 2;
  pageSize ← get_le 8;
  numFlushedPages ← get_le 4;
  latestPageId ← get_le 4;
  numPartitions ← get_le 4;
  ps ← mapM (λ _ : nat, parse_partition) (seq 0 (Z.to_nat numPartitions));
  entries ← mapM (λ _ : nat, parse_entry) (seq 0 (Z.to_nat numFlushedPages));
  dbId ← get_le 4;
  typeId ← get_le 4;
  setId ← get_le 4;
  numSharedPages ← get_le 4;
  shared ← mapM (λ _ : nat, parse_entry) (seq 0 (Z.to_nat numSharedPages));
  mret (add_shared_entries shared (setNumSharedPages (s32 numSharedPages) (setSharedSetKey dbId typeId setId (
    add_entries entries (foldl (flip addPartition)
      (setLatestPageId latestPageId (setNumFlushedPages numFlushedPages (setPageSize pageSize (setVersion version
        (MetaData_new latest key))))) ps))))).

(** [latest] and [key] are what the members of the new metadata hold before
    they are set. *)
Definition buildMetaDataFromMetaPartition (openable : string → bool) (calloc : bool) (latest : Z) (key : SetKey) : M fstate unit :=
  b ← openMeta openable;
  if (b : bool) then
    seek_metaFile 0 ;;
    sz ← read_metaFile 8;
    if length sz =? 8 then
      let size := Z.to_nat (le_value sz) in
      seek_metaFile 8 ;;
      if calloc then
        buf ← read_metaFile size;
        if length buf <? size then lift (Exit (-1)) else
          m ← lift (fst (parse_meta latest key buf));
          on_file (set_metaData (Some m)) ;;
          on_file (set_pageSize (md_pageSize m)) ;;
          on_file (λ f, set_dataPartitionPaths (dataPartitionPaths f ++ (pm_path <$> default [] (partitions m))) f)
      else lift (Exit 1)
    else lift (Exit (-1))
  else lift (Exit (-1)).

Definition initializeDataFiles : M fstate unit :=
  on_file (λ f, let n := length (dataPartitionPaths f) in
    set_dataFiles (dataFiles f ++ replicate n NoHandle) (set_dataHandles (dataHandles f ++ replicate n NoHandle) f)).

(** [updateMeta] seeks the number of pages and, for each partition, what it
    takes to be the number of its pages.  It takes no lock. *)
Definition seekNumFlushedPagesInMeta : M fstate Z :=
  h ← file_gets metaFile;
  match h with
  | NoHandle => mret (-1)%Z
  | _ => b ← seek_metaFile (8 + 4 + 2 + 8); mret (if (b : bool) then 0 else -1)%Z
  end.

Definition partition_offset (paths : list string) (partitionId : nat) : nat :=
  8 + (4 + 2 + 8 + 4 + 4) + sum_list ((λ path, 4 + 4 + 8 + S (String.length path)) <$> take partitionId paths) + 4.

Definition seekNumFlushedPagesInPartitionMeta (partitionId : nat) : M fstate Z :=
  f ← file_gets id;
  match metaFile f with
  | NoHandle => mret (-1)%Z
  | _ =>
      if decide (partitionId ≤ length (dataPartitionPaths f)) then
        b ← seek_metaFile (Z.of_nat (partition_offset (dataPartitionPaths f) partitionId)); mret (if (b : bool) then 0 else -1)%Z
      else lift (Exit 134)
  end.

Fixpoint update_partitions (accepted : nat → nat) (i n : nat) : M fstate Z :=
  match n with
  | 0 => mret 0%Z
  | S n' =>
      seekNumFlushedPagesInPartitionMeta i ;;
      m ← metadata;
      p ← lift (getPartition i m);
      w ← write_metaFile (accepted i) (le_bytes 4 (pm_numPages p));
      if (w <? 0)%Z then mret (-1)%Z else update_partitions accepted (S i) n'
  end.

Definition updateMeta (accepted : nat) (accepted_partition : nat → nat) : M fstate Z :=
  b ← seekNumFlushedPagesInMeta;
  if (b <? 0)%Z then mret (-1)%Z else
    m ← metadata;
    w ← write_metaFile accepted (le_bytes 4 (numFlushedPages m));
    if (w <? 0)%Z then mret (-1)%Z else
      paths ← file_gets dataPartitionPaths;
      update_partitions accepted_partition 0 (length paths).

(** ** Constructors *)

(** The members before the bodies of the constructors. *)
Definition PartitionedFile_init (nodeId dbId typeId setId : Z) (metaPartitionPath : string) : PartitionedFile :=
  MkFile nodeId dbId typeId setId metaPartitionPath [] 0 false false NoHandle [] [] None false.

Definition PartitionedFile_new `{MapOrder} (openable : string → bool) (sp : meta_space) (key : SetKey)
    (dataPartitionPaths : list string) (pageSize : Z) : M fstate unit :=
  on_file (set_dataPartitionPaths dataPartitionPaths) ;;
  on_file (set_pageSize pageSize) ;;
  on_file (λ f, MkFile (pf_nodeId f) (pf_dbId f) (pf_typeId f) (pf_setId f) (metaPartitionPath f) (PartitionedFile.dataPartitionPaths f)
    (pf_pageSize f) true (cleared f) (metaFile f) (dataFiles f) (dataHandles f) (metaData f) (fileMutex f)) ;;
  on_file (set_metaData (Some (foldl (flip addPartition)
    (setLatestPageId UINT32_MAX (setVersion 0 (setNumFlushedPages 0 (setPageSize pageSize (MetaData_new 0 key)))))
    (imap (λ i path, PartitionMetaData_new path (Z.of_nat i)) dataPartitionPaths)))) ;;
  initializeDataFiles ;;
  openAll openable ;;
  writeMeta sp ;;
  mret tt.

(** ** Accessors *)

Definition getAndSetNumFlushedPages : M fstate Z :=
  h ← file_gets metaFile;
  match h with
  | NoHandle => mret (u32 (-1))
  | _ =>
      b ← seekNumFlushedPagesInMeta;
      if (b =? 0)%Z then
        got ← read_metaFile 4;
        if length got <? 4 then mret 0%Z else
          on_metadata (setNumFlushedPages (le_value got)) ;;
          m ← metadata;
          mret (numFlushedPages m)
      else mret 0%Z
  end.

Definition getPageSizeInMeta : M fstate Z :=
  h ← file_gets metaFile;
  match h with
  | NoHandle => mret SIZE_MAX
  | _ =>
      b ← seek_metaFile (8 + 4 + 2);
      if (b : bool) then
        got ← read_metaFile 8;
        mret (if length got <? 8 then 0%Z else le_value got)
      else mret 0%Z
  end.

Definition getPageSize : M fstate Z :=
  s ← file_gets pf_pageSize;
  if (s =? 0)%Z then
    s' ← getPageSizeInMeta; on_file (set_pageSize s') ;; mret s'
  else mret s.

Definition getNumFlushedPages : M fstate Z := m ← metadata; mret (numFlushedPages m).
Definition getLastFlushedPageID : M fstate Z := m ← metadata; mret (latestPageId m).
Definition getNumPartitions : M fstate Z := paths ← file_gets dataPartitionPaths; mret (Z.of_nat (length paths)).

Definition setSharedSet (k : SetKey) : M fstate unit := on_metadata (setSharedSetKey (sk_dbId k) (sk_typeId k) (sk_setId k)).
Definition getSharedSet : M fstate SetKey := m ← metadata; mret (sharedSetKey m).
Definition addSharedPage (pageId partitionId pageSequentialID : Z) : M fstate unit :=
  on_metadata (addSharedPageIndex pageId partitionId pageSequentialID).
Definition removeSharedPage (pageId partitionId pageSequentialID : Z) : M fstate unit :=
  m ← metadata; m' ← lift (removeSharedPageIndex pageId partitionId pageSequentialID m); on_file (set_metaData (Some m')).

(** ** Running methods *)

Lemma lock_run f d : lock (f, d) = if fileMutex f then (Undefined, (f, d)) else (Ret tt, (set_fileMutex true f, d)).
Proof. unfold lock, file_gets, on_file. run. cbn [fst]. by destruct (fileMutex f). Qed.

Lemma unlock_run f d : unlock (f, d) = (Ret tt, (set_fileMutex false f, d)).
Proof. done. Qed.

Lemma metadata_run f d : metadata (f, d) = (match metaData f with Some m => Ret m | None => Undefined end, (f, d)).
Proof. done. Qed.

Lemma on_metadata_run g f d :
  on_metadata g (f, d) = match metaData f with Some m => (Ret tt, (set_metaData (Some (g m)) f, d)) | None => (Undefined, (f, d)) end.
Proof. unfold on_metadata, metadata. run. cbn [fst]. by destruct (metaData f). Qed.

(** Runs the calls of a method on a file object. *)
Ltac run_file :=
  repeat first [rewrite M_bind_unfold | rewrite lock_run | rewrite unlock_run | rewrite metadata_run | rewrite on_metadata_run
    | progress cbn [get put modify gets lift mret M_ret fst snd id file_gets on_file
        set_dataPartitionPaths set_pageSize set_cleared set_metaFile set_dataFiles set_dataHandles set_metaData set_fileMutex
        pf_nodeId pf_dbId pf_typeId pf_setId metaPartitionPath dataPartitionPaths pf_pageSize usingDirect cleared metaFile dataFiles
        dataHandles metaData fileMutex]]; cbn beta iota.
