(* ===== verification/FileMetaRoundtrip.v ===== *)
(** * FileMetaRoundtrip: metadata of a file, written and read again

    What [writeMeta] of [PartitionedFile] writes can be built again from the file
    by [buildMetaDataFromMetaPartition], when the file shares no pages
    ([metadata_roundtrip]).  The proof follows the reader with the instances of
    [Parses]. *)

From S2P Require Import Prelude.
From S2P Require Import PDBPage.
From S2P Require Import Files.
From S2P Require Import FileMetaData.
From S2P Require Import PartitionedFile.

Definition u32_range_of (x : Z) : Prop := (0 ≤ x < 256 ^ Z.of_nat 4)%Z.

Definition entry_ok (e : Z * PageIndex) : Prop :=
  u32_range_of e.1 ∧ u32_range_of (pi_partitionId e.2) ∧ u32_range_of (pi_pageSeqInPartition e.2).

Definition part_list (paths : list string) (counts : list Z) : list PartitionMetaData :=
  imap (λ i pc, MkPartition (Z.of_nat i) pc.2 pc.1) (zip paths counts).

(** The list of partitions is made with the first partition. *)
Definition some_list {A} (l : list A) : option (list A) := match l with [] => None | _ => Some l end.

Lemma default_some_list {A} (l : list A) : default [] (some_list l) = l.
Proof. by destruct l. Qed.

(** Metadata of a file without shared pages: the fields fit their types, the
    partitions are those of [paths], and the number of flushed pages is the
    number of pages that are indexed. *)
Record wf_meta (paths : list string) (m : PartitionedFileMetaData) : Prop := {
  wf_version : (0 ≤ version m < 65536)%Z;
  wf_pageSize : (0 ≤ md_pageSize m < u64_modulus)%Z;
  wf_flushed : numFlushedPages m = Z.of_nat (size (pageIndexes m));
  wf_flushed_u32 : u32_range_of (numFlushedPages m);
  wf_latest : u32_range_of (latestPageId m);
  wf_partitions : ∃ counts, length counts = length paths ∧ Forall u32_range_of counts ∧ partitions m = some_list (part_list paths counts);
  wf_paths : u32_range_of (Z.of_nat (length paths)) ∧ Forall (λ p, no_zero p ∧ (Z.of_nat (S (String.length p)) < u64_modulus)%Z) paths;
  wf_inverse : inverse_maps (pageIndexes m) (pageIds m);
  wf_entries : map_Forall (λ k i, entry_ok (k, i)) (pageIndexes m);
  wf_key : u32_range_of (sk_dbId (sharedSetKey m)) ∧ u32_range_of (sk_typeId (sharedSetKey m)) ∧ u32_range_of (sk_setId (sharedSetKey m));
  wf_unshared : numSharedPages m = 0%Z ∧ sharedPageIndexes m = None ∧ sharedPageMaps m = None;
  wf_size : (Z.of_nat (meta_size paths m) < u64_modulus)%Z
}.

(** ** The bytes of the metadata *)

Lemma Parses_entry e : entry_ok e → Parses parse_entry (entry_bytes e) e.
Proof.
  destruct e as [k [p s]]. intros (H1 & H2 & H3). unfold parse_entry, entry_bytes. cbn [fst snd pi_partitionId pi_pageSeqInPartition] in *.
  eapply Parses_bind; [by apply Parses_get|]. eapply Parses_bind; [by apply Parses_get|].
  eapply Parses_bind_ret; [by apply Parses_get|]. apply _.
Qed.

Lemma Parses_path len path (k : parser PartitionMetaData) r :
  no_zero path → Z.to_nat len = S (String.length path) → Parses k [] r →
  ∀ (c : string → parser PartitionMetaData), c path = (advance (Z.to_nat len) ;; k) → Parses (peek_string ≫= c) (c_str path) r.
Proof.
  intros Hz Hlen Hk c Hc rest. rewrite (M_bind_Ret _ _ _ _ _ (peek_c_str path rest Hz)), Hc.
  rewrite (M_bind_Ret (advance (Z.to_nat len)) (λ _, k) _ tt rest).
  - apply (Hk rest).
  - apply (Parses_skip (Z.to_nat len)). unfold c_str. rewrite length_app, length_string_bytes. cbn. lia.
Qed.

Lemma Parses_partition i path n :
  u32_range_of (Z.of_nat i) → u32_range_of n → no_zero path → (Z.of_nat (S (String.length path)) < u64_modulus)%Z →
  Parses parse_partition (partition_bytes i path (MkPartition (Z.of_nat i) n path)) (MkPartition (Z.of_nat i) n path).
Proof.
  intros Hi Hn Hz Hlen. unfold parse_partition, partition_bytes. cbn [pm_numPages].
  eapply Parses_bind; [by apply Parses_get|]. eapply Parses_bind; [by apply Parses_get|].
  eapply Parses_bind; [apply Parses_get; unfold u64_modulus in Hlen; lia|].
  eapply Parses_path; [done| |apply _|reflexivity]. lia.
Qed.

Lemma length_entry_bytes e : length (entry_bytes e) = 12.
Proof. unfold entry_bytes. by rewrite !length_app, !length_le_bytes. Qed.

Lemma length_entries l : length (concat (entry_bytes <$> l)) = 12 * length l.
Proof. induction l as [|e l IH]; [done|]. cbn [fmap list_fmap concat length]. rewrite length_app, length_entry_bytes, IH. lia. Qed.

Lemma length_partition_bytes i path p : length (partition_bytes i path p) = 4 + 4 + 8 + S (String.length path).
Proof. unfold partition_bytes, c_str. rewrite !length_app, !length_le_bytes, length_string_bytes. cbn. lia. Qed.

Lemma partitions_bytes_ok m paths counts : ∀ i,
  length counts = length paths → (∀ j n, counts !! j = Some n → ∃ path, getPartition (i + j) m = Ret (MkPartition (Z.of_nat (i + j)) n path)) →
  partitions_bytes i paths m =
    Ret (concat (imap (λ j pc, partition_bytes (i + j) pc.1 (MkPartition (Z.of_nat (i + j)) pc.2 pc.1)) (zip paths counts))).
Proof.
  revert counts. induction paths as [|path paths IH]; intros [|n counts] i Hlen Hget; try discriminate; [done|].
  cbn [partitions_bytes]. destruct (Hget 0 n eq_refl) as [path' Hp]. rewrite Nat.add_0_r in Hp.
  rewrite Hp. cbn [mbind outcome_bind]. rewrite (IH counts (S i)); [|cbn in Hlen; lia|].
  - cbn [mbind outcome_bind zip zip_with imap concat]. rewrite Nat.add_0_r. cbn [fst snd].
    f_equal. f_equal. f_equal. apply imap_ext. intros j [q c] _. unfold compose. cbn [fst snd]. by rewrite Nat.add_succ_r.
  - intros j c Hc. destruct (Hget (S j) c Hc) as [q Hq]. exists q. by rewrite Nat.add_succ_r in Hq.
Qed.

Lemma lookup_part_list paths counts i n :
  length counts = length paths → counts !! i = Some n → ∃ path, part_list paths counts !! i = Some (MkPartition (Z.of_nat i) n path).
Proof.
  intros Hlen Hi. destruct (lookup_lt_is_Some_2 paths i) as [path Hp]; [rewrite <- Hlen; by eapply lookup_lt_Some|].
  exists path. unfold part_list. rewrite list_lookup_imap, lookup_zip_with, Hp, Hi. done.
Qed.

Lemma getPartition_part_list m paths counts i n :
  partitions m = some_list (part_list paths counts) → length counts = length paths → counts !! i = Some n →
  ∃ path, getPartition i m = Ret (MkPartition (Z.of_nat i) n path).
Proof.
  intros Hm Hlen Hi. destruct (lookup_part_list paths counts i n Hlen Hi) as [path Hp]. exists path.
  unfold getPartition. rewrite Hm. destruct (part_list paths counts) as [|x l] eqn:E; [done|]. cbn [some_list]. by rewrite Hp.
Qed.

Lemma imap_bytes_concat {A} (g : nat → A → list Z) (r : nat → A → PartitionMetaData) (bytes : PartitionMetaData → list Z) (l : list A) :
  (∀ i a, l !! i = Some a → g i a = bytes (r i a)) → concat (imap g l) = concat (bytes <$> imap r l).
Proof.
  intros H. f_equal. apply list_eq. intros i. rewrite list_lookup_fmap, !list_lookup_imap.
  destruct (l !! i) as [a|] eqn:E; [|done]. cbn. f_equal. by apply H.
Qed.

(** The bytes of one partition in terms of its metadata. *)
Definition part_bytes (p : PartitionMetaData) : list Z := partition_bytes (Z.to_nat (pm_partitionId p)) (pm_path p) p.

Lemma partitions_bytes_wf paths m counts :
  partitions m = some_list (part_list paths counts) → length counts = length paths →
  partitions_bytes 0 paths m = Ret (concat (part_bytes <$> part_list paths counts)).
Proof.
  intros Hm Hlen. rewrite (partitions_bytes_ok m paths counts 0 Hlen).
  - f_equal. apply imap_bytes_concat. intros i [path n] _. unfold part_bytes. cbn. by rewrite Nat2Z.id.
  - intros j n Hj. by apply (getPartition_part_list m paths counts).
Qed.

Lemma length_part_list paths counts : length counts = length paths → length (part_list paths counts) = length paths.
Proof. intros H. unfold part_list. rewrite length_imap, length_zip. lia. Qed.

Lemma part_list_paths paths counts : length counts = length paths → pm_path <$> part_list paths counts = paths.
Proof.
  intros Hlen. apply list_eq. intros i. unfold part_list. rewrite list_lookup_fmap, list_lookup_imap, lookup_zip_with.
  destruct (paths !! i) as [p|] eqn:Hp; [|done]. cbn.
  destruct (lookup_lt_is_Some_2 counts i) as [n Hn]; [rewrite Hlen; by eapply lookup_lt_Some|]. by rewrite Hn.
Qed.

Lemma Parses_part_list paths counts :
  length counts = length paths → Forall u32_range_of counts → u32_range_of (Z.of_nat (length paths)) →
  Forall (λ p, no_zero p ∧ (Z.of_nat (S (String.length p)) < u64_modulus)%Z) paths →
  Forall (λ p, Parses parse_partition (part_bytes p) p) (part_list paths counts).
Proof.
  intros Hlen Hc Hn Hp. apply Forall_lookup_2. intros i p Hi. unfold part_list in Hi.
  rewrite list_lookup_imap, lookup_zip_with in Hi.
  destruct (paths !! i) as [path|] eqn:E1; [|done]. destruct (counts !! i) as [n|] eqn:E2; [|done]. cbn in Hi.
  injection Hi as <-. unfold part_bytes. cbn [pm_partitionId pm_path]. rewrite Nat2Z.id.
  destruct (Forall_lookup_1 _ _ _ _ Hp E1) as [Hz Hl]. apply Parses_partition; [|by eapply Forall_lookup_1|done..].
  apply lookup_lt_Some in E1. unfold u32_range_of in *. lia.
Qed.

Lemma length_part_bytes paths counts :
  length counts = length paths →
  length (concat (part_bytes <$> part_list paths counts)) = sum_list ((λ path, 4 + 4 + 8 + S (String.length path)) <$> paths).
Proof.
  intros Hlen. rewrite <- (part_list_paths paths counts Hlen) at 2. generalize (part_list paths counts). intros l.
  induction l as [|p l IH]; [done|]. cbn [fmap list_fmap concat sum_list].
  rewrite length_app, IH. unfold part_bytes. by rewrite length_partition_bytes.
Qed.

(** ** Building the metadata again *)

Lemma addPartitions_spec ps : ∀ m l, partitions m = some_list l →
  foldl (flip addPartition) m ps = setPartitions (some_list (l ++ ps)) m.
Proof.
  induction ps as [|p ps IH]; intros m l Hm; cbn [foldl].
  - rewrite app_nil_r, <- Hm. by destruct m.
  - unfold flip at 2. rewrite (IH _ (l ++ [p])).
    + rewrite <- app_assoc. cbn [app]. by destruct m.
    + unfold addPartition. rewrite Hm. cbn [partitions setPartitions]. by destruct l.
Qed.

Section order.
Context `{MapOrder}.

Lemma elem_of_page_order (t : gmap Z PageIndex) k i : (k, i) ∈ page_order t ↔ t !! k = Some i.
Proof. rewrite (page_order_ok t). apply elem_of_map_to_list. Qed.

Lemma page_order_keys (t : gmap Z PageIndex) : NoDup (page_order t).*1.
Proof. rewrite (page_order_ok t). apply NoDup_fst_map_to_list. Qed.

Lemma page_order_length (t : gmap Z PageIndex) : length (page_order t) = size t.
Proof. rewrite (page_order_ok t). apply length_map_to_list. Qed.

Lemma page_order_values idx ids : inverse_maps idx ids → NoDup (page_order idx).*2.
Proof.
  intros Hinv. apply NoDup_fmap_2_strong; [|rewrite (page_order_ok idx); apply NoDup_map_to_list].
  intros [k1 i1] [k2 i2] H1 H2 Heq. cbn in Heq. subst i2.
  apply elem_of_page_order, Hinv in H1. apply elem_of_page_order, Hinv in H2. congruence.
Qed.

Lemma page_order_map idx : list_to_map (page_order idx) = idx.
Proof.
  apply map_eq. intros k. apply option_eq. intros i.
  rewrite <- (elem_of_list_to_map _ _ _ (page_order_keys idx)). apply elem_of_page_order.
Qed.

Lemma page_order_inverse idx ids : inverse_maps idx ids → list_to_map (prod_swap <$> page_order idx) = ids.
Proof.
  intros Hinv. apply map_eq. intros i. apply option_eq. intros k.
  rewrite <- elem_of_list_to_map.
  - rewrite list_elem_of_fmap. rewrite <- (Hinv k i), <- elem_of_page_order. split.
    + intros ([k' i'] & Heq & He). cbn in Heq. by injection Heq as -> ->.
    + intros He. by exists (k, i).
  - rewrite <- list_fmap_compose. by apply (page_order_values idx ids).
Qed.

(** What is built from the fields of a file's metadata is that metadata. *)
Lemma rebuilt paths m latest key counts :
  wf_meta paths m → partitions m = some_list (part_list paths counts) →
  add_shared_entries [] (setNumSharedPages (s32 (numSharedPages m)) (setSharedSetKey (sk_dbId (sharedSetKey m))
    (sk_typeId (sharedSetKey m)) (sk_setId (sharedSetKey m)) (add_entries (page_order (pageIndexes m))
      (foldl (flip addPartition) (setLatestPageId (latestPageId m) (setNumFlushedPages (numFlushedPages m)
        (setPageSize (md_pageSize m) (setVersion (version m) (MetaData_new latest key))))) (part_list paths counts))))) = m.
Proof.
  intros Hwf Hps. destruct (wf_unshared _ _ Hwf) as (Hn & Hi & Hs). cbn [add_shared_entries foldl].
  rewrite (addPartitions_spec (part_list paths counts) _ []) by done. cbn [app].
  rewrite (add_entries_spec _ _ ∅ ∅); try done.
  - rewrite page_order_map, (page_order_inverse _ _ (wf_inverse _ _ Hwf)), !(right_id_L ∅ (∪)).
    destruct m, sharedSetKey. cbn in *. by subst.
  - apply page_order_keys.
  - by eapply page_order_values, wf_inverse.
Qed.

Lemma meta_bytes_wf paths m : wf_meta paths m → ∃ bytes,
  meta_bytes paths m = Ret bytes ∧ length bytes = meta_size paths m ∧ ∀ latest key, Parses (parse_meta latest key) bytes m.
Proof.
  intros Hwf. destruct (wf_partitions _ _ Hwf) as (counts & Hlen & Hcounts & Hps).
  destruct (wf_unshared _ _ Hwf) as (Hn & Hi & Hs).
  unfold meta_bytes. rewrite (partitions_bytes_wf paths m counts Hps Hlen). cbn [mbind outcome_bind].
  assert (map_order (default ∅ (sharedPageMaps m)) = []) as ->.
  { rewrite Hs. cbn [default]. apply Permutation_nil_r. rewrite <- map_to_list_empty. apply map_order_ok. }
  eexists. split; [reflexivity|]. split.
  - rewrite !length_app, !length_le_bytes, (length_part_bytes paths counts Hlen), length_entries, page_order_length.
    unfold meta_size. rewrite (wf_flushed _ _ Hwf), Nat2Z.id, Hn. cbn [mbind list_bind fmap list_fmap concat length app]. change (Z.to_nat (u32 0)) with 0. generalize (sum_list ((λ path : string, 4 + 4 + 8 + S (String.length path)) <$> paths)). intros k. generalize (size (pageIndexes m)). intros n. lia.
  - intros latest key. unfold parse_meta. destruct (wf_key _ _ Hwf) as (Hk1 & Hk2 & Hk3). destruct (wf_paths _ _ Hwf) as [Hp1 Hp2].
    eapply Parses_bind; [by apply Parses_skip|].
    eapply Parses_bind; [apply Parses_get, (wf_version _ _ Hwf)|].
    eapply Parses_bind; [apply Parses_get, (wf_pageSize _ _ Hwf)|].
    eapply Parses_bind; [apply Parses_get, (wf_flushed_u32 _ _ Hwf)|].
    eapply Parses_bind; [apply Parses_get, (wf_latest _ _ Hwf)|].
    eapply Parses_bind; [apply Parses_get, Hp1|]. rewrite Nat2Z.id.
    rewrite <- (length_part_list paths counts Hlen) at 1.
    eapply Parses_bind; [by apply Parses_repeat, Parses_part_list|].
    rewrite (wf_flushed _ _ Hwf) at 1. rewrite Nat2Z.id, <- page_order_length.
    eapply Parses_bind; [apply Parses_repeat, Forall_forall; intros [k i] He; by apply Parses_entry, (wf_entries _ _ Hwf), elem_of_page_order|].
    eapply Parses_bind; [by apply Parses_get|]. eapply Parses_bind; [by apply Parses_get|]. eapply Parses_bind; [by apply Parses_get|].
    eapply Parses_bind; [apply Parses_get; rewrite Hn; lia|]. rewrite Hn at 1. cbn [seq mapM fmap list_fmap concat mbind list_bind].
    intros rest. cbn [app]. change (Z.to_nat 0) with 0. cbn [seq mapM]. rewrite (M_bind_Ret (mret []) _ _ [] rest) by done.
    by rewrite (rebuilt paths m latest key counts Hwf Hps).
Qed.

(** ** Writing and reading the file *)

Definition meta_stream (f : PartitionedFile) : Prop :=
  ∃ s, metaFile f = Open s ∧ s_path s = metaPartitionPath f ∧ s_append s = false.

(** A file starts with the metadata [m]. *)
Definition meta_written paths m (l : list Z) : Prop := ∃ bytes,
  meta_bytes paths m = Ret bytes ∧ take (8 + meta_size paths m) l = le_bytes 8 (Z.of_nat (meta_size paths m)) ++ bytes.

(** The disk takes a write of the metadata whole. *)
Definition meta_fits (sp : meta_space) paths m : Prop := ms_calloc sp = true ∧ 8 ≤ ms_size sp ∧ meta_size paths m ≤ ms_data sp.

Lemma seek_metaFile_ok off f d s :
  metaFile f = Open s → (off < 9223372036854775808)%Z →
  seek_metaFile off (f, d) = (Ret true, (set_metaFile (Open (Stream (s_path s) (Z.to_nat off) (s_reads s) (s_append s))) f, d)).
Proof. intros Hs Ho. unfold seek_metaFile, fseek. rewrite Hs. by rewrite (proj2 (Z.ltb_lt _ _)). Qed.

Lemma write_metaFile_ok accepted data f d s :
  metaFile f = Open s → s_append s = false → length data ≤ accepted →
  write_metaFile accepted data (f, d) =
    (Ret 0%Z, (set_metaFile (Open (Stream (s_path s) (s_pos s + length data) (s_reads s) false)) f,
      <[s_path s := overwrite (s_pos s) data (contents d (s_path s))]> d)).
Proof.
  intros Hs Ha Hd. unfold write_metaFile. run_file. rewrite Hs. unfold writeData, fwrite.
  rewrite Ha, take_ge by lia. rewrite Nat.eqb_refl. by run_file.
Qed.

Lemma read_metaFile_ok n f d s got :
  metaFile f = Open s → s_reads s = true → take n (drop (s_pos s) (contents d (s_path s))) = got →
  read_metaFile n (f, d) = (Ret got, (set_metaFile (Open (Stream (s_path s) (s_pos s + length got) true (s_append s))) f, d)).
Proof. intros Hs Hr <-. unfold read_metaFile, fread. by rewrite Hs, Hr. Qed.

Lemma writeMeta_ok sp f d m :
  fileMutex f = false → cleared f = false → meta_stream f → metaData f = Some m → wf_meta (dataPartitionPaths f) m →
  meta_fits sp (dataPartitionPaths f) m →
  ∃ s' l, writeMeta sp (f, d) = (Ret 0%Z, (set_metaFile (Open s') f, <[metaPartitionPath f := l]> d)) ∧
    meta_stream (set_metaFile (Open s') f) ∧ meta_written (dataPartitionPaths f) m l.
Proof.
  intros Hlock Hclear (s & Hs & Hpath & Happ) Hm Hwf (Hc & H8 & Hd).
  destruct (meta_bytes_wf _ m Hwf) as (bytes & Hb & Hlen & _).
  unfold writeMeta. run_file. rewrite Hlock. run_file. rewrite Hs, Hclear. run_file. rewrite Hm. run_file.
  erewrite seek_metaFile_ok by (done || exact Hs). run_file.
  erewrite write_metaFile_ok by (done || rewrite length_le_bytes; lia). run_file. rewrite Hc, Hb. run_file.
  unfold fill_buffer. rewrite decide_True, Hlen, Nat.sub_diag, app_nil_r by lia. run_file.
  erewrite seek_metaFile_ok by done. run_file.
  erewrite write_metaFile_ok by (done || lia). run_file.
  rewrite Hpath, contents_insert, insert_insert_eq. cbn [s_path s_pos s_reads].
  change (Z.to_nat 0) with 0. change (Z.to_nat 8) with 8.
  do 2 eexists. split; [|split].
  - f_equal. f_equal. by destruct f; cbn in *; subst.
  - eexists. split; [reflexivity|]. done.
  - exists bytes. split; [done|].
    pose proof (overwrite_next (le_bytes 8 (Z.of_nat (meta_size (dataPartitionPaths f) m))) bytes (contents d (metaPartitionPath f))) as Ho.
    by rewrite length_le_bytes, Hlen in Ho.
Qed.

(** A file object that has just been made for an existing file. *)
Lemma buildMeta_ok openable latest key f d m paths l :
  metaFile f = NoHandle → openable (metaPartitionPath f) = true → d !! metaPartitionPath f = Some l →
  wf_meta paths m → meta_written paths m l →
  ∃ s, buildMetaDataFromMetaPartition openable true latest key (f, d) =
    (Ret tt, (set_dataPartitionPaths (dataPartitionPaths f ++ paths) (set_pageSize (md_pageSize m)
      (set_metaData (Some m) (set_metaFile (Open s) f))), d)) ∧ s_path s = metaPartitionPath f ∧ s_append s = false.
Proof.
  intros Hf Hopen Hl Hwf (bytes & Hb & Hw).
  destruct (meta_bytes_wf _ m Hwf) as (bytes' & Hb' & Hlen & Hparse). rewrite Hb in Hb'. injection Hb' as <-.
  assert (take 8 l = le_bytes 8 (Z.of_nat (meta_size paths m))) as Hsize.
  { apply (f_equal (take 8)) in Hw. rewrite take_take, take_app_length' in Hw by (by rewrite length_le_bytes).
    by rewrite Nat.min_l in Hw by lia. }
  assert (take (meta_size paths m) (drop 8 l) = bytes) as Hbody.
  { apply (f_equal (drop 8)) in Hw. rewrite drop_app_length' in Hw by (by rewrite length_le_bytes).
    by rewrite <- take_drop_commute in Hw. }
  unfold buildMetaDataFromMetaPartition. run_file. unfold openMeta at 1, fopen_r. rewrite Hf, Hopen, Hl. run_file.
  assert (contents d (metaPartitionPath f) = l) as Hcon by (unfold contents; by rewrite Hl).
  erewrite seek_metaFile_ok by done. run_file.
  erewrite (read_metaFile_ok 8 _ _ _ (le_bytes 8 (Z.of_nat (meta_size paths m)))) by (reflexivity || (cbn [s_pos s_path]; change (Z.to_nat 0) with 0; rewrite drop_0, Hcon; exact Hsize)). run_file.
  rewrite length_le_bytes. cbn [Nat.eqb]. rewrite le_value_bytes.
  2: { pose proof (wf_size _ _ Hwf) as Hz. unfold u64_modulus in Hz. lia. }
  rewrite Nat2Z.id. cbn zeta. run_file. erewrite seek_metaFile_ok by done. run_file.
  erewrite (read_metaFile_ok (meta_size paths m) _ _ _ bytes) by (reflexivity || (cbn [s_pos s_path]; rewrite Hcon; exact Hbody)). run_file.
  rewrite (proj2 (Nat.ltb_ge _ _)) by lia. run_file. pose proof (Hparse latest key []) as Hp. rewrite app_nil_r in Hp. rewrite Hp. run_file.
  destruct (wf_partitions _ _ Hwf) as (counts & Hc & _ & Hps).
  unfold on_file, modify. rewrite Hps, default_some_list, part_list_paths by done.
  eexists. split; [by destruct f|]. done.
Qed.

(** [C17] The first 8 bytes and the metadata of a file are written and read again as
    they were, whatever the file held before and in whatever order its maps are
    iterated.  Assumed: the metadata has no shared pages, as many flushed pages as
    indexed ones, maps that are inverse to each other, paths without null
    characters, and fields that fit their types ([wf_meta]; without that it does
    not come back: [addSharedPage_overruns], [appended_twice_phantom]); the file
    is open, not cleared and not locked; and the disk takes the write whole. *)
Theorem metadata_roundtrip (sp : meta_space) (f : PartitionedFile) (d : disk) (m : PartitionedFileMetaData)
    (openable : string → bool) (nodeId dbId typeId setId latest : Z) (key : SetKey) :
  fileMutex f = false → cleared f = false → meta_stream f → metaData f = Some m → wf_meta (dataPartitionPaths f) m →
  meta_fits sp (dataPartitionPaths f) m → openable (metaPartitionPath f) = true →
  ∃ s' d', writeMeta sp (f, d) = (Ret 0%Z, (set_metaFile (Open s') f, d')) ∧
    (∀ path, path ≠ metaPartitionPath f → d' !! path = d !! path) ∧
    let g := PartitionedFile_init nodeId dbId typeId setId (metaPartitionPath f) in
    ∃ g', buildMetaDataFromMetaPartition openable true latest key (g, d') = (Ret tt, (g', d')) ∧
      metaData g' = Some m ∧ dataPartitionPaths g' = dataPartitionPaths f ∧ pf_pageSize g' = md_pageSize m.
Proof.
  intros Hlock Hclear Hs Hm Hwf Hfits Hopen.
  destruct (writeMeta_ok sp f d m Hlock Hclear Hs Hm Hwf Hfits) as (s' & l & Hw & _ & Hl).
  eexists s', _. split; [exact Hw|]. split; [intros path Hne; by rewrite lookup_insert_ne|]. intros g.
  destruct (buildMeta_ok openable latest key g (<[metaPartitionPath f := l]> d) m (dataPartitionPaths f) l)
    as (s & Hb & _); [done|done|apply lookup_insert_eq|done|done|].
  eexists. split; [exact Hb|]. by cbn.
Qed.
End order.

(** Two pages in one partition. *)
Definition two_pages : PartitionedFileMetaData :=
  MkMetaData 0 (Some [MkPartition 0 2 "a"]) 8 2 5 (<[3 := MkPageIndex 0 0]> {[5 := MkPageIndex 0 1]})%Z
    (<[MkPageIndex 0 0 := 3]> {[MkPageIndex 0 1 := 5]})%Z 0 (MkSetKey 1 2 3) None None.

Definition two_pages_file : PartitionedFile :=
  MkFile 1 2 3 4 "m" ["a"%string] 8 false false (Open (Stream "m" 30 true false)) [NoHandle] [NoHandle] (Some two_pages) false.

Lemma two_pages_wf : wf_meta ["a"%string] two_pages.
Proof.
  split; try done.
  - exists [2%Z]. split_and!; [done| |done]. by repeat constructor.
  - split; [done|]. repeat constructor; vm_compute; discriminate.
  - intros k i. cbn [pageIndexes pageIds two_pages]. rewrite !lookup_insert_Some, !lookup_singleton_Some.
    split; intros [[<- <-]|[Hk [<- <-]]]; auto; right; split; done.
  - intros k i Hk. cbn [pageIndexes two_pages] in Hk. rewrite lookup_insert_Some, lookup_singleton_Some in Hk.
    by destruct Hk as [[<- <-]|[_ [<- <-]]].
Qed.

Lemma metadata_roundtrip_witness : ∃ s' d', writeMeta (MetaSpace true 8 100) (two_pages_file, {["m"%string := replicate 90 7%Z]}) =
    (Ret 0%Z, (set_metaFile (Open s') two_pages_file, d')) ∧
  (∀ path, path ≠ "m"%string → d' !! path = ({["m"%string := replicate 90 7%Z]} : disk) !! path) ∧
  ∃ g', buildMetaDataFromMetaPartition (λ _, true) true 9 (MkSetKey 9 9 9) (PartitionedFile_init 1 2 3 4 "m", d') = (Ret tt, (g', d')) ∧
    metaData g' = Some two_pages ∧ dataPartitionPaths g' = ["a"%string] ∧ pf_pageSize g' = 8%Z.
Proof.
  apply (metadata_roundtrip (MetaSpace true 8 100) two_pages_file _ two_pages (λ _, true) 1 2 3 4 9 (MkSetKey 9 9 9)); try done.
  - eexists. split; [reflexivity|]. done.
  - exact two_pages_wf.
  - split_and!; [done|vm_compute; lia..].
Defined.
