(* ===== verification/FileStore.v ===== *)
(** * FileStore: a partitioned file as a store of pages

    A [PartitionedFile] keeps, for every partition, the list of the pages that
    were appended to it ([store_ok]).  Pages are flushed as
    [storage/source/PDBFlushConsumerWork.cc] does it, each append followed by
    [writeMeta]; when the server starts again the file object is made from its
    metadata as in [storage/source/UserType.cc].  [file_ops_refine] says that
    every sequence of flushes, loads and restarts has the results of the store. *)

From S2P Require Import Prelude.
From S2P Require Import PDBPage.
From S2P Require Import Files.
From S2P Require Import FileMetaData.
From S2P Require Import PartitionedFile.
From S2P Require Import FileMetaRoundtrip.

(** ** The store *)

(** For every partition the ids and the bytes of its pages. *)
Abbreviation store := (list (list (Z * list Z))).

Implicit Types (pages : store) (f : PartitionedFile) (d : disk) (m : PartitionedFileMetaData).

Definition page_at pages (i j : nat) : option (Z * list Z) := ps ← pages !! i; ps !! j.

Definition add_page (i : nat) (x : Z * list Z) pages : store := alter (.++ [x]) i pages.

Definition fresh_id (k : Z) pages : Prop := ∀ i j bytes, page_at pages i j ≠ Some (k, bytes).

(** The largest id, or -1 as an [unsigned int]. *)
Definition latest_id pages : Z :=
  match concat pages with [] => UINT32_MAX | x :: l => foldr (λ p, Z.max p.1) x.1 l end.

Lemma page_at_add pages i x ps i' j' y :
  pages !! i = Some ps →
  page_at (add_page i x pages) i' j' = Some y ↔ page_at pages i' j' = Some y ∨ (i' = i ∧ j' = length ps ∧ y = x).
Proof.
  intros Hi. unfold page_at, add_page. destruct (decide (i' = i)) as [-> |Hne].
  - rewrite list_lookup_alter_eq, Hi. cbn. rewrite lookup_app. destruct (ps !! j') as [z|] eqn:Hz.
    + split; [tauto|]. intros [H|(_ & -> & ->)]; [done|]. apply lookup_lt_Some in Hz. lia.
    + apply lookup_ge_None in Hz. destruct (j' - length ps) as [|n] eqn:E; cbn.
      * split; [intros [= <-]; right; split_and!; [done|lia|done]|]. intros [H|(_ & _ & ->)]; done.
      * split; [done|]. intros [H|(_ & -> & _)]; [done|lia].
  - rewrite list_lookup_alter_ne by done. naive_solver.
Qed.

Lemma concat_add pages i x ps : pages !! i = Some ps → concat (add_page i x pages) ≡ₚ x :: concat pages.
Proof.
  revert i. induction pages as [|q pages IH]; intros [|i] Hi; try done; cbn.
  - rewrite <- app_assoc. cbn. symmetry. apply Permutation_middle.
  - unfold add_page in IH. rewrite (IH i Hi). symmetry. apply Permutation_middle.
Qed.

Lemma length_add pages i x : length (add_page i x pages) = length pages.
Proof. apply length_alter. Qed.

Definition is_latest (l : list (Z * list Z)) (z : Z) : Prop :=
  (l = [] ∧ z = UINT32_MAX) ∨ (z ∈ l.*1 ∧ Forall (λ k, k ≤ z)%Z l.*1).

Lemma latest_id_is_latest pages : is_latest (concat pages) (latest_id pages).
Proof.
  unfold latest_id. destruct (concat pages) as [|x l]; [by left|]. right. revert x.
  induction l as [|y l IH]; intros x; cbn [foldr fmap list_fmap].
  - split; [left|]. constructor; [lia|constructor].
  - destruct (IH x) as [Hin Hall]. apply Forall_cons in Hall as [Hx Hall]. split.
    + destruct (Z.max_spec y.1 (foldr (λ p, Z.max p.1) x.1 l)) as [[_ ->]|[_ ->]].
      * cbn in Hin. set_solver.
      * set_solver.
    + repeat constructor; [lia..|]. eapply Forall_impl; [exact Hall|]. cbn. intros k Hk. lia.
Qed.

Lemma is_latest_unique l z z' : is_latest l z → is_latest l z' → z = z'.
Proof.
  intros [[-> ->]|[Hin Hall]] [[Hl ->]|[Hin' Hall']]; [done|by apply elem_of_nil in Hin'|by subst l; apply elem_of_nil in Hin|].
  rewrite Forall_forall in Hall, Hall'. specialize (Hall _ Hin'). specialize (Hall' _ Hin). lia.
Qed.

Lemma is_latest_add (l l' : list (Z * list Z)) k bytes z :
  l' ≡ₚ (k, bytes) :: l → Forall (λ k, k < UINT32_MAX)%Z l.*1 → is_latest l z →
  is_latest l' (if bool_decide (z < k ∨ z = UINT32_MAX)%Z then k else z).
Proof.
  intros Hl Hlt Hz. right. rewrite Hl. cbn [fmap list_fmap fst]. destruct Hz as [[-> ->]|[Hin Hall]].
  - rewrite bool_decide_true by tauto. split; [left|]. constructor; [lia|constructor].
  - rewrite Forall_forall in Hlt, Hall. pose proof (Hlt _ Hin) as Hm.
    case_bool_decide as Hc; (split; [|apply Forall_cons; split; [lia|apply Forall_forall; intros q Hq; specialize (Hall q Hq); lia]]).
    + left.
    + by right.
Qed.

Lemma concat_ids pages k : k ∈ (concat pages).*1 → ∃ i j bytes, page_at pages i j = Some (k, bytes).
Proof.
  intros ([k' bytes] & -> & Hin)%list_elem_of_fmap. apply list_elem_of_In, in_concat in Hin as (ps & Hps & Hin).
  apply list_elem_of_In, list_elem_of_lookup in Hps as [i Hi]. apply list_elem_of_In, list_elem_of_lookup in Hin as [j Hj].
  exists i, j, bytes. unfold page_at. by rewrite Hi.
Qed.

Lemma partition_small pages i ps : pages !! i = Some ps → length ps ≤ length (concat pages).
Proof.
  revert i. induction pages as [|q pages IH]; intros [|i] Hi; try done; cbn in *; rewrite length_app.
  - injection Hi as ->. lia.
  - specialize (IH i Hi). lia.
Qed.

Definition counts pages : list Z := (λ ps, Z.of_nat (length ps)) <$> pages.

Lemma concat_no_pages (n : nat) : concat (replicate n ([] : list (Z * list Z))) = [].
Proof. by induction n. Qed.

Lemma page_at_empty n i j : page_at (replicate n []) i j = None.
Proof. unfold page_at. destruct (replicate n [] !! i) as [ps|] eqn:E; [|done]. by apply lookup_replicate in E as [-> _]. Qed.

(** ** Calls on file objects *)

Lemma handle_at_run direct i f d h :
  hs_of direct f !! i = Some h → handle_at direct i (f, d) = (Ret h, (f, d)).
Proof. intros Hi. unfold handle_at. cbn [fst]. by rewrite Hi. Qed.

Lemma set_handle_run direct i f d h h' :
  hs_of direct f !! i = Some h → set_handle direct i h' (f, d) = (Ret tt, (set_hs direct (<[i := h']> (hs_of direct f)) f, d)).
Proof. intros Hi. unfold set_handle. by rewrite (M_bind_Ret _ _ _ _ _ (handle_at_run _ _ _ _ _ Hi)). Qed.

Lemma set_hs_other direct hs f :
  fileMutex (set_hs direct hs f) = fileMutex f ∧ cleared (set_hs direct hs f) = cleared f ∧
  dataPartitionPaths (set_hs direct hs f) = dataPartitionPaths f ∧ metaPartitionPath (set_hs direct hs f) = metaPartitionPath f ∧
  metaFile (set_hs direct hs f) = metaFile f ∧ metaData (set_hs direct hs f) = metaData f ∧
  usingDirect (set_hs direct hs f) = usingDirect f ∧ hs_of direct (set_hs direct hs f) = hs.
Proof. by destruct direct. Qed.

(** What [record_page] makes of the metadata. *)
Definition recorded (k : Z) (i n : nat) m : PartitionedFileMetaData :=
  let m1 := incNumFlushedPages m in
  let m2 := if bool_decide (latestPageId m < k ∨ latestPageId m = UINT32_MAX)%Z then setLatestPageId k m1 else m1 in
  incPartition i (addPageIndex k (Z.of_nat i) (Z.of_nat n) m2).

Lemma record_page_ok f d m i k n path :
  metaData f = Some m → getPartition i m = Ret (MkPartition (Z.of_nat i) (Z.of_nat n) path) → (Z.of_nat n < 2147483648)%Z →
  record_page i k (f, d) = (Ret (Z.of_nat n), (set_metaData (Some (recorded k i n m)) f, d)).
Proof.
  intros Hm Hp Hn. unfold record_page. run_file. rewrite Hm. run_file. cbn [latestPageId incNumFlushedPages setNumFlushedPages].
  unfold recorded. case_bool_decide; run_file;
    (assert (∀ z m', getPartition i (setLatestPageId z m') = getPartition i m') as Hset by done);
    rewrite ?Hset; change (getPartition i (incNumFlushedPages m)) with (getPartition i m); rewrite Hp; run_file;
    cbn [pm_numPages]; unfold s32; rewrite (proj2 (Z.ltb_lt _ _)) by lia; rewrite u32_small by (unfold u32_modulus; lia);
    by destruct f.
Qed.

(** What [appendPage] does with a handle that is open, whether or not the disk
    takes the whole page. *)
Lemma appendPage_run f d m i (page : page_state) n path bytes s accepted :
  fileMutex f = false → cleared f = false → hs_of (usingDirect f) f !! i = Some (Open s) → s_append s = true →
  metaData f = Some m → getPartition i m = Ret (MkPartition (Z.of_nat i) (Z.of_nat n) path) → (Z.of_nat n < 2147483648)%Z →
  raw_bytes page = Some bytes →
  let written := take accepted bytes in
  let s' := Stream (s_path s) (length (contents d (s_path s)) + length written) (s_reads s) true in
  let f' := set_hs (usingDirect f) (<[i := Open s']> (hs_of (usingDirect f) f)) f in
  let d' := <[s_path s := contents d (s_path s) ++ written]> d in
  appendPage accepted i (Some page) (f, d) =
    if length written =? length bytes then (Ret (Z.of_nat n), (set_metaData (Some (recorded (pageID page.1) i n m)) f', d'))
    else (Ret (-1)%Z, (f', d')).
Proof.
  intros Hlock Hclear Hs Hsa Hmd Hget Hn Hraw written s' f' d'. pose proof (set_hs_other (usingDirect f)) as Hother.
  assert (fwrite accepted bytes s d = (length written, (s', d'))) as Hw.
  { unfold fwrite. rewrite Hsa. fold written. by rewrite overwrite_end. }
  unfold appendPage. run_file. rewrite (handle_at_run _ _ _ _ _ Hs). run_file. rewrite Hlock. run_file. rewrite Hclear. run_file.
  rewrite Hraw. unfold writeData. rewrite Hw. run_file.
  rewrite (set_handle_run (usingDirect f) i (set_fileMutex true f) _ (Open s)) by (by destruct f, usingDirect). run_file.
  destruct (length written =? length bytes); cbn [Z.ltb Z.compare]; run_file.
  - destruct (Hother (<[i := Open s']> (hs_of (usingDirect f) (set_fileMutex true f))) (set_fileMutex true f)) as (_ & _ & _ & _ & _ & E & _ & _).
    rewrite (record_page_ok _ _ m i (pageID page.1) n path) by (done || (rewrite E; done)). run_file.
    unfold f'. by destruct f, usingDirect; cbn in *; subst.
  - unfold f'. by destruct f, usingDirect; cbn in *; subst.
Qed.

Lemma open_files_ok direct openable qs : ∀ h0 f d,
  hs_of direct f = h0 ++ replicate (length qs) NoHandle → Forall (λ q, openable q = true) qs →
  ∃ d', open_files direct openable (length h0) qs (f, d) =
      (Ret true, (set_hs direct (h0 ++ ((λ q, Open (Stream q 0 true true)) <$> qs)) f, d')) ∧
    (∀ q, contents d' q = contents d q) ∧ (∀ q, q ∉ qs → d' !! q = d !! q).
Proof.
  induction qs as [|q qs IH]; intros h0 f d Hh Ho.
  - exists d. split; [|done]. cbn. do 3 f_equal. cbn in Hh. rewrite <- Hh. by destruct f, direct.
  - apply Forall_cons in Ho as [Hq Ho]. cbn [open_files]. rewrite Hq. run_file. unfold fopen_a. run_file.
    cbn [length replicate] in Hh.
    rewrite (set_handle_run direct (length h0) f _ NoHandle) by (rewrite Hh; by apply list_lookup_middle). run_file.
    set (f1 := set_hs direct _ f). set (d1 := <[q := _]> d).
    assert (hs_of direct f1 = (h0 ++ [Open (Stream q 0 true true)]) ++ replicate (length qs) NoHandle) as Hh1.
    { unfold f1. destruct (set_hs_other direct (<[length h0 := Open (Stream q 0 true true)]> (hs_of direct f)) f) as (_ & _ & _ & _ & _ & _ & _ & ->).
      rewrite Hh, <- app_assoc. cbn [app]. rewrite insert_app_r_alt, Nat.sub_diag by lia. done. }
    destruct (IH _ f1 d1 Hh1 Ho) as (d' & Hr & Hc & Hn). exists d'. rewrite length_app, Nat.add_1_r in Hr. split; [|split].
    + rewrite Hr. do 2 f_equal. rewrite <- app_assoc. unfold f1. by destruct direct.
    + intros q'. rewrite Hc. unfold d1. destruct (decide (q' = q)) as [-> |Hne]; [apply contents_insert|by apply contents_insert_ne].
    + intros q' Hq'. rewrite Hn by set_solver. unfold d1. apply lookup_insert_ne. set_solver.
Qed.

Section file_store.
Context `{MapOrder}.

(** The files of a set, the size of its pages, and the number [N] of pages up to
    which it is used. *)
Variables (mpath : string) (paths : list string) (pageSize N : nat).

Hypothesis paths_distinct : NoDup (mpath :: paths).
Hypothesis paths_ok : Forall no_zero paths.
Definition paths_total : nat := sum_list ((λ path, 4 + 4 + 8 + S (String.length path)) <$> paths).
Hypothesis paths_size : (Z.of_nat paths_total < 4294967296)%Z.
Hypothesis N_small : (Z.of_nat N < 2147483648)%Z.
Hypothesis N_pages : (Z.of_nat (S N) * Z.of_nat pageSize < 9223372036854775808)%Z.

(** The metadata of a store. *)
Record store_meta pages m : Prop := {
  sm_version : (0 ≤ version m < 65536)%Z;
  sm_pageSize : md_pageSize m = Z.of_nat pageSize;
  sm_partitions : partitions m = some_list (part_list paths (counts pages));
  sm_size : size (pageIndexes m) = length (concat pages);
  sm_flushed : numFlushedPages m = Z.of_nat (length (concat pages));
  sm_latest : is_latest (concat pages) (latestPageId m);
  sm_inverse : inverse_maps (pageIndexes m) (pageIds m);
  sm_index k idx : pageIndexes m !! k = Some idx ↔
    ∃ i j bytes, page_at pages i j = Some (k, bytes) ∧ idx = MkPageIndex (Z.of_nat i) (Z.of_nat j);
  sm_key : u32_range_of (sk_dbId (sharedSetKey m)) ∧ u32_range_of (sk_typeId (sharedSetKey m)) ∧ u32_range_of (sk_setId (sharedSetKey m));
  sm_unshared : numSharedPages m = 0%Z ∧ sharedPageIndexes m = None ∧ sharedPageMaps m = None
}.

(** The pages of a store of at most [N] pages. *)
Record pages_ok pages : Prop := {
  po_partitions : length pages = length paths;
  po_small : length (concat pages) ≤ N;
  po_page i j k bytes : page_at pages i j = Some (k, bytes) → (0 ≤ k < UINT32_MAX)%Z ∧ length bytes = pageSize
}.

Definition data_open f : Prop := ∀ i path, paths !! i = Some path →
  ∃ s, hs_of (usingDirect f) f !! i = Some (Open s) ∧ s_path s = path ∧ s_reads s = true ∧ s_append s = true.

(** A file object with its data files; the metadata is in memory. *)
Record store_open (st : fstate) pages m : Prop := {
  so_lock : fileMutex st.1 = false;
  so_cleared : cleared st.1 = false;
  so_paths : dataPartitionPaths st.1 = paths;
  so_mpath : metaPartitionPath st.1 = mpath;
  so_stream : meta_stream st.1;
  so_handles : data_open st.1;
  so_data i path ps : paths !! i = Some path → pages !! i = Some ps → contents st.2 path = concat ps.*2;
  so_meta : metaData st.1 = Some m ∧ store_meta pages m
}.

(** The metadata is in its file as well. *)
Definition store_ok (st : fstate) pages : Prop := ∃ m l,
  store_open st pages m ∧ st.2 !! mpath = Some l ∧ meta_written paths m l.

(** ** Lemmas *)

Lemma length_paths_size : length paths ≤ paths_total.
Proof. unfold paths_total. clear. induction paths as [|p ps IH]; [done|]. rewrite fmap_cons, sum_list_first. cbn [length]. lia. Qed.

Lemma path_small path : path ∈ paths → S (String.length path) ≤ paths_total.
Proof.
  unfold paths_total. clear. induction paths as [|p ps IH]; intros Hp; [by apply elem_of_nil in Hp|].
  rewrite fmap_cons, sum_list_first. apply elem_of_cons in Hp as [-> |Hp]; [lia|]. specialize (IH Hp). lia.
Qed.

Lemma page_at_bounds pages i j x : pages_ok pages → page_at pages i j = Some x → i < length paths ∧ j < N.
Proof.
  intros Hok Hx. unfold page_at in Hx. destruct (pages !! i) as [ps|] eqn:Hi; [|done]. split.
  - rewrite <- (po_partitions _ Hok). by eapply lookup_lt_Some.
  - apply lookup_lt_Some in Hx. pose proof (partition_small _ _ _ Hi). pose proof (po_small _ Hok). lia.
Qed.

Lemma ids_small pages : pages_ok pages → Forall (λ k, 0 ≤ k < UINT32_MAX)%Z (concat pages).*1.
Proof. intros Hok. apply Forall_forall. intros k (i & j & bytes & Hp)%concat_ids. by destruct (po_page _ Hok _ _ _ _ Hp). Qed.

Lemma counts_u32 pages : pages_ok pages → Forall u32_range_of (counts pages).
Proof.
  intros Hok. apply Forall_fmap, Forall_lookup_2. intros i ps Hi. unfold compose, u32_range_of.
  pose proof (partition_small _ _ _ Hi). pose proof (po_small _ Hok). lia.
Qed.

Lemma latest_u32 pages z : pages_ok pages → is_latest (concat pages) z → u32_range_of z.
Proof.
  intros Hok [[_ ->]|[Hin _]]; [done|]. pose proof (ids_small _ Hok) as Hids. rewrite Forall_forall in Hids.
  specialize (Hids _ Hin). unfold u32_range_of, UINT32_MAX in *. lia.
Qed.

Lemma meta_size_bound pages m : pages_ok pages → store_meta pages m → meta_size paths m ≤ 42 + paths_total + 12 * N.
Proof.
  intros Hok Hm. unfold meta_size. fold paths_total. rewrite (sm_flushed _ _ Hm), Nat2Z.id.
  destruct (sm_unshared _ _ Hm) as [-> _]. change (Z.to_nat (u32 0)) with 0. pose proof (po_small _ Hok). lia.
Qed.

Lemma store_wf pages m : pages_ok pages → store_meta pages m → wf_meta paths m.
Proof.
  intros Hok Hm. pose proof length_paths_size as Hps. pose proof (meta_size_bound _ _ Hok Hm) as Hsize. pose proof (po_small _ Hok) as Hs.
  split; try apply Hm.
  - rewrite (sm_pageSize _ _ Hm). unfold u64_modulus. nia.
  - by rewrite (sm_flushed _ _ Hm), (sm_size _ _ Hm).
  - rewrite (sm_flushed _ _ Hm). unfold u32_range_of. lia.
  - eapply latest_u32; [done|apply Hm].
  - exists (counts pages). split_and!; [unfold counts; rewrite length_fmap; apply Hok|by apply counts_u32|apply Hm].
  - split; [unfold u32_range_of; lia|]. apply Forall_forall. intros path Hin. split.
    + by eapply Forall_forall in paths_ok.
    + pose proof (path_small _ Hin). unfold u64_modulus. lia.
  - intros k idx Hk. apply (sm_index _ _ Hm) in Hk as (i & j & bytes & Hp & ->).
    destruct (page_at_bounds _ _ _ _ Hok Hp). destruct (po_page _ Hok _ _ _ _ Hp) as [Hk _].
    unfold entry_ok, u32_range_of, UINT32_MAX in *. cbn [fst snd pi_partitionId pi_pageSeqInPartition]. lia.
  - unfold u64_modulus. lia.
Qed.

(** *** Appending *)

Lemma partition_exists pages m i : pages_ok pages → store_meta pages m → i < length pages →
  ∃ ps path, pages !! i = Some ps ∧ paths !! i = Some path ∧
    getPartition i m = Ret (MkPartition (Z.of_nat i) (Z.of_nat (length ps)) path).
Proof.
  intros Hok Hm Hi. destruct (lookup_lt_is_Some_2 pages i Hi) as [ps Hps].
  destruct (lookup_lt_is_Some_2 paths i) as [path Hpath]; [by rewrite <- (po_partitions _ Hok)|]. exists ps, path.
  split_and!; [done..|]. unfold getPartition. rewrite (sm_partitions _ _ Hm).
  assert (part_list paths (counts pages) !! i = Some (MkPartition (Z.of_nat i) (Z.of_nat (length ps)) path)) as Hp.
  { unfold part_list, counts. rewrite list_lookup_imap, lookup_zip_with, Hpath, list_lookup_fmap, Hps. done. }
  destruct (part_list paths (counts pages)) as [|x l]; [done|]. cbn [some_list]. by rewrite Hp.
Qed.

Lemma part_list_inc pages i ps : pages !! i = Some ps → length pages = length paths → (Z.of_nat (S (length ps)) < u32_modulus)%Z →
  ∀ x, alter incNumPages i (part_list paths (counts pages)) = part_list paths (counts (add_page i x pages)).
Proof.
  intros Hi Hlen Hsmall x. apply list_eq. intros j. unfold part_list, counts, add_page.
  destruct (decide (j = i)) as [-> |Hne].
  - rewrite list_lookup_alter_eq, !list_lookup_imap, !lookup_zip_with, !list_lookup_fmap, list_lookup_alter_eq, Hi. cbn.
    destruct (paths !! i) as [path|]; [|done]. cbn. unfold incNumPages, set_numPages. cbn.
    rewrite length_app. cbn. do 2 f_equal. rewrite u32_small by (unfold u32_modulus in *; lia). lia.
  - rewrite list_lookup_alter_ne by done. rewrite !list_lookup_imap, !lookup_zip_with, !list_lookup_fmap.
    by rewrite list_lookup_alter_ne.
Qed.

Lemma recorded_meta pages m i k bytes ps :
  pages_ok pages → store_meta pages m → pages !! i = Some ps → fresh_id k pages → (0 ≤ k < UINT32_MAX)%Z →
  pages_ok (add_page i (k, bytes) pages) → store_meta (add_page i (k, bytes) pages) (recorded k i (length ps) m).
Proof.
  intros Hok Hm Hi Hfresh Hk Hok'. set (pages' := add_page i (k, bytes) pages).
  pose proof (concat_add pages i (k, bytes) ps Hi) as Hcat.
  assert (length (concat pages') = S (length (concat pages))) as Hlen by (unfold pages'; by rewrite Hcat).
  pose proof (po_small _ Hok') as Hsmall. fold pages' in Hsmall. pose proof (partition_small _ _ _ Hi) as Hps.
  assert (pageIndexes m !! k = None) as Hk1.
  { destruct (pageIndexes m !! k) as [idx|] eqn:E; [|done]. apply (sm_index _ _ Hm) in E as (i' & j & b & Hp & _). by apply Hfresh in Hp. }
  assert (pageIds m !! MkPageIndex (Z.of_nat i) (Z.of_nat (length ps)) = None) as Hk2.
  { destruct (pageIds m !! _) as [k'|] eqn:E; [|done]. apply (sm_inverse _ _ Hm), (sm_index _ _ Hm) in E as (i' & j & b & Hp & Heq).
    injection Heq as ?%Nat2Z.inj ?%Nat2Z.inj. subst i' j. unfold page_at in Hp. rewrite Hi in Hp. cbn in Hp. apply lookup_lt_Some in Hp. lia. }
  assert (∃ m2, recorded k i (length ps) m = incPartition i (addPageIndex k (Z.of_nat i) (Z.of_nat (length ps)) m2) ∧
    m2 = setLatestPageId (latestPageId m2) (incNumFlushedPages m) ∧ is_latest (concat pages') (latestPageId m2)) as (m2 & -> & Hm2 & Hlatest).
  { eexists. split; [reflexivity|]. pose proof (is_latest_add (concat pages) (concat pages') k bytes (latestPageId m) Hcat) as Hl.
    specialize (Hl ltac:(eapply Forall_impl; [by apply ids_small|cbn; lia]) (sm_latest _ _ Hm)).
    case_bool_decide; (split; [by destruct m|done]). }
  rewrite Hm2. clear Hm2. unfold addPageIndex, incPartition. cbn [pageIndexes pageIds setLatestPageId incNumFlushedPages setNumFlushedPages].
  rewrite !insert_new_fresh by done. subst pages'.
  split; cbn [version md_pageSize partitions pageIndexes pageIds numFlushedPages latestPageId sharedSetKey numSharedPages sharedPageIndexes sharedPageMaps
    setPartitions set_indexes setLatestPageId incNumFlushedPages setNumFlushedPages]; try apply Hm; try done.
  - rewrite (sm_partitions _ _ Hm). rewrite <- (part_list_inc pages i ps Hi (po_partitions _ Hok)) by (unfold u32_modulus; lia).
    destruct (part_list paths (counts pages)) as [|p l] eqn:E; [|by destruct i].
    apply (f_equal length) in E. rewrite length_part_list in E by (unfold counts; rewrite length_fmap; apply Hok).
    apply lookup_lt_Some in Hi. rewrite (po_partitions _ Hok) in Hi. cbn in E. lia.
  - rewrite map_size_insert_None by done. by rewrite (sm_size _ _ Hm), Hlen.
  - rewrite (sm_flushed _ _ Hm), Hlen, u32_small by (unfold u32_modulus; lia). lia.
  - apply inverse_maps_insert; [apply Hm|done..].
  - intros k' idx. rewrite lookup_insert_Some. setoid_rewrite (page_at_add pages i (k, bytes) ps _ _ _ Hi). rewrite (sm_index _ _ Hm). split.
    + intros [[<- <-]|[Hne (i' & j & b & Hp & ->)]]; [|naive_solver]. exists i, (length ps), bytes. naive_solver.
    + intros (i' & j & b & [Hp|(-> & -> & [= -> ->])] & ->); [|by left]. right. split; [|naive_solver]. intros <-. by apply Hfresh in Hp.
Qed.

Lemma paths_inj i j path : paths !! i = Some path → paths !! j = Some path → i = j.
Proof. apply NoDup_cons in paths_distinct as [_ Hnd]. intros. by eapply NoDup_lookup. Qed.

Lemma mpath_not_data i path : paths !! i = Some path → path ≠ mpath.
Proof. intros Hi ->. apply NoDup_cons in paths_distinct as [Hn _]. by apply Hn, (list_elem_of_lookup_2 _ i). Qed.

(** Moving a data handle on, to a stream of the same kind. *)
Lemma data_open_insert f i path s' :
  data_open f → paths !! i = Some path → s_path s' = path → s_reads s' = true → s_append s' = true →
  data_open (set_hs (usingDirect f) (<[i := Open s']> (hs_of (usingDirect f) f)) f).
Proof.
  intros Hf Hi Hp Hr Ha j path' Hj. destruct (set_hs_other (usingDirect f) (<[i := Open s']> (hs_of (usingDirect f) f)) f)
    as (_ & _ & _ & _ & _ & _ & -> & ->). destruct (decide (j = i)) as [-> |Hne].
  - rewrite list_lookup_insert_eq by (destruct (Hf i path Hi) as (s & Hs & _); by eapply lookup_lt_Some).
    exists s'. split_and!; [done|congruence|done..].
  - rewrite list_lookup_insert_ne by done. by apply Hf.
Qed.

Lemma appendPage_ok f d pages m i (page : page_state) k bytes accepted :
  pages_ok pages → store_open (f, d) pages m → i < length pages →
  pageID page.1 = k → raw_bytes page = Some bytes → length bytes ≤ accepted →
  fresh_id k pages → pages_ok (add_page i (k, bytes) pages) →
  ∃ st' m' ps, appendPage accepted i (Some page) (f, d) = (Ret (Z.of_nat (length ps)), st') ∧
    pages !! i = Some ps ∧ store_open st' (add_page i (k, bytes) pages) m'.
Proof.
  intros Hok [Hlock Hclear Hpaths Hmpath Hstream Hopen Hdata [Hmd Hm]] Hi <- Hraw Hacc Hfresh Hok'. cbn [fst snd] in *.
  destruct (partition_exists pages m i Hok Hm Hi) as (ps & path & Hps & Hpath & Hget).
  destruct (Hopen i path Hpath) as (s & Hs & Hsp & Hsr & Hsa).
  assert (page_at (add_page i (pageID page.1, bytes) pages) i (length ps) = Some (pageID page.1, bytes)) as Hnew.
  { apply (page_at_add pages i (pageID page.1, bytes) ps); [done|]. by right. }
  destruct (po_page _ Hok' _ _ _ _ Hnew) as [Hk Hlen]. destruct (page_at_bounds _ _ _ _ Hok' Hnew) as [_ HN].
  pose proof (appendPage_run f d m i page (length ps) path bytes s accepted Hlock Hclear Hs Hsa Hmd Hget ltac:(lia) Hraw) as Hrun.
  cbv zeta in Hrun. rewrite take_ge, Nat.eqb_refl in Hrun by done. rewrite Hrun. clear Hrun.
  set (s' := Stream _ _ _ _). eexists _, (recorded (pageID page.1) i (length ps) m), ps. split; [reflexivity|]. split; [done|].
  destruct (set_hs_other (usingDirect f) (<[i := Open s']> (hs_of (usingDirect f) f)) f) as (O1 & O2 & O3 & O4 & O5 & O6 & O7 & O8).
  split; cbn [fst snd set_metaData fileMutex cleared dataPartitionPaths metaPartitionPath metaData]; rewrite ?O1, ?O2, ?O3, ?O4; try done.
  - destruct Hstream as (sm & Hsm & Hp2 & Ha2). exists sm. cbn [set_metaData metaFile metaPartitionPath]. by rewrite O5, O4.
  - apply (data_open_insert f i path s' Hopen Hpath Hsp Hsr eq_refl).
  - intros j path' ps' Hj Hpj. rewrite Hsp. unfold add_page in Hpj. destruct (decide (j = i)) as [-> |Hji].
    + rewrite Hpath in Hj. injection Hj as <-. rewrite list_lookup_alter_eq, Hps in Hpj. injection Hpj as <-.
      rewrite contents_insert, (Hdata i path ps Hpath Hps), fmap_app, concat_app. cbn. by rewrite app_nil_r.
    + rewrite list_lookup_alter_ne in Hpj by done. rewrite contents_insert_ne; [by apply (Hdata j)|].
      intros <-. apply Hji. by apply (paths_inj j i path).
  - split; [done|]. by apply (recorded_meta pages m i (pageID page.1) bytes ps).
Qed.

(** *** Writing the metadata, loading and starting again *)

(** The answers that the disk has room for everything. *)
Definition plenty (sp : meta_space) : Prop := ms_calloc sp = true ∧ 8 ≤ ms_size sp ∧ 42 + paths_total + 12 * N ≤ ms_data sp.

Lemma plenty_fits sp pages m : plenty sp → pages_ok pages → store_meta pages m → meta_fits sp paths m.
Proof. intros (Hc & H8 & Hd) Hok Hm. pose proof (meta_size_bound _ _ Hok Hm). split_and!; [done..|lia]. Qed.

Lemma writeMeta_store sp f d pages m :
  plenty sp → pages_ok pages → store_open (f, d) pages m →
  ∃ st', writeMeta sp (f, d) = (Ret 0%Z, st') ∧ store_ok st' pages.
Proof.
  intros Hsp Hok [Hlock Hclear Hpaths Hmpath Hstream Hopen Hdata [Hmd Hm]]. cbn [fst snd] in *.
  destruct (writeMeta_ok sp f d m) as (s' & l & Hw & Hs' & Hl); [done..|rewrite Hpaths; by apply (store_wf pages)| |].
  { rewrite Hpaths. by apply (plenty_fits sp pages). }
  eexists. split; [exact Hw|]. exists m, l. rewrite Hmpath. split; [|split; [apply lookup_insert_eq|by rewrite <- Hpaths]].
  split; cbn [fst snd set_metaFile fileMutex cleared dataPartitionPaths metaPartitionPath metaData]; try done.
  intros i path ps Hi Hp. rewrite contents_insert_ne; [by apply (Hdata i)|]. intros <-. by eapply mpath_not_data.
Qed.

Lemma take_page (ps : list (Z * list Z)) j k bytes :
  (∀ j k bytes, ps !! j = Some (k, bytes) → length bytes = pageSize) → ps !! j = Some (k, bytes) →
  take pageSize (drop (j * pageSize) (concat ps.*2)) = bytes.
Proof.
  revert j. induction ps as [|[k' b] ps IH]; intros [|j] Hlen Hj; try done; cbn [fmap list_fmap snd concat].
  - injection Hj as <- <-. apply take_app_length'. symmetry. by apply (Hlen 0 k').
  - rewrite drop_app_ge by (rewrite (Hlen 0 k' b) by done; lia). rewrite (Hlen 0 k' b) by done.
    replace (S j * pageSize - pageSize) with (j * pageSize) by lia. apply IH; [|done]. intros j'. by apply (Hlen (S j')).
Qed.

Definition page_or_none (r : option (Z * list Z)) : Z * list Z :=
  match r with Some (_, bytes) => (Z.of_nat pageSize, bytes) | None => (SIZE_MAX, []) end.

Lemma loadPage_run f d m i j n path s :
  hs_of (usingDirect f) f !! i = Some (Open s) → s_reads s = true →
  metaData f = Some m → getPartition i m = Ret (MkPartition (Z.of_nat i) n path) → md_pageSize m = Z.of_nat pageSize →
  j < N → (Z.of_nat j < n)%Z → ∃ s',
  let got := take pageSize (drop (j * pageSize) (contents d (s_path s))) in
  loadPage i (Z.of_nat j) pageSize (f, d) =
    (Ret (Z.of_nat (length got), got), (set_hs (usingDirect f) (<[i := Open s']> (hs_of (usingDirect f) f)) f, d)) ∧
    s_path s' = s_path s ∧ s_reads s' = true ∧ s_append s' = s_append s.
Proof.
  intros Hs Hsr Hmd Hget Hps HjN Hjn. eexists. intros got.
  unfold loadPage, num_pages. run_file. rewrite (handle_at_run _ _ _ _ _ Hs). run_file. rewrite Hmd. run_file. rewrite Hget. run_file.
  cbn [pm_numPages]. rewrite (proj2 (Z.ltb_lt _ _)) by done. unfold seek_page. run_file. rewrite Hmd. run_file.
  rewrite Hps, u64_small by (unfold u64_modulus; nia).
  unfold fseek. rewrite (proj2 (Z.ltb_lt _ _)) by nia. run_file. unfold read_file. run_file. unfold fread. cbn [s_reads s_pos s_path s_append].
  rewrite Hsr. replace (Z.to_nat _) with (j * pageSize) by lia. fold got. run_file.
  rewrite (set_handle_run (usingDirect f) i f _ (Open s)) by done. run_file. split; [reflexivity|]. done.
Qed.

Lemma loadPage_ok f d pages i j :
  pages_ok pages → store_ok (f, d) pages → i < length pages →
  ∃ st', loadPage i (Z.of_nat j) pageSize (f, d) = (Ret (page_or_none (page_at pages i j)), st') ∧ store_ok st' pages.
Proof.
  intros Hok (m & l & Hso & Hl & Hw) Hi. pose proof Hso as [Hlock Hclear Hpaths Hmpath Hstream Hopen Hdata [Hmd Hm]]. cbn [fst snd] in *.
  destruct (partition_exists pages m i Hok Hm Hi) as (ps & path & Hps & Hpath & Hget).
  destruct (Hopen i path Hpath) as (s & Hs & Hsp & Hsr & Hsa).
  assert (page_at pages i j = ps !! j) as Hat by (unfold page_at; by rewrite Hps). rewrite Hat.
  destruct (ps !! j) as [[k bytes]|] eqn:Hj.
  - destruct (page_at_bounds _ _ _ _ Hok Hat) as [_ HjN]. destruct (po_page _ Hok _ _ _ _ Hat) as [_ Hlen].
    destruct (loadPage_run f d m i j _ path s Hs Hsr Hmd Hget (sm_pageSize _ _ Hm) HjN) as (s' & Hload & Hsp' & Hsr' & Hsa').
    { apply lookup_lt_Some in Hj. lia. }
    cbv zeta in Hload.
    rewrite Hsp, (Hdata i path ps Hpath Hps), (take_page ps j k bytes), Hlen in Hload
      by (done || (intros j' k' b' Hj'; eapply (po_page _ Hok i j'); unfold page_at; by rewrite Hps)).
    eexists. split; [exact Hload|]. exists m, l. split; [|done].
    destruct (set_hs_other (usingDirect f) (<[i := Open s']> (hs_of (usingDirect f) f)) f) as (O1 & O2 & O3 & O4 & O5 & O6 & O7 & O8).
    split; cbn [fst snd]; rewrite ?O1, ?O2, ?O3, ?O4, ?O6; try done.
    + destruct Hstream as (sm & Hsm & Hp2 & Ha2). exists sm. by rewrite O5, O4.
    + apply (data_open_insert f i path s'); (by rewrite ?Hsp', ?Hsa').
  - unfold loadPage, num_pages. run_file. rewrite (handle_at_run _ _ _ _ _ Hs). run_file. rewrite Hmd. run_file. rewrite Hget. run_file.
    cbn [pm_numPages]. rewrite (proj2 (Z.ltb_ge _ _)) by (apply lookup_ge_None in Hj; lia). run_file.
    eexists. split; [reflexivity|]. by exists m, l.
Qed.

Lemma loadPageId_ok f d pages i j :
  pages_ok pages → store_ok (f, d) pages →
  loadPageId i (Z.of_nat j) (f, d) = (Ret (from_option fst UINT32_MAX (page_at pages i j)), (f, d)).
Proof.
  intros Hok (m & l & Hso & _). destruct (so_meta _ _ _ Hso) as [Hmd Hm]. cbn [fst] in Hmd.
  unfold loadPageId. run_file. rewrite Hmd. run_file. unfold getPageId. do 2 f_equal.
  destruct (pageIds m !! MkPageIndex (Z.of_nat i) (Z.of_nat j)) as [k|] eqn:E.
  - apply (sm_inverse _ _ Hm), (sm_index _ _ Hm) in E as (i' & j' & b & Hp & Heq).
    injection Heq as ->%Nat2Z.inj ->%Nat2Z.inj. by rewrite Hp.
  - destruct (page_at pages i j) as [[k b]|] eqn:Hp; [|done]. exfalso.
    assert (pageIndexes m !! k = Some (MkPageIndex (Z.of_nat i) (Z.of_nat j))) as Hk by (apply (sm_index _ _ Hm); by exists i, j, b).
    apply (sm_inverse _ _ Hm) in Hk. congruence.
Qed.

Lemma latest_ok f d pages :
  store_ok (f, d) pages → getLastFlushedPageID (f, d) = (Ret (latest_id pages), (f, d)).
Proof.
  intros (m & l & Hso & _). destruct (so_meta _ _ _ Hso) as [Hmd Hm]. cbn [fst] in Hmd.
  unfold getLastFlushedPageID. run_file. rewrite Hmd. run_file.
  by rewrite (is_latest_unique _ _ _ (sm_latest _ _ Hm) (latest_id_is_latest pages)).
Qed.

(** The file object of a server that starts on a disk, as in [UserType.cc]. *)
Definition restart (openable : string → bool) (latest : Z) (key : SetKey) : M fstate unit :=
  '(f, d) ← get;
  put (PartitionedFile_init (pf_nodeId f) (pf_dbId f) (pf_typeId f) (pf_setId f) (metaPartitionPath f), d) ;;
  buildMetaDataFromMetaPartition openable true latest key ;;
  initializeDataFiles ;;
  openData openable ;;
  mret tt.

Lemma restart_ok openable latest key f d pages :
  pages_ok pages → store_ok (f, d) pages → Forall (λ q, openable q = true) (mpath :: paths) →
  ∃ st', restart openable latest key (f, d) = (Ret tt, st') ∧ store_ok st' pages.
Proof.
  intros Hok (m & l & Hso & Hl & Hw) Ho. pose proof Hso as [Hlock Hclear Hpaths Hmpath Hstream Hopen Hdata [Hmd Hm]]. cbn [fst snd] in *.
  apply Forall_cons in Ho as [Hmo Ho]. unfold restart. run_file.
  set (g := PartitionedFile_init _ _ _ _ _).
  destruct (buildMeta_ok openable latest key g d m paths l) as (s & Hb & Hsp & Hsa); [done|cbn; by rewrite Hmpath|cbn; by rewrite Hmpath|by apply (store_wf pages)|done|].
  rewrite Hb. clear Hb. run_file. cbn [g PartitionedFile_init dataPartitionPaths app]. unfold initializeDataFiles. run_file.
  unfold openData. run_file.
  set (g1 := set_dataFiles _ _). destruct (open_files_ok false openable paths [] g1 d) as (d' & Hr & Hc & Hn); [done|done|].
  cbn [length] in Hr. change (usingDirect g) with false. rewrite Hr. run_file. eexists. split; [reflexivity|]. exists m, l.
  assert (d' !! mpath = Some l) as Hl'.
  { rewrite Hn; [done|]. by apply NoDup_cons in paths_distinct as [? _]. }
  split; [|done]. split; cbn; try done.
  - exists s. cbn. done.
  - intros i path Hi. exists (Stream path 0 true true). cbn. rewrite list_lookup_fmap, Hi. done.
  - intros i path ps Hi Hp. rewrite Hc. by apply (Hdata i).
Qed.

(** *** A new file *)

Lemma new_pages_ok : pages_ok (replicate (length paths) []).
Proof.
  split; [apply length_replicate|rewrite concat_no_pages; cbn; lia|]. intros i j k bytes Hp. by rewrite page_at_empty in Hp.
Qed.

Lemma PartitionedFile_new_ok openable sp key nodeId dbId typeId setId d :
  Forall (λ q, openable q = true) (mpath :: paths) → plenty sp →
  u32_range_of (sk_dbId key) ∧ u32_range_of (sk_typeId key) ∧ u32_range_of (sk_setId key) →
  (∀ path, path ∈ paths → contents d path = []) →
  ∃ st', PartitionedFile_new openable sp key paths (Z.of_nat pageSize) (PartitionedFile_init nodeId dbId typeId setId mpath, d) = (Ret tt, st') ∧
    store_ok st' (replicate (length paths) []).
Proof.
  intros [Hmo Ho]%Forall_cons Hsp Hkey Hd. unfold PartitionedFile_new, PartitionedFile_init. run_file.
  unfold initializeDataFiles. run_file. cbn [app].
  rewrite (addPartitions_spec _ _ []) by done. cbn [app].
  set (m0 := setPartitions _ _).
  assert (store_meta (replicate (length paths) []) m0) as Hm0.
  { split; rewrite ?concat_no_pages; cbn; try done.
    - do 2 f_equal. unfold part_list, counts. apply list_eq. intros i.
      rewrite !list_lookup_imap, lookup_zip_with, list_lookup_fmap. destruct (paths !! i) as [path|] eqn:Hp; [|done]. cbn.
      rewrite lookup_replicate_2 by (by eapply lookup_lt_Some). done.
    - by left.
    - intros k idx. rewrite lookup_empty. split; [done|]. intros (i & j & b & Hp & _). by rewrite page_at_empty in Hp. }
  unfold openAll, openMeta. run_file. rewrite Hmo. run_file.
  assert (∃ s d1, match d !! mpath with None => fopen_w mpath d | Some _ => fopen_r mpath d end = (s, d1) ∧ s_path s = mpath ∧ s_append s = false ∧
    ∀ q, q ≠ mpath → d1 !! q = d !! q) as (s & d1 & -> & Hs & Ha & Hd1).
  { destruct (d !! mpath); eexists _, _; (split; [reflexivity|]); split_and!; try done. intros q Hq. by rewrite lookup_insert_ne. }
  run_file. unfold openData. run_file. 
  match goal with |- context [open_files true openable 0 paths (?g, d1)] => set (f1 := g) end.
  destruct (open_files_ok true openable paths [] f1 d1) as (d2 & Hr & Hc & Hn); [done|done|]. cbn [length] in Hr. rewrite Hr. run_file.
  destruct (writeMeta_store sp (set_hs true ([] ++ ((λ q, Open (Stream q 0 true true)) <$> paths)) f1) d2 (replicate (length paths) []) m0) as (st' & Hw & Hst);
    [done|apply new_pages_ok| |].
  - split; cbn; try done.
    + by exists s.
    + intros i path Hi. exists (Stream path 0 true true). cbn. by rewrite list_lookup_fmap, Hi.
    + intros i path ps Hi [-> _]%lookup_replicate. rewrite Hc. unfold contents. rewrite Hd1 by (by eapply mpath_not_data).
      by apply Hd, (list_elem_of_lookup_2 _ i).
  - rewrite Hw. run_file. by exists st'.
Qed.

(** ** Operations *)

Inductive file_op :=
| Flush (i : nat) (page : page_state)
| Load (i j : nat)
| LoadId (i j : nat)
| Latest
| Restart.

Inductive file_result :=
| RNumber (z : Z)
| RPage (read : Z) (bytes : list Z)
| RNone.

(** [PDBFlushConsumerWork] writes the metadata after every page it appends. *)
Definition exec_op (accepted : nat) (sp : meta_space) (openable : string → bool) (latest : Z) (key : SetKey) (op : file_op) : M fstate file_result :=
  match op with
  | Flush i page => ret ← appendPage accepted i (Some page); writeMeta sp ;; mret (RNumber ret)
  | Load i j => '(n, bytes) ← loadPage i (Z.of_nat j) pageSize; mret (RPage n bytes)
  | LoadId i j => k ← loadPageId i (Z.of_nat j); mret (RNumber k)
  | Latest => k ← getLastFlushedPageID; mret (RNumber k)
  | Restart => restart openable latest key ;; mret RNone
  end.

(** The store they stand for. *)
Definition spec_op (op : file_op) pages : file_result * store :=
  match op with
  | Flush i page => (RNumber (Z.of_nat (length (default [] (pages !! i)))), add_page i (pageID page.1, default [] (raw_bytes page)) pages)
  | Load i j => let r := page_or_none (page_at pages i j) in (RPage r.1 r.2, pages)
  | LoadId i j => (RNumber (from_option fst UINT32_MAX (page_at pages i j)), pages)
  | Latest => (RNumber (latest_id pages), pages)
  | Restart => (RNone, pages)
  end.

Fixpoint spec_ops (ops : list file_op) pages : list file_result :=
  match ops with
  | [] => []
  | op :: ops => (spec_op op pages).1 :: spec_ops ops (spec_op op pages).2
  end.

(** Calls for partitions that are there; pages of the right size with new ids,
    at most [N] of them. *)
Definition valid_op (op : file_op) pages : Prop :=
  match op with
  | Flush i page => i < length pages ∧ length (concat pages) < N ∧ fresh_id (pageID page.1) pages ∧ (0 ≤ pageID page.1 < UINT32_MAX)%Z ∧
      ∃ bytes, raw_bytes page = Some bytes ∧ length bytes = pageSize
  | Load i _ => i < length pages
  | _ => True
  end.

Fixpoint valid_ops (ops : list file_op) pages : Prop :=
  match ops with [] => True | op :: ops => valid_op op pages ∧ valid_ops ops (spec_op op pages).2 end.

Lemma add_page_ok pages i k bytes :
  pages_ok pages → i < length pages → length (concat pages) < N → (0 ≤ k < UINT32_MAX)%Z → length bytes = pageSize →
  pages_ok (add_page i (k, bytes) pages).
Proof.
  intros Hok Hi HN Hk Hb. destruct (lookup_lt_is_Some_2 pages i Hi) as [ps Hps]. split.
  - by rewrite length_add, (po_partitions _ Hok).
  - rewrite (concat_add pages i _ ps Hps). cbn. lia.
  - intros i' j k' bytes' [Hp|(_ & _ & [= -> ->])]%(page_at_add pages i (k, bytes) ps); [by eapply po_page|done|done].
Qed.

Lemma exec_op_ok accepted sp openable latest key op st pages :
  pageSize ≤ accepted → plenty sp → Forall (λ q, openable q = true) (mpath :: paths) →
  pages_ok pages → store_ok st pages → valid_op op pages →
  ∃ st', exec_op accepted sp openable latest key op st = (Ret (spec_op op pages).1, st') ∧
    store_ok st' (spec_op op pages).2 ∧ pages_ok (spec_op op pages).2.
Proof.
  intros Hacc Hsp Hopen Hok Hst Hv. destruct st as [f d], op as [i page|i j|i j| |]; cbn [exec_op spec_op fst snd].
  - destruct Hv as (Hi & HN & Hfresh & Hk & bytes & Hraw & Hlen). destruct Hst as (m & l & Hso & _).
    pose proof (add_page_ok pages i (pageID page.1) bytes Hok Hi HN Hk Hlen) as Hok'.
    destruct (appendPage_ok f d pages m i page (pageID page.1) bytes accepted) as ([f' d'] & m' & ps & Ha & Hps & Hso'); [done..|lia|done|done|].
    destruct (writeMeta_store sp f' d' _ m' Hsp Hok' Hso') as (st' & Hw & Hst').
    rewrite (M_bind_Ret _ _ _ _ _ Ha), (M_bind_Ret _ _ _ _ _ Hw), Hps, Hraw. by exists st'.
  - destruct (loadPage_ok f d pages i j Hok Hst Hv) as (st' & Hl & Hst'). rewrite (M_bind_Ret _ _ _ _ _ Hl). exists st'.
    by destruct (page_or_none _).
  - rewrite (M_bind_Ret _ _ _ _ _ (loadPageId_ok f d pages i j Hok Hst)). by eexists.
  - rewrite (M_bind_Ret _ _ _ _ _ (latest_ok f d pages Hst)). by eexists.
  - destruct (restart_ok openable latest key f d pages Hok Hst Hopen) as (st' & Hr & Hst'). rewrite (M_bind_Ret _ _ _ _ _ Hr). by exists st'.
Qed.

Lemma exec_ops_ok accepted sp openable latest key ops : ∀ st pages,
  pageSize ≤ accepted → plenty sp → Forall (λ q, openable q = true) (mpath :: paths) →
  pages_ok pages → store_ok st pages → valid_ops ops pages →
  ∃ st', mapM (exec_op accepted sp openable latest key) ops st = (Ret (spec_ops ops pages), st').
Proof.
  induction ops as [|op ops IH]; intros st pages Hacc Hsp Hopen Hok Hst Hv; cbn [mapM spec_ops].
  - by exists st.
  - destruct Hv as [Hv Hvs].
    destruct (exec_op_ok accepted sp openable latest key op st pages) as (st' & He & Hst' & Hok'); [done..|].
    destruct (IH st' _ Hacc Hsp Hopen Hok' Hst' Hvs) as (st'' & Hes). exists st''.
    by rewrite (M_bind_Ret _ _ _ _ _ He), (M_bind_Ret _ _ _ _ _ Hes).
Qed.
End file_store.

(** ** Properties *)

(** [C15] A new file over empty partitions is a store of pages: for any sequence of
    flushes, loads and requests, and however often the server starts again in
    between, every call has the result that the store gives.  A page is loaded
    with the bytes and the id it was flushed with, and the latest id is the
    largest one.  Assumed: no page is flushed under an id that the file has
    already (otherwise [appended_twice_phantom]), at most [N] pages of [pageSize]
    bytes are, partitions that are named exist, every write of a page or of the
    metadata is taken whole (otherwise [appendPage_short_write]), and the paths
    are different and can be opened. *)
Theorem file_ops_refine `{MapOrder} (mpath : string) (paths : list string) (pageSize N accepted : nat) (sp : meta_space)
    (openable : string → bool) (nodeId dbId typeId setId latest : Z) (key garbage : SetKey) (d : disk) (ops : list file_op) :
  NoDup (mpath :: paths) → Forall no_zero paths → (Z.of_nat (paths_total paths) < 4294967296)%Z →
  (Z.of_nat N < 2147483648)%Z → (Z.of_nat (S N) * Z.of_nat pageSize < 9223372036854775808)%Z →
  Forall (λ q, openable q = true) (mpath :: paths) → plenty paths N sp → pageSize ≤ accepted →
  u32_range_of (sk_dbId garbage) ∧ u32_range_of (sk_typeId garbage) ∧ u32_range_of (sk_setId garbage) →
  (∀ path, path ∈ paths → contents d path = []) →
  valid_ops pageSize N ops (replicate (length paths) []) →
  ∃ st st', PartitionedFile_new openable sp garbage paths (Z.of_nat pageSize) (PartitionedFile_init nodeId dbId typeId setId mpath, d) = (Ret tt, st) ∧
    mapM (exec_op pageSize accepted sp openable latest key) ops st = (Ret (spec_ops pageSize ops (replicate (length paths) [])), st').
Proof.
  intros Hnd Hz Hps HN HNp Hopen Hsp Hacc Hkey Hd Hv.
  destruct (PartitionedFile_new_ok mpath paths pageSize N Hnd Hz Hps HN HNp openable sp garbage nodeId dbId typeId setId d) as (st & Hnew & Hst); [done..|].
  destruct (exec_ops_ok mpath paths pageSize N Hnd Hz Hps HN HNp accepted sp openable latest key ops st (replicate (length paths) [])) as (st' & He);
    [done..|by apply new_pages_ok|done|done|]. by exists st, st'.
Qed.

(** ** A file with two partitions *)

Definition file_page (k : Z) (b : Z) : page_state := (PDBPage_new 4096 1 2 3 4 k 8 0 0 0 3 false 0, replicate 8 b).

Definition file_sp : meta_space := MetaSpace true 8 1000.

Definition file_ops : list file_op :=
  [Flush 0 (file_page 3 1); Flush 1 (file_page 7 2); Restart; Flush 0 (file_page 5 3); Restart;
   Load 0 1; LoadId 1 0; LoadId 1 1; Load 1 4; Latest].

Lemma fresh_id_ids k pages : k ∉ (concat pages).*1 → fresh_id k pages.
Proof.
  intros Hk i j bytes Hp. apply Hk. unfold page_at in Hp. destruct (pages !! i) as [ps|] eqn:Hi; [|done].
  apply list_elem_of_fmap. exists (k, bytes). split; [done|]. apply list_elem_of_In, in_concat. exists ps.
  split; apply list_elem_of_In; by eapply list_elem_of_lookup_2.
Qed.

Lemma file_ops_valid : valid_ops 8 10 file_ops (replicate 2 []).
Proof.
  cbn [file_ops valid_ops spec_op snd valid_op]. split_and!; try done; try (by vm_compute; lia);
    try (by eexists; split; [vm_compute; reflexivity|reflexivity]).
  all: try (apply fresh_id_ids; vm_compute; set_solver).
Qed.

Definition no_key : SetKey := MkSetKey 0 0 0.

Lemma file_ops_refine_witness : ∃ st st',
  PartitionedFile_new (λ _, true) file_sp no_key ["a"%string; "b"%string] 8 (PartitionedFile_init 1 2 3 4 "m", ∅) = (Ret tt, st) ∧
  mapM (exec_op 8 8 file_sp (λ _, true) 0 no_key) file_ops st =
    (Ret [RNumber 0; RNumber 0; RNone; RNumber 1; RNone; RPage 8 (replicate 8 3%Z); RNumber 7; RNumber 4294967295; RPage 18446744073709551615 [];
      RNumber 7], st').
Proof.
  apply (file_ops_refine "m" ["a"%string; "b"%string] 8 10 8 file_sp (λ _, true) 1 2 3 4 0 no_key no_key ∅ file_ops); try done.
  - apply (bool_decide_unpack _). by vm_compute.
  - repeat constructor; vm_compute; discriminate.
  - by repeat constructor.
  - split_and!; [done|vm_compute; lia..].
  - exact file_ops_valid.
Defined.
