(* ===== verification/FileErrors.v ===== *)
(** * FileErrors: where partitioned files lose their pages

    Theorems on [PartitionedFile] and [PartitionedFileMetaData.h] in states that
    [FileStore] leaves out: a write that the disk takes in part, pages shared
    with another set, a page that is flushed twice, and [updateMeta]. *)

From S2P Require Import Prelude.
From S2P Require Import PDBPage.
From S2P Require Import Files.
From S2P Require Import FileMetaData.
From S2P Require Import PartitionedFile.
From S2P Require Import FileMetaRoundtrip.
From S2P Require Import FileStore.

Implicit Types (f : PartitionedFile) (d : disk) (m : PartitionedFileMetaData).

(** ** The buffer of [writeMeta] *)

Section buffer.
Context `{MapOrder}.

(** The shared pages in the order in which they are written. *)
Definition shared_entries m : list (Z * PageIndex) := map_order (default ∅ (sharedPageMaps m)) ≫= λ t, page_order t.2.

Lemma Ret_inj {A} (a b : A) : Ret a = Ret b → a = b.
Proof. by intros [=]. Qed.

Lemma length_partitions_bytes m paths : ∀ i bytes,
  partitions_bytes i paths m = Ret bytes → length bytes = paths_total paths.
Proof.
  induction paths as [|path paths IH]; intros i bytes; cbn [partitions_bytes].
  - by intros [= <-].
  - destruct (getPartition i m) as [p| | |]; try done. cbn [mbind outcome_bind].
    destruct (partitions_bytes (S i) paths m) as [more| | |] eqn:E; try done. cbn [mbind outcome_bind]. intros <-%Ret_inj.
    rewrite length_app, length_partition_bytes, (IH _ _ E). unfold paths_total. by rewrite fmap_cons, sum_list_first.
Qed.

(** Every shared page takes four bytes more than are counted for it. *)
Lemma meta_bytes_overrun paths m bytes :
  meta_bytes paths m = Ret bytes → numFlushedPages m = Z.of_nat (size (pageIndexes m)) →
  u32 (numSharedPages m) = Z.of_nat (length (shared_entries m)) →
  length bytes = meta_size paths m + 4 * length (shared_entries m).
Proof.
  unfold meta_bytes. destruct (partitions_bytes 0 paths m) as [ps| | |] eqn:E; try done. cbn [mbind outcome_bind].
  intros <-%Ret_inj Hn Hs. fold (shared_entries m).
  rewrite !length_app, !length_le_bytes, !length_entries, (length_partitions_bytes _ _ _ _ E), page_order_length.
  unfold meta_size. fold (paths_total paths). rewrite Hn, Hs, !Nat2Z.id. lia.
Qed.

Lemma writeMeta_overruns sp f d m bytes :
  fileMutex f = false → cleared f = false → meta_stream f → metaData f = Some m → ms_calloc sp = true → 8 ≤ ms_size sp →
  meta_bytes (dataPartitionPaths f) m = Ret bytes → meta_size (dataPartitionPaths f) m < length bytes →
  (writeMeta sp (f, d)).1 = Undefined.
Proof.
  intros Hlock Hclear (s & Hs & _ & Happ) Hm Hc H8 Hb Hlen.
  unfold writeMeta. run_file. rewrite Hlock. run_file. rewrite Hs, Hclear. run_file. rewrite Hm. run_file.
  erewrite seek_metaFile_ok by (done || exact Hs). run_file.
  erewrite write_metaFile_ok by (done || rewrite length_le_bytes; lia). run_file. rewrite Hc, Hb. run_file.
  unfold fill_buffer. by rewrite decide_False by lia.
Qed.

(** *** Counting shared pages twice *)

Lemma add_shared_count l : ∀ m, numSharedPages (add_shared_entries l m) = (numSharedPages m + Z.of_nat (length l))%Z.
Proof. unfold add_shared_entries. induction l as [|e l IH]; intros m; cbn [foldl length]; [lia|]. rewrite IH. cbn. lia. Qed.

(** The metadata after a page is shared for the first time. *)
Lemma shared_entries_first k p q m :
  sharedPageMaps m = None → shared_entries (addSharedPageIndex k p q m) = [(k, MkPageIndex p q)].
Proof.
  intros Hs. unfold shared_entries.
  assert (sharedPageMaps (addSharedPageIndex k p q m) = Some {[p := {[k := MkPageIndex p q]}]}) as ->.
  { unfold addSharedPageIndex. cbn [sharedPageMaps setNumSharedPages set_shared]. rewrite Hs. cbn [default]. by rewrite lookup_empty. }
  cbn [default id].
  assert (map_order {[p := {[k := MkPageIndex p q]}]} = [(p, {[k := MkPageIndex p q]})]) as ->.
  { apply Permutation_singleton_r. rewrite <- map_to_list_singleton. apply map_order_ok. }
  cbn [mbind list_bind snd app]. rewrite app_nil_r. apply Permutation_singleton_r. rewrite <- map_to_list_singleton. apply page_order_ok.
Qed.
End buffer.

(** The partition of a page that was recorded has one page more. *)
Lemma getPartition_recorded i k n m p : getPartition i m = Ret p → getPartition i (recorded k i n m) = Ret (incNumPages p).
Proof.
  intros Hp. unfold getPartition in *.
  assert (partitions (recorded k i n m) = alter incNumPages i <$> partitions m) as ->.
  { unfold recorded. case_bool_decide; done. }
  destruct (partitions m) as [ps|]; [|done]. cbn [fmap option_fmap option_map].
  destruct (ps !! i) as [q|] eqn:E; [|done]. injection Hp as ->. by rewrite list_lookup_alter_eq, E.
Qed.

Lemma recorded_pageSize i k n m : md_pageSize (recorded k i n m) = md_pageSize m.
Proof. unfold recorded. by case_bool_decide. Qed.

(** ** Properties *)

(** A set that shares one page with another set cannot write its metadata any
    more: the buffer is four bytes too small for what is written to it. *)
Theorem addSharedPage_overruns `{MapOrder} (mpath : string) (paths : list string) (pageSize N : nat) (sp : meta_space)
    (f : PartitionedFile) (d : disk) (pages : list (list (Z * list Z))) (m : PartitionedFileMetaData) (k p q : Z) :
  store_open mpath paths pageSize (f, d) pages m → length pages = length paths → ms_calloc sp = true → 8 ≤ ms_size sp →
  ∃ st', addSharedPage k p q (f, d) = (Ret tt, st') ∧ (writeMeta sp st').1 = Undefined.
Proof.
  intros [Hlock Hclear Hpaths Hmpath Hstream Hopen Hdata [Hmd Hm]] Hlen Hc H8. cbn [fst snd] in *.
  unfold addSharedPage. rewrite on_metadata_run, Hmd. eexists. split; [reflexivity|]. set (m' := addSharedPageIndex k p q m).
  destruct (sm_unshared _ _ _ _ Hm) as (Hn & _ & Hs).
  assert (partitions m' = some_list (part_list paths (counts pages))) as Hps by apply Hm.
  destruct (meta_bytes paths m') as [bytes| | |] eqn:Hb;
    try by (unfold meta_bytes in Hb; rewrite (partitions_bytes_wf paths m' (counts pages) Hps) in Hb by (unfold counts; by rewrite length_fmap)).
  apply (writeMeta_overruns _ _ _ m' bytes); cbn [set_metaData fileMutex cleared metaData dataPartitionPaths]; rewrite ?Hpaths; try done.
  rewrite (meta_bytes_overrun paths m' bytes Hb).
  - unfold m'. rewrite (shared_entries_first k p q m Hs). cbn. lia.
  - unfold m'. cbn. by rewrite (sm_flushed _ _ _ _ Hm), (sm_size _ _ _ _ Hm).
  - unfold m'. rewrite (shared_entries_first k p q m Hs). cbn. by rewrite Hn.
Qed.

(** [C40] When the disk takes only the first [a] bytes of a page, [appendPage] says
    that it failed, but the bytes stay in the file.  The next page that is
    appended is not where its number says: loading it gives those [a] bytes and
    the page without its last [a]. *)
Theorem appendPage_short_write `{MapOrder} (mpath : string) (paths : list string) (pageSize N : nat)
    (f : PartitionedFile) (d : disk) (pages : list (list (Z * list Z))) (m : PartitionedFileMetaData)
    (i a accepted : nat) (page1 page2 : page_state) (bytes1 bytes2 : list Z) :
  (Z.of_nat N < 2147483648)%Z → (Z.of_nat (S N) * Z.of_nat pageSize < 9223372036854775808)%Z →
  pages_ok paths pageSize N pages → store_open mpath paths pageSize (f, d) pages m → i < length pages → length (concat pages) < N →
  raw_bytes page1 = Some bytes1 → a < length bytes1 → a ≤ pageSize →
  raw_bytes page2 = Some bytes2 → length bytes2 = pageSize → pageSize ≤ accepted →
  ∃ ps st1 st2 st3, pages !! i = Some ps ∧
    appendPage a i (Some page1) (f, d) = (Ret (-1)%Z, st1) ∧
    appendPage accepted i (Some page2) st1 = (Ret (Z.of_nat (length ps)), st2) ∧
    loadPage i (Z.of_nat (length ps)) pageSize st2 = (Ret (Z.of_nat pageSize, take a bytes1 ++ take (pageSize - a) bytes2), st3).
Proof.
  intros HN HNp Hok [Hlock Hclear Hpaths Hmpath Hstream Hopen Hdata [Hmd Hm]] Hi Hsmall H1 Ha Hap H2 Hlen Hacc. cbn [fst snd] in *.
  destruct (partition_exists paths pageSize N pages m i Hok Hm Hi) as (ps & path & Hps & Hpath & Hget).
  destruct (Hopen i path Hpath) as (s & Hs & Hsp & Hsr & Hsa). pose proof (partition_small _ _ _ Hps) as HpsN.
  assert (length (concat ps.*2) = length ps * pageSize) as Hbase.
  { assert (∀ j k b, ps !! j = Some (k, b) → length b = pageSize) as Hall.
    { intros j k b Hj. eapply (po_page _ _ _ _ Hok i j). unfold page_at. by rewrite Hps. }
    clear -Hall. induction ps as [|[k b] ps IH]; [done|]. cbn [fmap list_fmap concat length snd]. rewrite length_app.
    rewrite (Hall 0 k b), IH by (done || (intros j; by apply (Hall (S j)))). lia. }
  pose proof (appendPage_run f d m i page1 (length ps) path bytes1 s a Hlock Hclear Hs Hsa Hmd Hget ltac:(lia) H1) as Hrun1.
  cbv zeta in Hrun1. rewrite (proj2 (Nat.eqb_neq _ _)) in Hrun1 by (rewrite length_take; lia).
  set (s1 := Stream _ _ _ _) in Hrun1. set (f1 := set_hs _ _ f) in Hrun1. set (d1 := <[_ := _]> d) in Hrun1.
  destruct (set_hs_other (usingDirect f) (<[i := Open s1]> (hs_of (usingDirect f) f)) f) as (O1 & O2 & O3 & O4 & O5 & O6 & O7 & O8). fold f1 in O1, O2, O3, O4, O5, O6, O7, O8.
  assert (hs_of (usingDirect f1) f1 !! i = Some (Open s1)) as Hs1.
  { rewrite O7, O8. apply list_lookup_insert_eq. by eapply lookup_lt_Some. }
  pose proof (appendPage_run f1 d1 m i page2 (length ps) path bytes2 s1 accepted ltac:(by rewrite O1) ltac:(by rewrite O2) Hs1 eq_refl
    ltac:(by rewrite O6) Hget ltac:(lia) H2) as Hrun2.
  cbv zeta in Hrun2. rewrite (take_ge bytes2), Nat.eqb_refl in Hrun2 by lia.
  set (s2 := Stream _ _ _ _) in Hrun2. set (f2 := set_hs _ _ f1) in Hrun2. set (d2 := <[_ := _]> d1) in Hrun2. set (m2 := recorded _ _ _ m) in Hrun2.
  destruct (set_hs_other (usingDirect f1) (<[i := Open s2]> (hs_of (usingDirect f1) f1)) f1) as (_ & _ & _ & _ & _ & _ & P7 & P8). fold f2 in P7, P8.
  pose proof (getPartition_recorded i (pageID page2.1) (length ps) m _ Hget) as Hget2. fold m2 in Hget2.
  assert (pm_numPages (incNumPages (MkPartition (Z.of_nat i) (Z.of_nat (length ps)) path)) = Z.of_nat (S (length ps))) as Hnum.
  { cbn. rewrite u32_small by (unfold u32_modulus; lia). lia. }
  destruct (loadPage_run paths pageSize N HN HNp (set_metaData (Some m2) f2) d2 m2 i (length ps) (Z.of_nat (S (length ps))) path s2) as (s3 & Hload & _).
  { change (usingDirect (set_metaData (Some m2) f2)) with (usingDirect f2). rewrite P7.
    replace (hs_of _ _) with (hs_of (usingDirect f1) f2) by (by destruct (usingDirect f1)). rewrite P8.
    apply list_lookup_insert_eq. by eapply lookup_lt_Some. }
  { done. } { done. } { rewrite Hget2, <- Hnum. done. } { unfold m2. by rewrite recorded_pageSize, (sm_pageSize _ _ _ _ Hm). } { lia. } { lia. }
  cbv zeta in Hload.
  assert (contents d2 (s_path s2) = concat ps.*2 ++ take a bytes1 ++ bytes2) as Hc.
  { change (s_path s2) with (s_path s). unfold d2. change (s_path s1) with (s_path s). rewrite contents_insert. unfold d1. rewrite contents_insert, Hsp.
    by rewrite (Hdata i path ps Hpath Hps), <- app_assoc. }
  rewrite Hc, <- Hbase, drop_app_length, take_app, length_take, Nat.min_l, take_ge in Hload by (rewrite ?length_take; lia).
  exists ps, (f1, d1), (set_metaData (Some m2) f2, d2). eexists. split_and!; [done|exact Hrun1|exact Hrun2|].
  rewrite Hload. do 3 f_equal. rewrite length_app, !length_take. lia.
Qed.

(** A new file with one partition. *)
Lemma new_file_open : ∃ st m, PartitionedFile_new (λ _, true) file_sp no_key ["a"%string] 8 (PartitionedFile_init 1 2 3 4 "m", ∅) = (Ret tt, st) ∧
  store_open "m" ["a"%string] 8 st [[]] m.
Proof.
  destruct (PartitionedFile_new_ok "m" ["a"%string] 8 10) with (openable := λ _ : string, true) (sp := file_sp) (key := no_key)
    (nodeId := 1%Z) (dbId := 2%Z) (typeId := 3%Z) (setId := 4%Z) (d := ∅ : disk) as (st & Hnew & m & l & Hso & _); try done.
  - apply (bool_decide_unpack _). by vm_compute.
  - repeat constructor; vm_compute; discriminate.
  - by repeat constructor.
  - split_and!; [done|vm_compute; lia..].
  - by exists st, m.
Qed.

Lemma addSharedPage_overruns_witness : ∃ st st',
  PartitionedFile_new (λ _, true) file_sp no_key ["a"%string] 8 (PartitionedFile_init 1 2 3 4 "m", ∅) = (Ret tt, st) ∧
  addSharedPage 7 0 1 st = (Ret tt, st') ∧ (writeMeta file_sp st').1 = Undefined.
Proof.
  destruct new_file_open as ([f d] & m & Hnew & Hso).
  destruct (addSharedPage_overruns "m" ["a"%string] 8 10 file_sp f d [[]] m 7 0 1 Hso) as (st' & Ha & Hw); [done|done|vm_compute; lia|].
  by exists (f, d), st'.
Defined.

Lemma appendPage_short_write_witness : ∃ st st1 st2 st3,
  PartitionedFile_new (λ _, true) file_sp no_key ["a"%string] 8 (PartitionedFile_init 1 2 3 4 "m", ∅) = (Ret tt, st) ∧
  appendPage 3 0 (Some (file_page 1 5)) st = (Ret (-1)%Z, st1) ∧ appendPage 8 0 (Some (file_page 2 6)) st1 = (Ret 0%Z, st2) ∧
  loadPage 0 0 8 st2 = (Ret (8%Z, [5; 5; 5; 6; 6; 6; 6; 6]%Z), st3).
Proof.
  destruct new_file_open as ([f d] & m & Hnew & Hso).
  destruct (appendPage_short_write "m" ["a"%string] 8 10 f d [[]] m 0 3 8 (file_page 1 5) (file_page 2 6) (replicate 8 5%Z) (replicate 8 6%Z))
    as (ps & st1 & st2 & st3 & Hps & H1 & H2 & H3); try done; try (cbn; lia).
  - split; [done|cbn; lia|]. intros [|i] j k bytes Hp; [by destruct j|by destruct i].
  - injection Hps as <-. by exists (f, d), st1, st2, st3.
Defined.

(** A page that is appended twice is counted twice but indexed once: what
    [writeMeta] writes is an entry short, and the server that starts on it takes
    the ids of the shared set for a page. *)
Theorem appended_twice_phantom :
  fst ((PartitionedFile_new (λ _, true) file_sp (MkSetKey 21 22 23) ["a"%string] 8 ;;
   r1 ← exec_op 8 8 file_sp (λ _, true) 0 no_key (Flush 0 (file_page 3 1));
   r2 ← exec_op 8 8 file_sp (λ _, true) 0 no_key (Flush 0 (file_page 3 2));
   restart (λ _, true) 0 no_key ;;
   m ← metadata;
   mret (r1, r2, getPageIndex 3 m, getPageIndex 21 m, sharedSetKey m)) (PartitionedFile_init 1 2 3 4 "m", ∅)) =
  Ret (RNumber 0, RNumber 1, MkPageIndex 0 0, MkPageIndex 22 23, MkSetKey 0 0 0).
Proof. vm_compute. reflexivity. Qed.

(** [updateMeta] writes the number of pages of a partition where its id is. *)
Theorem updateMeta_overwrites_id :
  fst ((PartitionedFile_new (λ _, true) file_sp no_key ["a"%string] 8 ;;
   exec_op 8 8 file_sp (λ _, true) 0 no_key (Flush 0 (file_page 3 1)) ;;
   r ← updateMeta 4 (λ _, 4);
   restart (λ _, true) 0 no_key ;;
   m ← metadata;
   mret (r, partitions m)) (PartitionedFile_init 1 2 3 4 "m", ∅)) = Ret (0%Z, Some [MkPartition 1 1 "a"]).
Proof. vm_compute. reflexivity. Qed.

(** Taking a shared page away is undefined unless its partition is number 0. *)
Theorem removeSharedPage_undefined (f : PartitionedFile) (d : disk) (m : PartitionedFileMetaData) (k p q : Z) :
  metaData f = Some m → sharedPageIndexes m ≠ None → sharedPageMaps m ≠ None → p ≠ 0%Z → (removeSharedPage k p q (f, d)).1 = Undefined.
Proof.
  intros Hm Hi Hs Hp. unfold removeSharedPage. run_file. rewrite Hm. run_file. unfold removeSharedPageIndex.
  destruct (sharedPageIndexes m) as [l|]; [|done]. destruct (sharedPageMaps m) as [maps|]; [|done].
  rewrite (proj2 (Z.eqb_neq _ _)) by done.
  assert (∃ o, remove_indexes (MkPageIndex p q) l = o ∧ (o = Undefined ∨ ∃ l', o = Ret l')) as (o & -> & [-> |[l' ->]]); [|by run_file..].
  clear. eexists. split; [reflexivity|]. remember (length l) as n eqn:Hn. revert l Hn. induction n as [n IH] using lt_wf_ind. intros [|x l] ->; [by right; eexists|].
  cbn [remove_indexes]. case_decide.
  - destruct l as [|y l]; [by left|]. destruct (IH (length l) ltac:(cbn; lia) l eq_refl) as [-> |[l' ->]]; [by left|right; by eexists].
  - destruct (IH (length l) ltac:(cbn; lia) l eq_refl) as [-> |[l' ->]]; [by left|right; by eexists].
Qed.

Lemma removeSharedPage_undefined_witness : ∃ st1 st2,
  PartitionedFile_new (λ _, true) file_sp no_key ["a"%string; "b"%string] 8 (PartitionedFile_init 1 2 3 4 "m", ∅) = (Ret tt, st1) ∧
  addSharedPage 7 1 0 st1 = (Ret tt, st2) ∧ (removeSharedPage 7 1 0 st2).1 = Undefined.
Proof.
  eexists _, _. split; [vm_compute; reflexivity|]. split; [vm_compute; reflexivity|].
  eapply removeSharedPage_undefined; [reflexivity|done..].
Defined.
