(* ===== verification/LocalitySet.v ===== *)
(** * LocalitySet: replacement within one set of cached pages

    Models [storage/source/LocalitySet.cc] and [storage/headers/LocalitySet.h].
    A locality set lists its cached pages from the least to the most recently
    used.  Pages are shared objects: the list holds their identities, and
    [pages] maps an identity to the page object. *)

From S2P Require Import Prelude PDBPage.

Inductive LocalityType := JobData | ShuffleData | HashPartitionData | PartialAggregationData.
Inductive ReplacementPolicy := LRU | MRU | RandomPolicy.
Inductive OperationType := Read | RepeatedRead | Write.
Inductive DurabilityType := TryCache | CacheThrough.
Inductive PersistenceType := Transient | Persistent.

#[export] Instance LocalityType_eq_dec : EqDecision LocalityType.
Proof. solve_decision. Defined.
#[export] Instance ReplacementPolicy_eq_dec : EqDecision ReplacementPolicy.
Proof. solve_decision. Defined.
#[export] Instance OperationType_eq_dec : EqDecision OperationType.
Proof. solve_decision. Defined.
#[export] Instance PersistenceType_eq_dec : EqDecision PersistenceType.
Proof. solve_decision. Defined.

Record LocalitySet := MkLocalitySet {
  cachedPages : list Z;
  localityType : LocalityType;
  replacementPolicy : ReplacementPolicy;
  operationType : OperationType;
  durabilityType : DurabilityType;
  persistenceType : PersistenceType;
  lifetimeEnded : bool;
  desiredSize : Z;
  numCachedPages : Z;
  isShared : bool
}.

Implicit Types (ls : LocalitySet) (pages : gmap Z PDBPage).

Definition set_cachedPages ls l : LocalitySet :=
  MkLocalitySet l (localityType ls) (replacementPolicy ls) (operationType ls) (durabilityType ls)
    (persistenceType ls) (lifetimeEnded ls) (desiredSize ls) (numCachedPages ls) (isShared ls).
Definition setNumCachedPages ls n : LocalitySet :=
  MkLocalitySet (cachedPages ls) (localityType ls) (replacementPolicy ls) (operationType ls) (durabilityType ls)
    (persistenceType ls) (lifetimeEnded ls) (desiredSize ls) n (isShared ls).

(** The constructor. *)
Definition LocalitySet_new (lt : LocalityType) (rp : ReplacementPolicy) (ot : OperationType)
    (dt : DurabilityType) (pt : PersistenceType) (desired : Z) (shared : bool) : LocalitySet :=
  MkLocalitySet [] lt rp ot dt pt false desired 0 shared.

(** Erasing the first occurrence of a page. *)
Fixpoint erase_page (page : Z) (l : list Z) : list Z :=
  match l with
  | [] => []
  | q :: l' => if decide (q = page) then l' else q :: erase_page page l'
  end.

Definition addCachedPage ls (page : Z) : LocalitySet := set_cachedPages ls (cachedPages ls ++ [page]).

Definition updateCachedPage ls (page : Z) : LocalitySet :=
  set_cachedPages ls (erase_page page (cachedPages ls) ++ [page]).

Definition removeCachedPage ls (page : Z) : LocalitySet :=
  set_cachedPages ls (erase_page page (cachedPages ls)).

(** [( *it)->getRefCount() == 0] *)
Definition unreferenced pages (page : Z) : bool :=
  match pages !! page with Some p => (refCount p =? 0)%Z | None => false end.

(** The order in which the policy looks at the pages. *)
Definition scan_order ls : list Z :=
  match replacementPolicy ls with MRU => reverse (cachedPages ls) | _ => cachedPages ls end.

(** [selectPageForReplacement] *)
Definition selectPageForReplacement pages ls : option Z :=
  snd <$> list_find (λ page, unreferenced pages page = true) (scan_order ls).

(** [EVICT_STOP_THRESHOLD] of the default build.  For counts that fit an
    [int], [(double)n / (double)t >= 1 - 0.90] holds exactly when
    [10 * n >= t]: the two sides differ by far more than the rounding of the
    division. *)
Definition EVICT_PARTS : nat := 10.

(** The loop of [selectPagesForReplacement] over [l], with [n] pages
    selected. *)
Fixpoint select_pages pages (stop : nat → bool) (n : nat) (l : list Z) : list Z :=
  match l with
  | [] => []
  | page :: l' =>
      if unreferenced pages page then
        page :: (if stop (S n) then [] else select_pages pages stop (S n) l')
      else select_pages pages stop n l'
  end.

(** Whether the loop stops after [n] pages: at once under MRU and for sets
    being written, else when a tenth of the set is selected. *)
Definition select_stop ls (n : nat) : bool :=
  match replacementPolicy ls with
  | MRU => match operationType ls with Write => true | _ => (n =? 1)%nat end
  | _ => match operationType ls with
         | Write => true
         | _ => (length (cachedPages ls) <=? n * EVICT_PARTS)%nat
         end
  end.

(** [selectPagesForReplacement]; null when there is nothing to replace. *)
Definition selectPagesForReplacement pages ls : option (list Z) :=
  match cachedPages ls with
  | [] => None
  | _ =>
      match select_pages pages (select_stop ls) 0 (scan_order ls) with
      | [] => None
      | l => Some l
      end
  end.

Definition ls_pin ls (policy : ReplacementPolicy) (op : OperationType) : LocalitySet :=
  MkLocalitySet (cachedPages ls) (localityType ls) policy op (durabilityType ls)
    (persistenceType ls) false (desiredSize ls) (numCachedPages ls) (isShared ls).

Definition ls_unpin ls : LocalitySet :=
  MkLocalitySet (cachedPages ls) (localityType ls) (replacementPolicy ls) (operationType ls) (durabilityType ls)
    (persistenceType ls) true (desiredSize ls) (numCachedPages ls) (isShared ls).

(** ** Facts *)

Lemma erase_page_Permutation page l : page ∈ l → page :: erase_page page l ≡ₚ l.
Proof.
  induction l as [|q l IH]; [by intros ?%elem_of_nil|]. simpl. intros Hp.
  destruct (decide (q = page)) as [->|Hne]; [done|].
  apply elem_of_cons in Hp as [->|Hp]; [done|]. rewrite Permutation_swap. by rewrite IH.
Qed.

Lemma erase_page_absent page l : page ∉ l → erase_page page l = l.
Proof.
  induction l as [|q l IH]; [done|]. simpl. rewrite not_elem_of_cons. intros [Hne Hp].
  rewrite decide_False by done. by rewrite IH.
Qed.

Lemma elem_of_scan_order ls page : page ∈ scan_order ls ↔ page ∈ cachedPages ls.
Proof. unfold scan_order. destruct (replacementPolicy ls); by rewrite ?elem_of_reverse. Qed.

Lemma select_pages_elem pages stop n l page :
  page ∈ select_pages pages stop n l → page ∈ l ∧ unreferenced pages page = true.
Proof.
  revert n. induction l as [|q l IH]; intros n; simpl; [by intros ?%elem_of_nil|].
  destruct (unreferenced pages q) eqn:Hq.
  - intros [->|Hp]%elem_of_cons; [split; [constructor|done]|].
    destruct (stop (S n)); [by apply elem_of_nil in Hp|]. destruct (IH _ Hp). split; [by constructor|done].
  - intros Hp. destruct (IH _ Hp). split; [by constructor|done].
Qed.

Lemma select_pages_sublist pages stop n l : select_pages pages stop n l `sublist_of` l.
Proof.
  revert n. induction l as [|q l IH]; intros n; simpl; [done|]. destruct (unreferenced pages q).
  - constructor. destruct (stop (S n)); [apply sublist_nil_l|apply IH].
  - by constructor.
Qed.

Lemma select_pages_nil pages stop n l :
  select_pages pages stop n l = [] → ∀ page, page ∈ l → unreferenced pages page = false.
Proof.
  revert n. induction l as [|q l IH]; intros n; simpl; [by intros _ page ?%elem_of_nil|].
  destruct (unreferenced pages q) eqn:Hq; [done|]. intros Hl page [->|Hp]%elem_of_cons; [done|by eapply IH].
Qed.

(** The selection stops as soon as [stop] allows. *)
Lemma select_pages_stop pages stop n l :
  ∀ k, k < length (select_pages pages stop n l) → S k = length (select_pages pages stop n l) ∨ stop (n + S k) = false.
Proof.
  revert n. induction l as [|q l IH]; intros n k; simpl; [lia|].
  destruct (unreferenced pages q); [|apply IH]. simpl. destruct (stop (S n)) eqn:Hs; simpl; [lia|].
  intros Hk. destruct k as [|k].
  - right. by replace (n + 1) with (S n) by lia.
  - destruct (IH (S n) k ltac:(lia)) as [?|H]; [left; lia|right]. by replace (n + S (S k)) with (S n + S k) by lia.
Qed.

(** ** Properties *)

(** The page chosen for replacement is a page of the set that nobody
    references, the least recently used such page under LRU and the most
    recently used under MRU: every page the policy looks at before it is
    referenced; no page is chosen only if all pages are referenced. *)
Theorem selectPageForReplacement_spec (pages : gmap Z PDBPage) (ls : LocalitySet) :
  match selectPageForReplacement pages ls with
  | Some page =>
      page ∈ cachedPages ls ∧ unreferenced pages page = true ∧
      ∃ l1 l2, cachedPages ls = l1 ++ page :: l2 ∧
        ∀ q, q ∈ (if decide (replacementPolicy ls = MRU) then l2 else l1) → unreferenced pages q = false
  | None => ∀ page, page ∈ cachedPages ls → unreferenced pages page = false
  end.
Proof.
  unfold selectPageForReplacement.
  destruct (list_find _ (scan_order ls)) as [[i page]|] eqn:Hf; simpl.
  - apply list_find_Some in Hf as (Hi & Hu & Hbefore).
    assert (page ∈ scan_order ls) as Hin by by eapply list_elem_of_lookup_2.
    split; [by apply elem_of_scan_order|]. split; [done|].
    assert (∀ q, q ∈ take i (scan_order ls) → unreferenced pages q = false) as Hb.
    { intros q [j Hj]%list_elem_of_lookup. apply lookup_take_Some in Hj as [Hj Hji].
      apply not_true_is_false. by eapply Hbefore. }
    pose proof (take_drop_middle (scan_order ls) i page Hi) as Hsplit.
    unfold scan_order in *. destruct (replacementPolicy ls) eqn:Hp; simpl.
    + by eexists _, _.
    + exists (reverse (drop (S i) (reverse (cachedPages ls)))), (reverse (take i (reverse (cachedPages ls)))).
      split.
      * rewrite <- (reverse_involutive (cachedPages ls)) at 1. rewrite <- Hsplit at 1.
        rewrite reverse_app, reverse_cons, <- app_assoc. done.
      * intros q Hq. apply Hb. by rewrite elem_of_reverse in Hq.
    + by eexists _, _.
  - apply list_find_None in Hf. intros page Hp%elem_of_scan_order. rewrite Forall_forall in Hf.
    by apply not_true_is_false, Hf.
Qed.

(** The pages chosen together are distinct unreferenced pages of the set,
    in the order of the policy; only one is chosen under MRU and while the set
    is written, else the choice ends when a tenth of the set is chosen; none
    is chosen only if all pages are referenced. *)
Theorem selectPagesForReplacement_spec (pages : gmap Z PDBPage) (ls : LocalitySet) :
  match selectPagesForReplacement pages ls with
  | Some l =>
      l ≠ [] ∧ l `sublist_of` scan_order ls ∧ (∀ page, page ∈ l → unreferenced pages page = true) ∧
      (replacementPolicy ls = MRU ∨ operationType ls = Write → length l = 1) ∧
      (∀ k, 0 < k < length l → k * EVICT_PARTS < length (cachedPages ls))
  | None => ∀ page, page ∈ cachedPages ls → unreferenced pages page = false
  end.
Proof.
  unfold selectPagesForReplacement. destruct (cachedPages ls) as [|q0 rest] eqn:Hc.
  { intros page Hp. by apply elem_of_nil in Hp. }
  destruct (select_pages pages (select_stop ls) 0 (scan_order ls)) as [|p l] eqn:Hs.
  { intros page Hp. apply (select_pages_nil _ _ _ _ Hs). by rewrite elem_of_scan_order, Hc. }
  pose proof (select_pages_stop pages (select_stop ls) 0 (scan_order ls)) as Hstop. rewrite Hs in Hstop.
  assert (replacementPolicy ls = MRU ∨ operationType ls = Write → length (p :: l) = 1) as Hone.
  { intros Hone. destruct (Hstop 0) as [?|Hf]; [simpl; lia|done|]. exfalso. simpl in Hf.
    unfold select_stop in Hf. destruct (replacementPolicy ls), (operationType ls); naive_solver. }
  split_and!; [done| | |exact Hone|].
  - rewrite <- Hs. apply select_pages_sublist.
  - intros page Hp. rewrite <- Hs in Hp. exact (proj2 (select_pages_elem _ _ _ _ _ Hp)).
  - intros k Hk. destruct k as [|k]; [lia|]. destruct (Hstop k) as [?|Hf]; [lia|lia|]. simpl in Hf.
    unfold select_stop in Hf. rewrite Hc in Hf.
    destruct (decide (replacementPolicy ls = MRU)) as [Hr|Hr]; [specialize (Hone (or_introl Hr)); lia|].
    destruct (decide (operationType ls = Write)) as [Ho|Ho]; [specialize (Hone (or_intror Ho)); lia|].
    destruct (replacementPolicy ls), (operationType ls); try done;
      apply Nat.leb_gt in Hf; unfold EVICT_PARTS in *; simpl in *; lia.
Qed.
