(* ===== verification/PageCache.v ===== *)
(** * PageCache: the shared-memory page cache of the storage server

    Models [storage/source/PageCache.cc], [storage/headers/PageCache.h],
    [CacheStats.h], the page-relevant part of [memory/source/SharedMem.cc] and
    the body of the flush consumer, [PDBFlushConsumerWork.cc].  A call is a
    state transformer on the whole cache; the two mutexes and the read-write
    lock are part of the state, and taking a lock the caller already holds, or
    releasing one it does not hold, is undefined.

    Page and set objects are shared, so the state keeps them in [pages] and
    [sets] under their identities.  The pool allocator behind [SharedMem] is
    vendored: what it returns is an argument of the calls that allocate. *)

From S2P Require Import Prelude PDBPage LocalitySet.
From stdpp Require Import sorting.

(** [dbId], [typeId], [setId], [pageId] *)
Definition CacheKey : Type := Z * Z * Z * Z.

Inductive CacheStrategy := UnifiedLRU | UnifiedMRU | UnifiedCost | UnifiedIntelligent | UnifiedDBMIN.

#[export] Instance CacheStrategy_eq_dec : EqDecision CacheStrategy.
Proof. solve_decision. Defined.

Inductive PriorityLevel :=
| TransientLifetimeEnded
| PersistentLifetimeEnded
| PersistentLifetimeNotEnded
| TransientLifetimeNotEndedPartialData
| TransientLifetimeNotEndedShuffleData
| TransientLifetimeNotEndedHashData.

Definition level_index (l : PriorityLevel) : nat :=
  match l with
  | TransientLifetimeEnded => 0
  | PersistentLifetimeEnded => 1
  | PersistentLifetimeNotEnded => 2
  | TransientLifetimeNotEndedPartialData => 3
  | TransientLifetimeNotEndedShuffleData => 4
  | TransientLifetimeNotEndedHashData => 5
  end.

(** A read-write lock; [ReadHeld n] has [n + 1] readers. *)
Inductive rwlock := Unlocked | WriteHeld | ReadHeld (n : nat).

Record CacheStats := MkStats { numHits : Z; numMisses : Z; numEvicted : Z; numCached : Z }.

Definition incHits s := MkStats (numHits s + 1) (numMisses s) (numEvicted s) (numCached s).
Definition incMisses s := MkStats (numHits s) (numMisses s + 1) (numEvicted s) (numCached s).
Definition incEvicted s := MkStats (numHits s) (numMisses s) (numEvicted s + 1) (numCached s).
Definition incCached s := MkStats (numHits s) (numMisses s) (numEvicted s) (numCached s + 1).

Record PageCache := MkPageCache {
  cache : gmap CacheKey Z;
  pages : gmap Z PDBPage;
  sets : gmap Z LocalitySet;
  cacheSize : Z;
  evictStopSize : Z;
  accessCount : Z;
  inEvict : bool;
  priorityList : list (list Z);
  strategy : CacheStrategy;
  flushBuffer : list Z;
  stats : CacheStats;
  shm : gmap Z Z;
  evictionMutex : bool;
  cacheMutex : bool;
  rw : rwlock;
  memPool : Z
}.

Implicit Types (c : PageCache).

Definition set_cache x c : PageCache :=
  MkPageCache x (pages c) (sets c) (cacheSize c) (evictStopSize c) (accessCount c) (inEvict c)
    (priorityList c) (strategy c) (flushBuffer c) (stats c) (shm c) (evictionMutex c) (cacheMutex c)
    (rw c) (memPool c).
Definition set_pages x c : PageCache :=
  MkPageCache (cache c) x (sets c) (cacheSize c) (evictStopSize c) (accessCount c) (inEvict c)
    (priorityList c) (strategy c) (flushBuffer c) (stats c) (shm c) (evictionMutex c) (cacheMutex c)
    (rw c) (memPool c).
Definition set_sets x c : PageCache :=
  MkPageCache (cache c) (pages c) x (cacheSize c) (evictStopSize c) (accessCount c) (inEvict c)
    (priorityList c) (strategy c) (flushBuffer c) (stats c) (shm c) (evictionMutex c) (cacheMutex c)
    (rw c) (memPool c).
Definition set_cacheSize x c : PageCache :=
  MkPageCache (cache c) (pages c) (sets c) x (evictStopSize c) (accessCount c) (inEvict c)
    (priorityList c) (strategy c) (flushBuffer c) (stats c) (shm c) (evictionMutex c) (cacheMutex c)
    (rw c) (memPool c).
Definition set_accessCount x c : PageCache :=
  MkPageCache (cache c) (pages c) (sets c) (cacheSize c) (evictStopSize c) x (inEvict c)
    (priorityList c) (strategy c) (flushBuffer c) (stats c) (shm c) (evictionMutex c) (cacheMutex c)
    (rw c) (memPool c).
Definition set_inEvict x c : PageCache :=
  MkPageCache (cache c) (pages c) (sets c) (cacheSize c) (evictStopSize c) (accessCount c) x
    (priorityList c) (strategy c) (flushBuffer c) (stats c) (shm c) (evictionMutex c) (cacheMutex c)
    (rw c) (memPool c).
Definition set_priorityList x c : PageCache :=
  MkPageCache (cache c) (pages c) (sets c) (cacheSize c) (evictStopSize c) (accessCount c)
    (inEvict c) x (strategy c) (flushBuffer c) (stats c) (shm c) (evictionMutex c) (cacheMutex c)
    (rw c) (memPool c).
Definition set_flushBuffer x c : PageCache :=
  MkPageCache (cache c) (pages c) (sets c) (cacheSize c) (evictStopSize c) (accessCount c)
    (inEvict c) (priorityList c) (strategy c) x (stats c) (shm c) (evictionMutex c) (cacheMutex c)
    (rw c) (memPool c).
Definition set_stats x c : PageCache :=
  MkPageCache (cache c) (pages c) (sets c) (cacheSize c) (evictStopSize c) (accessCount c)
    (inEvict c) (priorityList c) (strategy c) (flushBuffer c) x (shm c) (evictionMutex c)
    (cacheMutex c) (rw c) (memPool c).
Definition set_shm x c : PageCache :=
  MkPageCache (cache c) (pages c) (sets c) (cacheSize c) (evictStopSize c) (accessCount c)
    (inEvict c) (priorityList c) (strategy c) (flushBuffer c) (stats c) x (evictionMutex c)
    (cacheMutex c) (rw c) (memPool c).
Definition set_evictionMutex x c : PageCache :=
  MkPageCache (cache c) (pages c) (sets c) (cacheSize c) (evictStopSize c) (accessCount c)
    (inEvict c) (priorityList c) (strategy c) (flushBuffer c) (stats c) (shm c) x (cacheMutex c)
    (rw c) (memPool c).
Definition set_cacheMutex x c : PageCache :=
  MkPageCache (cache c) (pages c) (sets c) (cacheSize c) (evictStopSize c) (accessCount c)
    (inEvict c) (priorityList c) (strategy c) (flushBuffer c) (stats c) (shm c) (evictionMutex c) x
    (rw c) (memPool c).
Definition set_rw x c : PageCache :=
  MkPageCache (cache c) (pages c) (sets c) (cacheSize c) (evictStopSize c) (accessCount c)
    (inEvict c) (priorityList c) (strategy c) (flushBuffer c) (stats c) (shm c) (evictionMutex c)
    (cacheMutex c) x (memPool c).

Abbreviation PC := (M PageCache).

(** ** Locks *)

Definition lock_evictionMutex : PC unit := λ c,
  if evictionMutex c then (Undefined, c) else (Ret tt, set_evictionMutex true c).
Definition unlock_evictionMutex : PC unit := λ c,
  if evictionMutex c then (Ret tt, set_evictionMutex false c) else (Undefined, c).
Definition lock_cacheMutex : PC unit := λ c,
  if cacheMutex c then (Undefined, c) else (Ret tt, set_cacheMutex true c).
Definition unlock_cacheMutex : PC unit := λ c,
  if cacheMutex c then (Ret tt, set_cacheMutex false c) else (Undefined, c).

(** [evictionLock], [flushLock] and the unlocks of [evictionAndFlushLock]. *)
Definition evictionLock : PC unit := λ c,
  match rw c with Unlocked => (Ret tt, set_rw WriteHeld c) | _ => (Undefined, c) end.
Definition flushLock : PC unit := λ c,
  match rw c with
  | Unlocked => (Ret tt, set_rw (ReadHeld 0) c)
  | ReadHeld n => (Ret tt, set_rw (ReadHeld (S n)) c)
  | WriteHeld => (Undefined, c)
  end.
Definition rw_unlock : PC unit := λ c,
  match rw c with
  | Unlocked => (Undefined, c)
  | WriteHeld | ReadHeld 0 => (Ret tt, set_rw Unlocked c)
  | ReadHeld (S n) => (Ret tt, set_rw (ReadHeld n) c)
  end.
Definition evictionUnlock : PC unit := rw_unlock.
Definition flushUnlock : PC unit := rw_unlock.

(** ** Objects *)

Definition get_page (id : Z) : PC PDBPage := λ c,
  match pages c !! id with Some p => (Ret p, c) | None => (Undefined, c) end.
Definition upd_page (id : Z) (f : PDBPage → PDBPage) : PC unit :=
  modify (λ c, set_pages (alter f id (pages c)) c).
Definition get_set (sid : Z) : PC LocalitySet := λ c,
  match sets c !! sid with Some s => (Ret s, c) | None => (Undefined, c) end.
Definition upd_set (sid : Z) (f : LocalitySet → LocalitySet) : PC unit :=
  modify (λ c, set_sets (alter f sid (sets c)) c).
Definition count_stat (f : CacheStats → CacheStats) : PC unit := modify (λ c, set_stats (f (stats c)) c).

Definition page_key (p : PDBPage) : CacheKey := (dbID p, typeID p, setID p, pageID p).

(** What a cached page is accounted with: [getRawSize() + 512]. *)
Definition page_bytes (p : PDBPage) : Z := getRawSize p + 512.

(** ** Shared memory *)

(** [SharedMem::addressRoundUp], with 64-bit words. *)
Definition addressRoundUp (address roundTo : Z) : Z :=
  Z.land (u64 (address + (roundTo - 1))) (u64_modulus - 1 - (roundTo - 1)).

(** [SharedMem::mallocAlign] when the pool returns [r]: data and offset. *)
Definition mallocAlign (r size alignment : Z) : PC (Z * Z) := λ c,
  if (r =? 0)%Z then (Ret (0, 0)%Z, c)
  else
    let ret := addressRoundUp r alignment in
    (Ret (ret, ret - r)%Z, set_shm (<[r := (size + alignment)%Z]> (shm c)) c).

(** [SharedMem::free]; the TLSF pool ignores the size. *)
Definition shm_free (ptr size : Z) : PC unit := λ c,
  match shm c !! ptr with
  | Some _ => (Ret tt, set_shm (delete ptr (shm c)) c)
  | None => (Undefined, c)
  end.

(** ** The table *)

Definition containsPage c (key : CacheKey) : bool := bool_decide (is_Some (cache c !! key)).

(** [cachePage] *)
Definition cachePage (id : Z) (set : option Z) : PC unit :=
  p ← get_page id;
  lock_cacheMutex ;;
  c ← get;
  (if containsPage c (page_key p) then mret tt
   else
     modify (λ c, set_cacheSize (u64 (cacheSize c + page_bytes p))
                    (set_cache (<[page_key p := id]> (cache c)) c)) ;;
     (match set with
      | Some sid =>
          if decide (strategy c = UnifiedDBMIN)
          then upd_set sid (λ s, setNumCachedPages s (numCachedPages s + 1)) else mret tt
      | None => mret tt
      end) ;;
     count_stat incCached) ;;
  (match set with Some sid => upd_set sid (λ s, addCachedPage s id) | None => mret tt end) ;;
  unlock_cacheMutex.

(** [removePage] *)
Definition removePage (key : CacheKey) : PC bool :=
  lock_cacheMutex ;;
  c ← get;
  match cache c !! key with
  | None => unlock_cacheMutex ;; mret false
  | Some id =>
      p ← get_page id;
      modify (λ c, set_cacheSize (u64 (cacheSize c - page_bytes p)) (set_cache (delete key (cache c)) c)) ;;
      unlock_cacheMutex ;; mret true
  end.

(** Giving a page's memory back: [free(rawBytes - internalOffset, bytes)],
    [setOffset(0)], [setRawBytes(nullptr)]. *)
Definition release_page (id : Z) (bytes : Z) : PC unit :=
  p ← get_page id;
  shm_free (rawBytes p - internalOffset p) bytes ;;
  upd_page id (λ p, setRawBytes (setOffset p 0) 0).

(** [freePage] *)
Definition freePage (id : Z) : PC bool :=
  p ← get_page id;
  lock_cacheMutex ;;
  c ← get;
  match cache c !! page_key p with
  | None => unlock_cacheMutex ;; mret false
  | Some id' =>
      q ← get_page id';
      modify (λ c, set_cacheSize (u64 (cacheSize c - page_bytes q))
                     (set_cache (delete (page_key p) (cache c)) c)) ;;
      unlock_cacheMutex ;;
      release_page id (page_bytes p) ;;
      mret true
  end.

(** ** Eviction of one page *)

(** Pages of database 0 with type 1 or 2 are never flushed. *)
Definition flushable (p : PDBPage) : bool :=
  (negb (dbID p =? 0)%Z || negb (typeID p =? 1)%Z) && (negb (dbID p =? 0)%Z || negb (typeID p =? 2)%Z).

(** [evictPage(key, tryFlushOrNot)] *)
Definition evictPage (key : CacheKey) (tryFlushOrNot : bool) : PC bool :=
  c ← get;
  match cache c !! key with
  | None => mret false
  | Some id =>
      p ← get_page id;
      if (0 <? refCount p)%Z then mret false
      else
        upd_page id (λ p, setPinned p false) ;;
        (if tryFlushOrNot && dirty p && negb (inFlush p) && flushable p then
           upd_page id (λ p, setInEviction (setInFlush p true) true) ;;
           modify (λ c, set_flushBuffer (flushBuffer c ++ [id]) c)
         else if inFlush p then upd_page id (λ p, setInEviction p true)
         else
           flushLock ;;
           release_page id (page_bytes p) ;;
           removePage key ;;
           flushUnlock) ;;
        count_stat incEvicted ;;
        mret true
  end.

(** [evictPage(page, set)] and [evictPageForDBMIN(page, set)]. *)
Definition evictPageOf (id : Z) (set : option Z) : PC bool :=
  p ← get_page id;
  ret ← evictPage (page_key p) true;
  (match set with
   | Some sid =>
       if ret : bool then
         upd_set sid (λ s, removeCachedPage s id) ;;
         c ← get;
         if decide (strategy c = UnifiedDBMIN)
         then upd_set sid (λ s, setNumCachedPages s (numCachedPages s - 1)) else mret tt
       else mret tt
   | None => mret tt
   end) ;;
  mret ret.

(** [flushPageWithoutEviction] *)
Definition flushPageWithoutEviction (key : CacheKey) : PC bool :=
  c ← get;
  match cache c !! key with
  | None => mret false
  | Some id =>
      p ← get_page id;
      if dirty p && negb (inFlush p) then
        upd_page id (λ p, setInEviction (setInFlush p true) false) ;;
        modify (λ c, set_flushBuffer (flushBuffer c ++ [id]) c) ;; mret true
      else mret false
  end.

(** ** Eviction strategies *)

(** Evicting the pages of a list, counting the successes. *)
Fixpoint evict_all (ids : list Z) (set : option Z) : PC nat :=
  match ids with
  | [] => mret 0
  | id :: ids' =>
      b ← evictPageOf id set; n ← evict_all ids' set;
      mret (if b : bool then S n else n)
  end.

(** The loop over locality sets until a page was evicted, the write lock being
    held between evictions. *)
Fixpoint evict_sets (sids : list Z) : PC unit :=
  match sids with
  | [] => mret tt
  | sid :: sids' =>
      s ← get_set sid; c ← get;
      match selectPagesForReplacement (pages c) s with
      | None => evict_sets sids'
      | Some ids =>
          evictionUnlock ;; n ← evict_all ids (Some sid); evictionLock ;;
          if decide (0 < n) then mret tt else evict_sets sids'
      end
  end.

(** The sets pushed on the priority queue of the cost-based strategy: those
    with a page to replace. *)
Definition has_victim c (sid : Z) : bool :=
  match sets c !! sid with
  | Some s => match selectPageForReplacement (pages c) s with Some _ => true | None => false end
  | None => false
  end.

Definition cost_candidates c : list Z :=
  filter (λ sid, has_victim c sid = true) (concat (reverse <$> priorityList c)).

(** More recently used first, as [CompareCachedPagesMRU] orders the queue. *)
Definition mru_first (a b : Z * PDBPage) : Prop := (accessSequenceId b.2 ≤ accessSequenceId a.2)%Z.

#[export] Instance mru_first_dec : RelDecision mru_first.
Proof. intros a b. unfold mru_first. apply _. Defined.

(** The cached pages nobody references that are not in flush, or clean. *)
Definition evictable (p : PDBPage) : bool := (refCount p =? 0)%Z && (negb (dirty p) || negb (inFlush p)).

Definition cached_objects c : list (Z * PDBPage) :=
  omap (λ kv : CacheKey * Z, p ← pages c !! kv.2; Some (kv.2, p)) (map_to_list (cache c)).

(** [while (size > evictStopSize && cachedPages->size() > 0)] *)
Fixpoint evict_queue (ids : list Z) : PC unit :=
  match ids with
  | [] => mret tt
  | id :: ids' =>
      c ← get;
      if (evictStopSize c <? cacheSize c)%Z then evictPageOf id None ;; evict_queue ids' else mret tt
  end.

(** [evict].  [order] is the order in which the priority queue of the
    cost-based strategy hands out its sets. *)
Definition evict (order : list Z → list Z) : PC unit :=
  c ← get;
  if inEvict c then mret tt
  else
    lock_evictionMutex ;;
    modify (set_inEvict true) ;;
    (match strategy c with
     | UnifiedDBMIN => mret tt
     | st =>
         (match st with
          | UnifiedCost =>
              evictionLock ;; c1 ← get; evict_sets (order (cost_candidates c1)) ;; evictionUnlock
          | UnifiedIntelligent =>
              evictionLock ;; c1 ← get; evict_sets (concat (priorityList c1)) ;; evictionUnlock
          | _ =>
              evictionLock ;; c1 ← get; evictionUnlock ;;
              evict_queue (merge_sort mru_first (filter (λ ip, evictable ip.2 = true) (cached_objects c1))).*1
          end) ;;
         modify (set_inEvict false) ;;
         unlock_evictionMutex
     end).

(** The loop of [evictForDBMIN], with the write lock held. *)
Fixpoint dbmin_loop (fuel : nat) (sid : Z) : PC unit :=
  match fuel with
  | 0 => lift Undefined
  | S fuel' =>
      s ← get_set sid; c ← get;
      if (desiredSize s <=? u64 (numCachedPages s))%Z then
        match selectPageForReplacement (pages c) s with
        | None => mret tt
        | Some id =>
            evictionUnlock ;;
            ret ← evictPageOf id (Some sid);
            if ret : bool then evictionLock ;; dbmin_loop fuel' sid else mret tt
        end
      else mret tt
  end.

Definition evictForDBMIN (sid : Z) : PC unit :=
  evictionLock ;; s ← get_set sid;
  dbmin_loop (S (length (cachedPages s))) sid ;; evictionUnlock.

(** The dirty pages not in flush, for the two evictions of all dirty pages. *)
Definition dirty_objects c : list Z :=
  (filter (λ ip, dirty ip.2 = true ∧ inFlush ip.2 = false) (cached_objects c)).*1.

Definition begin_eviction : PC unit :=
  lock_evictionMutex ;; modify (set_inEvict true) ;; evictionLock.

Definition end_eviction (ids : list Z) : PC nat :=
  evictionUnlock ;; n ← evict_all ids None;
  modify (set_inEvict false) ;; unlock_evictionMutex ;; mret n.

Definition evictAllDirtyPages : PC nat :=
  c ← get;
  if inEvict c then mret 0
  else
    begin_eviction ;; c1 ← get;
    end_eviction (filter (λ id, unreferenced (pages c1) id = true) (dirty_objects c1)).

(** [while (page->getRefCount() > 0) page->decRefCount()] *)
Definition unpin_all (p : PDBPage) : PDBPage := Nat.iter (Z.to_nat (refCount p)) decRefCount p.

Definition unpinAndEvictAllDirtyPages : PC nat :=
  c ← get;
  if inEvict c then mret 0
  else
    begin_eviction ;; c1 ← get;
    modify (set_pages (foldr (alter unpin_all) (pages c1) (dirty_objects c1))) ;;
    end_eviction (dirty_objects c1).

(** ** Getting pages *)

(** [allocateBufferFromSharedMemoryBlocking]: [rs] are the pool's answers; the
    result is [None] while the call still waits. *)
Fixpoint allocate_blocking (order : list Z → list Z) (rs : list Z) (size : Z) : PC (option (Z * Z)) :=
  match rs with
  | [] => mret None
  | r :: rs' =>
      d ← mallocAlign r size 512;
      if (d.1 =? 0)%Z then
        c ← get; (if inEvict c then mret tt else evict order) ;; allocate_blocking order rs' size
      else mret (Some d)
  end.

(** [tryAllocateBufferFromSharedMemory] *)
Definition try_allocate (order : list Z → list Z) (r1 r2 size : Z) : PC (Z * Z) :=
  d ← mallocAlign r1 size 512;
  if (d.1 =? 0)%Z then evict order ;; mallocAlign r2 size 512 else mret d.

(** Stamping a page with the next access number. *)
Definition touch (id : Z) : PC unit :=
  c ← get;
  upd_page id (λ p, setAccessSequenceId p (accessCount c)) ;;
  modify (λ c, set_accessCount (accessCount c + 1) c).

(** [make_shared<PDBPage>] under the new identity [id]. *)
Definition make_page (id : Z) (p : PDBPage) : PC unit := modify (λ c, set_pages (<[id := p]> (pages c)) c).

(** The page built on the memory [d]; [base] is the address of the pool.
    [inEviction] starts unspecified: it is read only after an eviction or a
    flush set it. *)
Definition key_page (base node : Z) (key : CacheKey) (size : Z) (d : Z * Z) : PDBPage :=
  let '(db, ty, st, pg) := key in
  PDBPage_new d.1 node db ty st pg size (d.1 - base) d.2 0 0 false 0.

Definition dbmin_room (set : option Z) : PC unit :=
  c ← get;
  if decide (strategy c = UnifiedDBMIN) then
    match set with Some sid => evictForDBMIN sid | None => lift Undefined end
  else mret tt.

(** The end of [getNewPage] and [getNewPageNonBlocking]. *)
Definition install_new_page (id node : Z) (key : CacheKey) (set : option Z) (size : Z) (d : Z * Z) : PC unit :=
  c ← get;
  make_page id (key_page (memPool c) node key size d) ;;
  touch id ;;
  upd_page id (λ p, setDirty (setPinned p true) true) ;;
  lock_evictionMutex ;; evictionLock ;;
  cachePage id set ;;
  upd_page id incRefCount ;;
  evictionUnlock ;; unlock_evictionMutex.

(** [getNewPage], with the identity of the page it makes; the outer option is
    [None] while it waits for memory. *)
Definition getNewPage (order : list Z → list Z) (rs : list Z) (id node : Z) (key : CacheKey)
    (set : option Z) (size : Z) : PC (option (option Z)) :=
  lock_evictionMutex ;;
  dbmin_room set ;;
  c ← get;
  if containsPage c key then unlock_evictionMutex ;; mret (Some None)
  else
    unlock_evictionMutex ;;
    d ← allocate_blocking order rs size;
    match d with
    | None => mret None
    | Some d => install_new_page id node key set size d ;; mret (Some (Some id))
    end.

Definition getNewPageNonBlocking (order : list Z → list Z) (r1 r2 id node : Z) (key : CacheKey)
    (set : option Z) (size : Z) : PC (option Z) :=
  c ← get;
  (if decide (strategy c = UnifiedDBMIN)
   then lock_evictionMutex ;; dbmin_room set ;; unlock_evictionMutex else mret tt) ;;
  c1 ← get;
  if containsPage c1 key then mret None
  else
    d ← try_allocate order r1 r2 size;
    if (d.1 =? 0)%Z then mret None
    else install_new_page id node key set size d ;; mret (Some id).

(** [getPage(key, set)] *)
Definition getPage (key : CacheKey) (set : option Z) : PC (option Z) :=
  lock_cacheMutex ;;
  c ← get;
  match cache c !! key with
  | None => unlock_cacheMutex ;; mret None
  | Some id =>
      upd_page id incRefCount ;;
      unlock_cacheMutex ;;
      touch id ;;
      (match set with Some sid => upd_set sid (λ s, updateCachedPage s id) | None => mret tt end) ;;
      mret (Some id)
  end.

Definition getPage1 (key : CacheKey) (set : option Z) : PC (option Z) :=
  r ← getPage key set;
  (match r with Some _ => count_stat incHits | None => mret tt end) ;; mret r.

(** What the cache needs of a partitioned file: its key, its page size, the
    pages of each partition, where a page is, and the page number and object
    count in the header of a stored page. *)
Record file := MkFile {
  f_node : Z;
  f_db : Z;
  f_type : Z;
  f_set : Z;
  f_pageSize : Z;
  f_numPages : Z → Z;
  f_index : Z → Z * Z;
  f_header : Z → Z → Z * Z
}.

(** [loadPage] of a partitioned file, with [buildPageFromSharedMemoryData]. *)
Definition loadPage (order : list Z → list Z) (rs : list Z) (f : file) (id part seq : Z) :
    PC (option (option Z)) :=
  if (f_numPages f part <=? seq)%Z then mret (Some None)
  else
    d ← allocate_blocking order rs (f_pageSize f);
    match d with
    | None => mret None
    | Some d =>
        c ← get;
        let '(pg, n) := f_header f part seq in
        make_page id (setPartition (PDBPage_new d.1 (f_node f) (f_db f) (f_type f) (f_set f) pg
          (f_pageSize f) (d.1 - memPool c) d.2 n 0 false 0) part seq) ;;
        mret (Some (Some id))
    end.

(** [getPage(file, partitionId, pageSeqInPartition, pageId, sequential, set)] *)
Definition getPageOfFile (order : list Z → list Z) (rs : list Z) (f : file) (id part seq pageId : Z)
    (set : option Z) : PC (option (option Z)) :=
  c ← get;
  (if decide (strategy c = UnifiedDBMIN)
   then lock_evictionMutex ;; dbmin_room set ;; unlock_evictionMutex else mret tt) ;;
  let key := (f_db f, f_type f, f_set f, pageId) in
  let '(part, seq) := if (part =? UINT32_MAX)%Z || (seq =? UINT32_MAX)%Z then f_index f pageId else (part, seq) in
  lock_evictionMutex ;; evictionLock ;; lock_cacheMutex ;;
  c1 ← get;
  match cache c1 !! key with
  | None =>
      count_stat incMisses ;;
      unlock_cacheMutex ;; evictionUnlock ;; unlock_evictionMutex ;;
      r ← loadPage order rs f id part seq;
      match r with
      | Some (Some id) =>
          touch id ;;
          lock_evictionMutex ;;
          cachePage id set ;;
          upd_page id (λ p, incRefCount (setDirty (setPinned p true) false)) ;;
          unlock_evictionMutex ;;
          mret (Some (Some id))
      | r => mret r
      end
  | Some id' =>
      unlock_cacheMutex ;;
      upd_page id' (λ p, incRefCount (setPinned p true)) ;;
      evictionUnlock ;; unlock_evictionMutex ;;
      touch id' ;;
      (match set with Some sid => upd_set sid (λ s, updateCachedPage s id') | None => mret tt end) ;;
      count_stat incHits ;;
      mret (Some (Some id'))
  end.

(** [decPageRefCount] *)
Definition decPageRefCount (key : CacheKey) : PC bool :=
  c ← get;
  match cache c !! key with
  | None => mret false
  | Some id => upd_page id decRefCount ;; mret true
  end.

(** ** The flush consumer

    One iteration of [PDBFlushConsumerWork::execute], after the page was
    written to its file. *)
Definition flush_one : PC unit :=
  c ← get;
  match flushBuffer c with
  | [] => mret tt
  | id :: rest =>
      modify (set_flushBuffer rest) ;;
      p ← get_page id;
      flushLock ;;
      (if negb (rawBytes p =? 0)%Z && (refCount p =? 0)%Z && inEviction p
       then release_page id (getSize p + 512) else mret tt) ;;
      (if (refCount p =? 0)%Z && inEviction p then removePage (page_key p) ;; mret tt else mret tt) ;;
      upd_page id (λ p, setDirty (setInFlush p false) false) ;;
      flushUnlock
  end.

(** ** Priority lists *)

Definition addLocalitySetToPriorityList (sid : Z) (level : PriorityLevel) : PC unit :=
  modify (λ c, set_priorityList (alter (λ l, l ++ [sid]) (level_index level) (priorityList c)) c).

(** [list::remove] erases every occurrence. *)
Definition removeLocalitySetFromPriorityList (sid : Z) (level : PriorityLevel) : PC unit :=
  modify (λ c, set_priorityList (alter (filter (λ s, s ≠ sid)) (level_index level) (priorityList c)) c).

(** The list of a set whose lifetime has not ended. *)
Definition active_level (s : LocalitySet) : PriorityLevel :=
  match persistenceType s with
  | Transient =>
      match localityType s with
      | ShuffleData => TransientLifetimeNotEndedShuffleData
      | HashPartitionData => TransientLifetimeNotEndedHashData
      | _ => TransientLifetimeNotEndedPartialData
      end
  | Persistent => PersistentLifetimeNotEnded
  end.

Definition ended_level (s : LocalitySet) : PriorityLevel :=
  match persistenceType s with Transient => TransientLifetimeEnded | Persistent => PersistentLifetimeEnded end.

Definition pin (sid : Z) (policy : ReplacementPolicy) (op : OperationType) : PC unit :=
  s ← get_set sid;
  upd_set sid (λ s, ls_pin s policy op) ;;
  addLocalitySetToPriorityList sid (active_level s).

Definition unpin_set (sid : Z) : PC unit :=
  s ← get_set sid;
  upd_set sid ls_unpin ;;
  removeLocalitySetFromPriorityList sid (active_level s) ;;
  addLocalitySetToPriorityList sid (ended_level s).

(** ** Invariant *)

(** Where the pool's block of a page starts. *)
Definition base_of (p : PDBPage) : Z := rawBytes p - internalOffset p.

Definition bytes_of c (id : Z) : Z := match pages c !! id with Some p => page_bytes p | None => 0 end.

(** The bytes of all cached pages. *)
Definition cached_bytes c : Z := map_sum (λ _ id, bytes_of c id) (cache c).

(** The table is consistent: every entry is a page of that key that owns a
    live block of the pool of its own, and [size] accounts for them all. *)
Record cache_ok c : Prop := {
  ok_keys key id : cache c !! key = Some id → ∃ p, pages c !! id = Some p ∧ page_key p = key ∧ (0 ≤ refCount p)%Z;
  ok_mem key id p : cache c !! key = Some id → pages c !! id = Some p →
    shm c !! base_of p = Some (page_bytes p);
  ok_distinct key1 key2 id1 id2 p1 p2 : cache c !! key1 = Some id1 → cache c !! key2 = Some id2 →
    pages c !! id1 = Some p1 → pages c !! id2 = Some p2 → base_of p1 = base_of p2 → key1 = key2;
  ok_size : cacheSize c = u64 (cached_bytes c)
}.

(** No lock is held and no eviction runs. *)
Definition idle c : Prop :=
  evictionMutex c = false ∧ cacheMutex c = false ∧ rw c = Unlocked ∧ inEvict c = false.

(** The same page as far as the table and the replacement policy look; only a
    dirty page can be put in flush. *)
Record same_page (p p' : PDBPage) : Prop := {
  sp_key : page_key p' = page_key p;
  sp_refs : refCount p' = refCount p;
  sp_bytes : page_bytes p' = page_bytes p;
  sp_dirty : dirty p' = dirty p;
  sp_flush : dirty p = false → inFlush p' = inFlush p
}.

(** What eviction may change: it takes entries out of the table and changes
    pages nobody references. *)
Record evicted_from c c' : Prop := {
  ev_locks : evictionMutex c' = evictionMutex c ∧ cacheMutex c' = cacheMutex c ∧ rw c' = rw c ∧
    inEvict c' = inEvict c;
  ev_config : strategy c' = strategy c ∧ evictStopSize c' = evictStopSize c ∧
    priorityList c' = priorityList c ∧ accessCount c' = accessCount c;
  ev_sets sid : is_Some (sets c !! sid) → is_Some (sets c' !! sid);
  ev_same id p : pages c !! id = Some p → ∃ p', pages c' !! id = Some p' ∧ same_page p p';
  ev_pinned id p : pages c !! id = Some p → (0 < refCount p)%Z → pages c' !! id = Some p;
  ev_new id : pages c !! id = None → pages c' !! id = None;
  ev_shm a : shm c !! a = None → shm c' !! a = None;
  ev_cache key id : cache c' !! key = Some id → cache c !! key = Some id;
  ev_kept key id p : cache c !! key = Some id → pages c !! id = Some p → (0 < refCount p)%Z →
    cache c' !! key = Some id
}.

(** ** Facts *)

Lemma same_page_refl p : same_page p p.
Proof. done. Qed.

Lemma same_page_trans p p' p'' : same_page p p' → same_page p' p'' → same_page p p''.
Proof. intros [? ? ? ? F] [? ? ? ? F']. split; try congruence. intros Hd. rewrite F' by congruence. auto. Qed.

Lemma evicted_refl c : evicted_from c c.
Proof. split; eauto using same_page_refl. Qed.

Lemma evicted_trans c c' c'' : evicted_from c c' → evicted_from c' c'' → evicted_from c c''.
Proof.
  intros [L C S P R N A K D] [L' C' S' P' R' N' A' K' D']. split.
  - destruct L as (-> & -> & -> & ->) in L'. done.
  - destruct C as (E1 & E2 & E3 & E4), C' as (E1' & E2' & E3' & E4'). split_and!; congruence.
  - eauto.
  - intros id p Hp. destruct (P id p Hp) as (p' & Hp' & Hs). destruct (P' id p' Hp') as (p'' & Hp'' & Hs').
    eauto using same_page_trans.
  - intros id p Hp Hr. apply R'; [by apply R|done].
  - eauto.
  - eauto.
  - eauto.
  - intros key id p Hk Hp Hr. eapply D'; [by eapply D|by apply R|done].
Qed.

(** Changing a page without moving it. *)
Lemma cache_ok_update c id p f :
  cache_ok c → pages c !! id = Some p → page_key (f p) = page_key p → page_bytes (f p) = page_bytes p →
  base_of (f p) = base_of p → (0 ≤ refCount p → 0 ≤ refCount (f p))%Z →
  cache_ok (set_pages (alter f id (pages c)) c).
Proof.
  intros Hok Hp Hkey Hbytes Hbase Hrefs.
  assert (∀ j q, pages c !! j = Some q → ∃ q', alter f id (pages c) !! j = Some q' ∧ page_key q' = page_key q ∧
    page_bytes q' = page_bytes q ∧ (0 ≤ refCount q → 0 ≤ refCount q')%Z) as Hpg.
  { intros j q Hq. destruct (decide (id = j)) as [<-|Hne].
    - rewrite lookup_alter_eq, Hp. assert (q = p) as -> by congruence. by exists (f p).
    - rewrite lookup_alter_ne by done. by eexists. }
  assert (∀ j q', alter f id (pages c) !! j = Some q' → ∃ q, pages c !! j = Some q ∧ page_bytes q' = page_bytes q ∧
    base_of q' = base_of q) as Hpg'.
  { intros j q'. destruct (decide (id = j)) as [<-|Hne].
    - rewrite lookup_alter_eq, Hp. intros [= <-]. eauto.
    - rewrite lookup_alter_ne by done. eauto. }
  split; simpl.
  - intros key j Hk. destruct (ok_keys _ Hok key j Hk) as (q & Hq & Hkq & Hrc).
    destruct (Hpg j q Hq) as (q' & Hq' & E1 & E2 & E3). exists q'. split_and!; [done|congruence|auto].
  - intros key j q' Hk Hq'. destruct (Hpg' j q' Hq') as (q & Hq & E & ->). rewrite E.
    by eapply (ok_mem _ Hok).
  - intros k1 k2 j1 j2 q1 q2 H1 H2 Hq1 Hq2 He.
    destruct (Hpg' _ _ Hq1) as (r1 & Hr1 & _ & E1). destruct (Hpg' _ _ Hq2) as (r2 & Hr2 & _ & E2).
    eapply (ok_distinct _ Hok k1 k2); eauto. congruence.
  - rewrite (ok_size _ Hok). f_equal. apply map_sum_ext. intros key j Hk. unfold bytes_of. simpl.
    destruct (ok_keys _ Hok key j Hk) as (q & Hq & _). destruct (Hpg j q Hq) as (q' & -> & _ & -> & _).
    by rewrite Hq.
Qed.

Lemma upd_page_ok c id p f :
  cache_ok c → pages c !! id = Some p → refCount p = 0%Z → same_page p (f p) → base_of (f p) = base_of p →
  let c' := set_pages (alter f id (pages c)) c in cache_ok c' ∧ evicted_from c c'.
Proof.
  intros Hok Hp Hr Hs Hb c'. split.
  { destruct Hs as [E1 E2 E3 _ _]. apply (cache_ok_update c id p); [done|done|done|done|done|]. by rewrite E2. }
  split; unfold c'; simpl; try done.
  - intros j q Hq. destruct (decide (id = j)) as [<-|Hne].
    + rewrite lookup_alter_eq, Hp. simplify_eq. by eexists.
    + rewrite lookup_alter_ne by done. eauto using same_page_refl.
  - intros j q Hq Hrq. rewrite lookup_alter_ne; [done|]. intros ->. simplify_eq. lia.
  - intros j Hn. rewrite lookup_alter_ne; congruence.
Qed.

(** Fields no operation on the table reads. *)
Lemma cache_ok_same c c' :
  cache_ok c → cache c' = cache c → pages c' = pages c → shm c' = shm c → cacheSize c' = cacheSize c →
  cache_ok c'.
Proof.
  intros [H1 H2 H3 H4] Ec Ep Es Ez. split; unfold cached_bytes, bytes_of in *; rewrite ?Ec, ?Ep, ?Es, ?Ez; eauto.
Qed.

(** [removePage] of a cached page. *)
Lemma removePage_eq c key id p :
  cacheMutex c = false → cache c !! key = Some id → pages c !! id = Some p →
  removePage key c = (Ret true, set_cacheMutex false (set_cacheSize (u64 (cacheSize c - page_bytes p))
    (set_cache (delete key (cache c)) (set_cacheMutex true c)))).
Proof.
  intros Hm Hk Hp. unfold removePage, lock_cacheMutex. run. rewrite Hm. run. cbn [cache set_cacheMutex].
  rewrite Hk. run. unfold get_page. cbn [pages set_cacheMutex]. rewrite Hp. run. done.
Qed.

(** The state after freeing the memory of the cached page [id], changing the
    page by [f], and taking it out of the table. *)
Definition dropped f c (key : CacheKey) (id : Z) (p : PDBPage) : PageCache :=
  set_cacheSize (u64 (cacheSize c - page_bytes p)) (set_cache (delete key (cache c))
    (set_pages (alter f id (pages c)) (set_shm (delete (base_of p) (shm c)) c))).

Lemma dropped_cache_ok f c key id p :
  cache_ok c → cache c !! key = Some id → pages c !! id = Some p → cache_ok (dropped f c key id p).
Proof.
  intros Hok Hk Hp. unfold dropped.
  assert (∀ k j, cache c !! k = Some j → k ≠ key → j ≠ id) as Hid.
  { intros k j Hkj Hne ->. destruct (ok_keys _ Hok k id Hkj) as (q & Hq & <- & _).
    destruct (ok_keys _ Hok key id Hk) as (q' & Hq' & <- & _). by simplify_eq. }
  split; simpl; try done.
  - intros k j [Hne Hkj]%lookup_delete_Some. rewrite lookup_alter_ne by (apply not_eq_sym; by eapply Hid).
    by apply (ok_keys _ Hok).
  - intros k j q [Hne Hkj]%lookup_delete_Some Hq.
    rewrite lookup_alter_ne in Hq by (apply not_eq_sym; by eapply Hid).
    rewrite lookup_delete_ne; [by eapply (ok_mem _ Hok)|]. intros He. apply Hne.
    by eapply (ok_distinct _ Hok key k).
  - intros k1 k2 j1 j2 q1 q2 [Hn1 H1]%lookup_delete_Some [Hn2 H2]%lookup_delete_Some Hq1 Hq2.
    rewrite lookup_alter_ne in Hq1 by (apply not_eq_sym; by eapply Hid).
    rewrite lookup_alter_ne in Hq2 by (apply not_eq_sym; by eapply Hid).
    by eapply (ok_distinct _ Hok).
  - rewrite (ok_size _ Hok). unfold cached_bytes. simpl.
    rewrite (map_sum_delete _ (cache c) key id) by done. unfold bytes_of at 1. rewrite Hp.
    assert (∀ a b, u64 (u64 a - b) = u64 (a - b)) as Hu.
    { intros a b. unfold u64. by rewrite Zminus_mod_idemp_l. }
    rewrite Hu. f_equal.
    replace (page_bytes p + _ - page_bytes p)%Z with (map_sum (λ _ id, bytes_of c id) (delete key (cache c))) by lia.
    apply map_sum_ext. intros k j [Hne Hkj]%lookup_delete_Some. unfold bytes_of. simpl.
    by rewrite lookup_alter_ne by (apply not_eq_sym; by eapply Hid).
Qed.

Lemma dropped_ok f c key id p :
  cache_ok c → cache c !! key = Some id → pages c !! id = Some p → refCount p = 0%Z → same_page p (f p) →
  cache_ok (dropped f c key id p) ∧ evicted_from c (dropped f c key id p).
Proof.
  intros Hok Hk Hp Hr Hs. split; [by apply dropped_cache_ok|]. split; simpl; try done.
  - intros j q Hq. destruct (decide (id = j)) as [<-|Hne].
    + rewrite lookup_alter_eq, Hp. simplify_eq/=. by eexists.
    + rewrite lookup_alter_ne by done. eauto using same_page_refl.
  - intros j q Hq Hrq. rewrite lookup_alter_ne; [done|]. intros ->. simplify_eq. lia.
  - intros j Hn. rewrite lookup_alter_ne; congruence.
  - intros a Hn. by apply lookup_delete_None; right.
  - intros k j [_ Hkj]%lookup_delete_Some. done.
  - intros k j q Hkj Hq Hrq. apply lookup_delete_Some. split; [|done]. intros <-. simplify_eq. lia.
Qed.

(** Two states that agree on what eviction looks at. *)
Lemma evicted_ext c c' :
  cache c' = cache c → pages c' = pages c → sets c' = sets c → strategy c' = strategy c →
  evictStopSize c' = evictStopSize c → priorityList c' = priorityList c → accessCount c' = accessCount c →
  evictionMutex c' = evictionMutex c → cacheMutex c' = cacheMutex c → rw c' = rw c → inEvict c' = inEvict c →
  shm c' = shm c → evicted_from c c'.
Proof.
  intros Ec Ep Es ? ? ? ? ? ? ? ? Em. split; rewrite ?Ec, ?Ep, ?Es, ?Em; eauto using same_page_refl.
Qed.

(** A step that preserves the table and only evicts. *)
Definition evicts c c' : Prop := cache_ok c' ∧ evicted_from c c'.

Lemma evicts_trans c c' c'' : evicts c c' → evicts c' c'' → evicts c c''.
Proof. intros [_ H] [? H']. split; [done|]. by eapply evicted_trans. Qed.

Lemma evicts_ext c c1 c2 :
  evicts c c1 → cache c2 = cache c1 → pages c2 = pages c1 → sets c2 = sets c1 → strategy c2 = strategy c1 →
  evictStopSize c2 = evictStopSize c1 → priorityList c2 = priorityList c1 → accessCount c2 = accessCount c1 →
  evictionMutex c2 = evictionMutex c1 → cacheMutex c2 = cacheMutex c1 → rw c2 = rw c1 →
  inEvict c2 = inEvict c1 → shm c2 = shm c1 → cacheSize c2 = cacheSize c1 →
  evicts c c2.
Proof.
  intros Hc E1 E2 E3 E4 E5 E6 E7 E8 E9 E10 E11 E12 E13. eapply evicts_trans; [exact Hc|]. destruct Hc as [Hok _]. split.
  - by apply (cache_ok_same c1).
  - by apply evicted_ext.
Qed.

(** Whether [evictPage] finds a page nobody references. *)
Definition evictable_key c (key : CacheKey) : bool :=
  match cache c !! key ≫= λ id, pages c !! id with Some p => negb (0 <? refCount p)%Z | None => false end.

(** A page [evictPage] can drop at once. *)
Definition clean_victim c (key : CacheKey) : Prop :=
  ∃ id p, cache c !! key = Some id ∧ pages c !! id = Some p ∧ refCount p = 0%Z ∧ dirty p = false ∧
    inFlush p = false.

(** [evictPage] takes exactly the pages nobody references, and drops the clean
    ones. *)
Lemma evictPage_total c key try :
  cache_ok c → cacheMutex c = false → rw c = Unlocked →
  ∃ c', evictPage key try c = (Ret (evictable_key c key), c') ∧ evicts c c' ∧
    (clean_victim c key → cache c' !! key = None).
Proof.
  intros Hok Hm Hrw. unfold evictPage, evictable_key. run.
  destruct (cache c !! key) as [id|] eqn:Hk; simpl;
    [|by eexists; split; [done|split; [split; [done|apply evicted_refl]|done]]].
  destruct (ok_keys _ Hok key id Hk) as (p & Hp & Hkey & Hr0). rewrite Hp. unfold get_page. run. rewrite Hp. run.
  destruct (0 <? refCount p)%Z eqn:Hr; simpl.
  { eexists. split; [done|]. split; [split; [done|apply evicted_refl]|].
    intros (j & q & Hj & Hq & Hrq & _). simplify_eq. apply Z.ltb_lt in Hr. lia. }
  assert (refCount p = 0%Z) as Hr' by (apply Z.ltb_ge in Hr; lia).
  destruct (try && dirty p && negb (inFlush p) && flushable p) eqn:Hfl.
  - apply andb_true_iff in Hfl as [[[_ Hd]%andb_true_iff _]%andb_true_iff _].
    unfold upd_page, count_stat. run. eexists. split; [done|].
    split; [|intros (j & q & Hj & Hq & _ & Hdq & _); congruence].
    eapply (evicts_ext _ (set_pages (alter (λ p, setInEviction (setInFlush p true) true ) id
      (alter (λ p, setPinned p false) id (pages c))) c)); [|done..].
    rewrite alter_alter_eq. apply (upd_page_ok c id p); [done|done|done| |done]. split; simpl; (done || congruence).
  - destruct (inFlush p) eqn:Hif.
    + unfold upd_page, count_stat. run. eexists. split; [done|].
      split; [|intros (j & q & Hj & Hq & _ & _ & Hfq); congruence].
      eapply (evicts_ext _ (set_pages (alter (λ p, setInEviction p true) id
        (alter (λ p, setPinned p false) id (pages c))) c)); [|done..].
      rewrite alter_alter_eq. by apply (upd_page_ok c id p).
    + unfold upd_page at 1. run. unfold flushLock. run. cbn [rw set_pages]. rewrite Hrw. run.
      unfold release_page, get_page. run. cbn [pages set_rw set_pages]. rewrite lookup_alter_eq, Hp. run.
      unfold shm_free. run. cbn [shm set_rw set_pages fmap option_fmap option_map].
      pose proof (ok_mem _ Hok key id p Hk Hp) as Hmem. unfold base_of in Hmem.
      change (rawBytes (setPinned p false) - internalOffset (setPinned p false))%Z with (rawBytes p - internalOffset p)%Z.
      run. cbn [shm set_rw set_pages]. rewrite Hmem. unfold upd_page. run.
      erewrite (removePage_eq _ key id); [|done|done|cbn [pages set_pages set_shm set_rw]; by rewrite lookup_alter_eq, lookup_alter_eq, Hp].
      run. unfold flushUnlock, rw_unlock, count_stat. run.
      eexists. split; [done|]. split; [|intros _; apply lookup_delete_eq].
      eapply (evicts_ext _ (dropped (λ p, setRawBytes (setOffset (setPinned p false) 0) 0) c key id p));
        [by apply dropped_ok|try done..].
      unfold dropped. cbn. by rewrite alter_alter_eq.
Qed.

(** Changing a set that stays a set. *)
Lemma evicts_set c c1 f sid : evicts c c1 → evicts c (set_sets (alter f sid (sets c1)) c1).
Proof.
  intros Hc. eapply evicts_trans; [exact Hc|]. destruct Hc as [Hok _].
  split; [by apply (cache_ok_same c1)|]. split; simpl; eauto using same_page_refl.
  intros sid' [s Hs]. destruct (decide (sid = sid')) as [<-|Hne].
  - rewrite lookup_alter_eq, Hs. by eexists.
  - rewrite lookup_alter_ne by done. by eexists.
Qed.

Lemma evictPageOf_total c id p set :
  cache_ok c → cacheMutex c = false → rw c = Unlocked → pages c !! id = Some p →
  ∃ c', evictPageOf id set c = (Ret (evictable_key c (page_key p)), c') ∧ evicts c c' ∧
    (clean_victim c (page_key p) → cache c' !! page_key p = None).
Proof.
  intros Hok Hm Hrw Hp. unfold evictPageOf, get_page. run. rewrite Hp. run.
  destruct (evictPage_total c (page_key p) true Hok Hm Hrw) as (c1 & -> & Hc1 & Hcl). run.
  destruct set as [sid|]; run; [|by eexists].
  destruct (evictable_key c (page_key p)); run; [|by eexists].
  unfold upd_set. run. case_decide; run; eexists; (split; [done|]); split; try done.
  - by apply evicts_set, evicts_set.
  - by apply evicts_set.
Qed.

(** What an eviction needs of the state it starts in, and keeps. *)
Definition evict_ready c : Prop := cache_ok c ∧ cacheMutex c = false ∧ rw c = Unlocked.

Lemma evict_ready_kept c c' : evict_ready c → evicts c c' → evict_ready c'.
Proof. intros (_ & Hm & Hr) [Hok [L]]. unfold evict_ready. destruct L as (_ & -> & -> & _). done. Qed.

Lemma evicts_refl c : cache_ok c → evicts c c.
Proof. split; [done|apply evicted_refl]. Qed.

Lemma evicts_live c c' id : evicts c c' → is_Some (pages c !! id) → is_Some (pages c' !! id).
Proof. intros [_ H] [p Hp]. destruct (ev_same _ _ H id p Hp) as (p' & -> & _). by eexists. Qed.

Lemma evict_all_total ids set c :
  evict_ready c → (∀ id, id ∈ ids → is_Some (pages c !! id)) →
  ∃ n c', evict_all ids set c = (Ret n, c') ∧ evicts c c'.
Proof.
  revert c. induction ids as [|id ids IH]; intros c Hc Hids; simpl.
  { eexists _, _. split; [done|]. by apply evicts_refl, Hc. }
  destruct (Hids id) as [p Hp]; [by constructor|].
  destruct (evictPageOf_total c id p set) as (c1 & E1 & Hc1 & _); [apply Hc..|done|].
  run. rewrite E1. run.
  destruct (IH c1) as (n & c2 & -> & Hc2).
  { by eapply evict_ready_kept. }
  { intros j Hj. eapply evicts_live; [exact Hc1|]. apply Hids. by constructor. }
  run. eexists _, _. split; [done|]. by eapply evicts_trans.
Qed.

(** A clean page stays one until it is dropped. *)
Lemma clean_victim_kept c c' key : evicts c c' → clean_victim c key → clean_victim c' key ∨ cache c' !! key = None.
Proof.
  intros [Hok H] (id & p & Hk & Hp & Hr & Hd & Hf).
  destruct (cache c' !! key) as [j|] eqn:Hj; [left|by right].
  pose proof (ev_cache _ _ H key j Hj) as Hj'. simplify_eq.
  destruct (ev_same _ _ H id p Hp) as (p' & Hp' & [_ Er _ Ed Ef]).
  exists id, p'. rewrite Er, Ed, Ef by done. done.
Qed.

Lemma gone_kept c c' key : evicts c c' → cache c !! key = None → cache c' !! key = None.
Proof.
  intros [_ H] Hn. destruct (cache c' !! key) as [j|] eqn:Hj; [|done].
  pose proof (ev_cache _ _ H key j Hj). congruence.
Qed.

(** The eviction of a queue ends below the threshold, or has dropped every
    clean page of the queue. *)
Lemma evict_queue_total ids c :
  evict_ready c → (∀ id, id ∈ ids → is_Some (pages c !! id)) →
  ∃ c', evict_queue ids c = (Ret tt, c') ∧ evicts c c' ∧
    ((cacheSize c' ≤ evictStopSize c')%Z ∨
     ∀ id p, id ∈ ids → pages c !! id = Some p → clean_victim c (page_key p) → cache c' !! page_key p = None).
Proof.
  revert c. induction ids as [|id ids IH]; intros c Hc Hids; simpl.
  { eexists. split; [done|]. split; [by apply evicts_refl, Hc|]. right. by intros ? ? ?%elem_of_nil. }
  run. destruct (evictStopSize c <? cacheSize c)%Z eqn:Hsz.
  2: { eexists. split; [done|]. split; [by apply evicts_refl, Hc|]. left. by apply Z.ltb_ge. }
  destruct (Hids id) as [p Hp]; [by constructor|].
  destruct (evictPageOf_total c id p None) as (c1 & E1 & Hc1 & Hcl); [apply Hc..|done|].
  run. rewrite E1. run.
  destruct (IH c1) as (c2 & -> & Hc2 & Hend).
  { by eapply evict_ready_kept. }
  { intros j Hj. eapply evicts_live; [exact Hc1|]. apply Hids. by constructor. }
  eexists. split; [done|]. split; [by eapply evicts_trans|].
  destruct Hend as [Hend|Hend]; [by left|right]. intros j q [->|Hj]%elem_of_cons Hq Hcv.
  - simplify_eq. eapply gone_kept; [exact Hc2|auto].
  - destruct (clean_victim_kept _ _ _ Hc1 Hcv) as [Hcv'|Hn]; [|by eapply gone_kept].
    destruct (ev_same _ _ (proj2 Hc1) j q Hq) as (q' & Hq' & Hs). rewrite <- (sp_key _ _ Hs) in *.
    by apply (Hend j q').
Qed.

(** Running with another state of the read-write lock. *)
Lemma evicts_rw r c c' : evicts (set_rw r c) c' → evicts c (set_rw (rw c) c').
Proof.
  intros [Hok H]. split; [by apply (cache_ok_same c')|].
  destruct H as [L C S P R N A K D]. split; try done.
  simpl in *. by destruct L as (? & ? & ? & ?).
Qed.

Lemma selected_live c s ids id :
  selectPagesForReplacement (pages c) s = Some ids → id ∈ ids → is_Some (pages c !! id).
Proof.
  unfold selectPagesForReplacement. destruct (cachedPages s) eqn:Es; [done|].
  destruct (select_pages _ _ _ _) eqn:E; [done|]. intros [= <-] Hin. rewrite <- E in Hin.
  apply select_pages_elem in Hin as [_ Hu]. unfold unreferenced in Hu. by destruct (pages c !! id).
Qed.

Lemma evict_sets_total sids c :
  cache_ok c → cacheMutex c = false → rw c = WriteHeld → (∀ sid, sid ∈ sids → is_Some (sets c !! sid)) →
  ∃ c', evict_sets sids c = (Ret tt, c') ∧ evicts c c'.
Proof.
  revert c. induction sids as [|sid sids IH]; intros c Hok Hm Hrw Hs; simpl.
  { eexists. split; [done|]. by apply evicts_refl. }
  destruct (Hs sid) as [s Hsid]; [by constructor|].
  unfold get_set. run. rewrite Hsid. run.
  destruct (selectPagesForReplacement (pages c) s) as [ids|] eqn:Hsel.
  2: { apply IH; [done..|]. intros j Hj. apply Hs. by constructor. }
  unfold evictionUnlock at 1, rw_unlock. run. rewrite Hrw. run.
  destruct (evict_all_total ids (Some sid) (set_rw Unlocked c)) as (n & c1 & -> & Hc1).
  { split; [by apply (cache_ok_same c)|done]. }
  { intros id Hid. by eapply selected_live. }
  run. unfold evictionLock. run.
  assert (rw c1 = Unlocked ∧ cacheMutex c1 = false) as [-> Hm1].
  { destruct Hc1 as [_ [L]]. by destruct L as (_ & -> & -> & _). }
  run. apply evicts_rw in Hc1. rewrite Hrw in Hc1.
  case_decide; run; [by eexists|].
  destruct (IH (set_rw WriteHeld c1)) as (c2 & -> & Hc2); [apply Hc1|done..| |].
  { intros j Hj. apply (ev_sets _ _ (proj2 Hc1)). apply Hs. by constructor. }
  eexists. split; [done|]. by eapply evicts_trans.
Qed.

(** Every set of the priority lists exists. *)
Definition sets_known c : Prop := ∀ l sid, l ∈ priorityList c → sid ∈ l → is_Some (sets c !! sid).

Lemma sets_known_kept c c' : sets_known c → evicts c c' → sets_known c'.
Proof.
  intros Hs [_ H] l sid Hl Hsid. destruct (ev_config _ _ H) as (_ & _ & E & _). rewrite E in Hl.
  apply (ev_sets _ _ H). by eapply Hs.
Qed.

Lemma cached_objects_elem c id p :
  (id, p) ∈ cached_objects c ↔ ∃ key, cache c !! key = Some id ∧ pages c !! id = Some p.
Proof.
  unfold cached_objects. rewrite list_elem_of_omap. split.
  - intros ([key j] & Hkj & E). apply elem_of_map_to_list in Hkj. simpl in E.
    destruct (pages c !! j) as [q|] eqn:Hq; simplify_eq/=. eauto.
  - intros (key & Hk & Hp). exists (key, id). split; [by apply elem_of_map_to_list|].
    simpl. by rewrite Hp.
Qed.

Lemma cost_candidates_known c sid : sid ∈ cost_candidates c → is_Some (sets c !! sid).
Proof.
  unfold cost_candidates, has_victim. intros [H _]%list_elem_of_filter. by destruct (sets c !! sid).
Qed.

(** The queue of the page-level strategies. *)
Definition page_queue c : list Z :=
  (merge_sort mru_first (filter (λ ip, evictable ip.2 = true) (cached_objects c))).*1.

Lemma page_queue_elem c id :
  id ∈ page_queue c ↔ ∃ key p, cache c !! key = Some id ∧ pages c !! id = Some p ∧ evictable p = true.
Proof.
  unfold page_queue. rewrite list_elem_of_fmap. setoid_rewrite merge_sort_Permutation.
  setoid_rewrite list_elem_of_filter. split.
  - intros ([j p] & -> & Hev & (key & Hk & Hp)%cached_objects_elem). eauto.
  - intros (key & p & Hk & Hp & Hev). exists (id, p). rewrite cached_objects_elem. eauto.
Qed.

Lemma clean_evictable p : refCount p = 0%Z → dirty p = false → evictable p = true.
Proof. unfold evictable. by intros -> ->. Qed.

(** The state in which [evict] starts its work. *)
Lemma idle_evict_ready c : cache_ok c → idle c → evict_ready (set_inEvict true (set_evictionMutex true c)).
Proof. intros Hok (? & ? & ? & ?). split; [by apply (cache_ok_same c)|done]. Qed.

Lemma evicts_finish c c' :
  idle c → evicts (set_inEvict true (set_evictionMutex true c)) c' →
  evictionMutex c' = true ∧ evicts c (set_evictionMutex false (set_inEvict false c')).
Proof.
  intros (E1 & E2 & E3 & E4) [Hok H]. destruct H as [L C S P R N A K D]. simpl in *.
  destruct L as (L1 & L2 & L3 & L4). split; [done|]. split; [by apply (cache_ok_same c')|].
  by split.
Qed.

(** The work of the strategies that choose sets. *)
Lemma sets_work (sids : PageCache → list Z) c :
  evict_ready c → (∀ sid, sid ∈ sids (set_rw WriteHeld c) → is_Some (sets c !! sid)) →
  ∃ c1, (evictionLock ;; c1 ← get; evict_sets (sids c1) ;; evictionUnlock) c = (Ret tt, c1) ∧ evicts c c1.
Proof.
  intros (Hok & Hm & Hrw) Hs. unfold evictionLock. run. rewrite Hrw. run.
  destruct (evict_sets_total (sids (set_rw WriteHeld c)) (set_rw WriteHeld c)) as (c1 & -> & Hc1); [|done..|].
  { by apply (cache_ok_same c). }
  unfold evictionUnlock, rw_unlock. run.
  destruct (ev_locks _ _ (proj2 Hc1)) as (_ & _ & -> & _). cbn [rw set_rw]. run.
  eexists. split; [done|]. apply evicts_rw in Hc1. by rewrite Hrw in Hc1.
Qed.

(** The work of the strategies that choose pages. *)
Lemma pages_work c :
  evict_ready c →
  ∃ c1, (evictionLock ;; c1 ← get; evictionUnlock ;; evict_queue (page_queue c1)) c = (Ret tt, c1) ∧
    evicts c c1 ∧
    ((cacheSize c1 ≤ evictStopSize c)%Z ∨ ∀ key, clean_victim c key → cache c1 !! key = None).
Proof.
  intros Hr. pose proof Hr as (Hok & Hm & Hrw). unfold evictionLock, evictionUnlock, rw_unlock. run. rewrite Hrw. run.
  assert (set_rw Unlocked (set_rw WriteHeld c) = c) as -> by (destruct c; cbn in Hrw; by subst).
  change (page_queue (set_rw WriteHeld c)) with (page_queue c).
  destruct (evict_queue_total (page_queue c) c) as (c1 & E & Hc1 & Hend); [done| |].
  { intros id (key & p & _ & Hp & _)%page_queue_elem. by exists p. }
  exists c1. split; [done|]. split; [done|]. destruct (ev_config _ _ (proj2 Hc1)) as (_ & Ev & _).
  destruct Hend as [Hend|Hend]; [left; congruence|right].
  intros key (id & p & Hk & Hp & Href & Hd & Hf).
  destruct (ok_keys _ Hok key id Hk) as (p' & Hp' & <- & _). assert (p' = p) as -> by congruence.
  apply (Hend id p); [|done|by exists id, p]. apply page_queue_elem.
  exists (page_key p), p. auto using clean_evictable.
Qed.

Lemma evict_total order c :
  cache_ok c → idle c → strategy c ≠ UnifiedDBMIN → sets_known c → (∀ l, order l ≡ₚ l) →
  ∃ c', evict order c = (Ret tt, c') ∧ evicts c c' ∧
    (strategy c = UnifiedLRU ∨ strategy c = UnifiedMRU →
     (cacheSize c' ≤ evictStopSize c)%Z ∨ ∀ key, clean_victim c key → cache c' !! key = None).
Proof.
  intros Hok Hid Hst Hks Hord. pose proof (idle_evict_ready c Hok Hid) as Hready.
  pose proof (evicts_finish c) as Hfin.
  pose proof (sets_work (λ c1, order (cost_candidates c1)) _ Hready) as Hcost.
  pose proof (sets_work (λ c1, concat (priorityList c1)) _ Hready) as Hint.
  pose proof (pages_work _ Hready) as Hpages. fold page_queue in *.
  pose proof Hid as (E1 & E2 & E3 & E4). unfold evict. run. rewrite E4. unfold lock_evictionMutex. run. rewrite E1. run.
  set (c0 := set_inEvict true (set_evictionMutex true c)) in *. change (strategy c0) with (strategy c).
  assert (∀ (w : PC unit) c1, w c0 = (Ret tt, c1) → evicts c0 c1 →
    (w ;; modify (set_inEvict false) ;; unlock_evictionMutex) c0 =
    (Ret tt, set_evictionMutex false (set_inEvict false c1))) as Hrun.
  { intros w c1 E Hc1. destruct (Hfin c1 Hid Hc1) as [Hm _]. run. rewrite E. run.
    unfold unlock_evictionMutex. cbn [evictionMutex set_inEvict]. by rewrite Hm. }
  destruct (strategy c) eqn:Hs; [| | | |done].
  - destruct Hpages as (c1 & E & Hc1 & Hend). eexists. split; [by apply Hrun|]. split; [by apply Hfin|auto].
  - destruct Hpages as (c1 & E & Hc1 & Hend). eexists. split; [by apply Hrun|]. split; [by apply Hfin|auto].
  - destruct Hcost as (c1 & E & Hc1); [intros sid; rewrite Hord; by intros ?%cost_candidates_known|].
    eexists. split; [by apply Hrun|]. split; [by apply Hfin|]. by intros [|].
  - destruct Hint as (c1 & E & Hc1); 
      [intros sid (l & Hl%list_elem_of_In & ?%list_elem_of_In)%list_elem_of_In%in_concat; by apply (Hks l)|].
    eexists. split; [by apply Hrun|]. split; [by apply Hfin|]. by intros [|].
Qed.

(** Entering a page whose block is a fresh one of the pool. *)
Lemma cache_ok_insert c c' key id p :
  cache_ok c → cache c !! key = None → pages c !! id = None → shm c !! base_of p = None →
  page_key p = key → (0 ≤ refCount p)%Z →
  cache c' = <[key := id]> (cache c) → pages c' = <[id := p]> (pages c) →
  shm c' = <[base_of p := page_bytes p]> (shm c) → cacheSize c' = u64 (cacheSize c + page_bytes p) →
  cache_ok c'.
Proof.
  intros Hok Hk Hid Hb Hkey Hr Ec Ep Es Ez.
  assert (∀ k j, cache c !! k = Some j → j ≠ id ∧ k ≠ key) as Hne.
  { intros k j Hkj. destruct (ok_keys _ Hok k j Hkj) as (q & Hq & _). split; congruence. }
  split; rewrite ?Ec, ?Ep, ?Es.
  - intros k j [[<- <-]|[_ Hkj]]%lookup_insert_Some.
    + exists p. by rewrite lookup_insert_eq.
    + rewrite lookup_insert_ne by (apply not_eq_sym; by eapply Hne). by apply (ok_keys _ Hok).
  - intros k j q [[<- <-]|[_ Hkj]]%lookup_insert_Some.
    + rewrite lookup_insert_eq. intros [= <-]. apply lookup_insert_eq.
    + rewrite lookup_insert_ne by (apply not_eq_sym; by eapply Hne). intros Hq.
      pose proof (ok_mem _ Hok k j q Hkj Hq). rewrite lookup_insert_ne by congruence. done.
  - assert (∀ k j q, cache c !! k = Some j → pages c !! j = Some q → base_of q ≠ base_of p) as Hbne.
    { intros k j q Hkj Hq He. pose proof (ok_mem _ Hok k j q Hkj Hq). congruence. }
    intros k1 k2 j1 j2 q1 q2 [[<- <-]|[Hk1 H1]]%lookup_insert_Some [[<- <-]|[Hk2 H2]]%lookup_insert_Some; [done|..].
    + rewrite lookup_insert_eq, lookup_insert_ne by (apply not_eq_sym; by eapply Hne).
      intros [= <-] Hq2 He. by destruct (Hbne _ _ _ H2 Hq2).
    + rewrite lookup_insert_eq, lookup_insert_ne by (apply not_eq_sym; by eapply Hne).
      intros Hq1 [= <-] He. by destruct (Hbne _ _ _ H1 Hq1).
    + rewrite !lookup_insert_ne by (apply not_eq_sym; by eapply Hne). by apply (ok_distinct _ Hok).
  - rewrite Ez, (ok_size _ Hok). unfold cached_bytes. rewrite Ec, map_sum_insert by done.
    unfold bytes_of at 2. rewrite Ep, lookup_insert_eq. unfold u64. rewrite Zplus_mod_idemp_l, Z.add_comm.
    f_equal. f_equal. apply map_sum_ext. intros k j Hkj. unfold bytes_of.
    by rewrite Ep, lookup_insert_ne by (apply not_eq_sym; by eapply Hne).
Qed.

(** An empty cache. *)
Definition PageCache_empty (st : CacheStrategy) (stop : Z) (ss : gmap Z LocalitySet) : PageCache :=
  MkPageCache ∅ ∅ ss 0 stop 0 false (replicate 6 []) st [] (MkStats 0 0 0 0) ∅ false false Unlocked 0.

Lemma empty_ok st stop ss : cache_ok (PageCache_empty st stop ss).
Proof. split; done. Qed.

(** ** Allocation *)

Lemma addressRoundUp_pow2 a k :
  (0 ≤ k < 64 → 0 < a → a + 2 ^ k ≤ u64_modulus → addressRoundUp a (2 ^ k) = (a + 2 ^ k - 1) / 2 ^ k * 2 ^ k)%Z.
Proof.
  intros Hk Ha Hm. unfold addressRoundUp. rewrite u64_small by word_lia.
  replace (a + (2 ^ k - 1))%Z with (a + 2 ^ k - 1)%Z by lia.
  assert (0 < 2 ^ k)%Z by (apply Z.pow_pos_nonneg; lia).
  assert (0 < a + 2 ^ k - 1 < u64_modulus)%Z as Hx by lia. set (x := (a + 2 ^ k - 1)%Z) in *. clearbody x.
  assert (u64_modulus - 1 - (2 ^ k - 1) = Z.ldiff (Z.ones 64) (Z.ones k))%Z as ->.
  { rewrite <- Z.sub_nocarry_ldiff.
    { rewrite (Z.ones_equiv k). change (Z.ones 64) with (u64_modulus - 1)%Z. lia. }
    apply Z.bits_inj'. intros n Hn. rewrite Z.ldiff_spec, Z.bits_0.
    destruct (decide (n < k)%Z).
    - rewrite (Z.ones_spec_low 64) by lia. by rewrite andb_false_r.
    - by rewrite Z.ones_spec_high by lia. }
  rewrite <- Z.shiftl_mul_pow2, <- Z.shiftr_div_pow2 by lia. apply Z.bits_inj'. intros n Hn.
  rewrite Z.land_spec, Z.ldiff_spec, Z.shiftl_spec by done.
  destruct (decide (n < k)%Z).
  - rewrite (Z.ones_spec_low 64), (Z.ones_spec_low k), (Z.testbit_neg_r _ (n - k)) by lia. by rewrite andb_false_r.
  - rewrite Z.shiftr_spec, (Z.ones_spec_high k) by lia. replace (n - k + k)%Z with n by lia.
    destruct (decide (n < 64)%Z).
    + rewrite Z.ones_spec_low by lia. by rewrite andb_true_r.
    + rewrite Z.ones_spec_high, andb_false_r by lia. symmetry.
      apply Z.bits_above_log2; [lia|]. apply Z.log2_lt_pow2; [lia|].
      apply Z.lt_le_trans with (2 ^ 64)%Z; [unfold u64_modulus in Hx; lia|]. apply Z.pow_le_mono_r; lia.
Qed.

Lemma addressRoundUp_bounds a k :
  (0 ≤ k < 64 → 0 < a → a + 2 ^ k ≤ u64_modulus →
   (2 ^ k | addressRoundUp a (2 ^ k)) ∧ a ≤ addressRoundUp a (2 ^ k) < a + 2 ^ k)%Z.
Proof.
  intros Hk Ha Hm. rewrite addressRoundUp_pow2 by done.
  assert (0 < 2 ^ k)%Z by (apply Z.pow_pos_nonneg; lia).
  split; [by eexists|].
  pose proof (Z.div_mod (a + 2 ^ k - 1) (2 ^ k) ltac:(lia)).
  pose proof (Z.mod_pos_bound (a + 2 ^ k - 1) (2 ^ k) ltac:(lia)). lia.
Qed.

Lemma idle_kept c c' : idle c → evicts c c' → idle c'.
Proof.
  intros Hid [_ Hev]. destruct (ev_locks _ _ Hev) as (E1 & E2 & E3 & E4).
  unfold idle. rewrite E1, E2, E3, E4. done.
Qed.

Lemma strategy_kept c c' : evicts c c' → strategy c' = strategy c.
Proof. intros [_ H]. apply (ev_config _ _ H). Qed.

(** Allocation waits, evicting, until the pool has a block. *)
Lemma allocate_blocking_total order n r rs size c :
  cache_ok c → idle c → strategy c ≠ UnifiedDBMIN → sets_known c → (∀ l, order l ≡ₚ l) →
  (0 < r)%Z → (r + 512 ≤ u64_modulus)%Z →
  ∃ c1, allocate_blocking order (replicate n 0%Z ++ r :: rs) size c =
    (Ret (Some (addressRoundUp r 512, addressRoundUp r 512 - r)%Z),
     set_shm (<[r := (size + 512)%Z]> (shm c1)) c1) ∧ evicts c c1.
Proof.
  intros Hok Hid Hst Hks Hord Hr Hm. revert c Hok Hid Hst Hks.
  induction n as [|n IH]; intros c Hok Hid Hst Hks; simpl.
  - exists c. split; [|by apply evicts_refl].
    pose proof (addressRoundUp_bounds r 9 ltac:(lia) Hr Hm) as [_ Hb]. change (2 ^ 9)%Z with 512%Z in Hb.
    run. unfold mallocAlign. destruct (r =? 0)%Z eqn:E; [lia|]. cbn [fst].
    destruct (addressRoundUp r 512 =? 0)%Z eqn:E'; [lia|]. done.
  - run. unfold mallocAlign. simpl. run. pose proof Hid as (_ & _ & _ & Hev). rewrite Hev.
    destruct (evict_total order c Hok Hid Hst Hks Hord) as (c1 & -> & Hc1 & _).
    destruct (IH c1) as (c2 & -> & Hc2); [apply Hc1|by eapply idle_kept|by erewrite strategy_kept|by eapply sets_known_kept|].
    exists c2. split; [done|]. by eapply evicts_trans.
Qed.

(** Two caches that differ in the bookkeeping of access numbers, statistics and
    the pages listed by the sets. *)
Definition new_page base node key size r seq : PDBPage :=
  incRefCount (setDirty (setPinned (setAccessSequenceId
    (key_page base node key size (addressRoundUp r 512, addressRoundUp r 512 - r)%Z) seq) true) true).

(** The end of the list of set [sid] after [cachePage]. *)
Definition listed (set : option Z) (id : Z) c c' : Prop :=
  match set with
  | Some sid => cachedPages <$> sets c' !! sid = (λ l, l ++ [id]) ∘ cachedPages <$> sets c !! sid
  | None => sets c' = sets c
  end.

(** [cachePage] of a page with a new key. *)
Lemma cachePage_new id set p c :
  cacheMutex c = false → strategy c ≠ UnifiedDBMIN → pages c !! id = Some p → cache c !! page_key p = None →
  ∃ c', cachePage id set c = (Ret tt, c') ∧
    cache c' = <[page_key p := id]> (cache c) ∧ cacheSize c' = u64 (cacheSize c + page_bytes p) ∧
    pages c' = pages c ∧ shm c' = shm c ∧
    evictionMutex c' = evictionMutex c ∧ cacheMutex c' = false ∧ rw c' = rw c ∧ inEvict c' = inEvict c ∧
    listed set id c c'.
Proof.
  intros Hm Hst Hp Hk. unfold cachePage, get_page. run. rewrite Hp. run. unfold lock_cacheMutex. run. rewrite Hm. run.
  unfold containsPage. cbn [cache set_cacheMutex]. rewrite Hk. rewrite bool_decide_false by by intros [].
  unfold count_stat, upd_set. run.
  destruct set as [sid|]; run.
  - cbn [strategy set_cache set_cacheSize set_cacheMutex]. rewrite decide_False by done. run.
    unfold unlock_cacheMutex. run. eexists. split; [done|]. simpl. split_and!; try done.
    rewrite lookup_alter_eq. by destruct (sets c !! sid).
  - unfold unlock_cacheMutex. run. eexists. split; [done|]. by split_and!.
Qed.

Lemma new_page_facts base node key size r seq :
  page_key (new_page base node key size r seq) = key ∧ base_of (new_page base node key size r seq) = r ∧
  page_bytes (new_page base node key size r seq) = (size + 512)%Z ∧ refCount (new_page base node key size r seq) = 1%Z ∧
  dirty (new_page base node key size r seq) = true ∧ rawBytes (new_page base node key size r seq) = addressRoundUp r 512.
Proof. destruct key as [[[? ?] ?] ?]. unfold base_of. simpl. split_and!; (done || lia). Qed.

Lemma install_new_page_total id node key set size r c :
  cache_ok c → idle c → strategy c ≠ UnifiedDBMIN →
  cache c !! key = None → pages c !! id = None → shm c !! r = None →
  let c1 := set_shm (<[r := (size + 512)%Z]> (shm c)) c in
  ∃ c', install_new_page id node key set size (addressRoundUp r 512, addressRoundUp r 512 - r)%Z c1 = (Ret tt, c') ∧
    idle c' ∧ cache_ok c' ∧ cache c' = <[key := id]> (cache c) ∧
    pages c' = <[id := new_page (memPool c) node key size r (accessCount c)]> (pages c) ∧ listed set id c c'.
Proof.
  intros Hok (E1 & E2 & E3 & E4) Hst Hk Hid Hr c1. unfold install_new_page, make_page, touch, upd_page. run.
  set (d := (addressRoundUp r 512, addressRoundUp r 512 - r)%Z).
  unfold lock_evictionMutex, evictionLock. run. cbn [evictionMutex set_pages set_accessCount set_shm c1]. rewrite E1. run.
  cbn [rw set_pages set_accessCount set_shm c1 set_evictionMutex]. rewrite E3. run.
  match goal with |- context [cachePage id set ?x] => set (c2 := x) end.
  set (p := setDirty (setPinned (setAccessSequenceId (key_page (memPool c) node key size d) (accessCount c)) true) true).
  assert (page_key p = key) as Hpk by by destruct key as [[[? ?] ?] ?].
  assert (pages c2 = <[id := p]> (pages c)) as Hp2.
  { subst c2. cbn. by rewrite !alter_insert_eq. }
  destruct (cachePage_new id set p c2) as (c3 & -> & F1 & F2 & F3 & F4 & F5 & F6 & F7 & F8 & F9);
    [done|done|by rewrite Hp2, lookup_insert_eq|by rewrite Hpk|].
  run. unfold evictionUnlock, rw_unlock, unlock_evictionMutex. run. cbn [rw set_pages]. rewrite F7.
  change (rw c2) with WriteHeld. run. cbn [evictionMutex set_pages set_rw]. rewrite F5.
  change (evictionMutex c2) with true. run.
  destruct (new_page_facts (memPool c) node key size r (accessCount c)) as (G1 & G2 & G3 & G4 & _).
  assert (alter incRefCount id (pages c3) = <[id := new_page (memPool c) node key size r (accessCount c)]> (pages c)) as Hp3.
  { by rewrite F3, Hp2, alter_insert_eq. }
  eexists. split; [done|]. split; [|split; [|split; [|split; [done|done]]]].
  - unfold idle. cbn. rewrite F8. done.
  - apply (cache_ok_insert c _ key id (new_page (memPool c) node key size r (accessCount c))); try done.
    + by rewrite G2.
    + by rewrite G4.
    + cbn. by rewrite F1, Hpk.
    + cbn. rewrite F4, G2, G3. done.
  - cbn. by rewrite F1, Hpk.
Qed.

(** ** Getting and flushing a cached page *)

(** The page after [getPage]. *)
Definition got_page (seq : Z) (p : PDBPage) : PDBPage := setAccessSequenceId (incRefCount p) seq.

Lemma getPage_hit key set id p c :
  cache_ok c → idle c → cache c !! key = Some id → pages c !! id = Some p →
  ∃ c', getPage key set c = (Ret (Some id), c') ∧ cache_ok c' ∧ idle c' ∧ cache c' = cache c ∧
    pages c' = alter (got_page (accessCount c)) id (pages c) ∧ accessCount c' = (accessCount c + 1)%Z ∧
    strategy c' = strategy c ∧ (sets_known c → sets_known c').
Proof.
  intros Hok (E1 & E2 & E3 & E4) Hk Hp. unfold getPage, lock_cacheMutex. run. rewrite E2. run.
  cbn [cache set_cacheMutex]. rewrite Hk. run. unfold unlock_cacheMutex, upd_page, touch. run.
  cbn [cacheMutex set_cacheMutex set_pages]. run. unfold upd_page, upd_set. run.
  assert (∀ c', cache c' = cache c → shm c' = shm c → cacheSize c' = cacheSize c →
    pages c' = alter (got_page (accessCount c)) id (pages c) → cache_ok c') as Hok'.
  { intros c' F1 F2 F3 F4. apply (cache_ok_same (set_pages (alter (got_page (accessCount c)) id (pages c)) c)); [|done..].
    apply (cache_ok_update c id p); try done. simpl. lia. }
  destruct set as [sid|]; run; eexists; (split; [done|]);
    (split; [apply Hok'; try done; cbn; by rewrite alter_alter_eq|]); (split; [done|]); (split; [done|]);
    (split; [cbn; by rewrite alter_alter_eq|]); (split; [done|]); (split; [done|]); [|done].
  intros Hks l j Hl Hj. cbn. destruct (Hks l j Hl Hj) as [s Hs]. destruct (decide (sid = j)) as [<-|Hne].
  - cbn in Hs. rewrite lookup_alter_eq, Hs. by eexists.
  - rewrite lookup_alter_ne by done. by eexists.
Qed.

(** Whether the flush consumer gives the page's memory back. *)
Definition flush_drops (p : PDBPage) : bool := (refCount p =? 0)%Z && inEviction p.

(** The page after the flush consumer. *)
Definition flushed_page (p : PDBPage) : PDBPage :=
  setDirty (setInFlush (if flush_drops p then setRawBytes (setOffset p 0) 0 else p) false) false.

Lemma flush_one_keep id p rest c :
  rw c = Unlocked → flushBuffer c = id :: rest → pages c !! id = Some p → flush_drops p = false →
  flush_one c = (Ret tt, set_rw Unlocked (set_pages (alter flushed_page id (pages c)) (set_flushBuffer rest c))).
Proof.
  intros Hrw Hf Hp Hd. unfold flush_one. run. rewrite Hf. run. unfold get_page. run. cbn [pages set_flushBuffer].
  rewrite Hp. run. unfold flushLock. run. cbn [rw set_flushBuffer]. rewrite Hrw. run.
  unfold flush_drops in Hd. rewrite <- andb_assoc, Hd, andb_false_r. run. unfold upd_page, flushUnlock, rw_unlock. run.
  assert (alter (λ p, setDirty (setInFlush p false) false) id (pages c) = alter flushed_page id (pages c)) as Hpg.
  { apply map_eq. intros j. destruct (decide (id = j)) as [<-|Hne].
    - rewrite !lookup_alter_eq, Hp. simpl. unfold flushed_page, flush_drops. by rewrite Hd.
    - by rewrite !lookup_alter_ne. }
  cbn [pages set_rw set_flushBuffer rw set_pages]. by rewrite Hpg.
Qed.

Lemma flush_one_drop id p rest c :
  cache_ok c → rw c = Unlocked → cacheMutex c = false → flushBuffer c = id :: rest →
  pages c !! id = Some p → cache c !! page_key p = Some id → rawBytes p ≠ 0%Z → flush_drops p = true →
  ∃ c', flush_one c = (Ret tt, c') ∧ cache_ok c' ∧ cache c' = delete (page_key p) (cache c) ∧
    pages c' = alter flushed_page id (pages c) ∧ shm c' = delete (base_of p) (shm c) ∧ flushBuffer c' = rest ∧
    evictionMutex c' = evictionMutex c ∧ cacheMutex c' = false ∧ rw c' = Unlocked.
Proof.
  intros Hok Hrw Hm Hf Hp Hk Hraw Hd. unfold flush_one. run. rewrite Hf. run. unfold get_page. run. cbn [pages set_flushBuffer].
  rewrite Hp. run. unfold flushLock. run. cbn [rw set_flushBuffer]. rewrite Hrw. run.
  unfold flush_drops in Hd. rewrite <- andb_assoc, Hd. destruct (rawBytes p =? 0)%Z eqn:Er; [lia|]. cbn [negb andb]. run.
  unfold release_page, get_page. run. cbn [pages set_rw set_flushBuffer]. rewrite Hp. run.
  pose proof (ok_mem _ Hok _ id p Hk Hp) as Hmem. unfold base_of in Hmem. unfold shm_free. run.
  cbn [shm set_rw set_flushBuffer]. rewrite Hmem. unfold upd_page. run.
  erewrite (removePage_eq _ (page_key p) id); [|done|done|cbn [pages set_pages set_shm set_rw set_flushBuffer]; by rewrite lookup_alter_eq, Hp].
  run. unfold flushUnlock, rw_unlock. run. cbn [rw set_pages set_cacheMutex set_cacheSize set_cache set_shm set_rw].
  assert (alter (λ p, setDirty (setInFlush p false) false) id (alter (λ p, setRawBytes (setOffset p 0) 0) id (pages c)) =
    alter flushed_page id (pages c)) as Hpg.
  { apply map_eq. intros j. destruct (decide (id = j)) as [<-|Hne].
    - rewrite !lookup_alter_eq, Hp. simpl. unfold flushed_page, flush_drops. by rewrite Hd.
    - by rewrite !lookup_alter_ne. }
  eexists. split; [done|]. split; [|by split_and!].
  pose proof (dropped_cache_ok flushed_page c (page_key p) id p Hok Hk Hp) as Hdr.
  by eapply cache_ok_same; [exact Hdr|..].
Qed.

(** ** Properties *)

(** [C18] [evict], under every strategy but [UnifiedDBMIN], returns with all
    locks released, keeps the table consistent (every entry a page of that key
    with a block of the pool of its own, [size] the sum of their bytes), only
    takes entries out, and neither takes out nor changes a page with a
    reference.  Under the page-level strategies it ends at the threshold or
    has dropped every clean page nobody references. *)
Theorem evict_spec order c :
  cache_ok c → idle c → strategy c ≠ UnifiedDBMIN → sets_known c → (∀ l, order l ≡ₚ l) →
  ∃ c', evict order c = (Ret tt, c') ∧ idle c' ∧ cache_ok c' ∧
    (∀ key id, cache c' !! key = Some id → cache c !! key = Some id) ∧
    (∀ key id p, cache c !! key = Some id → pages c !! id = Some p → (0 < refCount p)%Z →
       cache c' !! key = Some id ∧ pages c' !! id = Some p) ∧
    (strategy c = UnifiedLRU ∨ strategy c = UnifiedMRU →
     (cacheSize c' ≤ evictStopSize c)%Z ∨ ∀ key, clean_victim c key → cache c' !! key = None).
Proof.
  intros Hok Hid Hst Hks Hord. destruct (evict_total order c) as (c' & E & Hc' & Hend); [done..|].
  pose proof (idle_kept _ _ Hid Hc') as Hid'. destruct Hc' as [Hok' H'].
  exists c'. split; [done|]. split; [done|]. split; [done|]. split_and!; try done.
  - apply (ev_cache _ _ H').
  - intros key id p Hk Hp Hr. split; [by eapply ev_kept|by eapply ev_pinned].
Qed.

(** [C19] Under every strategy but [UnifiedDBMIN] (whose [evict] keeps a lock,
    [evict_dbmin_keeps_mutex]), in a consistent cache in which no lock is held and
    the sets of the priority lists exist, [getNewPage] of a key that is not cached
    waits, evicting, until the pool has a block; the page it returns is cached under the key, referenced once, dirty,
    aligned to 512 bytes in the pool's block, and every page that had a reference
    is still cached and unchanged. *)
Theorem getNewPage_spec order n r rs id node key set size c :
  cache_ok c → idle c → strategy c ≠ UnifiedDBMIN → sets_known c → (∀ l, order l ≡ₚ l) →
  (0 < r)%Z → (r + 512 ≤ u64_modulus)%Z →
  cache c !! key = None → pages c !! id = None → shm c !! r = None →
  ∃ c' p, getNewPage order (replicate n 0%Z ++ r :: rs) id node key set size c = (Ret (Some (Some id)), c') ∧
    idle c' ∧ cache_ok c' ∧ cache c' !! key = Some id ∧ pages c' !! id = Some p ∧
    page_key p = key ∧ refCount p = 1%Z ∧ dirty p = true ∧
    (512 | rawBytes p)%Z ∧ (r ≤ rawBytes p ∧ rawBytes p + size < r + (size + 512))%Z ∧
    shm c' !! r = Some (size + 512)%Z ∧
    (∀ key' id' q, cache c !! key' = Some id' → pages c !! id' = Some q → (0 < refCount q)%Z →
       cache c' !! key' = Some id' ∧ pages c' !! id' = Some q).
Proof.
  intros Hok Hid Hst Hks Hord Hr Hm Hk Hi Hs. unfold getNewPage, lock_evictionMutex, dbmin_room, unlock_evictionMutex.
  pose proof Hid as (E1 & _). run. rewrite E1. run. cbn [strategy set_evictionMutex].
  rewrite decide_False by done. run. unfold containsPage. cbn [cache set_evictionMutex].
  rewrite Hk, bool_decide_false by by intros []. run.
  assert (set_evictionMutex false (set_evictionMutex true c) = c) as -> by (destruct c; cbn in E1; by subst).
  cbn [evictionMutex set_evictionMutex]. run.
  destruct (allocate_blocking_total order n r rs size c) as (c1 & -> & Hc1); [done..|]. run.
  destruct (install_new_page_total id node key set size r c1) as (c2 & -> & Hi2 & Hok2 & Ec & Ep & _);
    [apply Hc1|by eapply idle_kept|by erewrite strategy_kept|by eapply gone_kept|by apply (ev_new _ _ (proj2 Hc1))|
     by apply (ev_shm _ _ (proj2 Hc1))|].
  run. destruct (new_page_facts (memPool c1) node key size r (accessCount c1)) as (G1 & G2 & G3 & G4 & G5 & G6).
  pose proof (addressRoundUp_bounds r 9 ltac:(lia) Hr Hm) as [Hal Hb].
  assert (pages c2 !! id = Some (new_page (memPool c1) node key size r (accessCount c1))) as Hp2 by (rewrite Ep; apply lookup_insert_eq).
  assert (cache c2 !! key = Some id) as Hk2 by (rewrite Ec; apply lookup_insert_eq).
  eexists c2, _. split; [done|]. split; [done|]. split; [done|]. rewrite G1, G4, G5, G6. change (2 ^ 9)%Z with 512%Z in *.
  split_and!; try done; try lia.
  - rewrite <- G2, <- G3. by eapply ok_mem.
  - intros key' id' q Hk' Hq Hrq. rewrite Ec, Ep, !lookup_insert_ne by congruence.
    split; [by eapply (ev_kept _ _ (proj2 Hc1))|by eapply (ev_pinned _ _ (proj2 Hc1))].
Qed.

(** What other threads and the holder itself may do while a page is in use:
    evict, with the queues in any order, and get pages. *)
Inductive later_call :=
| LaterEvict (order : list Z → list Z)
| LaterGet (key : CacheKey) (set : option Z).

Fixpoint run_later (calls : list later_call) : PC unit :=
  match calls with
  | [] => mret tt
  | LaterEvict order :: calls => evict order ;; run_later calls
  | LaterGet key set :: calls => getPage key set ;; run_later calls
  end.

Definition orders_ok (call : later_call) : Prop :=
  match call with LaterEvict order => ∀ l, order l ≡ₚ l | LaterGet _ _ => True end.

(** The calls that take another reference to the page of [key]. *)
Fixpoint gets_of (key : CacheKey) (calls : list later_call) : nat :=
  match calls with
  | [] => 0
  | LaterGet key' _ :: calls => if decide (key' = key) then S (gets_of key calls) else gets_of key calls
  | LaterEvict _ :: calls => gets_of key calls
  end.

(** The page after [n] calls of [getPage], the last one with sequence number [seq]. *)
Definition got_times (n : nat) (seq : Z) (p : PDBPage) : PDBPage := setAccessSequenceId (Nat.iter n incRefCount p) seq.

Lemma got_times_refs n p : refCount (Nat.iter n incRefCount p) = (refCount p + Z.of_nat n)%Z.
Proof. induction n as [|n IH]; [simpl; lia|]. rewrite Nat.iter_succ. simpl. rewrite IH. lia. Qed.

Lemma got_got_times n seq seq' p : got_page seq' (got_times n seq p) = got_times (S n) seq' p.
Proof. by destruct p. Qed.

Lemma getPage_miss key set c : idle c → cache c !! key = None → getPage key set c = (Ret None, c).
Proof.
  intros (E1 & E2 & E3 & E4) Hk. unfold getPage, lock_cacheMutex. run. rewrite E2. run. cbn [cache set_cacheMutex]. rewrite Hk.
  unfold unlock_cacheMutex. run. cbn. destruct c. cbn in *. by subst.
Qed.

Lemma run_later_ok key id p calls : ∀ n seq c,
  cache_ok c → idle c → strategy c ≠ UnifiedDBMIN → sets_known c → Forall orders_ok calls → (0 ≤ refCount p)%Z →
  cache c !! key = Some id → pages c !! id = Some (got_times (S n) seq p) →
  ∃ c' seq', run_later calls c = (Ret tt, c') ∧ cache_ok c' ∧ idle c' ∧
    cache c' !! key = Some id ∧ pages c' !! id = Some (got_times (S n + gets_of key calls) seq' p).
Proof.
  induction calls as [|call calls IH]; intros n seq c Hok Hid Hst Hks Hord Hr Hk Hp.
  { exists c, seq. cbn [gets_of]. by rewrite Nat.add_0_r. }
  apply Forall_cons in Hord as [Ho Hord].
  assert (0 < refCount (got_times (S n) seq p))%Z as Hpos by (simpl; rewrite got_times_refs; lia).
  destruct call as [order|key' set]; cbn [run_later].
  - destruct (evict_total order c) as (c2 & E2 & Hc2 & _); [done..|]. rewrite M_bind_unfold, E2.
    destruct (IH n seq c2) as (c' & seq' & H); [by apply Hc2|by eapply idle_kept|by erewrite strategy_kept|by eapply sets_known_kept|done..| | |].
    + by eapply (ev_kept _ _ (proj2 Hc2)).
    + by eapply (ev_pinned _ _ (proj2 Hc2)).
    + exists c', seq'. exact H.
  - destruct (cache c !! key') as [id'|] eqn:Hk'.
    2:{ rewrite M_bind_unfold, getPage_miss by done. destruct (IH n seq c) as (c' & seq' & H); [done..|]. exists c', seq'.
        cbn [gets_of]. rewrite decide_False by congruence. exact H. }
    destruct (ok_keys _ Hok key' id' Hk') as (q & Hq & Hqk & _).
    destruct (getPage_hit key' set id' q c Hok Hid Hk' Hq) as (c1 & E1 & Hok1 & Hid1 & Ec & Ep & _ & Es & Hks1).
    rewrite M_bind_unfold, E1. destruct (decide (key' = key)) as [->|Hne].
    + assert (id' = id) as -> by congruence.
      destruct (IH (S n) (accessCount c) c1) as (c' & seq' & H); [done|done|by rewrite Es|auto|done|done|by rewrite Ec| |].
      { by rewrite Ep, lookup_alter_eq, Hp. }
      exists c', seq'. cbn [gets_of]. rewrite decide_True by done. by rewrite Nat.add_succ_r.
    + assert (id' ≠ id) as Hid'.
      { intros ->. destruct (ok_keys _ Hok key id Hk) as (q' & Hq' & Hqk' & _). congruence. }
      destruct (IH n seq c1) as (c' & seq' & H); [done|done|by rewrite Es|auto|done|done|by rewrite Ec|by rewrite Ep, lookup_alter_ne|].
      exists c', seq'. cbn [gets_of]. rewrite decide_False by done. exact H.
Qed.

(** [C20] Under every strategy but [UnifiedDBMIN], in a consistent cache in which no
    lock is held and the listed sets exist, a page that [getPage] hands out
    survives any sequence of calls of [evict] and [getPage] that follows, as long
    as nothing takes its count down: it stays cached, with its block of the pool,
    and only its reference count, which is one up for every call that got it, and
    its sequence number have changed.  ([unpinAndEvictAllDirtyPages] and
    [UserSet::evictPages] take the count down first.) *)
Theorem getPage_survives_evict key set id p c calls :
  cache_ok c → idle c → strategy c ≠ UnifiedDBMIN → sets_known c → Forall orders_ok calls →
  cache c !! key = Some id → pages c !! id = Some p →
  ∃ c1 c2 seq, getPage key set c = (Ret (Some id), c1) ∧ run_later calls c1 = (Ret tt, c2) ∧
    accessCount c1 = (accessCount c + 1)%Z ∧ pages c1 !! id = Some (got_page (accessCount c) p) ∧ cache_ok c2 ∧ idle c2 ∧
    cache c2 !! key = Some id ∧ pages c2 !! id = Some (got_times (S (gets_of key calls)) seq p) ∧
    shm c2 !! base_of p = Some (page_bytes p).
Proof.
  intros Hok Hid Hst Hks Hord Hk Hp.
  destruct (getPage_hit key set id p c Hok Hid Hk Hp) as (c1 & E1 & Hok1 & Hid1 & Ec & Ep & Ea & Es & Hks1).
  pose proof (ok_keys _ Hok key id Hk) as (q & Hq & _ & Hr). assert (q = p) as -> by congruence.
  assert (pages c1 !! id = Some (got_page (accessCount c) p)) as Hp1 by by rewrite Ep, lookup_alter_eq, Hp.
  destruct (run_later_ok key id p calls 0 (accessCount c) c1) as (c2 & seq & E2 & Hok2 & Hid2 & Hk2 & Hp2);
    [done|done|by rewrite Es|auto|done|lia|by rewrite Ec|done|].
  exists c1, c2, seq. do 8 (split; [done|]). pose proof (ok_mem _ Hok2 key id _ Hk2 Hp2) as Hm.
  assert (∀ n s, base_of (got_times n s p) = base_of p ∧ page_bytes (got_times n s p) = page_bytes p) as Hsame.
  { intros n s. unfold got_times. induction n as [|n IH]; [done|]. rewrite Nat.iter_succ. exact IH. }
  destruct (Hsame (1 + gets_of key calls) seq) as [Hb Hs]. by rewrite Hb, Hs in Hm.
Qed.

(** [C33] One turn of the flush consumer: the page is clean and out of flush;
    if nobody references it and it is in eviction its block goes back to the
    pool and its entry leaves the table, else both stay; the table stays
    consistent. *)
Theorem flush_one_spec id p rest c :
  cache_ok c → idle c → flushBuffer c = id :: rest → pages c !! id = Some p →
  cache c !! page_key p = Some id → rawBytes p ≠ 0%Z →
  ∃ c', flush_one c = (Ret tt, c') ∧ cache_ok c' ∧ flushBuffer c' = rest ∧
    pages c' = alter flushed_page id (pages c) ∧
    cache c' = (if flush_drops p then delete (page_key p) (cache c) else cache c) ∧
    shm c' = (if flush_drops p then delete (base_of p) (shm c) else shm c) ∧
    evictionMutex c' = false ∧ cacheMutex c' = false ∧ rw c' = Unlocked.
Proof.
  intros Hok (E1 & E2 & E3 & E4) Hf Hp Hk Hraw. destruct (flush_drops p) eqn:Hd.
  - destruct (flush_one_drop id p rest c) as (c' & E & F1 & F2 & F3 & F4 & F5 & F6 & F7 & F8); [done..|].
    exists c'. rewrite F6. by do 8 (split; [done|]).
  - rewrite (flush_one_keep id p rest c) by done. eexists. split; [done|]. split; [|by do 6 (split; [done|])].
    eapply (cache_ok_same (set_pages (alter flushed_page id (pages c)) c)); [|done..].
    by apply (cache_ok_update c id p); try done; unfold flushed_page; rewrite Hd.
Qed.

(** [mallocAlign] returns a multiple of the alignment with room for
    [size] bytes inside the pool's block, and the address less the offset is
    the block, which is what the callers free. *)
Theorem mallocAlign_spec r size k c :
  (0 < r)%Z → (0 ≤ k < 64)%Z → (r + 2 ^ k ≤ u64_modulus)%Z →
  ∃ a o c', mallocAlign r size (2 ^ k) c = (Ret (a, o), c') ∧ (2 ^ k | a)%Z ∧ (r ≤ a)%Z ∧
    (a + size < r + (size + 2 ^ k))%Z ∧ shm c' = <[r := (size + 2 ^ k)%Z]> (shm c) ∧
    ∀ n, ∃ c'', shm_free (a - o) n c' = (Ret tt, c'') ∧ shm c'' = delete r (shm c).
Proof.
  intros Hr Hk Hm. destruct (addressRoundUp_bounds r k Hk Hr Hm) as [Hal Hb].
  unfold mallocAlign. destruct (r =? 0)%Z eqn:E; [lia|].
  eexists _, _, _. split; [done|]. split_and!; [done|lia|lia|done|]. intros n.
  replace (addressRoundUp r (2 ^ k) - (addressRoundUp r (2 ^ k) - r))%Z with r by lia.
  unfold shm_free. cbn [shm set_shm]. rewrite lookup_insert_eq. eexists. split; [done|]. cbn.
  by rewrite delete_insert_eq.
Qed.

Lemma active_ended_ne s : level_index (active_level s) ≠ level_index (ended_level s).
Proof. unfold active_level, ended_level. by destruct (persistenceType s), (localityType s). Qed.

(** [unpin] ends the lifetime of a set: it leaves the list of its
    lifetime, wherever it occurs there, goes to the end of the list of ended
    sets, and no other list changes. *)
Theorem unpin_set_spec sid s c :
  sets c !! sid = Some s → length (priorityList c) = 6 →
  ∃ c' active ended, unpin_set sid c = (Ret tt, c') ∧ sets c' !! sid = Some (ls_unpin s) ∧
    priorityList c !! level_index (active_level s) = Some active ∧
    priorityList c !! level_index (ended_level s) = Some ended ∧
    priorityList c' !! level_index (active_level s) = Some (filter (λ j, j ≠ sid) active) ∧
    priorityList c' !! level_index (ended_level s) = Some (ended ++ [sid]) ∧
    (∀ i, i ≠ level_index (active_level s) → i ≠ level_index (ended_level s) →
       priorityList c' !! i = priorityList c !! i).
Proof.
  intros Hs Hlen. unfold unpin_set, get_set. run. rewrite Hs. run.
  unfold upd_set, removeLocalitySetFromPriorityList, addLocalitySetToPriorityList. run.
  pose proof (active_ended_ne s) as Hne.
  assert (∀ l, level_index l < 6) as Hlt by (intros []; simpl; lia).
  destruct (lookup_lt_is_Some_2 (priorityList c) (level_index (active_level s))) as [active Ha]; [by rewrite Hlen|].
  destruct (lookup_lt_is_Some_2 (priorityList c) (level_index (ended_level s))) as [ended He]; [by rewrite Hlen|].
  eexists _, active, ended. split; [done|]. cbn [sets priorityList set_sets set_priorityList]. split_and!; try done.
  - by rewrite lookup_alter_eq, Hs.
  - by rewrite list_lookup_alter_ne, list_lookup_alter_eq, Ha by done.
  - by rewrite list_lookup_alter_eq, list_lookup_alter_ne, He by done.
  - intros i H1 H2. by rewrite !list_lookup_alter_ne by done.
Qed.

(** [pin] takes a set whose lifetime had ended off no list: after [unpin]
    and [pin] it is on the list of ended sets as well as on the list of its
    lifetime, so eviction still takes its pages first. *)
Theorem pin_keeps_ended_entry sid s policy op c :
  sets c !! sid = Some s → length (priorityList c) = 6 →
  ∃ c' active ended, (unpin_set sid ;; pin sid policy op) c = (Ret tt, c') ∧
    (lifetimeEnded <$> sets c' !! sid) = Some false ∧
    priorityList c' !! level_index (active_level s) = Some active ∧ sid ∈ active ∧
    priorityList c' !! level_index (ended_level s) = Some ended ∧ sid ∈ ended.
Proof.
  intros Hs Hlen. unfold unpin_set, pin, get_set. run. rewrite Hs. run.
  unfold upd_set, removeLocalitySetFromPriorityList, addLocalitySetToPriorityList. run.
  pose proof (active_ended_ne s) as Hne.
  assert (∀ l, level_index l < 6) as Hlt by (intros []; simpl; lia).
  destruct (lookup_lt_is_Some_2 (priorityList c) (level_index (active_level s))) as [active Ha]; [by rewrite Hlen|].
  destruct (lookup_lt_is_Some_2 (priorityList c) (level_index (ended_level s))) as [ended He]; [by rewrite Hlen|].
  cbn [sets set_sets set_priorityList]. rewrite lookup_alter_eq, Hs. run. cbn [fmap option_fmap option_map]. run.
  change (active_level (ls_unpin s)) with (active_level s).
  eexists _, _, _. split; [done|]. cbn [sets priorityList set_sets set_priorityList].
  rewrite !lookup_alter_eq, Hs, list_lookup_alter_eq, (list_lookup_alter_ne _ _ (level_index (ended_level s))) by done.
  rewrite list_lookup_alter_eq, list_lookup_alter_ne by done. rewrite list_lookup_alter_eq, list_lookup_alter_ne by done.
  rewrite Ha, He. split_and!; try done; apply elem_of_app; right; constructor.
Qed.

(** Under [UnifiedDBMIN] [evict] returns with the eviction mutex locked
    and its flag set; the next request for a page waits for itself. *)
Theorem evict_dbmin_keeps_mutex order c :
  idle c → strategy c = UnifiedDBMIN →
  ∃ c', evict order c = (Ret tt, c') ∧ evictionMutex c' = true ∧ inEvict c' = true ∧
    evict order c' = (Ret tt, c') ∧
    ∀ rs id node key set size, getNewPage order rs id node key set size c' = (Undefined, c').
Proof.
  intros (E1 & E2 & E3 & E4) Hst. unfold evict, lock_evictionMutex. run. rewrite E4. run. rewrite E1. run.
  cbn [strategy set_evictionMutex set_inEvict]. rewrite Hst. run. eexists. by split_and!.
Qed.

(** [evictForDBMIN] releases the write lock twice when the page chosen for
    replacement is no longer in the table, as after [freePage]. *)
Theorem evictForDBMIN_unlocks_twice sid s id p c :
  idle c → sets c !! sid = Some s → (desiredSize s <= u64 (numCachedPages s))%Z →
  selectPageForReplacement (pages c) s = Some id → pages c !! id = Some p → cache c !! page_key p = None →
  ∃ c', evictForDBMIN sid c = (Undefined, c').
Proof.
  intros (E1 & E2 & E3 & E4) Hs Hsz Hsel Hp Hk. unfold evictForDBMIN, evictionLock, get_set. run. rewrite E3. run.
  cbn [sets set_rw]. rewrite Hs. run. cbn [dbmin_loop]. unfold get_set. run. cbn [sets set_rw]. rewrite Hs. run.
  apply Z.leb_le in Hsz. rewrite Hsz. cbn [pages set_rw]. rewrite Hsel. unfold evictionUnlock, rw_unlock. run. cbn [rw set_rw]. run.
  unfold evictPageOf, get_page. run. cbn [pages set_rw]. rewrite Hp. run. unfold evictPage. run. cbn [cache set_rw]. rewrite Hk. run.
  by eexists.
Qed.

(** ** Witnesses

    A cache with an unreferenced page [0] and a page [1] with one reference,
    both of set [7]. *)
Definition demo_page (pg raw off : Z) : PDBPage := PDBPage_new raw 0 1 1 1 pg 1000 0 off 0 0 false 0.
Definition demo_A : PDBPage := demo_page 0 512 112.
Definition demo_B : PDBPage := setDirty (incRefCount (demo_page 1 4096 96)) true.
Definition demo_set : LocalitySet :=
  setNumCachedPages (set_cachedPages (LocalitySet_new JobData LRU Read TryCache Transient 1 false) [0; 1]%Z) 2.

Definition demo_add (key : CacheKey) (id : Z) (p : PDBPage) c : PageCache :=
  set_cacheSize (u64 (cacheSize c + page_bytes p)) (set_cache (<[key := id]> (cache c))
    (set_pages (<[id := p]> (pages c)) (set_shm (<[base_of p := page_bytes p]> (shm c)) c))).

Definition demo (st : CacheStrategy) : PageCache :=
  demo_add (page_key demo_B) 1 demo_B (demo_add (page_key demo_A) 0 demo_A
    (set_priorityList [[]; []; []; [7%Z]; []; []] (PageCache_empty st 1000 {[7%Z := demo_set]}))).

Lemma demo_ok st : cache_ok (demo st).
Proof.
  set (c0 := set_priorityList [[]; []; []; [7%Z]; []; []] (PageCache_empty st 1000 {[7%Z := demo_set]})).
  assert (cache_ok (demo_add (page_key demo_A) 0 demo_A c0)) as Hok.
  { apply (cache_ok_insert c0 _ (page_key demo_A) 0 demo_A); by try apply empty_ok. }
  by apply (cache_ok_insert _ _ (page_key demo_B) 1 demo_B Hok).
Qed.

Lemma demo_idle st : idle (demo st).
Proof. by repeat split. Qed.

Lemma demo_sets st : sets_known (demo st).
Proof.
  intros l sid Hl Hs. assert (sid = 7%Z) as ->; [|by eexists].
  change (priorityList (demo st)) with [[]; []; []; [7%Z]; []; []] in Hl.
  rewrite !elem_of_cons in Hl. destruct_or?; subst; rewrite ?elem_of_cons in Hs;
    try (by apply elem_of_nil in Hs); [by destruct Hs as [|?%elem_of_nil]|by apply elem_of_nil in Hl].
Qed.

Lemma evict_spec_witness :
  (** the unreferenced page goes, the other stays *)
  (let r := evict id (demo UnifiedLRU) in
   bool_decide (cache r.2 = {[page_key demo_B := 1%Z]}) && (cacheSize r.2 =? 1512)%Z = true) ∧
  ∃ c', evict id (demo UnifiedLRU) = (Ret tt, c') ∧ idle c' ∧ cache_ok c' ∧
    cache c' !! page_key demo_B = Some 1%Z.
Proof.
  split; [vm_compute; reflexivity|].
  destruct (evict_spec id (demo UnifiedLRU) (demo_ok _) (demo_idle _) ltac:(done) (demo_sets _) ltac:(done))
    as (c' & E & Hi & Hok & _ & Hkept & _).
  exists c'. split; [done|]. split; [done|]. split; [done|].
  by apply (Hkept (page_key demo_B) 1%Z demo_B).
Defined.

Lemma getNewPage_spec_witness :
  ∃ c' p, getNewPage id [0; 10000]%Z 2 0 (1, 1, 1, 2)%Z (Some 7%Z) 2000 (demo UnifiedCost) = (Ret (Some (Some 2%Z)), c') ∧
    pages c' !! 2%Z = Some p ∧ refCount p = 1%Z ∧ cache_ok c'.
Proof.
  destruct (getNewPage_spec id 1 10000 [] 2 0 (1, 1, 1, 2)%Z (Some 7%Z) 2000 (demo UnifiedCost)
    (demo_ok _) (demo_idle _) ltac:(done) (demo_sets _) ltac:(done) ltac:(lia) ltac:(vm_compute; discriminate)
    eq_refl eq_refl eq_refl) as (c' & p & E & _ & Hok & _ & Hp & _ & Hr & _).
  exists c', p. split; [exact E|]. by split_and!.
Defined.

Lemma getPage_survives_evict_witness :
  ∃ c1 c2, getPage (page_key demo_A) None (demo UnifiedLRU) = (Ret (Some 0%Z), c1) ∧
    run_later [LaterEvict id; LaterGet (page_key demo_A) None; LaterEvict reverse] c1 = (Ret tt, c2) ∧
    cache c2 !! page_key demo_A = Some 0%Z ∧ refCount <$> pages c2 !! 0%Z = Some 2%Z.
Proof.
  destruct (getPage_survives_evict (page_key demo_A) None 0 demo_A (demo UnifiedLRU)
    [LaterEvict id; LaterGet (page_key demo_A) None; LaterEvict reverse]
    (demo_ok _) (demo_idle _) ltac:(done) (demo_sets _)
    ltac:(repeat constructor; intros l; [done|apply reverse_Permutation]) eq_refl eq_refl)
    as (c1 & c2 & seq & E1 & E2 & _ & _ & _ & _ & Hk & Hp & _).
  exists c1, c2. split; [exact E1|]. split; [exact E2|]. split; [exact Hk|]. rewrite Hp. reflexivity.
Defined.

Lemma mallocAlign_spec_witness :
  (mallocAlign 10000 2000 512 (demo UnifiedLRU)).1 = Ret (10240, 240)%Z ∧
  ∃ a o c', mallocAlign 10000 2000 (2 ^ 9) (demo UnifiedLRU) = (Ret (a, o), c') ∧ (2 ^ 9 | a)%Z.
Proof.
  split; [vm_compute; reflexivity|].
  destruct (mallocAlign_spec 10000 2000 9 (demo UnifiedLRU) ltac:(lia) ltac:(lia) ltac:(vm_compute; discriminate))
    as (a & o & c' & E & Ha & _).
  exists a, o, c'. split; [exact E|exact Ha].
Defined.

Lemma unpin_set_spec_witness :
  ∃ c', unpin_set 7 (demo UnifiedLRU) = (Ret tt, c') ∧ priorityList c' !! 0 = Some [7%Z] ∧
    priorityList c' !! 3 = Some [].
Proof.
  destruct (unpin_set_spec 7 demo_set (demo UnifiedLRU) eq_refl eq_refl)
    as (c' & a & e & E & _ & Ha & He & Ha' & He' & _).
  exists c'. injection Ha as <-. injection He as <-. by split_and!.
Defined.

Lemma pin_keeps_ended_entry_witness :
  ∃ c' active ended, (unpin_set 7 ;; pin 7 MRU RepeatedRead) (demo UnifiedLRU) = (Ret tt, c') ∧
    priorityList c' !! 3 = Some active ∧ 7%Z ∈ active ∧ priorityList c' !! 0 = Some ended ∧ 7%Z ∈ ended.
Proof.
  destruct (pin_keeps_ended_entry 7 demo_set MRU RepeatedRead (demo UnifiedLRU) eq_refl eq_refl)
    as (c' & a & e & E & _ & Ha & Hina & He & Hine).
  exists c', a, e. by split_and!.
Defined.

Lemma evict_dbmin_keeps_mutex_witness :
  ∃ c', evict id (demo UnifiedDBMIN) = (Ret tt, c') ∧ evictionMutex c' = true.
Proof.
  destruct (evict_dbmin_keeps_mutex id (demo UnifiedDBMIN) (demo_idle _) eq_refl) as (c' & E & Hm & _).
  by exists c'.
Defined.

(** Freeing page [0] leaves it in the list of its set. *)
Lemma evictForDBMIN_unlocks_twice_witness :
  (freePage 0 (demo UnifiedDBMIN)).1 = Ret true ∧
  ∃ c', evictForDBMIN 7 (freePage 0 (demo UnifiedDBMIN)).2 = (Undefined, c').
Proof.
  split; [reflexivity|].
  apply (evictForDBMIN_unlocks_twice 7 demo_set 0 (setRawBytes (setOffset demo_A 0) 0)); try reflexivity.
  - by repeat split.
  - vm_compute. done.
Defined.

(** The flush consumer at a page put in flush by an eviction. *)
Definition demo_flush : PageCache :=
  set_flushBuffer [0%Z] (demo_add (page_key demo_A) 0
    (setInEviction (setInFlush (setDirty demo_A true) true) true) (PageCache_empty UnifiedLRU 1000 ∅)).

Lemma demo_flush_ok : cache_ok demo_flush.
Proof.
  apply (cache_ok_insert (PageCache_empty UnifiedLRU 1000 ∅) _ (page_key demo_A) 0
    (setInEviction (setInFlush (setDirty demo_A true) true) true)); by try apply empty_ok.
Qed.

Lemma flush_one_spec_witness :
  ∃ c', flush_one demo_flush = (Ret tt, c') ∧ cache_ok c' ∧ cache c' = ∅ ∧ shm c' = ∅.
Proof.
  destruct (flush_one_spec 0 (setInEviction (setInFlush (setDirty demo_A true) true) true) [] demo_flush)
    as (c' & E & Hok & _ & _ & Hk & Hs & _); [apply demo_flush_ok|by repeat split|reflexivity..|done|].
  exists c'. split; [done|]. split; [done|]. split; [exact Hk|exact Hs].
Defined.
