(* ===== verification/Buzzer.v ===== *)
(** * Buzzer: waiting for a number of threads

    Models [work/source/PDBBuzzer.cc] and the loop in which it is used all over
    query execution: a thread starts [n] works, each of which calls
    [buzz(alarm, counter)] once, whose function counts up, and then runs
    [while (counter < n) buzzer->wait();].  Every access to shared state is a
    step of one thread; threads are interleaved in any order, and a thread in
    [pthread_cond_wait] may wake up without a signal. *)

From S2P Require Import Prelude.

(** ** State *)

(** Where the waiting thread is: at the test of the loop; at the lock of
    [wait]; holding the lock before the test of [signalSent]; in
    [pthread_cond_wait]; woken and about to lock again; before the unlock; past
    the loop. *)
Inductive waiter := MTest | MLock | MFlag | MAsleep | MWoken | MUnlock | MDone.

(** Where a working thread is in [buzz]: at the lock, before the call of the
    function, before the signal, before [signalSent = true], before the unlock,
    past it. *)
Inductive buzzing := BLock | BCount | BSignal | BFlag | BUnlock | BDone.

(** Who holds [waitingMutex]. *)
Inductive holder := Nobody | Waiter | Buzzing (i : nat).

#[export] Instance waiter_eq_dec : EqDecision waiter.
Proof. solve_decision. Defined.
#[export] Instance buzzing_eq_dec : EqDecision buzzing.
Proof. solve_decision. Defined.
#[export] Instance holder_eq_dec : EqDecision holder.
Proof. solve_decision. Defined.

Record buzzer := Buzzer {
  signalSent : bool;
  waitingMutex : holder;
  counter : nat;
  master : waiter;
  works : list buzzing
}.

Implicit Types (s : buzzer).

(** The buzzer as its constructor leaves it, with [n] works started. *)
Definition buzzer_new (n : nat) : buzzer := Buzzer false Nobody 0 MTest (replicate n BLock).

Definition set_master p s := Buzzer (signalSent s) (waitingMutex s) (counter s) p (works s).
Definition set_work i p s := Buzzer (signalSent s) (waitingMutex s) (counter s) (master s) (<[i := p]> (works s)).
Definition set_mutex h s := Buzzer (signalSent s) h (counter s) (master s) (works s).
Definition set_signalSent b s := Buzzer b (waitingMutex s) (counter s) (master s) (works s).
Definition set_counter c s := Buzzer (signalSent s) (waitingMutex s) c (master s) (works s).

(** [pthread_cond_signal]: the only thread that waits is woken. *)
Definition cond_signal s : buzzer := match master s with MAsleep => set_master MWoken s | _ => s end.

(** ** Steps *)

(** The loop and [wait].  [None]: the thread cannot go on. *)
Definition wait_step (n : nat) s : option buzzer :=
  match master s with
  | MTest => Some (set_master (if counter s <? n then MLock else MDone) s)
  | MLock => if decide (waitingMutex s = Nobody) then Some (set_master MFlag (set_mutex Waiter s)) else None
  | MFlag =>
      if signalSent s then Some (set_master MUnlock (set_signalSent false s))
      else Some (set_master MAsleep (set_mutex Nobody s))
  | MAsleep => None
  | MWoken => if decide (waitingMutex s = Nobody) then Some (set_master MUnlock (set_mutex Waiter s)) else None
  | MUnlock => Some (set_master MTest (set_mutex Nobody s))
  | MDone => None
  end.

(** [buzz] in the thread of work [i]. *)
Definition buzz_step (i : nat) s : option buzzer :=
  p ← works s !! i;
  match p with
  | BLock => if decide (waitingMutex s = Nobody) then Some (set_work i BCount (set_mutex (Buzzing i) s)) else None
  | BCount => Some (set_work i BSignal (set_counter (S (counter s)) s))
  | BSignal => Some (set_work i BFlag (cond_signal s))
  | BFlag => Some (set_work i BUnlock (set_signalSent true s))
  | BUnlock => Some (set_work i BDone (set_mutex Nobody s))
  | BDone => None
  end.

(** Whose step it is; [Spurious] wakes the waiting thread without a signal. *)
Inductive turn := Wait | Buzz (i : nat) | Spurious.

Definition buzzer_step (n : nat) (t : turn) s : option buzzer :=
  match t with
  | Wait => wait_step n s
  | Buzz i => buzz_step i s
  | Spurious => if decide (master s = MAsleep) then Some (set_master MWoken s) else None
  end.

Fixpoint run_turns (n : nat) (ts : list turn) s : option buzzer :=
  match ts with
  | [] => Some s
  | t :: ts => s' ← buzzer_step n t s; run_turns n ts s'
  end.

(** ** Invariant *)

(** Where a thread holds the lock. *)
Definition waiter_holds (p : waiter) : bool := match p with MFlag | MUnlock => true | _ => false end.
Definition buzzing_holds (p : buzzing) : bool := match p with BCount | BSignal | BFlag | BUnlock => true | _ => false end.

(** A work has counted. *)
Definition counted (p : buzzing) : bool := match p with BLock | BCount => false | _ => true end.

Definition count_counted (l : list buzzing) : nat := countb counted l.

(** A work has counted and has not set the flag yet. *)
Definition will_flag (p : buzzing) : bool := match p with BSignal | BFlag => true | _ => false end.
Definition will_signal (p : buzzing) : bool := match p with BSignal => true | _ => false end.

(** The thread is on its way to sleep or asleep. *)
Definition heading (p : waiter) : bool := match p with MLock | MFlag | MAsleep => true | _ => false end.

Record buzzer_ok (n : nat) s : Prop := {
  bo_length : length (works s) = n;
  bo_counter : counter s = count_counted (works s);
  bo_waiter : waiter_holds (master s) = true ↔ waitingMutex s = Waiter;
  bo_buzzing i p : works s !! i = Some p → buzzing_holds p = true ↔ waitingMutex s = Buzzing i;
  bo_holder i : waitingMutex s = Buzzing i → is_Some (works s !! i);
  (** no signal is lost: when all have counted, the thread is not about to
      sleep unless the flag is set or about to be, and it does not sleep unless
      it is about to be woken *)
  bo_flag : counter s = n → heading (master s) = true → master s ≠ MAsleep →
    signalSent s = true ∨ ∃ i p, works s !! i = Some p ∧ will_flag p = true;
  bo_awake : counter s = n → master s = MAsleep → ∃ i p, works s !! i = Some p ∧ will_signal p = true
}.

(** ** The invariant is kept *)

Lemma new_ok n : buzzer_ok n (buzzer_new n).
Proof.
  split; cbn [signalSent waitingMutex counter master works buzzer_new]; try done.
  - apply length_replicate.
  - unfold count_counted. induction n as [|n IH]; [done|]. cbn [replicate]. by rewrite countb_cons.
  - intros i p [-> _]%lookup_replicate. done.
Qed.

(** A thread that holds the lock is the only one between lock and unlock. *)
Lemma lock_of_waiter n s i p :
  buzzer_ok n s → waitingMutex s = Waiter → works s !! i = Some p → buzzing_holds p = false.
Proof. intros H Hm Hi. apply not_true_iff_false. rewrite (bo_buzzing _ _ H i p Hi). congruence. Qed.

Lemma lock_of_buzzing n s i j p :
  buzzer_ok n s → waitingMutex s = Buzzing i → i ≠ j → works s !! j = Some p → buzzing_holds p = false.
Proof. intros H Hm Hij Hj. apply not_true_iff_false. rewrite (bo_buzzing _ _ H j p Hj). congruence. Qed.

(** The states in which only the master and the lock have changed. *)
Lemma ok_waiter n s sig m h :
  buzzer_ok n s → (∀ i, waitingMutex s ≠ Buzzing i) → (∀ i, h ≠ Buzzing i) →
  (waiter_holds m = true ↔ h = Waiter) →
  (counter s = n → heading m = true → m ≠ MAsleep ∧ sig = true) →
  buzzer_ok n (Buzzer sig h (counter s) m (works s)).
Proof.
  intros H Hs Hh Hm Hsig. split; cbn; try apply H; try done.
  - intros i p Hi. rewrite (bo_buzzing _ _ H i p Hi). split; intros E; [by eapply Hs in E | by eapply Hh in E].
  - intros i E. by eapply Hh in E.
  - intros Hc Hd _. left. by apply Hsig.
  - intros Hc ->. by destruct (Hsig Hc eq_refl).
Qed.

(** The waiting thread holds the lock, or no work does. *)
Lemma waiter_alone n s :
  buzzer_ok n s → waiter_holds (master s) = true ∨ waitingMutex s = Nobody →
  ∀ i, waitingMutex s ≠ Buzzing i.
Proof. intros H [Hw|Hn] i; [apply (bo_waiter _ _ H) in Hw|]; congruence. Qed.

Lemma wait_step_ok n s s' : buzzer_ok n s → wait_step n s = Some s' → buzzer_ok n s'.
Proof.
  intros H Hs. unfold wait_step in Hs.
  pose proof (waiter_alone n s H) as Hal.
  destruct (master s) eqn:Em; try done; try (destruct (decide _) as [Hm|]; [|done]).
  - injection Hs as <-. destruct (Nat.ltb_spec (counter s) n).
    + split; cbn; try apply H; try done; try lia. by rewrite <-(bo_waiter _ _ H), Em.
    + split; cbn; try apply H; try done. by rewrite <-(bo_waiter _ _ H), Em.
  - injection Hs as <-. apply (ok_waiter n s); auto; try done.
    intros Hc _. split; [done|].
    destruct (bo_flag _ _ H Hc) as [?|(i & p & Hi & Hp)]; rewrite ?Em; try done.
    assert (buzzing_holds p = true) as Hb by by destruct p.
    apply (bo_buzzing _ _ H i p Hi) in Hb. congruence.
  - assert (waitingMutex s = Waiter) as Hm by by apply (bo_waiter _ _ H); rewrite Em.
    destruct (signalSent s) eqn:Es; injection Hs as <-; cbn; apply (ok_waiter n s); auto; try done.
    intros Hc _. exfalso.
      destruct (bo_flag _ _ H Hc) as [?|(i & p & Hi & Hp)]; rewrite ?Em; try done; [congruence|].
      pose proof (lock_of_waiter n s i p H Hm Hi). by destruct p.
  - injection Hs as <-. apply (ok_waiter n s); auto; done.
  - injection Hs as <-. apply (ok_waiter n s); auto; done.
Qed.

(** The states in which a work has moved and the lock is its own before or
    after. *)
Lemma ok_buzz n s i p q sig m h c :
  buzzer_ok n s → works s !! i = Some p →
  (waitingMutex s = Nobody ∨ waitingMutex s = Buzzing i) →
  h = (if buzzing_holds q then Buzzing i else Nobody) →
  waiter_holds m = false →
  (c + Nat.b2n (counted p) = counter s + Nat.b2n (counted q))%nat →
  (c = n → heading m = true → if decide (m = MAsleep) then will_signal q = true else sig = true ∨ will_flag q = true) →
  buzzer_ok n (Buzzer sig h c m (<[i := q]> (works s))).
Proof.
  intros H Hi Hs Hh Hm Hc Hsig.
  assert (<[i := q]> (works s) !! i = Some q) as Hq.
  { apply list_lookup_insert_eq. by eapply lookup_lt_Some. }
  split; cbn [signalSent waitingMutex counter master works].
  - rewrite length_insert. apply H.
  - pose proof (countb_insert counted _ _ _ q Hi). pose proof (bo_counter _ _ H). unfold count_counted in *. lia.
  - rewrite Hm. subst h. by destruct (buzzing_holds q).
  - intros j r. destruct (decide (i = j)) as [<-|Hij].
    + rewrite Hq. intros [= <-]. subst h. by destruct (buzzing_holds q).
    + rewrite list_lookup_insert_ne by done. intros Hj.
      rewrite (bo_buzzing _ _ H j r Hj). subst h. destruct Hs as [->| ->], (buzzing_holds q); naive_solver.
  - intros j Hj. subst h. destruct (buzzing_holds q); simplify_eq. eauto.
  - intros Hn Hd Ha. specialize (Hsig Hn Hd). rewrite decide_False in Hsig by done. destruct Hsig; eauto.
  - intros Hn ->. specialize (Hsig Hn eq_refl). rewrite decide_True in Hsig by done. eauto.
Qed.

(** A work that has not counted: the count is below [n]. *)
Lemma counter_below n s i p :
  buzzer_ok n s → works s !! i = Some p → counted p = false → (counter s < n)%nat.
Proof.
  intros H Hi Hp. pose proof (countb_insert counted _ _ _ BDone Hi) as Hf. rewrite Hp in Hf. cbn [Nat.b2n counted] in Hf.
  pose proof (countb_le_length counted (<[i := BDone]> (works s))) as Hl.
  rewrite length_insert, (bo_length _ _ H) in Hl. rewrite (bo_counter _ _ H). unfold count_counted. lia.
Qed.

(** What a work that holds the lock knows of the flag. *)
Lemma flag_under_lock n s i p :
  buzzer_ok n s → works s !! i = Some p → buzzing_holds p = true → will_signal p = false →
  counter s = n → heading (master s) = true →
  master s ≠ MAsleep ∧ (will_flag p = false → signalSent s = true).
Proof.
  intros H Hi Hp Hw Hc Hh.
  assert (waitingMutex s = Buzzing i) as Hm by by apply (bo_buzzing _ _ H i p Hi).
  assert (∀ j q, works s !! j = Some q → will_flag q = true → q = p) as Honly.
  { intros j q Hj Hq. destruct (decide (i = j)) as [<-|Hij]; [congruence|].
    pose proof (lock_of_buzzing n s i j q H Hm Hij Hj). by destruct q. }
  assert (master s ≠ MAsleep) as Ha.
  { intros Ha. destruct (bo_awake _ _ H Hc Ha) as (j & q & Hj & Hq).
    assert (q = p) as -> by (apply (Honly j q Hj); by destruct q). congruence. }
  split; [done|]. intros Hf. destruct (bo_flag _ _ H Hc Hh Ha) as [?|(j & q & Hj & Hq)]; [done|].
  rewrite (Honly j q Hj Hq) in Hq. congruence.
Qed.

Lemma buzz_step_ok n i s s' : buzzer_ok n s → buzz_step i s = Some s' → buzzer_ok n s'.
Proof.
  intros H Hs. unfold buzz_step in Hs. destruct (works s !! i) as [p|] eqn:Hi; [|done]. cbn in Hs.
  assert (buzzing_holds p = true → waitingMutex s = Buzzing i) as Hown by apply (bo_buzzing _ _ H i p Hi).
  assert (waitingMutex s ≠ Waiter → waiter_holds (master s) = false) as Hoff.
  { intros Hm. apply not_true_iff_false. by rewrite (bo_waiter _ _ H). }
  pose proof (flag_under_lock n s i p H Hi) as Hflag. pose proof (counter_below n s i p H Hi) as Hbelow.
  destruct p; try done; try (destruct (decide _) as [Hm|]; [|done]);
    try specialize (Hown eq_refl); injection Hs as <-.
  - apply (ok_buzz n s i BLock); cbn; auto. { apply Hoff. congruence. } specialize (Hbelow eq_refl). intros; lia.
  - apply (ok_buzz n s i BCount); cbn; auto; try lia. { apply Hoff. congruence. } intros. case_decide; auto.
  - assert (waiter_holds (master s) = false) as Hw by (apply Hoff; congruence).
    unfold cond_signal. destruct (master s) eqn:Em; cbn; apply (ok_buzz n s i BSignal); cbn; auto; try done;
      rewrite ?Em; auto; intros; rewrite ?decide_False by done; auto.
  - apply (ok_buzz n s i BFlag); cbn; auto. { apply Hoff. congruence. }
    intros Hc Hh. destruct (Hflag eq_refl eq_refl Hc Hh) as [Ha _]. rewrite decide_False by done. auto.
  - apply (ok_buzz n s i BUnlock); cbn; auto. { apply Hoff. congruence. }
    intros Hc Hh. destruct (Hflag eq_refl eq_refl Hc Hh) as [Ha Hf]. rewrite decide_False by done. auto.
Qed.

Lemma spurious_ok n s : buzzer_ok n s → master s = MAsleep → buzzer_ok n (set_master MWoken s).
Proof.
  intros H Em. split; cbn; try apply H; try done.
  rewrite <-(bo_waiter _ _ H), Em. done.
Qed.

Lemma buzzer_step_ok n t s s' : buzzer_ok n s → buzzer_step n t s = Some s' → buzzer_ok n s'.
Proof.
  intros H. destruct t as [|i|]; cbn.
  - by apply wait_step_ok.
  - by apply buzz_step_ok.
  - case_decide; [|done]. intros [= <-]. by apply spurious_ok.
Qed.

Lemma run_turns_ok n ts s s' : buzzer_ok n s → run_turns n ts s = Some s' → buzzer_ok n s'.
Proof.
  revert s. induction ts as [|t ts IH]; intros s H; cbn; [by intros [= <-]|].
  destruct (buzzer_step n t s) as [s1|] eqn:E; [|done]. apply IH. by eapply buzzer_step_ok.
Qed.

(** Past the loop all works have counted. *)
Lemma counter_le n s : buzzer_ok n s → (counter s ≤ n)%nat.
Proof. intros H. rewrite (bo_counter _ _ H), <-(bo_length _ _ H). apply (countb_le_length counted). Qed.

Lemma done_step n t s s' :
  buzzer_ok n s → buzzer_step n t s = Some s' →
  (master s = MDone → counter s = n) → master s' = MDone → counter s' = n.
Proof.
  intros H Hs Hd. pose proof (counter_le n s' (buzzer_step_ok n t s s' H Hs)) as Hle.
  destruct t as [|i|]; cbn in Hs.
  - unfold wait_step in Hs. destruct (master s) eqn:Em; repeat case_decide; simplify_eq/=; try done.
    + cbn in Hle. destruct (Nat.ltb_spec (counter s) n); intros; simplify_eq; lia.
    + destruct (signalSent s); simplify_eq/=; done.
  - unfold buzz_step in Hs. destruct (works s !! i) as [p|]; [|done]. cbn in Hs.
    destruct p; repeat case_decide; simplify_eq/=; auto.
    + intros Em. specialize (Hd Em). lia.
    + unfold cond_signal. destruct (master s) eqn:Em; cbn; rewrite ?Em; auto; done.
  - case_decide; simplify_eq/=. done.
Qed.

Lemma run_done n ts s s' :
  buzzer_ok n s → (master s = MDone → counter s = n) → run_turns n ts s = Some s' →
  master s' = MDone → counter s' = n.
Proof.
  revert s. induction ts as [|t ts IH]; intros s H Hd; cbn; [by intros [= <-]|].
  destruct (buzzer_step n t s) as [s1|] eqn:E; [|done]. intros Hr. apply (IH s1); [| |done].
  - by eapply buzzer_step_ok.
  - by eapply done_step.
Qed.

(** ** The loop ends *)

(** The steps a work has left, and where the waiting thread is on its way round
    the loop. *)
Definition buzz_left (p : buzzing) : nat :=
  match p with BLock => 5 | BCount => 4 | BSignal => 3 | BFlag => 2 | BUnlock => 1 | BDone => 0 end.
Definition wait_left (p : waiter) : nat :=
  match p with MWoken => 5 | MUnlock => 4 | MTest => 3 | MLock => 2 | MFlag => 1 | MAsleep | MDone => 0 end.

Definition steps_left (l : list buzzing) : nat := sum_list_with buzz_left l.
#[local] Arguments steps_left : simpl never.

(** How many steps are left at most if no wake-up is spurious. *)
Definition turns_left s : nat :=
  6 * steps_left (works s) + 4 * Nat.b2n (signalSent s) + wait_left (master s).

Definition is_spurious (t : turn) : bool := match t with Spurious => true | _ => false end.

Lemma steps_left_insert (l : list buzzing) i p q :
  l !! i = Some p → (steps_left (<[i := q]> l) + buzz_left p = steps_left l + buzz_left q)%nat.
Proof. apply sum_list_insert. Qed.

(** Every step makes it less; a spurious wake-up costs one more turn of the
    loop. *)
Lemma turn_decreases n t s s' :
  buzzer_step n t s = Some s' →
  (S (turns_left s') ≤ turns_left s + 6 * Nat.b2n (is_spurious t))%nat.
Proof.
  unfold turns_left. destruct t as [|i|]; cbn [buzzer_step is_spurious Nat.b2n].
  - unfold wait_step. destruct (master s) eqn:Em; intros Hs; repeat case_decide; simplify_eq/=; try lia.
    + destruct (_ <? _); cbn; lia.
    + destruct (signalSent s) eqn:Es; simplify_eq/=; rewrite ?Es; cbn; lia.
  - unfold buzz_step. destruct (works s !! i) as [p|] eqn:Hi; [|done]. cbn [mbind option_bind].
    pose proof (steps_left_insert (works s) i p) as Hq.
    intros Hs. destruct p; repeat case_decide; simplify_eq; cbn -[Nat.mul].
    + specialize (Hq BCount Hi). cbn in Hq. lia.
    + specialize (Hq BSignal Hi). cbn in Hq. lia.
    + specialize (Hq BFlag Hi). cbn in Hq. unfold cond_signal.
      destruct (master s) eqn:Em; cbn -[Nat.mul]; rewrite ?Em; cbn -[Nat.mul]; lia.
    + specialize (Hq BUnlock Hi). cbn in Hq. destruct (signalSent s); cbn -[Nat.mul]; lia.
    + specialize (Hq BDone Hi). cbn in Hq. lia.
  - case_decide as Em; [|done]. intros [= <-]. cbn -[Nat.mul]. rewrite Em. cbn -[Nat.mul]. lia.
Qed.

Definition spurious_turns (ts : list turn) : nat := sum_list_with (λ t, Nat.b2n (is_spurious t)) ts.

Lemma run_bounded n ts s s' :
  run_turns n ts s = Some s' →
  (length ts + turns_left s' ≤ turns_left s + 6 * spurious_turns ts)%nat.
Proof.
  unfold spurious_turns. revert s. induction ts as [|t ts IH]; intros s; cbn [run_turns].
  - intros [= <-]. cbn. lia.
  - destruct (buzzer_step n t s) as [s1|] eqn:E; [|done]. cbn [mbind option_bind]. intros Hr.
    specialize (IH s1 Hr). apply turn_decreases in E. cbn [length sum_list_with]. lia.
Qed.

Lemma new_turns_left n : turns_left (buzzer_new n) = (30 * n + 3)%nat.
Proof.
  unfold turns_left, steps_left. cbn -[Nat.mul].
  assert (sum_list_with buzz_left (replicate n BLock) = 5 * n)%nat as ->; [|lia].
  induction n as [|n IH]; cbn in *; lia.
Qed.

(** Some thread can go on, unless the loop is past. *)
Lemma some_turn n s :
  buzzer_ok n s → master s ≠ MDone → ∃ t, is_spurious t = false ∧ is_Some (buzzer_step n t s).
Proof.
  intros H Hd. destruct (waitingMutex s) as [| |i] eqn:Hm.
  - destruct (decide (master s = MAsleep)) as [Ea|Ha].
    + assert (counter s < n)%nat as Hlt.
      { pose proof (counter_le n s H). destruct (decide (counter s = n)) as [Hc|]; [|lia].
        destruct (bo_awake _ _ H Hc Ea) as (i & p & Hi & Hp).
        assert (waitingMutex s = Buzzing i); [|congruence].
        apply (bo_buzzing _ _ H i p Hi). by destruct p. }
      destruct (countb_lt_exists counted (works s)) as (i & p & Hi & Hp).
      { pose proof (bo_counter _ _ H). unfold count_counted in *. rewrite (bo_length _ _ H). lia. }
      exists (Buzz i). split; [done|]. cbn. unfold buzz_step. rewrite Hi. cbn.
      destruct p; try done; rewrite ?Hm, ?decide_True by done; eauto.
    + exists Wait. split; [done|]. cbn. unfold wait_step.
      destruct (master s) eqn:Em; try done; rewrite ?Hm, ?decide_True by done; eauto.
      destruct (signalSent s); eauto.
  - exists Wait. split; [done|]. apply (bo_waiter _ _ H) in Hm. cbn. unfold wait_step.
    destruct (master s) eqn:Em; try done; eauto. destruct (signalSent s); eauto.
  - destruct (bo_holder _ _ H i Hm) as [p Hi]. pose proof (proj2 (bo_buzzing _ _ H i p Hi) Hm) as Hp.
    exists (Buzz i). split; [done|]. cbn. unfold buzz_step. rewrite Hi. cbn. destruct p; try done; eauto.
Qed.

(** ** Properties *)

(** [C34] The loop [while (counter < n) buzzer->wait();] ends, and not too early,
    however the threads are interleaved: a run takes at most [30 n + 3] steps
    and six more for each spurious wake-up; as long as the waiting thread is not
    past the loop some thread can go on without one, although [buzz] signals
    before it sets [signalSent] and the loop reads the count without the lock;
    and past the loop all [n] works have called the function of the buzzer, each
    once. *)
Theorem wait_loop_ends n ts s :
  run_turns n ts (buzzer_new n) = Some s →
  (length ts ≤ 30 * n + 3 + 6 * spurious_turns ts)%nat ∧
  (master s ≠ MDone → ∃ t s', t ≠ Spurious ∧ buzzer_step n t s = Some s') ∧
  counter s = count_counted (works s) ∧
  (master s = MDone → counter s = n ∧ Forall (λ p, counted p = true) (works s)).
Proof.
  intros Hr. pose proof (run_turns_ok n ts _ s (new_ok n) Hr) as H. split; [|split; [|split; [apply H|]]].
  - apply run_bounded in Hr. rewrite new_turns_left in Hr. lia.
  - intros Hd. destruct (some_turn n s H Hd) as (t & Ht & s' & Hs). exists t, s'.
    split; [by intros ->|done].
  - intros Hd.
    assert (counter s = n) as Hc by (eapply (run_done n ts (buzzer_new n)); eauto using new_ok; done).
    split; [done|]. apply Forall_lookup. intros i p Hi. apply not_false_iff_true. intros Hp.
    pose proof (counter_below n s i p H Hi Hp). lia.
Qed.

(** ** Witnesses *)

(** A run in which the thread sleeps, is woken by the first work and finds the
    flag of the second. *)
Definition demo_turns : list turn :=
  [Wait; Wait; Wait; Buzz 0; Buzz 0; Buzz 0; Buzz 0; Buzz 0; Wait; Wait; Wait; Wait; Wait; Wait;
   Buzz 1; Buzz 1; Buzz 1; Buzz 1; Buzz 1; Wait].

Definition demo_end : buzzer := Buzzer true Nobody 2 MDone [BDone; BDone].

Lemma demo_run : run_turns 2 demo_turns (buzzer_new 2) = Some demo_end.
Proof. vm_compute. reflexivity. Qed.

Lemma wait_loop_ends_witness :
  (length demo_turns ≤ 30 * 2 + 3 + 6 * spurious_turns demo_turns)%nat ∧
  (master demo_end ≠ MDone → ∃ t s', t ≠ Spurious ∧ buzzer_step 2 t demo_end = Some s') ∧
  counter demo_end = count_counted (works demo_end) ∧
  (master demo_end = MDone → counter demo_end = 2%nat ∧ Forall (λ p, counted p = true) (works demo_end)).
Proof. exact (wait_loop_ends 2 demo_turns demo_end demo_run). Defined.

(** A single [wait] is not enough: a spurious wake-up lets it return although
    nobody has called [buzz]. *)
Lemma one_wait_not_enough :
  ∃ s, run_turns 1 [Wait; Wait; Wait; Spurious; Wait; Wait] (buzzer_new 1) = Some s ∧
    master s = MTest ∧ counter s = 0%nat ∧ works s = [BLock].
Proof. eexists. vm_compute. done. Qed.

(** Nor does each [wait] stand for a [buzz]: one that slept leaves the flag set,
    so the next returns at once although the second work has not called
    [buzz]. *)
Lemma two_waits_one_buzz :
  ∃ s, run_turns 2 [Wait; Wait; Wait; Buzz 0; Buzz 0; Buzz 0; Buzz 0; Buzz 0; Wait; Wait;
                    Wait; Wait; Wait; Wait] (buzzer_new 2) = Some s ∧
    master s = MTest ∧ counter s = 1%nat ∧ works s = [BDone; BLock].
Proof. eexists. vm_compute. done. Qed.
