(* ===== verification/WorkerQueue.v ===== *)
(** * WorkerQueue: threads that wait for work

    Models [work/source/PDBWorkerQueue.cc] and [PDBWorker.cc]: a fixed number of
    threads, each with its worker object; clients that take a worker from the
    queue and give it a work to execute; and the destructor, which has every
    worker do nothing once more and joins the threads.  A critical section
    ([LockGuard]) is one step, what lies between two of them is another, and
    the steps of all threads are interleaved in any order.  The state starts
    when the constructor has returned.  Works end and take no workers
    themselves; the alarms of [notifyAllWorkers] are left out. *)

From S2P Require Import Prelude.

(** ** State *)

(** Where a thread is in [PDBWorkerQueue::enter] and [PDBWorker::enter]: at the
    test of [shuttingDown]; before it enters the queue; waiting for
    [okToExecute]; executing; before it leaves [working]; before [reset]; past
    the loop; ended. *)
Inductive worker_phase := WTest | WPush | WWait | WRun | WErase | WReset | WExit | WDead.

(** A work has a number; the destructor gives the [NothingWork]. *)
Inductive work := Work (id : nat) | NothingWork.

Record worker := Worker { w_phase : worker_phase; okToExecute : bool; runMe : option work }.

(** Where a client is: before or after the test in [getWorker]; in
    [pthread_cond_wait]; with a worker [w] that is not in [working] yet; with
    one that is; and with null.  The destructor starts before
    [shuttingDown = true] and, past its loop, joins the threads. *)
Inductive client_phase := CStart | CGet | CAsleep | CInsert (w : nat) | CExecute (w : nat) | CNull | CJoined.

(** What a client has to give: works, one after the other, or, being the
    destructor, nothing, for ever. *)
Inductive supply := Works (ids : list nat) | Destructor.

Record client := Client { c_phase : client_phase; c_supply : supply }.

Record queue := Queue {
  shuttingDown : bool;
  waiting : list nat;
  working : list nat;
  numOut : nat;
  workers : list worker;
  clients : list client;
  executed : list work
}.

Implicit Types (q : queue) (w : worker) (c : client).

#[export] Instance worker_phase_eq_dec : EqDecision worker_phase.
Proof. solve_decision. Defined.
#[export] Instance client_phase_eq_dec : EqDecision client_phase.
Proof. solve_decision. Defined.
#[export] Instance work_eq_dec : EqDecision work.
Proof. solve_decision. Defined.

Definition set_worker i w q := Queue (shuttingDown q) (waiting q) (working q) (numOut q) (<[i := w]> (workers q)) (clients q) (executed q).
Definition set_client j c q := Queue (shuttingDown q) (waiting q) (working q) (numOut q) (workers q) (<[j := c]> (clients q)) (executed q).
Definition set_clients cs q := Queue (shuttingDown q) (waiting q) (working q) (numOut q) (workers q) cs (executed q).
Definition set_waiting l q := Queue (shuttingDown q) l (working q) (numOut q) (workers q) (clients q) (executed q).
Definition set_working l q := Queue (shuttingDown q) (waiting q) l (numOut q) (workers q) (clients q) (executed q).
Definition set_numOut n q := Queue (shuttingDown q) (waiting q) (working q) n (workers q) (clients q) (executed q).
Definition shut_down q := Queue true (waiting q) (working q) (numOut q) (workers q) (clients q) (executed q).
Definition log_work x q := Queue (shuttingDown q) (waiting q) (working q) (numOut q) (workers q) (clients q) (executed q ++ [x]).

Definition set_phase p w := Worker p (okToExecute w) (runMe w).
Definition to_phase p c := Client p (c_supply c).

(** The queue after its constructor, with [n] threads and the clients it will
    have. *)
Definition PDBWorkerQueue_new (n : nat) (cs : list client) : queue :=
  Queue false [] [] n (replicate n (Worker WTest false None)) cs [].

(** ** Steps of a thread *)

(** [pthread_cond_signal]: one sleeping client, if any, is woken; which one is
    chosen by the scheduler. *)
Definition wake c := match c_phase c with CAsleep => to_phase CGet c | _ => c end.
Definition asleep c : bool := match c_phase c with CAsleep => true | _ => false end.
Definition cond_signal (j : nat) q : option queue :=
  if decide (countb asleep (clients q) = 0) then Some q
  else c ← clients q !! j; if asleep c then Some (set_client j (wake c) q) else None.

(** [pthread_cond_broadcast] *)
Definition cond_broadcast q : queue := set_clients (wake <$> clients q) q.

(** One step of the thread of worker [i]; [j] is the client a signal wakes.
    [None]: the thread has to wait or has ended. *)
Definition worker_step (i j : nat) q : option (outcome queue) :=
  w ← workers q !! i;
  match w_phase w with
  | WTest => Some (Ret (set_worker i (set_phase (if shuttingDown q then WExit else WPush) w) q))
  | WPush => q' ← cond_signal j (set_waiting (waiting q ++ [i]) q); Some (Ret (set_worker i (set_phase WWait w) q'))
  | WWait => if okToExecute w then Some (Ret (set_worker i (set_phase WRun w) q)) else None
  | WRun =>
      match runMe w with
      | Some x => Some (Ret (log_work x (set_worker i (Worker WErase false (runMe w)) q)))
      | None => Some Undefined
      end
  | WErase =>
      if decide (i ∈ working q)
      then Some (Ret (set_working (filter (λ k, k ≠ i) (working q)) (set_worker i (set_phase WReset w) q)))
      else Some (Exit (-1))
  | WReset => Some (Ret (set_worker i (Worker WTest (okToExecute w) None) q))
  | WExit =>
      let q' := set_numOut (pred (numOut q)) (set_worker i (set_phase WDead w) q) in
      Some (Ret (if decide (pred (numOut q) = 0) then cond_broadcast q' else q'))
  | WDead => None
  end.

(** ** Steps of a client *)

(** The critical section of [getWorker], entered or re-entered after the wait:
    sleep, null, or the last of the waiting workers. *)
Definition getWorker (j : nat) c q : option (outcome queue) :=
  if decide (waiting q = [] ∧ numOut q ≠ 0) then Some (Ret (set_client j (to_phase CAsleep c) q))
  else if decide (numOut q = 0) then Some (Ret (set_client j (to_phase CNull c) q))
  else match last (waiting q) with
       | Some i => Some (Ret (set_client j (to_phase (CInsert i) c) (set_waiting (take (pred (length (waiting q))) (waiting q)) q)))
       | None => Some Undefined
       end.

(** [execute]: the worker gets the next work of the client. *)
Definition next_work (s : supply) : option (work * supply) :=
  match s with
  | Works [] => None
  | Works (x :: ids) => Some (Work x, Works ids)
  | Destructor => Some (NothingWork, Destructor)
  end.

Definition execute (i j : nat) c q : option (outcome queue) :=
  '(x, s) ← next_work (c_supply c);
  match workers q !! i with
  | Some w => Some (Ret (set_client j (Client CGet s) (set_worker i (Worker (w_phase w) true (Some x)) q)))
  | None => Some Undefined
  end.

(** One step of client [j].  The destructor joins when all threads have
    ended. *)
Definition client_step (j : nat) q : option (outcome queue) :=
  c ← clients q !! j;
  match c_phase c with
  | CStart => Some (Ret (shut_down (set_client j (to_phase CGet c) q)))
  | CGet => match c_supply c with Works [] => None | _ => getWorker j c q end
  | CAsleep => None
  | CInsert i => Some (Ret (set_client j (to_phase (CExecute i) c) (set_working (i :: filter (λ k, k ≠ i) (working q)) q)))
  | CExecute i => execute i j c q
  | CNull =>
      match c_supply c with
      | Destructor =>
          if decide (Forall (λ w, w_phase w = WDead) (workers q)) then Some (Ret (set_client j (to_phase CJoined c) q)) else None
      | Works _ => None
      end
  | CJoined => None
  end.

(** Whose step it is; [Spurious j] wakes a sleeping client without a signal. *)
Inductive turn := WorkerTurn (i j : nat) | ClientTurn (j : nat) | Spurious (j : nat).

Definition queue_step (t : turn) q : option (outcome queue) :=
  match t with
  | WorkerTurn i j => worker_step i j q
  | ClientTurn j => client_step j q
  | Spurious j => c ← clients q !! j; if asleep c then Some (Ret (set_client j (wake c) q)) else None
  end.

(** A run of turns that are all possible, up to the first that stops the
    process. *)
Fixpoint run_queue (ts : list turn) q : option (outcome queue) :=
  match ts with
  | [] => Some (Ret q)
  | t :: ts =>
      match queue_step t q with
      | Some (Ret q') => run_queue ts q'
      | r => r
      end
  end.

(** ** Invariant *)

Definition alive w : bool := negb (bool_decide (w_phase w = WDead)).

(** In its loop, without a work: it is in the queue or in a client's hands. *)
Definition idle w : bool := bool_decide (w_phase w = WWait) && negb (okToExecute w).

Definition holds c : option nat := match c_phase c with CInsert i | CExecute i => Some i | _ => None end.

Definition has_work (s : supply) : bool := match s with Works [] => false | _ => true end.

(** About to enter the critical section of [getWorker]. *)
Definition getting c : bool := match c_phase c with CGet => has_work (c_supply c) | _ => false end.

(** What holds of one worker. *)
Record worker_ok (working : list nat) (i : nat) w : Prop := {
  wo_ok : okToExecute w = true → (w_phase w = WWait ∨ w_phase w = WRun) ∧ is_Some (runMe w);
  wo_run : w_phase w = WRun → okToExecute w = true;
  wo_working : okToExecute w = true ∨ w_phase w = WErase → i ∈ working
}.

(** What holds of one client. *)
Record client_ok (numOut : nat) (working : list nat) c : Prop := {
  co_work : is_Some (holds c) ∨ asleep c = true → has_work (c_supply c) = true;
  co_execute i : c_phase c = CExecute i → i ∈ working;
  co_null : c_phase c = CNull ∨ c_phase c = CJoined → numOut = 0
}.

(** Every idle worker is in the queue or with one client. *)
Record owned (waiting : list nat) (ws : list worker) (cs : list client) : Prop := {
  ow_nodup : NoDup waiting;
  ow_waiting i : i ∈ waiting → ∃ w, ws !! i = Some w ∧ idle w = true;
  ow_held j c i : cs !! j = Some c → holds c = Some i → (i ∉ waiting) ∧ ∃ w, ws !! i = Some w ∧ idle w = true;
  ow_unique j j' c c' i : cs !! j = Some c → cs !! j' = Some c' → holds c = Some i → holds c' = Some i → j = j';
  ow_idle i w : ws !! i = Some w → idle w = true → i ∈ waiting ∨ ∃ j c, cs !! j = Some c ∧ holds c = Some i
}.

Record queue_ok (n : nat) q : Prop := {
  qo_length : length (workers q) = n;
  qo_numOut : numOut q = countb alive (workers q);
  qo_worker i w : workers q !! i = Some w → worker_ok (working q) i w;
  qo_client j c : clients q !! j = Some c → client_ok (numOut q) (working q) c;
  qo_owned : owned (waiting q) (workers q) (clients q);
  (** no wake-up is lost: for every waiting worker a client is awake *)
  qo_asleep : 0 < countb asleep (clients q) → numOut q ≠ 0 ∧ length (waiting q) ≤ countb getting (clients q)
}.

(** ** Ownership *)

Lemma owned_worker wt ws cs i w w' :
  owned wt ws cs → ws !! i = Some w → idle w = false → idle w' = false → owned wt (<[i := w']> ws) cs.
Proof.
  intros H Hi Hw Hw'.
  assert (∀ k v, ws !! k = Some v → idle v = true → <[i := w']> ws !! k = Some v) as Hk.
  { intros k v Hk Hv. rewrite list_lookup_insert_ne; [done|]. intros <-. congruence. }
  split; try apply H.
  - intros k Hin. destruct (ow_waiting _ _ _ H k Hin) as (v & ? & ?). eauto.
  - intros j c k Hj Hc. destruct (ow_held _ _ _ H j c k Hj Hc) as (? & v & ? & ?). eauto.
  - intros k v [(<- & <- & _)|[_ Hv]]%lookup_insert_cases Hid; [congruence|]. by eapply ow_idle.
Qed.

(** A client that holds nothing before and after. *)
Lemma owned_client wt ws cs j c c' :
  owned wt ws cs → cs !! j = Some c → holds c = holds c' → owned wt ws (<[j := c']> cs).
Proof.
  intros H Hj Hc.
  assert (∀ k v, <[j := c']> cs !! k = Some v → ∃ v', cs !! k = Some v' ∧ holds v' = holds v) as Hk.
  { intros k v [(<- & <- & _)|[_ Hv]]%lookup_insert_cases; eauto. }
  split; try apply H.
  - intros k v i Hv Hh. destruct (Hk k v Hv) as (v' & ? & ?). apply (ow_held _ _ _ H k v'); congruence.
  - intros k k' v v' i Hv Hv' Hh Hh'. destruct (Hk k v Hv) as (u & ? & ?), (Hk k' v' Hv') as (u' & ? & ?).
    apply (ow_unique _ _ _ H k k' u u' i); congruence.
  - intros i w Hi Hw. destruct (ow_idle _ _ _ H i w Hi Hw) as [?|(k & v & Hv & Hh)]; [by left|right].
    destruct (decide (j = k)) as [<-|Hne].
    + exists j, c'. rewrite list_lookup_insert_eq by (by eapply lookup_lt_Some). split; [done|congruence].
    + exists k, v. by rewrite list_lookup_insert_ne.
Qed.

(** A worker enters the queue. *)
Lemma owned_push wt ws cs i w w' :
  owned wt ws cs → ws !! i = Some w → idle w = false → idle w' = true → owned (wt ++ [i]) (<[i := w']> ws) cs.
Proof.
  intros H Hi Hw Hw'.
  assert (∀ k v, ws !! k = Some v → idle v = true → k ≠ i ∧ <[i := w']> ws !! k = Some v) as Hk.
  { intros k v Hk Hv. assert (k ≠ i) by congruence. by rewrite list_lookup_insert_ne. }
  assert (i ∉ wt) as Hout by (intros Hin; destruct (ow_waiting _ _ _ H i Hin) as (v & ? & ?); congruence).
  split; try apply H.
  - apply NoDup_app. split; [apply H|]. split; [set_solver|apply NoDup_singleton].
  - intros k [Hin|Hin]%elem_of_app.
    + destruct (ow_waiting _ _ _ H k Hin) as (v & Hv & Hid). exists v. by destruct (Hk k v Hv Hid).
    + apply list_elem_of_singleton in Hin as ->. exists w'. by rewrite list_lookup_insert_eq by (by eapply lookup_lt_Some).
  - intros j c k Hj Hc. destruct (ow_held _ _ _ H j c k Hj Hc) as (Hn & v & Hv & Hid). destruct (Hk k v Hv Hid).
    split; [set_solver|]. by exists v.
  - intros k v [(<- & <- & _)|[_ Hv]]%lookup_insert_cases Hid; [left; set_solver|].
    destruct (ow_idle _ _ _ H k v Hv Hid); [left; set_solver|by right].
Qed.

(** A client takes the last waiting worker. *)
Lemma owned_pop wt ws cs j c c' i :
  owned (wt ++ [i]) ws cs → cs !! j = Some c → holds c = None → holds c' = Some i → owned wt ws (<[j := c']> cs).
Proof.
  intros H Hj Hc Hc'. pose proof (ow_nodup _ _ _ H) as (Hnd & Hout & _)%NoDup_app.
  assert (∀ k v i', cs !! k = Some v → holds v = Some i' → k ≠ j ∧ i' ≠ i) as Hk.
  { intros k v i' Hv Hh. split; [congruence|]. intros ->. destruct (ow_held _ _ _ H k v i Hv Hh) as [Hn _]. set_solver. }
  split.
  - done.
  - intros k Hin. apply (ow_waiting _ _ _ H). set_solver.
  - intros k v i' [(<- & <- & _)|[_ Hv]]%lookup_insert_cases Hh.
    + assert (i' = i) as -> by congruence. split; [intros Hin; specialize (Hout i Hin); set_solver|].
      apply (ow_waiting _ _ _ H). set_solver.
    + destruct (ow_held _ _ _ H k v i' Hv Hh). split; [set_solver|done].
  - intros k k' v v' i' [(<- & <- & _)|[? Hv]]%lookup_insert_cases [(<- & <- & _)|[? Hv']]%lookup_insert_cases Hh Hh'; [done| | |].
    + destruct (Hk k' v' i' Hv' Hh') as [_ Hi]. congruence.
    + destruct (Hk k v i' Hv Hh) as [_ Hi]. congruence.
    + by eapply ow_unique.
  - intros k w Hw Hid. destruct (ow_idle _ _ _ H k w Hw Hid) as [[?|Hin]%elem_of_app|(k' & v & Hv & Hh)]; [by left| |].
    + apply list_elem_of_singleton in Hin as ->. right. exists j, c'.
      by rewrite list_lookup_insert_eq by (by eapply lookup_lt_Some).
    + right. destruct (Hk k' v k Hv Hh). exists k', v. by rewrite list_lookup_insert_ne.
Qed.

(** A client gives its worker a work. *)
Lemma owned_give wt ws cs j c c' i w w' :
  owned wt ws cs → cs !! j = Some c → holds c = Some i → holds c' = None → ws !! i = Some w → idle w' = false →
  owned wt (<[i := w']> ws) (<[j := c']> cs).
Proof.
  intros H Hj Hc Hc' Hi Hw'. destruct (ow_held _ _ _ H j c i Hj Hc) as [Hout _].
  assert (∀ k v, <[j := c']> cs !! k = Some v → is_Some (holds v) → k ≠ j ∧ cs !! k = Some v) as Hk.
  { intros k v [(<- & <- & _)|[? Hv]]%lookup_insert_cases [? Hh]; [congruence|done]. }
  assert (∀ k v i', k ≠ j → cs !! k = Some v → holds v = Some i' → i' ≠ i) as Hne.
  { intros k v i' Hkj Hv Hh ->. apply Hkj. by eapply ow_unique. }
  split.
  - apply H.
  - intros k Hin. destruct (ow_waiting _ _ _ H k Hin) as (v & ? & ?). exists v.
    rewrite list_lookup_insert_ne; [done|]. by intros ->.
  - intros k v i' Hv Hh. destruct (Hk k v Hv) as [Hkj Hv']; [by rewrite Hh|].
    destruct (ow_held _ _ _ H k v i' Hv' Hh) as (? & u & ? & ?). split; [done|]. exists u.
    specialize (Hne k v i' Hkj Hv' Hh). by rewrite list_lookup_insert_ne.
  - intros k k' v v' i' Hv Hv' Hh Hh'. destruct (Hk k v Hv) as [_ ?]; [by rewrite Hh|].
    destruct (Hk k' v' Hv') as [_ ?]; [by rewrite Hh'|]. by eapply ow_unique.
  - intros k v [(<- & <- & _)|[? Hv]]%lookup_insert_cases Hid; [congruence|].
    destruct (ow_idle _ _ _ H k v Hv Hid) as [?|(k' & u & Hu & Hh)]; [by left|right]. exists k', u.
    rewrite list_lookup_insert_ne; [done|]. intros <-. congruence.
Qed.

(** ** Steps keep the invariant *)

Lemma queue_ok_new n cs :
  Forall (λ c, c_phase c = CStart ∨ c_phase c = CGet) cs → queue_ok n (PDBWorkerQueue_new n cs).
Proof.
  intros Hcs.
  assert (∀ j c, cs !! j = Some c → c_phase c = CStart ∨ c_phase c = CGet) as Hc.
  { intros j c Hj. by eapply Forall_lookup_1 in Hcs. }
  split; cbn [PDBWorkerQueue_new workers clients numOut waiting working].
  - apply length_replicate.
  - induction n as [|n IH]; [done|]. cbn [replicate]. rewrite countb_cons. cbn. by rewrite <-IH.
  - intros i w [-> _]%lookup_replicate. split; cbn; [done|done|]. by intros [?|?].
  - intros j c Hj. destruct (Hc j c Hj) as [E|E]; split; unfold holds, asleep; rewrite E; try done; first [by intros [[? ?]|?]|by intros [?|?]].
  - split.
    + constructor.
    + intros i Hi. by apply not_elem_of_nil in Hi.
    + intros j c i Hj. unfold holds. by destruct (Hc j c Hj) as [-> | ->].
    + intros j j' c c' i Hj _. unfold holds at 1. by destruct (Hc j c Hj) as [-> | ->].
    + intros i w [-> _]%lookup_replicate. done.
  - intros (j & c & Hj & Ha)%countb_pos_exists. unfold asleep in Ha. by destruct (Hc j c Hj) as [E|E]; rewrite E in Ha.
Qed.

(** A worker in its loop goes on; [l] is what is then in [working]. *)
Lemma ok_worker n q i w w' l sd ex :
  queue_ok n q → workers q !! i = Some w → idle w = false → idle w' = false → alive w = true → alive w' = true →
  worker_ok l i w' → (∀ k, k ≠ i → k ∈ working q → k ∈ l) →
  queue_ok n (Queue sd (waiting q) l (numOut q) (<[i := w']> (workers q)) (clients q) ex).
Proof.
  intros H Hi Hw Hw' Ha Ha' Hok Hl. split; cbn [workers clients numOut waiting working].
  - rewrite length_insert. apply H.
  - pose proof (countb_insert alive _ i w w' Hi) as Hc. rewrite Ha, Ha' in Hc. rewrite (qo_numOut _ _ H). lia.
  - intros k v [(<- & <- & _)|[? Hv]]%lookup_insert_cases; [done|].
    destruct (qo_worker _ _ H k v Hv) as [H1 H2 H3]. split; [done|done|]. intros Hb. apply Hl; auto.
  - intros j c Hj. destruct (qo_client _ _ H j c Hj) as [H1 H2 H3]. split; [done| |done].
    intros k Hk. apply Hl; [|auto]. intros ->.
    destruct (ow_held _ _ _ (qo_owned _ _ H) j c i Hj) as (_ & v & Hv & ?); [unfold holds; by rewrite Hk|]. congruence.
  - eapply owned_worker; eauto. apply H.
  - apply H.
Qed.

(** Only clients have changed, one at a time. *)
Lemma ok_client n q j c c' sd l :
  queue_ok n q → clients q !! j = Some c → holds c = holds c' → client_ok (numOut q) l c' →
  (∀ k, k ∈ working q → k ∈ l) →
  (0 < countb asleep (<[j := c']> (clients q)) → numOut q ≠ 0 ∧ length (waiting q) ≤ countb getting (<[j := c']> (clients q))) →
  queue_ok n (Queue sd (waiting q) l (numOut q) (workers q) (<[j := c']> (clients q)) (executed q)).
Proof.
  intros H Hj Hc Hok Hl Hs. split; cbn [workers clients numOut waiting working]; try apply H; try done.
  - intros i w Hi. destruct (qo_worker _ _ H i w Hi). split; auto.
  - intros k v [(<- & <- & _)|[? Hv]]%lookup_insert_cases; [done|].
    destruct (qo_client _ _ H k v Hv). split; auto.
  - eapply owned_client; eauto. apply H.
Qed.

(** The counts when one client changes. *)
Lemma ok_counts n q j c c' :
  queue_ok n q → clients q !! j = Some c → asleep c' = false → (getting c = true → getting c' = true) →
  0 < countb asleep (<[j := c']> (clients q)) →
  numOut q ≠ 0 ∧ length (waiting q) ≤ countb getting (<[j := c']> (clients q)).
Proof.
  intros H Hj Ha Hg Hs.
  pose proof (countb_insert asleep _ j c c' Hj) as H1. pose proof (countb_insert getting _ j c c' Hj) as H2.
  rewrite Ha in H1. cbn in H1. destruct (qo_asleep _ _ H) as [H3 H4]; [lia|]. split; [done|].
  destruct (getting c) eqn:E; [rewrite (Hg eq_refl) in H2|]; cbn in H2; lia.
Qed.

Lemma wake_holds c : holds (wake c) = holds c.
Proof. unfold wake, holds. by destruct c as [[]]. Qed.

Lemma wake_client_ok no l c : client_ok no l c → client_ok no l (wake c).
Proof.
  intros [H1 H2 H3]. unfold wake. destruct c as [[] s]; cbn in *; split; cbn; auto; try done; naive_solver.
Qed.

Lemma ok_spurious n q j c :
  queue_ok n q → clients q !! j = Some c → asleep c = true → queue_ok n (set_client j (wake c) q).
Proof.
  intros H Hj Ha. pose proof (qo_client _ _ H j c Hj) as Hc.
  apply (ok_client n q j c); auto using wake_client_ok; [by rewrite wake_holds|].
  apply (ok_counts n q j c); auto; destruct c as [[] s]; done.
Qed.

(** The signal of a worker that has entered the queue wakes a sleeping client,
    if there is one. *)
Lemma ok_push n q i j w q' :
  queue_ok n q → workers q !! i = Some w → w_phase w = WPush →
  cond_signal j (set_waiting (waiting q ++ [i]) q) = Some q' →
  queue_ok n (set_worker i (set_phase WWait w) q').
Proof.
  intros H Hi Hp Hs. destruct (qo_worker _ _ H i w Hi) as [H1 H2 H3].
  assert (okToExecute w = false) as Hok by (apply not_true_iff_false; intros [[?|?] _]%H1; congruence).
  assert (idle w = false) as Hidle by (unfold idle; by rewrite Hp).
  assert (idle (set_phase WWait w) = true) as Hidle' by (unfold idle; cbn; by rewrite Hok).
  pose proof (owned_push _ _ _ i w _ (qo_owned _ _ H) Hi Hidle Hidle') as Hown.
  assert (countb alive (<[i := set_phase WWait w]> (workers q)) = numOut q) as Hal.
  { pose proof (countb_insert alive _ i w (set_phase WWait w) Hi) as Hc.
    assert (alive w = true) as Ha by (unfold alive; by rewrite Hp). assert (alive (set_phase WWait w) = true) as Ha' by done.
    rewrite Ha, Ha' in Hc. rewrite (qo_numOut _ _ H). lia. }
  assert (∀ k v, <[i := set_phase WWait w]> (workers q) !! k = Some v → worker_ok (working q) k v) as Hwork.
  { intros k v [(<- & <- & _)|[? Hv]]%lookup_insert_cases; [|by apply (qo_worker _ _ H)].
    split; cbn; rewrite ?Hok; [done|done|]. by intros [?|?]. }
  unfold cond_signal in Hs. cbn [clients set_waiting] in Hs. destruct (decide _) as [Hz|Hz].
  - injection Hs as <-.
    split; cbn [workers clients numOut waiting working set_worker set_waiting]; rewrite ?length_insert; try apply H; try done. intros ?; lia.
  - destruct (clients q !! j) as [c|] eqn:Hj; [|done]. cbn in Hs. destruct (asleep c) eqn:Ha; [|done]. injection Hs as <-.
    pose proof (qo_client _ _ H j c Hj) as Hc.
    assert (getting (wake c) = true) as Hg.
    { pose proof (co_work _ _ _ Hc (or_intror Ha)). destruct c as [[] s]; done. }
    pose proof (countb_insert asleep _ j c (wake c) Hj) as C1. pose proof (countb_insert getting _ j c (wake c) Hj) as C2.
    assert (getting c = false ∧ asleep (wake c) = false) as [Hg' Ha'] by (destruct c as [[] s]; done).
    rewrite Ha, Ha', Hg, Hg' in *. cbn [Nat.b2n] in C1, C2.
    destruct (qo_asleep _ _ H) as [H4 H5]; [lia|].
    split; cbn [workers clients numOut waiting working set_worker set_client set_waiting]; rewrite ?length_insert; try apply H; try done.
    + intros k v [(<- & <- & _)|[? Hv]]%lookup_insert_cases; [by apply wake_client_ok|by apply (qo_client _ _ H k)].
    + eapply owned_client; [exact Hown|exact Hj|by rewrite wake_holds].
    + intros _. split; [done|]. rewrite length_app. cbn. lia.
Qed.

Lemma wake_not_asleep c : asleep (wake c) = false.
Proof. by destruct c as [[] s]. Qed.

Lemma owned_broadcast wt ws cs : owned wt ws cs → owned wt ws (wake <$> cs).
Proof.
  intros H.
  assert (∀ k v, (wake <$> cs) !! k = Some v → ∃ u, cs !! k = Some u ∧ holds u = holds v) as Hk.
  { intros k v Hv. rewrite list_lookup_fmap in Hv. destruct (cs !! k) as [u|] eqn:E; [|done]. exists u.
    injection Hv as <-. by rewrite wake_holds. }
  split; try apply H.
  - intros k v i Hv Hh. destruct (Hk k v Hv) as (u & ? & ?). apply (ow_held _ _ _ H k u); congruence.
  - intros k k' v v' i Hv Hv' Hh Hh'. destruct (Hk k v Hv) as (u & ? & ?), (Hk k' v' Hv') as (u' & ? & ?).
    apply (ow_unique _ _ _ H k k' u u' i); congruence.
  - intros i w Hi Hw. destruct (ow_idle _ _ _ H i w Hi Hw) as [?|(k & v & Hv & Hh)]; [by left|right].
    exists k, (wake v). rewrite list_lookup_fmap, Hv, wake_holds. done.
Qed.

(** A thread ends; the last one wakes everybody. *)
Lemma ok_exit n q i w :
  queue_ok n q → workers q !! i = Some w → w_phase w = WExit →
  let q' := set_numOut (pred (numOut q)) (set_worker i (set_phase WDead w) q) in
  queue_ok n (if decide (pred (numOut q) = 0) then cond_broadcast q' else q').
Proof.
  intros H Hi Hp q'. destruct (qo_worker _ _ H i w Hi) as [H1 H2 H3].
  assert (okToExecute w = false) as Hok by (apply not_true_iff_false; intros [[?|?] _]%H1; congruence).
  assert (idle w = false) as Hidle by (unfold idle; by rewrite Hp).
  pose proof (countb_insert alive _ i w (set_phase WDead w) Hi) as Hc.
  assert (alive w = true) as Ha by (unfold alive; by rewrite Hp). assert (alive (set_phase WDead w) = false) as Ha' by done.
  rewrite Ha, Ha' in Hc. cbn [Nat.b2n] in Hc. pose proof (qo_numOut _ _ H) as Hn.
  assert (∀ k v, <[i := set_phase WDead w]> (workers q) !! k = Some v → worker_ok (working q) k v) as Hwork.
  { intros k v [(<- & <- & _)|[? Hv]]%lookup_insert_cases; [|by apply (qo_worker _ _ H)].
    split; cbn; rewrite ?Hok; [done|done|]. by intros [?|?]. }
  assert (owned (waiting q) (<[i := set_phase WDead w]> (workers q)) (clients q)) as Hown
    by (eapply owned_worker; eauto; apply H).
  assert (∀ k v, clients q !! k = Some v → client_ok (pred (numOut q)) (working q) v) as Hcl.
  { intros k v Hv. destruct (qo_client _ _ H k v Hv) as [? ? H6]. split; [done|done|]. intros E. by rewrite H6. }
  case_decide as Hz; split; cbn [workers clients numOut waiting working set_worker set_numOut cond_broadcast set_clients q'];
    rewrite ?length_insert; try apply H; try done; try lia.
  - intros k v Hv. rewrite list_lookup_fmap in Hv. destruct (clients q !! k) as [u|] eqn:E; [|done].
    injection Hv as <-. eapply wake_client_ok, Hcl. done.
  - by apply owned_broadcast.
  - intros (k & v & Hv & Hs)%countb_pos_exists. rewrite list_lookup_fmap in Hv.
    destruct (clients q !! k) as [u|] eqn:E; [|done]. injection Hv as <-. by rewrite wake_not_asleep in Hs.
  - intros Hs. destruct (qo_asleep _ _ H Hs). done.
Qed.

Lemma worker_step_ok n i j q r :
  queue_ok n q → worker_step i j q = Some r → ∃ q', r = Ret q' ∧ queue_ok n q'.
Proof.
  intros H Hs. unfold worker_step in Hs. destruct (workers q !! i) as [w|] eqn:Hi; [|done]. cbn in Hs.
  pose proof (qo_worker _ _ H i w Hi) as [H1 H2 H3].
  assert (∀ p, w_phase w = p → p ≠ WWait → p ≠ WRun → okToExecute w = false) as Hno.
  { intros p <- ? ?. apply not_true_iff_false. by intros [[?|?] _]%H1. }
  destruct (w_phase w) eqn:Hp.
  - injection Hs as <-. eexists. split; [done|]. specialize (Hno _ eq_refl).
    apply (ok_worker n q i w); auto; unfold idle, alive; rewrite ?Hp; try done; [by destruct (shuttingDown q)..|].
    split; cbn; rewrite Hno by done; [done|by destruct (shuttingDown q)|]. intros [?|?]; [done|by destruct (shuttingDown q)].
  - destruct (cond_signal _ _) as [q1|] eqn:E; [|done]. injection Hs as <-. eexists. split; [done|]. by eapply ok_push.
  - destruct (okToExecute w) eqn:Hok; [|done]. injection Hs as <-. eexists. split; [done|].
    apply (ok_worker n q i w); auto; unfold idle, alive; rewrite ?Hp, ?Hok; try done.
    split; cbn; rewrite ?Hok; auto. intros _. split; [by right|]. by apply H1.
  - destruct (H1 (H2 eq_refl)) as [_ [x Hx]]. rewrite Hx in Hs. injection Hs as <-. eexists. split; [done|].
    apply (ok_worker n q i w); auto; unfold idle, alive; rewrite ?Hp; try done. split; cbn; auto; done.
  - rewrite decide_True in Hs by auto. injection Hs as <-. eexists. split; [done|]. specialize (Hno _ eq_refl).
    apply (ok_worker n q i w); auto; unfold idle, alive; rewrite ?Hp; try done.
    + split; cbn; rewrite Hno by done; [done|done|]. by intros [?|?].
    + intros k ? ?. apply list_elem_of_filter. done.
  - injection Hs as <-. eexists. split; [done|]. specialize (Hno _ eq_refl).
    apply (ok_worker n q i w); auto; unfold idle, alive; rewrite ?Hp; try done.
    split; cbn; rewrite Hno by done; [done|done|]. by intros [?|?].
  - injection Hs as <-. eexists. split; [done|]. by apply ok_exit.
  - done.
Qed.

Lemma last_take {A} (l : list A) x : last l = Some x → l = take (pred (length l)) l ++ [x].
Proof.
  intros Hl. apply last_Some in Hl as [l' ->]. rewrite length_app. cbn. rewrite Nat.add_1_r. cbn. by rewrite take_app_length.
Qed.

Lemma getWorker_ok n j c q r :
  queue_ok n q → clients q !! j = Some c → c_phase c = CGet → has_work (c_supply c) = true →
  getWorker j c q = Some r → ∃ q', r = Ret q' ∧ queue_ok n q'.
Proof.
  intros H Hj Hp Hwork Hs. pose proof (qo_client _ _ H j c Hj) as Hc.
  assert (holds c = None ∧ asleep c = false ∧ getting c = true) as (Hh & Ha & Hg)
    by (unfold holds, asleep, getting; by rewrite Hp).
  unfold getWorker in Hs. destruct (decide (waiting q = [] ∧ _)) as [[Hw Hn]|Hdec].
  - injection Hs as <-. eexists. split; [done|]. apply (ok_client n q j c); auto.
    + split; cbn; [done|done|]. by intros [?|?].
    + intros _. rewrite Hw. cbn. split; [done|lia].
  - destruct (decide (numOut q = 0)) as [Hz|Hz].
    + injection Hs as <-. eexists. split; [done|]. apply (ok_client n q j c); auto.
      * split; cbn; [by intros [[? ?]|?]|done|done].
      * intros Hs. exfalso. pose proof (countb_insert asleep _ j c (to_phase CNull c) Hj) as C.
        rewrite Ha in C. cbn [Nat.b2n asleep to_phase c_phase] in C. destruct (qo_asleep _ _ H); [lia|done].
    + destruct (last (waiting q)) as [i|] eqn:Hl; [|apply last_None in Hl; tauto].
      injection Hs as <-. eexists. split; [done|]. apply last_take in Hl.
      set (rest := take (pred (length (waiting q))) (waiting q)) in *.
      pose proof (countb_insert asleep _ j c (to_phase (CInsert i) c) Hj) as C1.
      pose proof (countb_insert getting _ j c (to_phase (CInsert i) c) Hj) as C2.
      rewrite Ha in C1. rewrite Hg in C2. cbn [Nat.b2n asleep getting to_phase c_phase] in C1, C2.
      assert (length (waiting q) = S (length rest)) as Hlen by (rewrite Hl, length_app; cbn; lia).
      split; cbn [workers clients numOut waiting working set_client set_waiting]; try apply H; try done.
      * intros k v [(<- & <- & _)|[? Hv]]%lookup_insert_cases; [|by apply (qo_client _ _ H k)].
        split; cbn; [done|done|]. by intros [?|?].
      * apply (owned_pop _ _ _ j c _ i); [|done..]. rewrite <-Hl. apply H.
      * intros Hs. destruct (qo_asleep _ _ H); [lia|]. split; [done|lia].
Qed.

Lemma execute_ok n i j c q r :
  queue_ok n q → clients q !! j = Some c → c_phase c = CExecute i →
  execute i j c q = Some r → ∃ q', r = Ret q' ∧ queue_ok n q'.
Proof.
  intros H Hj Hp Hs. pose proof (qo_client _ _ H j c Hj) as Hc.
  assert (holds c = Some i ∧ asleep c = false ∧ getting c = false) as (Hh & Ha & Hg)
    by (unfold holds, asleep, getting; by rewrite Hp).
  destruct (ow_held _ _ _ (qo_owned _ _ H) j c i Hj Hh) as (_ & w & Hi & Hid).
  unfold execute in Hs. destruct (next_work (c_supply c)) as [[x s]|]; [|done]. cbn in Hs. rewrite Hi in Hs.
  injection Hs as <-. eexists. split; [done|].
  assert (w_phase w = WWait) as Hw by (unfold idle in Hid; apply andb_true_iff in Hid as [Hid _]; by apply bool_decide_eq_true in Hid).
  assert (alive w = true ∧ alive (Worker (w_phase w) true (Some x)) = true) as [Hal Hal'] by (unfold alive; cbn; by rewrite Hw).
  pose proof (countb_insert alive _ i w (Worker (w_phase w) true (Some x)) Hi) as C. rewrite Hal, Hal' in C.
  split; cbn [workers clients numOut waiting working set_client set_worker]; rewrite ?length_insert; try apply H.
  - rewrite (qo_numOut _ _ H). lia.
  - intros k v [(<- & <- & _)|[? Hv]]%lookup_insert_cases; [|by apply (qo_worker _ _ H)].
    split; cbn; [by rewrite Hw; auto|done|]. intros _. by eapply co_execute.
  - intros k v [(<- & <- & _)|[? Hv]]%lookup_insert_cases; [|by apply (qo_client _ _ H k)].
    split; cbn; [by intros [[? ?]|?]|done|]. by intros [?|?].
  - apply (owned_give _ _ _ j c _ i w); try done; [apply H|]. unfold idle. cbn. by rewrite andb_false_r.
  - apply (ok_counts n q j c); auto. by rewrite Hg.
Qed.

Lemma client_step_ok n j q r :
  queue_ok n q → client_step j q = Some r → ∃ q', r = Ret q' ∧ queue_ok n q'.
Proof.
  intros H Hs. unfold client_step in Hs. destruct (clients q !! j) as [c|] eqn:Hj; [|done]. cbn in Hs.
  pose proof (qo_client _ _ H j c Hj) as Hc.
  destruct (c_phase c) as [| | |i|i| |] eqn:Hp; try done.
  - injection Hs as <-. eexists. split; [done|]. apply (ok_client n q j c); auto.
    + unfold holds. by rewrite Hp.
    + split; cbn; [by intros [[? ?]|?]|done|by intros [?|?]].
    + apply (ok_counts n q j c); auto. unfold getting. by rewrite Hp.
  - destruct (c_supply c) as [[|x ids]|] eqn:Hsup; [done| |]; apply (getWorker_ok n j c q r); auto; by rewrite Hsup.
  - injection Hs as <-. eexists. split; [done|]. apply (ok_client n q j c); auto.
    + unfold holds. by rewrite Hp.
    + split; cbn; [|intros k [= <-]; set_solver|by intros [?|?]]. intros _. apply (co_work _ _ _ Hc). left.
      unfold holds. rewrite Hp. by eexists.
    + intros k Hk. destruct (decide (k = i)) as [->|]; [set_solver|]. apply list_elem_of_further, list_elem_of_filter. done.
    + apply (ok_counts n q j c); auto. unfold getting. by rewrite Hp.
  - by eapply execute_ok.
  - destruct (c_supply c) as [|]; [done|]. destruct (decide _) as [Hd|]; [|done]. injection Hs as <-. eexists. split; [done|].
    apply (ok_client n q j c); auto.
    + unfold holds. by rewrite Hp.
    + split; cbn; [by intros [[? ?]|?]|done|]. intros _. apply (co_null _ _ _ Hc). by left.
    + apply (ok_counts n q j c); auto. unfold getting. by rewrite Hp.
Qed.

Lemma queue_step_ok n t q r : queue_ok n q → queue_step t q = Some r → ∃ q', r = Ret q' ∧ queue_ok n q'.
Proof.
  intros H. destruct t as [i j|j|j]; cbn.
  - by apply worker_step_ok.
  - by apply client_step_ok.
  - destruct (clients q !! j) as [c|] eqn:Hj; [|done]. cbn. destruct (asleep c) eqn:Ha; [|done].
    intros [= <-]. eexists. split; [done|]. by eapply ok_spurious.
Qed.

Lemma run_queue_ok n ts q r : queue_ok n q → run_queue ts q = Some r → ∃ q', r = Ret q' ∧ queue_ok n q'.
Proof.
  revert q. induction ts as [|t ts IH]; intros q H; cbn; [intros [= <-]; eauto|].
  destruct (queue_step t q) as [o|] eqn:E; [|done].
  destruct (queue_step_ok n t q o H E) as (q' & -> & Hq). by apply IH.
Qed.
