(* ===== verification/WorkerQueueRuns.v ===== *)
(** * WorkerQueueRuns: what runs of the worker queue do

    Proves of the worker queue, from its invariant, that however its threads
    are interleaved every run ends, that none stops the process, and that at the
    end every work has been executed once and the destructor has joined. *)

From S2P Require Import Prelude.
From S2P Require Import WorkerQueue.

Implicit Types (q : queue) (w : worker) (c : client).

(** ** Works *)

Definition work_id (x : work) : option nat := match x with Work i => Some i | NothingWork => None end.

(** The work a worker has been given and not executed. *)
Definition given w : list nat := if okToExecute w then option_list (runMe w ≫= work_id) else [].

Definition todo c : list nat := match c_supply c with Works ids => ids | Destructor => [] end.

(** All works: executed, given, and still to be given. *)
Definition all_works q : list nat := omap work_id (executed q) ++ (workers q ≫= given) ++ (clients q ≫= todo).

Lemma todo_wake c : todo (wake c) = todo c.
Proof. by destruct c as [[] s]. Qed.

(** A worker or a client changes without touching works. *)
Lemma all_works_worker q i w w' :
  workers q !! i = Some w → given w = given w' → (<[i := w']> (workers q)) ≫= given = workers q ≫= given.
Proof. apply bind_insert_same. Qed.

Lemma cond_signal_works j q q' : cond_signal j q = Some q' → all_works q' = all_works q ∧ workers q' = workers q.
Proof.
  unfold cond_signal. case_decide; [by intros [= <-]|]. destruct (clients q !! j) as [c|] eqn:Hj; [|done]. cbn.
  destruct (asleep c); [|done]. intros [= <-]. split; [|done]. unfold all_works. cbn.
  by rewrite (bind_insert_same todo _ j c (wake c) Hj (eq_sym (todo_wake c))).
Qed.

Lemma broadcast_works (cs : list client) : (wake <$> cs) ≫= todo = cs ≫= todo.
Proof. rewrite list_fmap_bind. apply list_bind_ext; [|done]. intros c. apply todo_wake. Qed.

Lemma worker_step_works n i j q q' :
  queue_ok n q → worker_step i j q = Some (Ret q') → all_works q' ≡ₚ all_works q.
Proof.
  intros H Hs. unfold worker_step in Hs. destruct (workers q !! i) as [w|] eqn:Hi; [|done]. cbn in Hs.
  pose proof (qo_worker _ _ H i w Hi) as [H1 H2 H3].
  assert (∀ w', given w = given w' → (<[i := w']> (workers q)) ≫= given = workers q ≫= given) as Hsame
    by (intros w' Hw; by apply bind_insert_same with w).
  destruct (w_phase w) eqn:Hp; try done.
  - injection Hs as <-. unfold all_works. cbn [executed workers clients set_worker]. by rewrite Hsame.
  - destruct (cond_signal _ _) as [q1|] eqn:E; [|done]. injection Hs as <-.
    destruct (cond_signal_works _ _ _ E) as [E1 E2]. rewrite <-E1 at 1. unfold all_works.
    cbn [executed workers clients set_worker set_waiting] in *. rewrite E2. by rewrite Hsame.
  - destruct (okToExecute w); [|done]. injection Hs as <-. unfold all_works. cbn [executed workers clients set_worker]. by rewrite Hsame.
  - destruct (runMe w) as [x|] eqn:Hx; [|done]. injection Hs as <-. unfold all_works.
    cbn [executed workers clients set_worker log_work]. rewrite omap_app.
    pose proof (bind_insert_perm given (workers q) i w (Worker WErase false (Some x)) Hi) as Hb.
    assert (given w = omap work_id [x]) as Hg by (unfold given; rewrite (H2 eq_refl), Hx; by destruct x).
    rewrite Hg in Hb. cbn [given okToExecute app] in Hb. rewrite <-(assoc_L app). by rewrite (assoc_L app _ _ (_ ≫= todo)), Hb.
  - destruct (decide _); [|done]. injection Hs as <-. unfold all_works. cbn [executed workers clients set_worker set_working]. by rewrite Hsame.
  - injection Hs as <-. unfold all_works. cbn [executed workers clients set_worker]. rewrite Hsame; [done|].
    unfold given. cbn. destruct (okToExecute w) eqn:E; [|done]. destruct (H1 eq_refl) as [[?|?] _]; congruence.
  - injection Hs as <-. unfold all_works. case_decide; cbn [executed workers clients set_worker set_numOut cond_broadcast set_clients];
      by rewrite ?broadcast_works, Hsame.
Qed.

Lemma client_step_works n j q q' :
  queue_ok n q → client_step j q = Some (Ret q') → all_works q' ≡ₚ all_works q.
Proof.
  intros H Hs. unfold client_step in Hs. destruct (clients q !! j) as [c|] eqn:Hj; [|done]. cbn in Hs.
  assert (∀ p, (<[j := to_phase p c]> (clients q)) ≫= todo = clients q ≫= todo) as Hsame
    by (intros p; by apply bind_insert_same with c).
  assert (getWorker j c q = Some (Ret q') → all_works q' ≡ₚ all_works q) as Hget.
  { unfold getWorker. destruct (decide (waiting q = [] ∧ _)); [|destruct (decide (numOut q = 0)); [|destruct (last (waiting q)); [|done]]]; intros [= <-];
      unfold all_works; cbn [executed workers clients set_client set_waiting]; by rewrite Hsame. }
  destruct (c_phase c) as [| | |i|i| |] eqn:Hp; try done.
  - injection Hs as <-. unfold all_works. cbn [executed workers clients set_client shut_down]. by rewrite Hsame.
  - destruct (c_supply c) as [[|]|]; [done| |]; auto.
  - injection Hs as <-. unfold all_works. cbn [executed workers clients set_client set_working]. by rewrite Hsame.
  - unfold execute in Hs. destruct (next_work (c_supply c)) as [[x s]|] eqn:Hn; [|done]. cbn in Hs.
    destruct (ow_held _ _ _ (qo_owned _ _ H) j c i Hj) as (_ & w & Hi & Hid); [unfold holds; by rewrite Hp|].
    rewrite Hi in Hs. injection Hs as <-. unfold all_works. cbn [executed workers clients set_client set_worker].
    pose proof (bind_insert_perm given (workers q) i w (Worker (w_phase w) true (Some x)) Hi) as Hw.
    pose proof (bind_insert_perm todo (clients q) j c (Client CGet s) Hj) as Hc.
    assert (given w = []) as Hg.
    { unfold idle in Hid. apply andb_true_iff in Hid as [_ Hid]. apply negb_true_iff in Hid. unfold given. by rewrite Hid. }
    rewrite Hg in Hw. cbn [app] in Hw. rewrite Hw.
    assert (todo c = given (Worker (w_phase w) true (Some x)) ++ todo (Client CGet s)) as Ht.
    { unfold todo. destruct (c_supply c) as [[|y ids]|]; cbn in Hn; simplify_eq; done. }
    rewrite Ht in Hc. apply Permutation_app_head.
    rewrite <-(assoc_L app). rewrite <-(assoc_L app) in Hc.
    rewrite (Permutation_app_swap_app (given _)). apply Permutation_app_head.
    apply (Permutation_app_inv_l (todo (Client CGet s))). rewrite <-Hc. by rewrite (Permutation_app_swap_app (given _)).
  - destruct (c_supply c); [done|]. destruct (decide _); [|done]. injection Hs as <-.
    unfold all_works. cbn [executed workers clients set_client]. by rewrite Hsame.
Qed.

(** ** Shutting down *)

(** Nothing is given before [shuttingDown] is set. *)
Record shut_ok q : Prop := {
  sh_client j c : clients q !! j = Some c → c_supply c = Destructor → c_phase c ≠ CStart → shuttingDown q = true;
  sh_worker i w : workers q !! i = Some w → runMe w = Some NothingWork → shuttingDown q = true;
  sh_works j c ids : clients q !! j = Some c → c_supply c = Works ids → c_phase c ≠ CStart ∧ c_phase c ≠ CJoined
}.

Lemma shut_worker q i w w' wt l no ex :
  shut_ok q → workers q !! i = Some w → (runMe w' = Some NothingWork → shuttingDown q = true) →
  shut_ok (Queue (shuttingDown q) wt l no (<[i := w']> (workers q)) (clients q) ex).
Proof.
  intros H Hi Hw. split; cbn; [apply H| |apply H]. intros k v [(<- & <- & _)|[? Hv]]%lookup_insert_cases; [done|by eapply sh_worker].
Qed.

Lemma shut_client q j c c' sd wt l no ex :
  shut_ok q → clients q !! j = Some c → (shuttingDown q = true → sd = true) →
  (c_supply c' = Destructor → c_phase c' ≠ CStart → sd = true) →
  (∀ ids, c_supply c' = Works ids → c_phase c' ≠ CStart ∧ c_phase c' ≠ CJoined) →
  shut_ok (Queue sd wt l no (workers q) (<[j := c']> (clients q)) ex).
Proof.
  intros H Hj Hsd Hc Hws. split; cbn.
  - intros k v [(<- & <- & _)|[? Hv]]%lookup_insert_cases ? ?; [auto|]. apply Hsd. by eapply sh_client.
  - intros i w Hi Hx. apply Hsd. by eapply sh_worker.
  - intros k v ids [(<- & <- & _)|[? Hv]]%lookup_insert_cases Hs; [by eapply Hws|by eapply sh_works].
Qed.

Lemma wake_supply c : c_supply (wake c) = c_supply c.
Proof. by destruct c as [[] s]. Qed.

Lemma wake_start c : c_phase (wake c) ≠ CStart → c_phase c ≠ CStart.
Proof. by destruct c as [[] s]. Qed.

Lemma wake_works c : c_phase c ≠ CStart ∧ c_phase c ≠ CJoined → c_phase (wake c) ≠ CStart ∧ c_phase (wake c) ≠ CJoined.
Proof. by destruct c as [[] s]. Qed.

(** A client that is woken. *)
Lemma shut_wake q j c : shut_ok q → clients q !! j = Some c → shut_ok (set_client j (wake c) q).
Proof.
  intros H Hj. apply (shut_client q j c); auto.
  - rewrite wake_supply. intros ? ?%wake_start. by eapply sh_client.
  - intros ids. rewrite wake_supply. intros Hs. by eapply wake_works, sh_works.
Qed.

Lemma shut_signal j q q' : shut_ok q → cond_signal j q = Some q' → shut_ok q' ∧ shuttingDown q' = shuttingDown q ∧ workers q' = workers q.
Proof.
  intros H. unfold cond_signal. case_decide; [by intros [= <-]|]. destruct (clients q !! j) as [c|] eqn:Hj; [|done]. cbn.
  destruct (asleep c); [|done]. intros [= <-]. split; [by apply shut_wake|done].
Qed.

Lemma worker_step_shut i j q q' : shut_ok q → worker_step i j q = Some (Ret q') → shut_ok q'.
Proof.
  intros H Hs. unfold worker_step in Hs. destruct (workers q !! i) as [w|] eqn:Hi; [|done]. cbn in Hs.
  pose proof (sh_worker _ H i w Hi) as Hw.
  destruct (w_phase w) eqn:Hp; try done.
  - injection Hs as <-. by apply (shut_worker q i w).
  - destruct (cond_signal _ _) as [q1|] eqn:E; [|done]. injection Hs as <-.
    destruct (shut_signal j (set_waiting (waiting q ++ [i]) q) q1) as (H1 & H2 & H3); [by destruct H|done|].
    apply (shut_worker q1 i w); [done|by rewrite H3|]. cbn. rewrite H2. done.
  - destruct (okToExecute w); [|done]. injection Hs as <-. by apply (shut_worker q i w).
  - destruct (runMe w) as [x|] eqn:Hx; [|done]. injection Hs as <-. by apply (shut_worker q i w).
  - destruct (decide _); [|done]. injection Hs as <-. by apply (shut_worker q i w).
  - injection Hs as <-. by apply (shut_worker q i w).
  - injection Hs as <-. assert (shut_ok (set_numOut (pred (numOut q)) (set_worker i (set_phase WDead w) q))) as [H1 H2 H3]
      by by apply (shut_worker q i w).
    case_decide; [|done]. split; [|done|]; intros k v; cbn; rewrite list_lookup_fmap;
      (destruct (clients q !! k) as [u|] eqn:Hu; [|by try intros ?]); [|intros ids]; intros [= <-]; rewrite wake_supply.
    + intros ? ?%wake_start. by eapply H1.
    + intros ?. by eapply wake_works, H3.
Qed.

Lemma client_step_shut j q q' : shut_ok q → client_step j q = Some (Ret q') → shut_ok q'.
Proof.
  intros H Hs. unfold client_step in Hs. destruct (clients q !! j) as [c|] eqn:Hj; [|done]. cbn in Hs.
  pose proof (sh_client _ H j c Hj) as Hc. pose proof (sh_works _ H j c) as Hws.
  assert (c_phase c = CGet → getWorker j c q = Some (Ret q') → shut_ok q') as Hget.
  { intros Hp. rewrite Hp in Hc. unfold getWorker.
    destruct (decide (waiting q = [] ∧ _)); [|destruct (decide (numOut q = 0)); [|destruct (last (waiting q)); [|done]]]; intros [= <-];
      apply (shut_client q j c); auto. }
  destruct (c_phase c) as [| | |i|i| |] eqn:Hp; try done.
  - injection Hs as <-. apply (shut_client q j c); auto; try done.
  - destruct (c_supply c) as [[|]|]; [done| |]; auto.
  - injection Hs as <-. apply (shut_client q j c); auto.
  - unfold execute in Hs. destruct (next_work (c_supply c)) as [[x s]|] eqn:Hn; [|done]. cbn in Hs.
    destruct (workers q !! i) as [w|] eqn:Hi; [|done]. injection Hs as <-.
    assert (s = Destructor → shuttingDown q = true) as Hsd.
    { intros ->. apply Hc; [|done]. destruct (c_supply c) as [[]|]; by simplify_eq/=. }
    assert (shut_ok (set_worker i (Worker (w_phase w) true (Some x)) q)) as H'.
    { apply (shut_worker q i w); auto. cbn. intros [= ->]. apply Hsd. destruct (c_supply c) as [[]|]; by simplify_eq/=. }
    apply (shut_client (set_worker i (Worker (w_phase w) true (Some x)) q) j c); auto.
  - destruct (c_supply c) eqn:Hsup; [done|]. destruct (decide _); [|done]. injection Hs as <-. apply (shut_client q j c); auto. cbn. congruence.
Qed.

(** ** Runs end *)

Definition gives_up w : bool := bool_decide (runMe w = Some NothingWork).

(** What a worker can still do before it is idle, with [m] clients, and the
    credit of an idle one: to do nothing once and to end. *)
Definition worker_left (sd : bool) (m : nat) w : nat :=
  match w_phase w with
  | WTest => if sd then 2 * m + 2 else 2 * m + 13
  | WPush => 2 * m + 12
  | WWait => if okToExecute w then (if gives_up w then 2 * m + 6 else 2 * m + 17) else 2 * m + 6
  | WRun => if gives_up w then 2 * m + 5 else 2 * m + 16
  | WErase => if gives_up w then 2 * m + 4 else 2 * m + 15
  | WReset => if gives_up w then 2 * m + 3 else 2 * m + 14
  | WExit => 2 * m + 1
  | WDead => 0
  end.

Definition phase_left (p : client_phase) : nat :=
  match p with CStart => 3 | CGet => 2 | CAsleep => 0 | CInsert _ => 4 | CExecute _ => 3 | CNull => 1 | CJoined => 0 end.

Definition client_left c : nat := phase_left (c_phase c) + 12 * length (todo c).

Definition turns_left (m : nat) q : nat :=
  sum_list_with (worker_left (shuttingDown q) m) (workers q) + sum_list_with client_left (clients q) + 3 * length (waiting q).

Lemma wake_left c : client_left (wake c) = client_left c + 2 * Nat.b2n (asleep c).
Proof. unfold client_left. rewrite todo_wake. destruct c as [[] s]; cbn -[Nat.mul]; lia. Qed.

Lemma broadcast_left (cs : list client) :
  sum_list_with client_left (wake <$> cs) ≤ sum_list_with client_left cs + 2 * length cs.
Proof.
  induction cs as [|c cs IH]; [done|]. cbn [fmap list_fmap sum_list_with length]. change (list_fmap _ _ wake cs) with (wake <$> cs).
  pose proof (wake_left c). destruct (asleep c); cbn [Nat.b2n] in *; lia.
Qed.

Lemma worker_left_shut (sd : bool) m w : worker_left true m w ≤ worker_left sd m w.
Proof. unfold worker_left. destruct (w_phase w), sd; lia. Qed.

Lemma workers_left_shut sd m l : sum_list_with (worker_left true m) l ≤ sum_list_with (worker_left sd m) l.
Proof. induction l as [|w l IH]; [done|]. cbn [sum_list_with]. pose proof (worker_left_shut sd m w). lia. Qed.

Lemma signal_left m j q q' :
  cond_signal j q = Some q' → turns_left m q' ≤ turns_left m q + 2 ∧ workers q' = workers q ∧ shuttingDown q' = shuttingDown q ∧ length (clients q') = length (clients q).
Proof.
  unfold cond_signal. case_decide; [intros [= <-]; split; [lia|done]|]. destruct (clients q !! j) as [c|] eqn:Hj; [|done]. cbn.
  destruct (asleep c) eqn:Ha; [|done]. intros [= <-]. split; [|by cbn; rewrite length_insert]. unfold turns_left. cbn [set_client workers clients waiting shuttingDown].
  pose proof (sum_list_insert client_left _ j c (wake c) Hj). pose proof (wake_left c) as Hw. rewrite Ha in Hw. cbn [Nat.b2n] in Hw. lia.
Qed.

Lemma worker_step_left n m i j q q' :
  queue_ok n q → shut_ok q → length (clients q) = m → worker_step i j q = Some (Ret q') →
  S (turns_left m q') ≤ turns_left m q ∧ length (clients q') = m.
Proof.
  intros H Hsh Hm Hs. unfold worker_step in Hs. destruct (workers q !! i) as [w|] eqn:Hi; [|done]. cbn in Hs.
  pose proof (qo_worker _ _ H i w Hi) as [H1 H2 H3].
  pose proof (λ w', sum_list_insert (worker_left (shuttingDown q) m) _ i w w' Hi) as Hsum.
  destruct (w_phase w) eqn:Hp; try done.
  - injection Hs as <-. split; [|done]. unfold turns_left. cbn [set_worker workers clients waiting shuttingDown].
    specialize (Hsum (set_phase (if shuttingDown q then WExit else WPush) w)). unfold worker_left in Hsum at 2 4. rewrite Hp in Hsum.
    destruct (shuttingDown q); cbn [set_phase w_phase] in Hsum; lia.
  - destruct (cond_signal _ _) as [q1|] eqn:E; [|done]. injection Hs as <-.
    destruct (signal_left m _ _ _ E) as (E1 & E2 & E3 & E4). split; [|cbn in *; congruence].
    unfold turns_left in *. cbn [set_worker set_waiting workers clients waiting shuttingDown] in *.
    rewrite E2, E3 in *. rewrite length_app in E1. cbn [length] in E1.
    specialize (Hsum (set_phase WWait w)). unfold worker_left in Hsum at 2 4. rewrite Hp in Hsum. cbn [set_phase w_phase okToExecute] in Hsum.
    assert (okToExecute w = false) as Hok by (apply not_true_iff_false; intros [[?|?] _]%H1; congruence).
    rewrite Hok in Hsum. lia.
  - destruct (okToExecute w) eqn:Hok; [|done]. injection Hs as <-. split; [|done].
    unfold turns_left. cbn [set_worker workers clients waiting shuttingDown].
    specialize (Hsum (set_phase WRun w)). unfold worker_left in Hsum at 2 4. rewrite Hp, Hok in Hsum.
    unfold gives_up in Hsum. cbn [set_phase w_phase runMe] in Hsum. case_bool_decide; lia.
  - destruct (runMe w) as [x|] eqn:Hx; [|done]. injection Hs as <-. split; [|done].
    unfold turns_left. cbn [set_worker log_work workers clients waiting shuttingDown].
    specialize (Hsum (Worker WErase false (Some x))). unfold worker_left in Hsum at 2 4. rewrite Hp in Hsum.
    unfold gives_up in Hsum. cbn [w_phase runMe] in Hsum. rewrite Hx in Hsum. case_bool_decide; lia.
  - destruct (decide _); [|done]. injection Hs as <-. split; [|done].
    unfold turns_left. cbn [set_worker set_working workers clients waiting shuttingDown].
    specialize (Hsum (set_phase WReset w)). unfold worker_left in Hsum at 2 4. rewrite Hp in Hsum.
    unfold gives_up in Hsum. cbn [set_phase w_phase runMe] in Hsum. case_bool_decide; lia.
  - injection Hs as <-. split; [|done]. unfold turns_left. cbn [set_worker workers clients waiting shuttingDown].
    specialize (Hsum (Worker WTest (okToExecute w) None)). unfold worker_left in Hsum at 2 4. rewrite Hp in Hsum.
    unfold gives_up in Hsum. cbn [w_phase] in Hsum. case_bool_decide as Hg.
    + rewrite (sh_worker _ Hsh i w Hi Hg) in *. lia.
    + destruct (shuttingDown q); lia.
  - injection Hs as <-. specialize (Hsum (set_phase WDead w)). unfold worker_left in Hsum at 2 4. rewrite Hp in Hsum.
    cbn [set_phase w_phase] in Hsum. pose proof (broadcast_left (clients q)).
    split; [|case_decide; cbn [cond_broadcast set_clients set_numOut set_worker clients]; rewrite ?length_fmap; done].
    unfold turns_left. case_decide; cbn [cond_broadcast set_clients set_numOut set_worker workers clients waiting shuttingDown]; lia.
Qed.

Lemma client_step_left n m j q q' :
  queue_ok n q → length (clients q) = m → client_step j q = Some (Ret q') →
  S (turns_left m q') ≤ turns_left m q ∧ length (clients q') = m.
Proof.
  intros H Hm Hs. unfold client_step in Hs. destruct (clients q !! j) as [c|] eqn:Hj; [|done]. cbn in Hs.
  pose proof (λ c', sum_list_insert client_left _ j c c' Hj) as Hsum. unfold client_left in Hsum at 2 4.
  assert (c_phase c = CGet → getWorker j c q = Some (Ret q') → S (turns_left m q') ≤ turns_left m q ∧ length (clients q') = m) as Hget.
  { intros Hp. rewrite Hp in Hsum. unfold getWorker.
    destruct (decide (waiting q = [] ∧ _)); [|destruct (decide (numOut q = 0)); [|destruct (last (waiting q)) as [i|] eqn:Hl; [|done]]]; intros [= <-];
      unfold turns_left; cbn [set_client set_waiting workers clients waiting shuttingDown]; rewrite length_insert; (split; [|done]).
    - specialize (Hsum (to_phase CAsleep c)). unfold todo in Hsum. cbn [to_phase c_phase c_supply phase_left] in Hsum. lia.
    - specialize (Hsum (to_phase CNull c)). unfold todo in Hsum. cbn [to_phase c_phase c_supply phase_left] in Hsum. lia.
    - specialize (Hsum (to_phase (CInsert i) c)). unfold todo in Hsum. cbn [to_phase c_phase c_supply phase_left] in Hsum.
      rewrite length_take. apply last_take in Hl. apply (f_equal length) in Hl. rewrite length_app in Hl. cbn [length] in Hl. rewrite length_take in Hl. lia. }
  destruct (c_phase c) as [| | |i|i| |] eqn:Hp; try done.
  - injection Hs as <-. unfold turns_left. cbn [set_client shut_down workers clients waiting shuttingDown]. rewrite length_insert. split; [|done].
    specialize (Hsum (to_phase CGet c)). unfold todo in Hsum. cbn [to_phase c_phase c_supply phase_left] in Hsum.
    pose proof (workers_left_shut (shuttingDown q) m (workers q)). lia.
  - destruct (c_supply c) as [[|]|]; [done| |]; auto.
  - injection Hs as <-. unfold turns_left. cbn [set_client set_working workers clients waiting shuttingDown]. rewrite length_insert. split; [|done].
    specialize (Hsum (to_phase (CExecute i) c)). unfold todo in Hsum. cbn [to_phase c_phase c_supply phase_left] in Hsum. lia.
  - unfold execute in Hs. destruct (next_work (c_supply c)) as [[x s]|] eqn:Hn; [|done]. cbn in Hs.
    destruct (ow_held _ _ _ (qo_owned _ _ H) j c i Hj) as (_ & w & Hi & Hid); [unfold holds; by rewrite Hp|].
    rewrite Hi in Hs. injection Hs as <-. unfold turns_left. cbn [set_client set_worker workers clients waiting shuttingDown]. rewrite length_insert. split; [|done].
    specialize (Hsum (Client CGet s)). unfold todo in Hsum. cbn [c_phase c_supply phase_left] in Hsum.
    unfold idle in Hid. apply andb_true_iff in Hid as [Hw Hok]. apply bool_decide_eq_true in Hw. apply negb_true_iff in Hok.
    pose proof (sum_list_insert (worker_left (shuttingDown q) m) _ i w (Worker (w_phase w) true (Some x)) Hi) as Hws.
    unfold worker_left in Hws at 2 4. rewrite Hw, Hok in Hws. rewrite Hw. unfold gives_up in Hws. cbn [w_phase okToExecute runMe] in Hws.
    destruct (c_supply c) as [[|y ids]|]; cbn in Hn; simplify_eq; cbn [length] in Hsum; case_bool_decide; try done; lia.
  - destruct (c_supply c); [done|]. destruct (decide _); [|done]. injection Hs as <-.
    unfold turns_left. cbn [set_client workers clients waiting shuttingDown]. rewrite length_insert. split; [|done].
    specialize (Hsum (to_phase CJoined c)). unfold todo in Hsum. cbn [to_phase c_phase c_supply phase_left] in Hsum. lia.
Qed.

(** ** No thread waits for ever *)

Definition is_spurious (t : turn) : bool := match t with Spurious _ => true | _ => false end.

(** Nobody can go on, unless woken without a signal. *)
Definition stuck q : Prop := ∀ t, is_spurious t = false → queue_step t q = None.

(** A client that has given all its works, or was told that there are no
    workers; a destructor that has joined. *)
Definition finished c : Prop :=
  match c_supply c with
  | Works ids => c_phase c = CNull ∨ (c_phase c = CGet ∧ ids = [])
  | Destructor => c_phase c = CJoined
  end.

Lemma stuck_worker n q i w :
  queue_ok n q → stuck q → workers q !! i = Some w → idle w = true ∨ w_phase w = WDead.
Proof.
  intros H Hst Hi.
  assert (∀ j, worker_step i j q = None) as Hno by (intros j; by apply (Hst (WorkerTurn i j))).
  unfold worker_step in Hno. rewrite Hi in Hno. cbn in Hno. unfold idle.
  destruct (w_phase w) eqn:Hp; try by specialize (Hno 0).
  - exfalso. unfold cond_signal in Hno. cbn [clients set_waiting] in Hno.
    destruct (decide (countb asleep (clients q) = 0)) as [|Hz]; [by specialize (Hno 0)|].
    destruct (countb_pos_exists asleep (clients q)) as (j & c & Hj & Ha); [lia|].
    specialize (Hno j). rewrite Hj in Hno. cbn in Hno. by rewrite Ha in Hno.
  - specialize (Hno 0). left. by destruct (okToExecute w).
  - specialize (Hno 0). by destruct (runMe w).
  - specialize (Hno 0). by destruct (decide _).
  - by right.
Qed.

Lemma stuck_client n q j c :
  queue_ok n q → stuck q → clients q !! j = Some c →
  holds c = None ∧ getting c = false ∧ c_phase c ≠ CStart.
Proof.
  intros H Hst Hj. pose proof (Hst (ClientTurn j) eq_refl) as Hno. cbn in Hno. unfold client_step in Hno.
  rewrite Hj in Hno. cbn in Hno. pose proof (qo_client _ _ H j c Hj) as Hc.
  unfold holds, getting. destruct (c_phase c) as [| | |i|i| |] eqn:Hp; try done.
  - assert (getWorker j c q ≠ None) as Hg.
    { unfold getWorker. destruct (decide _); [done|]. destruct (decide _); [done|]. by destruct (last _). }
    by destruct (c_supply c) as [[|]|].
  - exfalso. unfold execute in Hno.
    destruct (ow_held _ _ _ (qo_owned _ _ H) j c i Hj) as (_ & w & Hi & _); [unfold holds; by rewrite Hp|].
    rewrite Hi in Hno. assert (has_work (c_supply c) = true) as Hw.
    { apply (co_work _ _ _ Hc). left. unfold holds. rewrite Hp. by eexists. }
    by destruct (c_supply c) as [[|]|].
Qed.

Lemma stuck_awake n q : queue_ok n q → stuck q → countb asleep (clients q) = 0.
Proof.
  intros H Hst. destruct (decide (countb asleep (clients q) = 0)) as [|Hz]; [done|exfalso].
  destruct (qo_asleep _ _ H) as [Hn Hw]; [lia|].
  assert (countb getting (clients q) = 0) as Hg.
  { destruct (decide (countb getting (clients q) = 0)) as [|Hne]; [done|exfalso].
    destruct (countb_pos_exists getting (clients q)) as (j & c & Hj & Hgc); [lia|].
    destruct (stuck_client n q j c H Hst Hj) as (_ & Hf & _). congruence. }
  rewrite Hg in Hw. assert (waiting q = []) as Hnil by (destruct (waiting q); [done|cbn in Hw; lia]).
  rewrite (qo_numOut _ _ H) in Hn. destruct (countb_pos_exists alive (workers q)) as (i & w & Hi & Ha); [lia|].
  destruct (stuck_worker n q i w H Hst Hi) as [Hid|Hd]; [|unfold alive in Ha; by rewrite Hd in Ha].
  destruct (ow_idle _ _ _ (qo_owned _ _ H) i w Hi Hid) as [Hin|(j & c & Hj & Hh)].
  - rewrite Hnil in Hin. by apply not_elem_of_nil in Hin.
  - destruct (stuck_client n q j c H Hst Hj) as (Hf & _). congruence.
Qed.

Lemma numOut_dead n q : queue_ok n q → numOut q = 0 → Forall (λ w, w_phase w = WDead) (workers q).
Proof.
  intros H Hz. apply Forall_lookup. intros i w Hi. destruct (decide (w_phase w = WDead)) as [|Hne]; [done|exfalso].
  pose proof (countb_lookup_pos alive (workers q) i w Hi) as Hp. rewrite <-(qo_numOut _ _ H) in Hp.
  assert (0 < numOut q); [|lia]. apply Hp. unfold alive. by rewrite bool_decide_eq_false_2.
Qed.

Lemma stuck_finished n q j c : queue_ok n q → shut_ok q → stuck q → clients q !! j = Some c → finished c.
Proof.
  intros H Hsh Hst Hj. destruct (stuck_client n q j c H Hst Hj) as (Hh & Hg & Hs).
  pose proof (λ ids, sh_works _ Hsh j c ids Hj) as Hws.
  pose proof (stuck_awake n q H Hst) as Haw. pose proof (qo_client _ _ H j c Hj) as Hc.
  assert (asleep c = false) as Ha.
  { apply not_true_iff_false. intros Ha. pose proof (countb_lookup_pos asleep _ j c Hj Ha). lia. }
  unfold finished, getting, holds, asleep in *. destruct (c_supply c) as [ids|] eqn:Hsup.
  - destruct (Hws ids eq_refl). destruct (c_phase c); try done; auto. destruct ids; [auto|done].
  - destruct (c_phase c) eqn:Hp; try done. exfalso.
    assert (numOut q = 0) as Hz by (apply (co_null _ _ _ Hc); by left).
    pose proof (Hst (ClientTurn j) eq_refl) as Hno. cbn in Hno. unfold client_step in Hno. rewrite Hj in Hno. cbn in Hno.
    rewrite Hp, Hsup in Hno. rewrite decide_True in Hno; [done|]. by eapply numOut_dead.
Qed.

(** At the end no worker has a work left. *)
Lemma stuck_given n q : queue_ok n q → stuck q → workers q ≫= given = [].
Proof.
  intros H Hst. assert (Forall (λ w, given w = []) (workers q)) as Hall.
  { apply Forall_lookup. intros i w Hi. unfold given. destruct (okToExecute w) eqn:Hok; [exfalso|done].
    destruct (wo_ok _ _ _ (qo_worker _ _ H i w Hi) Hok) as [Hp _].
    destruct (stuck_worker n q i w H Hst Hi) as [Hid|Hd].
    - unfold idle in Hid. rewrite Hok, andb_false_r in Hid. done.
    - rewrite Hd in Hp. by destruct Hp. }
  induction Hall as [|w l Hw Hl IH] in |- *; [done|]. by rewrite bind_cons, Hw, IH.
Qed.

(** ** Runs *)

Definition spurious_turns (ts : list turn) : nat := countb is_spurious ts.

Lemma queue_step_all n m t q r :
  queue_ok n q → shut_ok q → length (clients q) = m → queue_step t q = Some r →
  ∃ q', r = Ret q' ∧ queue_ok n q' ∧ shut_ok q' ∧ length (clients q') = m ∧ all_works q' ≡ₚ all_works q ∧
    S (turns_left m q') ≤ turns_left m q + 3 * Nat.b2n (is_spurious t).
Proof.
  intros H Hsh Hm Hs. destruct (queue_step_ok n t q r H Hs) as (q' & -> & Hq). exists q'. split; [done|]. split; [done|].
  destruct t as [i j|j|j]; cbn in Hs.
  - destruct (worker_step_left n m i j q q' H Hsh Hm Hs). split; [by eapply worker_step_shut|]. split; [done|].
    split; [by eapply worker_step_works|]. cbn. lia.
  - destruct (client_step_left n m j q q' H Hm Hs). split; [by eapply client_step_shut|]. split; [done|].
    split; [by eapply client_step_works|]. cbn. lia.
  - destruct (clients q !! j) as [c|] eqn:Hj; [|done]. cbn in Hs. destruct (asleep c) eqn:Ha; [|done]. injection Hs as <-.
    split; [|split; [|split]].
    + by apply shut_wake.
    + cbn. by rewrite length_insert.
    + unfold all_works. cbn [executed workers clients set_client].
      by rewrite (bind_insert_same todo _ j c (wake c) Hj (eq_sym (todo_wake c))).
    + unfold turns_left. cbn [set_client workers clients waiting shuttingDown is_spurious Nat.b2n].
      pose proof (sum_list_insert client_left _ j c (wake c) Hj). pose proof (wake_left c) as Hw. rewrite Ha in Hw. cbn [Nat.b2n] in Hw. lia.
Qed.

Lemma run_queue_all n m ts q r :
  queue_ok n q → shut_ok q → length (clients q) = m → run_queue ts q = Some r →
  ∃ q', r = Ret q' ∧ queue_ok n q' ∧ shut_ok q' ∧ all_works q' ≡ₚ all_works q ∧
    length ts + turns_left m q' ≤ turns_left m q + 3 * spurious_turns ts.
Proof.
  revert q. induction ts as [|t ts IH]; intros q H Hsh Hm; cbn [run_queue].
  - intros [= <-]. exists q. split; [done|]. split; [done|]. split; [done|]. split; [done|]. cbn. lia.
  - destruct (queue_step t q) as [o|] eqn:E; [|done].
    destruct (queue_step_all n m t q o H Hsh Hm E) as (q1 & -> & H1 & H2 & H3 & H4 & H5). intros Hr.
    destruct (IH q1 H1 H2 H3 Hr) as (q' & -> & H6 & H6' & H7 & H8). exists q'. split; [done|]. split; [done|]. split; [done|].
    split; [by rewrite H7|]. unfold spurious_turns in *. rewrite countb_cons. cbn [length]. lia.
Qed.

(** The clients as they are when the queue is made. *)
Definition new_client c : Prop :=
  match c_supply c with Works _ => c_phase c = CGet | Destructor => c_phase c = CStart end.

Definition total_works (cs : list client) : nat := length (cs ≫= todo).

Lemma new_left n cs :
  Forall new_client cs →
  turns_left (length cs) (PDBWorkerQueue_new n cs) ≤ n * (2 * length cs + 13) + 3 * length cs + 12 * total_works cs.
Proof.
  intros Hcs. unfold turns_left. cbn [PDBWorkerQueue_new workers clients waiting shuttingDown length].
  assert (∀ m, sum_list_with (worker_left false m) (replicate n (Worker WTest false None)) = n * (2 * m + 13)) as ->.
  { intros m. induction n as [|n IH]; [done|]. cbn [replicate sum_list_with]. rewrite IH. unfold worker_left. cbn [w_phase]. lia. }
  assert (sum_list_with client_left cs ≤ 3 * length cs + 12 * total_works cs); [|lia].
  unfold total_works. induction Hcs as [|c cs Hc Hcs IH]; [done|].
  cbn [sum_list_with length]. rewrite bind_cons, length_app. unfold client_left at 1.
  assert (phase_left (c_phase c) ≤ 3) by (unfold new_client in Hc; destruct (c_supply c); rewrite Hc; cbn; lia). lia.
Qed.

Lemma new_shut n cs : Forall new_client cs → shut_ok (PDBWorkerQueue_new n cs).
Proof.
  intros Hcs. split; cbn.
  - intros j c Hj Hs Hp. eapply Forall_lookup_1 in Hcs; [|done]. unfold new_client in Hcs. by rewrite Hs in Hcs.
  - by intros i w [-> _]%lookup_replicate.
  - intros j c ids Hj Hs. eapply Forall_lookup_1 in Hcs; [|done]. unfold new_client in Hcs. rewrite Hs in Hcs. by rewrite Hcs.
Qed.

Lemma new_works n cs : all_works (PDBWorkerQueue_new n cs) = cs ≫= todo.
Proof.
  unfold all_works. cbn [PDBWorkerQueue_new executed workers clients].
  assert (replicate n (Worker WTest false None) ≫= given = []) as -> by (induction n as [|n IH]; [done|]; cbn [replicate]; by rewrite bind_cons, IH).
  done.
Qed.

Lemma new_queue_ok n cs : Forall new_client cs → queue_ok n (PDBWorkerQueue_new n cs).
Proof.
  intros Hcs. apply queue_ok_new. eapply Forall_impl; [exact Hcs|]. intros c Hc. unfold new_client in Hc.
  destruct (c_supply c); auto.
Qed.

(** ** Properties *)

(** [C25] However the threads are interleaved, no worker finds itself missing
    from [working] (the process would exit with -1), no null work is executed
    and the queue is never found empty by a client that takes from it; at any
    time every work is executed once, with a worker, or still to be given, and
    every worker that is not in its work is in the queue or with one client. *)
Theorem queue_never_fails n cs ts r :
  Forall new_client cs → run_queue ts (PDBWorkerQueue_new n cs) = Some r →
  ∃ q, r = Ret q ∧ omap work_id (executed q) ++ (workers q ≫= given) ++ (clients q ≫= todo) ≡ₚ cs ≫= todo ∧
    NoDup (waiting q) ∧ numOut q = countb alive (workers q) ∧
    (∀ i w, workers q !! i = Some w → idle w = true →
      i ∈ waiting q ∨ ∃ j c, clients q !! j = Some c ∧ holds c = Some i).
Proof.
  intros Hcs Hr.
  destruct (run_queue_all n (length cs) ts _ r (new_queue_ok n cs Hcs) (new_shut n cs Hcs) eq_refl Hr) as (q & -> & H & _ & Hw & _).
  exists q. split; [done|]. split.
  - by rewrite new_works in Hw.
  - split; [apply H|]. split; [apply H|]. apply H.
Qed.

(** [C24] Every run of the queue ends, in at most so many turns and three more
    for each spurious wake-up, and when no thread can go on any more every
    client has given its works or was told that there are no workers, every
    destructor has joined its threads, and all works but those that were refused
    have been executed. *)
Theorem queue_runs_end n cs ts q :
  Forall new_client cs → run_queue ts (PDBWorkerQueue_new n cs) = Some (Ret q) →
  length ts ≤ n * (2 * length cs + 13) + 3 * length cs + 12 * total_works cs + 3 * spurious_turns ts ∧
  (stuck q → Forall finished (clients q) ∧
     omap work_id (executed q) ++ (filter (λ c, c_phase c = CNull) (clients q) ≫= todo) ≡ₚ cs ≫= todo).
Proof.
  intros Hcs Hr.
  destruct (run_queue_all n (length cs) ts _ _ (new_queue_ok n cs Hcs) (new_shut n cs Hcs) eq_refl Hr) as (q' & Heq & H & Hsh & Hw & Hl).
  injection Heq as <-. split; [pose proof (new_left n cs Hcs); lia|]. intros Hst.
  assert (Forall finished (clients q)) as Hfin by (apply Forall_lookup; intros j c Hj; by eapply stuck_finished).
  split; [done|]. rewrite new_works in Hw. rewrite <-Hw. unfold all_works. rewrite (stuck_given n q H Hst). cbn [app].
  apply Permutation_app_head. clear -Hfin. induction Hfin as [|c l Hc Hl IH]; [done|].
  rewrite filter_cons, bind_cons. case_decide as Hp; [by rewrite bind_cons, IH|].
  assert (todo c = []) as ->; [|done]. unfold finished in Hc. unfold todo. destruct (c_supply c); [|done].
  by destruct Hc as [?|[_ ->]].
Qed.

(** ** Witnesses *)

Definition demo_clients : list client := [Client CGet (Works [7]); Client CStart Destructor].

Lemma demo_new : Forall new_client demo_clients.
Proof. by repeat constructor. Qed.

(** A thread goes [k] steps; a client goes [k] steps. *)
Definition worker_turns (k : nat) : list turn := replicate k (WorkerTurn 0 0).
Definition client_turns (j k : nat) : list turn := replicate k (ClientTurn j).

(** The first client sleeps, is woken and has its work executed; then the
    destructor. *)
Definition demo_turns : list turn :=
  client_turns 0 1 ++ worker_turns 2 ++ client_turns 0 3 ++ worker_turns 6 ++ client_turns 1 4 ++ worker_turns 6 ++ client_turns 1 2.

Definition demo_end : queue :=
  Queue true [] [] 0 [Worker WDead false None] [Client CGet (Works []); Client CJoined Destructor] [Work 7; NothingWork].

Lemma queue_demo_run : run_queue demo_turns (PDBWorkerQueue_new 1 demo_clients) = Some (Ret demo_end).
Proof. vm_compute. reflexivity. Qed.

Lemma queue_never_fails_witness :
  ∃ q, Ret demo_end = Ret q ∧ omap work_id (executed q) ++ (workers q ≫= given) ++ (clients q ≫= todo) ≡ₚ demo_clients ≫= todo ∧
    NoDup (waiting q) ∧ numOut q = countb alive (workers q) ∧
    (∀ i w, workers q !! i = Some w → idle w = true →
      i ∈ waiting q ∨ ∃ j c, clients q !! j = Some c ∧ holds c = Some i).
Proof. exact (queue_never_fails 1 demo_clients demo_turns (Ret demo_end) demo_new queue_demo_run). Defined.

Lemma queue_runs_end_witness :
  length demo_turns ≤ 1 * (2 * length demo_clients + 13) + 3 * length demo_clients + 12 * total_works demo_clients + 3 * spurious_turns demo_turns ∧
  (stuck demo_end → Forall finished (clients demo_end) ∧
     omap work_id (executed demo_end) ++ (filter (λ c, c_phase c = CNull) (clients demo_end) ≫= todo) ≡ₚ demo_clients ≫= todo).
Proof. exact (queue_runs_end 1 demo_clients demo_turns demo_end demo_new queue_demo_run). Defined.

Lemma demo_end_stuck : stuck demo_end.
Proof. intros [[|i] j|[|[|j]]|j] Hs; done. Qed.

(** The destructor does not wait for clients it has woken: it has joined the
    threads and goes on to destroy the mutex that the other client, woken by the
    last thread, is about to lock again. *)
Lemma destructor_leaves_clients :
  ∃ q, run_queue (worker_turns 2 ++ client_turns 1 2 ++ client_turns 0 1 ++ client_turns 1 2 ++ worker_turns 6 ++ client_turns 1 2)
         (PDBWorkerQueue_new 1 demo_clients) = Some (Ret q) ∧
    clients q = [Client CGet (Works [7]); Client CJoined Destructor].
Proof. eexists. vm_compute. done. Qed.
