(* ===== verification/Dispatcher.v ===== *)
(** * Dispatcher: which node stores which object

    Models the partition policies ([dispatcher/source/RoundRobinPolicy.cc],
    [RandomPolicy.cc], [LambdaPolicy.cc], [IRPolicy.cc] and
    [PartitionPolicyFactory.cc]), the partitioners of lambdas
    ([lambdas/headers/AttAccessLambda.h], [SelfLambda.h], [CPlusPlusLambda.h])
    and the dispatcher that sends each part of a vector of objects to a storage
    node ([serverFunctionalities/source/DispatcherServer.cc]).  Allocations in
    the temporary block of a policy are taken to succeed; the storage client is
    a function that says whether a node has stored what it was sent, and the
    number of requests at a time is left out. *)

From S2P Require Import Prelude.

Local Open Scope Z_scope.

#[export] Instance outcome_eq_dec {A} `{EqDecision A} : EqDecision (outcome A).
Proof. solve_decision. Defined.

(** ** Nodes *)

Record NodeDispatcherData := MkNode { nd_nodeId : Z; nd_port : Z; nd_address : string }.

Record NodePartitionData := MkNodePartitionData {
  np_nodeId : Z;
  np_port : Z;
  np_address : string;
  np_setName : string;
  np_databaseName : string;
  np_totalBytesSent : Z
}.

Definition NodePartitionData_new (nodeId port : Z) (address : string) (setAndDatabaseName : string * string) : NodePartitionData :=
  MkNodePartitionData nodeId port address setAndDatabaseName.1 setAndDatabaseName.2 0.

(** [operator==]: the same port and address, whatever the id. *)
Definition NodePartitionData_eqb (a b : NodePartitionData) : bool :=
  bool_decide (np_port a = np_port b) && bool_decide (np_address a = np_address b).

Definition createNodePartitionData (storageNodes : list NodeDispatcherData) : list NodePartitionData :=
  (λ n, NodePartitionData_new (nd_nodeId n) (nd_port n) (nd_address n) ("", "")%string) <$> storageNodes.

Definition updateExistingNode (newNode oldNode : NodePartitionData) : NodePartitionData := oldNode.
Definition updateNewNode (newNode : NodePartitionData) : NodePartitionData := newNode.

(** The inner loop: the first old node that is the active one, and the old
    nodes without it. *)
Fixpoint take_old (a : NodePartitionData) (oldNodes : list NodePartitionData) : option (NodePartitionData * list NodePartitionData) :=
  match oldNodes with
  | [] => None
  | o :: rest =>
      if NodePartitionData_eqb a o then Some (o, rest)
      else '(found, rest') ← take_old a rest; Some (found, o :: rest')
  end.

(** The outer loop of [updateStorageNodes]. *)
Fixpoint update_nodes (activeStorageNodes oldNodes : list NodePartitionData) : list NodePartitionData :=
  match activeStorageNodes with
  | [] => []
  | a :: rest =>
      match take_old a oldNodes with
      | Some (o, oldNodes') => updateExistingNode a o :: update_nodes rest oldNodes'
      | None => updateNewNode a :: update_nodes rest oldNodes
      end
  end.

(** ** Lambdas that partition *)

Section dispatcher.
Context {O : Type}.

(** The node of a hash: [partitionId = hashVal % numPartitions;
    nodeId = partitionId / (numPartitions / numNodes)]; a division by zero is
    not defined. *)
Definition node_of_hash (numNodes numPartitions hashVal : Z) : outcome Z :=
  if decide (u64 numPartitions = 0 ∨ numNodes = 0 ∨ u32 (numPartitions ÷ numNodes) = 0) then Undefined
  else Ret (u32 (hashVal mod u64 numPartitions) / u32 (numPartitions ÷ numNodes)).

(** What a lambda offers the dispatcher: attribute access, method calls and
    [self] hash one object; so does native code, of as many inputs as the lambda
    has; the lambdas made of others return null. *)
Inductive dispatch_lambda :=
| HashLambda (hash : O → Z)
| CPlusPlusLambda (numInputs : nat) (hash : O → Z)
| OtherLambda.

(** [unordered_map<NodeID, Handle<Vector<Handle<Object>>>>], vectors or null. *)
Local Abbreviation parts := (gmap Z (option (list O))).

(** [partitionedObjects[nodeId]], made if null, and [push_back]. *)
Definition place (nodeId : Z) (obj : O) (m : parts) : parts :=
  <[nodeId := Some (default [] (default None (m !! nodeId)) ++ [obj])]> m.

Fixpoint place_all (node_of : O → outcome Z) (objs : list O) (m : parts) : outcome parts :=
  match objs with
  | [] => Ret m
  | obj :: objs => nodeId ← node_of obj; place_all node_of objs (place nodeId obj m)
  end.

(** [getPartitioner()->partition(...)]; the result, true or false, is not
    looked at. *)
Definition lambda_partition (l : dispatch_lambda) (numNodes numPartitions : Z) (objs : list O) (m : parts) : outcome parts :=
  match l with
  | HashLambda hash => place_all (λ o, node_of_hash numNodes numPartitions (hash o)) objs m
  | CPlusPlusLambda numInputs hash =>
      if (1 <? numInputs)%nat then Ret m
      else place_all (λ o, node_of_hash numNodes numPartitions (hash o)) objs m
  | OtherLambda => Undefined
  end.

(** ** Policies *)

Inductive policy :=
| RoundRobinPolicy (storageNodes : list NodePartitionData) (numNodes : Z)
| RandomPolicy (storageNodes : list NodePartitionData)
| LambdaPolicy (storageNodes : list NodePartitionData) (numNodes numPartitions : Z) (lambda : dispatch_lambda)
| IRPolicy (storageNodes : list NodePartitionData) (numNodes numPartitions : Z) (filterLambda : O → bool) (joinLambda joinLambda1 : O → Z).

Definition RoundRobinPolicy_new : policy := RoundRobinPolicy [] 0.
Definition RandomPolicy_new : policy := RandomPolicy [].
Definition LambdaPolicy_new (numNodes numPartitions : Z) (l : dispatch_lambda) : policy := LambdaPolicy [] numNodes numPartitions l.

(** [PartitionPolicy::Policy] and the factory; [FAIR] is not there yet. *)
Inductive policy_kind := RANDOM | ROUNDROBIN | FAIR | DEFAULT.

Definition buildDefaultPartitionPolicy : policy := RoundRobinPolicy_new.

Definition buildPartitionPolicy (k : policy_kind) : option policy :=
  match k with
  | RANDOM => Some RandomPolicy_new
  | ROUNDROBIN => Some RoundRobinPolicy_new
  | FAIR => None
  | DEFAULT => Some buildDefaultPartitionPolicy
  end.

Definition policy_nodes (p : policy) : list NodePartitionData :=
  match p with
  | RoundRobinPolicy ns _ | RandomPolicy ns | LambdaPolicy ns _ _ _ | IRPolicy ns _ _ _ _ _ => ns
  end.

(** The nodes, and for all but the random policy their number. *)
Definition updateStorageNodes (activeStorageNodesRaw : list NodeDispatcherData) (p : policy) : policy :=
  let ns := update_nodes (createNodePartitionData activeStorageNodesRaw) (policy_nodes p) in
  let n := Z.of_nat (length ns) in
  match p with
  | RoundRobinPolicy _ _ => RoundRobinPolicy ns n
  | RandomPolicy _ => RandomPolicy ns
  | LambdaPolicy _ _ np l => LambdaPolicy ns n np l
  | IRPolicy _ _ np f h h1 => IRPolicy ns n np f h h1
  end.

(** The map with a null vector for each of the first nodes. *)
Definition null_parts (numNodes : Z) : parts := list_to_map ((λ i, (Z.of_nat i, None)) <$> seq 0 (Z.to_nat numNodes)).

(** [IRPolicy::partition] picks the hash by the filter. *)
Definition ir_node (numNodes numPartitions : Z) (filterLambda : O → bool) (joinLambda joinLambda1 : O → Z) (o : O) : outcome Z :=
  node_of_hash numNodes numPartitions (if filterLambda o then joinLambda o else joinLambda1 o).

(** [RoundRobinPolicy::partition]; [curNodeId] is a static member.  The vector
    is null when bytes are dispatched. *)
Definition roundrobin_partition (ns : list NodePartitionData) (n : Z) (toPartition : option (list O)) : M Z parts := λ curNodeId,
  if decide (ns = []) then (Exit (-1), curNodeId)
  else let curNodeId' := u32 (curNodeId + 1) mod u32 n in
       (match ns !! Z.to_nat curNodeId' with
        | Some nodeToUse => Ret {[np_nodeId nodeToUse := toPartition]}
        | None => Undefined
        end, curNodeId').

(** [RandomPolicy::partition]; [rand] is what [rand()] returns. *)
Definition random_partition (rand : Z) (ns : list NodePartitionData) (toPartition : option (list O)) : outcome parts :=
  if decide (ns = []) then Exit (-1)
  else match ns !! Z.to_nat (rand mod Z.of_nat (length ns)) with
       | Some nodeToUse => Ret {[np_nodeId nodeToUse := toPartition]}
       | None => Undefined
       end.

(** [LambdaPolicy::partition] *)
Definition hash_partition (ns : list NodePartitionData) (n np : Z) (l : dispatch_lambda) (toPartition : option (list O)) : outcome parts :=
  match toPartition with
  | None => Undefined
  | Some objs => if decide (ns = []) then Exit (-1) else lambda_partition l n np objs (null_parts n)
  end.

(** [IRPolicy::partition] *)
Definition ir_partition (ns : list NodePartitionData) (n np : Z) (f : O → bool) (h h1 : O → Z) (toPartition : option (list O)) : outcome parts :=
  match toPartition with
  | None => Undefined
  | Some objs => if decide (ns = []) then Exit (-1) else place_all (ir_node n np f h h1) objs (null_parts n)
  end.

(** The virtual method. *)
Definition partition (rand : Z) (p : policy) (toPartition : option (list O)) : M Z parts :=
  match p with
  | RoundRobinPolicy ns n => roundrobin_partition ns n toPartition
  | RandomPolicy ns => lift (random_partition rand ns toPartition)
  | LambdaPolicy ns n np l => lift (hash_partition ns n np l toPartition)
  | IRPolicy ns n np f h h1 => lift (ir_partition ns n np f h h1 toPartition)
  end.

(** ** The dispatcher *)

Local Abbreviation set_name := (string * string)%type.

(** What is sent to a node: objects, or bytes as they came. *)
Inductive payload := Objects (objs : list O) | RawBytes (numBytes : Z).

Record message := Message { m_set : set_name; m_type : string; m_node : NodeDispatcherData; m_payload : payload }.

(** [responses] are the replies to clients; [stats] is null until it is
    collected. *)
Record server := Server {
  storageNodes : list NodeDispatcherData;
  partitionPolicies : gmap (string * string) policy;
  curNodeId : Z;
  stats : option (gmap string Z);
  sent : list message;
  responses : list (bool * string)
}.

Definition DispatcherServer_new (cur : Z) (st : option (gmap string Z)) : server := Server [] ∅ cur st [] [].

Definition set_policies ps d := Server (storageNodes d) ps (curNodeId d) (stats d) (sent d) (responses d).
Definition set_curNodeId c d := Server (storageNodes d) (partitionPolicies d) c (stats d) (sent d) (responses d).
Definition set_stats t d := Server (storageNodes d) (partitionPolicies d) (curNodeId d) t (sent d) (responses d).
Definition add_sent m d := Server (storageNodes d) (partitionPolicies d) (curNodeId d) (stats d) (sent d ++ [m]) (responses d).
Definition add_response r d := Server (storageNodes d) (partitionPolicies d) (curNodeId d) (stats d) (sent d) (responses d ++ [r]).

Local Abbreviation DM := (Prelude.M server).

Definition registerStorageNodes (nodes : list NodeDispatcherData) (d : server) : server :=
  Server nodes (updateStorageNodes nodes <$> partitionPolicies d) (curNodeId d) (stats d) (sent d) (responses d).

(** [insert] leaves a policy that is there; the pointer that is then in the map
    is followed. *)
Definition registerSet (setAndDatabase : set_name) (partitionPolicy : option policy) : DM unit := λ d,
  match from_option Some partitionPolicy (partitionPolicies d !! setAndDatabase) with
  | Some p => (Ret tt, set_policies (<[setAndDatabase := updateStorageNodes (storageNodes d) p]> (partitionPolicies d)) d)
  | None => (Undefined, d)
  end.

Definition deregisterSet (setAndDatabase : set_name) (d : server) : server :=
  set_policies (delete setAndDatabase (partitionPolicies d)) d.

Definition findNode (nodeId : Z) (nodes : list NodeDispatcherData) : option NodeDispatcherData :=
  head (filter (λ n, nd_nodeId n = nodeId) nodes).

(** The storage client: whether a node stores what it is sent. *)
Context (store : NodeDispatcherData → payload → bool).

(** The order in which the entries of an [unordered_map] come. *)
Context (entries : parts → list (Z * option (list O))).

(** [sendData] and [sendBytes]: the destination is followed. *)
Definition send (setAndDatabase : set_name) (type : string) (destination : option NodeDispatcherData) (toSend : payload) : DM bool := λ d,
  match destination with
  | None => (Undefined, d)
  | Some n =>
      if store n toSend then (Ret true, add_sent (Message setAndDatabase type n toSend) d) else (Ret false, d)
  end.

(** The call of [partition], with the static member of the policies. *)
Definition call_partition (rand : Z) (setAndDatabase : set_name) (toPartition : option (list O)) : DM parts := λ d,
  match partitionPolicies d !! setAndDatabase with
  | None => (Undefined, d)
  | Some p => let '(o, c) := partition rand p toPartition (curNodeId d) in (o, set_curNodeId c d)
  end.

Fixpoint send_parts (setAndDatabase : set_name) (type : string) (ps : list (Z * option (list O))) : DM bool :=
  match ps with
  | [] => mret true
  | (nodeId, None) :: ps => send_parts setAndDatabase type ps
  | (nodeId, Some objs) :: ps =>
      nodes ← gets storageNodes;
      ok ← send setAndDatabase type (findNode nodeId nodes) (Objects objs);
      if (ok : bool) then send_parts setAndDatabase type ps else mret false
  end.

(** The branch of a registered set. *)
Definition dispatch_known (rand : Z) (setAndDatabase : set_name) (type : string) (toDispatch : list O) : DM bool :=
  mappedPartitions ← call_partition rand setAndDatabase (Some toDispatch);
  send_parts setAndDatabase type (entries mappedPartitions).

(** The recursive call finds the set. *)
Definition dispatchData (rand : Z) (setAndDatabase : set_name) (type : string) (toDispatch : list O) : DM bool :=
  policies ← gets partitionPolicies;
  match policies !! setAndDatabase with
  | None => registerSet setAndDatabase (Some buildDefaultPartitionPolicy);; dispatch_known rand setAndDatabase type toDispatch
  | Some _ => dispatch_known rand setAndDatabase type toDispatch
  end.

Fixpoint send_bytes_parts (setAndDatabase : set_name) (type : string) (numBytes : Z) (ps : list (Z * option (list O))) : DM bool :=
  match ps with
  | [] => mret true
  | (nodeId, _) :: ps =>
      nodes ← gets storageNodes;
      ok ← send setAndDatabase type (findNode nodeId nodes) (RawBytes numBytes);
      if (ok : bool) then send_bytes_parts setAndDatabase type numBytes ps else mret false
  end.

Definition dispatch_bytes_known (rand : Z) (setAndDatabase : set_name) (type : string) (numBytes : Z) : DM bool :=
  mappedPartitions ← call_partition rand setAndDatabase None;
  send_bytes_parts setAndDatabase type numBytes (entries mappedPartitions).

Definition dispatchBytes (rand : Z) (setAndDatabase : set_name) (type : string) (numBytes : Z) : DM bool :=
  policies ← gets partitionPolicies;
  match policies !! setAndDatabase with
  | None => registerSet setAndDatabase (Some buildDefaultPartitionPolicy);; dispatch_bytes_known rand setAndDatabase type numBytes
  | Some _ => dispatch_bytes_known rand setAndDatabase type numBytes
  end.

(** [Statistics::incrementNumBytes] and [getNumBytes]. *)
Definition stats_key (databaseName setName : string) : string := (databaseName ++ ":" ++ setName)%string.

Definition incrementNumBytes (databaseName setName : string) (numBytes : Z) (t : gmap string Z) : gmap string Z :=
  <[stats_key databaseName setName := u64 (default 0 (t !! stats_key databaseName setName) + numBytes)]> t.

Definition getNumBytes (databaseName setName : string) (t : gmap string Z) : Z := default 0 (t !! stats_key databaseName setName).

(** The handler of [DispatcherAddData].  [reply] is what sending the
    response returns and leaves as the error message, [collected] is what [collectStats] leaves; the result of
    dispatching is not looked at. *)
Record add_data := AddData {
  ad_databaseName : string;
  ad_setName : string;
  ad_typeName : string;
  ad_isShallowCopy : bool;
  ad_numBytes : Z;
  ad_data : list O
}.

Definition zero_objects : string := "Warning: client attemps to store zero object vector".

Definition handle_add_data (rand : Z) (reply : bool * string) (collected : gmap string Z) (request : add_data) : DM (bool * string) :=
  if decide (ad_data request = []) then
    modify (add_response (false, zero_objects));; mret (false, if reply.1 then zero_objects else reply.2)
  else
    modify (add_response (true, ""%string));;
    (if ad_isShallowCopy request
     then dispatchBytes rand (ad_setName request, ad_databaseName request) (ad_typeName request) (ad_numBytes request)
     else dispatchData rand (ad_setName request, ad_databaseName request) (ad_typeName request) (ad_data request));;
    modify (λ d, set_stats (Some (incrementNumBytes (ad_databaseName request) (ad_setName request) (ad_numBytes request)
      (default collected (stats d)))) d);;
    mret reply.
End dispatcher.

Arguments policy : clear implicits.
Arguments server : clear implicits.
Arguments payload : clear implicits.
Arguments message : clear implicits.
Arguments dispatch_lambda : clear implicits.
Arguments add_data : clear implicits.
