(* ===== verification/Dispatching.v ===== *)
(** * Dispatching: where objects end up

    Proves of the partition policies and the dispatcher that every object is
    sent once, to the node where a partitioned join looks for it; that
    round-robin takes turns, and between which sets; and what a client is told
    when a node does not store its part. *)

From S2P Require Import Prelude.
From S2P Require Import JoinProbe.
From S2P Require Import PartitionedJoin.
From S2P Require Import Dispatcher.

Local Open Scope Z_scope.

(** ** Nodes of objects *)

Section partitioning.
Context {O : Type}.
Implicit Types (m : gmap Z (option (list O))) (objs : list O).

Lemma place_all_spec (node_of : O → outcome Z) (f : O → Z) objs m :
  (∀ o, o ∈ objs → node_of o = Ret (f o)) →
  ∃ m', place_all node_of objs m = Ret m' ∧
    ∀ k, m' !! k = match filter (λ o, f o = k) objs with
                   | [] => m !! k
                   | l => Some (Some (default [] (default None (m !! k)) ++ l))
                   end.
Proof.
  revert m. induction objs as [|o objs IH]; intros m Hf; cbn [place_all].
  - exists m. split; [done|]. done.
  - rewrite (Hf o) by set_solver. cbn [mbind outcome_bind].
    destruct (IH (place (f o) o m)) as (m' & Hm & Hk); [intros; apply Hf; set_solver|].
    exists m'. split; [done|]. intros k. rewrite Hk. unfold place. rewrite filter_cons.
    destruct (decide (f o = k)) as [<-|Hne].
    + rewrite lookup_insert_eq. cbn [default].
      destruct (filter _ objs); cbn; [done|]. by rewrite <-app_assoc.
    + by rewrite lookup_insert_ne.
Qed.

(** The node of a hash, when the partitions are spread evenly. *)
Definition even_node (numNodes c hashVal : Z) : Z := hashVal mod (numNodes * c) / c.

Lemma node_of_hash_even numNodes c hashVal :
  0 < numNodes → 0 < c → numNodes * c < 2147483648 →
  node_of_hash numNodes (numNodes * c) hashVal = Ret (even_node numNodes c hashVal) ∧
  0 ≤ even_node numNodes c hashVal < numNodes.
Proof.
  intros Hn Hc Hb. unfold node_of_hash, even_node.
  rewrite (Z.mul_comm numNodes c), Z.quot_mul by lia.
  assert (c ≤ c * numNodes) by nia.
  rewrite (u64_small (c * numNodes)) by word_lia. rewrite (u32_small c) by word_lia.
  rewrite decide_False by nia.
  pose proof (Z.mod_pos_bound hashVal (c * numNodes) ltac:(nia)) as Hr.
  rewrite u32_small by word_lia. split; [done|].
  split; [apply Z.div_pos; lia|]. apply Z.div_lt_upper_bound; lia.
Qed.

Lemma null_parts_lookup (n : Z) (k : Z) :
  (null_parts n : gmap Z (option (list O))) !! k = if decide (0 ≤ k < n) then Some None else None.
Proof.
  unfold null_parts. case_decide as Hk.
  - apply elem_of_list_to_map_1'.
    + intros y. rewrite list_elem_of_fmap. by intros (i & [= _ ->] & _).
    + apply list_elem_of_fmap. exists (Z.to_nat k). split; [f_equal; lia|]. apply elem_of_seq. lia.
  - apply not_elem_of_list_to_map_1. rewrite <-list_fmap_compose, list_elem_of_fmap.
    intros (i & -> & Hi%elem_of_seq). cbn in Hk. lia.
Qed.
End partitioning.

(** ** Everything is placed once *)

Section placed.
Context {O : Type}.
Implicit Types (m : gmap Z (option (list O))) (objs : list O).

Definition bucket (f : O → Z) objs (i : nat) : list O := filter (λ o, f o = Z.of_nat i) objs.

Lemma bucket_skip (f : O → Z) o objs (l : list nat) :
  0 ≤ f o → Z.to_nat (f o) ∉ l → l ≫= bucket f (o :: objs) = l ≫= bucket f objs.
Proof.
  intros Ho. induction l as [|i l IH]; [done|]. intros [Hi Hl]%not_elem_of_cons.
  rewrite !bind_cons, IH by done. f_equal. unfold bucket. apply filter_cons_False. lia.
Qed.

(** Buckets by node are a permutation of the objects. *)
Lemma buckets_perm (f : O → Z) (n : nat) objs :
  (∀ o, o ∈ objs → 0 ≤ f o < Z.of_nat n) → seq 0 n ≫= bucket f objs ≡ₚ objs.
Proof.
  intros Hf. induction objs as [|o objs IH].
  - by induction (seq 0 n).
  - transitivity (o :: (seq 0 n ≫= bucket f objs)); [|rewrite IH; [done|set_solver]]. clear IH.
    assert (0 ≤ f o < Z.of_nat n) as Ho by set_solver.
    pose proof (proj2 (elem_of_seq 0 n (Z.to_nat (f o))) ltac:(lia)) as Hin.
    pose proof (NoDup_seq 0 n) as Hnd. apply list_elem_of_split in Hin as (l1 & l2 & Hl).
    rewrite Hl in *. apply NoDup_app in Hnd as (_ & H1 & [H2 _]%NoDup_cons).
    rewrite !bind_app, !bind_cons, !bucket_skip by (lia || set_solver).
    unfold bucket at 2. rewrite filter_cons_True by lia. fold (bucket f objs (Z.to_nat (f o))).
    cbn [app]. symmetry. apply Permutation_middle.
Qed.

(** The objects in a map of parts. *)
Definition part_objs (e : Z * option (list O)) : list O := default [] e.2.

(** A map with a bucket for every node, null where it is empty. *)
Lemma parts_perm (f : O → Z) (n : nat) objs m :
  (∀ o, o ∈ objs → 0 ≤ f o < Z.of_nat n) →
  (∀ k, m !! k = if decide (0 ≤ k < Z.of_nat n)
                 then Some (match filter (λ o, f o = k) objs with [] => None | l => Some l end) else None) →
  map_to_list m ≫= part_objs ≡ₚ objs.
Proof.
  intros Hf Hm. etrans; [|apply (buckets_perm f n objs Hf)].
  set (pick := λ k : Z, match filter (λ o, f o = k) objs with [] => None | l => Some l end) in *.
  assert (map_to_list m ≡ₚ (λ i, (Z.of_nat i, pick (Z.of_nat i))) <$> seq 0 n) as Hp.
  { apply NoDup_Permutation; [apply NoDup_map_to_list|apply NoDup_fmap_2; [intros ?? [= ?]; lia|apply NoDup_seq]|].
    intros [k v]. rewrite elem_of_map_to_list, Hm, list_elem_of_fmap. case_decide.
    - split; [intros [= <-]; exists (Z.to_nat k); rewrite elem_of_seq, Z2Nat.id by lia; split; [done|lia]|].
      intros (i & [= -> ->] & _). done.
    - split; [done|]. intros (i & [= -> ->] & Hi%elem_of_seq). lia. }
  rewrite Hp, list_fmap_bind. match goal with |- ?a ≡ₚ ?b => enough (a = b) as -> by done end. apply list_bind_ext; [|done].
  intros i. unfold part_objs, pick, bucket. cbn. by destruct (filter _ objs).
Qed.

(** ** What is promised of policies *)

(** The storage nodes as the resource manager numbers them. *)
Record nodes_ok (nodes : list NodeDispatcherData) : Prop := {
  no_some : nodes ≠ [];
  no_few : Z.of_nat (length nodes) < 2147483648;
  no_ids : nd_nodeId <$> nodes = Z.of_nat <$> seq 0 (length nodes)
}.

(** The number of nodes is right, and the partitions are a multiple of it. *)
Definition spread_ok (nodes : list NodeDispatcherData) (numNodes numPartitions : Z) : Prop :=
  numNodes = Z.of_nat (length nodes) ∧ ∃ c, 0 < c ∧ numPartitions = numNodes * c ∧ numPartitions < 2147483648.

Definition lambda_ok (l : dispatch_lambda O) : Prop :=
  match l with HashLambda _ => True | CPlusPlusLambda k _ => (k ≤ 1)%nat | OtherLambda => False end.

(** A policy that can place objects on the nodes. *)
Definition placing_ok (nodes : list NodeDispatcherData) (p : policy O) : Prop :=
  match p with
  | RoundRobinPolicy _ n => n = Z.of_nat (length nodes)
  | RandomPolicy _ => True
  | LambdaPolicy _ n np l => spread_ok nodes n np ∧ lambda_ok l
  | IRPolicy _ n np _ _ _ => spread_ok nodes n np
  end.

Definition policy_ok (nodes : list NodeDispatcherData) (p : policy O) : Prop :=
  np_nodeId <$> policy_nodes p = nd_nodeId <$> nodes ∧ placing_ok nodes p.

(** The parts go to known nodes and hold every object once. *)
Definition parts_ok (nodes : list NodeDispatcherData) objs m : Prop :=
  (∀ k v, m !! k = Some v → k ∈ nd_nodeId <$> nodes) ∧ map_to_list m ≫= part_objs ≡ₚ objs.

Lemma policy_nodes_length nodes p : policy_ok nodes p → length (policy_nodes p) = length nodes.
Proof. intros [H _]. by rewrite <-(length_fmap np_nodeId), H, length_fmap. Qed.

(** A policy that picks one node for all objects. *)
Lemma single_ok nodes p n objs :
  policy_ok nodes p → n ∈ policy_nodes p → parts_ok nodes objs {[np_nodeId n := Some objs]}.
Proof.
  intros [Hids _] Hn. split.
  - intros k v [<- _]%lookup_singleton_Some. rewrite <-Hids. by apply list_elem_of_fmap_2.
  - rewrite map_to_list_singleton. cbn. by rewrite app_nil_r.
Qed.

(** The node of an object is one of the nodes. *)
Lemma id_of_node nodes k : nodes_ok nodes → 0 ≤ k < Z.of_nat (length nodes) → k ∈ nd_nodeId <$> nodes.
Proof.
  intros H Hk. rewrite (no_ids _ H). apply list_elem_of_fmap. exists (Z.to_nat k).
  split; [lia|]. apply elem_of_seq. lia.
Qed.

(** Objects placed by their hash. *)
Lemma hashed_ok nodes numNodes numPartitions (hash : O → Z) objs :
  nodes_ok nodes → spread_ok nodes numNodes numPartitions →
  ∃ m, place_all (λ o, node_of_hash numNodes numPartitions (hash o)) objs (null_parts numNodes) = Ret m ∧
    (∀ k, m !! k = if decide (0 ≤ k < numNodes)
       then Some (match filter (λ o, node_of_hash numNodes numPartitions (hash o) = Ret k) objs with [] => None | l => Some l end)
       else None) ∧
    parts_ok nodes objs m.
Proof.
  intros Hn (-> & c & Hc & -> & Hb). pose proof (no_some _ Hn) as Hs.
  assert (0 < Z.of_nat (length nodes)) as Hl by (destruct nodes; [done|cbn; lia]).
  set (n := Z.of_nat (length nodes)) in *.
  assert (∀ o, node_of_hash n (n * c) (hash o) = Ret (even_node n c (hash o)) ∧ 0 ≤ even_node n c (hash o) < n) as Hf
    by (intros; by apply node_of_hash_even).
  destruct (place_all_spec (λ o, node_of_hash n (n * c) (hash o)) (λ o, even_node n c (hash o)) objs (null_parts n))
    as (m & Hm & Hk); [intros o _; apply Hf|].
  assert (∀ k, m !! k = if decide (0 ≤ k < n)
    then Some (match filter (λ o, even_node n c (hash o) = k) objs with [] => None | l => Some l end) else None) as Hk'.
  { intros k. rewrite Hk, null_parts_lookup. case_decide as Hd.
    - cbn. by destruct (filter _ objs).
    - destruct (filter _ objs) as [|o l] eqn:E; [done|].
      assert (o ∈ filter (λ o, even_node n c (hash o) = k) objs) as [He _]%list_elem_of_filter by (rewrite E; set_solver).
      specialize (Hf o). lia. }
  exists m. split; [done|]. split.
  - intros k. rewrite Hk'. case_decide; [|done].
    rewrite (list_filter_iff (λ o, node_of_hash n (n * c) (hash o) = Ret k) (λ o, even_node n c (hash o) = k)); [done|].
    intros o. destruct (Hf o) as [-> _]. naive_solver.
  - split.
    + intros k v. rewrite Hk'. case_decide; [|done]. intros _. by apply id_of_node.
    + apply (parts_perm (λ o, even_node n c (hash o)) (length nodes)); [|done]. intros o _. apply Hf.
Qed.
End placed.

Lemma elem_of_fst_map_to_list {K A} `{Countable K} (m : gmap K A) k : k ∈ (map_to_list m).*1 → is_Some (m !! k).
Proof. intros ([k' v] & -> & Hv%elem_of_map_to_list)%list_elem_of_fmap. eauto. Qed.

(** ** Dispatching *)

Section dispatching.
Context {O : Type} (store : NodeDispatcherData → payload O → bool) (entries : gmap Z (option (list O)) → list (Z * option (list O))).
Hypothesis entries_ok : ∀ m, entries m ≡ₚ map_to_list m.
Implicit Types (d : server O) (objs : list O) (nodes : list NodeDispatcherData).

Lemma partition_ok rand nodes p objs cur :
  nodes_ok nodes → policy_ok nodes p →
  ∃ m c, partition rand p (Some objs) cur = (Ret m, c) ∧ parts_ok nodes objs m.
Proof.
  intros Hn Hp. pose proof (policy_nodes_length nodes p Hp) as Hlen.
  pose proof (no_some _ Hn) as Hs. pose proof (no_few _ Hn) as Hfew.
  assert (0 < length nodes)%nat as Hl by (destruct nodes; [done|cbn; lia]).
  assert (policy_nodes p ≠ []) as Hne by (intros E; rewrite E in Hlen; cbn in Hlen; lia).
  destruct p as [ns n|ns|ns n np l|ns n np f h h1]; cbn [partition roundrobin_partition random_partition hash_partition ir_partition lift policy_nodes] in *; unfold roundrobin_partition, random_partition, hash_partition, ir_partition, lift.
  - pose proof (proj2 Hp) as Hn'. cbn in Hn'. rewrite decide_False by done.
    rewrite (u32_small n) by word_lia.
    pose proof (Z.mod_pos_bound (u32 (cur + 1)) n ltac:(lia)) as Hr.
    destruct (ns !! Z.to_nat (u32 (cur + 1) mod n)) as [nd|] eqn:E; [|apply lookup_ge_None in E; lia].
    eexists _, _. split; [done|]. eapply single_ok; [done|]. by eapply list_elem_of_lookup_2.
  - rewrite decide_False by done. pose proof (Z.mod_pos_bound rand (Z.of_nat (length ns)) ltac:(lia)) as Hr.
    destruct (ns !! Z.to_nat (rand mod Z.of_nat (length ns))) as [nd|] eqn:E; [|apply lookup_ge_None in E; lia].
    eexists _, _. split; [done|]. eapply single_ok; [done|]. by eapply list_elem_of_lookup_2.
  - rewrite decide_False by done. destruct (proj2 Hp) as [Hspread Hl'].
    assert (∃ hash, lambda_partition l n np objs (null_parts n) =
      place_all (λ o, node_of_hash n np (hash o)) objs (null_parts n)) as [hash ->].
    { destruct l as [h|k h|]; cbn [lambda_ok lambda_partition] in *; [by exists h| |done].
      exists h. by rewrite (proj2 (Nat.ltb_ge 1 k)). }
    destruct (hashed_ok nodes n np hash objs Hn Hspread) as (m & -> & _ & Hm). eauto.
  - rewrite decide_False by done.
    destruct (hashed_ok nodes n np (λ o, if f o then h o else h1 o) objs Hn (proj2 Hp)) as (m & Hm & _ & Hok).
    exists m, cur. unfold ir_node. by rewrite Hm.
Qed.

Lemma findNode_some nodes k :
  k ∈ nd_nodeId <$> nodes → ∃ n, findNode k nodes = Some n ∧ nd_nodeId n = k ∧ n ∈ nodes.
Proof.
  intros (n & -> & Hn)%list_elem_of_fmap. unfold findNode.
  destruct (filter _ nodes) as [|n' l] eqn:E.
  - by destruct (filter_nil_not_elem_of _ nodes n E).
  - assert (n' ∈ filter (λ x, nd_nodeId x = nd_nodeId n) nodes) as [H1 H2]%list_elem_of_filter by (rewrite E; set_solver).
    by exists n'.
Qed.

(** The message of a part; null parts have none. *)
Definition part_message (s : string * string) (type : string) nodes (e : Z * option (list O)) : option (message O) :=
  objs ← e.2; n ← findNode e.1 nodes; Some (Message s type n (Objects objs)).

Definition message_objs (m : message O) : list O := match m_payload m with Objects l => l | RawBytes _ => [] end.

Definition stored (m : message O) : bool := store (m_node m) (m_payload m).

(** Messages are sent until one is not stored. *)
Lemma send_parts_spec s type ps d :
  (∀ e, e ∈ ps → is_Some (findNode e.1 (storageNodes d))) →
  ∃ ms b, send_parts store s type ps d = (Ret b, set_curNodeId (curNodeId d)
      (Server (storageNodes d) (partitionPolicies d) (curNodeId d) (stats d) (sent d ++ ms) (responses d))) ∧
    Forall (λ m, stored m = true) ms ∧
    let all := omap (part_message s type (storageNodes d)) ps in
    if b : bool then ms = all
    else ∃ m rest, all = ms ++ m :: rest ∧ stored m = false.
Proof.
  revert d. induction ps as [|[k [l|]] ps IH]; intros d Hps; cbn [send_parts].
  - exists [], true. rewrite app_nil_r. by destruct d.
  - run. unfold send. destruct (Hps (k, Some l)) as [n Hn]; [set_solver|]. cbn in Hn. rewrite Hn.
    set (m := Message s type n (Objects l)).
    assert (omap (part_message s type (storageNodes d)) ((k, Some l) :: ps) = m :: omap (part_message s type (storageNodes d)) ps) as ->.
    { cbn. unfold part_message at 1. cbn. by rewrite Hn. }
    destruct (store n (Objects l)) eqn:Hst.
    + destruct (IH (add_sent m d)) as (ms & b & -> & Hb); [intros; apply Hps; set_solver|].
      destruct Hb as [Hms Hb]. exists (m :: ms), b. split; [cbn; by rewrite <-app_assoc|].
      split; [by constructor|]. cbn in Hb. destruct b; [by rewrite Hb|].
      destruct Hb as (m' & rest & -> & ?). by exists m', rest.
    + exists [], false. rewrite app_nil_r. split; [by destruct d|]. split; [done|]. by eexists m, _.
  - destruct (IH d) as (ms & b & -> & Hb); [intros; apply Hps; set_solver|]. by exists ms, b.
Qed.

(** The messages of the parts of a map. *)
Lemma messages_of_parts s type nodes objs m ps :
  ps ≡ₚ map_to_list m → parts_ok nodes objs m →
  let all := omap (part_message s type nodes) ps in
  Forall (λ x, m_set x = s ∧ m_type x = type ∧ m_node x ∈ nodes) all ∧
  NoDup ((λ x, nd_nodeId (m_node x)) <$> all) ∧ all ≫= message_objs ≡ₚ objs.
Proof.
  intros Hps [Hids Hobjs] all.
  assert (∀ e, e ∈ ps → ∃ n, findNode e.1 nodes = Some n ∧ nd_nodeId n = e.1 ∧ n ∈ nodes) as Hfind.
  { intros [k v] He. rewrite Hps, elem_of_map_to_list in He. apply findNode_some. by eapply Hids. }
  assert (NoDup ps.*1) as Hnd by (rewrite Hps; apply NoDup_fst_map_to_list).
  rewrite <-Hobjs. clear Hobjs. rewrite <-Hps. clear Hps. subst all.
  induction ps as [|[k [l|]] ps IH]; [repeat constructor| |].
  - apply NoDup_cons in Hnd as [Hk Hnd].
    destruct IH as (H1 & H2 & H3); [intros; apply Hfind; set_solver|done|].
    destruct (Hfind (k, Some l)) as (n & Hn & Hid & Hin); [set_solver|]. cbn in Hn, Hid.
    assert (omap (part_message s type nodes) ((k, Some l) :: ps) = Message s type n (Objects l) :: omap (part_message s type nodes) ps) as ->.
    { cbn. unfold part_message at 1. cbn. by rewrite Hn. }
    split; [by constructor|]. split; [|cbn; by rewrite H3].
    cbn. constructor; [|done]. rewrite Hid. intros (x & Hx & Hm)%list_elem_of_fmap.
    apply list_elem_of_omap in Hm as ([k' v] & He & Hm). apply Hk. unfold part_message in Hm. cbn in Hm.
    destruct v; [|done]. cbn in Hm. destruct (findNode k' nodes) as [n'|] eqn:E; [|done]. cbn in Hm.
    injection Hm as <-. cbn in Hx. destruct (Hfind (k', Some l0)) as (n2 & H5 & H6 & _); [set_solver|]. cbn in H5, H6. assert (n2 = n') as -> by congruence.
    apply list_elem_of_fmap. exists (k', Some l0). cbn. split; [congruence|done].
  - apply NoDup_cons in Hnd as [Hk Hnd]. apply IH; [intros; apply Hfind; set_solver|done].
Qed.

(** Nodes that are numbered, and policies that place objects on them. *)
Record server_ok d : Prop := {
  so_nodes : nodes_ok (storageNodes d);
  so_policies s p : partitionPolicies d !! s = Some p → policy_ok (storageNodes d) p
}.

Lemma update_nodes_nil a : update_nodes a [] = a.
Proof. induction a as [|x a IH]; cbn; [done|]. by rewrite IH. Qed.

(** A policy that has seen no nodes yet gets the registered ones. *)
Lemma new_policy_ok nodes (p : policy O) :
  policy_nodes p = [] → placing_ok nodes (updateStorageNodes nodes p) → policy_ok nodes (updateStorageNodes nodes p).
Proof.
  intros Hp Hok. split; [|done].
  assert (policy_nodes (updateStorageNodes nodes p) = createNodePartitionData nodes) as ->.
  { rewrite <-(update_nodes_nil (createNodePartitionData nodes)), <-Hp. by destruct p. }
  unfold createNodePartitionData. rewrite <-list_fmap_compose. done.
Qed.

Lemma length_created nodes : length (createNodePartitionData nodes) = length nodes.
Proof. apply length_fmap. Qed.

Lemma registerSet_ok s p d :
  server_ok d → partitionPolicies d !! s = None → policy_nodes p = [] →
  placing_ok (storageNodes d) (updateStorageNodes (storageNodes d) p) →
  ∃ d', registerSet s (Some p) d = (Ret tt, d') ∧ server_ok d' ∧ sent d' = sent d ∧ responses d' = responses d ∧ stats d' = stats d ∧
    storageNodes d' = storageNodes d ∧ is_Some (partitionPolicies d' !! s).
Proof.
  intros [Hn Hp] Hs Hnil Hok. unfold registerSet. rewrite Hs. cbn. eexists. split; [done|]. cbn.
  split; [|by rewrite lookup_insert_eq]. split; [done|]. cbn. intros s' p'.
  destruct (decide (s = s')) as [<-|Hne].
  - rewrite lookup_insert_eq. intros [= <-]. by apply new_policy_ok.
  - rewrite lookup_insert_ne by done. apply Hp.
Qed.

Lemma default_placing nodes : placing_ok nodes (updateStorageNodes nodes (buildDefaultPartitionPolicy : policy O)).
Proof. cbn. by rewrite update_nodes_nil, length_created. Qed.

(** What dispatching to a registered set does. *)
Definition dispatched d d' (s : string * string) (type : string) objs (b : bool) : Prop :=
  ∃ all ms, sent d' = sent d ++ ms ∧
    Forall (λ x, m_set x = s ∧ m_type x = type ∧ m_node x ∈ storageNodes d) all ∧
    NoDup ((λ x, nd_nodeId (m_node x)) <$> all) ∧ all ≫= message_objs ≡ₚ objs ∧
    Forall (λ m, stored m = true) ms ∧
    if b then ms = all else ∃ m rest, all = ms ++ m :: rest ∧ stored m = false.

Lemma dispatch_known_ok rand s type objs d :
  server_ok d → is_Some (partitionPolicies d !! s) →
  ∃ b d', dispatch_known store entries rand s type objs d = (Ret b, d') ∧ server_ok d' ∧
    responses d' = responses d ∧ stats d' = stats d ∧ storageNodes d' = storageNodes d ∧ dispatched d d' s type objs b.
Proof.
  intros Hd [p Hp]. unfold dispatch_known. run. unfold call_partition. rewrite Hp.
  destruct (partition_ok rand (storageNodes d) p objs (curNodeId d)) as (m & c & -> & Hm); [apply Hd|by eapply so_policies|].
  cbn beta iota.
  destruct (send_parts_spec s type (entries m) (set_curNodeId c d)) as (ms & b & Hr & Hb).
  { intros [k v] He. rewrite entries_ok, elem_of_map_to_list in He.
    destruct (findNode_some (storageNodes d) k) as (n & Hn & _); [by eapply Hm|]. by exists n. }
  destruct Hb as [Hms Hb]. exists b. eexists. split; [exact Hr|]. split; [by destruct Hd|]. repeat split; try done.
  destruct (messages_of_parts s type (storageNodes d) objs m (entries m)) as (H1 & H2 & H3); [apply entries_ok|done|].
  by eexists _, ms.
Qed.

Lemma dispatchData_ok rand s type objs d :
  server_ok d →
  ∃ b d', dispatchData store entries rand s type objs d = (Ret b, d') ∧ server_ok d' ∧
    responses d' = responses d ∧ stats d' = stats d ∧ dispatched d d' s type objs b.
Proof.
  intros Hd. unfold dispatchData. run. destruct (partitionPolicies d !! s) as [p|] eqn:Hp.
  - destruct (dispatch_known_ok rand s type objs d Hd) as (b & d' & H1 & H2 & H3 & H4 & _ & H5); [by rewrite Hp|].
    exists b, d'. by rewrite H1.
  - destruct (registerSet_ok s buildDefaultPartitionPolicy d) as (d1 & Hr & Hok & Hsent & Hresp & Hst & Hnodes & Hin);
      try done; [apply default_placing|]. rewrite M_bind_unfold, Hr.
    destruct (dispatch_known_ok rand s type objs d1 Hok Hin) as (b & d' & H1 & H2 & H3 & H4 & H5 & H6).
    exists b, d'. rewrite H1. split; [done|]. split; [done|]. split; [congruence|]. split; [congruence|].
    unfold dispatched in *. by rewrite <-Hsent, <-Hnodes.
Qed.
End dispatching.

(** ** Turns *)

Section turns.
Context {O : Type}.
Implicit Types (vs : list (option (list O))).

(** Vectors partitioned one after the other. *)
Fixpoint partition_each (rand : Z) (p : policy O) vs : M Z (list (gmap Z (option (list O)))) :=
  match vs with
  | [] => mret []
  | v :: vs => m ← partition rand p v; ms ← partition_each rand p vs; mret (m :: ms)
  end.

(** The node of each: the next one each time. *)
Definition turn_index (n cur : Z) (j : nat) : nat := Z.to_nat ((cur + 1 + Z.of_nat j) mod n).

Definition id_at (ns : list NodePartitionData) (i : nat) : Z := default 0 (np_nodeId <$> ns !! i).

Definition turns_used ns (cur : Z) (k : nat) : list Z :=
  (λ j, id_at ns (turn_index (Z.of_nat (length ns)) cur j)) <$> seq 0 k.

Lemma turn_index_shift n cur j : 0 < n → turn_index n ((cur + 1) mod n) j = turn_index n cur (S j).
Proof.
  intros Hn. unfold turn_index. f_equal. rewrite <-(Z.add_mod_idemp_l _ (Z.of_nat (S j))) by lia.
  rewrite <-(Z.add_mod_idemp_l ((cur + 1) mod n + 1)) by lia.
  rewrite (Z.add_mod_idemp_l (cur + 1)) by lia. rewrite !Z.add_mod_idemp_l by lia. f_equal. lia.
Qed.

Lemma partition_each_turns rand ns vs cur :
  ns ≠ [] → Z.of_nat (length ns) < 2147483648 → 0 ≤ cur < 4294967295 →
  ∃ ms, partition_each rand (RoundRobinPolicy ns (Z.of_nat (length ns))) vs cur =
      (Ret ms, match vs with [] => cur | _ => (cur + Z.of_nat (length vs)) mod Z.of_nat (length ns) end) ∧
    ms ≫= (λ m, (map_to_list m).*1) = turns_used ns cur (length vs).
Proof.
  intros Hne Hlen. assert (0 < Z.of_nat (length ns)) as Hn by (destruct ns; [done|cbn; lia]).
  revert cur. induction vs as [|v vs IH]; intros cur Hcur; [by exists []|].
  cbn [partition_each]. run. unfold partition, roundrobin_partition. rewrite decide_False by done.
  rewrite (u32_small (cur + 1)), (u32_small (Z.of_nat _)) by word_lia.
  set (n := Z.of_nat (length ns)) in *. set (c := (cur + 1) mod n) in *.
  pose proof (Z.mod_pos_bound (cur + 1) n Hn) as Hc. fold c in Hc.
  destruct (ns !! Z.to_nat c) as [nd|] eqn:E; [|apply lookup_ge_None in E; lia].
  destruct (IH c) as (ms & Hms & Hkeys); [lia|]. run. rewrite Hms. cbn beta iota.
  exists ({[np_nodeId nd := v]} :: ms). split.
  - unfold mret, M_ret. f_equal. destruct vs as [|v' vs']; [done|].
    unfold c. rewrite Z.add_mod_idemp_l by lia. f_equal. cbn. lia.
  - rewrite bind_cons, Hkeys, map_to_list_singleton. unfold turns_used. fold n.
    change (seq 0 (length (v :: vs))) with (0%nat :: seq 1 (length vs)). rewrite <-fmap_S_seq, !fmap_cons, <-list_fmap_compose. cbn [fst fmap list_fmap app].
    assert (turn_index n cur 0 = Z.to_nat c) as -> by (unfold turn_index; by rewrite Z.add_0_r).
    unfold id_at at 2. rewrite E. cbn. f_equal. apply list_fmap_ext. intros i j _. cbn.
    f_equal. by apply turn_index_shift.
Qed.

(** A round uses each index once. *)
Lemma turn_index_round (n : nat) cur : (0 < n)%nat → turn_index (Z.of_nat n) cur <$> seq 0 n ≡ₚ seq 0 n.
Proof.
  intros Hn. symmetry.
  assert (∀ x, turn_index (Z.of_nat n) cur x < n)%nat as Hlt.
  { intros x. unfold turn_index. pose proof (Z.mod_pos_bound (cur + 1 + Z.of_nat x) (Z.of_nat n)). lia. }
  symmetry. apply submseteq_length_Permutation; [|by rewrite length_fmap].
  apply NoDup_submseteq.
  - apply NoDup_fmap_2_strong; [|apply NoDup_seq]. intros x y Hx%elem_of_seq Hy%elem_of_seq He.
    unfold turn_index in He.
    assert ((cur + 1 + Z.of_nat x) mod Z.of_nat n = (cur + 1 + Z.of_nat y) mod Z.of_nat n) as Hm.
    { pose proof (Z.mod_pos_bound (cur + 1 + Z.of_nat x) (Z.of_nat n) ltac:(lia)).
      pose proof (Z.mod_pos_bound (cur + 1 + Z.of_nat y) (Z.of_nat n) ltac:(lia)). lia. }
    pose proof (Z.div_mod (cur + 1 + Z.of_nat x) (Z.of_nat n) ltac:(lia)).
    pose proof (Z.div_mod (cur + 1 + Z.of_nat y) (Z.of_nat n) ltac:(lia)). rewrite Hm in *.
    set (p := (cur + 1 + Z.of_nat x) / Z.of_nat n) in *. set (q := (cur + 1 + Z.of_nat y) / Z.of_nat n) in *.
    assert (Z.of_nat x - Z.of_nat y = Z.of_nat n * (p - q)) as Hd by lia.
    assert (p - q = 0) by nia. lia.
  - intros x (y & -> & _)%list_elem_of_fmap. apply elem_of_seq. specialize (Hlt y). lia.
Qed.

Lemma id_at_seq ns : id_at ns <$> seq 0 (length ns) = np_nodeId <$> ns.
Proof.
  apply list_eq. intros i. rewrite !list_lookup_fmap. unfold id_at.
  destruct (ns !! i) as [x|] eqn:E.
  - rewrite lookup_seq_lt by (by eapply lookup_lt_Some). cbn. by rewrite E.
  - rewrite lookup_seq_ge by (by apply lookup_ge_None). done.
Qed.

Lemma turns_round ns cur : ns ≠ [] → turns_used ns cur (length ns) ≡ₚ np_nodeId <$> ns.
Proof.
  intros Hne.
  assert (turns_used ns cur (length ns) = id_at ns <$> (turn_index (Z.of_nat (length ns)) cur <$> seq 0 (length ns))) as ->
    by by rewrite <-list_fmap_compose.
  rewrite turn_index_round by (destruct ns; [done|cbn; lia]). by rewrite id_at_seq.
Qed.

(** Rounds after rounds. *)
Lemma turns_rounds ns cur k :
  ns ≠ [] → turns_used ns cur (k * length ns) ≡ₚ concat (replicate k (np_nodeId <$> ns)).
Proof.
  intros Hne. revert cur. induction k as [|k IH]; intros cur; [done|].
  cbn [replicate concat]. rewrite <-(IH cur), <-(turns_round ns cur Hne).
  unfold turns_used. cbn [Nat.mul]. rewrite seq_app, fmap_app. apply Permutation_app_head.
  rewrite Nat.add_comm, <-fmap_add_seq, <-list_fmap_compose.
  match goal with |- ?a ≡ₚ ?b => enough (a = b) as -> by done end.
  apply list_fmap_ext. intros i j _. cbn. unfold turn_index. do 2 f_equal.
  rewrite Nat2Z.inj_add. replace (cur + 1 + (Z.of_nat (length ns) + Z.of_nat j))
    with (cur + 1 + Z.of_nat j + 1 * Z.of_nat (length ns)) by lia.
  apply Z.mod_add. destruct ns; [done|cbn; lia].
Qed.
End turns.

(** ** Where a join looks *)

Lemma join_node (n c k : nat) (h : Z) :
  (0 < n)%nat → (0 < c)%nat → Z.of_nat n * Z.of_nat c < 2147483648 →
  node_of_hash (Z.of_nat n) (Z.of_nat n * Z.of_nat c) h = Ret (Z.of_nat k) ↔
  (λ i, i / c)%nat <$> row_index c n HashPartitionedJoin 0 h = Ret k.
Proof.
  intros Hn Hc Hb. rewrite (proj1 (node_of_hash_even (Z.of_nat n) (Z.of_nat c) h ltac:(lia) ltac:(lia) Hb)).
  unfold row_index, even_node. rewrite decide_False by lia. rewrite decide_False by done.
  rewrite Nat2Z.inj_mul, (Z.mul_comm (Z.of_nat c)). cbn [fmap outcome_fmap].
  pose proof (Z.mod_pos_bound h (Z.of_nat n * Z.of_nat c) ltac:(lia)) as Hr.
  set (r := h mod (Z.of_nat n * Z.of_nat c)) in *.
  assert (Z.of_nat (Z.to_nat r / c) = r / Z.of_nat c) as Hd by (rewrite Nat2Z.inj_div; f_equal; lia).
  split; intros [= E]; f_equal; lia.
Qed.

(** ** Properties *)

(** [C22] The dispatcher loses nothing and sends nothing twice.  With the nodes
    numbered from 0 and every policy in order ([server_ok]: it knows the nodes
    that are registered, with their ids; partitions are a multiple of the nodes;
    its lambda hashes one object, which native code of two or more inputs does not,
    [native_lambda_loses_objects]), dispatching objects to a set, registered or
    not, sends messages for that set to registered nodes, at most one to each,
    that together hold the objects; if a node does not store its message, those
    before it have been sent, those after it have not, and the call returns
    false. *)
Theorem dispatchData_sends_all {O} (store : NodeDispatcherData → payload O → bool)
    (entries : gmap Z (option (list O)) → list (Z * option (list O))) (rand : Z) (s : string * string) (type : string)
    (objs : list O) (d : server O) :
  (∀ m, entries m ≡ₚ map_to_list m) → server_ok d →
  ∃ b d' all ms, dispatchData store entries rand s type objs d = (Ret b, d') ∧ server_ok d' ∧
    sent d' = sent d ++ ms ∧
    Forall (λ x, m_set x = s ∧ m_type x = type ∧ m_node x ∈ storageNodes d) all ∧
    NoDup ((λ x, nd_nodeId (m_node x)) <$> all) ∧ all ≫= message_objs ≡ₚ objs ∧
    Forall (λ x, store (m_node x) (m_payload x) = true) ms ∧
    if b then ms = all
    else ∃ m rest, all = ms ++ m :: rest ∧ store (m_node m) (m_payload m) = false.
Proof.
  intros He Hd.
  destruct (dispatchData_ok store entries He rand s type objs d Hd) as (b & d' & H1 & H2 & _ & _ & all & ms & H).
  by exists b, d', all, ms.
Qed.

(** [C35] Objects dispatched by the hash of a lambda are where a join partitioned
    by the same hash looks for them: the vector for node [k] holds the objects,
    in their order, whose row goes to a partition of node [k]; a node without
    objects has a null vector. *)
Theorem dispatched_where_joined {O} (nodes : list NodeDispatcherData) (ns : list NodePartitionData) (hash : O → Z)
    (numPartitionsPerNode : nat) (rand cur : Z) (objs : list O) :
  nodes_ok nodes → np_nodeId <$> ns = nd_nodeId <$> nodes → (∀ o, 0 ≤ hash o) →
  (0 < numPartitionsPerNode)%nat → Z.of_nat (length nodes) * Z.of_nat numPartitionsPerNode < 2147483648 →
  ∃ m, partition rand (LambdaPolicy ns (Z.of_nat (length nodes))
         (Z.of_nat (length nodes) * Z.of_nat numPartitionsPerNode) (HashLambda hash)) (Some objs) cur = (Ret m, cur) ∧
    ∀ k, m !! Z.of_nat k =
      if decide (k < length nodes)%nat
      then Some (match filter (λ o, (λ i, i / numPartitionsPerNode)%nat <$>
                   row_index numPartitionsPerNode (length nodes) HashPartitionedJoin 0 (hash o) = Ret k) objs with
                 | [] => None | l => Some l end)
      else None.
Proof.
  intros Hn Hids Hh Hc Hb. pose proof (no_some _ Hn) as Hne.
  assert (0 < length nodes)%nat as Hl by (destruct nodes; [done|cbn; lia]).
  destruct (hashed_ok nodes (Z.of_nat (length nodes)) (Z.of_nat (length nodes) * Z.of_nat numPartitionsPerNode) hash objs Hn)
    as (m & Hm & Hk & _); [split; [done|]; exists (Z.of_nat numPartitionsPerNode); lia|].
  exists m. unfold partition, hash_partition, lift, lambda_partition. rewrite decide_False.
  2: { intros ->. destruct nodes; [done|]. discriminate Hids. }
  rewrite Hm. split; [done|]. intros k. rewrite Hk.
  destruct (decide (k < length nodes)%nat); [rewrite decide_True by lia|by rewrite decide_False by lia].
  erewrite (list_filter_iff (λ o, node_of_hash _ _ (hash o) = Ret (Z.of_nat k))); [done|]. intros o. by apply join_node.
Qed.

(** Round-robin takes turns: whatever the member [curNodeId] is, [k] rounds
    of as many vectors as there are nodes, partitioned by one policy with no
    other in between, give each node [k] of them, and the member stays below
    the number of nodes. *)
Theorem round_robin_takes_turns {O} (rand cur : Z) (ns : list NodePartitionData) (vs : list (option (list O))) (k : nat) :
  ns ≠ [] → Z.of_nat (length ns) < 2147483648 → 0 ≤ cur < 4294967295 → length vs = (S k * length ns)%nat →
  ∃ ms c, partition_each rand (RoundRobinPolicy ns (Z.of_nat (length ns))) vs cur = (Ret ms, c) ∧
    ms ≫= (λ m, (map_to_list m).*1) ≡ₚ concat (replicate (S k) (np_nodeId <$> ns)) ∧ 0 ≤ c < Z.of_nat (length ns).
Proof.
  intros Hne Hlen Hcur Hvs. destruct (partition_each_turns rand ns vs cur Hne Hlen Hcur) as (ms & Hms & Hkeys).
  assert (0 < length ns)%nat as Hn by (destruct ns; [done|cbn; lia]).
  exists ms. eexists. split; [exact Hms|]. split; [rewrite Hkeys, Hvs; by apply turns_rounds|].
  destruct vs; [cbn in Hvs; lia|]. apply Z.mod_pos_bound. lia.
Qed.

(** A client learns nothing of a failed dispatch: when no node stores
    anything, the handler has already answered that all is well, returns the
    same, has sent nothing, and the statistics count the bytes as stored. *)
Theorem add_data_failure_unnoticed {O} (entries : gmap Z (option (list O)) → list (Z * option (list O))) (rand : Z)
    (reply : bool * string) (collected : gmap string Z) (request : add_data O) (d : server O) :
  (∀ m, entries m ≡ₚ map_to_list m) → server_ok d → ad_data request ≠ [] → ad_isShallowCopy request = false →
  ∃ d', handle_add_data (λ _ _, false) entries rand reply collected request d = (Ret reply, d') ∧
    responses d' = responses d ++ [(true, ""%string)] ∧ sent d' = sent d ∧
    getNumBytes (ad_databaseName request) (ad_setName request) (default ∅ (stats d')) =
      u64 (getNumBytes (ad_databaseName request) (ad_setName request) (default collected (stats d)) + ad_numBytes request).
Proof.
  intros He Hd Hdata Hsc. unfold handle_add_data. rewrite decide_False, Hsc by done. run.
  destruct (dispatchData_ok (λ _ _, false) entries He rand (ad_setName request, ad_databaseName request) (ad_typeName request)
    (ad_data request) (add_response (true, ""%string) d)) as (b & d' & H1 & _ & H3 & H4 & all & ms & Hsent & _ & _ & _ & Hms & _).
  { by destruct Hd. }
  rewrite H1. cbn beta iota. eexists. split; [done|]. cbn. split; [done|]. rewrite H4. cbn.
  split; [|unfold getNumBytes, incrementNumBytes; by rewrite lookup_insert_eq].
  rewrite Hsent. destruct ms; [apply app_nil_r|]. by inversion Hms.
Qed.

(** ** Sets share the turns *)

Section shared_turns.
Context {O : Type} (entries : gmap Z (option (list O)) → list (Z * option (list O))).
Hypothesis entries_ok : ∀ m, entries m ≡ₚ map_to_list m.
Variables (setA setB : string * string) (type : string) (n0 n1 : NodeDispatcherData) (p0 p1 : NodePartitionData).
Hypothesis ids : np_nodeId p0 = nd_nodeId n0 ∧ np_nodeId p1 = nd_nodeId n1 ∧ nd_nodeId n0 ≠ nd_nodeId n1.
Implicit Types (d : server O) (objs : list O).

(** Two nodes and two sets with a round-robin policy each; it is the turn of
    the first node. *)
Definition two_sets d : Prop :=
  storageNodes d = [n0; n1] ∧ curNodeId d = 1 ∧
  partitionPolicies d !! setA = Some (RoundRobinPolicy [p0; p1] 2) ∧
  partitionPolicies d !! setB = Some (RoundRobinPolicy [p0; p1] 2).

(** A client of each set in turn. *)
Fixpoint alternate (objsA objsB : list O) (k : nat) : Prelude.M (server O) unit :=
  match k with
  | 0%nat => mret tt
  | S k =>
      dispatchData (λ _ _, true) entries 0 setA type objsA;;
      dispatchData (λ _ _, true) entries 0 setB type objsB;;
      alternate objsA objsB k
  end.

(** One turn of the policy. *)
Lemma dispatch_turn d s objs i (n : NodeDispatcherData) (p : NodePartitionData) :
  storageNodes d = [n0; n1] → partitionPolicies d !! s = Some (RoundRobinPolicy [p0; p1] 2) →
  u32 (curNodeId d + 1) mod 2 = Z.of_nat i → [p0; p1] !! i = Some p → findNode (np_nodeId p) [n0; n1] = Some n →
  dispatchData (λ _ _, true) entries 0 s type objs d =
    (Ret true, add_sent (Message s type n (Objects objs)) (set_curNodeId (Z.of_nat i) d)).
Proof.
  intros Hn Hp Hi Hpi Hfind. unfold dispatchData. run. rewrite Hp. unfold dispatch_known. run.
  unfold call_partition. rewrite Hp. cbn [partition]; unfold roundrobin_partition. rewrite decide_False by done.
  change (u32 2) with 2. rewrite Hi, Nat2Z.id, Hpi. cbn beta iota.
  assert (entries {[np_nodeId p := Some objs]} = [(np_nodeId p, Some objs)]) as ->.
  { apply Permutation_singleton_r. by rewrite entries_ok, map_to_list_singleton. }
  cbn [send_parts]. run. cbn [storageNodes set_curNodeId]. rewrite Hn, Hfind. done.
Qed.

(** The member [curNodeId] is shared by the policies of all sets: with two
    nodes, when clients of two sets take turns, all objects of one set go to one
    node and all of the other to the other. *)
Theorem alternating_sets_use_one_node objsA objsB k d :
  two_sets d →
  ∃ d', alternate objsA objsB k d = (Ret tt, d') ∧ two_sets d' ∧
    sent d' = sent d ++ concat (replicate k [Message setA type n0 (Objects objsA); Message setB type n1 (Objects objsB)]).
Proof.
  destruct ids as (H0 & H1 & Hne).
  assert (findNode (np_nodeId p0) [n0; n1] = Some n0) as Hf0.
  { unfold findNode. by rewrite filter_cons_True. }
  assert (findNode (np_nodeId p1) [n0; n1] = Some n1) as Hf1.
  { unfold findNode. rewrite filter_cons_False by congruence. by rewrite filter_cons_True. }
  revert d. induction k as [|k IH]; intros d (Hn & Hc & HA & HB); cbn [alternate].
  - exists d. by rewrite app_nil_r.
  - run. rewrite (dispatch_turn d setA objsA 0 n0 p0) by (rewrite ?Hc; done). cbn beta iota. run.
    rewrite (dispatch_turn _ setB objsB 1 n1 p1) by done. cbn beta iota.
    match goal with |- ∃ d', _ ?x = _ ∧ _ => destruct (IH x) as (d' & Hd & Hok & Hs) end; [done|].
    exists d'. split; [exact Hd|]. split; [done|]. rewrite Hs. cbn. by rewrite <-!app_assoc.
Qed.
End shared_turns.

(** ** What else the code does *)

(** A policy that is registered is not replaced. *)
Lemma registerSet_keeps_policy {O} (d : server O) s p q :
  partitionPolicies d !! s = Some p →
  ∃ d', registerSet s (Some q) d = (Ret tt, d') ∧
    partitionPolicies d' !! s = Some (updateStorageNodes (storageNodes d) p).
Proof. intros Hp. unfold registerSet. rewrite Hp. eexists. split; [done|]. apply lookup_insert_eq. Qed.

(** The fair policy is null and followed. *)
Lemma fair_policy_undefined {O} (d : server O) s :
  partitionPolicies d !! s = None → (registerSet s (buildPartitionPolicy FAIR) d).1 = Undefined.
Proof. intros Hs. unfold registerSet. by rewrite Hs. Qed.

(** Bytes for a set with a lambda policy: the null vector is followed. *)
Lemma bytes_with_lambda_undefined {O} (store : NodeDispatcherData → payload O → bool) entries rand s type numBytes (d : server O) ns n np l :
  partitionPolicies d !! s = Some (LambdaPolicy ns n np l) →
  (dispatchBytes store entries rand s type numBytes d).1 = Undefined.
Proof.
  intros Hp. unfold dispatchBytes. run. rewrite Hp. unfold dispatch_bytes_known. run. unfold call_partition. by rewrite Hp.
Qed.

(** A node that comes back under another id keeps its old one in the policies:
    objects for the first node go to the second. *)
Lemma stale_node_id :
  let a := MkNode 0 8108 "a" in let b := MkNode 1 8108 "b" in
  let a' := MkNode 1 8108 "a" in let b' := MkNode 0 8108 "b" in
  np_nodeId <$> update_nodes (createNodePartitionData [a'; b']) (createNodePartitionData [a; b]) = [0; 1] ∧
  np_address <$> update_nodes (createNodePartitionData [a'; b']) (createNodePartitionData [a; b]) = ["a"; "b"]%string ∧
  findNode 0 [a'; b'] = Some b'.
Proof. done. Qed.

(** ** Witnesses *)

Definition demo_nodes : list NodeDispatcherData := [MkNode 0 8108 "a"; MkNode 1 8108 "b"].

(** A set whose objects, numbers, are placed by their own value. *)
Definition demo_server : server Z :=
  (registerSet ("set", "db")%string (Some (LambdaPolicy_new 2 4 (HashLambda id)))
    (registerStorageNodes demo_nodes (DispatcherServer_new 0 None))).2.

Lemma demo_nodes_ok : nodes_ok demo_nodes.
Proof. by split. Qed.

Lemma demo_server_ok : server_ok demo_server.
Proof.
  split; [exact demo_nodes_ok|]. intros s p Hp.
  change (partitionPolicies demo_server) with
    (<[("set", "db")%string := updateStorageNodes demo_nodes (LambdaPolicy_new 2 4 (HashLambda id))]>
       (updateStorageNodes demo_nodes <$> (∅ : gmap (string * string) (policy Z)))) in Hp.
  rewrite fmap_empty in Hp. apply lookup_insert_Some in Hp as [[_ <-]|[_ Hp]]; [|by rewrite lookup_empty in Hp].
  apply (new_policy_ok demo_nodes (LambdaPolicy_new 2 4 (HashLambda id))); [done|].
  split; [|done]. split; [done|]. exists 2. done.
Qed.

Lemma dispatchData_sends_all_witness :
  ∃ b d' all ms, dispatchData (λ _ _, true) map_to_list 0 ("set", "db")%string "Int" [5; 2; 7; 4] demo_server = (Ret b, d') ∧ server_ok d' ∧
    sent d' = sent demo_server ++ ms ∧
    Forall (λ x, m_set x = ("set", "db")%string ∧ m_type x = "Int"%string ∧ m_node x ∈ storageNodes demo_server) all ∧
    NoDup ((λ x, nd_nodeId (m_node x)) <$> all) ∧ all ≫= message_objs ≡ₚ [5; 2; 7; 4] ∧
    Forall (λ x, true = true) ms ∧
    if b then ms = all else ∃ m rest, all = ms ++ m :: rest ∧ true = false.
Proof.
  exact (dispatchData_sends_all (λ _ _, true) map_to_list 0 ("set", "db")%string "Int" [5; 2; 7; 4] demo_server
    (λ m, Permutation_refl _) demo_server_ok).
Defined.

Lemma dispatched_where_joined_witness :
  ∃ m, partition 0 (LambdaPolicy (createNodePartitionData demo_nodes) 2 4 (HashLambda Z.abs)) (Some [5; 2; 7; 4]) 0 = (Ret m, 0) ∧
    ∀ k, m !! Z.of_nat k =
      if decide (k < 2)%nat
      then Some (match filter (λ o, (λ i, i / 2)%nat <$> row_index 2 2 HashPartitionedJoin 0 (Z.abs o) = Ret k) [5; 2; 7; 4] with
                 | [] => None | l => Some l end)
      else None.
Proof.
  apply (dispatched_where_joined demo_nodes (createNodePartitionData demo_nodes) Z.abs 2 0 0 [5; 2; 7; 4]);
    [exact demo_nodes_ok|reflexivity|intros; lia|lia|vm_compute; reflexivity].
Defined.

(** A native lambda of two inputs as the policy of a set: its partitioner returns
    false without having placed an object, which nobody reads; the vectors of
    all nodes are null, nothing is sent, and the call returns true. *)
Lemma native_lambda_loses_objects :
  let d := (registerSet ("set", "db")%string (Some (LambdaPolicy_new 2 4 (CPlusPlusLambda 2 id)))
    (registerStorageNodes demo_nodes (DispatcherServer_new 0 None))).2 in
  ∃ d', dispatchData (λ _ _, true) map_to_list 0 ("set", "db")%string "Int" [5; 2; 7; 4] d = (Ret true, d') ∧ sent d' = [].
Proof. eexists. split; vm_compute; reflexivity. Qed.

(** The objects of the second node. *)
Lemma dispatched_where_joined_value :
  (λ m, m !! 1) <$> (partition 0 (LambdaPolicy (createNodePartitionData demo_nodes) 2 4 (HashLambda Z.abs)) (Some [5; 2; 7; 4]) 0).1 =
  Ret (Some (Some [2; 7])).
Proof. vm_compute. reflexivity. Qed.

Lemma round_robin_takes_turns_witness :
  ∃ ms c, partition_each 0 (RoundRobinPolicy (createNodePartitionData demo_nodes) 2) [Some [1]; Some [2]; None; Some [3]] 7 = (Ret ms, c) ∧
    ms ≫= (λ m, (map_to_list m).*1) ≡ₚ concat (replicate 2 (np_nodeId <$> createNodePartitionData demo_nodes)) ∧ 0 ≤ c < 2.
Proof.
  apply (round_robin_takes_turns 0 7 (createNodePartitionData demo_nodes) [Some [1]; Some [2]; None; Some [3]] 1);
    [done|vm_compute; reflexivity|lia|reflexivity].
Defined.

Definition demo_request : add_data Z := AddData "db" "set" "Int" false 100 [5; 2].

Lemma add_data_failure_unnoticed_witness :
  ∃ d', handle_add_data (λ _ _, false) map_to_list 0 (true, ""%string) ∅ demo_request demo_server = (Ret (true, ""%string), d') ∧
    responses d' = responses demo_server ++ [(true, ""%string)] ∧ sent d' = sent demo_server ∧
    getNumBytes "db" "set" (default ∅ (stats d')) = u64 (getNumBytes "db" "set" (default ∅ (stats demo_server)) + 100).
Proof.
  apply (add_data_failure_unnoticed map_to_list 0 (true, ""%string) ∅ demo_request demo_server);
    [intros m; reflexivity|exact demo_server_ok|done|reflexivity].
Defined.

Definition demo_sets : server Z :=
  set_curNodeId 1 (registerSet ("B", "db")%string (Some RoundRobinPolicy_new)
    (registerSet ("A", "db")%string (Some RoundRobinPolicy_new)
      (registerStorageNodes demo_nodes (DispatcherServer_new 0 None))).2).2.

Lemma alternating_sets_use_one_node_witness :
  let n0 := MkNode 0 8108 "a" in let n1 := MkNode 1 8108 "b" in
  let p0 := NodePartitionData_new 0 8108 "a" ("", "")%string in let p1 := NodePartitionData_new 1 8108 "b" ("", "")%string in
  ∃ d', alternate map_to_list ("A", "db")%string ("B", "db")%string "Int" [1] [2] 3 demo_sets = (Ret tt, d') ∧
    two_sets ("A", "db")%string ("B", "db")%string n0 n1 p0 p1 d' ∧
    sent d' = sent demo_sets ++ concat (replicate 3 [Message ("A", "db")%string "Int" n0 (Objects [1]); Message ("B", "db")%string "Int" n1 (Objects [2])]).
Proof.
  intros n0 n1 p0 p1.
  apply (alternating_sets_use_one_node map_to_list (λ m, Permutation_refl _) ("A", "db")%string ("B", "db")%string "Int" n0 n1 p0 p1).
  - done.
  - repeat split; vm_compute; reflexivity.
Defined.
