(* ===== verification/UserSet.v ===== *)
(** * UserSet: the pages of a stored set, and scanning them

    Models [storage/headers/UserSet.h] and [storage/source/UserSet.cc] with the
    iterators [SetCachePageIterator.cc] and [PartitionPageIterator.cc]: the map
    of dirty pages, which remembers where a page went that was flushed while the
    set was pinned, the iterators over dirty pages and over the partitions of
    the file, and the steps in which a thread of the flush consumer
    ([PDBFlushConsumerWork.cc]) writes a page and marks it.  The file is what
    [FileStore.v] proves a partitioned file to be, a list of pages for each
    partition; of the page cache only which pages of the set it holds is kept.
    The content of a page is what has been written when it is unpinned.  The
    input buffer page and sets that share pages are left out. *)

From S2P Require Import Prelude.

(** ** State *)

(** Where a dirty page is: in the cache, or flushed to the file. *)
Record FileSearchKey := MkSearchKey { inCache : bool; fk_partitionId : Z; fk_pageSeqInPartition : Z }.

Section user_set.
Context {P : Type}.

(** [dirtyPagesInPageCache] is in the order in which the map is iterated; the
    positions of a page in flight are known to its flush thread only. *)
Record user_set := MkUserSet {
  dirtyPagesInPageCache : list (Z * FileSearchKey);
  cachedPages : gmap Z P;
  partitions : list (list (Z * P));
  isPinned : bool;
  seqId : Z;
  lastFlushedPageId : Z;
  numPages : Z;
  inFlush : gmap nat (Z * nat)
}.

Implicit Types (s : user_set).

Definition set_dirty l s := MkUserSet l (cachedPages s) (partitions s) (isPinned s) (seqId s) (lastFlushedPageId s) (numPages s) (inFlush s).
Definition set_cached c s := MkUserSet (dirtyPagesInPageCache s) c (partitions s) (isPinned s) (seqId s) (lastFlushedPageId s) (numPages s) (inFlush s).
Definition set_partitions ps s := MkUserSet (dirtyPagesInPageCache s) (cachedPages s) ps (isPinned s) (seqId s) (lastFlushedPageId s) (numPages s) (inFlush s).
Definition set_inFlush f s := MkUserSet (dirtyPagesInPageCache s) (cachedPages s) (partitions s) (isPinned s) (seqId s) (lastFlushedPageId s) (numPages s) f.
Definition setPinned b s := MkUserSet (dirtyPagesInPageCache s) (cachedPages s) (partitions s) b (seqId s) (lastFlushedPageId s) (numPages s) (inFlush s).

(** The constructor for a file that is there: page ids go on after the largest
    one in the file. *)
Definition UserSet_new (file : list (list (Z * P))) (latest : Z) : user_set :=
  let n := Z.of_nat (length (concat file)) in
  if decide (n = 0)%Z then MkUserSet [] ∅ file false 0 UINT32_MAX n ∅
  else MkUserSet [] ∅ file false (u32 (latest + 1)) latest n ∅.

(** ** Dirty pages *)

Definition search (l : list (Z * FileSearchKey)) (pageId : Z) : option FileSearchKey := snd <$> head (filter (λ e, e.1 = pageId) l).

(** A page enters the map somewhere, [where_to]; one that is there stays. *)
Definition addPageToDirtyPageSet (where_to : nat) (pageId : Z) s : user_set :=
  match search (dirtyPagesInPageCache s) pageId with
  | Some _ => s
  | None => set_dirty (take where_to (dirtyPagesInPageCache s) ++
      (pageId, MkSearchKey true UINT32_MAX UINT32_MAX) :: drop where_to (dirtyPagesInPageCache s)) s
  end.

Definition erase (pageId : Z) (l : list (Z * FileSearchKey)) : list (Z * FileSearchKey) := filter (λ e, e.1 ≠ pageId) l.

(** [removePageFromDirtyPageSet]: in a pinned set the page is marked. *)
Definition removePageFromDirtyPageSet (pageId partitionId pageSeqInPartition : Z) s : user_set :=
  if isPinned s
  then set_dirty ((λ e, if decide (e.1 = pageId) then (e.1, MkSearchKey false partitionId pageSeqInPartition) else e) <$> dirtyPagesInPageCache s) s
  else set_dirty (erase pageId (dirtyPagesInPageCache s)) s.

Definition cleanDirtyPageSet s : user_set := set_dirty (filter (λ e, inCache e.2 = true) (dirtyPagesInPageCache s)) s.

(** [addPage]; the cache has a new page for the key, which is written with
    [content]. *)
Definition addPage (where_to : nat) (content : P) s : user_set :=
  let pageId := seqId s in
  let s1 := MkUserSet (dirtyPagesInPageCache s) (<[pageId := content]> (cachedPages s)) (partitions s) (isPinned s)
              (u32 (seqId s + 1)) (lastFlushedPageId s) (numPages s) (inFlush s) in
  let s2 := addPageToDirtyPageSet where_to pageId s1 in
  MkUserSet (dirtyPagesInPageCache s2) (cachedPages s2) (partitions s2) (isPinned s2) (seqId s2) (lastFlushedPageId s2)
    (numPages s2 + 1) (inFlush s2).

(** ** Getting pages *)

Definition page_at (ps : list (list (Z * P))) (i j : nat) : option (Z * P) := l ← ps !! i; l !! j.

(** [PageCache::getPage1] of a key of the set. *)
Definition getPage1 (pageId : Z) s : option (Z * P) := c ← cachedPages s !! pageId; Some (pageId, c).

(** [UserSet::getPage]: from the cache, or loaded from the file into it. *)
Definition getPage (partitionId pageSeqInPartition pageId : Z) s : option (Z * P) * user_set :=
  match cachedPages s !! pageId with
  | Some c => (Some (pageId, c), s)
  | None =>
      match page_at (partitions s) (Z.to_nat partitionId) (Z.to_nat pageSeqInPartition) with
      | Some (k, c) => (Some (k, c), set_cached (<[k := c]> (cachedPages s)) s)
      | None => (None, s)
      end
  end.

(** ** Iterators *)

(** What is left of the map of dirty pages; or a partition, how many of its
    pages have been iterated and how many there were. *)
Inductive page_iterator :=
| SetCachePageIterator (rest : list Z)
| PartitionPageIterator (partitionId : nat) (numIteratedPages numPages : nat).

Definition hasNext (it : page_iterator) : bool :=
  match it with
  | SetCachePageIterator rest => bool_decide (rest ≠ [])
  | PartitionPageIterator _ i n => i <? n
  end.

(** [SetCachePageIterator::next]; an entry that is not in the map any more was
    erased under the iterator. *)
Definition cache_next (rest : list Z) s : outcome (option (Z * P) * page_iterator * user_set) :=
  match rest with
  | [] => Ret (None, SetCachePageIterator [], s)
  | pageId :: rest =>
      match search (dirtyPagesInPageCache s) pageId with
      | None => Undefined
      | Some key =>
          if inCache key then Ret (getPage1 pageId s, SetCachePageIterator rest, s)
          else
            let '(page, s1) := getPage (fk_partitionId key) (fk_pageSeqInPartition key) pageId s in
            Ret (page, SetCachePageIterator rest, set_dirty (erase pageId (dirtyPagesInPageCache s1)) s1)
      end
  end.

(** [PartitionPageIterator::next]; the page id is read from the file. *)
Definition partition_next (partitionId i n : nat) s : outcome (option (Z * P) * page_iterator * user_set) :=
  if n <=? i then Ret (None, PartitionPageIterator partitionId i n, s)
  else
    match page_at (partitions s) partitionId i with
    | None => Ret (None, PartitionPageIterator partitionId (S i) n, s)
    | Some (curPageId, _) =>
        let '(page, s1) := getPage (Z.of_nat partitionId) (Z.of_nat i) curPageId s in
        Ret (page, PartitionPageIterator partitionId (S i) n, s1)
    end.

Definition next (it : page_iterator) s : outcome (option (Z * P) * page_iterator * user_set) :=
  match it with
  | SetCachePageIterator rest => cache_next rest s
  | PartitionPageIterator p i n => partition_next p i n s
  end.

(** [getIterators]: one over the dirty pages, if there are any, and one over
    each partition that has pages, as many as it has now. *)
Definition partition_iterators (ps : list (list (Z * P))) : list page_iterator :=
  omap (λ '(i, l), if decide (l = []) then None else Some (PartitionPageIterator i 0 (length l)))
       (zip (seq 0 (length ps)) ps).

Definition getIterators s : list page_iterator * user_set :=
  let s1 := cleanDirtyPageSet s in
  ((if decide (dirtyPagesInPageCache s1 = []) then [] else [SetCachePageIterator (dirtyPagesInPageCache s1).*1])
     ++ partition_iterators (partitions s1), s1).

(** ** Flushing and evicting *)

(** A thread of the flush consumer has taken a page that is in the cache and
    appends it to partition [i], under the lock for flushing.  The file takes the
    page: a thread whose append fails logs that and marks the page as flushed all
    the same, so that its content is lost when it leaves the cache; that run is
    not modelled. *)
Definition flush_append (i : nat) (pageId : Z) s : option user_set :=
  key ← search (dirtyPagesInPageCache s) pageId;
  content ← cachedPages s !! pageId;
  l ← partitions s !! i;
  if decide (inCache key = true ∧ inFlush s !! i = None ∧ map_Forall (λ _ f, f.1 ≠ pageId) (inFlush s))
  then Some (set_inFlush (<[i := (pageId, length l)]> (inFlush s))
               (set_partitions (<[i := l ++ [(pageId, content)]]> (partitions s)) s))
  else None.

(** It marks the page, takes it out of the cache if it is being evicted, and
    gives the lock back. *)
Definition flush_mark (i : nat) (evict : bool) s : option user_set :=
  '(pageId, n) ← inFlush s !! i;
  let s1 := set_inFlush (delete i (inFlush s)) (removePageFromDirtyPageSet pageId (Z.of_nat i) (Z.of_nat n) s) in
  Some (if evict then set_cached (delete pageId (cachedPages s1)) s1 else s1).

(** A page that is not dirty is evicted. *)
Definition evict_clean (pageId : Z) s : option user_set :=
  match search (dirtyPagesInPageCache s) pageId with
  | Some (MkSearchKey true _ _) => None
  | _ => Some (set_cached (delete pageId (cachedPages s)) s)
  end.

(** ** Scans *)

(** A scan has the set, its iterators and the pages it was given. *)
Record scan := Scan { sc_set : user_set; sc_iterators : list page_iterator; sc_pages : list (Z * P) }.

(** Each iterator is asked for pages by a scan work of its own
    ([PDBScanWork::execute]); [dump] asks one after the other.  Pages that are
    null are skipped; getting a page waits for the flush threads to give back
    their lock. *)
Inductive scan_turn := NextTurn (j : nat) | AppendTurn (i : nat) (pageId : Z) | MarkTurn (i : nat) (evict : bool) | EvictTurn (pageId : Z).

Definition scan_next (j : nat) (sc : scan) : option (outcome scan) :=
  it ← sc_iterators sc !! j;
  if hasNext it then
    if decide (inFlush (sc_set sc) = ∅) then
      Some ('(page, it', s) ← next it (sc_set sc);
            Ret (Scan s (<[j := it']> (sc_iterators sc)) (sc_pages sc ++ option_list page)))
    else None
  else None.

(** All works have come to the end of their iterators. *)
Definition scan_done (sc : scan) : bool := forallb (λ it, negb (hasNext it)) (sc_iterators sc).

Definition with_set (sc : scan) (s : option user_set) : option (outcome scan) :=
  s ← s; Some (Ret (Scan s (sc_iterators sc) (sc_pages sc))).

Definition scan_step (t : scan_turn) (sc : scan) : option (outcome scan) :=
  match t with
  | NextTurn j => scan_next j sc
  | AppendTurn i k => with_set sc (flush_append i k (sc_set sc))
  | MarkTurn i e => with_set sc (flush_mark i e (sc_set sc))
  | EvictTurn k => with_set sc (evict_clean k (sc_set sc))
  end.

Fixpoint run_scan (ts : list scan_turn) (sc : scan) : option (outcome scan) :=
  match ts with
  | [] => Some (Ret sc)
  | t :: ts =>
      match scan_step t sc with
      | Some (Ret sc') => run_scan ts sc'
      | r => r
      end
  end.

(** A scan of the set as it is. *)
Definition scan_start s : scan := let '(its, s1) := getIterators s in Scan s1 its [].
End user_set.

Arguments user_set : clear implicits.
Arguments scan : clear implicits.
