(* ===== verification/UserSetScan.v ===== *)
(** * UserSetScan: a scan sees every page once

    Proves of a pinned set that a scan is given every page once, with its
    content, however flush threads write dirty pages to the file and pages are
    evicted meanwhile; and shows what happens when the scan starts between the
    two steps of a flush thread, or the set is not pinned. *)

From S2P Require Import Prelude.
From S2P Require Import UserSet.

(** ** Invariant *)

Section facts.
Context {P : Type}.
Implicit Types (s : user_set P) (data : gmap Z P) (ps : list (list (Z * P))) (k : Z) (c : P).

Local Abbreviation dirty s := (dirtyPagesInPageCache s).

(** The ids of the pages in the file. *)
Definition file_ids ps : list Z := (concat ps).*1.

(** [data] is what has been written to the pages of the set. *)
Record set_ok data s : Prop := {
  us_keys : NoDup (dirty s).*1;
  us_cached k c : cachedPages s !! k = Some c → data !! k = Some c;
  us_file i j k c : page_at (partitions s) i j = Some (k, c) → data !! k = Some c;
  us_once : NoDup (file_ids (partitions s));
  us_in k key : (k, key) ∈ dirty s → inCache key = true → is_Some (cachedPages s !! k) ∧
    (k ∉ file_ids (partitions s) ∨ ∃ i n, inFlush s !! i = Some (k, n));
  us_out k key : (k, key) ∈ dirty s → inCache key = false →
    ∃ i j c, fk_partitionId key = Z.of_nat i ∧ fk_pageSeqInPartition key = Z.of_nat j ∧ page_at (partitions s) i j = Some (k, c);
  us_flight i k n : inFlush s !! i = Some (k, n) →
    (∃ key, (k, key) ∈ dirty s ∧ inCache key = true) ∧ ∃ c, page_at (partitions s) i n = Some (k, c);
  us_flight_once i j k n m : inFlush s !! i = Some (k, n) → inFlush s !! j = Some (k, m) → i = j;
  us_all k : is_Some (data !! k) → (∃ key, (k, key) ∈ dirty s ∧ inCache key = true) ∨ k ∈ file_ids (partitions s)
}.

(** *** Lists of pages *)

Lemma search_Some (l : list (Z * FileSearchKey)) k key : NoDup l.*1 → search l k = Some key ↔ (k, key) ∈ l.
Proof.
  unfold search. induction l as [|[k' key'] l IH]; intros Hnd; cbn [fmap list_fmap fst] in *.
  - split; [done|]. by intros ?%not_elem_of_nil.
  - apply NoDup_cons in Hnd as [Hk Hnd]. rewrite filter_cons. cbn [fst]. case_decide as Hd.
    + subst k'. cbn. rewrite elem_of_cons. split; [intros [= <-]; by left|].
      intros [[= <-]|Hin]; [done|]. destruct Hk. apply list_elem_of_fmap. by exists (k, key).
    + rewrite (IH Hnd), elem_of_cons. split; [by right|]. by intros [[= <- <-]|?].
Qed.

Lemma search_None (l : list (Z * FileSearchKey)) k : search l k = None ↔ k ∉ l.*1.
Proof.
  unfold search. induction l as [|[k' key'] l IH]; cbn [fmap list_fmap fst]; [split; [intros _; apply not_elem_of_nil|done]|].
  rewrite filter_cons. cbn [fst]. case_decide as Hd; cbn.
  - split; [done|]. subst. set_solver.
  - rewrite IH. set_solver.
Qed.

Lemma filter_keys (Q : Z * FileSearchKey → Prop) `{∀ e, Decision (Q e)} (l : list (Z * FileSearchKey)) :
  NoDup l.*1 → NoDup (filter Q l).*1.
Proof.
  induction l as [|e l IH]; [done|]. rewrite fmap_cons. intros [Hk Hnd]%NoDup_cons.
  rewrite filter_cons. case_decide; [|by apply IH]. rewrite fmap_cons. constructor; [|by apply IH].
  intros (e' & Heq & [_ Hin]%list_elem_of_filter)%list_elem_of_fmap. apply Hk, list_elem_of_fmap. by exists e'.
Qed.

Lemma erase_keys k (l : list (Z * FileSearchKey)) : NoDup l.*1 → NoDup (erase k l).*1.
Proof. apply filter_keys. Qed.

Lemma elem_of_erase k k' key (l : list (Z * FileSearchKey)) : (k', key) ∈ erase k l ↔ k' ≠ k ∧ (k', key) ∈ l.
Proof. unfold erase. rewrite list_elem_of_filter. done. Qed.

Lemma elem_of_file_ids ps k : k ∈ file_ids ps ↔ ∃ i j c, page_at ps i j = Some (k, c).
Proof.
  unfold file_ids, page_at. rewrite list_elem_of_fmap. split.
  - intros ([k' c] & -> & (i & l & Hi & Hin)%elem_of_concat).
    apply list_elem_of_lookup in Hin as [j Hj]. exists i, j, c. by rewrite Hi.
  - intros (i & j & c & Hp). destruct (ps !! i) as [l|] eqn:Hi; [|done]. cbn in Hp.
    exists (k, c). split; [done|]. apply elem_of_concat. exists i, l. split; [done|by eapply list_elem_of_lookup_2].
Qed.

(** A page that is added. *)
Lemma file_page_add ps i l x : ps !! i = Some l →
  ∀ i' j, page_at (<[i := l ++ [x]]> ps) i' j =
    if decide (i' = i ∧ j = length l) then Some x else page_at ps i' j.
Proof.
  intros Hi i' j. unfold page_at. destruct (decide (i' = i)) as [->|Hne].
  - rewrite list_lookup_insert_eq by (by eapply lookup_lt_Some). rewrite Hi. cbn.
    destruct (decide (j = length l)) as [->|Hj]; [rewrite decide_True by done; by apply list_lookup_middle|].
    rewrite decide_False by tauto. destruct (decide (j < length l)); [by rewrite lookup_app_l|].
    rewrite lookup_app_r, (lookup_ge_None_2 l) by lia. apply lookup_ge_None_2. cbn. lia.
  - rewrite list_lookup_insert_ne by done. by rewrite decide_False by tauto.
Qed.

Lemma file_ids_add ps i l x : ps !! i = Some l → file_ids (<[i := l ++ [x]]> ps) ≡ₚ x.1 :: file_ids ps.
Proof.
  intros Hi. unfold file_ids. rewrite <-fmap_cons. apply fmap_Permutation.
  rewrite insert_take_drop by (by eapply lookup_lt_Some).
  assert (concat ps = concat (take i ps) ++ l ++ concat (drop (S i) ps)) as ->.
  { rewrite <-(take_drop_middle ps i l Hi) at 1. by rewrite concat_app. }
  rewrite concat_app. cbn. solve_Permutation.
Qed.

(** *** Operations keep the invariant *)

Lemma dirty_unique data s k key key' : set_ok data s → (k, key) ∈ dirty s → (k, key') ∈ dirty s → key = key'.
Proof.
  intros H H1%(search_Some _ _ _ (us_keys _ _ H)) H2%(search_Some _ _ _ (us_keys _ _ H)). congruence.
Qed.

Lemma new_set_ok (ps : list (list (Z * P))) latest data :
  NoDup (file_ids ps) → (∀ k c, data !! k = Some c ↔ (k, c) ∈ concat ps) → set_ok data (UserSet_new ps latest).
Proof.
  intros Hnd Hdata.
  assert (∀ sq last n, set_ok data (MkUserSet [] ∅ ps false sq last n ∅)) as H.
  { intros sq last n. split; cbn; try done; try (by intros ? ? ?%not_elem_of_nil).
    - constructor.
    - intros i j k c Hp. apply Hdata, elem_of_concat. unfold page_at in Hp. destruct (ps !! i) as [l|] eqn:E; [|done].
      exists i, l. split; [done|]. by eapply list_elem_of_lookup_2.
    - intros k [c Hc]. right. apply Hdata in Hc. unfold file_ids. apply list_elem_of_fmap. by exists (k, c). }
  unfold UserSet_new. case_decide; apply H.
Qed.

Lemma clean_ok data s : set_ok data s → set_ok data (cleanDirtyPageSet s).
Proof.
  intros H. assert (∀ k key, (k, key) ∈ dirty (cleanDirtyPageSet s) ↔ (k, key) ∈ dirty s ∧ inCache key = true) as Hd.
  { intros k key. cbn. rewrite list_elem_of_filter. naive_solver. }
  destruct H as [H1 H2 H3 H4 H5 H6 H7 H8 H9]. split; cbn [cachedPages partitions inFlush cleanDirtyPageSet set_dirty]; try done.
  - by apply filter_keys.
  - intros k key [Hin Hc]%Hd _. by eapply H5.
  - intros k key [Hin Hc]%Hd ?. congruence.
  - intros i k n Hf. destruct (H7 i k n Hf) as [(key & ? & ?) ?]. split; [|done]. exists key. by rewrite Hd.
  - intros k [(key & ? & ?)|?]%H9; [left|by right]. exists key. by rewrite Hd.
Qed.

Lemma append_ok data s i k s' :
  set_ok data s → flush_append i k s = Some s' →
  set_ok data s' ∧ ∃ l c, partitions s !! i = Some l ∧ partitions s' = <[i := l ++ [(k, c)]]> (partitions s) ∧
    dirty s' = dirty s ∧ isPinned s' = isPinned s.
Proof.
  intros H Hs. unfold flush_append in Hs.
  destruct (search (dirty s) k) as [key|] eqn:Hk; [|done]. cbn in Hs. apply (search_Some _ _ _ (us_keys _ _ H)) in Hk.
  destruct (cachedPages s !! k) as [c|] eqn:Hc; [|done]. cbn in Hs.
  destruct (partitions s !! i) as [l|] eqn:Hl; [|done]. cbn in Hs.
  destruct (decide _) as [(Hin & Hi & Hfree)|]; [|done]. injection Hs as <-. split; [|by exists l, c].
  assert (k ∉ file_ids (partitions s)) as Hnew.
  { destruct (us_in _ _ H k key Hk Hin) as [_ [?|(j & n & Hj)]]; [done|]. exfalso. by apply (Hfree j (k, n) Hj). }
  pose proof (file_page_add _ _ _ (k, c) Hl) as Hadd. pose proof (file_ids_add _ _ _ (k, c) Hl) as Hids. cbn [fst] in Hids.
  split; cbn [dirtyPagesInPageCache cachedPages partitions inFlush set_inFlush set_partitions].
  - apply H.
  - apply H.
  - intros i' j k' c'. rewrite Hadd. case_decide; [intros [= <- <-]; by apply (us_cached _ _ H)|apply H].
  - rewrite Hids. constructor; [done|apply H].
  - intros k' key' Hk' Hin'. destruct (us_in _ _ H k' key' Hk' Hin') as [? Hor]. split; [done|].
    destruct (decide (k' = k)) as [->|Hne]; [right; exists i, (length l); by rewrite lookup_insert_eq|].
    destruct Hor as [Hn|(j & n & Hj)]; [left; rewrite Hids; set_solver|right; exists j, n].
    rewrite lookup_insert_ne; [done|]. intros <-. congruence.
  - intros k' key' Hk' Hout. destruct (us_out _ _ H k' key' Hk' Hout) as (i' & j & c' & ? & ? & Hp).
    exists i', j, c'. split; [done|]. split; [done|]. rewrite Hadd. case_decide as Hd; [|done].
    destruct Hd as [-> ->]. unfold page_at in Hp. rewrite Hl in Hp. cbn in Hp. by rewrite lookup_ge_None_2 in Hp.
  - intros i' k' n [[<- [= <- <-]]|[Hne Hf]]%lookup_insert_Some.
    + split; [by exists key|]. exists c. rewrite Hadd. by rewrite decide_True.
    + destruct (us_flight _ _ H i' k' n Hf) as [? [c' Hp]]. split; [done|]. exists c'. rewrite Hadd.
      rewrite decide_False; [done|]. intros [-> _]. congruence.
  - intros i1 i2 k' n m [[<- E1]|[Hne Hf]]%lookup_insert_Some [[<- E2]|[Hne' Hf']]%lookup_insert_Some; simplify_eq.
    + done.
    + exfalso. by apply (Hfree _ _ Hf').
    + exfalso. by apply (Hfree _ _ Hf).
    + by eapply us_flight_once.
  - intros k' [?|?]%(us_all _ _ H); [by left|right]. rewrite Hids. set_solver.
Qed.

Lemma mark_dirty k i n s k' key' :
  isPinned s = true → (k', key') ∈ dirty (removePageFromDirtyPageSet k i n s) ↔
  (k' = k ∧ key' = MkSearchKey false i n ∧ k ∈ (dirty s).*1) ∨ (k' ≠ k ∧ (k', key') ∈ dirty s).
Proof.
  intros Hp. unfold removePageFromDirtyPageSet. rewrite Hp. cbn. rewrite list_elem_of_fmap. split.
  - intros ([k1 key1] & Heq & Hin). cbn in Heq. case_decide as Hd; simplify_eq/=.
    + left. split; [done|]. split; [done|]. apply list_elem_of_fmap. by exists (k, key1).
    + by right.
  - intros [(-> & -> & ([k1 key1] & -> & Hin)%list_elem_of_fmap)|[Hne Hin]].
    + exists (k1, key1). cbn. by rewrite decide_True.
    + exists (k', key'). cbn. by rewrite decide_False.
Qed.

Lemma mark_keys k i n s : isPinned s = true → (dirty (removePageFromDirtyPageSet k i n s)).*1 = (dirty s).*1.
Proof.
  intros Hp. unfold removePageFromDirtyPageSet. rewrite Hp. cbn. rewrite <-list_fmap_compose. apply list_fmap_ext.
  intros j [k' key'] _. cbn. by case_decide.
Qed.

(** A set in which the page in flight for partition [i] has been marked or
    taken out of the map. *)
Lemma flushed_ok data s i k n s' :
  set_ok data s → inFlush s !! i = Some (k, n) →
  partitions s' = partitions s → inFlush s' = delete i (inFlush s) → NoDup (dirty s').*1 →
  (∀ k' key, (k', key) ∈ dirty s' →
     (k' = k ∧ key = MkSearchKey false (Z.of_nat i) (Z.of_nat n)) ∨ (k' ≠ k ∧ (k', key) ∈ dirty s)) →
  (∀ k' key, k' ≠ k → (k', key) ∈ dirty s → (k', key) ∈ dirty s') →
  (∀ k' c, cachedPages s' !! k' = Some c → cachedPages s !! k' = Some c) →
  (∀ k', k' ≠ k → is_Some (cachedPages s !! k') → is_Some (cachedPages s' !! k')) →
  set_ok data s'.
Proof.
  intros H Hf E1 E3 Hnd Hd Hd' Hc1 Hc2. destruct (us_flight _ _ H i k n Hf) as [(key & Hk & Hin) [c Hpage]]. split.
  - done.
  - intros k' c' Hc'. apply (us_cached _ _ H). auto.
  - rewrite E1. apply H.
  - rewrite E1. apply H.
  - rewrite E1, E3. intros k' key' [[-> ->]|[Hne Hin']]%Hd Hc'; [done|].
    destruct (us_in _ _ H k' key' Hin' Hc') as [? Hor]. split; [auto|]. destruct Hor as [?|(j & m & Hj)]; [by left|right].
    exists j, m. rewrite lookup_delete_ne; [done|]. intros <-. congruence.
  - rewrite E1. intros k' key' [[-> ->]|[Hne Hin']]%Hd Hc'; [by exists i, n, c|by eapply us_out].
  - rewrite E1, E3. intros j k' m [Hne Hj]%lookup_delete_Some. destruct (us_flight _ _ H j k' m Hj) as [(key' & ? & ?) ?].
    split; [|done]. exists key'. split; [|done]. apply Hd'; [|done]. intros ->. apply Hne. by eapply us_flight_once.
  - rewrite E3. intros j1 j2 k' m1 m2 [_ ?]%lookup_delete_Some [_ ?]%lookup_delete_Some. by eapply us_flight_once.
  - rewrite E1. intros k' [(key' & Hk' & ?)|?]%(us_all _ _ H); [|by right]. destruct (decide (k' = k)) as [->|].
    + right. apply elem_of_file_ids. by exists i, n, c.
    + left. exists key'. auto.
Qed.

(** Of a pinned set all ids stay in the map; of one that is not pinned the
    entry is gone. *)
Lemma mark_ok data s i e s' :
  set_ok data s → flush_mark i e s = Some s' →
  set_ok data s' ∧ partitions s' = partitions s ∧ isPinned s' = isPinned s ∧
  (isPinned s = true → (dirty s').*1 = (dirty s).*1).
Proof.
  intros H Hs. unfold flush_mark in Hs. destruct (inFlush s !! i) as [[k n]|] eqn:Hf; [|done]. cbn in Hs.
  destruct (us_flight _ _ H i k n Hf) as [(key & Hk & Hin) [c Hpage]].
  assert (dirty s' = dirty (removePageFromDirtyPageSet k (Z.of_nat i) (Z.of_nat n) s) ∧ partitions s' = partitions s ∧
    inFlush s' = delete i (inFlush s) ∧ isPinned s' = isPinned s ∧
    cachedPages s' = (if e then delete k (cachedPages s) else cachedPages s)) as (E0 & E1 & E2 & E3 & E4).
  { unfold removePageFromDirtyPageSet in *. injection Hs as <-. by destruct (isPinned s) eqn:?, e. }
  split; [|split; [done|split; [done|intros; rewrite E0; by apply mark_keys]]].
  eapply (flushed_ok data s i k n s'); try done.
  - rewrite E0. destruct (isPinned s) eqn:Hp; [rewrite mark_keys by done; apply H|].
    unfold removePageFromDirtyPageSet. rewrite Hp. apply erase_keys, H.
  - rewrite E0. intros k' key'. destruct (isPinned s) eqn:Hp; [rewrite mark_dirty by done; tauto|].
    unfold removePageFromDirtyPageSet. rewrite Hp. cbn. rewrite elem_of_erase. tauto.
  - rewrite E0. intros k' key'. destruct (isPinned s) eqn:Hp; [rewrite mark_dirty by done; tauto|].
    unfold removePageFromDirtyPageSet. rewrite Hp. cbn. rewrite elem_of_erase. tauto.
  - rewrite E4. intros k' c'. destruct e; [|done]. by intros [_ ?]%lookup_delete_Some.
  - rewrite E4. intros k' Hne ?. destruct e; [by rewrite lookup_delete_ne|done].
Qed.

(** A page with a new id is added and written. *)
Lemma add_ok data s w c :
  set_ok data s → data !! seqId s = None → set_ok (<[seqId s := c]> data) (addPage w c s).
Proof.
  intros H Hnew. set (k := seqId s) in *.
  assert (∀ k' c', data !! k' = Some c' → <[k := c]> data !! k' = Some c') as Hkeep.
  { intros k' c' Hc'. rewrite lookup_insert_ne; [done|]. intros <-. congruence. }
  assert (∀ i j k' c', page_at (partitions s) i j = Some (k', c') → k' ≠ k) as Hfile.
  { intros i j k' c' Hp ->. pose proof (us_file _ _ H i j k c' Hp). congruence. }
  assert (k ∉ (dirty s).*1) as Hdirty.
  { intros ([k' key] & Hk & Hin)%list_elem_of_fmap. cbn in Hk. subst k'. destruct (inCache key) eqn:Hic.
    - destruct (us_in _ _ H k key Hin Hic) as [[c' Hc'] _]. pose proof (us_cached _ _ H k c' Hc'). congruence.
    - destruct (us_out _ _ H k key Hin Hic) as (i & j & c' & _ & _ & Hp). by apply (Hfile i j k c' Hp). }
  assert (∃ l, l ≡ₚ (k, MkSearchKey true UINT32_MAX UINT32_MAX) :: dirty s ∧
    dirty (addPage w c s) = l ∧ cachedPages (addPage w c s) = <[k := c]> (cachedPages s) ∧
    partitions (addPage w c s) = partitions s ∧ inFlush (addPage w c s) = inFlush s) as (l & Hl & E0 & E1 & E2 & E3).
  { unfold addPage, addPageToDirtyPageSet. cbn. fold k. rewrite (proj2 (search_None (dirty s) k) Hdirty).
    exists (take w (dirty s) ++ (k, MkSearchKey true UINT32_MAX UINT32_MAX) :: drop w (dirty s)).
    split; [|done]. rewrite <-Permutation_middle. by rewrite take_drop. }
  assert (∀ k' key, (k', key) ∈ l ↔ (k' = k ∧ key = MkSearchKey true UINT32_MAX UINT32_MAX) ∨ (k', key) ∈ dirty s) as Hin.
  { intros k' key. rewrite Hl, elem_of_cons. naive_solver. }
  assert (k ∉ file_ids (partitions s)) as Hids.
  { intros (i & j & c' & Hp)%elem_of_file_ids. by apply (Hfile i j k c' Hp). }
  split; rewrite ?E0, ?E1, ?E2, ?E3.
  - rewrite Hl. cbn. constructor; [done|apply H].
  - intros k' c' [[<- <-]|[Hne ?]]%lookup_insert_Some; [by rewrite lookup_insert_eq|]. by apply Hkeep, (us_cached _ _ H).
  - intros i j k' c' Hp. by eapply Hkeep, us_file.
  - apply H.
  - intros k' key [[-> ->]|Hk]%Hin Hic; [split; [by rewrite lookup_insert_eq|by left]|].
    destruct (us_in _ _ H k' key Hk Hic) as [? ?]. split; [|done].
    rewrite lookup_insert_ne; [done|]. intros <-. apply Hdirty, list_elem_of_fmap. by exists (k, key).
  - intros k' key [[-> ->]|Hk]%Hin Hic; [done|by eapply us_out].
  - intros i k' n Hf. destruct (us_flight _ _ H i k' n Hf) as [(key & ? & ?) ?]. split; [|done]. exists key. rewrite Hin. auto.
  - apply H.
  - intros k' Hs. destruct (decide (k' = k)) as [->|Hne]; [left; exists (MkSearchKey true UINT32_MAX UINT32_MAX); rewrite Hin; auto|].
    rewrite lookup_insert_ne in Hs by done. apply (us_all _ _ H) in Hs as [(key & ? & ?)|?]; [left|by right]. exists key. rewrite Hin. auto.
Qed.

Lemma pin_ok data s b : set_ok data s → set_ok data (setPinned b s).
Proof. intros [H1 H2 H3 H4 H5 H6 H7 H8 H9]. by split. Qed.

Lemma cached_change_ok data s cs :
  set_ok data s → (∀ k c, cs !! k = Some c → data !! k = Some c) →
  (∀ k key, (k, key) ∈ dirty s → inCache key = true → is_Some (cachedPages s !! k) → is_Some (cs !! k)) →
  set_ok data (set_cached cs s).
Proof.
  intros [H1 H2 H3 H4 H5 H6 H7 H8 H9] Hcs Hin. split; try done. intros k key Hk Hc. destruct (H5 k key Hk Hc). eauto.
Qed.

Lemma evict_ok data s k s' :
  set_ok data s → evict_clean k s = Some s' →
  set_ok data s' ∧ partitions s' = partitions s ∧ dirty s' = dirty s ∧ isPinned s' = isPinned s.
Proof.
  intros H Hs. unfold evict_clean in Hs.
  assert (∀ key, (k, key) ∈ dirty s → inCache key = false) as Hclean.
  { intros key Hk%(search_Some _ _ _ (us_keys _ _ H)). rewrite Hk in Hs. by destruct key as [[] ? ?]. }
  assert (s' = set_cached (delete k (cachedPages s)) s) as ->.
  { destruct (search _ _) as [[[] ? ?]|]; congruence. }
  split; [|done]. apply cached_change_ok; [done| |].
  - intros k' c [_ ?]%lookup_delete_Some. by apply (us_cached _ _ H).
  - intros k' key Hk Hin ?. rewrite lookup_delete_ne; [done|]. intros <-. rewrite (Hclean key Hk) in Hin. done.
Qed.

(** Getting a page that is in the file at the place asked for. *)
Lemma getPage_ok data s i j k c :
  set_ok data s → page_at (partitions s) i j = Some (k, c) →
  ∃ s', getPage (Z.of_nat i) (Z.of_nat j) k s = (Some (k, c), s') ∧ set_ok data s' ∧
    partitions s' = partitions s ∧ dirty s' = dirty s ∧ isPinned s' = isPinned s ∧ inFlush s' = inFlush s.
Proof.
  intros H Hp. pose proof (us_file _ _ H i j k c Hp) as Hdata. unfold getPage.
  destruct (cachedPages s !! k) as [c'|] eqn:Hc.
  - rewrite (us_cached _ _ H k c' Hc) in Hdata. injection Hdata as ->. by exists s.
  - rewrite !Nat2Z.id, Hp. eexists. split; [done|]. split; [|done]. apply cached_change_ok; [done| |].
    + intros k' c'' [[<- <-]|[_ ?]]%lookup_insert_Some; [done|by apply (us_cached _ _ H)].
    + intros k' key _ _ ?. destruct (decide (k = k')) as [<-|]; [by rewrite lookup_insert_eq|by rewrite lookup_insert_ne].
Qed.

(** An entry of a page in the file is taken out of the map. *)
Lemma erase_entry_ok data s k key :
  set_ok data s → (k, key) ∈ dirty s → inCache key = false → set_ok data (set_dirty (erase k (dirty s)) s).
Proof.
  intros H Hk Hout. pose proof (elem_of_erase k) as He.
  assert (∀ key', (k, key') ∈ dirty s → inCache key' = false) as Hu.
  { intros key' Hk'. by rewrite (dirty_unique data s k key' key). }
  destruct H as [H1 H2 H3 H4 H5 H6 H7 H8 H9]. split; cbn [dirtyPagesInPageCache cachedPages partitions inFlush set_dirty]; try done.
  - by apply erase_keys.
  - intros k' key' [_ Hin]%He. by apply H5.
  - intros k' key' [_ Hin]%He. by apply H6.
  - intros i k' n Hf. destruct (H7 i k' n Hf) as [(key' & Hin & Hc) ?]. split; [|done]. exists key'. split; [|done].
    apply He. split; [|done]. intros ->. by rewrite (Hu key' Hin) in Hc.
  - intros k' [(key' & Hin & Hc)|?]%H9; [left|by right]. exists key'. split; [|done]. apply He. split; [|done].
    intros ->. by rewrite (Hu key' Hin) in Hc.
Qed.

(** ** Scans *)

(** The ids of the pages an iterator has still to come to. *)
Definition pending ps (it : page_iterator) : list Z :=
  match it with
  | SetCachePageIterator rest => rest
  | PartitionPageIterator p i n => (drop i (take n (default [] (ps !! p)))).*1
  end.

Definition iterator_ok s (it : page_iterator) : Prop :=
  match it with
  | SetCachePageIterator rest => ∀ k, k ∈ rest → k ∈ (dirty s).*1
  | PartitionPageIterator p i n => ∃ l, partitions s !! p = Some l ∧ n ≤ length l
  end.

Record scan_ok data (sc : scan P) : Prop := {
  sk_set : set_ok data (sc_set sc);
  sk_pinned : isPinned (sc_set sc) = true;
  sk_iterators : Forall (iterator_ok (sc_set sc)) (sc_iterators sc);
  sk_pages k c : (k, c) ∈ sc_pages sc → data !! k = Some c;
  sk_once : (sc_pages sc).*1 ++ (sc_iterators sc ≫= pending (partitions (sc_set sc))) ≡ₚ (map_to_list data).*1
}.

(** Turns of the scan that are left. *)
Definition scan_left (sc : scan P) : nat := length (sc_iterators sc ≫= pending (partitions (sc_set sc))).

Lemma pending_add ps i l x it :
  ps !! i = Some l → (∀ p a n, it = PartitionPageIterator p a n → ∃ l', ps !! p = Some l' ∧ n ≤ length l') →
  pending (<[i := l ++ [x]]> ps) it = pending ps it.
Proof.
  intros Hi Hit. destruct it as [rest|p a n]; [done|]. cbn. destruct (Hit p a n eq_refl) as (l' & Hp & Hn).
  destruct (decide (i = p)) as [<-|Hne].
  - rewrite list_lookup_insert_eq by (by eapply lookup_lt_Some). rewrite Hi in *. injection Hp as <-. cbn.
    by rewrite take_app_le.
  - by rewrite list_lookup_insert_ne.
Qed.

Lemma pendings_same ps ps' (its : list page_iterator) :
  (∀ it, it ∈ its → pending ps' it = pending ps it) → its ≫= pending ps' = its ≫= pending ps.
Proof.
  induction its as [|it its IH]; [done|]. intros H. rewrite !bind_cons, (H it), IH; [done| |]; set_solver.
Qed.

(** A step of the flush threads or of eviction. *)
Lemma other_ok data sc s' :
  scan_ok data sc → set_ok data s' → isPinned s' = isPinned (sc_set sc) → (dirty s').*1 = (dirty (sc_set sc)).*1 →
  (∀ it, iterator_ok (sc_set sc) it → iterator_ok s' it ∧ pending (partitions s') it = pending (partitions (sc_set sc)) it) →
  let sc' := Scan s' (sc_iterators sc) (sc_pages sc) in scan_ok data sc' ∧ scan_left sc' = scan_left sc.
Proof.
  intros H Hs Hp Hd Hit sc'. pose proof (sk_iterators _ _ H) as Hall. rewrite Forall_forall in Hall.
  assert (sc_iterators sc ≫= pending (partitions s') = sc_iterators sc ≫= pending (partitions (sc_set sc))) as Hpend
    by (apply pendings_same; intros it Hin; by apply Hit, Hall).
  split; [|unfold scan_left; cbn; by rewrite Hpend]. split; cbn; try apply H; try done.
  - rewrite Hp. apply H.
  - apply Forall_forall. intros it Hin. by apply Hit, Hall.
  - rewrite Hpend. apply H.
Qed.

Lemma not_next_pending s it : iterator_ok s it → hasNext it = false → pending (partitions s) it = [].
Proof.
  destruct it as [rest|p i n]; cbn; intros Hit Hn; [by destruct rest|]. apply Nat.ltb_ge in Hn.
  rewrite drop_ge; [done|]. rewrite length_take. lia.
Qed.

(** The next page of an iterator; [others] are the ids that other iterators
    come to. *)
Lemma next_ok data s it (others : list Z) :
  set_ok data s → iterator_ok s it → hasNext it = true → NoDup (pending (partitions s) it ++ others) →
  ∃ k c it' s', next it s = Ret (Some (k, c), it', s') ∧ data !! k = Some c ∧
    pending (partitions s) it = k :: pending (partitions s) it' ∧
    set_ok data s' ∧ isPinned s' = isPinned s ∧ partitions s' = partitions s ∧ iterator_ok s' it' ∧
    (∀ x, x ∈ (dirty s).*1 → x ≠ k → x ∈ (dirty s').*1).
Proof.
  intros Hset Hit Hn Hnd. destruct it as [[|k rest]|p i n]; [done| |]; cbn [pending iterator_ok next cache_next app] in *.
  - apply NoDup_cons in Hnd as [Hkr _].
    assert (k ∈ (dirty s).*1) as ([k' key] & Hkk & Hk)%list_elem_of_fmap by set_solver. cbn in Hkk. subst k'.
    rewrite (proj2 (search_Some _ _ _ (us_keys _ _ Hset)) Hk). destruct (inCache key) eqn:Hin.
    + destruct (us_in _ _ Hset k key Hk Hin) as [[c Hc] _]. exists k, c, (SetCachePageIterator rest), s.
      unfold getPage1. rewrite Hc. repeat split_and!; try done; [by apply (us_cached _ _ Hset)|cbn; set_solver].
    + destruct (us_out _ _ Hset k key Hk Hin) as (i & j & c & Ei & Ej & Hp).
      destruct (getPage_ok data s i j k c Hset Hp) as (s1 & Hget & H1 & H2 & H3 & H4 & H5). rewrite Ei, Ej, Hget.
      assert (∀ x, x ∈ (dirty s).*1 → x ≠ k → x ∈ (erase k (dirty s1)).*1) as Herase.
      { intros x ([x' kx] & -> & Hx)%list_elem_of_fmap Hne. rewrite H3. apply list_elem_of_fmap. exists (x', kx).
        split; [done|]. by apply elem_of_erase. }
      exists k, c, (SetCachePageIterator rest), (set_dirty (erase k (dirty s1)) s1). repeat split_and!; try done.
      * by apply (us_file _ _ Hset i j).
      * apply (erase_entry_ok data s1 k key); [done|by rewrite H3|done].
      * cbn. intros x Hx. apply Herase; [set_solver|]. intros ->. apply Hkr, elem_of_app. by left.
  - destruct Hit as (l & Hl & Hlen). apply Nat.ltb_lt in Hn.
    destruct (lookup_lt_is_Some_2 l i) as [[k c] Hkc]; [lia|].
    assert (page_at (partitions s) p i = Some (k, c)) as Hp by (unfold page_at; by rewrite Hl).
    destruct (getPage_ok data s p i k c Hset Hp) as (s1 & Hget & H1 & H2 & H3 & H4 & H5).
    exists k, c, (PartitionPageIterator p (S i) n), s1. repeat split_and!; try done.
    + unfold partition_next. rewrite (proj2 (Nat.leb_gt n i)) by lia. by rewrite Hp, Hget.
    + by apply (us_file _ _ Hset p i).
    + cbn. rewrite Hl. cbn. rewrite (drop_S _ (k, c) i); [done|]. by rewrite lookup_take_lt.
    + cbn. rewrite H2. by exists l.
    + by rewrite H3.
Qed.

Lemma iterator_kept s s' it k :
  partitions s' = partitions s → (∀ x, x ∈ (dirty s).*1 → x ≠ k → x ∈ (dirty s').*1) →
  (k ∉ pending (partitions s) it) → iterator_ok s it → iterator_ok s' it.
Proof.
  intros Hps Hd Hk. destruct it as [rest|p a n]; cbn in *; [|by rewrite Hps].
  intros Hit x Hx. apply Hd; [by apply Hit|]. by intros ->.
Qed.

Lemma pending_NoDup data sc j it :
  scan_ok data sc → sc_iterators sc !! j = Some it →
  NoDup (pending (partitions (sc_set sc)) it ++ (delete j (sc_iterators sc) ≫= pending (partitions (sc_set sc)))).
Proof.
  intros H Hj. pose proof (NoDup_fst_map_to_list data) as Hnd. rewrite <-(sk_once _ _ H) in Hnd.
  apply NoDup_app in Hnd as (_ & _ & Hnd). rewrite (delete_Permutation _ j it Hj) in Hnd. by rewrite bind_cons in Hnd.
Qed.

Lemma elem_of_delete_other (its : list page_iterator) j a it : its !! a = Some it → a ≠ j → it ∈ delete j its.
Proof.
  intros Ha Hne. destruct (decide (a < j)).
  - apply (list_elem_of_lookup_2 _ a). by rewrite list_lookup_delete_lt.
  - apply (list_elem_of_lookup_2 _ (a - 1)). rewrite list_lookup_delete_ge by lia. by replace (S (a - 1)) with a by lia.
Qed.

Lemma scan_next_ok data sc j r :
  scan_ok data sc → scan_next j sc = Some r → ∃ sc', r = Ret sc' ∧ scan_ok data sc' ∧ S (scan_left sc') = scan_left sc.
Proof.
  intros H Hs. unfold scan_next in Hs. destruct (sc_iterators sc !! j) as [it|] eqn:Hj; [|done]. cbn in Hs.
  pose proof (sk_iterators _ _ H) as Hall. pose proof (Forall_lookup_1 _ _ _ _ Hall Hj) as Hit.
  destruct (hasNext it) eqn:Hn; [|done]. destruct (decide _) as [_|]; [|done].
  pose proof (pending_NoDup data sc j it H Hj) as Hnd.
  destruct (next_ok data _ it _ (sk_set _ _ H) Hit Hn Hnd) as (k & c & it' & s' & Hnext & Hdata & Hpend & Hok & Hpin & Hps & Hit' & Hd).
  rewrite Hnext in Hs. injection Hs as <-. eexists. split; [done|].
  pose proof (bind_insert_perm (pending (partitions (sc_set sc))) (sc_iterators sc) j it it' Hj) as Hb.
  rewrite Hpend in Hb. cbn in Hb.
  assert (sc_iterators sc ≫= pending (partitions (sc_set sc)) ≡ₚ k :: (<[j:=it']> (sc_iterators sc) ≫= pending (partitions (sc_set sc)))) as Hb'.
  { apply (Permutation_app_inv_l (pending (partitions (sc_set sc)) it')). rewrite <-Hb. by rewrite Permutation_middle. }
  split; [|unfold scan_left; cbn; by rewrite Hps, (Permutation_length Hb')]. split; cbn; try done.
  - rewrite Hpin. apply H.
  - apply Forall_lookup. intros a ita Ha. destruct (decide (a = j)) as [->|Hne].
    + rewrite list_lookup_insert_eq in Ha by (by eapply lookup_lt_Some). by simplify_eq.
    + rewrite list_lookup_insert_ne in Ha by done. apply (iterator_kept (sc_set sc) s' ita k); try done; [|by eapply Forall_lookup_1].
      intros Hk. rewrite Hpend in Hnd. apply NoDup_cons in Hnd as [Hk' _]. apply Hk', elem_of_app. right.
      apply list_elem_of_bind. exists ita. split; [done|]. by eapply elem_of_delete_other.
  - intros k' c' [?|[= <- <-]%list_elem_of_singleton]%elem_of_app; [by apply (sk_pages _ _ H)|done].
  - rewrite Hps, fmap_app, <-(sk_once _ _ H), Hb'. cbn. by rewrite <-(assoc_L app).
Qed.

Definition next_turns (ts : list scan_turn) : nat := countb (λ t, match t with NextTurn _ => true | _ => false end) ts.

Lemma scan_step_ok data sc t r :
  scan_ok data sc → scan_step t sc = Some r →
  ∃ sc', r = Ret sc' ∧ scan_ok data sc' ∧ scan_left sc' + next_turns [t] = scan_left sc.
Proof.
  intros H. pose proof (sk_set _ _ H) as Hset. pose proof (sk_pinned _ _ H) as Hpin. destruct t as [j|i k|i e|k]; cbn [scan_step].
  - intros Hs. destruct (scan_next_ok data sc j r H Hs) as (sc' & -> & ? & ?). exists sc'. split; [done|]. split; [done|]. change (next_turns [_]) with 1. lia.
  - unfold with_set. destruct (flush_append i k (sc_set sc)) as [s'|] eqn:E; [|done]. intros [= <-]. eexists. split; [done|].
    destruct (append_ok data _ i k s' Hset E) as (Hok & l & c & Hl & Hps & Hd & Hp).
    destruct (other_ok data sc s' H Hok Hp) as [? ?]; [by rewrite Hd| |split; [done|]; change (next_turns [_]) with 0; by rewrite Nat.add_0_r].
    intros it Hit. split.
    + destruct it as [rest|p a n]; cbn in *; [by rewrite Hd|]. destruct Hit as (l' & Hl' & Hn). rewrite Hps.
      destruct (decide (i = p)) as [<-|]; [|exists l'; by rewrite list_lookup_insert_ne].
      exists (l ++ [(k, c)]). rewrite list_lookup_insert_eq by (by eapply lookup_lt_Some). split; [done|].
      rewrite length_app. assert (l' = l) as -> by congruence. lia.
    + rewrite Hps. apply pending_add; [done|]. intros p a n ->. cbn in Hit. done.
  - unfold with_set. destruct (flush_mark i e (sc_set sc)) as [s'|] eqn:E; [|done]. intros [= <-]. eexists. split; [done|].
    destruct (mark_ok data _ i e s' Hset E) as (Hok & Hps & Hp & Hd%(λ H, H Hpin)).
    destruct (other_ok data sc s' H Hok) as [? ?]; [congruence|done| |split; [done|]; change (next_turns [_]) with 0; by rewrite Nat.add_0_r].
    intros [rest|p a n]; cbn; rewrite ?Hps, ?Hd; done.
  - unfold with_set. destruct (evict_clean k (sc_set sc)) as [s'|] eqn:E; [|done]. intros [= <-]. eexists. split; [done|].
    destruct (evict_ok data _ k s' Hset E) as (Hok & Hps & Hd & Hp).
    destruct (other_ok data sc s' H Hok Hp) as [? ?]; [by rewrite Hd| |split; [done|]; change (next_turns [_]) with 0; by rewrite Nat.add_0_r].
    intros [rest|p a n]; cbn; rewrite ?Hps, ?Hd; done.
Qed.

Lemma run_scan_ok data ts sc r :
  scan_ok data sc → run_scan ts sc = Some r →
  ∃ sc', r = Ret sc' ∧ scan_ok data sc' ∧ scan_left sc' + next_turns ts = scan_left sc.
Proof.
  revert sc. induction ts as [|t ts IH]; intros sc H; cbn [run_scan].
  - intros [= <-]. exists sc. split; [done|]. split; [done|]. cbn. lia.
  - destruct (scan_step t sc) as [o|] eqn:E; [|done].
    destruct (scan_step_ok data sc t o H E) as (sc1 & -> & H1 & H2). intros Hr.
    destruct (IH sc1 H1 Hr) as (sc' & -> & H3 & H4). exists sc'. split; [done|]. split; [done|].
    unfold next_turns in *. rewrite countb_cons in *. cbn [countb] in *. change (countb _ []) with 0 in H2. lia.
Qed.

(** ** The start of a scan *)

Lemma partition_iterators_pending ps :
  partition_iterators ps ≫= pending ps = file_ids ps ∧
  ∀ it, it ∈ partition_iterators ps → ∃ p n l, it = PartitionPageIterator p 0 n ∧ ps !! p = Some l ∧ n ≤ length l.
Proof.
  unfold partition_iterators, file_ids.
  set (f := λ x : nat * list (Z * P), let '(i, l) := x in if decide (l = []) then None else Some (PartitionPageIterator i 0 (length l))).
  assert (∀ pre ls, ps = pre ++ ls → omap f (zip (seq (length pre) (length ls)) ls) ≫= pending ps = (concat ls).*1 ∧
    ∀ it, it ∈ omap f (zip (seq (length pre) (length ls)) ls) → ∃ p n l, it = PartitionPageIterator p 0 n ∧ ps !! p = Some l ∧ n ≤ length l) as Hgen;
    [|by apply (Hgen [] ps)].
  intros pre ls. revert pre. induction ls as [|l ls IH]; intros pre Hps; [split; [done|by intros it ?%not_elem_of_nil]|].
  destruct (IH (pre ++ [l])) as [H1 H2]; [by rewrite Hps, <-(assoc_L app)|].
  rewrite length_app, Nat.add_1_r in H1, H2.
  assert (ps !! length pre = Some l) as Hl by (rewrite Hps; by apply list_lookup_middle).
  assert (omap f (zip (seq (length pre) (length (l :: ls))) (l :: ls)) =
    (if decide (l = []) then [] else [PartitionPageIterator (length pre) 0 (length l)]) ++ omap f (zip (seq (S (length pre)) (length ls)) ls)) as ->.
  { cbn [length seq zip_with]. unfold omap at 1. cbn [list_omap]. unfold f at 1. by case_decide. }
  split.
  - rewrite bind_app, H1. cbn [concat]. rewrite fmap_app. f_equal. case_decide as Hn; [by rewrite Hn|].
    cbn. rewrite Hl. cbn. by rewrite app_nil_r, drop_0, firstn_all.
  - intros it [Hin|Hin]%elem_of_app; [|by apply H2]. case_decide; [by apply not_elem_of_nil in Hin|].
    apply list_elem_of_singleton in Hin as ->. by exists (length pre), (length l), l.
Qed.

Lemma elem_of_dirty_keys (l : list (Z * FileSearchKey)) k : k ∈ l.*1 ↔ ∃ key, (k, key) ∈ l.
Proof.
  rewrite list_elem_of_fmap. split; [intros ([k' key] & -> & ?); by exists key|]. intros [key ?]. by exists (k, key).
Qed.

Lemma scan_start_ok data s :
  set_ok data s → isPinned s = true → inFlush s = ∅ → scan_ok data (scan_start s).
Proof.
  intros H Hp Hf. pose proof (clean_ok data s H) as Hc. unfold scan_start, getIterators. cbn [fst snd].
  destruct (partition_iterators_pending (partitions s)) as [Hpend Hits].
  set (l := dirty (cleanDirtyPageSet s)) in *.
  assert (((if decide (l = []) then [] else [SetCachePageIterator l.*1]) : list page_iterator) ≫= pending (partitions s) = l.*1) as Hcache.
  { case_decide as Hl; [by rewrite Hl|]. cbn. by rewrite app_nil_r. }
  split; cbn [sc_set sc_iterators sc_pages]; [done|done| |by intros ? ? ?%not_elem_of_nil|].
  - apply Forall_app. split.
    + case_decide; [constructor|]. constructor; [|constructor]. cbn. done.
    + apply Forall_forall. intros it Hin. destruct (Hits it Hin) as (p & n & l' & -> & Hl & Hn). cbn. by exists l'.
  - cbn [fmap list_fmap app]. change (partitions (cleanDirtyPageSet s)) with (partitions s). rewrite bind_app, Hcache, Hpend.
    assert (∀ k, k ∈ l.*1 → (k ∉ file_ids (partitions s)) ∧ is_Some (data !! k)) as Hk.
    { intros k [key Hin]%elem_of_dirty_keys.
      assert (inCache key = true) as Hic by (unfold l in Hin; cbn in Hin; by apply list_elem_of_filter in Hin as [? _]).
      destruct (us_in _ _ Hc k key Hin Hic) as [[c Hcc] Hor]. split.
      - destruct Hor as [?|(i & n & Hi)]; [done|]. cbn in Hi. by rewrite Hf, lookup_empty in Hi.
      - exists c. by apply (us_cached _ _ Hc). }
    apply NoDup_Permutation.
    + apply NoDup_app. split; [apply Hc|]. split; [|apply H]. intros k Hin. by apply Hk.
    + apply NoDup_fst_map_to_list.
    + intros k. rewrite elem_of_app. split.
      * intros [Hin|Hin].
        -- destruct (Hk k Hin) as [_ [c Hd]]. apply list_elem_of_fmap. exists (k, c). by rewrite elem_of_map_to_list.
        -- apply elem_of_file_ids in Hin as (i & j & c & Hpg). apply list_elem_of_fmap. exists (k, c).
           rewrite elem_of_map_to_list. split; [done|]. by eapply us_file.
      * intros ([k' c] & -> & Hv%elem_of_map_to_list)%list_elem_of_fmap. cbn in *. destruct (us_all _ _ Hc k' (mk_is_Some _ _ Hv)) as [(key & Hkey & _)|?]; [left|by right].
        apply elem_of_dirty_keys. by exists key.
Qed.

(** ** The end of a scan *)

Lemma done_pending data sc :
  scan_ok data sc → scan_done sc = true → sc_iterators sc ≫= pending (partitions (sc_set sc)) = [].
Proof.
  intros H Hd. pose proof (sk_iterators _ _ H) as Hall. unfold scan_done in Hd.
  induction (sc_iterators sc) as [|it its IH]; [done|]. cbn in Hd. apply andb_prop in Hd as [Hn Hd].
  apply Forall_cons in Hall as [Hit Hall]. rewrite bind_cons, (IH Hd Hall).
  by rewrite (not_next_pending _ it Hit) by (by apply negb_true_iff).
Qed.

Lemma scan_goes_on (sc : scan P) :
  scan_done sc = false → ∃ t, ((∃ j, t = NextTurn j) ∨ ∃ i, t = MarkTurn i false) ∧ is_Some (scan_step t sc).
Proof.
  intros Hdone. destruct (decide (inFlush (sc_set sc) = ∅)) as [He|Hfl].
  - assert (∃ j it, sc_iterators sc !! j = Some it ∧ hasNext it = true) as (j & it & Hj & Hn).
    { unfold scan_done in Hdone. induction (sc_iterators sc) as [|it its IH]; [done|]. cbn in Hdone.
      destruct (hasNext it) eqn:Hn; [by exists 0, it|]. destruct (IH Hdone) as (j & it' & ? & ?). by exists (S j), it'. }
    exists (NextTurn j). split; [left; by exists j|]. cbn. unfold scan_next. rewrite Hj. cbn. rewrite Hn, decide_True by done. by eexists.
  - apply map_choose in Hfl as (i & [k n] & Hi). exists (MarkTurn i false). split; [right; by exists i|].
    cbn. unfold with_set, flush_mark. rewrite Hi. cbn. by eexists.
Qed.

(** ** Properties *)

(** [C21] A scan of a pinned set that starts while no page is being flushed is
    given every page once, with its content, in whatever order the works take
    their turns, whatever dirty pages are flushed to the file and whatever pages
    are evicted meanwhile: it never fails, there are not more turns than pages,
    the pages it has been given are different pages of the set, and when all
    iterators are at their end they are all.  Until then it can go on as soon as
    the flush threads have given back their lock. *)
Theorem scan_sees_every_page data s ts r :
  set_ok data s → isPinned s = true → inFlush s = ∅ → run_scan ts (scan_start s) = Some r →
  ∃ sc, r = Ret sc ∧
    next_turns ts ≤ size data ∧
    NoDup (sc_pages sc).*1 ∧ (∀ k c, (k, c) ∈ sc_pages sc → data !! k = Some c) ∧
    (scan_done sc = true → sc_pages sc ≡ₚ map_to_list data) ∧
    (scan_done sc = false → ∃ t, ((∃ j, t = NextTurn j) ∨ ∃ i, t = MarkTurn i false) ∧ is_Some (scan_step t sc)).
Proof.
  intros H Hp Hf Hr. pose proof (scan_start_ok data s H Hp Hf) as Hs.
  destruct (run_scan_ok data ts _ r Hs Hr) as (sc & -> & Hsc & Hleft). exists sc. split; [done|].
  pose proof (sk_once _ _ Hsc) as Honce. pose proof (NoDup_fst_map_to_list data) as Hnd.
  assert (NoDup (sc_pages sc).*1) as Hndp by (rewrite <-Honce in Hnd; by apply NoDup_app in Hnd as [? _]).
  split; [|split; [done|split; [apply Hsc|split]]].
  - assert (scan_left (scan_start s) = size data); [|lia].
    pose proof (Permutation_length (sk_once _ _ Hs)) as Hl. rewrite length_fmap, length_map_to_list in Hl. exact Hl.
  - intros Hdone. rewrite (done_pending data sc Hsc Hdone), app_nil_r in Honce.
    apply NoDup_Permutation; [by eapply NoDup_fmap_1|apply NoDup_map_to_list|]. intros [k c]. rewrite elem_of_map_to_list. split; [apply Hsc|].
    intros Hd. assert (k ∈ (sc_pages sc).*1) as ([k' c'] & -> & Hin)%list_elem_of_fmap.
    { rewrite Honce. apply list_elem_of_fmap. exists (k, c). by rewrite elem_of_map_to_list. }
    cbn in Hd. pose proof (sk_pages _ _ Hsc k' c' Hin). by simplify_eq.
  - intros Hdone. by apply scan_goes_on.
Qed.
End facts.

(** ** A small set *)

(** One page in the file and two that are dirty. *)
Definition small_set : user_set nat := addPage 0 12 (addPage 0 11 (UserSet_new [[(0%Z, 10)]; []] 0)).

Definition small_data : gmap Z nat := <[2%Z := 12]> (<[1%Z := 11]> {[0%Z := 10]}).

Lemma small_set_ok : set_ok small_data small_set.
Proof.
  apply (add_ok (<[1%Z := 11]> {[0%Z := 10]}) (addPage 0 11 (UserSet_new [[(0%Z, 10)]; []] 0)) 0 12); [|by vm_compute].
  apply (add_ok {[0%Z := 10]} (UserSet_new [[(0%Z, 10)]; []] 0) 0 11); [|by vm_compute].
  apply new_set_ok; [cbn; repeat constructor; by intros ?%not_elem_of_nil|].
  intros k c. cbn. rewrite list_elem_of_singleton, lookup_singleton_Some. naive_solver.
Qed.

Definition small_turns : list scan_turn :=
  [NextTurn 0; AppendTurn 1 1; MarkTurn 1 true; NextTurn 1; NextTurn 0].

Lemma scan_sees_every_page_witness :
  ∃ sc, run_scan small_turns (scan_start (setPinned true small_set)) = Some (Ret sc) ∧
    sc_pages sc = [(2%Z, 12); (0%Z, 10); (1%Z, 11)] ∧ sc_pages sc ≡ₚ map_to_list small_data.
Proof.
  destruct (run_scan small_turns (scan_start (setPinned true small_set))) as [r|] eqn:Hr; [|by vm_compute in Hr].
  destruct (scan_sees_every_page small_data (setPinned true small_set) small_turns r)
    as (sc & -> & _ & _ & _ & Hend & _); [apply pin_ok, small_set_ok|reflexivity|reflexivity|exact Hr|].
  exists sc. split; [reflexivity|]. vm_compute in Hr. injection Hr as Hsc. subst sc. split; [reflexivity|]. apply Hend. reflexivity.
Defined.

(** ** Where scans go wrong *)

(** A flush thread appends a page to the file before it marks it, and
    [getIterators] waits for neither: a scan that starts in between is given the
    page twice. *)
Lemma scan_during_flush_duplicates :
  ∃ s sc, flush_append 1 2 (setPinned true small_set) = Some s ∧
    run_scan [MarkTurn 1 true; NextTurn 0; NextTurn 0; NextTurn 1; NextTurn 2] (scan_start s) = Some (Ret sc) ∧
    scan_done sc = true ∧ sc_pages sc = [(2%Z, 12); (1%Z, 11); (0%Z, 10); (2%Z, 12)].
Proof. do 2 eexists. split; [vm_compute; reflexivity|]. split; [vm_compute; reflexivity|done]. Qed.

(** In a set that is not pinned a flush thread takes the entry out of the map
    on which the iterator stands. *)
Lemma unpinned_scan_undefined :
  run_scan [AppendTurn 1 2; MarkTurn 1 false; NextTurn 0] (scan_start small_set) = Some Undefined.
Proof. reflexivity. Qed.
