(* ===== verification/RecordBuffer.v ===== *)
(** * RecordBuffer: objects that clients add, until they are on pages

    Models the part of [serverFunctionalities/source/PangeaStorageServer.cc] that
    takes the objects of [StorageAddData] requests: records are buffered for
    their set ([bufferRecord]), written to pages when there are enough of them
    ([writeBackRecords]), and all written at the end of a job ([cleanup]).  A
    record is the list of its objects and its size in bytes; a page is the list
    of objects it is left with.  Whether an object fits on a page, a vector into
    a block, and how large the record of what is left over becomes is decided by
    the object model: these are arguments.  Waiting for other requests, under the
    mutex of the server, is left out. *)

From S2P Require Import Prelude.
From S2P Require Import PDBVector.
From S2P Require Import PDBPage.

(** ** State *)

Section record_buffer.
Context {O : Type}.

(** A handle may be null. *)
Local Abbreviation handle := (option O).
Local Abbreviation set_name := (string * string)%type.

Record record := Rec { root : list handle; numBytes : Z }.

(** What the set keeps: the size of its pages, the pages that were released
    with whether they were flushed, and how many are still pinned. *)
Record stored_set := StoredSet { ss_pageSize : Z; ss_pages : list (list handle * bool); ss_pinned : nat }.

(** [allRecords] has the record at the back of the vector first.  [dropped] is
    not in the code: objects that are skipped because they do not fit on an empty
    page. *)
Record storage := Storage {
  allRecords : gmap set_name (list record);
  sizes : gmap set_name Z;
  sets : gmap set_name stored_set;
  totalObjects : Z;
  dropped : list handle
}.

(** [bufferRecord]. *)
Definition bufferRecord (name : set_name) (addMe : record) (s : storage) : Z * storage :=
  let '(records, size) :=
    match allRecords s !! name with
    | None => ([addMe], numBytes addMe)
    | Some records => (addMe :: records, u64 (default 0 (sizes s !! name) + numBytes addMe))%Z
    end in
  (size, Storage (<[name := records]> (allRecords s)) (<[name := size]> (sizes s)) (sets s) (totalObjects s) (dropped s)).

(** ** Writing records to pages *)

(** The body of a page ([PDBPage::getSize]). *)
Definition body_size (pageSize : Z) : Z := u64 (pageSize - Z.of_nat PAGE_HEADER).

(** Whether the vector of a page fits, and its elements by their number; the
    same for the record of what is left over, with its size. *)
Record page_space := PageSpace { ps_vector : bool; ps_push : nat → vspace }.
Record extra_space := ExtraSpace { es_vector : bool; es_push : nat → vspace; es_bytes : Z }.

(** The local variables of [writeBackRecords] and what it refers to. *)
Record writing := Writing {
  w_records : list record;
  w_set : stored_set;
  w_total : Z;
  w_dropped : list handle;
  w_numBytesToProcess : Z;
  w_pos : nat;
  w_numObjectsInRecord : nat;
  w_data : Array handle
}.

Definition w_set_set s w := Writing (w_records w) s (w_total w) (w_dropped w) (w_numBytesToProcess w) (w_pos w) (w_numObjectsInRecord w) (w_data w).
Definition w_set_data d w := Writing (w_records w) (w_set w) (w_total w) (w_dropped w) (w_numBytesToProcess w) (w_pos w) (w_numObjectsInRecord w) d.
Definition w_set_num n w := Writing (w_records w) (w_set w) (w_total w) (w_dropped w) (w_numBytesToProcess w) (w_pos w) n (w_data w).
Definition w_set_records r n p w := Writing r (w_set w) (w_total w) (w_dropped w) n p (w_numObjectsInRecord w) (w_data w).

(** The objects of a vector. *)
Definition contents (a : Array handle) : list handle := omap id (take (Z.to_nat (a_usedSlots a)) (a_data a)).

Local Abbreviation M := (M writing).

Definition in_data {A} (m : Prelude.M (Array handle) A) : M A := λ w,
  let '(r, d) := m (w_data w) in (r, w_set_data d w).

(** [getNewPage] of a set that exists. *)
Definition getNewPage : M unit := modify (λ w,
  w_set_set (StoredSet (ss_pageSize (w_set w)) (ss_pages (w_set w)) (S (ss_pinned (w_set w)))) w).

(** [decPageRefCount], and [flushPageWithoutEviction] if asked for. *)
Definition releasePage (flushOrNot : bool) : M unit := modify (λ w,
  w_set_set (StoredSet (ss_pageSize (w_set w)) (ss_pages (w_set w) ++ [(contents (w_data w), flushOrNot)]) (pred (ss_pinned (w_set w)))) w).

Definition count_object : M unit := modify (λ w,
  Writing (w_records w) (w_set w) (w_total w + 1)%Z (w_dropped w) (w_numBytesToProcess w) (S (w_pos w)) (w_numObjectsInRecord w) (w_data w)).

(** The loop over the objects of a record. *)
Fixpoint push_objects (push : nat → vspace) (todo : list handle) : M unit :=
  match todo with
  | [] => mret tt
  | o :: todo' =>
      w ← get;
      in_data (Vector_push_back None (push (Z.to_nat (Vector_size (w_data w)))) o) ;;
      count_object ;;
      push_objects push todo'
  end.

(** The loop over the records, from the back of the vector. *)
Fixpoint write_records (push : nat → vspace) (records : list record) : M unit :=
  match records with
  | [] => mret tt
  | r :: records' =>
      modify (w_set_num (length (root r))) ;;
      w ← get;
      push_objects push (drop (w_pos w) (root r)) ;;
      modify (λ w, w_set_records records' (u64 (w_numBytesToProcess w - numBytes r)) 0 w) ;;
      write_records push records'
  end.

(** In the handler: an object that does not even fit alone is skipped. *)
Definition skip_object : M unit := modify (λ w,
  if (Vector_size (w_data w) =? 0)%Z then
    Writing (w_records w) (w_set w) (w_total w)
      (w_dropped w ++ match w_records w with r :: _ => take 1 (drop (w_pos w) (root r)) | [] => [] end)
      (w_numBytesToProcess w) (S (w_pos w)) (w_numObjectsInRecord w) (w_data w)
  else w).

(** The test for another page; the quotient of [int]s is 1 or 0. *)
Definition enough_for_page (w : writing) : bool :=
  match w_records w with
  | r :: _ =>
      (body_size (ss_pageSize (w_set w)) <?
       u64 (w_numBytesToProcess w + u64 (Z.of_nat ((w_numObjectsInRecord w - w_pos w) / w_numObjectsInRecord w) * numBytes r)))%Z
  | [] => false
  end.

Fixpoint push_extra (push : nat → vspace) (i : nat) (todo : list handle) : Prelude.M (Array handle) unit :=
  match todo with
  | [] => mret tt
  | o :: todo' => Vector_push_back None (push i) o ;; push_extra push (S i) todo'
  end.

(** What is left of the record at the back goes into a record of its own. *)
Definition keep_rest (extra : extra_space) : M unit :=
  w ← get;
  match w_records w with
  | [] => lift Undefined
  | r :: records' =>
      if es_vector extra then
        match push_extra (es_push extra) 0 (drop (w_pos w) (root r)) (Vector_new (Z.of_nat (w_numObjectsInRecord w - w_pos w))) with
        | (Ret _, extraData) =>
            modify (w_set_records (Rec (contents extraData) (es_bytes extra) :: records')
              (u64 (u64 (w_numBytesToProcess w - numBytes r) + es_bytes extra)) (w_numObjectsInRecord w))
        | (NotEnoughSpace, _) => lift NotEnoughSpace
        | (Exit c, _) => lift (Exit c)
        | (Undefined, _) => lift Undefined
        end
      else lift NotEnoughSpace
  end.

(** The loop over pages, from the page [k]. *)
Fixpoint fill_pages (flushOrNot : bool) (sp : nat → page_space) (extra : extra_space) (fuel k : nat) : M unit :=
  match fuel with
  | 0 => lift Undefined
  | S fuel' =>
      (if ps_vector (sp k) then modify (w_set_data Vector_default) else lift NotEnoughSpace) ;;
      w ← get;
      more ← catch (write_records (ps_push (sp k)) (w_records w) ;; releasePage flushOrNot ;; mret false)
                   (skip_object ;; releasePage flushOrNot ;; mret true);
      if more : bool then
        w ← get;
        if enough_for_page w then getNewPage ;; fill_pages flushOrNot sp extra fuel' (S k) else keep_rest extra
      else mret tt
  end.

(** The objects that are still to be written. *)
Definition buffered (records : list record) : list handle := records ≫= root.

(** [writeBackRecords]; a page takes an object at least, or it is skipped. *)
Definition writeBackRecords (sp : nat → page_space) (extra : extra_space) (name : set_name) (flushOrNot : bool) : Prelude.M storage unit := λ s,
  let records := default [] (allRecords s !! name) in
  match sets s !! name with
  | None => (Exit 1, s)
  | Some set =>
      let w := Writing records set (totalObjects s) (dropped s) (default 0%Z (sizes s !! name)) 0 0 Vector_default in
      let '(r, w) := (getNewPage ;; fill_pages flushOrNot sp extra (S (length (buffered records))) 0) w in
      let size := match r with Ret _ => w_numBytesToProcess w | _ => default 0%Z (sizes s !! name) end in
      (r, Storage (<[name := w_records w]> (allRecords s)) (<[name := size]> (sizes s)) (<[name := w_set w]> (sets s))
            (w_total w) (w_dropped w))
  end.

(** ** Requests *)

(** The loop of [cleanup] over the records of one set; [calls] has the answers
    for each call. *)
Fixpoint write_back_all (calls : nat → (nat → page_space) * extra_space) (flushOrNot : bool) (name : set_name) (fuel i : nat) :
    Prelude.M storage unit :=
  match fuel with
  | 0 => lift Undefined
  | S fuel' =>
      s ← get;
      if decide (default [] (allRecords s !! name) = []) then mret tt
      else writeBackRecords (fst (calls i)) (snd (calls i)) name flushOrNot ;;
           write_back_all calls flushOrNot name fuel' (S i)
  end.

(** [cleanup]; [names] are the keys of [allRecords] in the order of the map. *)
Fixpoint cleanup (answers : set_name → nat → (nat → page_space) * extra_space) (flushOrNot : bool) (names : list set_name) :
    Prelude.M storage unit :=
  match names with
  | [] => mret tt
  | name :: names =>
      s ← get;
      let records := default [] (allRecords s !! name) in
      write_back_all (answers name) flushOrNot name (S (S (length (buffered records)))) 0 ;;
      cleanup answers flushOrNot names
  end.

(** [inflationFactor], cast to [size_t]. *)
Definition inflationFactor : Z := 40.

(** The handler of [StorageAddData] once it has the record, up to its last
    answer; a direct put copies the record to a page of its own. *)
Definition handle_add_data (sp : nat → page_space) (extra : extra_space) (name : set_name) (isDirectPut isFlushing : bool)
    (r : record) : Prelude.M storage bool := λ s,
  if decide (root r = []) then (Ret false, s)
  else
    match sets s !! name with
    | None => (Exit 1, s)
    | Some set =>
        if isDirectPut then
          if (numBytes r <=? ss_pageSize set)%Z then
            if (numBytes r <=? body_size (ss_pageSize set))%Z then
              (Ret true, Storage (allRecords s) (sizes s)
                 (<[name := StoredSet (ss_pageSize set) (ss_pages set ++ [(root r, isFlushing)]) (ss_pinned set)]> (sets s))
                 (totalObjects s) (dropped s))
            else (Undefined, s)
          else (Ret false, s)
        else
          let '(size, s1) := bufferRecord name r s in
          if (u64 (ss_pageSize set * inflationFactor) <=? size)%Z
          then (writeBackRecords sp extra name isFlushing ;; mret true) s1
          else (Ret true, s1)
    end.
End record_buffer.

Arguments record : clear implicits.
Arguments stored_set : clear implicits.
Arguments storage : clear implicits.
Arguments writing : clear implicits.
