(* ===== verification/RecordWriting.v ===== *)
(** * RecordWriting: no object is lost between a client and a page

    Proves that writing buffered records back and cleaning up put every object on
    exactly one page, leave it buffered, or skip it because it does not fit on an
    empty page; and shows where the code does worse. *)

From S2P Require Import Prelude.
From S2P Require Import PDBVector.
From S2P Require Import PDBPage.
From S2P Require Import RecordBuffer.

(** ** Vectors on pages *)

Section facts.
Context {O : Type}.
Local Abbreviation handle := (option O).
Implicit Types (w : writing O) (l todo : list handle) (r : record O) (records : list (record O)).

Definition page_open (a : Array handle) l : Prop :=
  holds a l ∧ (1 ≤ a_numSlots a ≤ Z.max 1 (2 * Z.of_nat (length l)))%Z.

Lemma page_open_new : page_open Vector_default [].
Proof. split; [by apply Array_new_holds|]. cbn. lia. Qed.

Lemma contents_holds (a : Array handle) l : holds a l → contents a = l.
Proof.
  intros [Hd Hu _ _ _]. unfold contents. rewrite Hu, Nat2Z.id, Hd. clear. induction l as [|x l IH]; [done|]. cbn. by f_equal.
Qed.

Lemma Vector_size_holds (a : Array handle) l : holds a l → Vector_size a = Z.of_nat (length l).
Proof. intros [_ Hu _ _ _]. done. Qed.

(** A record with as many slots as objects never has to grow. *)
Lemma push_extra_ok push todo : ∀ i a l,
  (∀ j, push j = vplenty) → holds a l → a_numSlots a = Z.of_nat (length l + length todo) →
  (Z.of_nat (length l + length todo) ≤ 1073741824)%Z →
  ∃ a', push_extra push i todo a = (Ret tt, a') ∧ holds a' (l ++ todo).
Proof.
  induction todo as [|o todo IH]; intros i a l Hp Ha Hn Hb; cbn [push_extra].
  { exists a. split; [reflexivity|]. by rewrite app_nil_r. }
  cbn [length] in *. pose proof (Vector_push_back_cases None (push i) o a l Ha ltac:(lia)) as Hpush. run.
  destruct (Vector_push_back None (push i) o a) as [[[]| | |] a1]; try done.
  - destruct Hpush as [Ha1 [Hn1|[_ Hn1]]]; [|lia].
    destruct (IH (S i) a1 (l ++ [o]) Hp Ha1) as (a' & -> & Ha'); [rewrite length_app; cbn; lia|rewrite length_app; cbn; lia|].
    exists a'. split; [done|]. by rewrite <-(assoc_L app) in Ha'.
  - destruct Hpush as [Hne _]. by destruct (Hne (Hp i)).
Qed.

(** ** Filling a page *)

Definition pushed w (j : nat) d : writing O :=
  Writing (w_records w) (w_set w) (w_total w + Z.of_nat j)%Z (w_dropped w) (w_numBytesToProcess w) (w_pos w + j)
    (w_numObjectsInRecord w) d.

Lemma push_objects_ok push todo : ∀ w l,
  page_open (w_data w) l → (Z.of_nat (length l + length todo) ≤ 1073741824)%Z →
  match push_objects push todo w with
  | (Ret _, w') => ∃ d, w' = pushed w (length todo) d ∧ page_open d (l ++ todo)
  | (NotEnoughSpace, w') => ∃ j d, j < length todo ∧ w' = pushed w j d ∧ holds d (l ++ take j todo) ∧
      (push 0 = vplenty → l ++ take j todo ≠ [])
  | _ => False
  end.
Proof.
  induction todo as [|o todo IH]; intros w l [Ha Hn] Hb; cbn [push_objects].
  { exists (w_data w). rewrite app_nil_r. split; [|done]. unfold pushed. destruct w. cbn. f_equal; lia. }
  cbn [length] in *. run. unfold in_data. rewrite (Vector_size_holds _ _ Ha), Nat2Z.id.
  pose proof (Vector_push_back_cases None (push (length l)) o (w_data w) l Ha ltac:(lia)) as Hpush.
  destruct (Vector_push_back None (push (length l)) o (w_data w)) as [[[]| | |] d]; try done.
  - destruct Hpush as [Ha1 Hn1]. unfold count_object. run.
    match goal with |- context [push_objects push todo ?w1] => set (w1' := w1) end.
    assert (page_open (w_data w1') (l ++ [o])) as Ho.
    { split; [done|]. cbn. rewrite length_app. cbn. lia. }
    specialize (IH w1' (l ++ [o]) Ho ltac:(rewrite length_app; cbn; lia)).
    destruct (push_objects push todo w1') as [[[]| | |] w']; try done.
    + destruct IH as (d' & -> & Ho'). exists d'. split; [|by rewrite <-(assoc_L app) in Ho'].
      unfold pushed, w1'. cbn. f_equal; lia.
    + destruct IH as (j & d' & Hj & -> & Hh & Hne). exists (S j), d'. split; [lia|]. split.
      * unfold pushed, w1'. cbn. f_equal; lia.
      * rewrite <-(assoc_L app) in Hh. split; [done|]. intros _. by destruct l.
  - destruct Hpush as (Hne & Ha1 & _). exists 0, d. split; [lia|]. split; [|split].
    + unfold pushed, w_set_data. f_equal; lia.
    + cbn. by rewrite app_nil_r.
    + cbn. rewrite app_nil_r. intros Hp ->. done.
Qed.

(** ** Records *)

Definition sum_bytes records : Z := foldr (λ r n, (numBytes r + n)%Z) 0%Z records.

(** The objects that are still to be written, from the position in the record
    at the back. *)
Definition unwritten w : list handle := drop (w_pos w) (buffered (w_records w)).

Record writing_ok w : Prop := {
  wr_pos : w_pos w ≤ match w_records w with r :: _ => length (root r) | [] => 0 end;
  wr_bytes : w_numBytesToProcess w = u64 (sum_bytes (w_records w))
}.

Lemma buffered_cons r records : buffered (r :: records) = root r ++ buffered records.
Proof. done. Qed.

Lemma u64_sub_add a b : u64 (u64 (a + b) - a) = u64 b.
Proof. unfold u64. rewrite Zminus_mod_idemp_l. f_equal. lia. Qed.

Lemma u64_add_r a b : u64 (a + u64 b) = u64 (a + b).
Proof. unfold u64. by rewrite Zplus_mod_idemp_r. Qed.

(** A page that takes the objects [done] and fails on the next one. *)
Lemma write_records_ok push records : ∀ w l,
  writing_ok w → w_records w = records → page_open (w_data w) l →
  (Z.of_nat (length l + length (unwritten w)) ≤ 1073741824)%Z →
  match write_records push records w with
  | (Ret _, w') => w_records w' = [] ∧ w_set w' = w_set w ∧ w_dropped w' = w_dropped w ∧
      w_total w' = (w_total w + Z.of_nat (length (unwritten w)))%Z ∧
      writing_ok w' ∧ holds (w_data w') (l ++ unwritten w)
  | (NotEnoughSpace, w') => ∃ done r records',
      w_records w' = r :: records' ∧ w_set w' = w_set w ∧ w_dropped w' = w_dropped w ∧
      w_total w' = (w_total w + Z.of_nat (length done))%Z ∧ writing_ok w' ∧
      w_pos w' < length (root r) ∧ w_numObjectsInRecord w' = length (root r) ∧
      unwritten w = done ++ unwritten w' ∧ holds (w_data w') (l ++ done) ∧ (push 0 = vplenty → l ++ done ≠ [])
  | _ => False
  end.
Proof.
  induction records as [|r records IH]; intros w l Hw Hr Ho Hb; cbn [write_records].
  { unfold unwritten. rewrite Hr. cbn [buffered mbind list_bind]. rewrite drop_nil, app_nil_r. cbn. rewrite Z.add_0_r.
    split_and!; try done. apply Ho. }
  run. set (w0 := w_set_num (length (root r)) w).
  pose proof (wr_pos _ Hw) as Hpos. rewrite Hr in Hpos.
  assert (unwritten w = drop (w_pos w) (root r) ++ buffered records) as Hu.
  { unfold unwritten. rewrite Hr, buffered_cons. by rewrite drop_app_le. }
  rewrite Hu, length_app in Hb.
  pose proof (push_objects_ok push (drop (w_pos w) (root r)) w0 l Ho ltac:(lia)) as Hpush.
  change (w_pos w0) with (w_pos w).
  destruct (push_objects push (drop (w_pos w) (root r)) w0) as [[[]| | |] w1]; try done.
  - destruct Hpush as (d & -> & Hd). run. match goal with |- context [write_records push records ?w1] => set (w2 := w1) end.
    assert (writing_ok w2) as Hw2.
    { split; cbn; [destruct records; lia|]. rewrite (wr_bytes _ Hw), Hr. cbn. apply u64_sub_add. }
    specialize (IH w2 _ Hw2 eq_refl Hd). unfold unwritten at 1 in IH. cbn [w_pos w_records w2 w_set_records] in IH. rewrite drop_0 in IH.
    specialize (IH ltac:(rewrite !length_app; lia)).
    assert (unwritten w2 = buffered records) as Hu2 by (unfold unwritten; cbn; by rewrite drop_0).
    destruct (write_records push records w2) as [[[]| | |] w']; try done.
    + destruct IH as (H1 & H2 & H3 & H4 & H5 & H6). rewrite Hu2 in *. rewrite Hu. split_and!; try done.
      * rewrite H4. cbn. rewrite length_app. lia.
      * by rewrite (assoc_L app).
    + destruct IH as (done & r' & records' & H1 & H2 & H3 & H4 & H5 & H6 & H7 & H8 & H9 & H10).
      exists (drop (w_pos w) (root r) ++ done), r', records'. rewrite Hu. rewrite Hu2 in H8. split_and!; try done.
      * rewrite H4. cbn. rewrite length_app. lia.
      * by rewrite H8, (assoc_L app).
      * by rewrite (assoc_L app).
      * by rewrite (assoc_L app).
  - destruct Hpush as (j & d & Hj & -> & Hd & Hne). rewrite length_drop in Hj.
    exists (take j (drop (w_pos w) (root r))), r, records. cbn. split_and!; try done.
    + rewrite length_take, length_drop. lia.
    + split; cbn; [rewrite Hr; lia|apply Hw].
    + lia.
    + rewrite Hu. unfold unwritten. cbn [w_pos w_records pushed w_set_num w0]. rewrite Hr, bind_cons, drop_app_le by lia. rewrite (assoc_L app). f_equal.
      by rewrite <-drop_drop, take_drop.
Qed.

(** ** Pages *)

(** What a call does to the pages of the set and to the objects: [pages] are
    written, [drops] skipped. *)
Record wrote (flag : bool) w w' (pages : list (list handle * bool)) (drops : list handle) : Prop := {
  wt_pages : ss_pages (w_set w') = ss_pages (w_set w) ++ pages;
  wt_size : ss_pageSize (w_set w') = ss_pageSize (w_set w);
  wt_pinned : S (ss_pinned (w_set w')) = ss_pinned (w_set w);
  wt_flag : Forall (λ p, snd p = flag) pages;
  wt_dropped : w_dropped w' = w_dropped w ++ drops;
  wt_bytes : w_numBytesToProcess w' = u64 (sum_bytes (w_records w'));
  wt_objects : (pages ≫= fst) ++ drops ++ buffered (w_records w') ≡ₚ unwritten w;
  wt_progress : w_records w' = [] ∨ length (buffered (w_records w')) < length (unwritten w)
}.

(** A page is released with what it holds, and the object that did not fit on
    an empty one is skipped. *)
Lemma handler_ok flag push w1 w (done : list handle) r records' n :
  w_records w1 = r :: records' → w_set w1 = w_set w → w_dropped w1 = w_dropped w →
  writing_ok w1 → w_pos w1 < length (root r) → w_numObjectsInRecord w1 = length (root r) →
  unwritten w = done ++ unwritten w1 → holds (w_data w1) done → ((push : nat → vspace) 0 = vplenty → done ≠ []) →
  ss_pinned (w_set w) = S n →
  ∃ w2 drops, (skip_object ;; releasePage flag ;; mret true) w1 = (Ret true, w2) ∧
    w_records w2 = r :: records' ∧ writing_ok w2 ∧ w_numObjectsInRecord w2 = length (root r) ∧
    w_set w2 = StoredSet (ss_pageSize (w_set w)) (ss_pages (w_set w) ++ [(done, flag)]) n ∧
    w_dropped w2 = w_dropped w ++ drops ∧ (push 0 = vplenty → drops = []) ∧
    done ++ drops ++ unwritten w2 = unwritten w ∧ length (unwritten w2) < length (unwritten w).
Proof.
  intros Hr Hset Hdr Hw Hpos Hnum Hu Hd Hne Hn. unfold skip_object, releasePage. run.
  rewrite (Vector_size_holds _ _ Hd).
  assert (unwritten w1 = take 1 (drop (w_pos w1) (root r)) ++ drop (S (w_pos w1)) (buffered (r :: records'))) as Hu1.
  { unfold unwritten. rewrite Hr, buffered_cons, !drop_app_le by lia. rewrite (assoc_L app). f_equal.
    rewrite <-(take_drop 1 (drop (w_pos w1) (root r))) at 1. by rewrite drop_drop, Nat.add_1_r. }
  assert (length (take 1 (drop (w_pos w1) (root r))) = 1) as H1 by (rewrite length_take, length_drop; lia).
  destruct done as [|o done]; cbn [length].
  - change (Z.of_nat 0 =? 0)%Z with true. cbn beta iota. eexists. exists (take 1 (drop (w_pos w1) (root r))). split; [reflexivity|]. cbn. rewrite Hset, Hdr, Hr, Hn, (contents_holds _ _ Hd).
    split_and!; try done.
    + split; cbn; [lia|]. by rewrite (wr_bytes _ Hw), Hr.
    + intros Hp. by destruct (Hne Hp).
    + rewrite Hu, Hu1. unfold unwritten. cbn. done.
    + rewrite Hu. cbn [app]. rewrite Hu1, length_app, H1. unfold unwritten. cbn. lia.
  - rewrite (proj2 (Z.eqb_neq _ 0)) by lia. cbn beta iota. eexists. exists []. split; [reflexivity|]. cbn. rewrite Hset, Hdr, Hr, Hn, (contents_holds _ _ Hd).
    split_and!; try done.
    + destruct Hw; by split.
    + by rewrite app_nil_r.
    + rewrite Hu. unfold unwritten. by rewrite Hr.
    + rewrite Hu. cbn [app length]. rewrite length_app. unfold unwritten. rewrite Hr. cbn. lia.
Qed.

(** The answers that let a call finish: the vectors of pages and of what is left
    over fit. *)
Definition roomy (sp : nat → page_space) (extra : extra_space) : Prop :=
  (∀ k, ps_vector (sp k) = true) ∧ es_vector extra = true ∧ ∀ i, es_push extra i = vplenty.

Lemma keep_rest_ok sp extra w r records' :
  roomy sp extra → w_records w = r :: records' → writing_ok w → w_numObjectsInRecord w = length (root r) →
  (Z.of_nat (length (unwritten w)) ≤ 1073741824)%Z →
  ∃ w', keep_rest extra w = (Ret tt, w') ∧ w_set w' = w_set w ∧ w_dropped w' = w_dropped w ∧
    w_numBytesToProcess w' = u64 (sum_bytes (w_records w')) ∧ buffered (w_records w') = unwritten w.
Proof.
  intros (_ & Hv & Hp) Hr Hw Hnum Hb. unfold keep_rest. run. rewrite Hr, Hv, Hnum.
  pose proof (wr_pos _ Hw) as Hpos. rewrite Hr in Hpos.
  assert (unwritten w = drop (w_pos w) (root r) ++ buffered records') as Hu.
  { unfold unwritten. by rewrite Hr, buffered_cons, drop_app_le. }
  assert (length (drop (w_pos w) (root r)) = length (root r) - w_pos w) as Hl by apply length_drop.
  rewrite Hu, length_app in Hb.
  destruct (push_extra_ok (es_push extra) (drop (w_pos w) (root r)) 0 (Vector_new (Z.of_nat (length (root r) - w_pos w))) [])
    as (a & -> & Ha); [done|apply Array_new_holds; unfold u32_modulus; lia|cbn; lia|cbn; lia|].
  eexists. split; [reflexivity|]. cbn. split_and!; try done.
  - rewrite (wr_bytes _ Hw), Hr. cbn. rewrite u64_sub_add, Z.add_comm. apply u64_add_r.
  - rewrite Hu, (contents_holds _ _ Ha). done.
Qed.

Lemma fill_pages_ok flag sp extra fuel : ∀ k w,
  roomy sp extra → writing_ok w → 0 < ss_pinned (w_set w) →
  length (unwritten w) < fuel → (Z.of_nat (length (unwritten w)) ≤ 1073741824)%Z →
  ∃ w' pages drops, fill_pages flag sp extra fuel k w = (Ret tt, w') ∧ wrote flag w w' pages drops ∧
    ((∀ k, ps_push (sp k) 0 = vplenty) → drops = []).
Proof.
  induction fuel as [|fuel IH]; intros k w Hsp Hw Hpin Hf Hb; [lia|]. cbn [fill_pages]. rewrite (proj1 Hsp). run.
  destruct (ss_pinned (w_set w)) as [|n] eqn:Hn; [lia|].
  set (w0 := w_set_data Vector_default w).
  assert (writing_ok w0) as Hw0 by (destruct Hw; by split).
  pose proof (write_records_ok (ps_push (sp k)) (w_records w0) w0 [] Hw0 eq_refl page_open_new Hb) as Hwr.
  unfold catch. run. change (w_records w) with (w_records w0).
  destruct (write_records _ _ w0) as [[[]| | |] w1]; try done.
  - destruct Hwr as (Hr & Hset & Hdr & _ & Hw1 & Hd). cbn [app] in Hd. cbn. eexists. exists [(unwritten w, flag)], []. split; [reflexivity|].
    split; [|done]. split; cbn; rewrite ?Hr, ?Hset, ?(contents_holds _ _ Hd); try done.
    + cbn. by rewrite Hn.
    + by repeat constructor.
    + by rewrite app_nil_r, Hdr.
    + rewrite (wr_bytes _ Hw1), Hr. done.
    + by rewrite !app_nil_r.
    + by left.
  - destruct Hwr as (done & r & records' & Hr & Hset & Hdr & _ & Hw1 & Hpos & Hnum & Hu & Hd & Hne). cbn [app] in Hd, Hne.
    destruct (handler_ok flag (ps_push (sp k)) w1 w done r records' n Hr Hset Hdr Hw1 Hpos Hnum Hu Hd Hne Hn)
      as (w2 & drops & Hh & Hr2 & Hw2 & Hnum2 & Hset2 & Hdr2 & Hno & Hobj & Hlt).
    rewrite Hh. cbn beta iota. run. destruct (enough_for_page w2).
    + unfold getNewPage. run. set (w3 := w_set_set _ w2).
      destruct (IH (S k) w3) as (w' & pages & drops' & Hgo & Hwt & Hno'); try done.
      * destruct Hw2; by split.
      * cbn. lia.
      * change (unwritten w3) with (unwritten w2). lia.
      * change (unwritten w3) with (unwritten w2). lia.
      * exists w', ((done, flag) :: pages), (drops ++ drops'). split; [done|]. split.
        2:{ intros Hp. by rewrite (Hno (Hp k)), (Hno' Hp). }
        destruct Hwt as [H1 H2 H3 H4 H5 H6 H7 H8]. change (unwritten w3) with (unwritten w2) in *. cbn in *. rewrite Hset2 in *. cbn in *.
        split; try done.
        -- by rewrite H1, <-(assoc_L app).
        -- lia.
        -- by constructor.
        -- by rewrite H5, Hdr2, (assoc_L app).
        -- rewrite <-Hobj, <-H7. cbn. solve_Permutation.
        -- destruct H8; [by left|right; lia].
    + destruct (keep_rest_ok sp extra w2 r records' Hsp Hr2 Hw2 Hnum2 ltac:(lia)) as (w' & -> & H1 & H2 & H3 & H4).
      exists w', [(done, flag)], drops. split; [done|]. split; [|auto].
      split; rewrite ?H1, ?H2, ?H4, ?Hset2; cbn; try done.
      * by repeat constructor.
      * rewrite app_nil_r, Hobj. done.
      * by right.
Qed.

(** ** The storage server *)

Local Abbreviation set_name := (string * string)%type.
Implicit Types (s : storage O) (name : set_name) (set : stored_set O).

Definition records_of s name : list (record O) := default [] (allRecords s !! name).

(** [sizes] has the number of bytes that are buffered for a set. *)
Definition counted s name : Prop := default 0%Z (sizes s !! name) = u64 (sum_bytes (records_of s name)).

Definition more_pages set pages : stored_set O := StoredSet (ss_pageSize set) (ss_pages set ++ pages) (ss_pinned set).

(** The state after pages have been written for a set and objects skipped. *)
Definition written s name set records pages drops total : storage O :=
  Storage (<[name := records]> (allRecords s)) (<[name := u64 (sum_bytes records)]> (sizes s))
    (<[name := more_pages set pages]> (sets s)) total (dropped s ++ drops).

Lemma bufferRecord_counted name r s :
  (0 ≤ numBytes r < u64_modulus)%Z → counted s name →
  ∃ s', bufferRecord name r s = (default 0%Z (sizes s' !! name), s') ∧ counted s' name ∧
    records_of s' name = r :: records_of s name ∧ sets s' = sets s ∧ dropped s' = dropped s.
Proof.
  intros Hr Hc. exists (snd (bufferRecord name r s)). unfold bufferRecord, counted, records_of in *.
  destruct (allRecords s !! name) as [records|] eqn:E; cbn in *; rewrite !lookup_insert_eq; cbn; (split; [done|]).
  - rewrite Hc. split; [|done]. rewrite (Z.add_comm (u64 _)). apply u64_add_r.
  - split; [|done]. rewrite Z.add_0_r. symmetry. by apply Z.mod_small.
Qed.

Lemma writeBack_ok sp extra name flag s set :
  sets s !! name = Some set → counted s name → roomy sp extra →
  (Z.of_nat (length (buffered (records_of s name))) ≤ 1073741824)%Z →
  ∃ records pages drops total,
    writeBackRecords sp extra name flag s = (Ret tt, written s name set records pages drops total) ∧
    Forall (λ p, snd p = flag) pages ∧
    (pages ≫= fst) ++ drops ++ buffered records ≡ₚ buffered (records_of s name) ∧
    (records = [] ∨ length (buffered records) < length (buffered (records_of s name))) ∧
    ((∀ k, ps_push (sp k) 0 = vplenty) → drops = []).
Proof.
  intros Hset Hc Hsp Hb. unfold writeBackRecords. rewrite Hset. unfold getNewPage. run.
  fold (records_of s name). set (w := w_set_set _ _).
  destruct (fill_pages_ok flag sp extra (S (length (buffered (records_of s name)))) 0 w)
    as (w' & pages & drops & -> & Hw & Hno); try done.
  - split; cbn; [lia|exact Hc].
  - cbn. lia.
  - unfold unwritten. change (w_pos w) with 0. rewrite drop_0. apply Nat.lt_succ_diag_r.
  - destruct Hw as [H1 H2 H3 H4 H5 H6 H7 H8]. unfold unwritten in *. cbn in *. rewrite drop_0 in *.
    exists (w_records w'), pages, drops, (w_total w'). split; [|done]. unfold written, more_pages. rewrite <-H6, <-H5.
    destruct (w_set w') as [a b c]. cbn in *. by simplify_eq.
Qed.

(** All records of a set have been written, all objects on pages. *)
Record cleaned flag name s set s' pages : Prop := {
  cl_records : records_of s' name = [];
  cl_counted : counted s' name;
  cl_sets : sets s' = <[name := more_pages set pages]> (sets s);
  cl_other name' : name' ≠ name → allRecords s' !! name' = allRecords s !! name' ∧ sizes s' !! name' = sizes s !! name';
  cl_dropped : dropped s' = dropped s;
  cl_flag : Forall (λ p, snd p = flag) pages;
  cl_objects : (pages ≫= fst) ≡ₚ buffered (records_of s name)
}.

Lemma nothing_to_clean flag name s set :
  sets s !! name = Some set → counted s name → records_of s name = [] → cleaned flag name s set s [].
Proof.
  intros Hset Hc Hnil. split; try done; [|by rewrite Hnil].
  unfold more_pages. rewrite app_nil_r, insert_id; [done|]. by destruct set.
Qed.

Lemma write_back_all_ok calls flag name fuel : ∀ i s set,
  sets s !! name = Some set → counted s name → (∀ j, roomy (fst (calls j)) (snd (calls j))) →
  (∀ j k, ps_push (fst (calls j) k) 0 = vplenty) →
  (Z.of_nat (length (buffered (records_of s name))) ≤ 1073741824)%Z →
  (if decide (records_of s name = []) then 0 else length (buffered (records_of s name)) + 1) < fuel →
  ∃ s' pages, write_back_all calls flag name fuel i s = (Ret tt, s') ∧ cleaned flag name s set s' pages.
Proof.
  induction fuel as [|fuel IH]; intros i s set Hset Hc Hr Hp Hb Hf; [lia|].
  cbn [write_back_all]. run. fold (records_of s name). case_decide as Hnil.
  { exists s, []. split; [done|by apply nothing_to_clean]. }
  destruct (writeBack_ok (fst (calls i)) (snd (calls i)) name flag s set Hset Hc (Hr i) Hb)
    as (records & pages & drops & total & Hgo & Hflag & Hobj & Hprog & Hno).
  rewrite (Hno (Hp i)) in *. cbn [app] in Hobj. rewrite M_bind_unfold, Hgo. set (s1 := written _ _ _ _ _ _ _).
  assert (records_of s1 name = records) as Hrec by (unfold records_of; cbn; by rewrite lookup_insert_eq).
  assert (counted s1 name) as Hc1 by (unfold counted; rewrite Hrec; cbn; by rewrite lookup_insert_eq).
  assert (sets s1 !! name = Some (more_pages set pages)) as Hs1 by (cbn; by rewrite lookup_insert_eq).
  assert (length (pages ≫= fst) + length (buffered records) = length (buffered (records_of s name))) as Hlen
    by (rewrite <-Hobj, length_app; done).
  destruct (IH (S i) s1 (more_pages set pages) Hs1 Hc1 Hr Hp) as (s' & pages' & Hgo' & [H1 H2 H3 H4 H5 H6 H7]).
  { rewrite Hrec. lia. }
  { rewrite Hrec. case_decide; [lia|]. destruct Hprog; [done|lia]. }
  rewrite Hrec in H7. exists s', (pages ++ pages'). split; [done|]. split; try done.
  - rewrite H3. cbn. rewrite insert_insert_eq. unfold more_pages. cbn. by rewrite (assoc_L app).
  - intros name' Hne. destruct (H4 name' Hne) as [-> ->]. cbn. by rewrite !lookup_insert_ne.
  - rewrite H5. cbn. by rewrite app_nil_r.
  - by apply Forall_app.
  - by rewrite bind_app, H7, Hobj.
Qed.

(** What the pages of the sets [names] have got. *)
Lemma cleanup_ok answers flag names : ∀ s,
  NoDup names → (∀ name, counted s name) → (∀ name, name ∈ names → is_Some (sets s !! name)) →
  (∀ name j, roomy (fst (answers name j)) (snd (answers name j))) →
  (∀ name j k, ps_push (fst (answers name j) k) 0 = vplenty) →
  (∀ name, (Z.of_nat (length (buffered (records_of s name))) ≤ 1073741824)%Z) →
  ∃ s', cleanup answers flag names s = (Ret tt, s') ∧ dropped s' = dropped s ∧ (∀ name, counted s' name) ∧
    (∀ name, records_of s' name = if decide (name ∈ names) then [] else records_of s name) ∧
    (∀ name set, sets s !! name = Some set → ∃ pages, sets s' !! name = Some (more_pages set pages) ∧
      Forall (λ p, snd p = flag) pages ∧ (pages ≫= fst) ≡ₚ if decide (name ∈ names) then buffered (records_of s name) else []).
Proof.
  induction names as [|name names IH]; intros s Hnd Hc Hs Hr Hp Hb; cbn [cleanup].
  { exists s. split; [done|]. split; [done|]. split; [done|]. split; [done|]. intros name set Hset. exists [].
    unfold more_pages. rewrite app_nil_r. by destruct set. }
  apply NoDup_cons in Hnd as [Hni Hnd]. destruct (Hs name ltac:(left)) as [set Hset]. run. fold (records_of s name).
  destruct (write_back_all_ok (answers name) flag name (S (S (length (buffered (records_of s name))))) 0 s set)
    as (s1 & pages & -> & [H1 H2 H3 H4 H5 H6 H7]); try done; [case_decide; lia|].
  assert (∀ name', name' ≠ name → records_of s1 name' = records_of s name') as Hrec.
  { intros name' Hne. unfold records_of. by destruct (H4 name' Hne) as [-> _]. }
  destruct (IH s1) as (s' & -> & G1 & G2 & G3 & G4); try done.
  - intros name'. destruct (decide (name' = name)) as [->|Hne]; [done|]. unfold counted. rewrite Hrec by done.
    destruct (H4 name' Hne) as [_ ->]. apply Hc.
  - intros name' Hin. rewrite H3. destruct (decide (name' = name)) as [->|Hne]; [by rewrite lookup_insert_eq|].
    rewrite lookup_insert_ne by done. apply Hs. by right.
  - intros name'. destruct (decide (name' = name)) as [->|Hne]; [rewrite H1; cbn; lia|by rewrite Hrec].
  - exists s'. split; [done|]. split; [by rewrite G1|]. split; [done|]. split.
    + intros name'. rewrite G3. destruct (decide (name' = name)) as [->|Hne].
      * rewrite (decide_False (P := name ∈ names)), decide_True by set_solver. done.
      * rewrite Hrec by done. repeat case_decide; set_solver.
    + intros name' set' Hset'. destruct (decide (name' = name)) as [->|Hne].
      * rewrite Hset in Hset'. injection Hset' as <-.
        destruct (G4 name (more_pages set pages)) as (pages' & E1 & E2 & E3); [rewrite H3; by rewrite lookup_insert_eq|].
        rewrite decide_False in E3 by done. apply Permutation_nil_r in E3.
        exists (pages ++ pages'). rewrite E1, bind_app, E3, app_nil_r, decide_True by set_solver.
        split; [unfold more_pages; cbn; by rewrite (assoc_L app)|]. split; [by apply Forall_app|done].
      * destruct (G4 name' set') as (pages' & E1 & E2 & E3); [rewrite H3; by rewrite lookup_insert_ne|].
        exists pages'. split; [done|]. split; [done|]. rewrite E3, Hrec by done. repeat case_decide; set_solver.
Qed.

(** When every object fits on an empty page, cleaning up ends with no record
    buffered, every object that was buffered for a set exactly once on the pages
    it has got, and as many pages pinned as before. *)
Lemma cleanup_all_ok answers flag names s :
  names ≡ₚ (map_to_list (allRecords s)).*1 → (∀ name, counted s name) →
  (∀ name, is_Some (allRecords s !! name) → is_Some (sets s !! name)) →
  (∀ name j, roomy (fst (answers name j)) (snd (answers name j))) →
  (∀ name j k, ps_push (fst (answers name j) k) 0 = vplenty) →
  (∀ name, (Z.of_nat (length (buffered (records_of s name))) ≤ 1073741824)%Z) →
  ∃ s', cleanup answers flag names s = (Ret tt, s') ∧ dropped s' = dropped s ∧
    (∀ name, records_of s' name = [] ∧ counted s' name) ∧
    ∀ name set, sets s !! name = Some set → ∃ pages, sets s' !! name = Some (more_pages set pages) ∧
      Forall (λ p, snd p = flag) pages ∧ (pages ≫= fst) ≡ₚ buffered (records_of s name).
Proof.
  intros Hnames Hc Hs Hr Hp Hb.
  assert (∀ name, name ∈ names ↔ is_Some (allRecords s !! name)) as Hin.
  { intros name. rewrite Hnames, list_elem_of_fmap. split.
    - intros ([k v] & -> & Hv%elem_of_map_to_list). by exists v.
    - intros [v Hv]. exists (name, v). by rewrite elem_of_map_to_list. }
  assert (∀ name, name ∉ names → records_of s name = []) as Hout.
  { intros name Hn. unfold records_of. destruct (allRecords s !! name) eqn:E; [|done]. destruct Hn. apply Hin. by rewrite E. }
  destruct (cleanup_ok answers flag names s) as (s' & -> & H1 & H2 & H3 & H4); try done.
  { rewrite Hnames. apply NoDup_fst_map_to_list. }
  { intros name Hn. by apply Hs, Hin. }
  exists s'. split; [done|]. split; [done|]. split.
  - intros name. split; [|done]. rewrite H3. case_decide; [done|by apply Hout].
  - intros name set Hset. destruct (H4 name set Hset) as (pages & E1 & E2 & E3). exists pages. split; [done|]. split; [done|].
    rewrite E3. case_decide; [done|]. by rewrite Hout.
Qed.
(** ** Requests *)

(** A request to add data that is not put directly, with the answers for the call
    that writes records back. *)
Record request := Request {
  rq_name : set_name; rq_flush : bool; rq_record : record O; rq_space : nat → page_space; rq_extra : extra_space
}.

Fixpoint add_requests (rqs : list request) : M (storage O) unit :=
  match rqs with
  | [] => mret tt
  | q :: rqs =>
      handle_add_data (rq_space q) (rq_extra q) (rq_name q) false (rq_flush q) (rq_record q) ;; add_requests rqs
  end.

(** What has been added to a set. *)
Definition added (rqs : list request) name : list handle :=
  filter (λ q, rq_name q = name) rqs ≫= λ q, root (rq_record q).

Record request_ok s (q : request) : Prop := {
  ro_set : is_Some (sets s !! rq_name q);
  ro_bytes : (0 ≤ numBytes (rq_record q) < u64_modulus)%Z;
  ro_roomy : roomy (rq_space q) (rq_extra q);
  ro_fits k : ps_push (rq_space q k) 0 = vplenty
}.

(** From the state [s0] on, [objs] have been added. *)
Record holds_added s0 s (objs : set_name → list handle) : Prop := {
  ha_counted name : counted s name;
  ha_dropped : dropped s = dropped s0;
  ha_known name : is_Some (allRecords s !! name) → is_Some (sets s0 !! name);
  ha_sets name set : sets s0 !! name = Some set → ∃ pages, sets s !! name = Some (more_pages set pages) ∧
    (pages ≫= fst) ++ buffered (records_of s name) ≡ₚ objs name
}.

Lemma more_pages_app set pages pages' : more_pages (more_pages set pages) pages' = more_pages set (pages ++ pages').
Proof. unfold more_pages. cbn. by rewrite (assoc_L app). Qed.

(** Buffering a record. *)
Lemma bufferRecord_added s0 s objs name r :
  holds_added s0 s objs → is_Some (sets s0 !! name) → (0 ≤ numBytes r < u64_modulus)%Z →
  ∃ size s', bufferRecord name r s = (size, s') ∧ sets s' = sets s ∧
    holds_added s0 s' (λ name', if decide (name' = name) then root r ++ objs name else objs name').
Proof.
  intros H Hk Hr. destruct (bufferRecord_counted name r s Hr (ha_counted _ _ _ H name)) as (s' & Hb & Hc & Hrec & Hset & Hdr).
  assert (∀ name', name' ≠ name → allRecords s' !! name' = allRecords s !! name' ∧ sizes s' !! name' = sizes s !! name') as Hother.
  { apply (f_equal snd) in Hb. cbn in Hb. rewrite <-Hb. intros name' Hne. unfold bufferRecord.
    destruct (allRecords s !! name); cbn; by rewrite !lookup_insert_ne. }
  assert (∀ name', name' ≠ name → records_of s' name' = records_of s name') as Hrec'.
  { intros name' Hne. unfold records_of. by destruct (Hother name' Hne) as [-> _]. }
  exists (default 0%Z (sizes s' !! name)), s'. split; [done|]. split; [done|]. split.
  - intros name'. destruct (decide (name' = name)) as [->|Hne]; [done|]. unfold counted. rewrite Hrec' by done.
    destruct (Hother name' Hne) as [_ ->]. apply H.
  - by rewrite Hdr, (ha_dropped _ _ _ H).
  - intros name'. destruct (decide (name' = name)) as [->|Hne]; [done|]. destruct (Hother name' Hne) as [-> _]. apply H.
  - intros name' set Hs. destruct (ha_sets _ _ _ H name' set Hs) as (pages & Hp & Ho). exists pages. rewrite Hset. split; [done|].
    case_decide as Hd; [subst name'|by rewrite Hrec'].
    rewrite Hrec, buffered_cons, <-Ho. solve_Permutation.
Qed.

(** Writing records back. *)
Lemma writeBack_added s0 s objs sp extra name flag :
  holds_added s0 s objs → is_Some (sets s0 !! name) → roomy sp extra → (∀ k, ps_push (sp k) 0 = vplenty) →
  (Z.of_nat (length (objs name)) ≤ 1073741824)%Z →
  ∃ s', writeBackRecords sp extra name flag s = (Ret tt, s') ∧ holds_added s0 s' objs.
Proof.
  intros H [set0 Hs0] Hr Hf Hb. destruct (ha_sets _ _ _ H name set0 Hs0) as (pages0 & Hset & Ho).
  assert (length (buffered (records_of s name)) ≤ length (objs name)) as Hle by (rewrite <-Ho, length_app; lia).
  destruct (writeBack_ok sp extra name flag s _ Hset (ha_counted _ _ _ H name) Hr ltac:(lia))
    as (records & pages & drops & total & Hgo & _ & Hobj & _ & Hno).
  rewrite (Hno Hf) in *. cbn [app] in Hobj. eexists. split; [exact Hgo|]. split; cbn [written].
  - intros name'. unfold counted, records_of. cbn. destruct (decide (name' = name)) as [->|Hne].
    + by rewrite !lookup_insert_eq.
    + rewrite !lookup_insert_ne by done. apply H.
  - cbn. rewrite app_nil_r. apply H.
  - intros name'. cbn. destruct (decide (name' = name)) as [->|Hne]; [by rewrite Hs0|]. rewrite lookup_insert_ne by done. apply H.
  - intros name' set Hs. unfold records_of. cbn. destruct (decide (name' = name)) as [->|Hne].
    + rewrite !lookup_insert_eq. rewrite Hs0 in Hs. injection Hs as <-. exists (pages0 ++ pages). split; [by rewrite more_pages_app|].
      cbn. rewrite bind_app, <-(assoc_L app), Hobj. done.
    + rewrite !lookup_insert_ne by done. by apply H.
Qed.

Lemma add_requests_ok s0 rqs : ∀ s objs,
  holds_added s0 s objs → Forall (request_ok s0) rqs →
  (∀ name, (Z.of_nat (length (objs name) + length (added rqs name)) ≤ 1073741824)%Z) →
  ∃ s' objs', add_requests rqs s = (Ret tt, s') ∧ holds_added s0 s' objs' ∧ ∀ name, objs' name ≡ₚ objs name ++ added rqs name.
Proof.
  induction rqs as [|q rqs IH]; intros s objs H Hq Hb; cbn [add_requests].
  { exists s, objs. split; [done|]. split; [done|]. intros name. by rewrite app_nil_r. }
  apply Forall_cons in Hq as [[Hset Hbytes Hroomy Hfits] Hq].
  assert (∀ name, added (q :: rqs) name = (if decide (rq_name q = name) then root (rq_record q) else []) ++ added rqs name) as Hadd.
  { intros name. unfold added. rewrite filter_cons. case_decide; [by rewrite bind_cons|done]. }
  rewrite M_bind_unfold. unfold handle_add_data. case_decide as Hroot.
  { destruct (IH s objs H Hq) as (s' & objs' & -> & Hh & Ho).
    - intros name. specialize (Hb name). rewrite Hadd, Hroot in Hb. by case_decide.
    - exists s', objs'. split; [done|]. split; [done|]. intros name. rewrite Hadd, Hroot, Ho. by case_decide. }
  destruct Hset as [set0 Hs0]. destruct (ha_sets _ _ _ H _ _ Hs0) as (pages & -> & _).
  destruct (bufferRecord_added s0 s objs (rq_name q) (rq_record q) H ltac:(by rewrite Hs0) Hbytes) as (size & s1 & -> & _ & H1).
  set (objs1 := λ name', if decide (name' = rq_name q) then root (rq_record q) ++ objs (rq_name q) else objs name') in *.
  assert (∀ name, objs1 name ++ added rqs name ≡ₚ objs name ++ added (q :: rqs) name) as Hperm.
  { intros name. rewrite Hadd. unfold objs1. repeat case_decide; subst; try done. solve_Permutation. }
  assert (∀ name, (Z.of_nat (length (objs1 name) + length (added rqs name)) ≤ 1073741824)%Z) as Hb1.
  { intros name. specialize (Hb name). rewrite <-length_app in *. by rewrite Hperm. }
  assert (∃ s2, (if (u64 (ss_pageSize (more_pages set0 pages) * inflationFactor) <=? size)%Z
      then (writeBackRecords (rq_space q) (rq_extra q) (rq_name q) (rq_flush q) ;; mret true) s1
      else (Ret true, s1)) = (Ret true, s2) ∧ holds_added s0 s2 objs1) as (s2 & -> & H2).
  { destruct (_ <=? _)%Z; [|by exists s1].
    destruct (writeBack_added s0 s1 objs1 (rq_space q) (rq_extra q) (rq_name q) (rq_flush q) H1) as (s2 & Hgo & H2); try done.
    - specialize (Hb1 (rq_name q)). lia.
    - exists s2. by rewrite M_bind_unfold, Hgo. }
  destruct (IH s2 objs1 H2 Hq Hb1) as (s' & objs' & -> & Hh & Ho). exists s', objs'. split; [done|]. split; [done|].
  intros name. by rewrite Ho, Hperm.
Qed.

(** ** Properties *)

(** [C38] When the vector of a page and the record for what is left over fit ([roomy];
    otherwise objects are both on a page and in the records,
    [leftover_exception_repeats]), writing the records of a set back, at most 2^30
    objects whose bytes [sizes] counts, puts their objects on pages of the set, skips one that does not fit
    on an empty page, or leaves it in the records: each object is in exactly one
    place, every page is released once, flushed as asked for, [sizes] counts what
    is left, and nothing of another set changes.  When records are left they have
    fewer objects than before. *)
Theorem writeBackRecords_keeps_objects sp extra name flag s set :
  sets s !! name = Some set → counted s name → roomy sp extra →
  (Z.of_nat (length (buffered (records_of s name))) ≤ 1073741824)%Z →
  ∃ records pages drops total,
    writeBackRecords sp extra name flag s = (Ret tt, written s name set records pages drops total) ∧
    Forall (λ p, snd p = flag) pages ∧
    (pages ≫= fst) ++ drops ++ buffered records ≡ₚ buffered (records_of s name) ∧
    (records = [] ∨ length (buffered records) < length (buffered (records_of s name))) ∧
    ((∀ k, ps_push (sp k) 0 = vplenty) → drops = []).
Proof. apply writeBack_ok. Qed.

(** [C23] What clients add to sets ends up on their pages: on a server with nothing
    buffered, after any requests for sets there are, each of which may write records back, cleaning up ends, nothing
    stays buffered, and the pages that a set has got since hold exactly the objects
    that were added to it.  Assumed: every object fits on an empty page, the vector
    of a page and the record for what is left over always fit ([roomy]; otherwise
    objects are written twice, [leftover_exception_repeats]), and no set is given
    more than 2^30 objects. *)
Theorem added_objects_stored rqs s0 :
  allRecords s0 = ∅ → sizes s0 = ∅ → Forall (request_ok s0) rqs →
  (∀ name, (Z.of_nat (length (added rqs name)) ≤ 1073741824)%Z) →
  ∃ s1, add_requests rqs s0 = (Ret tt, s1) ∧
    ∀ answers flag names,
      names ≡ₚ (map_to_list (allRecords s1)).*1 →
      (∀ name j, roomy (fst (answers name j)) (snd (answers name j))) →
      (∀ name j k, ps_push (fst (answers name j) k) 0 = vplenty) →
      ∃ s', cleanup answers flag names s1 = (Ret tt, s') ∧ dropped s' = dropped s0 ∧
        (∀ name, records_of s' name = []) ∧
        ∀ name set, sets s0 !! name = Some set →
          ∃ pages, sets s' !! name = Some (more_pages set pages) ∧ (pages ≫= fst) ≡ₚ added rqs name.
Proof.
  intros Hr0 Hs0 Hq Hb. assert (holds_added s0 s0 (λ _, [])) as H0.
  { split; unfold counted, records_of; try rewrite Hr0; try rewrite Hs0; try done.
    - intros name. by rewrite !lookup_empty.
    - intros name set Hset. exists []. rewrite lookup_empty. split; [|done]. rewrite Hset. unfold more_pages.
      rewrite app_nil_r. by destruct set. }
  destruct (add_requests_ok s0 rqs s0 (λ _, []) H0 Hq Hb) as (s1 & objs & -> & H1 & Ho). exists s1. split; [done|].
  intros answers flag names Hnames Hroomy Hfits.
  assert (∀ name, length (buffered (records_of s1 name)) ≤ length (added rqs name)) as Hle.
  { intros name. destruct (allRecords s1 !! name) as [v|] eqn:E.
    - destruct (ha_known _ _ _ H1 name ltac:(by rewrite E)) as [set Hset].
      destruct (ha_sets _ _ _ H1 name set Hset) as (pages & _ & Hp). rewrite Ho in Hp. cbn [app] in Hp.
      rewrite <-Hp, length_app. lia.
    - unfold records_of. rewrite E. cbn. lia. }
  destruct (cleanup_all_ok answers flag names s1 Hnames) as (s' & -> & Hdr & Hnil & Hsets); try done.
  - apply H1.
  - intros name Hk. destruct (ha_known _ _ _ H1 name Hk) as [set Hset]. destruct (ha_sets _ _ _ H1 name set Hset) as (pages & -> & _). done.
  - intros name. specialize (Hb name). specialize (Hle name). lia.
  - exists s'. split; [done|]. split; [by rewrite Hdr, (ha_dropped _ _ _ H1)|]. split; [intros name; apply Hnil|].
    intros name set Hset. destruct (ha_sets _ _ _ H1 name set Hset) as (pages & Hp & Hobj).
    destruct (Hsets name _ Hp) as (pages' & E1 & _ & E3). exists (pages ++ pages'). split; [by rewrite E1, more_pages_app|].
    rewrite bind_app, E3, Hobj. apply Ho.
Qed.
End facts.

(** ** A small server *)

Definition small_name : string * string := ("db", "set")%string.

(** Two records, the one at the back with three objects. *)
Definition small_storage (pageSize : Z) : storage nat :=
  Storage {[small_name := [Rec [Some 1; Some 2; Some 3] 700; Rec [Some 4; Some 5] 500]]} {[small_name := 1200%Z]}
    {[small_name := StoredSet pageSize [] 0]} 0 [].

(** Pages that take [n] objects. *)
Definition page_of (n : nat) (k : nat) : page_space :=
  PageSpace true (λ i, if i <? n then vplenty else VSpace true (λ _, true) false).

Definition small_extra (fits : bool) : extra_space := ExtraSpace true (λ _, VSpace fits (λ _, fits) fits) 300.

Lemma small_counted pageSize name : counted (small_storage pageSize) name.
Proof.
  unfold counted, records_of, small_storage. cbn [allRecords sizes]. destruct (decide (name = small_name)) as [->|Hne].
  - by rewrite !lookup_singleton_eq.
  - by rewrite !lookup_singleton_ne.
Qed.

Lemma small_roomy n : 0 < n → roomy (page_of n) (small_extra true) ∧ ∀ k, ps_push (page_of n k) 0 = vplenty.
Proof. intros Hn. split; [done|]. intros k. cbn. by destruct n; [lia|]. Qed.

Lemma small_bounded pageSize name : (Z.of_nat (length (buffered (records_of (small_storage pageSize) name))) ≤ 1073741824)%Z.
Proof.
  unfold records_of, small_storage. cbn [allRecords]. destruct (decide (name = small_name)) as [->|Hne].
  - by rewrite lookup_singleton_eq.
  - by rewrite lookup_singleton_ne.
Qed.

Lemma writeBackRecords_keeps_objects_witness :
  ∃ s', writeBackRecords (page_of 2) (small_extra true) small_name true (small_storage 636) = (Ret tt, s') ∧
    (ss_pages <$> sets s' !! small_name) = Some [([Some 1; Some 2], true); ([Some 3; Some 4], true)] ∧
    allRecords s' !! small_name = Some [Rec [Some 5] 300].
Proof.
  destruct (writeBackRecords_keeps_objects (page_of 2) (small_extra true) small_name true (small_storage 636) (StoredSet 636 [] 0))
    as (records & pages & drops & total & Hgo & _);
    [reflexivity|apply small_counted|apply small_roomy; lia|apply small_bounded|].
  eexists. split; [exact Hgo|]. apply (f_equal snd) in Hgo. cbn [snd] in Hgo. rewrite <-Hgo. split; vm_compute; reflexivity.
Defined.

(** Three requests; the second makes enough for a page. *)
Definition small_requests : list (request (O := nat)) :=
  [Request small_name true (Rec [Some 1; Some 2; Some 3] 15000) (page_of 2) (small_extra true);
   Request small_name true (Rec [Some 4; Some 5] 15000) (page_of 2) (small_extra true);
   Request small_name false (Rec [Some 6] 100) (page_of 2) (small_extra true)].

Definition small_start : storage nat := Storage ∅ ∅ {[small_name := StoredSet 636 [] 0]} 0 [].

Lemma added_objects_stored_witness :
  ∃ s1 s', add_requests small_requests small_start = (Ret tt, s1) ∧
    cleanup (λ _ _, (page_of 2, small_extra true)) false [small_name] s1 = (Ret tt, s') ∧
    ∃ pages, sets s' !! small_name = Some (StoredSet 636 pages 0) ∧
      (pages ≫= fst) ≡ₚ [Some 1; Some 2; Some 3; Some 4; Some 5; Some 6].
Proof.
  assert (Forall (request_ok small_start) small_requests) as Hq.
  { repeat constructor; cbn; try done; by eexists. }
  destruct (added_objects_stored small_requests small_start) as (s1 & Hgo & Hclean); [reflexivity|reflexivity|exact Hq| |].
  { intros name. unfold small_requests, added. rewrite !filter_cons. repeat case_decide; cbn; lia. }
  exists s1. destruct (Hclean (λ _ _, (page_of 2, small_extra true)) false [small_name]) as (s' & Hc & _ & _ & Hp);
    [apply (f_equal snd) in Hgo; cbn [snd] in Hgo; rewrite <-Hgo; vm_compute; reflexivity|intros; apply small_roomy; lia|intros; apply small_roomy; lia|].
  exists s'. split; [exact Hgo|]. split; [exact Hc|]. destruct (Hp small_name (StoredSet 636 [] 0)) as (pages & Hs & Hobj); [reflexivity|].
  exists pages. split; [exact Hs|exact Hobj].
Defined.

(** ** Where the server does worse *)

(** The exception of a record for what is left over that is too small is not
    caught: the objects of the page that has been released are still buffered,
    and the next call writes them to a page again. *)
Lemma leftover_exception_repeats :
  ∃ s1 s2, writeBackRecords (page_of 2) (small_extra false) small_name true (small_storage 4036) = (NotEnoughSpace, s1) ∧
    writeBackRecords (page_of 9) (small_extra true) small_name true s1 = (Ret tt, s2) ∧
    (ss_pages <$> sets s2 !! small_name) =
      Some [([Some 1; Some 2], true); ([Some 1; Some 2; Some 3; Some 4; Some 5], true)].
Proof. do 2 eexists. split; [vm_compute; reflexivity|]. split; vm_compute; reflexivity. Qed.

(** An object that does not fit on an empty page is gone, the set gets two pages
    without objects, and the request succeeds. *)
Lemma large_object_lost :
  ∃ s, handle_add_data (page_of 0) (small_extra true) small_name false true (Rec [Some 7] 20000)
      (Storage ∅ ∅ {[small_name := StoredSet 500 [] 0]} 0 []) = (Ret true, s) ∧
    (ss_pages <$> sets s !! small_name) = Some [([], true); ([], true)] ∧
    records_of s small_name = [] ∧ dropped s = [Some 7].
Proof. eexists. split; [vm_compute; reflexivity|]. split_and!; vm_compute; reflexivity. Qed.

(** The test of a direct put is for the size of the page with its header. *)
Lemma direct_put_overruns :
  fst (handle_add_data (page_of 9) (small_extra true) small_name true true (Rec [Some 7] 1020)
    (Storage ∅ ∅ {[small_name := StoredSet 1036 [] 0]} 0 [])) = Undefined.
Proof. vm_compute. reflexivity. Qed.
