(* ===== verification/StorageSets.v ===== *)
(** * StorageSets: the databases, types and sets a storage server knows

    Models the tables of [serverFunctionalities/source/PangeaStorageServer.cc]
    with [storage/source/DefaultDatabase.cc], [UserType.cc] and [TempSet.cc]:
    adding, finding and removing databases, types, sets and temporary sets, the
    request that clears a set, and the start of a server from the directories of
    metadata that another one left.  A set is its ids, its name and how it is
    stored; its pages are the matter of other files.  Of the disk only the
    directories under the root of the metadata are kept: a directory for each
    database, in it one for each type, in it a file for each set with the size of
    its pages.  Names have no slash, and paths are shorter than the buffers they
    are printed to. *)

From Stdlib Require Import Ascii.
From stdpp Require Import pretty.
From S2P Require Import Prelude.
From S2P Require Import LocalitySet.

(** ** Names of directories and files *)

(** [sprintf] with [%d] of an unsigned id. *)
Definition format_d (id : Z) : string :=
  if decide (id < 2147483648)%Z then pretty (Z.to_N id) else String "-"%char (pretty (Z.to_N (u32_modulus - id))).

(** [encodeDBPath], [encodeTypePath], [encodePath] without the directory. *)
Definition encodePath (id : Z) (name : string) : string := format_d id +:+ String "_"%char name.

Definition digit (c : ascii) : option Z :=
  let n := (Z.of_N (N_of_ascii c) - 48)%Z in if decide (0 ≤ n < 10)%Z then Some n else None.

Fixpoint digits (acc : Z) (s : string) : Z :=
  match s with
  | String c s' => match digit c with Some d => digits (10 * acc + d) s' | None => acc end
  | EmptyString => acc
  end.

Definition starts_with_digit (s : string) : bool :=
  match s with String c _ => bool_decide (is_Some (digit c)) | EmptyString => false end.

(** An exception that nobody catches ends the process. *)
Definition uncaught {A} : outcome A := Exit 134.

(** [stoul] of what is in front of the digits' end, with a sign at most. *)
Definition stoul (s : string) : outcome Z :=
  match s with
  | String "-"%char s' => if starts_with_digit s' then Ret (u64 (- digits 0 s')) else uncaught
  | _ => if starts_with_digit s then Ret (digits 0 s) else uncaught
  end.

(** In front of and behind the first [c]. *)
Fixpoint split_at (c : ascii) (s : string) : option (string * string) :=
  match s with
  | EmptyString => None
  | String a s' => if decide (a = c) then Some (EmptyString, s') else '(x, y) ← split_at c s'; Some (String a x, y)
  end.

Definition parse_id (dirName : string) : outcome Z :=
  u32 <$> stoul (match split_at "_"%char dirName with Some (x, _) => x | None => dirName end).

Definition parse_name (dirName : string) : string :=
  match split_at "_"%char dirName with Some (_, y) => y | None => String.substring 0 (String.length dirName - 1) dirName end.

(** ** State *)

Record user_set := MkSet {
  us_dbId : Z; us_typeId : Z; us_setId : Z; us_setName : string; us_pageSize : Z; us_desiredSize : Z;
  us_policy : ReplacementPolicy; us_persistence : PersistenceType; us_shared : bool
}.

Record user_type := MkType { ut_name : string; ut_id : Z; ut_sets : gmap Z user_set; ut_numSets : Z }.

Record database := MkDb { db_id : Z; db_name : string; db_types : gmap Z user_type }.

Inductive mutex := databaseLock | typeLock | tempsetLock | usersetLock.

#[export] Instance mutex_eq_dec : EqDecision mutex.
Proof. solve_decision. Defined.

(** [held] are the mutexes that are locked, [disk] the directories. *)
Record server := MkServer {
  dbs : gmap Z database;
  name2id : gmap string Z;
  typename2id : gmap string Z;
  usersetSeqIds : gmap string Z;
  databaseSeqId : Z;
  userSets : gmap (Z * Z) user_set;
  names2ids : gmap (string * string) (Z * Z);
  tempSets : gmap Z string;
  name2tempSetId : gmap string Z;
  tempsetSeqId : Z;
  held : list mutex;
  disk : gmap string (gmap string (gmap string Z))
}.

Definition set_dbs x s := MkServer x (name2id s) (typename2id s) (usersetSeqIds s) (databaseSeqId s) (userSets s) (names2ids s) (tempSets s) (name2tempSetId s) (tempsetSeqId s) (held s) (disk s).
Definition set_name2id x s := MkServer (dbs s) x (typename2id s) (usersetSeqIds s) (databaseSeqId s) (userSets s) (names2ids s) (tempSets s) (name2tempSetId s) (tempsetSeqId s) (held s) (disk s).
Definition set_typename2id x s := MkServer (dbs s) (name2id s) x (usersetSeqIds s) (databaseSeqId s) (userSets s) (names2ids s) (tempSets s) (name2tempSetId s) (tempsetSeqId s) (held s) (disk s).
Definition set_usersetSeqIds x s := MkServer (dbs s) (name2id s) (typename2id s) x (databaseSeqId s) (userSets s) (names2ids s) (tempSets s) (name2tempSetId s) (tempsetSeqId s) (held s) (disk s).
Definition set_databaseSeqId x s := MkServer (dbs s) (name2id s) (typename2id s) (usersetSeqIds s) x (userSets s) (names2ids s) (tempSets s) (name2tempSetId s) (tempsetSeqId s) (held s) (disk s).
Definition set_sets x y s := MkServer (dbs s) (name2id s) (typename2id s) (usersetSeqIds s) (databaseSeqId s) x y (tempSets s) (name2tempSetId s) (tempsetSeqId s) (held s) (disk s).
Definition set_temp x y z s := MkServer (dbs s) (name2id s) (typename2id s) (usersetSeqIds s) (databaseSeqId s) (userSets s) (names2ids s) x y z (held s) (disk s).
Definition set_held x s := MkServer (dbs s) (name2id s) (typename2id s) (usersetSeqIds s) (databaseSeqId s) (userSets s) (names2ids s) (tempSets s) (name2tempSetId s) (tempsetSeqId s) x (disk s).
Definition set_disk x s := MkServer (dbs s) (name2id s) (typename2id s) (usersetSeqIds s) (databaseSeqId s) (userSets s) (names2ids s) (tempSets s) (name2tempSetId s) (tempsetSeqId s) (held s) x.

Local Abbreviation M := (M server).

(** Taking a lock one holds and releasing one nobody holds is undefined. *)
Definition lock (m : mutex) : M unit :=
  s ← get; if decide (m ∈ held s) then lift Undefined else put (set_held (m :: held s) s).
Definition unlock (m : mutex) : M unit :=
  s ← get; if decide (m ∈ held s) then put (set_held (filter (λ m', m' ≠ m) (held s)) s) else lift Undefined.

(** [std::map::insert] leaves a key that is there alone. *)
Definition insert_new {K A} `{Countable K} (k : K) (v : A) (m : gmap K A) : gmap K A :=
  match m !! k with Some _ => m | None => <[k := v]> m end.

(** ** Databases *)

(** [addDatabase] of a name and an id; [createDir] leaves a directory that is
    there alone. *)
Definition addDatabase_id (dbName : string) (dbId : Z) : M bool :=
  s ← get;
  match dbs s !! dbId with
  | Some _ => mret false
  | None =>
      modify (λ s, set_disk (insert_new (encodePath dbId dbName) ∅ (disk s)) s) ;;
      lock databaseLock ;;
      modify (λ s, set_dbs (insert_new dbId (MkDb dbId dbName ∅) (dbs s)) s) ;;
      modify (λ s, set_name2id (insert_new dbName dbId (name2id s)) s) ;;
      modify (λ s, set_usersetSeqIds (insert_new dbName 0%Z (usersetSeqIds s)) s) ;;
      unlock databaseLock ;;
      mret true
  end.

Definition addDatabase (dbName : string) : M bool :=
  s ← get;
  match name2id s !! dbName with
  | Some _ => mret false
  | None =>
      lock databaseLock ;;
      dbId ← gets databaseSeqId;
      modify (λ s, set_databaseSeqId (u32 (databaseSeqId s + 1)) s) ;;
      unlock databaseLock ;;
      addDatabase_id dbName dbId
  end.

Definition clearDB (dbId : Z) (dbName : string) : M unit :=
  modify (λ s, set_disk (delete (encodePath dbId dbName) (disk s)) s).

Definition removeDatabase (dbName : string) : M bool :=
  s ← get;
  match name2id s !! dbName with
  | None => mret false
  | Some dbId =>
      match dbs s !! dbId with
      | None => mret false
      | Some db =>
          lock databaseLock ;;
          clearDB dbId (db_name db) ;;
          (if decide (is_Some (name2id s !! db_name db)) then mret tt else lift Undefined) ;;
          modify (λ s, set_name2id (delete (db_name db) (name2id s)) s) ;;
          modify (λ s, set_dbs (delete dbId (dbs s)) s) ;;
          (if decide (is_Some (usersetSeqIds s !! db_name db)) then mret tt else lift uncaught) ;;
          modify (λ s, set_usersetSeqIds (delete (db_name db) (usersetSeqIds s)) s) ;;
          unlock databaseLock ;;
          mret true
      end
  end.

Definition getDatabase (dbId : Z) (s : server) : option database := dbs s !! dbId.

(** ** Types *)

Definition addType (typeName : string) (typeId : Z) : M bool :=
  s ← get;
  match typename2id s !! typeName with
  | Some _ => mret false
  | None =>
      lock typeLock ;;
      modify (λ s, set_typename2id (insert_new typeName typeId (typename2id s)) s) ;;
      unlock typeLock ;;
      mret true
  end.

Definition removeType (typeName : string) : M bool :=
  s ← get;
  match typename2id s !! typeName with
  | None => mret false
  | Some _ =>
      lock typeLock ;;
      modify (λ s, set_typename2id (delete typeName (typename2id s)) s) ;;
      unlock typeLock ;;
      mret true
  end.

Definition getType (typeId : Z) (db : database) : option user_type := db_types db !! typeId.

Definition put_db (dbId : Z) (db : database) : M unit := modify (λ s, set_dbs (<[dbId := db]> (dbs s)) s).

(** [DefaultDatabase::addType]; the constructor of the type makes its
    directory. *)
Definition DefaultDatabase_addType (dbId : Z) (name : string) (id : Z) : M bool :=
  s ← get;
  match dbs s !! dbId with
  | None => lift Undefined
  | Some db =>
      match db_types db !! id with
      | Some _ => mret false
      | None =>
          modify (λ s, set_disk (alter (insert_new (encodePath id name) ∅) (encodePath dbId (db_name db)) (disk s)) s) ;;
          put_db dbId (MkDb (db_id db) (db_name db) (<[id := MkType name id ∅ 0]> (db_types db))) ;;
          mret true
      end
  end.

(** [DefaultDatabase::removeType]; [clearType] removes the directories of data
    only: [remove] does not delete a directory that is not empty. *)
Definition DefaultDatabase_removeType (dbId : Z) (id : Z) : M bool :=
  s ← get;
  match dbs s !! dbId with
  | None => lift Undefined
  | Some db =>
      match db_types db !! id with
      | None => mret false
      | Some _ => put_db dbId (MkDb (db_id db) (db_name db) (delete id (db_types db))) ;; mret true
      end
  end.

Definition removeTypeFromDatabase (dbName typeName : string) : M bool :=
  s ← get;
  match name2id s !! dbName, typename2id s !! typeName with
  | Some dbId, Some typeId => DefaultDatabase_removeType dbId typeId ;; mret true
  | _, _ => mret false
  end.

(** ** Sets *)

Definition getSet (databaseAndSet : string * string) (s : server) : option user_set :=
  ids ← names2ids s !! databaseAndSet; userSets s !! ids.

Definition getTempSet (setId : Z) (s : server) : option string := tempSets s !! setId.

(** [getSet] by ids; a temporary set is only its name. *)
Definition getSet_by_ids (dbId typeId setId : Z) (s : server) : option (user_set + string) :=
  if decide (dbId = 0 ∧ typeId = 0)%Z then inr <$> getTempSet setId s
  else inl <$> (db ← getDatabase dbId s; type ← getType typeId db; ut_sets type !! setId).

Definition with_sets (sets : gmap Z user_set) (n : Z) (type : user_type) : user_type := MkType (ut_name type) (ut_id type) sets n.
Definition with_type (id : Z) (type : user_type) (db : database) : database := MkDb (db_id db) (db_name db) (<[id := type]> (db_types db)).

(** The directory of a type is changed. *)
Definition in_type_dir (f : gmap string Z → gmap string Z) (db : database) (type : user_type) : M unit :=
  modify (λ s, set_disk (alter (alter f (encodePath (ut_id type) (ut_name type))) (encodePath (db_id db) (db_name db)) (disk s)) s).

(** [UserType::addSet]: the new file writes its metadata. *)
Definition UserType_addSet (dbId : Z) (db : database) (type : user_type) (setName : string) (setId pageSize desiredSize : Z)
    (isMRU isTransient isShared : bool) : M Z :=
  match ut_sets type !! setId with
  | Some _ => mret (-1)%Z
  | None =>
      let set := MkSet dbId (ut_id type) setId setName pageSize desiredSize (if isMRU then MRU else LRU)
                   (if isTransient then Transient else Persistent) isShared in
      in_type_dir (insert (encodePath setId setName) pageSize) db type ;;
      put_db dbId (with_type (ut_id type) (with_sets (<[setId := set]> (ut_sets type)) (ut_numSets type + 1) type) db) ;;
      mret 0%Z
  end.

(** [UserType::removeSet]: the files are removed. *)
Definition UserType_removeSet (dbId : Z) (db : database) (type : user_type) (setId : Z) : M Z :=
  match ut_sets type !! setId with
  | None => mret (-1)%Z
  | Some set =>
      in_type_dir (delete (encodePath setId (us_setName set))) db type ;;
      put_db dbId (with_type (ut_id type) (with_sets (delete setId (ut_sets type)) (ut_numSets type - 1) type) db) ;;
      mret 0%Z
  end.

Section sets.
(** [VTableMap::getIDByName]. *)
Context (getIDByName : string → Z).

Definition unknown_type : string := "UnknownUserData".

(** The name of the type under which a set of type [typeName] is stored. *)
Definition stored_type (typeName : string) : M string :=
  s ← get;
  match typename2id s !! typeName with
  | Some _ => mret typeName
  | None =>
      let typeId := getIDByName typeName in
      if decide (typeId ≤ 0 ∨ typeId = 8191)%Z then addType unknown_type (u32 (-1)) ;; mret unknown_type
      else addType typeName (u32 typeId) ;; mret typeName
  end.

Definition addSet_id (dbName typeName setName : string) (setId pageSize desiredSize : Z) (isMRU isTransient isShared : bool) : M bool :=
  s ← get;
  match getSet (dbName, setName) s, name2id s !! dbName with
  | Some _, _ => mret false
  | None, None => mret false
  | None, Some dbId =>
      typeName ← stored_type typeName;
      s ← get;
      match getDatabase dbId s, typename2id s !! typeName with
      | _, None => lift uncaught
      | None, _ => lift Undefined
      | Some db, Some typeId =>
          (match getType typeId db with
           | None => DefaultDatabase_addType dbId typeName typeId ;; mret tt
           | Some _ => mret tt
           end) ;;
          s ← get;
          match dbs s !! dbId with
          | None => lift Undefined
          | Some db =>
              match getType typeId db with
              | None => lift Undefined
              | Some type =>
                  match ut_sets type !! setId with
                  | Some _ => mret false
                  | None =>
                      UserType_addSet dbId db type setName setId pageSize desiredSize isMRU isTransient isShared ;;
                      s ← get;
                      match db ← dbs s !! dbId; type ← getType typeId db; ut_sets type !! setId with
                      | Some set =>
                          lock usersetLock ;;
                          modify (λ s, set_sets (insert_new (dbId, setId) set (userSets s))
                            (insert_new (dbName, setName) (dbId, setId) (names2ids s)) s) ;;
                          unlock usersetLock ;;
                          mret true
                      | None => lift Undefined
                      end
                  end
              end
          end
      end
  end.

(** [addSet] by name; a database that does not exist is added. *)
Definition addSet (dbName typeName setName : string) (pageSize desiredSize : Z) (isMRU isTransient isShared : bool) : M bool :=
  lock usersetLock ;;
  s ← get;
  (if decide (is_Some (usersetSeqIds s !! dbName)) then mret tt else unlock usersetLock ;; addDatabase dbName ;; mret tt) ;;
  s ← get;
  match usersetSeqIds s !! dbName with
  | None => lift uncaught
  | Some setId =>
      modify (λ s, set_usersetSeqIds (<[dbName := u32 (setId + 1)]> (usersetSeqIds s)) s) ;;
      unlock usersetLock ;;
      addSet_id dbName typeName setName setId pageSize desiredSize isMRU isTransient isShared
  end.

Definition removeSet (dbName setName : string) : M bool :=
  s ← get;
  match getSet (dbName, setName) s with
  | None => mret false
  | Some set =>
      match dbs s !! us_dbId set with
      | None => mret true
      | Some db =>
          lock usersetLock ;;
          match getType (us_typeId set) db with
          | None => lift Undefined
          | Some type =>
              UserType_removeSet (us_dbId set) db type (us_setId set) ;;
              modify (λ s, set_sets (delete (us_dbId set, us_setId set) (userSets s)) (delete (dbName, setName) (names2ids s)) s) ;;
              unlock usersetLock ;;
              mret true
          end
      end
  end.

(** [removeSet] with the name of the type. *)
Definition removeSet_typed (dbName typeName setName : string) : M bool :=
  s ← get;
  match name2id s !! dbName, typename2id s !! typeName with
  | None, _ => mret false
  | Some dbId, o =>
      match dbs s !! dbId, o with
      | None, _ => lift uncaught
      | Some _, None => mret false
      | Some db, Some typeId =>
          match getType typeId db with
          | None => mret true
          | Some type =>
              match getSet (dbName, setName) s with
              | None => mret false
              | Some set =>
                  lock usersetLock ;;
                  UserType_removeSet dbId db type (us_setId set) ;;
                  modify (λ s, set_sets (delete (dbId, us_setId set) (userSets s)) (delete (dbName, setName) (names2ids s)) s) ;;
                  unlock usersetLock ;;
                  mret true
              end
          end
      end
  end.

(** An enumeration passed as a [bool]. *)
Definition policy_as_bool (p : ReplacementPolicy) : bool := match p with LRU => false | _ => true end.
Definition persistence_as_bool (p : PersistenceType) : bool := match p with Transient => false | Persistent => true end.

(** The handler of [StorageClearSet], in a cluster. *)
Definition handle_clear_set (dbName typeName setName : string) : M bool :=
  s ← get;
  match getSet (dbName, setName) s with
  | None => mret false
  | Some set =>
      removed ← removeSet dbName setName;
      if removed : bool then
        addSet dbName typeName setName (us_pageSize set) (us_desiredSize set) (policy_as_bool (us_policy set))
          (persistence_as_bool (us_persistence set)) false
      else mret false
  end.

(** ** Temporary sets *)

(** The new id, or none if the name is taken. *)
Definition addTempSet (setName : string) : M (option Z) :=
  s ← get;
  match name2tempSetId s !! setName with
  | Some _ => mret None
  | None =>
      let setId := tempsetSeqId s in
      modify (λ s, set_temp (tempSets s) (name2tempSetId s) (u32 (tempsetSeqId s + 1)) s) ;;
      lock tempsetLock ;;
      modify (λ s, set_temp (insert_new setId setName (tempSets s)) (insert_new setName setId (name2tempSetId s)) (tempsetSeqId s) s) ;;
      unlock tempsetLock ;;
      mret (Some setId)
  end.

Definition removeTempSet (setId : Z) : M bool :=
  s ← get;
  match tempSets s !! setId with
  | None => mret false
  | Some setName =>
      lock tempsetLock ;;
      modify (λ s, set_temp (delete setId (tempSets s)) (delete setName (name2tempSetId s)) (tempsetSeqId s) s) ;;
      unlock tempsetLock ;;
      mret true
  end.
End sets.

(** ** Starting from the disk *)

Section start.
(** The order in which directories list their entries and maps of ids theirs. *)
Context (listing : ∀ A, gmap string A → list (string * A)) (in_order : ∀ A, gmap Z A → list (Z * A)).

(** [UserType::initializeFromMetaTypeDir]: the loop ends at an id that is
    there. *)
Fixpoint load_sets (dbId typeId : Z) (files : list (string * Z)) (sets : gmap Z user_set) : outcome (gmap Z user_set) :=
  match files with
  | [] => Ret sets
  | (file, pageSize) :: files =>
      setId ← parse_id file;
      match sets !! setId with
      | Some _ => Ret sets
      | None =>
          load_sets dbId typeId files
            (<[setId := MkSet dbId typeId setId (parse_name file) pageSize 1 LRU Persistent false]> sets)
      end
  end.

(** [DefaultDatabase::initializeFromMetaDBDir] and
    [addTypeByPartitionedFiles]. *)
Fixpoint load_types (dbId : Z) (dirs : list (string * gmap string Z)) (types : gmap Z user_type) : outcome (gmap Z user_type) :=
  match dirs with
  | [] => Ret types
  | (dir, files) :: dirs =>
      typeId ← parse_id dir;
      match types !! typeId with
      | Some _ => load_types dbId dirs types
      | None =>
          sets ← load_sets dbId typeId (listing _ files) ∅;
          load_types dbId dirs (<[typeId := MkType (parse_name dir) typeId sets (Z.of_nat (size sets))]> types)
      end
  end.

(** The tables get the types and sets of a database. *)
Definition enter_set (dbId : Z) (dbName : string) (e : Z * user_set) (s : server) : server :=
  set_sets (insert_new (dbId, e.1) e.2 (userSets s)) (insert_new (dbName, us_setName e.2) (dbId, e.1) (names2ids s)) s.

Definition enter_type (dbId : Z) (dbName : string) (e : Z * user_type) (s : server) : server :=
  foldl (λ s e, enter_set dbId dbName e s) (set_typename2id (insert_new (ut_name e.2) e.1 (typename2id s)) s)
    (in_order _ (ut_sets e.2)).

(** One more than the largest id of a set, or 0. *)
Definition next_set_id (types : gmap Z user_type) : Z :=
  foldr (λ e n, foldr (λ e n, Z.max n (u32 (e.1 + 1))) n (in_order _ (ut_sets e.2))) 0%Z (in_order _ types).

(** [addDatabaseByPartitionedFiles]. *)
Definition addDatabaseByPartitionedFiles (dbName : string) (dbId : Z) (dirs : gmap string (gmap string Z)) : M unit :=
  s ← get;
  match dbs s !! dbId with
  | Some _ => mret tt
  | None =>
      types ← lift (load_types dbId (listing _ dirs) ∅);
      modify (λ s, set_name2id (insert_new dbName dbId (name2id s)) (set_dbs (insert_new dbId (MkDb dbId dbName types) (dbs s)) s)) ;;
      modify (λ s, foldl (λ s e, enter_type dbId dbName e s) s (in_order _ types)) ;;
      modify (λ s, set_usersetSeqIds (insert_new dbName (next_set_id types) (usersetSeqIds s)) s)
  end.

(** [initializeFromRootDirs]: the next id of a database becomes the largest one
    that was found. *)
Fixpoint initializeFromRootDirs (dirs : list (string * gmap string (gmap string Z))) (maxDbId : Z) : M unit :=
  match dirs with
  | [] => mret tt
  | (dir, types) :: dirs =>
      dbId ← lift (parse_id dir);
      addDatabaseByPartitionedFiles (parse_name dir) dbId types ;;
      let maxDbId := Z.max maxDbId dbId in
      modify (set_databaseSeqId maxDbId) ;;
      initializeFromRootDirs dirs maxDbId
  end.

(** The constructor, with the directories [d]. *)
Definition PangeaStorageServer_new (d : gmap string (gmap string (gmap string Z))) : outcome server :=
  let s := MkServer ∅ ∅ ∅ ∅ 1 ∅ ∅ ∅ ∅ 0 [] d in
  match (initializeFromRootDirs (listing _ d) 0 ;; addType unknown_type 0) s with
  | (Ret _, s) => Ret s
  | (NotEnoughSpace, _) => NotEnoughSpace
  | (Exit c, _) => Exit c
  | (Undefined, _) => Undefined
  end.
End start.
