(* ===== verification/StorageSetsSpec.v ===== *)
(** * StorageSetsSpec: a storage server keeps its sets apart

    Proves that names of directories can be read back, and that the tables of a
    storage server agree with each other whatever databases and sets are added
    and removed.  What the tables stand for is in StorageCatalogue. *)

From Stdlib Require Import Ascii.
From stdpp Require Import pretty.
From S2P Require Import Prelude.
From S2P Require Import LocalitySet.
From S2P Require Import StorageSets.

(** ** Names of directories *)

Lemma digit_pretty x : (x < 10)%N → digit (pretty_N_char x) = Some (Z.of_N x).
Proof.
  intros Hx. assert (x = 0 ∨ x = 1 ∨ x = 2 ∨ x = 3 ∨ x = 4 ∨ x = 5 ∨ x = 6 ∨ x = 7 ∨ x = 8 ∨ x = 9)%N as Hc by lia.
  by repeat destruct Hc as [->|Hc]; subst.
Qed.

(** Induction over the digits of a number, from the last one. *)
Lemma pretty_N_go_ind (Q : N → string → Prop) :
  (∀ s, Q 0%N s) → (∀ x s, (0 < x)%N → Q (x / 10)%N (String (pretty_N_char (x mod 10)) s) → Q x s) → ∀ x s, Q x s.
Proof.
  intros H0 HS x. induction (N.lt_wf_0 x) as [x _ IH]. intros s.
  destruct (decide (x = 0)%N) as [->|Hx]; [done|]. apply HS; [lia|]. apply IH, N.div_lt; lia.
Qed.

Lemma mod_10_digit (x : N) : digit (pretty_N_char (x mod 10)) = Some (Z.of_N (x mod 10)).
Proof. apply digit_pretty. by apply N.mod_lt. Qed.

Lemma digits_pretty n : digits 0 (pretty n) = Z.of_N n.
Proof.
  assert (∀ x s, digits 0 (pretty_N_go x s) = digits (Z.of_N x) s) as Hgo.
  { apply (pretty_N_go_ind (λ x s, digits 0 (pretty_N_go x s) = digits (Z.of_N x) s)); [done|]. intros x s Hx IH.
    rewrite pretty_N_go_step, IH by done. cbn [digits]. rewrite mod_10_digit. f_equal.
    rewrite (N.div_mod x 10) at 3 by done. lia. }
  unfold pretty, pretty_N. case_decide as Hn; [by subst|apply Hgo].
Qed.

Lemma pretty_starts (n : N) : starts_with_digit (pretty n) = true.
Proof.
  assert (∀ x s, (0 < x)%N ∨ starts_with_digit s = true → starts_with_digit (pretty_N_go x s) = true) as Hgo.
  { apply (pretty_N_go_ind (λ x s, (0 < x)%N ∨ starts_with_digit s = true → starts_with_digit (pretty_N_go x s) = true)).
    - intros s [?|?]; [lia|done].
    - intros x s Hx IH _. rewrite pretty_N_go_step by done. apply IH. right. cbn. rewrite mod_10_digit. by apply bool_decide_eq_true. }
  unfold pretty, pretty_N. case_decide as Hn; [done|]. apply Hgo. left. lia.
Qed.

Lemma split_at_pretty (n : N) b : split_at "_"%char (pretty n +:+ String "_"%char b) = Some (pretty n, b).
Proof.
  assert (∀ x s, split_at "_"%char (s +:+ String "_"%char b) = Some (s, b) →
    split_at "_"%char (pretty_N_go x s +:+ String "_"%char b) = Some (pretty_N_go x s, b)) as Hgo.
  { apply (pretty_N_go_ind (λ x s, split_at "_"%char (s +:+ String "_"%char b) = Some (s, b) →
      split_at "_"%char (pretty_N_go x s +:+ String "_"%char b) = Some (pretty_N_go x s, b))); [done|].
    intros x s Hx IH Hs. rewrite pretty_N_go_step by done. apply IH. simpl. case_decide as Hc; [exfalso|by rewrite Hs].
    pose proof (mod_10_digit x) as Hd. by rewrite Hc in Hd. }
  unfold pretty, pretty_N. case_decide as Hn; [done|]. apply Hgo. done.
Qed.

Lemma stoul_digits s : starts_with_digit s = true → stoul s = Ret (digits 0 s).
Proof.
  destruct s as [|c s]; [done|]. intros Hs. unfold stoul. destruct (decide (c = "-"%char)) as [->|Hc]; [done|].
  rewrite Hs. by destruct c as [[] [] [] [] [] [] [] []].
Qed.

(** Any 32-bit id is read back, also one that is printed with a sign. *)
Lemma parse_encode id name :
  (0 ≤ id < u32_modulus)%Z → parse_id (encodePath id name) = Ret id ∧ parse_name (encodePath id name) = name.
Proof.
  intros Hid. unfold parse_id, parse_name, encodePath, format_d. case_decide as Hd.
  - rewrite split_at_pretty, stoul_digits, digits_pretty by apply pretty_starts. split; [|done]. cbn.
    rewrite Z2N.id by lia. by rewrite u32_small.
  - simpl. rewrite split_at_pretty. split; [|done]. cbn.
    rewrite pretty_starts, digits_pretty, Z2N.id by lia. cbn. f_equal. unfold u32, u64, u32_modulus, u64_modulus in *.
    rewrite Z.mod_opp_l_nz by (rewrite ?Z.mod_small; lia). rewrite !(Z.mod_small (4294967296 - id)) by lia.
    replace (18446744073709551616 - (4294967296 - id))%Z with (id + 4294967295 * 4294967296)%Z by lia.
    by rewrite Z_mod_plus_full, Z.mod_small.
Qed.

Lemma encodePath_inj id name id' name' :
  (0 ≤ id < u32_modulus)%Z → (0 ≤ id' < u32_modulus)%Z → encodePath id name = encodePath id' name' → id = id' ∧ name = name'.
Proof.
  intros H H' Heq. destruct (parse_encode id name H) as [E1 E2], (parse_encode id' name' H') as [E1' E2']. rewrite Heq in *.
  split; congruence.
Qed.

(** ** Invariant *)

Implicit Types (s : server) (db : database) (ty : user_type) (set : user_set) (d n : string) (i j t : Z).

(** The tables agree: every set is found by its name, by its ids and in the type
    of its database, and new ids are new.  At most [c] ids have been given out. *)
Record server_ok (c : Z) s : Prop := {
  so_held : held s = [];
  so_dbs i db : dbs s !! i = Some db → db_id db = i ∧ name2id s !! db_name db = Some i ∧ (1 ≤ i < databaseSeqId s)%Z;
  so_names d i : name2id s !! d = Some i → ∃ db, dbs s !! i = Some db ∧ db_name db = d;
  so_seq d : is_Some (usersetSeqIds s !! d) ↔ is_Some (name2id s !! d);
  so_types i db t ty : dbs s !! i = Some db → db_types db !! t = Some ty → ut_id ty = t ∧ (0 ≤ t < u32_modulus)%Z;
  so_stored i db t ty j set : dbs s !! i = Some db → db_types db !! t = Some ty → ut_sets ty !! j = Some set →
    us_dbId set = i ∧ us_typeId set = t ∧ us_setId set = j ∧ userSets s !! (i, j) = Some set ∧
    names2ids s !! (db_name db, us_setName set) = Some (i, j);
  so_user i j set : userSets s !! (i, j) = Some set →
    ∃ db ty, dbs s !! i = Some db ∧ db_types db !! us_typeId set = Some ty ∧ ut_sets ty !! j = Some set;
  so_known k ids : names2ids s !! k = Some ids →
    ∃ set db, userSets s !! ids = Some set ∧ dbs s !! ids.1 = Some db ∧ k = (db_name db, us_setName set);
  so_fresh i j : is_Some (userSets s !! (i, j)) →
    ∃ db next, dbs s !! i = Some db ∧ usersetSeqIds s !! db_name db = Some next ∧ (0 ≤ j < next)%Z;
  so_unknown : is_Some (typename2id s !! unknown_type);
  so_typeIds n t : typename2id s !! n = Some t → (0 ≤ t < u32_modulus)%Z;
  so_dbSeq : (1 ≤ databaseSeqId s ≤ c + 1)%Z;
  so_setSeq d i : usersetSeqIds s !! d = Some i → (0 ≤ i ≤ c)%Z
}.

Lemma server_ok_more c c' s : (c ≤ c')%Z → server_ok c s → server_ok c' s.
Proof.
  intros Hc [H1 H2 H3 H4 H5 H6 H7 H8 H9 H10 H11 H12 H13]. split; try done; [lia|]. intros d i Hi. specialize (H13 d i Hi). lia.
Qed.

(** A set found by name is found by its ids. *)
Lemma getSet_agrees c s d n set :
  server_ok c s → getSet (d, n) s = Some set →
  ∃ db ty, us_setName set = n ∧ db_name db = d ∧ dbs s !! us_dbId set = Some db ∧
    db_types db !! us_typeId set = Some ty ∧ ut_id ty = us_typeId set ∧ ut_sets ty !! us_setId set = Some set ∧
    names2ids s !! (d, n) = Some (us_dbId set, us_setId set) ∧ userSets s !! (us_dbId set, us_setId set) = Some set ∧
    getSet_by_ids (us_dbId set) (us_typeId set) (us_setId set) s = Some (inl set).
Proof.
  intros H Hs. unfold getSet in Hs. destruct (names2ids s !! (d, n)) as [[i j]|] eqn:Hk; [|done]. cbn in Hs.
  destruct (so_known _ _ H _ _ Hk) as (set' & db & Hu & Hdb & Hname). cbn in Hdb. rewrite Hs in Hu. injection Hu as <-. injection Hname as -> ->.
  destruct (so_user _ _ H i j set Hs) as (db' & ty & Hdb' & Hty & Hj). rewrite Hdb in Hdb'. injection Hdb' as <-.
  destruct (so_stored _ _ H i db _ ty j set Hdb Hty Hj) as (<- & _ & <- & Hu & Hn).
  exists db, ty. split_and!; try done; [by apply (so_types _ _ H _ _ _ _ Hdb Hty)|].
  unfold getSet_by_ids. destruct (so_dbs _ _ H _ _ Hdb) as (_ & _ & Hi). rewrite decide_False by lia.
  unfold getDatabase, getType. rewrite Hdb. cbn. rewrite Hty. cbn. by rewrite Hj.
Qed.

Lemma getSet_None c s k : server_ok c s → getSet k s = None → names2ids s !! k = None.
Proof.
  intros H Hs. destruct (names2ids s !! k) as [ids|] eqn:Hk; [|done]. destruct (so_known _ _ H _ _ Hk) as (set & db & Hu & _).
  unfold getSet in Hs. rewrite Hk in Hs. cbn in Hs. congruence.
Qed.

(** Reads the fields of a state that is written out. *)
Ltac fields := cbn [dbs name2id typename2id usersetSeqIds databaseSeqId userSets names2ids tempSets name2tempSetId tempsetSeqId held disk
  set_dbs set_name2id set_typename2id set_usersetSeqIds set_databaseSeqId set_sets set_temp set_held set_disk].

(** ** Databases *)

Definition with_database d s : server :=
  let i := databaseSeqId s in
  MkServer (<[i := MkDb i d ∅]> (dbs s)) (<[d := i]> (name2id s)) (typename2id s) (<[d := 0%Z]> (usersetSeqIds s)) (i + 1)
    (userSets s) (names2ids s) (tempSets s) (name2tempSetId s) (tempsetSeqId s) [] (insert_new (encodePath i d) ∅ (disk s)).

Lemma insert_new_None {K A} `{Countable K} k (v : A) (m : gmap K A) : m !! k = None → insert_new k v m = <[k := v]> m.
Proof. intros Hk. unfold insert_new. by rewrite Hk. Qed.

Lemma lock_ok m s : held s = [] → lock m s = (Ret tt, set_held [m] s).
Proof. intros Hs. unfold lock. run. rewrite Hs. by rewrite decide_False by apply not_elem_of_nil. Qed.

Lemma unlock_ok m s : held s = [m] → unlock m s = (Ret tt, set_held [] s).
Proof.
  intros Hs. unfold unlock. run. rewrite Hs, decide_True by set_solver.
  rewrite filter_cons_False by (intros Hn; by apply Hn). done.
Qed.

Lemma server_eq (s : server) : held s = [] → set_held [] s = s.
Proof. destruct s. cbn. by intros ->. Qed.

Lemma new_database_id c s : server_ok c s → dbs s !! databaseSeqId s = None.
Proof.
  intros H. destruct (dbs s !! databaseSeqId s) as [db|] eqn:E; [|done]. destruct (so_dbs _ _ H _ _ E) as (_ & _ & ?). lia.
Qed.

Lemma addDatabase_ok c d s :
  server_ok c s → (c + 2 < u32_modulus)%Z →
  match name2id s !! d with
  | Some _ => addDatabase d s = (Ret false, s)
  | None => addDatabase d s = (Ret true, with_database d s)
  end.
Proof.
  intros H Hc. unfold addDatabase. run. destruct (name2id s !! d) as [i|] eqn:Hd; [done|]. run.
  rewrite (lock_ok _ _ (so_held _ _ H)). run. rewrite unlock_ok by done. run. unfold addDatabase_id. run.
  fields. rewrite (new_database_id c s H). run. rewrite lock_ok by done. run. rewrite unlock_ok by done. run.
  pose proof (so_dbSeq _ _ H) as Hseq. unfold with_database. cbn. rewrite u32_small by lia.
  rewrite (insert_new_None _ (MkDb _ _ _)), (insert_new_None d (databaseSeqId s)), (insert_new_None d 0%Z);
    [done| |done|by eapply new_database_id].
  destruct (usersetSeqIds s !! d) eqn:E; [|done]. destruct (proj1 (so_seq _ _ H d) ltac:(by rewrite E)) as [? ?]. congruence.
Qed.

Lemma with_database_ok c d s : server_ok c s → (0 ≤ c)%Z → name2id s !! d = None → server_ok (c + 1) (with_database d s).
Proof.
  intros H Hc Hd. pose proof (so_dbSeq _ _ H) as Hseq. pose proof (new_database_id c s H) as Hnew.
  set (i := databaseSeqId s) in *.
  assert (∀ i' db, dbs s !! i' = Some db → db_name db ≠ d) as Hname.
  { intros i' db Hdb <-. destruct (so_dbs _ _ H _ _ Hdb) as (_ & ? & _). congruence. }
  assert (∀ i' db, dbs s !! i' = Some db → i' ≠ i) as Hid by (intros i' db Hdb ->; congruence).
  split; cbn [dbs name2id typename2id usersetSeqIds databaseSeqId userSets names2ids held with_database]; fold i.
  - done.
  - intros i' db [[<- <-]|[Hne Hdb]]%lookup_insert_Some; cbn; [rewrite lookup_insert_eq; split_and!; (done || lia)|].
    destruct (so_dbs _ _ H _ _ Hdb) as (E1 & E2 & E3). rewrite lookup_insert_ne by (by apply not_eq_sym, (Hname i')). split_and!; (done || lia).
  - intros d' i' [[<- <-]|[Hne Hi]]%lookup_insert_Some; [exists (MkDb i d ∅); by rewrite lookup_insert_eq|].
    destruct (so_names _ _ H _ _ Hi) as (db & Hdb & Hn). exists db. rewrite lookup_insert_ne; [done|]. by apply not_eq_sym, (Hid i' db).
  - intros d'. destruct (decide (d = d')) as [<-|Hne]; [rewrite !lookup_insert_eq; by split|]. rewrite !lookup_insert_ne by done. apply H.
  - intros i' db t ty [[<- <-]|[Hne Hdb]]%lookup_insert_Some; [done|]. by apply (so_types _ _ H _ _ _ _ Hdb).
  - intros i' db t ty j set [[<- <-]|[Hne Hdb]]%lookup_insert_Some; [done|]. by apply (so_stored _ _ H).
  - intros i' j set Hu. destruct (so_user _ _ H _ _ _ Hu) as (db & ty & Hdb & ? & ?). exists db, ty.
    rewrite lookup_insert_ne by (by apply not_eq_sym, (Hid i' db)). done.
  - intros k ids Hk. destruct (so_known _ _ H _ _ Hk) as (set & db & ? & Hdb & ?). exists set, db.
    rewrite lookup_insert_ne by (by apply not_eq_sym, (Hid _ db)). done.
  - intros i' j Hu. destruct (so_fresh _ _ H _ _ Hu) as (db & next & Hdb & Hs & ?). exists db, next.
    rewrite !lookup_insert_ne; [done|by apply not_eq_sym, (Hname i')|by apply not_eq_sym, (Hid i' db)].
  - apply H.
  - apply H.
  - lia.
  - intros d' i' [[<- <-]|[Hne Hi]]%lookup_insert_Some; [lia|]. pose proof (so_setSeq _ _ H _ _ Hi). lia.
Qed.

Definition without_database i d s : server :=
  MkServer (delete i (dbs s)) (delete d (name2id s)) (typename2id s) (delete d (usersetSeqIds s)) (databaseSeqId s)
    (userSets s) (names2ids s) (tempSets s) (name2tempSetId s) (tempsetSeqId s) [] (delete (encodePath i d) (disk s)).

Lemma removeDatabase_ok c d s :
  server_ok c s →
  match name2id s !! d with
  | None => removeDatabase d s = (Ret false, s)
  | Some i => removeDatabase d s = (Ret true, without_database i d s)
  end.
Proof.
  intros H. unfold removeDatabase. run. destruct (name2id s !! d) as [i|] eqn:Hd; [|done].
  destruct (so_names _ _ H _ _ Hd) as (db & Hdb & <-). rewrite Hdb. run. rewrite (lock_ok _ _ (so_held _ _ H)). run.
  unfold clearDB. run. rewrite decide_True by (by rewrite Hd). run. 
  rewrite decide_True by (apply H; by rewrite Hd). run. by rewrite unlock_ok.
Qed.

Lemma without_database_ok c i d s :
  server_ok c s → name2id s !! d = Some i → (∀ n, names2ids s !! (d, n) = None) → server_ok c (without_database i d s).
Proof.
  intros H Hd Hno. destruct (so_names _ _ H _ _ Hd) as (db & Hdb & Hname).
  assert (∀ i' db', dbs s !! i' = Some db' → i' ≠ i → db_name db' ≠ d) as Hother.
  { intros i' db' Hdb' Hne Hn. destruct (so_dbs _ _ H _ _ Hdb') as (_ & E & _). congruence. }
  assert (∀ j set, userSets s !! (i, j) ≠ Some set) as Hempty.
  { intros j set Hu. destruct (so_user _ _ H _ _ _ Hu) as (db' & ty & Hdb' & Hty & Hj).
    destruct (so_stored _ _ H _ _ _ _ _ _ Hdb' Hty Hj) as (_ & _ & _ & _ & Hn). rewrite Hdb in Hdb'. injection Hdb' as <-.
    rewrite Hname, Hno in Hn. done. }
  split; cbn [dbs name2id typename2id usersetSeqIds databaseSeqId userSets names2ids held without_database].
  - done.
  - intros i' db' [Hne Hdb']%lookup_delete_Some. destruct (so_dbs _ _ H _ _ Hdb') as (E1 & E2 & E3).
    rewrite lookup_delete_ne by (by apply not_eq_sym, (Hother i')). done.
  - intros d' i' [Hne Hi]%lookup_delete_Some. destruct (so_names _ _ H _ _ Hi) as (db' & Hdb' & Hn). exists db'.
    rewrite lookup_delete_ne; [done|]. intros <-. congruence.
  - intros d'. destruct (decide (d = d')) as [<-|Hne]; [by rewrite !lookup_delete_eq|]. rewrite !lookup_delete_ne by done. apply H.
  - intros i' db' t ty [Hne Hdb']%lookup_delete_Some. by apply (so_types _ _ H _ _ _ _ Hdb').
  - intros i' db' t ty j set [Hne Hdb']%lookup_delete_Some. by apply (so_stored _ _ H).
  - intros i' j set Hu. destruct (so_user _ _ H _ _ _ Hu) as (db' & ty & Hdb' & ? & ?). exists db', ty.
    rewrite lookup_delete_ne by (intros <-; by apply (Hempty j set)). done.
  - intros k ids Hk. destruct (so_known _ _ H _ _ Hk) as (set & db' & Hu & Hdb' & ?). exists set, db'. destruct ids as [i' j].
    cbn in *. rewrite lookup_delete_ne by (intros <-; by apply (Hempty j set)). done.
  - intros i' j Hu. destruct (so_fresh _ _ H _ _ Hu) as (db' & next & Hdb' & Hs & ?). exists db', next. destruct Hu as [set Hu].
    assert (i' ≠ i) by (intros ->; by apply (Hempty j set)). rewrite !lookup_delete_ne; try done. by apply not_eq_sym, (Hother i').
  - apply H.
  - apply H.
  - apply H.
  - intros d' i' [Hne Hi]%lookup_delete_Some. by apply (so_setSeq _ _ H _ _ Hi).
Qed.

(** ** Sets *)

Section sets.
Context (getIDByName : string → Z).

Lemma map_alter_alter {K A} `{Countable K} (f g : A → A) k (m : gmap K A) : alter f k (alter g k m) = alter (λ x, f (g x)) k m.
Proof.
  apply map_eq. intros k'. destruct (decide (k = k')) as [<-|Hne]; [|by rewrite !lookup_alter_ne].
  rewrite !lookup_alter_eq. by destruct (m !! k).
Qed.

Lemma addType_ok tn t s :
  held s = [] →
  ∃ b, addType tn t s = (Ret b, set_typename2id (insert_new tn t (typename2id s)) s).
Proof.
  intros Hh. unfold addType, insert_new. run. destruct (typename2id s !! tn) as [k|] eqn:E.
  - exists false. run. f_equal. by destruct s.
  - exists true. run. rewrite lock_ok by done. run. rewrite unlock_ok by done. run. unfold insert_new. fields. rewrite E.
    f_equal. destruct s. cbn in *. by rewrite Hh.
Qed.

Definition types_kept s (m : gmap string Z) : Prop :=
  (∀ tn k, typename2id s !! tn = Some k → m !! tn = Some k) ∧ ∀ tn k, m !! tn = Some k → (0 ≤ k < u32_modulus)%Z.

Lemma insert_new_kept c s tn t : server_ok c s → (0 ≤ t < u32_modulus)%Z → types_kept s (insert_new tn t (typename2id s)).
Proof.
  intros H Ht. unfold insert_new. destruct (typename2id s !! tn) eqn:E; [split; [done|apply H]|]. split.
  - intros tn' k Hk. rewrite lookup_insert_ne; [done|]. intros <-. congruence.
  - intros tn' k [[<- <-]|[_ ?]]%lookup_insert_Some; [done|by eapply so_typeIds].
Qed.

Lemma stored_type_ok c tn s :
  server_ok c s →
  ∃ tn' m t, stored_type getIDByName tn s = (Ret tn', set_typename2id m s) ∧ types_kept s m ∧ m !! tn' = Some t.
Proof.
  intros H. unfold stored_type. run. pose proof (so_held _ _ H) as Hh. destruct (typename2id s !! tn) as [k|] eqn:E.
  { exists tn, (typename2id s), k. split; [|split; [split; [done|apply H]|done]]. run. f_equal. by destruct s. }
  destruct (so_unknown _ _ H) as [u Hu]. case_decide.
  - destruct (addType_ok unknown_type (u32 (-1)) s Hh) as [b Hb]. rewrite M_bind_unfold, Hb.
    eexists _, _, u. split; [done|]. split; [by apply (insert_new_kept c), u32_range|]. unfold insert_new. by rewrite Hu.
  - destruct (addType_ok tn (u32 (getIDByName tn)) s Hh) as [b Hb]. rewrite M_bind_unfold, Hb.
    eexists _, _, (u32 (getIDByName tn)). split; [done|]. split; [by apply (insert_new_kept c), u32_range|].
    unfold insert_new. by rewrite E, lookup_insert_eq.
Qed.

(** A set is added to a type of a database. *)
Definition with_set db ty set (m : gmap string Z) dk s : server :=
  MkServer (<[us_dbId set := with_type (us_typeId set) (with_sets (<[us_setId set := set]> (ut_sets ty)) (ut_numSets ty + 1) ty) db]> (dbs s))
    (name2id s) m (usersetSeqIds s) (databaseSeqId s) (<[(us_dbId set, us_setId set) := set]> (userSets s))
    (<[(db_name db, us_setName set) := (us_dbId set, us_setId set)]> (names2ids s))
    (tempSets s) (name2tempSetId s) (tempsetSeqId s) [] dk.

(** The type is there, with its directory, or new. *)
Definition type_there db t ty (g : gmap string (gmap string Z) → gmap string (gmap string Z)) : Prop :=
  (db_types db !! t = Some ty ∧ ut_id ty = t ∧ g = id) ∨
  (∃ name, db_types db !! t = None ∧ ty = MkType name t ∅ 0 ∧ g = insert_new (encodePath t name) ∅).

Lemma addSet_id_ok c d tn n j ps ds mru tr sh s i :
  server_ok c s → getSet (d, n) s = None → name2id s !! d = Some i → userSets s !! (i, j) = None →
  ∃ db t ty m g,
    let set := MkSet i t j n ps ds (if mru : bool then MRU else LRU) (if tr : bool then Transient else Persistent) sh in
    addSet_id getIDByName d tn n j ps ds mru tr sh s =
      (Ret true, with_set db ty set m
        (alter (λ td, alter (insert (encodePath j n) ps) (encodePath t (ut_name ty)) (g td)) (encodePath i d) (disk s)) s) ∧
    dbs s !! i = Some db ∧ db_name db = d ∧ (0 ≤ t < u32_modulus)%Z ∧ types_kept s m ∧ type_there db t ty g.
Proof.
  intros H Hget Hd Hnew. pose proof (so_held _ _ H) as Hh. destruct (so_names _ _ H _ _ Hd) as (db & Hdb & Hname).
  destruct (so_dbs _ _ H _ _ Hdb) as (Hid & _ & _).
  unfold addSet_id. run. rewrite Hget, Hd. destruct (stored_type_ok c tn s H) as (tn' & m & t & Hst & Hm & Ht).
  rewrite M_bind_unfold, Hst. run. unfold getDatabase. fields. rewrite Hdb, Ht. destruct (proj2 Hm _ _ Ht) as [Hr1 Hr2].
  assert (∀ ty, db_types db !! t = Some ty → ut_sets ty !! j = None) as Hty.
  { intros ty E. destruct (ut_sets ty !! j) as [set|] eqn:Ej; [|done]. destruct (so_stored _ _ H _ _ _ _ _ _ Hdb E Ej) as (_ & _ & _ & ? & _). congruence. }
  pose proof (getSet_None c s (d, n) H Hget) as Hk.
  unfold getType. destruct (db_types db !! t) as [ty|] eqn:E.
  - destruct (so_types _ _ H _ _ _ _ Hdb E) as [Hut _].
    exists db, t, ty, m, id. cbn zeta. split; [|split_and!; try done; by left].
    run. fields. rewrite Hdb, E, (Hty ty eq_refl). run. unfold UserType_addSet. rewrite (Hty ty eq_refl). unfold in_type_dir, put_db. run.
    fields. rewrite lookup_insert_eq. cbn. rewrite Hut, lookup_insert_eq. cbn. rewrite lookup_insert_eq.
    rewrite M_bind_unfold, lock_ok by done. run. rewrite unlock_ok by done. run. unfold with_set. fields. cbn.
    rewrite !insert_new_None by done. by rewrite Hid, Hname.
  - exists db, t, (MkType tn' t ∅ 0), m, (insert_new (encodePath t tn') ∅). cbn zeta.
    split; [|split_and!; try done; right; by exists tn'].
    unfold DefaultDatabase_addType. run. fields. rewrite Hdb, E. unfold put_db. run. fields. rewrite lookup_insert_eq. cbn. rewrite lookup_insert_eq.
    cbn. rewrite lookup_empty. unfold UserType_addSet. cbn. rewrite lookup_empty. unfold in_type_dir, put_db. run. fields.
    rewrite lookup_insert_eq. cbn. rewrite lookup_insert_eq. cbn. rewrite lookup_insert_eq.
    rewrite M_bind_unfold, lock_ok by done. run. rewrite unlock_ok by done. run. unfold with_set, with_type, with_sets. fields. cbn.
    rewrite !insert_new_None by done. rewrite !insert_insert_eq, Hid, Hname. by rewrite map_alter_alter.
Qed.

Lemma with_set_ok c db t ty set m g dk s next :
  server_ok c s → dbs s !! us_dbId set = Some db → us_typeId set = t → (0 ≤ t < u32_modulus)%Z →
  types_kept s m → type_there db t ty g → names2ids s !! (db_name db, us_setName set) = None →
  userSets s !! (us_dbId set, us_setId set) = None →
  usersetSeqIds s !! db_name db = Some next → (0 ≤ us_setId set < next)%Z →
  server_ok c (with_set db ty set m dk s).
Proof.
  intros H Hdb Ht Htr Hm Hthere Hno Hnew Hnext Hj. set (i := us_dbId set) in *. set (j := us_setId set) in *.
  destruct (so_dbs _ _ H _ _ Hdb) as (Hid & Hname & Hi).
  set (ty' := with_sets (<[j := set]> (ut_sets ty)) (ut_numSets ty + 1) ty). set (db' := with_type t ty' db).
  assert (ut_id ty = t) as Hty by (destruct Hthere as [(_ & ? & _)|(? & _ & -> & _)]; done).
  assert (∀ j' set', ut_sets ty !! j' = Some set' → db_types db !! t = Some ty) as Hold.
  { intros j' set' E. destruct Hthere as [(? & _ & _)|(? & _ & -> & _)]; [done|]. cbn in E. by rewrite lookup_empty in E. }
  assert (∀ i' db1 t' ty1, <[i := db']> (dbs s) !! i' = Some db1 → db_types db1 !! t' = Some ty1 →
    (i' = i ∧ db1 = db' ∧ t' = t ∧ ty1 = ty') ∨
    ∃ db0, dbs s !! i' = Some db0 ∧ db_name db0 = db_name db1 ∧ db_types db0 !! t' = Some ty1 ∧ (i' ≠ i ∨ t' ≠ t)) as Hcases.
  { intros i' db1 t' ty1 [[<- <-]|[Hne Hdb1]]%lookup_insert_Some E; [|right; exists db1; by split_and!; [| | |left]].
    cbn in E. apply lookup_insert_Some in E as [[<- <-]|[Hne E]]; [by left|]. right. exists db. split_and!; try done. by right. }
  assert (∀ i' db0 t' ty0 j' set', dbs s !! i' = Some db0 → db_types db0 !! t' = Some ty0 → ut_sets ty0 !! j' = Some set' →
    <[(i, j) := set]> (userSets s) !! (i', j') = Some set' ∧
    <[(db_name db, us_setName set) := (i, j)]> (names2ids s) !! (db_name db0, us_setName set') = Some (i', j')) as Hkeep.
  { intros i' db0 t' ty0 j' set' Hdb0 E0 Ej. destruct (so_stored _ _ H _ _ _ _ _ _ Hdb0 E0 Ej) as (_ & _ & _ & Hu & Hn).
    rewrite !lookup_insert_ne; [done| |]; intros Heq; rewrite ?Heq in *; congruence. }
  split; cbn [dbs name2id typename2id usersetSeqIds databaseSeqId userSets names2ids held with_set]; fold i j; rewrite ?Ht; fold ty' db'.
  - done.
  - intros i' db1 [[<- <-]|[Hne Hdb1]]%lookup_insert_Some; [done|]. by apply H.
  - intros d' i' Hd'. destruct (so_names _ _ H _ _ Hd') as (db0 & Hdb0 & Hn0). destruct (decide (i' = i)) as [->|Hne].
    + exists db'. rewrite lookup_insert_eq. split; [done|]. cbn. congruence.
    + exists db0. by rewrite lookup_insert_ne.
  - apply H.
  - intros i' db1 t' ty1 Hdb1 E. destruct (Hcases _ _ _ _ Hdb1 E) as [(_ & _ & -> & ->)|(db0 & Hdb0 & _ & E0 & _)]; [done|].
    by apply (so_types _ _ H _ _ _ _ Hdb0).
  - intros i' db1 t' ty1 j' set' Hdb1 E Ej. destruct (Hcases _ _ _ _ Hdb1 E) as [(-> & -> & -> & ->)|(db0 & Hdb0 & <- & E0 & _)].
    + cbn in Ej. apply lookup_insert_Some in Ej as [[<- <-]|[Hne Ej]]; [split_and!; try done; by rewrite lookup_insert_eq|].
      pose proof (Hold _ _ Ej) as E0. destruct (so_stored _ _ H _ _ _ _ _ _ Hdb E0 Ej) as (? & ? & ? & _ & _).
      destruct (Hkeep _ _ _ _ _ _ Hdb E0 Ej). done.
    + destruct (so_stored _ _ H _ _ _ _ _ _ Hdb0 E0 Ej) as (? & ? & ? & _ & _). destruct (Hkeep _ _ _ _ _ _ Hdb0 E0 Ej). done.
  - intros i' j' set' [[[= <- <-] <-]|[Hne Hu]]%lookup_insert_Some.
    { exists db', ty'. rewrite Ht. cbn. by rewrite !lookup_insert_eq. }
    destruct (so_user _ _ H _ _ _ Hu) as (db0 & ty0 & Hdb0 & E0 & Ej). destruct (decide (i' = i)) as [->|Hni].
    + rewrite Hdb in Hdb0. injection Hdb0 as <-. destruct (decide (us_typeId set' = t)) as [Heq|Hnt].
      * exists db', ty'. rewrite Heq in *. cbn. rewrite !lookup_insert_eq. split_and!; try done. rewrite lookup_insert_ne by congruence.
        destruct Hthere as [(E1 & _ & _)|(? & E1 & _ & _)]; rewrite E1 in E0; [by injection E0 as <-|done].
      * exists db', ty0. rewrite lookup_insert_eq. split_and!; try done. cbn. by rewrite lookup_insert_ne.
    + exists db0, ty0. by rewrite lookup_insert_ne.
  - intros k ids [[<- <-]|[Hne Hk]]%lookup_insert_Some.
    { exists set, db'. cbn. by rewrite !lookup_insert_eq. }
    destruct (so_known _ _ H _ _ Hk) as (set' & db0 & Hu & Hdb0 & ->). exists set'.
    assert (ids ≠ (i, j)) as Hids by (intros ->; congruence). rewrite (lookup_insert_ne _ (i, j)) by done.
    destruct (decide (ids.1 = i)) as [Heq|Hni].
    + exists db'. rewrite Heq in *. rewrite lookup_insert_eq. split_and!; try done. rewrite Hdb in Hdb0. by injection Hdb0 as <-.
    + exists db0. by rewrite lookup_insert_ne.
  - intros i' j' [set' [[[= <- <-] <-]|[Hne Hu]]%lookup_insert_Some].
    { exists db', next. by rewrite lookup_insert_eq. }
    destruct (so_fresh _ _ H _ _ (mk_is_Some _ _ Hu)) as (db0 & nx & Hdb0 & ? & ?). destruct (decide (i' = i)) as [->|Hni].
    + exists db', nx. rewrite lookup_insert_eq. rewrite Hdb in Hdb0. by injection Hdb0 as <-.
    + exists db0, nx. by rewrite lookup_insert_ne.
  - destruct (so_unknown _ _ H) as [u Hu]. exists u. by apply Hm.
  - apply Hm.
  - apply H.
  - apply H.
Qed.

Lemma names_taken c s k : server_ok c s → names2ids s !! k = None ↔ getSet k s = None.
Proof.
  intros H. split; [|by apply (getSet_None c)]. intros Hk. unfold getSet. by rewrite Hk.
Qed.

(** The next id of a database is one larger. *)
Lemma next_id_ok c d i s :
  server_ok c s → usersetSeqIds s !! d = Some i → server_ok (c + 1) (set_usersetSeqIds (<[d := (i + 1)%Z]> (usersetSeqIds s)) s).
Proof.
  intros H Hi. destruct (so_setSeq _ _ H _ _ Hi) as [? ?]. split; fields; try apply (server_ok_more c); try done; try lia; try apply H.
  - intros d'. destruct (decide (d = d')) as [<-|Hne]; [|rewrite lookup_insert_ne by done; apply H].
    rewrite lookup_insert_eq, <-(so_seq _ _ H), Hi. done.
  - intros i' j Hu. destruct (so_fresh _ _ H _ _ Hu) as (db & nx & Hdb & Hnx & ?).
    destruct (decide (d = db_name db)) as [->|Hne].
    + exists db, (i + 1)%Z. rewrite lookup_insert_eq. split_and!; try done; rewrite Hi in Hnx; injection Hnx as <-; lia.
    + exists db, nx. by rewrite lookup_insert_ne.
  - intros d' i' [[<- <-]|[_ Hi']]%lookup_insert_Some; [lia|]. pose proof (so_setSeq _ _ H _ _ Hi'). lia.
Qed.

(** What is known of a set by its name. *)
Definition set_info : Type := Z * Z * ReplacementPolicy * PersistenceType * bool.
Definition info set : set_info := (us_pageSize set, us_desiredSize set, us_policy set, us_persistence set, us_shared set).

Definition new_info (ps ds : Z) (mru tr sh : bool) : set_info := (ps, ds, if mru then MRU else LRU, if tr then Transient else Persistent, sh).

(** What of the tables the operations on sets leave alone. *)
Definition same_rest s s' : Prop :=
  name2id s' = name2id s ∧ tempSets s' = tempSets s ∧ name2tempSetId s' = name2tempSetId s ∧ tempsetSeqId s' = tempsetSeqId s.

Definition sets_are (f : gmap (string * string) set_info) s : Prop := ∀ k, info <$> getSet k s = f !! k.

Lemma addSet_ok c d tn n ps ds mru tr sh s f :
  server_ok c s → (c + 1 < u32_modulus)%Z → is_Some (name2id s !! d) → sets_are f s →
  ∃ s', addSet getIDByName d tn n ps ds mru tr sh s = (Ret (bool_decide (getSet (d, n) s = None)), s') ∧
    server_ok (c + 1) s' ∧ same_rest s s' ∧
    sets_are (if decide (getSet (d, n) s = None) then <[(d, n) := new_info ps ds mru tr sh]> f else f) s'.
Proof.
  intros H Hc [i Hd] Hf. pose proof (so_held _ _ H) as Hh. destruct (proj2 (so_seq _ _ H d) (mk_is_Some _ _ Hd)) as [j Hj].
  destruct (so_setSeq _ _ H _ _ Hj) as [Hj0 Hjc]. pose proof (next_id_ok c d j s H Hj) as H1.
  set (s1 := set_usersetSeqIds (<[d := (j + 1)%Z]> (usersetSeqIds s)) s) in *.
  assert (addSet getIDByName d tn n ps ds mru tr sh s = addSet_id getIDByName d tn n j ps ds mru tr sh s1) as ->.
  { unfold addSet. rewrite M_bind_unfold, lock_ok by done. run. fields. rewrite decide_True by (by exists j). run. fields. rewrite Hj. run.
    rewrite unlock_ok by done. run. f_equal. unfold s1. rewrite (u32_small (j + 1)) by lia. destruct s. cbn in *. by rewrite Hh. }
  assert (getSet (d, n) s1 = getSet (d, n) s) as Heq by done.
  destruct (getSet (d, n) s) as [set0|] eqn:Hget.
  { exists s1. rewrite decide_False by done. split_and!; try done. unfold addSet_id. run. by rewrite Heq. }
  assert (userSets s !! (i, j) = None) as Hnew.
  { destruct (userSets s !! (i, j)) eqn:E; [|done]. destruct (so_fresh _ _ H _ _ (mk_is_Some _ _ E)) as (db & nx & Hdb & Hnx & ?).
    destruct (so_names _ _ H _ _ Hd) as (db' & Hdb' & <-). rewrite Hdb in Hdb'. injection Hdb' as <-. rewrite Hj in Hnx. injection Hnx as <-. lia. }
  destruct (addSet_id_ok (c + 1) d tn n j ps ds mru tr sh s1 i H1 Heq Hd Hnew) as (db & t & ty & m & g & Hrun & Hdb & Hname & Ht & Hm & Hth).
  cbn zeta in Hrun. rewrite Hrun. eexists. split; [by rewrite bool_decide_true|]. pose proof (getSet_None _ _ _ H Hget) as Hk.
  split; [|split; [done|]].
  - apply (with_set_ok (c + 1) db t ty _ m g _ s1 (j + 1)); cbn; try done; [by rewrite Hname|by rewrite Hname, lookup_insert_eq|lia].
  - rewrite decide_True by done. intros k. destruct (decide (k = (d, n))) as [->|Hne].
    + unfold getSet. cbn. rewrite Hname, !lookup_insert_eq. cbn. by rewrite lookup_insert_eq.
    + rewrite lookup_insert_ne by done. rewrite <-(Hf k). unfold getSet. cbn. rewrite Hname, lookup_insert_ne by done.
      destruct (names2ids s !! k) as [ids|] eqn:E; [|done]. cbn. destruct (so_known _ _ H _ _ E) as (? & ? & Hu & _).
      rewrite lookup_insert_ne; [done|]. intros <-. congruence.
Qed.

(** A set is removed from its type. *)
Definition without_set db ty set dk s : server :=
  MkServer (<[us_dbId set := with_type (us_typeId set) (with_sets (delete (us_setId set) (ut_sets ty)) (ut_numSets ty - 1) ty) db]> (dbs s))
    (name2id s) (typename2id s) (usersetSeqIds s) (databaseSeqId s) (delete (us_dbId set, us_setId set) (userSets s))
    (delete (db_name db, us_setName set) (names2ids s))
    (tempSets s) (name2tempSetId s) (tempsetSeqId s) [] dk.

Lemma without_set_ok c db ty set dk s :
  server_ok c s → dbs s !! us_dbId set = Some db → db_types db !! us_typeId set = Some ty → ut_sets ty !! us_setId set = Some set →
  server_ok c (without_set db ty set dk s).
Proof.
  intros H Hdb Hty Hj. set (i := us_dbId set) in *. set (j := us_setId set) in *. set (t := us_typeId set) in *.
  set (ty' := with_sets (delete j (ut_sets ty)) (ut_numSets ty - 1) ty). set (db' := with_type t ty' db).
  destruct (so_dbs _ _ H _ _ Hdb) as (Hid & Hname & Hi). destruct (so_types _ _ H _ _ _ _ Hdb Hty) as [Hut Htr].
  destruct (so_stored _ _ H _ _ _ _ _ _ Hdb Hty Hj) as (_ & _ & _ & Hu & Hn).
  (* Whatever is found afterwards was there before. *)
  assert (∀ i' db1 t' ty1, <[i := db']> (dbs s) !! i' = Some db1 → db_types db1 !! t' = Some ty1 →
    ∃ db0 ty0, dbs s !! i' = Some db0 ∧ db_name db0 = db_name db1 ∧ db_types db0 !! t' = Some ty0 ∧ ut_id ty0 = ut_id ty1 ∧
      ∀ j' set', ut_sets ty1 !! j' = Some set' → ut_sets ty0 !! j' = Some set' ∧ (i', t', j') ≠ (i, t, j)) as Hold.
  { intros i' db1 t' ty1 [[<- <-]|[Hne Hdb1]]%lookup_insert_Some E; [|exists db1, ty1; split_and!; try done; intros; split; congruence].
    cbn in E. apply lookup_insert_Some in E as [[<- <-]|[Hne E]]; [|exists db, ty1; split_and!; try done; intros; split; congruence].
    exists db, ty. split_and!; try done. intros j' set' Ej. cbn in Ej. apply lookup_delete_Some in Ej as [Hne Ej]. split; congruence. }
  split; cbn [dbs name2id typename2id usersetSeqIds databaseSeqId userSets names2ids held without_set]; fold i j t; fold ty' db'; try apply H.
  - done.
  - intros i' db1 [[<- <-]|[Hne Hdb1]]%lookup_insert_Some; [done|]. by apply H.
  - intros d' i' Hd'. destruct (so_names _ _ H _ _ Hd') as (db0 & Hdb0 & Hn0). destruct (decide (i' = i)) as [->|Hne].
    + exists db'. rewrite lookup_insert_eq. split; [done|]. cbn. congruence.
    + exists db0. by rewrite lookup_insert_ne.
  - intros i' db1 t' ty1 Hdb1 E. destruct (Hold _ _ _ _ Hdb1 E) as (db0 & ty0 & Hdb0 & _ & E0 & <- & _). by apply (so_types _ _ H _ _ _ _ Hdb0).
  - intros i' db1 t' ty1 j' set' Hdb1 E Ej. destruct (Hold _ _ _ _ Hdb1 E) as (db0 & ty0 & Hdb0 & <- & E0 & _ & Hsets).
    destruct (Hsets _ _ Ej) as [Ej0 Hne]. destruct (so_stored _ _ H _ _ _ _ _ _ Hdb0 E0 Ej0) as (E1 & E2 & E3 & Hu' & Hn').
    assert ((i', j') ≠ (i, j)) as Hij by (intros [= -> ->]; rewrite Hu' in Hu; injection Hu as ->; apply Hne; by rewrite <-E2).
    split_and!; try done; [by rewrite lookup_delete_ne|]. rewrite lookup_delete_ne; [done|]. intros Heq. congruence.
  - intros i' j' set' [Hne Hu']%lookup_delete_Some. destruct (so_user _ _ H _ _ _ Hu') as (db0 & ty0 & Hdb0 & E0 & Ej).
    destruct (decide (i' = i)) as [->|Hni]; [|exists db0, ty0; by rewrite lookup_insert_ne].
    rewrite Hdb in Hdb0. injection Hdb0 as <-. exists db'. destruct (decide (us_typeId set' = t)) as [Heq|Hnt].
    + exists ty'. rewrite Heq in *. rewrite Hty in E0. injection E0 as <-. rewrite lookup_insert_eq. cbn. rewrite lookup_insert_eq. cbn.
      rewrite lookup_delete_ne by congruence. done.
    + exists ty0. rewrite lookup_insert_eq. cbn. by rewrite lookup_insert_ne.
  - intros k ids [Hne Hk]%lookup_delete_Some. destruct (so_known _ _ H _ _ Hk) as (set' & db0 & Hu' & Hdb0 & ->). exists set'.
    assert ((i, j) ≠ ids) as Hids by (intros <-; cbn in *; rewrite Hdb in Hdb0; injection Hdb0 as <-; congruence).
    rewrite lookup_delete_ne by done. destruct (decide (ids.1 = i)) as [Heq|Hni]; [|exists db0; by rewrite lookup_insert_ne].
    exists db'. rewrite Heq in *. rewrite lookup_insert_eq. rewrite Hdb in Hdb0. by injection Hdb0 as <-.
  - intros i' j' [set' [_ Hu']%lookup_delete_Some]. destruct (so_fresh _ _ H _ _ (mk_is_Some _ _ Hu')) as (db0 & nx & Hdb0 & ? & ?).
    destruct (decide (i' = i)) as [->|Hni]; [|exists db0, nx; by rewrite lookup_insert_ne].
    exists db', nx. rewrite lookup_insert_eq. rewrite Hdb in Hdb0. by injection Hdb0 as <-.
Qed.

Lemma removeSet_ok c d n s f :
  server_ok c s → sets_are f s →
  ∃ s', removeSet d n s = (Ret (bool_decide (is_Some (f !! (d, n)))), s') ∧
    server_ok c s' ∧ same_rest s s' ∧ sets_are (delete (d, n) f) s'.
Proof.
  intros H Hf. unfold removeSet. run. pose proof (Hf (d, n)) as Hfk. destruct (getSet (d, n) s) as [set|] eqn:Hget.
  - destruct (getSet_agrees _ _ _ _ _ H Hget) as (db & ty & <- & <- & Hdb & Hty & Hut & Hj & Hk & Hu & _).
    eexists. rewrite Hdb. run. rewrite (lock_ok _ _ (so_held _ _ H)). run. unfold getType. fields. rewrite Hty. unfold UserType_removeSet. rewrite Hj.
    unfold in_type_dir, put_db. run. rewrite unlock_ok by done. run. rewrite <-Hfk. cbn [fmap option_fmap option_map].
    split; [reflexivity|]. split; [|split; [done|]].
    + fields. rewrite Hut. by apply (without_set_ok c db ty set _ s H).
    + intros k. destruct (decide (k = (db_name db, us_setName set))) as [->|Hne].
      * rewrite lookup_delete_eq. unfold getSet. fields. by rewrite lookup_delete_eq.
      * rewrite lookup_delete_ne by done. rewrite <-(Hf k). unfold getSet. fields. rewrite lookup_delete_ne by done.
        destruct (names2ids s !! k) as [ids|] eqn:E; [|done]. cbn. destruct (so_known _ _ H _ _ E) as (set' & db' & Hu' & Hdb' & ->).
        rewrite lookup_delete_ne; [done|]. intros <-. cbn in Hdb'. congruence.
  - exists s. rewrite <-Hfk. split_and!; try done. intros k. rewrite (Hf k). destruct (decide (k = (d, n))) as [->|Hne].
    + by rewrite lookup_delete_eq, <-Hfk.
    + by rewrite lookup_delete_ne.
Qed.
End sets.
