(* ===== verification/StorageCatalogue.v ===== *)
(** * StorageCatalogue: the tables of a storage server are a catalogue of sets

    An abstract specification of StorageSets: the names of the databases, a map
    from names to sets, and the temporary sets.  Proves that every sequence of
    operations on a server that starts on an empty disk has the results this
    specification gives, and shows where the code leaves it: requests that clear a
    set, sets of a database that is not there, databases that are removed with
    sets in them, and servers that start again from their directories. *)

From stdpp Require Import pretty.
From S2P Require Import Prelude.
From S2P Require Import LocalitySet.
From S2P Require Import StorageSets.
From S2P Require Import StorageSetsSpec.

Implicit Types (s : server) (db : database) (ty : user_type) (set : user_set) (d n : string) (i j t : Z).

(** ** Temporary sets *)

Record temps_ok (c : Z) s : Prop := {
  te_inv i n : tempSets s !! i = Some n ↔ name2tempSetId s !! n = Some i;
  te_fresh i : is_Some (tempSets s !! i) → (i < tempsetSeqId s)%Z;
  te_seq : (0 ≤ tempsetSeqId s ≤ c)%Z
}.

Definition with_temp n s : server :=
  set_temp (<[tempsetSeqId s := n]> (tempSets s)) (<[n := tempsetSeqId s]> (name2tempSetId s)) (tempsetSeqId s + 1)%Z s.

Definition without_temp i n s : server := set_temp (delete i (tempSets s)) (delete n (name2tempSetId s)) (tempsetSeqId s) s.

Lemma new_temp_id c s : temps_ok c s → tempSets s !! tempsetSeqId s = None.
Proof. intros H. destruct (tempSets s !! tempsetSeqId s) eqn:E; [|done]. pose proof (te_fresh _ _ H _ (mk_is_Some _ _ E)). lia. Qed.

Lemma addTempSet_ok c n s :
  held s = [] → temps_ok c s → (c + 1 < u32_modulus)%Z →
  match name2tempSetId s !! n with
  | Some _ => addTempSet n s = (Ret None, s)
  | None => addTempSet n s = (Ret (Some (tempsetSeqId s)), with_temp n s) ∧ temps_ok (c + 1) (with_temp n s)
  end.
Proof.
  intros Hh H Hc. unfold addTempSet. run. destruct (name2tempSetId s !! n) as [i|] eqn:Hn; [done|]. pose proof (te_seq _ _ H) as Hseq.
  pose proof (new_temp_id c s H) as Hnew. run. rewrite lock_ok by done. run. rewrite unlock_ok by done. run. fields.
  rewrite (u32_small (tempsetSeqId s + 1)), !insert_new_None by (done || lia). split.
  - unfold with_temp. f_equal. destruct s. cbn in *. by rewrite Hh.
  - split; cbn.
    + intros i m. rewrite !lookup_insert_Some. rewrite (te_inv _ _ H). split; intros [[-> ->]|[Hne Hi]]; try (by left); right; (split; [|done]).
      * intros ->. congruence.
      * intros Heq. rewrite <-Heq, <-(te_inv _ _ H), Hnew in Hi. done.
    + intros i [m [[<- _]|[_ Hi]]%lookup_insert_Some]; [lia|]. pose proof (te_fresh _ _ H i (mk_is_Some _ _ Hi)). lia.
    + lia.
Qed.

Lemma removeTempSet_ok c i s :
  held s = [] → temps_ok c s →
  match tempSets s !! i with
  | None => removeTempSet i s = (Ret false, s)
  | Some n => removeTempSet i s = (Ret true, without_temp i n s) ∧ temps_ok c (without_temp i n s)
  end.
Proof.
  intros Hh H. unfold removeTempSet. run. destruct (tempSets s !! i) as [n|] eqn:Hi; [|done]. run. rewrite lock_ok by done. run.
  rewrite unlock_ok by done. run. fields. split; [unfold without_temp; f_equal; destruct s; cbn in *; by rewrite Hh|]. split; cbn.
  - intros j m. rewrite !lookup_delete_Some. rewrite (te_inv _ _ H). split; intros [Hne Hj]; (split; [|done]); intros <-.
    + rewrite (te_inv _ _ H) in Hi. congruence.
    + rewrite <-(te_inv _ _ H) in Hj. congruence.
  - intros j [m [_ Hj]%lookup_delete_Some]. by apply (te_fresh _ _ H), (mk_is_Some _ _ Hj).
  - apply H.
Qed.

(** ** Specification *)

(** What the tables stand for. *)
Record catalogue := MkCat {
  ca_dbs : gset string; ca_sets : gmap (string * string) set_info; ca_temps : gmap Z string; ca_nextTemp : Z
}.

Inductive op :=
  | OAddDatabase (d : string) | ORemoveDatabase (d : string)
  | OAddSet (d tn n : string) (ps ds : Z) (mru tr sh : bool) | ORemoveSet (d n : string) | OGetSet (d n : string)
  | OAddTempSet (n : string) | ORemoveTempSet (i : Z) | OGetTempSet (i : Z).

Inductive answer := ABool (b : bool) | ASet (o : option set_info) | AId (o : option Z) | AName (o : option string).

(** The set that is added goes to a database that is there, and a database that
    is removed is empty. *)
Definition allowed (o : op) (ca : catalogue) : bool :=
  match o with
  | OAddSet d _ _ _ _ _ _ _ => bool_decide (d ∈ ca_dbs ca)
  | ORemoveDatabase d => bool_decide (map_Forall (λ k _, k.1 ≠ d) (ca_sets ca))
  | _ => true
  end.

Definition cat_step (o : op) (ca : catalogue) : answer * catalogue :=
  let '(MkCat ds ss ts nx) := ca in
  match o with
  | OAddDatabase d => (ABool (bool_decide (d ∉ ds)), MkCat ({[d]} ∪ ds) ss ts nx)
  | ORemoveDatabase d => (ABool (bool_decide (d ∈ ds)), MkCat (ds ∖ {[d]}) ss ts nx)
  | OAddSet d tn n ps sz mru tr sh =>
      (ABool (bool_decide (ss !! (d, n) = None)),
       MkCat ds (if decide (ss !! (d, n) = None) then <[(d, n) := new_info ps sz mru tr sh]> ss else ss) ts nx)
  | ORemoveSet d n => (ABool (bool_decide (is_Some (ss !! (d, n)))), MkCat ds (delete (d, n) ss) ts nx)
  | OGetSet d n => (ASet (ss !! (d, n)), ca)
  | OAddTempSet n =>
      if decide (n ∈ (map_img ts : gset string)) then (AId None, ca) else (AId (Some nx), MkCat ds ss (<[nx := n]> ts) (nx + 1))
  | ORemoveTempSet i => (ABool (bool_decide (is_Some (ts !! i))), MkCat ds ss (delete i ts) nx)
  | OGetTempSet i => (AName (ts !! i), ca)
  end.

Section sets.
Context (getIDByName : string → Z).

Definition server_step (o : op) : M server answer :=
  match o with
  | OAddDatabase d => a ← addDatabase d; mret (ABool a)
  | ORemoveDatabase d => a ← removeDatabase d; mret (ABool a)
  | OAddSet d tn n ps ds mru tr sh => a ← addSet getIDByName d tn n ps ds mru tr sh; mret (ABool a)
  | ORemoveSet d n => a ← removeSet d n; mret (ABool a)
  | OGetSet d n => s ← get; mret (ASet (info <$> getSet (d, n) s))
  | OAddTempSet n => a ← addTempSet n; mret (AId a)
  | ORemoveTempSet i => a ← removeTempSet i; mret (ABool a)
  | OGetTempSet i => s ← get; mret (AName (getTempSet i s))
  end.

Fixpoint all_allowed (ops : list op) (ca : catalogue) : bool :=
  match ops with [] => true | o :: ops => allowed o ca && all_allowed ops (cat_step o ca).2 end.

Fixpoint cat_run (ops : list op) (ca : catalogue) : list answer :=
  match ops with [] => [] | o :: ops => (cat_step o ca).1 :: cat_run ops (cat_step o ca).2 end.

Fixpoint server_run (ops : list op) : M server (list answer) :=
  match ops with [] => mret [] | o :: ops => a ← server_step o; rest ← server_run ops; mret (a :: rest) end.

Record sim (c : Z) (ca : catalogue) s : Prop := {
  si_ok : server_ok c s;
  si_temps : temps_ok c s;
  si_dbs d : d ∈ ca_dbs ca ↔ is_Some (name2id s !! d);
  si_sets : sets_are (ca_sets ca) s;
  si_tempSets : tempSets s = ca_temps ca;
  si_next : tempsetSeqId s = ca_nextTemp ca
}.

Lemma temps_ok_same c c' s s' : temps_ok c s → (c ≤ c')%Z →
  tempSets s' = tempSets s → name2tempSetId s' = name2tempSetId s → tempsetSeqId s' = tempsetSeqId s → temps_ok c' s'.
Proof.
  intros [H1 H2 H3] Hc E1 E2 E3. split; rewrite ?E1, ?E2, ?E3; [done|done|lia].
Qed.

Lemma server_ok_temps c s x y z : server_ok c s → server_ok c (set_temp x y z s).
Proof. intros [H1 H2 H3 H4 H5 H6 H7 H8 H9 H10 H11 H12 H13]. by split. Qed.

Lemma bool_decide_fmap_None {A B} (f : A → B) (o : option A) : bool_decide (o = None) = bool_decide (f <$> o = None).
Proof. by destruct o. Qed.

Lemma sim_more c c' ca s : (c ≤ c')%Z → sim c ca s → sim c' ca s.
Proof.
  intros Hc [H1 H2 H3 H4 H5 H6]. split; try done; [by apply (server_ok_more c)|]. apply (temps_ok_same c c' s s); done.
Qed.

Section step.
Context (c : Z) (ca : catalogue) (s : server) (H : sim c ca s) (Hc : (c + 2 < u32_modulus)%Z).

Definition step_refines (o : op) : Prop :=
  ∃ s', server_step o s = (Ret (cat_step o ca).1, s') ∧ sim (c + 1) (cat_step o ca).2 s'.

Lemma step_AddDatabase d : step_refines (OAddDatabase d).
Proof.
  unfold step_refines. cbn [server_step]. pose proof (addDatabase_ok c d s (si_ok _ _ _ H) Hc) as Hrun. pose proof (si_dbs _ _ _ H d) as Hd.
  destruct ca as [ds ss ts nx] eqn:Eca. cbn in *. destruct (name2id s !! d) as [i|] eqn:Ei.
  - exists s. rewrite M_bind_unfold, Hrun, bool_decide_false by naive_solver. split; [done|]. apply (sim_more c); [lia|].
    replace ({[d]} ∪ ds) with ds by (assert (d ∈ ds) by naive_solver; set_solver). done.
  - exists (with_database d s). rewrite M_bind_unfold, Hrun, bool_decide_true by naive_solver. split; [done|].
    pose proof (so_dbSeq _ _ (si_ok _ _ _ H)) as ?. destruct H as [H1 H2 H3 H4 H5 H6]. split; try done.
    + apply with_database_ok; [done| |done]. pose proof (te_seq _ _ H2). lia.
    + apply (temps_ok_same c (c + 1) s); (done || lia).
    + intros d'. cbn. rewrite lookup_insert_is_Some'. cbn in H3. specialize (H3 d'). set_solver.
Qed.

Lemma step_RemoveDatabase d : allowed (ORemoveDatabase d) ca = true → step_refines (ORemoveDatabase d).
Proof.
  intros Hal%bool_decide_eq_true. unfold step_refines. cbn [server_step].
  pose proof (removeDatabase_ok c d s (si_ok _ _ _ H)) as Hrun. pose proof (si_dbs _ _ _ H d) as Hd.
  destruct ca as [ds ss ts nx] eqn:Eca. cbn in *. destruct (name2id s !! d) as [i|] eqn:Ei.
  - exists (without_database i d s). rewrite M_bind_unfold, Hrun, bool_decide_true by naive_solver. split; [done|]. apply (sim_more c); [lia|].
    destruct H as [H1 H2 H3 H4 H5 H6]. split; try done.
    + apply without_database_ok; [done..|]. intros n. rewrite names_taken by done. specialize (H4 (d, n)). cbn in H4.
      destruct (getSet (d, n) s) as [x|]; [|done]. by destruct (Hal (d, n) (info x)).
    + apply (temps_ok_same c c s); (done || lia).
    + intros d'. cbn. rewrite lookup_delete_is_Some. cbn in H3. specialize (H3 d'). set_solver.
  - exists s. rewrite M_bind_unfold, Hrun, bool_decide_false by naive_solver. split; [done|]. apply (sim_more c); [lia|].
    replace (ds ∖ {[d]}) with ds by (assert (d ∉ ds) by naive_solver; set_solver). done.
Qed.

Lemma step_AddSet d tn n ps sz mru tr sh :
  allowed (OAddSet d tn n ps sz mru tr sh) ca = true → step_refines (OAddSet d tn n ps sz mru tr sh).
Proof.
  intros Hal%bool_decide_eq_true. unfold step_refines. cbn [server_step]. destruct ca as [ds ss ts nx] eqn:Eca. destruct H as [H1 H2 H3 H4 H5 H6].
  destruct (addSet_ok getIDByName c d tn n ps sz mru tr sh s ss H1 ltac:(lia) (proj1 (H3 d) Hal) H4) as (s' & Hrun & Hok & Hrest & Hsets).
  exists s'. rewrite M_bind_unfold, Hrun. pose proof (H4 (d, n)) as Hk. cbn in Hk. cbn. rewrite <-Hk.
  rewrite <-bool_decide_fmap_None. split; [done|]. destruct Hrest as (E1 & E2 & E3 & E4). split; cbn; rewrite ?E1, ?E2, ?E4; try done.
  - apply (temps_ok_same c (c + 1) s); (done || lia).
  - cbn in Hsets. by destruct (getSet (d, n) s).
Qed.

Lemma step_RemoveSet d n : step_refines (ORemoveSet d n).
Proof.
  unfold step_refines. cbn [server_step]. destruct ca as [ds ss ts nx] eqn:Eca. destruct H as [H1 H2 H3 H4 H5 H6].
  destruct (removeSet_ok c d n s ss H1 H4) as (s' & Hrun & Hok & Hrest & Hsets).
  exists s'. rewrite M_bind_unfold, Hrun. split; [done|]. apply (sim_more c); [lia|].
  destruct Hrest as (E1 & E2 & E3 & E4). split; cbn; rewrite ?E1, ?E2, ?E4; try done. apply (temps_ok_same c c s); (done || lia).
Qed.

Lemma step_AddTempSet n : step_refines (OAddTempSet n).
Proof.
  unfold step_refines. cbn [server_step]. destruct H as [H1 H2 H3 H4 H5 H6]. pose proof (addTempSet_ok c n s (so_held _ _ H1) H2 ltac:(lia)) as Hrun.
  pose proof (te_inv _ _ H2) as Hinv. destruct ca as [ds ss ts nx] eqn:Eca. cbn in *. rewrite H5 in Hinv.
  destruct (name2tempSetId s !! n) as [i|] eqn:En.
  - exists s. rewrite M_bind_unfold, Hrun, decide_True by (apply elem_of_map_img; exists i; by apply Hinv). split; [done|]. by apply (sim_more c); [lia|].
  - destruct Hrun as [Hrun Htemps]. exists (with_temp n s). rewrite M_bind_unfold, Hrun, decide_False.
    + split; [by rewrite H6|]. split; cbn; try done; [by apply server_ok_temps, (server_ok_more c); [lia|]|by rewrite H5, H6|by rewrite H6].
    + intros [i Hi]%elem_of_map_img. apply Hinv in Hi. congruence.
Qed.

Lemma step_RemoveTempSet i : step_refines (ORemoveTempSet i).
Proof.
  unfold step_refines. cbn [server_step]. destruct H as [H1 H2 H3 H4 H5 H6]. pose proof (removeTempSet_ok c i s (so_held _ _ H1) H2) as Hrun.
  destruct ca as [ds ss ts nx] eqn:Eca. cbn in *. rewrite H5 in Hrun. destruct (ts !! i) as [n|] eqn:Ei.
  - destruct Hrun as [Hrun Htemps]. exists (without_temp i n s). rewrite M_bind_unfold, Hrun. split; [done|]. apply (sim_more c); [lia|].
    split; cbn; try done; [by apply server_ok_temps|by rewrite H5].
  - exists s. rewrite M_bind_unfold, Hrun. split; [done|]. apply (sim_more c); [lia|]. by rewrite delete_id.
Qed.

Lemma step_ok o : allowed o ca = true → step_refines o.
Proof.
  destruct o; intros Hal.
  - apply step_AddDatabase.
  - by apply step_RemoveDatabase.
  - by apply step_AddSet.
  - apply step_RemoveSet.
  - exists s. pose proof (si_sets _ _ _ H (d, n)) as Hk. pose proof (sim_more c (c + 1) ca s ltac:(lia) H) as H'.
    destruct ca. cbn in *. by rewrite <-Hk.
  - apply step_AddTempSet.
  - apply step_RemoveTempSet.
  - exists s. pose proof (sim_more c (c + 1) ca s ltac:(lia) H) as H'. pose proof (si_tempSets _ _ _ H) as Ht.
    destruct ca as [ds ss ts nx]. cbn in Ht. subst ts. by split.
Qed.
End step.

Lemma server_run_ok ops : ∀ c ca s,
  sim c ca s → (c + Z.of_nat (length ops) + 1 < u32_modulus)%Z → all_allowed ops ca = true →
  ∃ s' ca', server_run ops s = (Ret (cat_run ops ca), s') ∧ sim (c + Z.of_nat (length ops)) ca' s'.
Proof.
  induction ops as [|o ops IH]; intros c ca s H Hc Hal; cbn in *.
  { exists s, ca. split; [done|]. by rewrite Z.add_0_r. }
  apply andb_true_iff in Hal as [Ho Hal]. destruct (step_ok c ca s H ltac:(lia) o Ho) as (s1 & Hrun & H1).
  destruct (IH (c + 1)%Z _ s1 H1 ltac:(lia) Hal) as (s' & ca' & Hrest & H'). exists s', ca'.
  rewrite M_bind_unfold, Hrun. rewrite M_bind_unfold, Hrest. split; [done|]. apply (sim_more (c + 1 + Z.of_nat (length ops))); [lia|done].
Qed.
End sets.

(** ** The server that starts on an empty disk *)

Definition empty_catalogue : catalogue := MkCat ∅ ∅ ∅ 0.

Definition empty_server : server := MkServer ∅ ∅ {[unknown_type := 0%Z]} ∅ 1 ∅ ∅ ∅ ∅ 0 [] ∅.

Lemma start_empty (listing : ∀ A, gmap string A → list (string * A)) in_order :
  (∀ A m, listing A m ≡ₚ map_to_list m) → PangeaStorageServer_new listing in_order ∅ = Ret empty_server.
Proof.
  intros Hl. unfold PangeaStorageServer_new. pose proof (Hl _ (∅ : gmap string (gmap string (gmap string Z)))) as E.
  rewrite map_to_list_empty in E. apply Permutation_nil_r in E. by rewrite E.
Qed.

Lemma empty_sim : sim 0 empty_catalogue empty_server.
Proof.
  split; try done.
  - split; try done; cbn; [by intros i j []|].
    intros n t [[_ <-]|[_ Hn]]%lookup_insert_Some; [done|by rewrite lookup_empty in Hn].
  - split; cbn; [done|by intros i []|done].
  - intros d. cbn. rewrite lookup_empty. split; [set_solver|by intros []].
Qed.

(** [C16] The tables of a storage server are a catalogue.  Databases, sets and
    temporary sets are added to a server with an empty disk, removed from it and
    asked for, in any order in which sets are added only to databases that are
    there (otherwise [addSet_without_database]) and databases are removed only
    when they are empty (otherwise [removed_database_keeps_names]), by fewer than
    2^32 - 1 calls.  Then every call ends with the result a map from names to sets
    gives, no lock stays taken, and what is found by its name is found by its
    ids. *)
Theorem storage_is_catalogue getIDByName listing in_order ops :
  (∀ A m, listing A m ≡ₚ map_to_list m) → (Z.of_nat (length ops) + 1 < u32_modulus)%Z → all_allowed ops empty_catalogue = true →
  ∃ s0 s, PangeaStorageServer_new listing in_order ∅ = Ret s0 ∧
    server_run getIDByName ops s0 = (Ret (cat_run ops empty_catalogue), s) ∧ held s = [] ∧
    ∀ d n x, getSet (d, n) s = Some x → us_setName x = n ∧ getSet_by_ids (us_dbId x) (us_typeId x) (us_setId x) s = Some (inl x).
Proof.
  intros Hl Hc Hal. destruct (server_run_ok getIDByName ops 0 _ _ empty_sim ltac:(lia) Hal) as (s & ca & Hrun & H).
  exists empty_server, s. split; [by apply start_empty|]. split; [done|]. split; [apply H|].
  intros d n x Hx. destruct (getSet_agrees _ _ _ _ _ (si_ok _ _ _ H) Hx) as (? & ? & ? & _ & _ & _ & _ & _ & _ & _ & ?). done.
Qed.

Definition demo_ops : list op :=
  [OAddDatabase "db"; OAddSet "db" "Emp" "a" 64 1 false true false; OAddSet "db" "Emp" "a" 32 1 true true false;
   OAddSet "db" "Dept" "b" 32 1 true false true; OGetSet "db" "a"; ORemoveSet "db" "a"; OGetSet "db" "a"; OGetSet "db" "b";
   OAddTempSet "t"; OAddTempSet "t"; ORemoveTempSet 0; OGetTempSet 0; ORemoveSet "db" "b"; ORemoveDatabase "db"; OAddDatabase "db"].

Lemma storage_is_catalogue_witness :
  cat_run demo_ops empty_catalogue =
    [ABool true; ABool true; ABool false; ABool true; ASet (Some (64%Z, 1%Z, LRU, Transient, false)); ABool true; ASet None;
     ASet (Some (32%Z, 1%Z, MRU, Persistent, true)); AId (Some 0%Z); AId None; ABool true; AName None; ABool true; ABool true; ABool true] ∧
  ∃ s0 s, PangeaStorageServer_new (λ A m, map_to_list m) (λ A m, map_to_list m) ∅ = Ret s0 ∧
    server_run (λ _, 200%Z) demo_ops s0 = (Ret (cat_run demo_ops empty_catalogue), s) ∧ held s = [] ∧
    ∀ d n x, getSet (d, n) s = Some x → us_setName x = n ∧ getSet_by_ids (us_dbId x) (us_typeId x) (us_setId x) s = Some (inl x).
Proof.
  split; [vm_compute; reflexivity|].
  apply (storage_is_catalogue (λ _, 200%Z) (λ A m, map_to_list m) (λ A m, map_to_list m) demo_ops); [done|done|vm_compute; reflexivity].
Defined.

(** ** What goes wrong *)

Definition flip (p : PersistenceType) : PersistenceType := match p with Transient => Persistent | Persistent => Transient end.

(** [C39] Clearing a set removes it and adds it again with its sizes, but a
    transient set comes back persistent and a persistent one transient, and a
    shared set is no longer shared. *)
Theorem clear_set_inverts_persistence getIDByName c s d tn n x :
  server_ok c s → (c + 1 < u32_modulus)%Z → getSet (d, n) s = Some x →
  ∃ s', handle_clear_set getIDByName d tn n s = (Ret true, s') ∧ server_ok (c + 1) s' ∧
    info <$> getSet (d, n) s' =
      Some (us_pageSize x, us_desiredSize x, match us_policy x with LRU => LRU | _ => MRU end, flip (us_persistence x), false) ∧
    ∀ k, k ≠ (d, n) → info <$> getSet k s' = info <$> getSet k s.
Proof.
  intros H Hc Hx. unfold handle_clear_set. run. rewrite Hx. set (m := userSets s).
  pose (f := omap (λ ids, info <$> userSets s !! ids) (names2ids s)).
  assert (sets_are f s) as Hf.
  { intros k. unfold f. rewrite lookup_omap. unfold getSet. by destruct (names2ids s !! k). }
  destruct (removeSet_ok c d n s f H Hf) as (s1 & Hrun & H1 & Hrest & Hf1).
  destruct (getSet_agrees _ _ _ _ _ H Hx) as (db & _ & _ & Hname & Hdb & _). destruct (so_dbs _ _ H _ _ Hdb) as (_ & Hid & _).
  rewrite Hname in Hid. rewrite bool_decide_true in Hrun by (rewrite <-(Hf (d, n)), Hx; by eexists).
  rewrite M_bind_unfold, Hrun. assert (getSet (d, n) s1 = None) as Hgone.
  { pose proof (Hf1 (d, n)) as E. rewrite lookup_delete_eq in E. by destruct (getSet (d, n) s1). }
  assert (is_Some (name2id s1 !! d)) as Hid1 by (rewrite (proj1 Hrest); by eexists).
  destruct (addSet_ok getIDByName c d tn n (us_pageSize x) (us_desiredSize x) (policy_as_bool (us_policy x))
    (persistence_as_bool (us_persistence x)) false s1 _ H1 Hc Hid1 Hf1) as (s2 & Hadd & H2 & _ & Hf2).
  exists s2. rewrite Hadd, Hgone. split; [done|]. split; [done|]. rewrite decide_True in Hf2 by done. split.
  - rewrite (Hf2 (d, n)), lookup_insert_eq. unfold new_info. by destruct (us_policy x), (us_persistence x).
  - intros k Hk. by rewrite (Hf2 k), lookup_insert_ne, lookup_delete_ne, (Hf k) by done.
Qed.

(** A set added to a database that is not there: the lock is given back twice. *)
Lemma addSet_without_database getIDByName c d tn n ps ds mru tr sh s :
  server_ok c s → (c + 2 < u32_modulus)%Z → name2id s !! d = None →
  (addSet getIDByName d tn n ps ds mru tr sh s).1 = Undefined.
Proof.
  intros H Hc Hd. pose proof (addDatabase_ok c d s H Hc) as Hadd. rewrite Hd in Hadd. unfold addSet.
  assert (usersetSeqIds s !! d = None) as Hseq.
  { destruct (usersetSeqIds s !! d) eqn:E; [|done]. destruct (proj1 (so_seq _ _ H d) ltac:(by rewrite E)) as [? ?]. congruence. }
  rewrite M_bind_unfold, (lock_ok _ _ (so_held _ _ H)). run. fields. rewrite decide_False by (rewrite Hseq; by intros []). run.
  rewrite unlock_ok by done. run. fields.
  assert (set_held [] (set_held [usersetLock] s) = s) as -> by (rewrite <-(server_eq s) at 2 by apply H; done).
  rewrite Hadd. run. unfold with_database. fields. rewrite lookup_insert_eq. run. done.
Qed.

Definition demo_server (ops : list op) : server := (server_run (λ _, 200%Z) ops empty_server).2.

Definition demo_restart (s : server) : outcome server := PangeaStorageServer_new (λ A m, map_to_list m) (λ A m, map_to_list m) (disk s).

(** A set stays known by its name when its database is removed: in a new database
    of that name no such set can be added. *)
Lemma removed_database_keeps_names :
  let s := demo_server [OAddDatabase "db"; OAddSet "db" "Emp" "a" 64 1 false true false; ORemoveDatabase "db"; OAddDatabase "db"] in
  db_types <$> (i ← name2id s !! "db"; dbs s !! i) = Some ∅ ∧
  (addSet (λ _, 200%Z) "db" "Emp" "a" 64 1 false true false s).1 = Ret false ∧ (removeSet "db" "a" s).1 = Ret true.
Proof. vm_compute. done. Qed.

(** After a start from directories the id of the next database is taken. *)
Lemma restarted_server_adds_no_database :
  ∃ s, demo_restart (demo_server [OAddDatabase "db"; OAddSet "db" "Emp" "a" 64 1 false true false]) = Ret s ∧
    (info <$> getSet ("db", "a") s) = Some (64%Z, 1%Z, LRU, Persistent, false) ∧ name2id s !! "new" = None ∧
    (addDatabase "new" s).1 = Ret false.
Proof. eexists. split; [vm_compute; reflexivity|]. vm_compute. done. Qed.

(** A type that is removed comes back with its sets. *)
Lemma removed_type_returns :
  let s := (removeTypeFromDatabase "db" "Emp" (demo_server [OAddDatabase "db"; OAddSet "db" "Emp" "a" 64 1 false true false])).2 in
  (db ← dbs s !! 1%Z; getType 200 db) = None ∧ ∃ s', demo_restart s = Ret s' ∧ getSet ("db", "a") s' = Some (MkSet 1 200 0 "a" 64 1 LRU Persistent false).
Proof. split; [vm_compute; done|]. eexists. split; [vm_compute; reflexivity|]. vm_compute. done. Qed.

Lemma clear_set_inverts_persistence_witness :
  let s := demo_server [OAddDatabase "db"; OAddSet "db" "Emp" "a" 64 1 false true true] in
  info <$> getSet ("db", "a") s = Some (64%Z, 1%Z, LRU, Transient, true) ∧
  ∃ s', handle_clear_set (λ _, 200%Z) "db" "Emp" "a" s = (Ret true, s') ∧ server_ok 3 s' ∧
    info <$> getSet ("db", "a") s' = Some (64%Z, 1%Z, LRU, Persistent, false) ∧
    ∀ k, k ≠ ("db", "a") → info <$> getSet k s' = info <$> getSet k s.
Proof.
  split; [vm_compute; reflexivity|].
  pose proof (server_run_ok (λ _, 200%Z) [OAddDatabase "db"; OAddSet "db" "Emp" "a" 64 1 false true true] 0 _ _ empty_sim eq_refl eq_refl)
    as (s & ca & Hrun & Hsim).
  assert (demo_server [OAddDatabase "db"; OAddSet "db" "Emp" "a" 64 1 false true true] = s) as Hs by (unfold demo_server; by rewrite Hrun).
  pose proof (si_ok _ _ _ Hsim) as H. rewrite <-Hs in H.
  apply (clear_set_inverts_persistence (λ _, 200%Z) 2 _ "db" "Emp" "a" (MkSet 1 200 0 "a" 64 1 LRU Transient true) H);
    [done|vm_compute; reflexivity].
Defined.
